(* ===== verification/_CoqProject ===== *)
-Q . S2P
Prelude.v
CongestionControl.v
Loss.v
NetTypes.v
Checksum.v
Wire.v
TcpTypes.v
TcpSend.v
TcpWire.v
SeqNum.v
RxRing.v
OooQueue.v
Rtx.v
RtxProps.v
LossRecovery.v
HashTable.v
Pool.v
Receive.v
Frames.v
Lifecycle.v
SlotMethods.v
PoolInv.v
EngineInv.v
TickInv.v
Engine.v
Stream.v
SendStream.v
Injection.v
Ports.v
Handshake.v
Huffman.v
Hpack.v
H2Frame.v
QuicWire.v
QuicFrame.v
Treiber.v
RxInbox.v
RxInboxInv.v
RxInboxProps.v
Spsc.v
TxStaging.v
Deque.v
Drr.v
QuicParams.v
QuicStreams.v
QuicStreamProps.v
QuicCrypto.v
QuicSpace.v
QuicLoss.v
QuicFlow.v
QuicFlowInv.v
QuicFlowProps.v
QuicConn.v
QuicConnInv.v
QuicEncode.v
QuicEncodeInv.v
QuicPacket.v
QuicTrace.v
QuicSendProps.v
