(* ===== verification/Prelude.v ===== *)
(** * Waitless network stack: a verification development

    Waitless is a library operating system for network services.  This library
    models its transport: congestion control, loss detection, the wire formats
    from Ethernet up to TCP, and the per-core TCP engine (src/crates/net), and the
    codecs of the protocols above it that are pure functions of bytes: HPACK with
    its Huffman code, HTTP/2 frames, the QUIC wire format and transport parameters
    (src/crates/proto); and below it the lock-free queues that move frames and
    tasks between cores (src/crates/kernel/core, src/crates/util/tagged-treiber)
    and the scheduler that shares a transmit queue among QUIC flows; and a QUIC
    connection between packet protection and the application: frames, streams,
    flow control both ways, acknowledgements, loss recovery and the building of
    1-RTT packets.  Everything is an executable function translated from the Rust
    source, with the theorems that make it correct.

    ** How the program is modelled

    - A [w]-bit integer is a [Z]; truncation, wrap-around, saturation and signed
      reinterpretation are written out ([w16], [w32], [sat_sub], [i32]).
    - A method on [&mut self] is a computation of the state monad [St] below.  The
      TCP code runs on a connection and its environment ([CS] = [TcpConnection] *
      [Ctx]), lifted to a slot of a core's pool by [on_slot]; [Ctx] holds the
      clock, the scripts of the allocator, the NIC and the random generator (what
      each request will be granted), MAC resolution as a function, and the list of
      segments put on the wire.  Every theorem holds for any content of it.
    - A slice or index of the QUIC frame codec that may be out of range is a panic
      ([FramePanic]), shown never to happen.
    - An [IOBuf] chain is the list of its parts' bytes; a waker is a flag, and
      waking it is counted.
    - A QUIC connection is one record in the source; here it is [Conn], what receiving
      works on, and [Sender], what loss recovery works on, inside [Quic], the rest
      ([on_conn], [on_send] lift their computations).  TLS is the bytes it holds and
      wants sent; sealing a packet leaves its payload and its length on the wire.
    - The body of a loop and the branches of a long function are definitions of
      their own, named in the comment of the function they belong to.
    - A single-number constant of the source is an [Abbreviation] of its value where
      no proof needs it folded.
    - A [BTreeMap] is the list of its entries in key order ([QuicStreams]).
    - A [Vec] or table is a list, a slot is an index, [NULL_SLOT] ends the intrusive
      lists, and a handle is the packed integer of the code.
    - An operation on memory that several cores share is a machine that performs
      one access per step ([Outcome]); a system state holds every core's machine,
      and a step relation interleaves their accesses in any order.  Memory is
      sequentially consistent; a weak compare-and-swap may fail at will.
    - A loop with a bound of its own is a [Fixpoint] on that bound.  The loops
      without one have fuel that is shown to be enough: the cube root
      ([icbrt_u128_correct]), the probe and back-shift of the hash table
      ([TCP_HASH_SIZE] steps reach every cell), the list walks (the pool's size, by
      the list invariant [pool_ok]), the tick walk ([TickInv.tick_run]), the
      accept loop ([Ports.accept_loop_fuel]), the HPACK loops
      ([Hpack.decode_loop_fuel], [evict_to_spec], [read_written_int]), the
      scheduler's search ([Drr.next_flow_loop_turn]), the transport-parameter
      loop ([QuicParams.parse_params_fuel]), the discarding of a stream's buffer
      ([QuicFlowInv.discard_loop_ok]), the frames of a payload and the ranges of an
      ACK (a frame takes at least a byte, [QuicFrame.quic_payload_typed]) and the
      chunks of a stream in a packet (each adds to a body of at most 1100 bytes,
      [QuicEncodeInv.fill_stream_fuel]).

    ** Parts, files and theorems

    - Prelude (this file): machine integers, the state monad and its frame rules
      ([preserves]), byte-list lemmas, tactics and hint databases.
    - CongestionControl (net/cc/src/lib.rs): the [CongestionControl] trait as a
      class with instances [NewReno] and [Cubic].  After any calls an ack grows the
      window by no more than it acknowledges, a timeout drops it to the floor and a
      loss reduces it by the algorithm's factor once per episode; the CUBIC curve
      is monotone and regains the old window after K, the cube root is exact.
    - Loss (net/cc/src/loss.rs): [detect] against a per-unit verdict, and its
      deadline.
    - NetTypes, Checksum, Wire (net/src: types.rs, from_bytes.rs, checksum.rs,
      ethernet.rs, ipv4.rs, ipv6.rs, classify.rs): checksums verify, headers round
      trip, the classifier's ranges lie inside the frame.
    - TcpTypes, TcpSend, TcpWire, SeqNum (net/tcp/src: state.rs, send.rs,
      receive.rs): the connection record, segment transmission, option and header
      parsing, round trips of whole frames and of the options, serial-number
      order.
    - RxRing, OooQueue (state.rs): the circular receive buffer refines a bounded
      queue; the reassembly queue is exact, drains to the peer's stream and
      advertises true SACK blocks.
    - Rtx, RtxProps, LossRecovery (state.rs): the retransmit queue.  Through any
      sequence of sender events, TSO records and the FIN included, it holds exactly
      the unacknowledged data, or nothing from a failed allocation until everything
      is acknowledged, so that what is re-sent is what was sent (parts are of 1 to
      65535 bytes: a longer one is recorded too short); ACKs retire exactly what
      they cover; RTO back-off, RTT bounds, SACK and RACK recovery re-send exactly
      the holes.
    - HashTable, Pool (pool.rs): the open-addressed table refines a finite map;
      slots, lists, listeners, accept rings, handles.
    - Receive, Lifecycle (receive.rs, connect.rs, ephemeral.rs, retransmit.rs,
      listener.rs): arrival of a segment, active open, the timer tick, listen,
      accept, close, shutdown.
    - Frames, SlotMethods: which part of a connection each method leaves alone, and
      which methods the pool's invariants tolerate.
    - PoolInv, EngineInv, TickInv, Engine: the engine of a core as a step relation
      ([Engine.step]).  In every reachable state the free and armed lists are
      well-formed ([engine_keeps_pool]), allocation never takes an open connection;
      while no tick has found a connection to give up, no deadline is off the armed
      list and a tick rebuilds it exactly; one with a give-up strands the rest of it
      ([tick_give_up_strands_timers], a defect).
    - Stream, SendStream: the byte stream end to end on each side: what the
      application reads is the peer's stream up to [rcv_nxt], FIN included, as long
      as [recv] is not called past a stashed zero-copy chunk; what [send_chain]
      transmits is the next part of ours, within the window.
    - Injection: forged segments change nothing, on open and on opening connections,
      and the challenge ACKs they draw are rate-limited; but a peer whose address collides with a connected one in
      the table's key reaches that connection ([colliding_peer_reaches_connection],
      a defect).
    - Ports: ephemeral ports are free and owned, [accept] hands out once.
    - Handshake: two engines joined by the wire format reach [Established]
      with matching state.
    - Huffman, Hpack, H2Frame (proto/field-huffman/src/lib.rs, proto/http2/src:
      hpack.rs, static_table.rs, frame.rs): the Huffman decoder accepts exactly the
      padded code words; the HPACK decoder carries out every representation as the
      RFC reads it, undoes the encoder and stays within its limits on any input;
      frames read back.
    - QuicWire (proto/quic/src/wire.rs): variable-length integers and packet numbers
      round trip, headers parse to exactly their bytes.
    - QuicParams (proto/quic/src/transport_params.rs): what a server or client
      advertises is what its peer parses, and whatever parses is in range.
    - QuicStreams, QuicStreamProps (proto/quic/src/streams.rs, util/iobuf): the two
      halves of a stream.  Reassembly is exact whatever the order, overlap and
      repetition of the frames; sender, network and receiver together carry the
      written bytes to the reader, end of stream included.
    - QuicCrypto (proto/quic/src/tls.rs, [RxBuf]): the handshake reassembly delivers
      a prefix of the peer's bytes within its budgets, and can lose bytes it was
      given.
    - QuicFlow, QuicFlowInv, QuicFlowProps (proto/quic/src/conn: rx.rs, tx.rs,
      mod.rs): the receive side of a connection as [St Conn] computations.  In-order
      data stays within the windows granted, the counters are exact, credit is
      never withdrawn, and it is renewed as the data is read while the process is
      within its budget; data that waits out of order is not bounded by the windows.
    - QuicFrame (proto/quic/src/frame.rs): every frame parser and writer.  What is
      written parses back and a writer fails exactly in a buffer too small; on any
      bytes the frame loop ends, never panics and hands on well-typed frames.
    - QuicSpace (proto/quic/src/conn: mod.rs, tx.rs): the ring of sent packets is an
      ordered map; the received packet numbers make ACK frames that name only what
      was received; the walk over an ACK looks up as many numbers as its sender
      likes ([ack_cost_unbounded], over a ring that logs its lookups; a defect).
    - QuicLoss (proto/quic/src/conn/loss.rs): acknowledgements, loss detection,
      round-trip estimates and probes on [Sender].  [books] says that the bytes in
      flight and those to be sent again are exact sums; [settles] accounts for every
      frame that may have to be sent again.
    - QuicConn, QuicConnInv (conn: mod.rs, rx.rs): the application's calls and the
      dispatch of a payload's frames on [Quic], and the invariant [inv] they keep:
      limits, counters, ids, and that every frame owed is a piece of what the
      application wrote ([story], over the log of what was written).
    - QuicEncode, QuicEncodeInv, QuicPacket (conn/tx.rs): what is due, the frames of
      a 1-RTT packet in order, its record, the pacer, the anti-amplification
      counters and the offload path.  Each stage of the encoder is shown to append
      whole frames within bounds ([pre], [streamed]), a finished packet to be on
      record as it is on the wire ([packet_of]).
    - QuicTrace, QuicSendProps: the life of a connection as a list of operations
      ([QOp], [run], with what callers see to in [legal]), and a log of what each
      stream was given, streams reaped before included ([incarnations]).  What a peer
      reads out of the packets built is a prefix of what was written to the stream,
      unless its id is written to again after it was reaped
      ([reused_id_repeats_offsets], a defect); the peer's limits hold; a packet is
      exactly its record and fits its slot; an ACK settles exactly what it names; the
      shortcut of an idle flush is exact; segments of a super-buffer are uniform,
      every packet sealed for one is on record, and one sealed too long is thrown
      away nevertheless ([gso_drops_sealed_packet], a defect).
    - Treiber, RxInbox, RxInboxInv, RxInboxProps (util/tagged-treiber/src/lib.rs,
      kernel/core/src/rx_inbox.rs): the cross-core inbox.  [TreiberLinks] is the
      trait by which a pool lends its links to the stack, as a class with its laws.
      In every interleaving of any number of cores each payload is delivered once
      and in order, the node pool runs dry only when more payloads than nodes are
      in flight, and a core left alone completes its call.
    - Spsc, TxStaging (kernel/core/src: spsc.rs, percpu.rs): the ring is a bounded
      FIFO under any interleaving; a burst longer than the staging pool overwrites
      its own packets ([tx_staging_overwrites], a defect).
    - Deque (kernel/core/src/deque.rs): the work-stealing deque hands out every
      task exactly once.
    - Drr (proto/quic/src/drr.rs): the ring, flags and credits as a queue of flows;
      no active flow starves.

    ** Not modelled

    - The futures and the executor that poll the socket interface, cross-core
      handle passing, and the atomics of the per-core tables: each core's TCP state
      has one writer, and the TCP model is one core at a time.
    - Weak memory: the queues' accesses are interleaved, not reordered; the
      acquire/release pairs that justify this are not modelled.
    - Reference counts of [IOBuf]s and the unsafe code that shares them; drivers,
      DMA, checksum offload; diagnostics counters.
    - ARP, NDP, ICMPv6, DHCP and UDP, and the glue that dispatches to them; TCP sees
      MAC resolution as a function.
    - TLS and packet protection, so of a QUIC connection the Initial, Handshake and
      close packets, key updates, 0-RTT and Retry; its endpoint, which owns sockets
      and tasks.  [legal] takes from there that the peer's parameters are known and
      applied before anything is sent.
    - HTTP/1, the HTTP/2 and HTTP/3 connections; drivers, the rest of the kernel,
      executor and applications. *)

From stdpp Require Export base tactics list numbers gmap option sorting.

(** This file holds what every component shares: machine-width integers, the
    state monad the stateful code is written in with its frame rules, list
    lemmas about byte buffers, and the development's tactics. *)

#[global] Open Scope Z_scope.

(* ------------------------------------------------------------------ *)
(** ** Machine-width integers *)

(** A [w]-bit unsigned integer is a [Z] in [0, 2^w).  The wrapping, saturating
    and signed-reinterpretation operations of Rust are written out; [usize] and
    [u64] values are 64 bits wide. *)

Definition U8_MAX : Z := 255.
Definition U16_MAX : Z := 65535.
Definition U32_MAX : Z := 4294967295.
Definition U64_MAX : Z := 18446744073709551615.
Definition U128_MAX : Z := 340282366920938463463374607431768211455.

(** Truncation ([as u8], [as u16], [as u32], [as u64]). *)
Definition w8 (x : Z) : Z := x mod 256.
Definition w16 (x : Z) : Z := x mod 65536.
Definition w32 (x : Z) : Z := x mod 4294967296.
Definition w64 (x : Z) : Z := x mod 18446744073709551616.

(** Reinterpretation of a [u32] as [i32]. *)
Definition i32 (x : Z) : Z := if x <? 2147483648 then x else x - 4294967296.

(** [a.saturating_sub(b)] at any unsigned width. *)
Definition sat_sub (a b : Z) : Z := Z.max 0 (a - b).
Definition sat_add8 (a b : Z) : Z := Z.min U8_MAX (a + b).
Definition sat_add32 (a b : Z) : Z := Z.min U32_MAX (a + b).
Definition sat_mul32 (a b : Z) : Z := Z.min U32_MAX (a * b).
Definition sat_add64 (a b : Z) : Z := Z.min U64_MAX (a + b).
Definition sat_mul64 (a b : Z) : Z := Z.min U64_MAX (a * b).

(** Value ranges. *)
Definition is_u8 (x : Z) : Prop := 0 <= x <= U8_MAX.
Definition is_u16 (x : Z) : Prop := 0 <= x <= U16_MAX.
Definition is_u32 (x : Z) : Prop := 0 <= x <= U32_MAX.
Definition is_u64 (x : Z) : Prop := 0 <= x <= U64_MAX.
Definition is_u128 (x : Z) : Prop := 0 <= x <= U128_MAX.

(** Unfolds the integer layer and decides linear goals with [div]/[mod] by
    constants. *)
Ltac unfold_ints :=
  unfold is_u8, is_u16, is_u32, is_u64, is_u128, w8, w16, w32, w64, i32, sat_sub,
    sat_add8, sat_add32, sat_mul32, sat_add64, sat_mul64,
    U8_MAX, U16_MAX, U32_MAX, U64_MAX, U128_MAX in *.
Ltac int_lia := unfold_ints; Z.to_euclidean_division_equations; lia.

Lemma w32_range x : is_u32 (w32 x).
Proof. int_lia. Qed.

Lemma w32_small x : is_u32 x -> w32 x = x.
Proof. int_lia. Qed.

Lemma w16_small x : is_u16 x -> w16 x = x.
Proof. int_lia. Qed.

Lemma w8_small x : is_u8 x -> w8 x = x.
Proof. int_lia. Qed.

Lemma w64_small x : is_u64 x -> w64 x = x.
Proof. int_lia. Qed.

Lemma w32_idemp x : w32 (w32 x) = w32 x.
Proof. int_lia. Qed.

Lemma w32_add_l a b : w32 (w32 a + b) = w32 (a + b).
Proof. int_lia. Qed.

Lemma w32_add_r a b : w32 (a + w32 b) = w32 (a + b).
Proof. int_lia. Qed.

Lemma w32_sub_l a b : w32 (w32 a - b) = w32 (a - b).
Proof. int_lia. Qed.

Lemma w32_sub_r a b : w32 (a - w32 b) = w32 (a - b).
Proof. int_lia. Qed.

Lemma w32_sub_cancel a b d : is_u32 d -> a = b + d -> w32 (w32 a - w32 b) = d.
Proof. int_lia. Qed.

Lemma i32_w32 d : -2147483648 <= d < 2147483648 -> i32 (w32 d) = d.
Proof. intros. unfold i32. case_match eqn:E; [apply Z.ltb_lt in E | apply Z.ltb_ge in E]; int_lia. Qed.

(** Disjoint bit fields: [or] is addition. *)
Lemma testbit_small a k n : 0 <= a < 2 ^ k -> k <= n -> Z.testbit a n = false.
Proof.
  intros Ha Hn. destruct (decide (a = 0)) as [->|]; [apply Z.bits_0|].
  apply Z.bits_above_log2; [lia|]. apply (Z.lt_le_trans _ k); [|done].
  apply Z.log2_lt_pow2; lia.
Qed.

Lemma land_shiftl_disjoint a b k : 0 <= k -> 0 <= a < 2 ^ k -> Z.land a (Z.shiftl b k) = 0.
Proof.
  intros Hk Ha. apply Z.bits_inj'. intros n Hn. rewrite Z.land_spec, Z.bits_0.
  destruct (Z_lt_le_dec n k) as [Hlt|Hge].
  - rewrite Z.shiftl_spec_low by lia. apply andb_false_r.
  - by rewrite (testbit_small a k).
Qed.

Lemma lor_shiftl a b k :
  0 <= k -> 0 <= a < 2 ^ k -> Z.lor a (Z.shiftl b k) = a + b * 2 ^ k.
Proof.
  intros Hk Ha. pose proof (land_shiftl_disjoint a b k Hk Ha) as H.
  by rewrite <-Z.lxor_lor, <-Z.add_nocarry_lxor, Z.shiftl_mul_pow2.
Qed.

(** Indices less than a ring apart have different slots. *)
Lemma land_ring_inj i j k :
  0 <= k -> -(2 ^ k) < i - j < 2 ^ k -> Z.land i (Z.ones k) = Z.land j (Z.ones k) -> i = j.
Proof.
  intros Hk Hd. rewrite !Z.land_ones by done. intros E.
  pose proof (Z.pow_pos_nonneg 2 k ltac:(lia) Hk).
  pose proof (Z.div_mod i (2 ^ k) ltac:(lia)) as Hi. pose proof (Z.div_mod j (2 ^ k) ltac:(lia)) as Hj.
  rewrite E in Hi. destruct (Z.lt_trichotomy (i / 2 ^ k) (j / 2 ^ k)) as [Hq|[Hq|Hq]]; [nia|congruence|nia].
Qed.

Lemma ring_index_ne i j k :
  0 <= k -> i <> j -> -(2 ^ k) < i - j < 2 ^ k -> Z.to_nat (Z.land i (Z.ones k)) <> Z.to_nat (Z.land j (Z.ones k)).
Proof.
  intros Hk Hne Hd E. apply Hne, (land_ring_inj _ _ k Hk Hd).
  apply Z2Nat.inj in E; [done|rewrite Z.land_ones by done; apply Z.mod_pos_bound; lia..].
Qed.

Lemma ring_index_lt i k : 0 <= k -> (Z.to_nat (Z.land i (Z.ones k)) < Z.to_nat (2 ^ k))%nat.
Proof.
  intros Hk. rewrite Z.land_ones by done. pose proof (Z.mod_pos_bound i (2 ^ k) ltac:(lia)). lia.
Qed.

Create Rewrite HintDb ints.
Create HintDb ints.
#[export] Hint Rewrite w32_idemp w32_add_l w32_add_r w32_sub_l w32_sub_r : ints.
#[export] Hint Resolve w32_range : ints.

(* ------------------------------------------------------------------ *)
(** ** Operations on shared memory *)

(** One shared-memory access of an operation that other threads can interleave
    with: go on at the next access, return, or panic. *)
Inductive Outcome (PC R : Type) :=
  | Continue (pc : PC)
  | Return (r : R)
  | Panic.
Arguments Continue {_ _} _.
Arguments Return {_ _} _.
Arguments Panic {_ _}.

(** An operation run without interference; [fuel] bounds its accesses. *)
Fixpoint run_accesses {PC R S : Type} (access : PC -> S -> Outcome PC R * S) (fuel : nat) (pc : PC) (s : S)
    : option (R * S) :=
  match fuel with
  | O => None
  | Datatypes.S fuel =>
      match access pc s with
      | (Continue pc', s') => run_accesses access fuel pc' s'
      | (Return r, s') => Some (r, s')
      | (Panic, _) => None
      end
  end.

(* ------------------------------------------------------------------ *)
(** ** Booleans of comparisons *)

(** Turns every boolean comparison in the context into its proposition. *)
Ltac bool_to_prop :=
  repeat match goal with
  | H : (_ && _)%bool = true |- _ => apply andb_prop in H as [? ?]
  | H : (_ || _)%bool = false |- _ => apply orb_false_elim in H as [? ?]
  | H : negb _ = true |- _ => apply negb_true_iff in H
  | H : negb _ = false |- _ => apply negb_false_iff in H
  | H : (_ =? _) = true |- _ => apply Z.eqb_eq in H
  | H : (_ =? _) = false |- _ => apply Z.eqb_neq in H
  | H : (_ <? _) = true |- _ => apply Z.ltb_lt in H
  | H : (_ <? _) = false |- _ => apply Z.ltb_ge in H
  | H : (_ <=? _) = true |- _ => apply Z.leb_le in H
  | H : (_ <=? _) = false |- _ => apply Z.leb_gt in H
  | H : bool_decide _ = true |- _ => apply bool_decide_eq_true in H
  | H : bool_decide _ = false |- _ => apply bool_decide_eq_false in H
  end.

(* ------------------------------------------------------------------ *)
(** ** Records *)

(** [set_field eta proj c v] builds the record [c] with the field [proj]
    replaced by [v]; [eta] is the record's eta expansion. *)
Ltac set_field eta proj c v :=
  let e := eval cbv beta delta [eta] in (eta c) in
  match e with
  | context K [proj c] => let r := context K [v] in exact r
  end.

(** [c |> f |> g]: the assignments [f] then [g] to the record [c]. *)
Notation "c |> f" := (f c) (at level 40, left associativity, only parsing).

(* ------------------------------------------------------------------ *)
(** ** State monad *)

(** Code that runs on [&mut] state of type [S] and returns an [A]. *)
Definition St (S A : Type) : Type := S -> A * S.

Definition sret {S A} (a : A) : St S A := fun s => (a, s).
Definition sbind {S A B} (m : St S A) (k : A -> St S B) : St S B :=
  fun s => let (a, s') := m s in k a s'.
Definition gets {S A} (f : S -> A) : St S A := fun s => (f s, s).
Definition modify {S} (f : S -> S) : St S unit := fun s => (tt, f s).
Definition swhen {S} (b : bool) (m : St S unit) : St S unit :=
  if b then m else sret tt.

Declare Scope st_scope.
Delimit Scope st_scope with st.
Notation "x <- m ;; k" := (sbind m (fun x => k))
  (at level 100, m at next level, right associativity) : st_scope.
Notation "m ;; k" := (sbind m (fun _ => k))
  (at level 100, right associativity) : st_scope.

(** The final state and the result of a run. *)
Definition exec {S A} (m : St S A) (s : S) : S := snd (m s).
Definition eval {S A} (m : St S A) (s : S) : A := fst (m s).

Section StateMonad.
Context {S : Type}.

Lemma exec_bind {A B} (m : St S A) (k : A -> St S B) s :
  exec (sbind m k) s = exec (k (eval m s)) (exec m s).
Proof. unfold exec, eval, sbind. by destruct (m s). Qed.

Lemma eval_bind {A B} (m : St S A) (k : A -> St S B) s :
  eval (sbind m k) s = eval (k (eval m s)) (exec m s).
Proof. unfold exec, eval, sbind. by destruct (m s). Qed.

Lemma exec_ret {A} (a : A) (s : S) : exec (sret a) s = s.
Proof. done. Qed.

Lemma eval_ret {A} (a : A) (s : S) : eval (sret a) s = a.
Proof. done. Qed.

Lemma exec_gets {A} (f : S -> A) s : exec (gets f) s = s.
Proof. done. Qed.

Lemma eval_gets {A} (f : S -> A) s : eval (gets f) s = f s.
Proof. done. Qed.

Lemma exec_modify (f : S -> S) s : exec (modify f) s = f s.
Proof. done. Qed.

Lemma exec_when b (m : St S unit) s : exec (swhen b m) s = if b then exec m s else s.
Proof. by destruct b. Qed.

Lemma run_eta {A} (m : St S A) s : m s = (eval m s, exec m s).
Proof. unfold eval, exec. by destruct (m s). Qed.

(** [preserves f m]: running [m] leaves the view [f] of the state alone. *)
Definition preserves {A T} (f : S -> T) (m : St S A) : Prop :=
  forall s, f (exec m s) = f s.

Lemma preserves_ret {A T} (f : S -> T) (a : A) : preserves f (sret a).
Proof. done. Qed.

Lemma preserves_gets {A T} (f : S -> T) (g : S -> A) : preserves f (gets g).
Proof. done. Qed.

Lemma preserves_bind {A B T} (f : S -> T) (m : St S A) (k : A -> St S B) :
  preserves f m -> (forall a, preserves f (k a)) -> preserves f (sbind m k).
Proof. intros Hm Hk s. rewrite exec_bind, (Hk _ _). apply Hm. Qed.

Lemma preserves_when {T} (f : S -> T) b (m : St S unit) :
  preserves f m -> preserves f (swhen b m).
Proof. by destruct b. Qed.

Lemma preserves_modify {T} (f : S -> T) (g : S -> S) :
  (forall s, f (g s) = f s) -> preserves f (modify g).
Proof. done. Qed.

(** Hoare triples over total state-passing code. *)
Definition hoare {A} (P : S -> Prop) (m : St S A) (Q : A -> S -> Prop) : Prop :=
  forall s, P s -> Q (eval m s) (exec m s).

Lemma hoare_bind {A B} P (R : A -> S -> Prop) (Q : B -> S -> Prop)
    (m : St S A) (k : A -> St S B) :
  hoare P m R -> (forall a, hoare (R a) (k a) Q) -> hoare P (sbind m k) Q.
Proof. intros Hm Hk s Hs. rewrite exec_bind, eval_bind. apply Hk, Hm, Hs. Qed.

Lemma hoare_conseq {A} (P P' : S -> Prop) (Q Q' : A -> S -> Prop) (m : St S A) :
  hoare P' m Q' -> (forall s, P s -> P' s) -> (forall a s, Q' a s -> Q a s) ->
  hoare P m Q.
Proof. intros Hm HP HQ s Hs. apply HQ, Hm, HP, Hs. Qed.

End StateMonad.

Create Rewrite HintDb st.
#[export] Hint Rewrite @exec_bind @eval_bind @exec_ret @eval_ret @exec_gets @eval_gets
  @exec_modify @exec_when : st.

Create HintDb preserves.
#[export] Hint Resolve preserves_ret preserves_gets preserves_when : preserves.

(** Decides a frame goal by walking the program. *)
Ltac preserve :=
  repeat match goal with
  | |- preserves _ (sbind _ _) => apply preserves_bind; [|intros ?]
  | |- preserves _ (modify _) => apply preserves_modify; intros ?; reflexivity
  | |- preserves _ (swhen _ _) => apply preserves_when
  | |- preserves _ (sret _) => apply preserves_ret
  | |- preserves _ (gets _) => apply preserves_gets
  | |- preserves _ (if ?b then _ else _) => destruct b
  | |- preserves _ (match ?x with _ => _ end) => destruct x
  | |- preserves _ _ => solve [auto with preserves nocore]
  end.

(* ------------------------------------------------------------------ *)
(** ** Loops *)

(** [while_pow k step a] runs the loop body [step] from [a] at most [2^k]
    times; [inr b] is the loop's exit with [b], [inl a'] the next iteration.
    The doubling keeps the fuel small and the evaluation as cheap as the
    number of iterations that really happen. *)
Fixpoint while_pow {A B} (k : nat) (step : A -> A + B) (a : A) : A + B :=
  match k with
  | O => step a
  | S k' =>
      match while_pow k' step a with
      | inl a' => while_pow k' step a'
      | inr b => inr b
      end
  end.

Section Loops.
Context {A B : Type} (step : A -> A + B).
Context (Inv : A -> Prop) (mu : A -> Z) (Q : B -> Prop).
Context (Hstep : forall a, Inv a ->
  match step a with inl a' => Inv a' /\ 0 <= mu a' < mu a | inr b => Q b end).

Lemma while_pow_progress k a :
  Inv a ->
  match while_pow k step a with
  | inl a' => Inv a' /\ 0 <= mu a' /\ mu a' + 2 ^ Z.of_nat k <= mu a
  | inr b => Q b
  end.
Proof.
  revert a. induction k as [|k IH]; intros a Ha.
  - cbn [while_pow]. pose proof (Hstep a Ha) as H. change (2 ^ Z.of_nat 0) with 1.
    destruct (step a) as [a'|b]; [|done]. split; [apply H|lia].
  - cbn [while_pow]. pose proof (IH a Ha) as H1.
    destruct (while_pow k step a) as [a'|b]; [|done].
    destruct H1 as (Ha' & H0 & Hlt). pose proof (IH a' Ha') as H2.
    replace (2 ^ Z.of_nat (Datatypes.S k)) with (2 * 2 ^ Z.of_nat k)
      by (rewrite Nat2Z.inj_succ, Z.pow_succ_r; lia).
    destruct (while_pow k step a'); [|done]. split; [apply H2|lia].
Qed.

(** Total correctness: a loop whose measure starts below [2^k] exits, and its
    result satisfies the exit condition. *)
Lemma while_pow_total k a :
  Inv a -> mu a < 2 ^ Z.of_nat k -> exists b, while_pow k step a = inr b /\ Q b.
Proof.
  intros Ha Hmu. pose proof (while_pow_progress k a Ha) as H.
  destruct (while_pow k step a) as [a'|b]; [lia|eauto].
Qed.

End Loops.

#[global] Arguments while_pow : simpl never.

(* ------------------------------------------------------------------ *)
(** ** Lists of bytes *)

(** Slices use [Z] offsets, as [usize] values are. *)
Definition zlen {A} (l : list A) : Z := Z.of_nat (length l).
Definition ztake {A} (n : Z) (l : list A) : list A := take (Z.to_nat n) l.
Definition zdrop {A} (n : Z) (l : list A) : list A := drop (Z.to_nat n) l.

Section ByteLists.
Context {A : Type}.
Implicit Types (l : list A).

Lemma zlen_nonneg l : 0 <= zlen l.
Proof. unfold zlen. lia. Qed.

Lemma zlen_nil : zlen (@nil A) = 0.
Proof. done. Qed.

Lemma zlen_cons x l : zlen (x :: l) = zlen l + 1.
Proof. unfold zlen. simpl length. lia. Qed.

Lemma zlen_app l1 l2 : zlen (l1 ++ l2) = zlen l1 + zlen l2.
Proof. unfold zlen. rewrite length_app. lia. Qed.

Lemma zlen_ztake n l : 0 <= n -> zlen (ztake n l) = Z.min n (zlen l).
Proof. unfold zlen, ztake. rewrite length_take. lia. Qed.

Lemma zlen_zdrop n l : 0 <= n -> zlen (zdrop n l) = Z.max 0 (zlen l - n).
Proof. unfold zlen, zdrop. rewrite length_drop. lia. Qed.

Lemma ztake_app_ge n l1 l2 :
  zlen l1 <= n -> ztake n (l1 ++ l2) = l1 ++ ztake (n - zlen l1) l2.
Proof. unfold ztake, zlen. intros. rewrite take_app_ge by lia. do 2 f_equal. lia. Qed.

Lemma zdrop_app_le n l1 l2 : n <= zlen l1 -> zdrop n (l1 ++ l2) = zdrop n l1 ++ l2.
Proof. unfold zdrop, zlen. intros. apply drop_app_le. lia. Qed.

Lemma zdrop_app_ge n l1 l2 :
  zlen l1 <= n -> zdrop n (l1 ++ l2) = zdrop (n - zlen l1) l2.
Proof. unfold zdrop, zlen. intros. rewrite drop_app_ge by lia. f_equal. lia. Qed.

Lemma ztake_zdrop n l : ztake n l ++ zdrop n l = l.
Proof. apply take_drop. Qed.

Lemma ztake_ge n l : zlen l <= n -> ztake n l = l.
Proof. unfold zlen, ztake. intros. apply take_ge. lia. Qed.

Lemma zlen_nil_inv l : zlen l = 0 -> l = [].
Proof. unfold zlen. intros. apply nil_length_inv. lia. Qed.

End ByteLists.
