(* ===== verification/CongestionControl.v ===== *)
(** * Congestion control (crates/net/cc/src/lib.rs)

    The trait [CongestionControl] is a class of operations; [NewReno] and
    [Cubic] are its two implementations and [Controller] the enum a transport
    embeds.  [CongestionLaws] states what a transport relies on: the window
    stays between the minimum and the maximum window, acks never shrink it and
    grow it by no more than they acknowledge, losses never grow it, and one
    congestion event reduces it once.  Both
    implementations, and the enum over them, are instances.

    All quantities are [u32] except timestamps and rates ([u64]) and the
    intermediate [i128]/[u128] values of CUBIC. *)

From S2P Require Import Prelude.

(* ------------------------------------------------------------------ *)
(** ** Trait, constants and the recovery episode *)

Record Rtt := mkRtt { smoothed_us : Z; min_us : Z }.

Class CongestionControl (C : Type) := {
  on_ack : Z -> Z -> Rtt -> Z -> C -> C;
  on_loss : Z -> bool -> C -> C;
  on_rto : C -> C;
  window : C -> Z;
  pacing_rate : C -> Z
}.

Definition can_send {C} `{CongestionControl C} (in_flight bytes : Z) (c : C) : bool :=
  sat_add32 in_flight bytes <=? window c.

Abbreviation DEFAULT_MSS := 1200%Z (only parsing).

Definition initial_window (mss : Z) : Z :=
  let ten := sat_mul32 mss 10 in
  let floor := Z.max (sat_mul32 mss 2) 14600 in
  Z.min ten floor.

Definition minimum_window (mss : Z) : Z := sat_mul32 mss 2.

Abbreviation DEFAULT_MAX_WINDOW := (Z.shiftl 2 20)%Z (only parsing).

Record RecoveryEpisode := mkEpisode { active : bool; rem_bytes : Z }.

Definition idle : RecoveryEpisode := mkEpisode false 0.

Definition begin (window_bytes : Z) : RecoveryEpisode := mkEpisode true window_bytes.

Definition absorb_ack (e : RecoveryEpisode) (bytes_acked : Z) : bool * RecoveryEpisode :=
  if negb (active e) then (false, e)
  else
    let rem := sat_sub (rem_bytes e) bytes_acked in
    (true, mkEpisode (if rem =? 0 then false else active e) rem).

(** Slow start, the same text in both controllers: byte counting up to
    [ssthresh], under the optional per-ack cap. *)
Definition slow_start_grow (cwnd ssthresh slow_start_cap bytes_acked : Z) : Z :=
  let room := sat_sub ssthresh cwnd in
  let inc := Z.min bytes_acked room in
  let inc := if slow_start_cap =? 0 then inc else Z.min inc slow_start_cap in
  sat_add32 cwnd inc.

(** The pacing rate, the same text in both controllers. *)
Definition pacing_of (win srtt_us : Z) (in_slow_start : bool) : Z :=
  if srtt_us =? 0 then 0
  else
    let n_num := if in_slow_start then 2 else 5 in
    let n_den := if in_slow_start then 1 else 4 in
    sat_mul64 (sat_mul64 win 1000000) n_num / w64 (srtt_us * n_den).

(* ------------------------------------------------------------------ *)
(** ** NewReno *)

Module NewReno.

Record t := mk {
  mss : Z;
  cwnd : Z;
  ssthresh : Z;
  recovery : RecoveryEpisode;
  srtt_us : Z;
  max_window : Z;
  slow_start_cap : Z
}.

Definition eta (c : t) : t :=
  mk (mss c) (cwnd c) (ssthresh c) (recovery c) (srtt_us c) (max_window c)
     (slow_start_cap c).
Definition set_cwnd (v : Z) (c : t) : t := ltac:(set_field eta cwnd c v).
Definition set_ssthresh (v : Z) (c : t) : t := ltac:(set_field eta ssthresh c v).
Definition set_recovery (v : RecoveryEpisode) (c : t) : t :=
  ltac:(set_field eta recovery c v).
Definition set_srtt_us (v : Z) (c : t) : t := ltac:(set_field eta srtt_us c v).

Definition new (mss : Z) : t :=
  let mss := if mss =? 0 then DEFAULT_MSS else mss in
  mk mss (initial_window mss) U32_MAX idle 0
     (Z.max DEFAULT_MAX_WINDOW (initial_window mss)) 0.

Definition with_default_mss : t := new DEFAULT_MSS.

Definition set_max_window (max : Z) (c : t) : t :=
  ltac:(set_field eta max_window c (Z.max max (initial_window (mss c)))).

Definition set_slow_start_cap (cap : Z) (c : t) : t :=
  ltac:(set_field eta slow_start_cap c cap).

Definition in_slow_start (c : t) : bool := cwnd c <? ssthresh c.

Definition enter_recovery (c : t) : t :=
  let c := c |> set_recovery (begin (Z.max (cwnd c) (minimum_window (mss c)))) in
  let half := cwnd c / 2 in
  let c := c |> set_ssthresh (Z.max half (minimum_window (mss c))) in
  c |> set_cwnd (ssthresh c).

Definition on_ack (bytes_acked _in_flight : Z) (rtt : Rtt) (_now_ms : Z) (c : t) : t :=
  let c := if smoothed_us rtt =? 0 then c else c |> set_srtt_us (smoothed_us rtt) in
  if bytes_acked =? 0 then c
  else
    let (hold, r) := absorb_ack (recovery c) bytes_acked in
    let c := c |> set_recovery r in
    if hold then c
    else
      let c :=
        if in_slow_start c then
          c |> set_cwnd (slow_start_grow (cwnd c) (ssthresh c) (slow_start_cap c)
                           bytes_acked)
        else
          let inc := w32 (mss c * bytes_acked / cwnd c) in
          c |> set_cwnd (sat_add32 (cwnd c) (Z.max inc 1)) in
      c |> set_cwnd (Z.min (cwnd c) (max_window c)).

Definition on_loss (_bytes_lost : Z) (persistent : bool) (c : t) : t :=
  if persistent then
    let c := c |> set_ssthresh (cwnd c / 2) in
    let c := c |> set_ssthresh (Z.max (ssthresh c) (minimum_window (mss c))) in
    let c := c |> set_cwnd (minimum_window (mss c)) in
    c |> set_recovery (begin (cwnd c))
  else if active (recovery c) then c
  else enter_recovery c.

Definition on_rto (c : t) : t := on_loss 0 true c.

Definition window (c : t) : Z :=
  Z.min (Z.max (cwnd c) (minimum_window (mss c))) (max_window c).

Definition pacing_rate (c : t) : Z :=
  pacing_of (window c) (srtt_us c) (in_slow_start c).

End NewReno.

#[export] Instance NewReno_cc : CongestionControl NewReno.t := {
  on_ack := NewReno.on_ack;
  on_loss := NewReno.on_loss;
  on_rto := NewReno.on_rto;
  window := NewReno.window;
  pacing_rate := NewReno.pacing_rate
}.

(* ------------------------------------------------------------------ *)
(** ** Integer cube root *)

(** [128 - x.leading_zeros()] for a non-zero [u128]. *)
Definition bits_u128 (x : Z) : Z := Z.log2 x + 1.

Definition div_ceil (a b : Z) : Z := (a + b - 1) / b.

(** [checked_mul] at [u128]. *)
Definition checked_mul128 (a b : Z) : option Z :=
  if a * b <=? U128_MAX then Some (a * b) else None.

Definition cube_le (x c : Z) : bool :=
  match checked_mul128 c c with
  | Some c2 =>
      match checked_mul128 c2 c with
      | Some c3 => c3 <=? x
      | None => false
      end
  | None => false
  end.

(** One iteration of each of the three loops of [icbrt_u128]. *)
Definition newton_step (x y : Z) : Z + Z :=
  let next := (2 * y + x / (y * y)) / 3 in
  if y <=? next then inr y else inl next.

Definition lower_step (x y : Z) : Z + Z :=
  if (0 <? y) && negb (cube_le x y) then inl (y - 1) else inr y.

Definition raise_step (x y : Z) : Z + Z :=
  if cube_le x (y + 1) then inl (y + 1) else inr y.

Definition after {A B C} (r : A + B) (k : B -> option C) : option C :=
  match r with inl _ => None | inr b => k b end.

(** [None] if one of the loops has not exited after [2^128] iterations. *)
Definition icbrt_u128 (x : Z) : option Z :=
  if x <? 8 then Some (if 0 <? x then 1 else 0)
  else
    let y := Z.shiftl 1 (div_ceil (bits_u128 x) 3) in
    after (while_pow 128 (newton_step x) y) (fun y =>
    after (while_pow 128 (lower_step x) y) (fun y =>
    after (while_pow 128 (raise_step x) y) Some)).

(* ------------------------------------------------------------------ *)
(** ** CUBIC *)

Abbreviation BETA_NUM := 717%Z (only parsing).
Abbreviation BETA_DEN := 1024%Z (only parsing).

(** Two's-complement wrap of an [i128]. *)
Definition wi128 (x : Z) : Z := (x + 2 ^ 127) mod 2 ^ 128 - 2 ^ 127.

Module Cubic.

Record t := mk {
  mss : Z;
  cwnd : Z;
  ssthresh : Z;
  w_max : Z;
  w_last_max : Z;
  origin_point : Z;
  k_ms : Z;
  epoch_start_ms : Z;
  srtt_us : Z;
  min_rtt_us : Z;
  recovery : RecoveryEpisode;
  max_window : Z;
  slow_start_cap : Z
}.

Definition eta (c : t) : t :=
  mk (mss c) (cwnd c) (ssthresh c) (w_max c) (w_last_max c) (origin_point c)
     (k_ms c) (epoch_start_ms c) (srtt_us c) (min_rtt_us c) (recovery c)
     (max_window c) (slow_start_cap c).
Definition set_cwnd (v : Z) (c : t) : t := ltac:(set_field eta cwnd c v).
Definition set_ssthresh (v : Z) (c : t) : t := ltac:(set_field eta ssthresh c v).
Definition set_w_max (v : Z) (c : t) : t := ltac:(set_field eta w_max c v).
Definition set_w_last_max (v : Z) (c : t) : t := ltac:(set_field eta w_last_max c v).
Definition set_origin_point (v : Z) (c : t) : t := ltac:(set_field eta origin_point c v).
Definition set_k_ms (v : Z) (c : t) : t := ltac:(set_field eta k_ms c v).
Definition set_epoch_start_ms (v : Z) (c : t) : t :=
  ltac:(set_field eta epoch_start_ms c v).
Definition set_srtt_us (v : Z) (c : t) : t := ltac:(set_field eta srtt_us c v).
Definition set_min_rtt_us (v : Z) (c : t) : t := ltac:(set_field eta min_rtt_us c v).
Definition set_recovery (v : RecoveryEpisode) (c : t) : t :=
  ltac:(set_field eta recovery c v).

Definition new (mss : Z) : t :=
  let mss := if mss =? 0 then DEFAULT_MSS else mss in
  mk mss (initial_window mss) U32_MAX 0 0 0 0 0 0 0 idle
     (Z.max DEFAULT_MAX_WINDOW (initial_window mss)) 0.

Definition with_default_mss : t := new DEFAULT_MSS.

Definition set_max_window (max : Z) (c : t) : t :=
  ltac:(set_field eta max_window c (Z.max max (initial_window (mss c)))).

Definition set_slow_start_cap (cap : Z) (c : t) : t :=
  ltac:(set_field eta slow_start_cap c cap).

Definition in_slow_start (c : t) : bool := cwnd c <? ssthresh c.

Definition rtt_ms (c : t) : Z :=
  let us := if min_rtt_us c =? 0 then srtt_us c else min_rtt_us c in
  Z.max (us / 1000) 1.

(** The arithmetic is [i128]; the division truncates towards zero. *)
Definition w_cubic (c : t) (t_ms : Z) : Z :=
  let dt := t_ms - k_ms c in
  let cube := wi128 (wi128 (dt * dt) * dt) in
  let delta := Z.quot (wi128 (wi128 (mss c * cube) * 4)) 10000000000 in
  let w := wi128 (origin_point c + delta) in
  let lo := minimum_window (mss c) in
  let hi := max_window c in
  if w <? lo then lo else if hi <? w then hi else w.

Definition w_est (c : t) (t_ms rtt_ms : Z) : Z :=
  let base := w64 (w_max c * BETA_NUM) / BETA_DEN in
  let grow := w64 (w64 (921 * t_ms) * mss c) / w64 (1741 * rtt_ms) in
  Z.min (sat_add64 base grow) (max_window c).

(** Opens the epoch on the first congestion-avoidance ack after a loss. *)
Definition open_epoch (now_ms : Z) (c : t) : t :=
  if epoch_start_ms c =? 0 then
    let c := c |> set_epoch_start_ms (Z.max now_ms 1) in
    if w_max c <=? cwnd c then
      c |> set_k_ms 0 |> set_origin_point (cwnd c)
    else
      let num := (w_max c - cwnd c) * 2500000000 / mss c in
      c |> set_k_ms (w64 (default 0 (icbrt_u128 num))) |> set_origin_point (w_max c)
  else c.

Definition cubic_avoid (bytes_acked now_ms : Z) (c : t) : t :=
  let c := open_epoch now_ms c in
  let t := sat_sub now_ms (epoch_start_ms c) in
  let rtt_ms := rtt_ms c in
  let target := Z.max (w_cubic c (w64 (t + rtt_ms))) (w_est c t rtt_ms) in
  if cwnd c <? target then
    let inc := w32 ((target - cwnd c) * bytes_acked / cwnd c) in
    let inc := Z.max (Z.min inc bytes_acked) 1 in
    c |> set_cwnd (Z.min (sat_add32 (cwnd c) inc) target)
  else
    let inc := w32 (mss c * bytes_acked / (100 * cwnd c)) in
    c |> set_cwnd (sat_add32 (cwnd c) inc).

Definition on_ack (bytes_acked _in_flight : Z) (rtt : Rtt) (now_ms : Z) (c : t) : t :=
  let c := if smoothed_us rtt =? 0 then c else c |> set_srtt_us (smoothed_us rtt) in
  let c := if min_us rtt =? 0 then c else c |> set_min_rtt_us (min_us rtt) in
  if bytes_acked =? 0 then c
  else
    let (hold, r) := absorb_ack (recovery c) bytes_acked in
    let c := c |> set_recovery r in
    if hold then c
    else
      let c :=
        if cwnd c <? ssthresh c then
          c |> set_cwnd (slow_start_grow (cwnd c) (ssthresh c) (slow_start_cap c)
                           bytes_acked)
        else cubic_avoid bytes_acked now_ms c in
      c |> set_cwnd (Z.min (cwnd c) (max_window c)).

Definition on_loss (_bytes_lost : Z) (persistent : bool) (c : t) : t :=
  if persistent then
    let c := c |> set_ssthresh (Z.max (w32 (cwnd c * BETA_NUM / BETA_DEN))
                                  (minimum_window (mss c))) in
    let c := c |> set_w_max (cwnd c) |> set_w_last_max 0 in
    let c := c |> set_cwnd (minimum_window (mss c)) |> set_epoch_start_ms 0 in
    c |> set_recovery (begin (cwnd c))
  else if active (recovery c) then c
  else
    let pre := cwnd c in
    let c :=
      if pre <? w_last_max c then
        c |> set_w_last_max pre
          |> set_w_max (w32 (pre * (BETA_DEN + BETA_NUM) / (2 * BETA_DEN)))
      else c |> set_w_last_max pre |> set_w_max pre in
    let c := c |> set_ssthresh (Z.max (w32 (pre * BETA_NUM / BETA_DEN))
                                  (minimum_window (mss c))) in
    let c := c |> set_cwnd (ssthresh c) |> set_epoch_start_ms 0 in
    c |> set_recovery (begin (Z.max pre (minimum_window (mss c)))).

Definition on_rto (c : t) : t := on_loss 0 true c.

Definition window (c : t) : Z :=
  Z.min (Z.max (cwnd c) (minimum_window (mss c))) (max_window c).

Definition pacing_rate (c : t) : Z :=
  pacing_of (window c) (srtt_us c) (in_slow_start c).

End Cubic.

#[export] Instance Cubic_cc : CongestionControl Cubic.t := {
  on_ack := Cubic.on_ack;
  on_loss := Cubic.on_loss;
  on_rto := Cubic.on_rto;
  window := Cubic.window;
  pacing_rate := Cubic.pacing_rate
}.

(* ------------------------------------------------------------------ *)
(** ** The runtime-selected controller *)

Inductive Algorithm := Reno_algo | Cubic_algo.

Definition DEFAULT_ALGORITHM : Algorithm := Reno_algo.

Module Controller.

Inductive t :=
  | Reno (c : NewReno.t)
  | Cubic (c : Cubic.t).

Definition with_algorithm (mss : Z) (algo : Algorithm) : t :=
  match algo with
  | Reno_algo => Reno (NewReno.new mss)
  | Cubic_algo => Cubic (Cubic.new mss)
  end.

Definition new (mss : Z) : t := with_algorithm mss DEFAULT_ALGORITHM.

Definition with_default_mss : t := new DEFAULT_MSS.

Definition algorithm (c : t) : Algorithm :=
  match c with Reno _ => Reno_algo | Cubic _ => Cubic_algo end.

Definition set_max_window (max : Z) (c : t) : t :=
  match c with
  | Reno c => Reno (NewReno.set_max_window max c)
  | Cubic c => Cubic (Cubic.set_max_window max c)
  end.

Definition set_slow_start_cap (cap : Z) (c : t) : t :=
  match c with
  | Reno c => Reno (NewReno.set_slow_start_cap cap c)
  | Cubic c => Cubic (Cubic.set_slow_start_cap cap c)
  end.

Definition ssthresh (c : t) : Z :=
  match c with Reno c => NewReno.ssthresh c | Cubic c => Cubic.ssthresh c end.

Definition in_slow_start (c : t) : bool :=
  match c with Reno c => NewReno.in_slow_start c | Cubic c => Cubic.in_slow_start c end.

Definition on_ack (bytes_acked in_flight : Z) (rtt : Rtt) (now_ms : Z) (c : t) : t :=
  match c with
  | Reno c => Reno (NewReno.on_ack bytes_acked in_flight rtt now_ms c)
  | Cubic c => Cubic (Cubic.on_ack bytes_acked in_flight rtt now_ms c)
  end.

Definition on_loss (bytes_lost : Z) (persistent : bool) (c : t) : t :=
  match c with
  | Reno c => Reno (NewReno.on_loss bytes_lost persistent c)
  | Cubic c => Cubic (Cubic.on_loss bytes_lost persistent c)
  end.

Definition on_rto (c : t) : t :=
  match c with
  | Reno c => Reno (NewReno.on_rto c)
  | Cubic c => Cubic (Cubic.on_rto c)
  end.

Definition window (c : t) : Z :=
  match c with Reno c => NewReno.window c | Cubic c => Cubic.window c end.

Definition pacing_rate (c : t) : Z :=
  match c with Reno c => NewReno.pacing_rate c | Cubic c => Cubic.pacing_rate c end.

End Controller.

#[export] Instance Controller_cc : CongestionControl Controller.t := {
  on_ack := Controller.on_ack;
  on_loss := Controller.on_loss;
  on_rto := Controller.on_rto;
  window := Controller.window;
  pacing_rate := Controller.pacing_rate
}.

(* ------------------------------------------------------------------ *)
(** ** What a transport relies on *)

(** The laws never look inside the cube root. *)
Opaque icbrt_u128.

(** [cc_hold c] is the number of freshly acknowledged bytes before the current
    recovery episode ends, 0 outside one. *)
Class CongestionLaws (C : Type) `{CongestionControl C} := {
  cc_wf : C -> Prop;
  cc_floor : C -> Z;
  cc_cap : C -> Z;
  cc_hold : C -> Z;
  cc_hold_nonneg c : cc_wf c -> 0 <= cc_hold c;
  cc_window_bounds c : cc_wf c -> 0 < cc_floor c <= window c /\ window c <= cc_cap c;
  cc_ack_wf acked fl rtt now c : is_u32 acked -> cc_wf c ->
    cc_wf (on_ack acked fl rtt now c);
  cc_loss_wf lost p c : cc_wf c -> cc_wf (on_loss lost p c);
  cc_rto_loss c : on_rto c = on_loss 0 true c;
  cc_ack_limits acked fl rtt now c :
    cc_floor (on_ack acked fl rtt now c) = cc_floor c /\
    cc_cap (on_ack acked fl rtt now c) = cc_cap c;
  cc_loss_limits lost p c :
    cc_floor (on_loss lost p c) = cc_floor c /\ cc_cap (on_loss lost p c) = cc_cap c;
  cc_ack_grows acked fl rtt now c : is_u32 acked -> cc_wf c ->
    window c <= window (on_ack acked fl rtt now c) <= window c + acked;
  cc_loss_shrinks lost p c : cc_wf c -> window (on_loss lost p c) <= window c;
  cc_persistent lost c : cc_wf c -> window (on_loss lost true c) = cc_floor c;
  cc_hold_ack acked fl rtt now c : is_u32 acked -> cc_wf c -> 0 < cc_hold c ->
    window (on_ack acked fl rtt now c) = window c /\
    cc_hold (on_ack acked fl rtt now c) = Z.max 0 (cc_hold c - acked);
  cc_hold_loss lost c : cc_wf c -> 0 < cc_hold c -> on_loss lost false c = c;
  cc_loss_hold lost c : cc_wf c -> cc_hold c = 0 ->
    window c <= cc_hold (on_loss lost false c)
}.

Definition hold_of (e : RecoveryEpisode) : Z := if active e then rem_bytes e else 0.

Definition episode_wf (e : RecoveryEpisode) : Prop :=
  is_u32 (rem_bytes e) /\ (active e = true -> 0 < rem_bytes e).

Lemma initial_window_ge_minimum mss :
  0 < mss -> 0 < minimum_window mss <= initial_window mss.
Proof. unfold minimum_window, initial_window. int_lia. Qed.

Lemma minimum_window_u32 mss : 0 < mss -> is_u32 (minimum_window mss).
Proof. unfold minimum_window. int_lia. Qed.

Lemma initial_window_u32 mss : 0 < mss -> is_u32 (initial_window mss).
Proof. unfold initial_window. int_lia. Qed.

Lemma absorb_ack_spec e acked :
  absorb_ack e acked =
    if active e then
      (true, mkEpisode (negb (sat_sub (rem_bytes e) acked =? 0))
               (sat_sub (rem_bytes e) acked))
    else (false, e).
Proof.
  unfold absorb_ack. destruct (active e); [|done]. simpl.
  by destruct (_ =? 0).
Qed.

Lemma absorb_ack_hold e acked :
  is_u32 acked -> episode_wf e -> active e = true ->
  hold_of (snd (absorb_ack e acked)) = Z.max 0 (rem_bytes e - acked) /\
  episode_wf (snd (absorb_ack e acked)).
Proof.
  intros Ha [He _] EA. rewrite absorb_ack_spec, EA. unfold hold_of, episode_wf. simpl.
  destruct (sat_sub _ _ =? 0) eqn:EZ; simpl; bool_to_prop; repeat split; intros;
    try done; int_lia.
Qed.

Lemma slow_start_grow_bounds cwnd ssthresh cap acked :
  is_u32 cwnd -> is_u32 ssthresh -> is_u32 acked -> 0 <= cap -> cwnd < ssthresh ->
  cwnd <= slow_start_grow cwnd ssthresh cap acked <= ssthresh /\
  slow_start_grow cwnd ssthresh cap acked <= cwnd + acked.
Proof. unfold slow_start_grow. destruct (cap =? 0); int_lia. Qed.

(** The congestion-avoidance increment never truncates: a segment is at most
    half the window. *)
Lemma avoidance_increment_fits mss cwnd acked :
  0 < mss -> is_u32 cwnd -> minimum_window mss <= cwnd -> is_u32 mss -> is_u32 acked ->
  is_u32 (mss * acked / cwnd).
Proof.
  unfold minimum_window. unfold_ints. intros Hm Hc Hmin Hm' Ha. split.
  - apply Z.div_pos; nia.
  - apply (Z.le_trans _ acked); [|lia]. apply Z.div_le_upper_bound; nia.
Qed.

Lemma avoidance_increment_le mss cwnd acked :
  0 < mss -> is_u32 mss -> minimum_window mss <= cwnd -> is_u32 acked -> mss * acked / cwnd <= acked.
Proof.
  unfold minimum_window. unfold_ints. intros Hm Hm' Hmin Ha. assert (mss <= cwnd) by lia.
  apply Z.div_le_upper_bound; nia.
Qed.

(** The laws follow from how an implementation's window fields move on an ack
    and on a loss; [reduce] is its multiplicative decrease. *)
Section WindowLaws.
Context {C : Type} `{CongestionControl C}.
Context (mss cwnd ssthresh max_window slow_start_cap : C -> Z).
Context (recovery : C -> RecoveryEpisode) (reduce : Z -> Z).
Context (Hreduce : forall w, is_u32 w -> 0 <= reduce w <= w).

Definition window_wf (c : C) : Prop :=
  0 < mss c /\ is_u32 (mss c) /\ is_u32 (cwnd c) /\ minimum_window (mss c) <= cwnd c /\
  is_u32 (ssthresh c) /\ initial_window (mss c) <= max_window c /\
  is_u32 (max_window c) /\ 0 <= slow_start_cap c /\ episode_wf (recovery c).

(** In an episode an ack only drains it; outside, the window stays or moves up,
    by the bytes acknowledged at most, to some [w] clamped at the maximum. *)
Definition ack_moves (c c' : C) (acked : Z) : Prop :=
  ssthresh c' = ssthresh c /\ slow_start_cap c' = slow_start_cap c /\
  if active (recovery c) then
    cwnd c' = cwnd c /\ hold_of (recovery c') = Z.max 0 (rem_bytes (recovery c) - acked) /\
    episode_wf (recovery c')
  else
    recovery c' = recovery c /\
    (cwnd c' = cwnd c \/
     exists w, cwnd c' = Z.min w (max_window c) /\ cwnd c <= w <= cwnd c + acked /\ is_u32 w).

Definition loss_moves (c c' : C) (p : bool) : Prop :=
  slow_start_cap c' = slow_start_cap c /\
  if negb p && active (recovery c) then c' = c
  else
    ssthresh c' = Z.max (reduce (cwnd c)) (minimum_window (mss c)) /\
    cwnd c' = (if p then minimum_window (mss c) else ssthresh c') /\
    recovery c' = begin (if p then minimum_window (mss c)
                         else Z.max (cwnd c) (minimum_window (mss c))).

Context (Hack : forall acked fl rtt now c, window_wf c -> is_u32 acked ->
  ack_moves c (on_ack acked fl rtt now c) acked).
Context (Hack_limits : forall acked fl rtt now c,
  mss (on_ack acked fl rtt now c) = mss c /\
  max_window (on_ack acked fl rtt now c) = max_window c).
Context (Hloss : forall lost p c, loss_moves c (on_loss lost p c) p).
Context (Hloss_limits : forall lost p c,
  mss (on_loss lost p c) = mss c /\ max_window (on_loss lost p c) = max_window c).
Context (Hrto : forall c, on_rto c = on_loss 0 true c).
Context (Hwindow : forall c,
  window c = Z.min (Z.max (cwnd c) (minimum_window (mss c))) (max_window c)).

Lemma window_ack_wf acked fl rtt now c :
  is_u32 acked -> window_wf c -> window_wf (on_ack acked fl rtt now c).
Proof.
  intros Ha Hwf. pose proof (Hack acked fl rtt now c Hwf Ha) as (E1 & E2 & Hm).
  pose proof (Hack_limits acked fl rtt now c) as (E3 & E4).
  destruct Hwf as (Hmss & ? & Hc & Hmin & Hs & Hi & Hx & Hcap & He).
  pose proof (initial_window_ge_minimum _ Hmss).
  unfold window_wf. rewrite E1, E2, E3, E4.
  destruct (active (recovery c)).
  - destruct Hm as (-> & _ & ?). by auto 10.
  - destruct Hm as (-> & [->|(w & -> & ? & ?)]); [by auto 10|].
    repeat split; try done; unfold is_u32 in *; lia || apply He.
Qed.

Lemma window_loss_wf lost p c : window_wf c -> window_wf (on_loss lost p c).
Proof.
  intros Hwf. pose proof (Hloss lost p c) as (E1 & Hm).
  pose proof (Hloss_limits lost p c) as (E2 & E3).
  pose proof Hwf as (Hmss & ? & Hc & Hmin & Hs & Hi & Hx & Hcap & He).
  pose proof (initial_window_ge_minimum _ Hmss). pose proof (minimum_window_u32 _ Hmss).
  pose proof (Hreduce _ Hc).
  destruct (negb p && active (recovery c)); [by rewrite Hm|].
  destruct Hm as (E4 & E5 & E6). unfold window_wf. rewrite E1, E2, E3, E5, E6, E4.
  unfold episode_wf, begin. simpl.
  destruct p; repeat split; try done; unfold is_u32 in *; lia.
Qed.

Definition window_laws : CongestionLaws C.
Proof using All.
  refine {| cc_wf := window_wf; cc_floor c := minimum_window (mss c);
            cc_cap := max_window; cc_hold c := hold_of (recovery c) |}.
  - intros c (_ & _ & _ & _ & _ & _ & _ & _ & [? ?]). unfold hold_of.
    destruct (active _); int_lia.
  - intros c (Hm & _ & _ & ? & _ & ? & _). rewrite Hwindow.
    pose proof (initial_window_ge_minimum _ Hm). lia.
  - exact window_ack_wf.
  - exact window_loss_wf.
  - exact Hrto.
  - intros acked fl rtt now c. by destruct (Hack_limits acked fl rtt now c) as [-> ->].
  - intros lost p c. by destruct (Hloss_limits lost p c) as [-> ->].
  - intros acked fl rtt now c Ha Hwf. rewrite !Hwindow.
    pose proof (Hack acked fl rtt now c Hwf Ha) as (_ & _ & Hm).
    destruct (Hack_limits acked fl rtt now c) as [-> ->].
    destruct Hwf as (_ & _ & _ & Hmin & _). destruct Ha as [Ha _].
    destruct (active _); [destruct Hm as [-> _]; lia|].
    destruct Hm as (_ & [->|(w & -> & ? & _)]); lia.
  - intros lost p c (? & _ & Hc & ? & _). rewrite !Hwindow.
    pose proof (Hloss lost p c) as (_ & Hm). pose proof (Hreduce _ Hc).
    destruct (Hloss_limits lost p c) as [-> ->].
    destruct (negb p && _); [by rewrite Hm|].
    destruct Hm as (E4 & -> & _). rewrite E4. destruct p; lia.
  - intros lost c (Hm & _ & _ & ? & _ & ? & _). rewrite Hwindow.
    pose proof (Hloss lost true c) as (_ & _ & -> & _).
    destruct (Hloss_limits lost true c) as [-> ->].
    pose proof (initial_window_ge_minimum _ Hm). lia.
  - intros acked fl rtt now c Ha Hwf Hh. rewrite !Hwindow.
    pose proof (Hack acked fl rtt now c Hwf Ha) as (_ & _ & Hm).
    destruct (Hack_limits acked fl rtt now c) as [-> ->]. unfold hold_of in Hh.
    destruct (active (recovery c)) eqn:EA; [|lia]. destruct Hm as (-> & -> & _).
    split; [done|]. unfold hold_of. by rewrite EA.
  - intros lost c _ Hh. pose proof (Hloss lost false c) as (_ & Hm). unfold hold_of in Hh.
    destruct (active (recovery c)); [done|lia].
  - intros lost c (_ & _ & _ & ? & _ & _ & _ & _ & [_ He]) Hh. unfold hold_of in Hh.
    destruct (active (recovery c)) eqn:EA; [specialize (He eq_refl); lia|].
    pose proof (Hloss lost false c) as (_ & Hm). rewrite EA in Hm.
    destruct Hm as (_ & _ & ->). rewrite Hwindow. unfold hold_of. simpl. lia.
Defined.

End WindowLaws.

Section NewRenoLaws.
Import NewReno.

Definition reno_wf : t -> Prop :=
  window_wf mss cwnd ssthresh max_window slow_start_cap recovery.

Lemma reno_new_wf mss : is_u32 mss -> reno_wf (new mss).
Proof.
  intros Hm. unfold reno_wf, window_wf, new, episode_wf. simpl.
  assert (0 < (if mss =? 0 then DEFAULT_MSS else mss) <= U32_MAX) as [H1 H2].
  { case_match; bool_to_prop; int_lia. }
  set (m := if mss =? 0 then DEFAULT_MSS else mss) in *.
  pose proof (initial_window_ge_minimum m H1). pose proof (initial_window_u32 m H1).
  change DEFAULT_MAX_WINDOW with 2097152. unfold_ints. repeat split; (lia || done).
Qed.

Lemma reno_ack_moves acked fl rtt now c :
  reno_wf c -> is_u32 acked ->
  ack_moves cwnd ssthresh max_window slow_start_cap recovery c
    (on_ack acked fl rtt now c) acked.
Proof.
  intros Hwf Ha. pose proof Hwf as (Hm & Hm' & Hc & Hmin & Hs & Hi & Hx & Hcap & He).
  unfold on_ack, ack_moves. rewrite absorb_ack_spec.
  set (c1 := if smoothed_us rtt =? 0 then c else set_srtt_us (smoothed_us rtt) c).
  assert (mss c1 = mss c /\ cwnd c1 = cwnd c /\ ssthresh c1 = ssthresh c /\
    recovery c1 = recovery c /\ max_window c1 = max_window c /\
    slow_start_cap c1 = slow_start_cap c) as (E1 & E2 & E3 & E4 & E5 & E6)
    by (unfold c1; by destruct (_ =? 0)).
  rewrite E4. clearbody c1.
  destruct (acked =? 0) eqn:E0; bool_to_prop.
  - rewrite E2, E3, E4, E6. subst acked. repeat split.
    destruct (active (recovery c)) eqn:EA; [|by eauto].
    unfold hold_of. rewrite EA. destruct He. repeat split; try done; int_lia.
  - destruct (active (recovery c)) eqn:EA.
    + pose proof (absorb_ack_hold _ _ Ha He EA) as Hh.
      rewrite absorb_ack_spec, EA in Hh. simpl in *. by rewrite ?E1, ?E2, ?E3, ?E5, ?E6.
    + unfold in_slow_start. cbn [cwnd ssthresh set_recovery].
      pose proof (slow_start_grow_bounds (cwnd c) (ssthresh c) (slow_start_cap c) acked).
      pose proof (avoidance_increment_fits (mss c) (cwnd c) acked).
      destruct (cwnd c1 <? ssthresh c1) eqn:EL; bool_to_prop; simpl;
        rewrite ?E1, ?E2, ?E3, ?E5, ?E6 in *; repeat split; try done; right;
        eexists; (split; [done|]).
      * int_lia.
      * assert (mss c * acked / cwnd c <= acked) as Hle by (apply avoidance_increment_le; auto).
        rewrite w32_small by auto. unfold sat_add32, is_u32, U32_MAX in *. lia.
Qed.

Lemma reno_ack_limits acked fl rtt now c :
  mss (on_ack acked fl rtt now c) = mss c /\
  max_window (on_ack acked fl rtt now c) = max_window c.
Proof.
  unfold on_ack. rewrite absorb_ack_spec.
  destruct (_ =? 0), (_ =? 0); simpl; try done;
    destruct (active _); simpl; try done; by destruct (in_slow_start _).
Qed.

Lemma reno_loss_moves lost p c :
  loss_moves mss cwnd ssthresh slow_start_cap recovery (fun w => w / 2) c
    (on_loss lost p c) p.
Proof.
  unfold on_loss, loss_moves, enter_recovery.
  destruct p; [done|]. by destruct (active (recovery c)).
Qed.

Lemma reno_loss_limits lost p c :
  mss (on_loss lost p c) = mss c /\ max_window (on_loss lost p c) = max_window c.
Proof. unfold on_loss. destruct p; [done|]. by destruct (active _). Qed.

#[export] Instance NewReno_laws : CongestionLaws NewReno.t.
Proof.
  apply (window_laws mss cwnd ssthresh max_window slow_start_cap recovery (fun w => w / 2)).
  - intros w Hw; int_lia.
  - exact reno_ack_moves.
  - exact reno_ack_limits.
  - exact reno_loss_moves.
  - exact reno_loss_limits.
  - done.
  - done.
Defined.

End NewRenoLaws.

Section CubicLaws.
Import Cubic.

Definition cubic_wf : t -> Prop :=
  window_wf mss cwnd ssthresh max_window slow_start_cap recovery.

Lemma cubic_new_wf mss : is_u32 mss -> cubic_wf (new mss).
Proof. intros Hm. exact (reno_new_wf mss Hm). Qed.

Lemma open_epoch_frame now c :
  let c' := open_epoch now c in
  mss c' = mss c /\ cwnd c' = cwnd c /\ ssthresh c' = ssthresh c /\
  max_window c' = max_window c /\ slow_start_cap c' = slow_start_cap c /\
  recovery c' = recovery c.
Proof.
  unfold open_epoch. destruct (_ =? 0); [|done]. simpl. by destruct (_ <=? _).
Qed.

(** CUBIC's growth law never moves the window down, nor up by more than what was
    acknowledged, and stays a [u32]. *)
Lemma cubic_avoid_grows acked now c :
  0 < mss c -> is_u32 (mss c) -> minimum_window (mss c) <= cwnd c -> is_u32 (cwnd c) -> is_u32 acked -> 0 < acked ->
  let c' := cubic_avoid acked now c in
  mss c' = mss c /\ ssthresh c' = ssthresh c /\ max_window c' = max_window c /\
  slow_start_cap c' = slow_start_cap c /\ recovery c' = recovery c /\
  cwnd c <= cwnd c' <= cwnd c + acked /\ is_u32 (cwnd c').
Proof.
  intros Hm Hm' Hmin Hc Ha Hpos. unfold cubic_avoid.
  pose proof (open_epoch_frame now c) as (E1 & E2 & E3 & E4 & E5 & E6).
  set (c1 := open_epoch now c) in *. clearbody c1. cbv zeta.
  destruct (cwnd c1 <? _) eqn:EL; bool_to_prop; simpl; rewrite E2 in *;
    repeat split; try done.
  1-4: unfold_ints; lia.
  all: assert (0 <= mss c1 * acked / (100 * cwnd c) <= acked) as Hle
    by (rewrite E1; unfold minimum_window in Hmin; unfold_ints; assert (mss c <= cwnd c) by lia; split;
        [apply Z.div_pos; nia|apply Z.div_le_upper_bound; nia]);
    rewrite w32_small by (unfold_ints; lia); unfold_ints; lia.
Qed.

Lemma cubic_ack_moves acked fl rtt now c :
  cubic_wf c -> is_u32 acked ->
  ack_moves cwnd ssthresh max_window slow_start_cap recovery c
    (on_ack acked fl rtt now c) acked.
Proof.
  intros Hwf Ha. pose proof Hwf as (Hm & Hm' & Hc & Hmin & Hs & Hi & Hx & Hcap & He).
  unfold on_ack, ack_moves. rewrite absorb_ack_spec.
  set (c0 := if smoothed_us rtt =? 0 then c else _).
  set (c1 := if min_us rtt =? 0 then c0 else _).
  assert (mss c1 = mss c /\ cwnd c1 = cwnd c /\ ssthresh c1 = ssthresh c /\
    recovery c1 = recovery c /\ max_window c1 = max_window c /\
    slow_start_cap c1 = slow_start_cap c) as (E1 & E2 & E3 & E4 & E5 & E6)
    by (unfold c1, c0; by destruct (_ =? 0), (_ =? 0)).
  rewrite E4. clearbody c1.
  destruct (acked =? 0) eqn:E0; bool_to_prop.
  - rewrite E2, E3, E4, E6. subst acked. repeat split.
    destruct (active (recovery c)) eqn:EA; [|by eauto].
    unfold hold_of. rewrite EA. destruct He. repeat split; try done; int_lia.
  - destruct (active (recovery c)) eqn:EA.
    + pose proof (absorb_ack_hold _ _ Ha He EA) as Hh.
      rewrite absorb_ack_spec, EA in Hh. simpl in *. by rewrite ?E1, ?E2, ?E3, ?E5, ?E6.
    + cbn [cwnd ssthresh set_recovery].
      pose proof (slow_start_grow_bounds (cwnd c) (ssthresh c) (slow_start_cap c) acked).
      assert (0 < acked) as Hpos by (unfold_ints; lia).
      pose proof (cubic_avoid_grows acked now (set_recovery (recovery c) c1)) as Hg.
      cbn [cwnd mss ssthresh max_window slow_start_cap recovery set_recovery] in Hg.
      destruct (cwnd c1 <? ssthresh c1) eqn:EL; bool_to_prop; simpl;
        rewrite ?E1, ?E2, ?E3, ?E5, ?E6 in *.
      * repeat split; try done. right. eexists; split; [done|]. int_lia.
      * destruct (Hg Hm Hm' Hmin Hc Ha Hpos) as (_ & -> & G3 & -> & -> & ? & ?). rewrite G3.
        repeat split; try done. right. by eauto.
Qed.

Lemma cubic_ack_limits acked fl rtt now c :
  mss (on_ack acked fl rtt now c) = mss c /\
  max_window (on_ack acked fl rtt now c) = max_window c.
Proof.
  unfold on_ack. rewrite absorb_ack_spec.
  destruct (smoothed_us rtt =? 0), (min_us rtt =? 0), (acked =? 0); simpl; try done;
    destruct (active _); simpl; try done; destruct (_ <? _); simpl; try done;
    unfold cubic_avoid;
    match goal with |- context [open_epoch now ?x] =>
      pose proof (open_epoch_frame now x) as (E1 & _ & _ & E2 & _) end;
    simpl in *; destruct (_ <? _); simpl; by rewrite E1, E2.
Qed.

Lemma beta_reduce_le w : is_u32 w -> 0 <= w32 (w * BETA_NUM / BETA_DEN) <= w.
Proof. int_lia. Qed.

Lemma cubic_loss_moves lost p c :
  loss_moves mss cwnd ssthresh slow_start_cap recovery
    (fun w => w32 (w * BETA_NUM / BETA_DEN)) c (on_loss lost p c) p.
Proof.
  unfold on_loss, loss_moves. destruct p; [done|].
  destruct (active (recovery c)); [done|]. simpl. by destruct (_ <? _).
Qed.

Lemma cubic_loss_limits lost p c :
  mss (on_loss lost p c) = mss c /\ max_window (on_loss lost p c) = max_window c.
Proof.
  unfold on_loss. destruct p; [done|]. destruct (active _); [done|]. by destruct (_ <? _).
Qed.

#[export] Instance Cubic_laws : CongestionLaws Cubic.t.
Proof.
  apply (window_laws mss cwnd ssthresh max_window slow_start_cap recovery
           (fun w => w32 (w * BETA_NUM / BETA_DEN))).
  - exact beta_reduce_le.
  - exact cubic_ack_moves.
  - exact cubic_ack_limits.
  - exact cubic_loss_moves.
  - exact cubic_loss_limits.
  - done.
  - done.
Defined.

End CubicLaws.

Opaque NewReno.on_loss NewReno.window Cubic.on_loss Cubic.window.

Section ControllerLaws.
Import Controller.

Definition controller_wf (c : t) : Prop :=
  match c with Reno c => cc_wf c | Cubic c => cc_wf c end.
Definition controller_floor (c : t) : Z :=
  match c with Reno c => cc_floor c | Cubic c => cc_floor c end.
Definition controller_cap (c : t) : Z :=
  match c with Reno c => cc_cap c | Cubic c => cc_cap c end.
Definition controller_hold (c : t) : Z :=
  match c with Reno c => cc_hold c | Cubic c => cc_hold c end.

Lemma controller_ack_limits acked fl rtt now c :
  controller_floor (on_ack acked fl rtt now c) = controller_floor c /\
  controller_cap (on_ack acked fl rtt now c) = controller_cap c.
Proof. destruct c as [c|c]; exact (cc_ack_limits acked fl rtt now c). Qed.

Lemma controller_loss_limits lost p c :
  controller_floor (on_loss lost p c) = controller_floor c /\
  controller_cap (on_loss lost p c) = controller_cap c.
Proof. destruct c as [c|c]; exact (cc_loss_limits lost p c). Qed.

Lemma controller_hold_ack acked fl rtt now c :
  is_u32 acked -> controller_wf c -> 0 < controller_hold c ->
  window (on_ack acked fl rtt now c) = window c /\
  controller_hold (on_ack acked fl rtt now c) = Z.max 0 (controller_hold c - acked).
Proof. destruct c as [c|c]; exact (cc_hold_ack acked fl rtt now c). Qed.

Lemma controller_hold_loss lost c :
  controller_wf c -> 0 < controller_hold c -> on_loss lost false c = c.
Proof.
  destruct c as [c|c]; intros Hwf Hh;
    [exact (f_equal Reno (cc_hold_loss lost c Hwf Hh))
    |exact (f_equal Cubic (cc_hold_loss lost c Hwf Hh))].
Qed.

Lemma controller_hold_nonneg c : controller_wf c -> 0 <= controller_hold c.
Proof. destruct c as [c|c]; exact (cc_hold_nonneg c). Qed.

Lemma controller_window_bounds c :
  controller_wf c ->
  0 < controller_floor c <= window c /\ window c <= controller_cap c.
Proof. destruct c as [c|c]; exact (cc_window_bounds c). Qed.

Lemma controller_ack_wf acked fl rtt now c :
  is_u32 acked -> controller_wf c -> controller_wf (on_ack acked fl rtt now c).
Proof. destruct c as [c|c]; exact (cc_ack_wf acked fl rtt now c). Qed.

Lemma controller_loss_wf lost p c :
  controller_wf c -> controller_wf (on_loss lost p c).
Proof. destruct c as [c|c]; exact (cc_loss_wf lost p c). Qed.

Lemma controller_rto_loss c : on_rto c = on_loss 0 true c.
Proof. by destruct c. Qed.

Lemma controller_ack_grows acked fl rtt now c :
  is_u32 acked -> controller_wf c -> window c <= window (on_ack acked fl rtt now c) <= window c + acked.
Proof. destruct c as [c|c]; exact (cc_ack_grows acked fl rtt now c). Qed.

Lemma controller_loss_shrinks lost p c :
  controller_wf c -> window (on_loss lost p c) <= window c.
Proof. destruct c as [c|c]; exact (cc_loss_shrinks lost p c). Qed.

Lemma controller_persistent lost c :
  controller_wf c -> window (on_loss lost true c) = controller_floor c.
Proof.
  destruct c as [c|c]; exact (cc_persistent lost c).
Qed.

Lemma controller_loss_hold lost c :
  controller_wf c -> controller_hold c = 0 ->
  window c <= controller_hold (on_loss lost false c).
Proof. destruct c as [c|c]; exact (cc_loss_hold lost c). Qed.

End ControllerLaws.

Transparent NewReno.on_loss NewReno.window Cubic.on_loss Cubic.window.

#[export] Instance Controller_laws : CongestionLaws Controller.t := {
  cc_wf := controller_wf;
  cc_floor := controller_floor;
  cc_cap := controller_cap;
  cc_hold := controller_hold;
  cc_hold_nonneg := controller_hold_nonneg;
  cc_window_bounds := controller_window_bounds;
  cc_ack_wf := controller_ack_wf;
  cc_loss_wf := controller_loss_wf;
  cc_rto_loss := controller_rto_loss;
  cc_ack_limits := controller_ack_limits;
  cc_loss_limits := controller_loss_limits;
  cc_ack_grows := controller_ack_grows;
  cc_loss_shrinks := controller_loss_shrinks;
  cc_persistent := controller_persistent;
  cc_hold_ack := controller_hold_ack;
  cc_hold_loss := controller_hold_loss;
  cc_loss_hold := controller_loss_hold
}.

(* ------------------------------------------------------------------ *)
(** ** Runs of a controller *)

(** Every call a transport can make on its controller. *)
Inductive ctl_op :=
  | OpAck (bytes_acked in_flight : Z) (rtt : Rtt) (now_ms : Z)
  | OpLoss (bytes_lost : Z) (persistent : bool)
  | OpRto
  | OpSetMaxWindow (max : Z)
  | OpSetSlowStartCap (cap : Z).

Definition ctl_step (c : Controller.t) (o : ctl_op) : Controller.t :=
  match o with
  | OpAck a fl rtt now => Controller.on_ack a fl rtt now c
  | OpLoss l p => Controller.on_loss l p c
  | OpRto => Controller.on_rto c
  | OpSetMaxWindow m => Controller.set_max_window m c
  | OpSetSlowStartCap cap => Controller.set_slow_start_cap cap c
  end.

Definition ctl_run (ops : list ctl_op) (c : Controller.t) : Controller.t :=
  foldl ctl_step c ops.

(** The arguments of a call are [u32] values. *)
Definition op_ok (o : ctl_op) : Prop :=
  match o with
  | OpAck a _ _ _ => is_u32 a
  | OpSetMaxWindow m => is_u32 m
  | OpSetSlowStartCap cap => is_u32 cap
  | _ => True
  end.

(** Acks and ordinary losses only: what an episode sees. *)
Definition op_in_episode (o : ctl_op) : Prop :=
  match o with
  | OpAck a _ _ _ => is_u32 a
  | OpLoss _ p => p = false
  | _ => False
  end.

Definition op_acked (o : ctl_op) : Z :=
  match o with OpAck a _ _ _ => a | _ => 0 end.

Definition total_acked (ops : list ctl_op) : Z := foldr (fun o n => op_acked o + n) 0 ops.

Definition effective_mss (mss : Z) : Z := if mss =? 0 then DEFAULT_MSS else mss.

Lemma ctl_step_wf o c :
  op_ok o -> cc_wf c -> cc_wf (ctl_step c o) /\ cc_floor (ctl_step c o) = cc_floor c.
Proof.
  intros Ho Hwf. destruct o as [a fl rtt now|l p| |m|cap].
  - exact (conj (cc_ack_wf a fl rtt now c Ho Hwf) (proj1 (cc_ack_limits a fl rtt now c))).
  - exact (conj (cc_loss_wf l p c Hwf) (proj1 (cc_loss_limits l p c))).
  - change (ctl_step c OpRto) with (on_rto c). rewrite (cc_rto_loss c).
    exact (conj (cc_loss_wf 0 true c Hwf) (proj1 (cc_loss_limits 0 true c))).
  - assert (forall mss, 0 < mss -> initial_window mss <= Z.max m (initial_window mss) /\
      is_u32 (Z.max m (initial_window mss))) as Hx
      by (intros mss Hm; pose proof (initial_window_u32 mss Hm); simpl in Ho;
          unfold is_u32 in *; lia).
    destruct c as [c|c]; destruct Hwf as (H1 & H2 & H3 & H4 & H5 & H6 & H7 & H8 & H9);
      exact (conj (conj H1 (conj H2 (conj H3 (conj H4 (conj H5 (conj (proj1 (Hx _ H1))
               (conj (proj2 (Hx _ H1)) (conj H8 H9)))))))) eq_refl).
  - destruct c as [c|c]; destruct Hwf as (H1 & H2 & H3 & H4 & H5 & H6 & H7 & H8 & H9);
      exact (conj (conj H1 (conj H2 (conj H3 (conj H4 (conj H5 (conj H6 (conj H7
               (conj (proj1 Ho) H9)))))))) eq_refl).
Qed.

Lemma ctl_run_wf ops c :
  Forall op_ok ops -> cc_wf c -> cc_wf (ctl_run ops c) /\ cc_floor (ctl_run ops c) = cc_floor c.
Proof.
  intros Hops. revert c. induction Hops as [|o ops Ho Hops IH]; intros c Hwf; [done|].
  destruct (ctl_step_wf o c Ho Hwf) as [H1 H2].
  destruct (IH _ H1) as [H3 H4]. exact (conj H3 (eq_trans H4 H2)).
Qed.

Lemma controller_new_wf mss algo :
  is_u32 mss -> cc_wf (Controller.with_algorithm mss algo) /\
  cc_floor (Controller.with_algorithm mss algo) = minimum_window (effective_mss mss).
Proof.
  intros Hm. destruct algo; (split; [|done]); [by apply reno_new_wf|by apply cubic_new_wf].
Qed.

Lemma episode_run ops c :
  Forall op_in_episode ops -> cc_wf c -> total_acked ops < cc_hold c ->
  Controller.window (ctl_run ops c) = Controller.window c.
Proof.
  intros Hops. revert c. induction Hops as [|o ops Ho Hops IH]; intros c Hwf Hh; [done|].
  assert (0 <= total_acked ops) as Hpos.
  { clear -Hops. induction Hops as [|o ops Ho _ IH]; simpl; [done|].
    destruct o; simpl in *; int_lia. }
  change (ctl_run (o :: ops) c) with (ctl_run ops (ctl_step c o)).
  change (total_acked (o :: ops)) with (op_acked o + total_acked ops) in Hh.
  destruct o as [a fl rtt now|l p| |m|cap]; cbn [op_in_episode op_acked] in *; try done.
  - assert (0 < cc_hold c) as Hc by int_lia.
    destruct (cc_hold_ack a fl rtt now c Ho Hwf Hc) as [Hw Hh'].
    rewrite IH; [exact Hw|exact (cc_ack_wf a fl rtt now c Ho Hwf)|].
    change (ctl_step _ _) with (on_ack a fl rtt now c). rewrite Hh'. lia.
  - subst p. assert (0 < cc_hold c) as Hc by lia.
    change (ctl_step _ _) with (on_loss l false c).
    rewrite (cc_hold_loss l c Hwf Hc). apply IH; [done|lia].
Qed.

(** The congestion window itself, before the clamps of [window], and what a loss
    makes of it. *)
Definition controller_cwnd (c : Controller.t) : Z :=
  match c with Controller.Reno c => NewReno.cwnd c | Controller.Cubic c => Cubic.cwnd c end.
Definition decrease (c : Controller.t) (w : Z) : Z :=
  match c with Controller.Reno _ => w / 2 | Controller.Cubic _ => w * BETA_NUM / BETA_DEN end.

Lemma controller_cwnd_bounds c : cc_wf c -> 0 < cc_floor c <= controller_cwnd c /\ controller_cwnd c <= U32_MAX.
Proof.
  destruct c as [c|c]; intros (Hm & _ & [_ Hc] & Hmin & _);
    (split; [split; [exact (proj1 (initial_window_ge_minimum _ Hm))|exact Hmin]|exact Hc]).
Qed.

Lemma controller_cwnd_loss lost c :
  cc_wf c -> cc_hold c = 0 ->
  controller_cwnd (Controller.on_loss lost false c) = Z.max (decrease c (controller_cwnd c)) (cc_floor c).
Proof.
  destruct c as [c|c]; intros (_ & _ & Hc & _ & _ & _ & _ & _ & [_ He]) Hh.
  - change (hold_of (NewReno.recovery c) = 0) in Hh. unfold hold_of in Hh. pose proof (reno_loss_moves lost false c) as [_ Hm]. destruct (active (NewReno.recovery c)); [specialize (He eq_refl); lia|].
    cbn [negb andb] in Hm. destruct Hm as (E1 & E2 & _). cbn [controller_cwnd Controller.on_loss decrease]. by rewrite E2, E1.
  - change (hold_of (Cubic.recovery c) = 0) in Hh. unfold hold_of in Hh.
    pose proof (cubic_loss_moves lost false c) as [_ Hm]. destruct (active (Cubic.recovery c)); [specialize (He eq_refl); lia|].
    cbn [negb andb] in Hm. destruct Hm as (E1 & E2 & _). cbn [controller_cwnd Controller.on_loss decrease].
    rewrite E2, E1, w32_small by int_lia. done.
Qed.

(** C22: How a controller reacts.  After any sequence of acks, losses, timeouts and
    reconfigurations of a freshly made controller of either algorithm, the
    congestion window (before the clamps of [window]) is a [u32] of at least twice
    the segment size.  An ack never shrinks the window and grows it by what it
    acknowledges at most; a timeout or persistent congestion drops it to twice the
    segment size; a loss outside a recovery episode halves it (NewReno) or takes it
    to 717/1024 (CUBIC), but not below that, and no mix of further losses and acks
    then moves it until a full pre-loss window has been acknowledged; a loss inside an
    episode changes nothing. *)
Theorem controller_reacts mss algo ops lost :
  is_u32 mss -> Forall op_ok ops ->
  let c := ctl_run ops (Controller.with_algorithm mss algo) in
  let floor := minimum_window (effective_mss mss) in
  (0 < floor <= controller_cwnd c /\ controller_cwnd c <= U32_MAX) /\
  (forall acked fl rtt now, is_u32 acked ->
     Controller.window c <= Controller.window (Controller.on_ack acked fl rtt now c) <= Controller.window c + acked) /\
  Controller.window (Controller.on_loss lost true c) = floor /\ Controller.window (Controller.on_rto c) = floor /\
  if cc_hold c =? 0 then
    controller_cwnd (Controller.on_loss lost false c) = Z.max (decrease c (controller_cwnd c)) floor /\
    forall more, Forall op_in_episode more -> total_acked more < Controller.window c ->
      Controller.window (ctl_run more (Controller.on_loss lost false c)) =
      Controller.window (Controller.on_loss lost false c)
  else Controller.on_loss lost false c = c.
Proof.
  intros Hm Hops c floor. destruct (controller_new_wf mss algo Hm) as [Hwf0 Hfl0].
  destruct (ctl_run_wf ops _ Hops Hwf0) as [Hwf Hfl]. rewrite Hfl0 in Hfl. fold floor in Hfl. fold c in Hwf, Hfl. clearbody c floor.
  pose proof (controller_cwnd_bounds c Hwf) as Hb. pose proof (cc_persistent lost c Hwf) as Hp.
  pose proof (cc_persistent 0 c Hwf) as Hp0. rewrite <-(cc_rto_loss c) in Hp0. rewrite Hfl in *.
  split; [exact Hb|]. split; [intros acked fl rtt now Ha; exact (cc_ack_grows acked fl rtt now c Ha Hwf)|].
  split; [exact Hp|]. split; [exact Hp0|]. destruct (cc_hold c =? 0) eqn:Eh; bool_to_prop.
  - split; [rewrite <-Hfl; by apply controller_cwnd_loss|]. intros more Hmore Hlt.
    apply episode_run; [done|exact (cc_loss_wf lost false c Hwf)|].
    exact (Z.lt_le_trans _ _ _ Hlt (cc_loss_hold lost c Hwf Eh)).
  - pose proof (cc_hold_nonneg c Hwf). apply (cc_hold_loss lost c Hwf). lia.
Qed.

Lemma controller_reacts_witness :
  let c := ctl_run [OpAck 12000 0 (mkRtt 50000 50000) 10] (Controller.with_algorithm 1200 Cubic_algo) in
  controller_cwnd (Controller.on_loss 1200 false c) = 16804 /\
  Controller.window
    (ctl_run [OpLoss 1200 false; OpAck 20000 0 (mkRtt 50000 0) 5; OpLoss 1200 false]
       (Controller.on_loss 1200 false c)) = 16804.
Proof.
  intros c.
  destruct (controller_reacts 1200 Cubic_algo [OpAck 12000 0 (mkRtt 50000 50000) 10] 1200) as (_ & _ & _ & _ & H).
  - int_lia.
  - repeat constructor; int_lia.
  - fold c in H. assert (cc_hold c =? 0 = true) as E by (vm_compute; reflexivity). rewrite E in H. destruct H as [H1 H2].
    split; [rewrite H1; vm_compute; reflexivity|]. rewrite H2; [vm_compute; reflexivity| |vm_compute; reflexivity].
    repeat constructor; int_lia.
Defined.

(* ------------------------------------------------------------------ *)
(** ** The integer cube root is exact *)

Transparent icbrt_u128.

Lemma checked_mul128_some a b : 0 <= a * b <= U128_MAX -> checked_mul128 a b = Some (a * b).
Proof. unfold checked_mul128. intros. destruct (_ <=? _) eqn:E; bool_to_prop; [done|lia]. Qed.

Lemma cube_le_spec x c : 0 <= c -> is_u128 x -> cube_le x c = true <-> c * c * c <= x.
Proof.
  intros Hc Hx. unfold cube_le, checked_mul128, is_u128 in *.
  destruct (c * c <=? U128_MAX) eqn:E1; bool_to_prop.
  - destruct (c * c * c <=? U128_MAX) eqn:E2; bool_to_prop.
    + by rewrite Z.leb_le.
    + split; [done|lia].
  - split; [done|]. intros. nia.
Qed.

Lemma cube_le_false x c : 0 <= c -> is_u128 x -> cube_le x c = false <-> x < c * c * c.
Proof.
  intros Hc Hx. pose proof (cube_le_spec x c Hc Hx) as H.
  destruct (cube_le x c); [|split; [|done]; intros _].
  - assert (c * c * c <= x) by by apply H. split; [done|lia].
  - destruct (Z_lt_le_dec x (c * c * c)) as [|Hle]; [done|]. by apply H in Hle.
Qed.

(** The Newton loop keeps its iterate at least 1, so no division is by zero,
    and below its start, so [y * y] and [2 * y + x / (y * y)] fit [u128]. *)
Lemma newton_total x y0 :
  8 <= x -> 0 < y0 < 2 ^ 64 ->
  exists y, while_pow 128 (newton_step x) y0 = inr y /\ 0 < y < 2 ^ 64.
Proof.
  intros Hx Hy. apply (while_pow_total (newton_step x) (fun y => 0 < y < 2 ^ 64) (fun y => y));
    [|done|change (2 ^ Z.of_nat 128) with (2 ^ 128); lia].
  intros y Hy'. unfold newton_step. cbv zeta.
  destruct (y <=? _) eqn:E; bool_to_prop; [done|].
  assert (0 < (2 * y + x / (y * y)) / 3) as Hn; [|lia].
  apply Z.div_str_pos. assert (0 <= x / (y * y)) by (apply Z.div_pos; nia).
  destruct (decide (y = 1)) as [->|]; [|lia].
  rewrite Z.mul_1_l, Z.div_1_r. lia.
Qed.

Lemma lower_total x y0 :
  is_u128 x -> 0 < y0 < 2 ^ 64 ->
  exists y, while_pow 128 (lower_step x) y0 = inr y /\ 0 <= y < 2 ^ 64 /\ y * y * y <= x.
Proof.
  intros Hx Hy. apply (while_pow_total (lower_step x) (fun y => 0 <= y < 2 ^ 64) (fun y => y));
    [|lia|change (2 ^ Z.of_nat 128) with (2 ^ 128); lia].
  intros y Hy'. unfold lower_step. destruct (0 <? y) eqn:E1; bool_to_prop; simpl.
  - destruct (cube_le x y) eqn:E2; simpl; [|lia]. apply cube_le_spec in E2; [|lia|done]. lia.
  - assert (y = 0) as -> by lia. unfold is_u128 in Hx. lia.
Qed.

Lemma raise_total x y0 :
  is_u128 x -> 0 <= y0 -> y0 * y0 * y0 <= x ->
  exists y, while_pow 128 (raise_step x) y0 = inr y /\
    0 <= y /\ y * y * y <= x < (y + 1) * (y + 1) * (y + 1).
Proof.
  intros Hx Hy Hc.
  apply (while_pow_total (raise_step x) (fun y => 0 <= y /\ y * y * y <= x) (fun y => x - y)).
  - intros y [H0 H1]. unfold raise_step. destruct (cube_le x (y + 1)) eqn:E.
    + apply cube_le_spec in E; [|lia|done]. split; [lia|]. nia.
    + apply cube_le_false in E; [|lia|done]. lia.
  - done.
  - change (2 ^ Z.of_nat 128) with (2 ^ 128). unfold is_u128, U128_MAX in Hx. lia.
Qed.

Lemma icbrt_u128_total x :
  is_u128 x ->
  exists y, icbrt_u128 x = Some y /\ 0 <= y /\ y * y * y <= x < (y + 1) * (y + 1) * (y + 1).
Proof.
  intros Hx. unfold icbrt_u128. destruct (x <? 8) eqn:E8; bool_to_prop.
  - eexists; split; [done|]. unfold is_u128 in Hx. destruct (0 <? x) eqn:E; bool_to_prop; lia.
  - assert (0 < Z.shiftl 1 (div_ceil (bits_u128 x) 3) < 2 ^ 64) as Hy.
    { rewrite Z.shiftl_mul_pow2, Z.mul_1_l; unfold div_ceil, bits_u128.
      2: { pose proof (Z.log2_nonneg x). apply Z.div_pos; lia. }
      assert (Z.log2 x < 128) by (apply Z.log2_lt_pow2; unfold is_u128, U128_MAX in Hx; lia).
      pose proof (Z.log2_nonneg x). split; [apply Z.pow_pos_nonneg; [lia|apply Z.div_pos; lia]|].
      apply Z.pow_lt_mono_r; [lia..|]. apply Z.div_lt_upper_bound; lia. }
    cbv zeta. generalize dependent (Z.shiftl 1 (div_ceil (bits_u128 x) 3)). intros y0 Hy.
    destruct (newton_total x y0) as (y1 & -> & Hy1); [lia|done|].
    destruct (lower_total x y1) as (y2 & E2 & Hy2 & Hc2); [done..|]. simpl. rewrite E2.
    destruct (raise_total x y2) as (y3 & E3 & Hy3 & Hc3); [done|lia|done|]. simpl. rewrite E3.
    by eauto.
Qed.

(** C38: [icbrt_u128] terminates on every [u128] and returns the exact floor of
    the cube root: none of its three loops diverges, and no product overflows. *)
Theorem icbrt_u128_correct x :
  is_u128 x ->
  exists y, icbrt_u128 x = Some y /\ 0 <= y /\ y * y * y <= x < (y + 1) * (y + 1) * (y + 1).
Proof. exact (icbrt_u128_total x). Qed.

Lemma icbrt_u128_correct_witness :
  is_u128 U128_MAX /\ exists y, icbrt_u128 U128_MAX = Some y /\ 0 <= y /\
    y * y * y <= U128_MAX < (y + 1) * (y + 1) * (y + 1).
Proof.
  assert (is_u128 U128_MAX) as H by (unfold is_u128, U128_MAX; lia).
  split; [exact H|exact (icbrt_u128_correct U128_MAX H)].
Defined.

(* ------------------------------------------------------------------ *)
(** ** The cubic curve *)

Section CubicCurve.
Import Cubic.

Lemma wi128_small x : - 2 ^ 127 <= x < 2 ^ 127 -> wi128 x = x.
Proof. intros. unfold wi128. rewrite Z.mod_small; lia. Qed.

(** Within twelve days of its epoch (2^30 ms) the curve is computed without
    overflow: it is the clamped real formula. *)
Lemma w_cubic_exact c t :
  is_u32 (mss c) -> is_u32 (origin_point c) -> Z.abs (t - k_ms c) <= 2 ^ 30 ->
  w_cubic c t =
    let w := origin_point c +
      Z.quot (mss c * (4 * ((t - k_ms c) * (t - k_ms c) * (t - k_ms c)))) 10000000000 in
    if w <? minimum_window (mss c) then minimum_window (mss c)
    else if max_window c <? w then max_window c else w.
Proof.
  intros Hm Ho Hd. unfold w_cubic. cbv zeta. generalize dependent (t - k_ms c). intros d Hd.
  unfold is_u32, U32_MAX in *.
  assert (0 <= d * d <= 2 ^ 60) as H2 by nia.
  assert (- 2 ^ 90 <= d * d * d <= 2 ^ 90) as H3 by nia.
  assert (- 2 ^ 122 <= mss c * (d * d * d) <= 2 ^ 122) as H4 by nia.
  rewrite (wi128_small (d * d)) by lia. rewrite (wi128_small (d * d * d)) by lia.
  rewrite (wi128_small (mss c * (d * d * d))) by lia.
  rewrite (wi128_small (mss c * (d * d * d) * 4)) by lia.
  replace (mss c * (4 * (d * d * d))) with (mss c * (d * d * d) * 4) by ring.
  assert (- 2 ^ 124 <= mss c * (d * d * d) * 4 <= 2 ^ 124) as H5 by lia.
  generalize dependent (mss c * (d * d * d) * 4). intros q Hq.
  rewrite wi128_small; [done|]. Z.to_euclidean_division_equations. lia.
Qed.

Lemma cube_mono a b : a <= b -> a * a * a <= b * b * b.
Proof.
  intros. assert (0 <= 2 * (a * a + a * b + b * b)).
  { replace (2 * _) with (a * a + b * b + (a + b) * (a + b)) by ring. nia. }
  assert (0 <= (b - a) * (a * a + a * b + b * b)) by (apply Z.mul_nonneg_nonneg; lia). lia.
Qed.

Lemma w_cubic_mono c t1 t2 :
  is_u32 (mss c) -> is_u32 (origin_point c) -> minimum_window (mss c) <= max_window c ->
  t1 <= t2 -> Z.abs (t1 - k_ms c) <= 2 ^ 30 -> Z.abs (t2 - k_ms c) <= 2 ^ 30 ->
  w_cubic c t1 <= w_cubic c t2.
Proof.
  intros Hm Ho Hx Ht H1 H2. rewrite !w_cubic_exact by done. cbv zeta.
  pose proof (cube_mono (t1 - k_ms c) (t2 - k_ms c) ltac:(lia)) as Hc.
  assert (Z.quot (mss c * (4 * ((t1 - k_ms c) * (t1 - k_ms c) * (t1 - k_ms c)))) 10000000000 <=
          Z.quot (mss c * (4 * ((t2 - k_ms c) * (t2 - k_ms c) * (t2 - k_ms c)))) 10000000000).
  { apply Z.quot_le_mono; [lia|]. apply Z.mul_le_mono_nonneg_l; [apply Hm|lia]. }
  repeat case_match; bool_to_prop; lia.
Qed.

(** What opening an epoch below the last window computes for [K]. *)
Lemma open_epoch_below now c :
  0 < mss c -> is_u32 (w_max c) -> is_u32 (cwnd c) -> epoch_start_ms c = 0 ->
  cwnd c < w_max c ->
  let c' := open_epoch now c in
  origin_point c' = w_max c /\ 0 <= k_ms c' < 2 ^ 22 /\
  mss c * (k_ms c' * k_ms c' * k_ms c') <= (w_max c - cwnd c) * 2500000000.
Proof.
  intros Hm Hw Hc He Hlt. unfold open_epoch. rewrite He. cbn [Z.eqb].
  destruct (w_max _ <=? cwnd _) eqn:E; cbn [w_max cwnd set_epoch_start_ms] in E;
    bool_to_prop; [lia|].
  cbn [w_max cwnd mss set_epoch_start_ms].
  set (num := (w_max c - cwnd c) * 2500000000 / mss c).
  assert (0 <= num < 2 ^ 64 /\ mss c * num <= (w_max c - cwnd c) * 2500000000) as [Hn Hn'].
  { unfold is_u32, U32_MAX in *. split; [split|].
    - apply Z.div_pos; lia.
    - apply Z.div_lt_upper_bound; nia.
    - apply Z.mul_div_le. lia. }
  destruct (icbrt_u128_total num) as (k & -> & Hk & Hk' & _); [unfold is_u128, U128_MAX; lia|].
  assert (k < 2 ^ 22) by nia. simpl. rewrite w64_small by (unfold is_u64, U64_MAX; lia).
  repeat split; try lia. nia.
Qed.

(** When CUBIC opens an epoch below the window of the last loss, the curve
    it will follow starts no lower than the current window, only rises, and is
    back at the last window after exactly [K] milliseconds. *)
Theorem cubic_epoch_curve now c :
  cubic_wf c -> is_u32 (w_max c) -> epoch_start_ms c = 0 -> cwnd c < w_max c ->
  let c' := open_epoch now c in
  Z.min (cwnd c) (max_window c) <= w_cubic c' 0 /\
  w_cubic c' (k_ms c') = Z.min (w_max c) (max_window c) /\
  (forall t1 t2, 0 <= t1 <= t2 -> t2 <= 2 ^ 29 -> w_cubic c' t1 <= w_cubic c' t2).
Proof.
  intros (Hm & Hm' & Hc & Hmin & _ & Hi & Hx & _) Hw He Hlt. cbv zeta.
  destruct (open_epoch_below now c Hm Hw Hc He Hlt) as (Ho & Hk & Hcube).
  destruct (open_epoch_frame now c) as (E1 & _ & _ & E2 & _ & _).
  pose proof (initial_window_ge_minimum _ Hm).
  set (c' := open_epoch now c) in *. clearbody c'.
  assert (is_u32 (mss c') /\ is_u32 (origin_point c')) as [G1 G2] by (by rewrite E1, Ho).
  split; [|split].
  - rewrite w_cubic_exact by (done || lia). cbv zeta. rewrite E1, E2, Ho.
    assert (- (w_max c - cwnd c) <=
      Z.quot (mss c * (4 * ((0 - k_ms c') * (0 - k_ms c') * (0 - k_ms c')))) 10000000000).
    { replace (mss c * _) with (- (mss c * (k_ms c' * k_ms c' * k_ms c') * 4)) by ring.
      rewrite Z.quot_opp_l by lia. apply (proj1 (Z.opp_le_mono _ _)).
      apply Z.quot_le_upper_bound; lia. }
    repeat case_match; bool_to_prop; lia.
  - rewrite w_cubic_exact by (done || lia). cbv zeta. rewrite Z.sub_diag, E1, E2, Ho.
    replace (mss c * _) with 0 by ring. rewrite Z.quot_0_l, Z.add_0_r by lia.
    repeat case_match; bool_to_prop; lia.
  - intros t1 t2 Ht Ht2. apply w_cubic_mono; rewrite ?E1, ?E2, ?Ho; (done || lia).
Qed.

Lemma cubic_epoch_curve_witness :
  exists c, cubic_wf c /\ cwnd c < w_max c /\
  let c' := open_epoch 100 c in
  k_ms c' = 1957 /\ Z.min (cwnd c) (max_window c) <= w_cubic c' 0 /\
  w_cubic c' (k_ms c') = Z.min (w_max c) (max_window c) /\
  (forall t1 t2, 0 <= t1 <= t2 -> t2 <= 2 ^ 29 -> w_cubic c' t1 <= w_cubic c' t2).
Proof.
  exists (on_loss 1200 false (new 1200)).
  assert (cubic_wf (on_loss 1200 false (new 1200))) as Hwf.
  { refine (cc_loss_wf 1200 false (new 1200) (cubic_new_wf 1200 _)). int_lia. }
  split; [exact Hwf|]. split; [vm_compute; reflexivity|].
  split; [vm_compute; reflexivity|].
  apply (cubic_epoch_curve 100 (on_loss 1200 false (new 1200))); [exact Hwf| | |]; vm_compute; try split; congruence.
Defined.

End CubicCurve.
