(* ===== verification/Loss.v ===== *)
(** * Loss detection (crates/net/cc/src/loss.rs)

    The decision core TCP's RACK and QUIC share: a sent unit is lost when it
    trails the largest acknowledged id by the packet threshold, or has outlived
    the time threshold.  [detect] walks the flight in ascending order, reports
    the lost units and returns the tick at which the next one will be lost. *)

From S2P Require Import Prelude.

Abbreviation PACKET_THRESHOLD := 3%Z (only parsing).

Inductive LostBy := PacketThreshold | Time.

Record LossParams := mkLossParams {
  packet_threshold : Z;
  time_threshold_ticks : option Z
}.

Definition rfc9002 (srtt_ticks latest_rtt_ticks granularity_ticks
    max_ack_delay_ticks : Z) : LossParams :=
  let max_rtt := Z.max srtt_ticks latest_rtt_ticks in
  let time_threshold_ticks :=
    if 0 <? max_rtt then
      Some (sat_add64 (Z.max (sat_mul64 max_rtt 9 / 8) granularity_ticks)
              max_ack_delay_ticks)
    else None in
  mkLossParams PACKET_THRESHOLD time_threshold_ticks.

(** [next_deadline.map_or(dl, |d| d.min(dl))]. *)
Definition min_deadline (next_deadline : option Z) (dl : Z) : option Z :=
  Some (match next_deadline with None => dl | Some d => Z.min d dl end).

(** The calls of the [lost] closure, in order, and the returned deadline. *)
Fixpoint detect_from (p : LossParams) (largest_acked now_ticks : Z)
    (units : list (Z * Z)) (next_deadline : option Z)
    : list (Z * LostBy) * option Z :=
  match units with
  | [] => ([], next_deadline)
  | (id, sent_ticks) :: rest =>
      if largest_acked <=? id then ([], next_deadline)
      else if sat_add64 id (packet_threshold p) <=? largest_acked then
        let (l, d) := detect_from p largest_acked now_ticks rest next_deadline in
        ((id, PacketThreshold) :: l, d)
      else
        match time_threshold_ticks p with
        | Some thr =>
            if thr <? sat_sub now_ticks sent_ticks then
              let (l, d) := detect_from p largest_acked now_ticks rest next_deadline in
              ((id, Time) :: l, d)
            else
              let dl := sat_add64 (sat_add64 sent_ticks thr) 1 in
              detect_from p largest_acked now_ticks rest (min_deadline next_deadline dl)
        | None => detect_from p largest_acked now_ticks rest next_deadline
        end
  end.

Definition detect (p : LossParams) (largest_acked now_ticks : Z) (units : list (Z * Z))
    : list (Z * LostBy) * option Z :=
  detect_from p largest_acked now_ticks units None.

(* ------------------------------------------------------------------ *)
(** ** Specification *)

(** The verdict on one unit, on its own. *)
Definition verdict (p : LossParams) (largest_acked now_ticks : Z) (u : Z * Z)
    : option (Z * LostBy) :=
  let (id, sent) := u in
  if largest_acked <=? id then None
  else if sat_add64 id (packet_threshold p) <=? largest_acked then Some (id, PacketThreshold)
  else match time_threshold_ticks p with
       | Some thr => if thr <? sat_sub now_ticks sent then Some (id, Time) else None
       | None => None
       end.

(** The unit is not lost now but will be by age. *)
Definition awaits (p : LossParams) (largest_acked now_ticks : Z) (u : Z * Z) : option Z :=
  let (id, sent) := u in
  if largest_acked <=? id then None
  else if sat_add64 id (packet_threshold p) <=? largest_acked then None
  else match time_threshold_ticks p with
       | Some thr => if thr <? sat_sub now_ticks sent then None
                    else Some (sat_add64 (sat_add64 sent thr) 1)
       | None => None
       end.

(** Units are walked in ascending id order. *)
Definition ascending (units : list (Z * Z)) : Prop := StronglySorted Z.le (map fst units).

Definition units_u64 (units : list (Z * Z)) : Prop :=
  Forall (fun u => is_u64 (fst u) /\ is_u64 (snd u)) units.

Section Detect.
Context (p : LossParams) (largest_acked : Z).

Lemma verdict_beyond now units :
  Forall (fun id => largest_acked <= id) (map fst units) ->
  omap (verdict p largest_acked now) units = [] /\
  omap (awaits p largest_acked now) units = [].
Proof.
  induction units as [|[id sent] units IH]; [done|]. intros H. inv H. csimpl in *.
  destruct (largest_acked <=? id) eqn:E; bool_to_prop; [by apply IH|lia].
Qed.

Lemma detect_from_spec now units nd :
  ascending units ->
  detect_from p largest_acked now units nd =
    (omap (verdict p largest_acked now) units,
     foldl min_deadline nd (omap (awaits p largest_acked now) units)).
Proof.
  revert nd. induction units as [|[id sent] units IH]; intros nd Hs; [done|].
  apply StronglySorted_inv in Hs as [Hs Hf]. csimpl.
  destruct (largest_acked <=? id) eqn:E1; bool_to_prop.
  - destruct (verdict_beyond now units) as [-> ->]; [|done].
    eapply Forall_impl; [exact Hf|]. simpl. lia.
  - destruct (_ <=? largest_acked); [by rewrite IH|].
    destruct (time_threshold_ticks p) as [thr|]; [|by rewrite IH].
    destruct (thr <? _); by rewrite IH.
Qed.

Lemma min_deadline_fold ds nd :
  match foldl min_deadline nd ds with
  | None => nd = None /\ ds = []
  | Some d => (nd = Some d \/ d ∈ ds) /\ Forall (fun x => d <= x) ds /\
              (forall d', nd = Some d' -> d <= d')
  end.
Proof.
  revert nd. induction ds as [|x ds IH]; intros nd; simpl.
  { destruct nd; [|done]. repeat split; [by left|done|]. intros ? [= ->]. done. }
  specialize (IH (min_deadline nd x)). destruct (foldl _ _ ds) as [d|]; [|by destruct IH].
  destruct IH as (H1 & H2 & H3). specialize (H3 _ eq_refl). unfold min_deadline in *.
  destruct nd as [d0|].
  - split; [|split].
    + destruct H1 as [[= <-]|H1]; [|right; by right].
      destruct (Z.min_spec d0 x) as [[_ ->]|[_ ->]]; [by left|right; left].
    + constructor; [lia|done].
    + intros ? [= <-]. lia.
  - split; [|split; [by constructor|done]].
    destruct H1 as [[= <-]|H1]; right; [by left|by right].
Qed.

(** Moving the clock changes a unit's verdict exactly when its deadline is
    reached. *)
Lemma verdict_later now now' u :
  is_u64 (snd u) -> now <= now' -> now' < U64_MAX ->
  (forall thr, time_threshold_ticks p = Some thr -> 0 <= thr) ->
  verdict p largest_acked now' u =
    match awaits p largest_acked now u with
    | Some d => if d <=? now' then Some (fst u, Time) else None
    | None => verdict p largest_acked now u
    end.
Proof.
  destruct u as [id sent]. intros Hs Hn Hm Ht. unfold verdict, awaits. simpl in *.
  destruct (largest_acked <=? id); [done|]. destruct (_ <=? largest_acked); [done|].
  destruct (time_threshold_ticks p) as [thr|]; [|done]. specialize (Ht thr eq_refl).
  destruct (thr <? sat_sub now sent) eqn:E1; bool_to_prop.
  - destruct (thr <? sat_sub now' sent) eqn:E2; bool_to_prop; [done|]. unfold_ints. lia.
  - destruct (thr <? sat_sub now' sent) eqn:E2, (_ <=? now') eqn:E3; bool_to_prop; try done;
      unfold_ints; lia.
Qed.

Lemma awaits_not_lost now u d :
  awaits p largest_acked now u = Some d -> verdict p largest_acked now u = None.
Proof. destruct u as [id sent]. unfold awaits, verdict. by repeat case_match. Qed.

Lemma awaits_future now u d :
  is_u64 (snd u) -> (forall thr, time_threshold_ticks p = Some thr -> 0 <= thr) ->
  awaits p largest_acked now u = Some d -> d < U64_MAX -> now < d.
Proof.
  destruct u as [id sent]. unfold awaits. intros Hs Ht Ha Hd. simpl in *.
  destruct (largest_acked <=? id); [done|]. destruct (_ <=? largest_acked); [done|].
  destruct (time_threshold_ticks p) as [thr|]; [|done]. specialize (Ht thr eq_refl).
  destruct (thr <? _) eqn:E; bool_to_prop; simplify_eq. unfold_ints. lia.
Qed.

End Detect.

(** [detect] declares lost exactly the units below the largest
    acknowledged id that trail it by the packet threshold or are older than the
    time threshold, each once, in order: stopping at the first id not below it
    loses nothing on an ascending walk. *)
Theorem detect_lost_exact p largest_acked now units :
  ascending units ->
  fst (detect p largest_acked now units) = omap (verdict p largest_acked now) units.
Proof. intros Hs. unfold detect. by rewrite detect_from_spec. Qed.

Lemma detect_lost_exact_witness :
  fst (detect (rfc9002 100 90 1 25) 10 1000 [(4, 990); (8, 900); (9, 800); (12, 0)]) =
  [(4, PacketThreshold); (9, Time)].
Proof.
  rewrite detect_lost_exact; [vm_compute; reflexivity|].
  unfold ascending. simpl. repeat constructor; lia.
Defined.

(** The deadline [detect] returns is exact.  Until it, running [detect]
    again finds the same lost units; at it, some unit that was not lost is. *)
Theorem detect_deadline_exact p largest_acked now units d :
  ascending units -> units_u64 units ->
  (forall thr, time_threshold_ticks p = Some thr -> 0 <= thr) ->
  snd (detect p largest_acked now units) = Some d -> d < U64_MAX ->
  (forall now', now <= now' < d ->
     fst (detect p largest_acked now' units) = fst (detect p largest_acked now units)) /\
  (exists u, u ∈ units /\ verdict p largest_acked now u = None /\
     verdict p largest_acked d u = Some (fst u, Time)).
Proof.
  intros Hs Hu Ht Hd Hdm. unfold detect in *. rewrite detect_from_spec in Hd by done.
  simpl in Hd. pose proof (min_deadline_fold (omap (awaits p largest_acked now) units) None) as H.
  rewrite Hd in H. destruct H as ([|Hin] & Hall & _); [done|]. split.
  - intros now' Hn. rewrite !detect_from_spec by done. simpl. clear Hd Hin Hs.
    induction Hu as [|u units [_ Hu] Hus IH]; [done|]. csimpl in *.
    pose proof (verdict_later p largest_acked now now' u Hu ltac:(lia) ltac:(lia) Ht) as Hv.
    destruct (awaits p largest_acked now u) as [du|] eqn:Ea.
    + inv Hall. rewrite Hv. destruct (du <=? now') eqn:E; bool_to_prop; [lia|].
      rewrite (awaits_not_lost p largest_acked now u du Ea). by apply IH.
    + rewrite Hv. by destruct (verdict p largest_acked now u); rewrite IH.
  - apply list_elem_of_omap in Hin as (u & Hin & Ha). exists u. split; [done|].
    assert (is_u64 (snd u)) as Hu' by (by apply (proj1 (Forall_forall _ _) Hu u Hin)).
    pose proof (awaits_future p largest_acked now u d Hu' Ht Ha Hdm) as Hlt.
    split; [exact (awaits_not_lost p largest_acked now u d Ha)|].
    rewrite (verdict_later p largest_acked now d u) by (done || lia).
    by rewrite Ha, Z.leb_refl.
Qed.

Lemma detect_deadline_exact_witness :
  (forall now', 1000 <= now' < 1038 ->
     fst (detect (rfc9002 100 90 1 25) 10 now' [(8, 900); (9, 950)]) = []) /\
  exists u, u ∈ [(8, 900); (9, 950)] /\
    verdict (rfc9002 100 90 1 25) 10 1000 u = None /\
    verdict (rfc9002 100 90 1 25) 10 1038 u = Some (fst u, Time).
Proof.
  apply (detect_deadline_exact (rfc9002 100 90 1 25) 10 1000 [(8, 900); (9, 950)] 1038).
  - unfold ascending. simpl. repeat constructor; lia.
  - repeat constructor; simpl; int_lia.
  - simpl. intros thr [= <-]. int_lia.
  - vm_compute. reflexivity.
  - int_lia.
Defined.
