(* ===== verification/NetTypes.v ===== *)
(** * Network types and byte order (crates/net/src/types.rs, from_bytes.rs)

    Addresses, the byte-order layer every header codec uses, and the IPv4
    routing decision.  A byte is a [Z] in [0, 256); a buffer is a list of
    bytes.  The target is little-endian: a [u32] "in network byte order" is the
    little-endian reading of its four octets in memory. *)

From S2P Require Import Prelude.

(* ------------------------------------------------------------------ *)
(** ** Byte order *)

Definition bytes_ok (l : list Z) : Prop := Forall is_u8 l.

Fixpoint to_le_bytes (n : nat) (x : Z) : list Z :=
  match n with
  | O => []
  | S n' => x mod 256 :: to_le_bytes n' (x / 256)
  end.

Fixpoint from_le_bytes (l : list Z) : Z :=
  match l with
  | [] => 0
  | b :: l' => b + 256 * from_le_bytes l'
  end.

Definition to_be_bytes (n : nat) (x : Z) : list Z := rev (to_le_bytes n x).
Definition from_be_bytes (l : list Z) : Z := from_le_bytes (rev l).

(** Storing [htons x] / [htonl x] in a field writes these bytes; [ntohs] /
    [ntohl] of a field read from [b] is this value. *)
Definition htons (x : Z) : list Z := to_be_bytes 2 x.
Definition htonl (x : Z) : list Z := to_be_bytes 4 x.
Definition ntohs (b : list Z) : Z := from_be_bytes b.
Definition ntohl (b : list Z) : Z := from_be_bytes b.

(** [data[off..off + len]]. *)
Definition slice (off len : Z) (data : list Z) : list Z := ztake len (zdrop off data).

(** [data.get(off..off + len)]: [None] out of range. *)
Definition get_slice (off len : Z) (data : list Z) : option (list Z) :=
  if off + len <=? zlen data then Some (slice off len data) else None.

(** [T::try_ref_from(bytes)]: the prefix of [size_of::<T>()] bytes. *)
Definition try_ref_from (size : Z) (bytes : list Z) : option (list Z) :=
  if zlen bytes <? size then None else Some (ztake size bytes).

(** [data[i]]; callers stay in range. *)
Definition byte_at (data : list Z) (i : Z) : Z := nth (Z.to_nat i) data 0.

(* ------------------------------------------------------------------ *)
(** ** Protocol numbers and addresses *)

Abbreviation PROTO_ICMPV4 := 1%Z (only parsing).
Abbreviation PROTO_TCP := 6%Z (only parsing).
Abbreviation PROTO_UDP := 17%Z (only parsing).
Abbreviation PROTO_ICMPV6 := 58%Z (only parsing).

Record MacAddr := mkMac { mac_bytes : list Z }.

Definition MAC_ZERO : MacAddr := mkMac (replicate 6 0).
Definition MAC_BROADCAST : MacAddr := mkMac (replicate 6 255).

(** [Ipv4Addr.addr], [Ipv6Addr.octets]. *)
Inductive IpAddr :=
  | V4 (addr : Z)
  | V6 (octets : list Z).

#[export] Instance IpAddr_eq_dec : EqDecision IpAddr.
Proof. solve_decision. Defined.

#[export] Instance MacAddr_eq_dec : EqDecision MacAddr.
Proof. solve_decision. Defined.

Definition V4_ANY : IpAddr := V4 0.
Definition IPV4_BROADCAST : Z := 4294967295.

Definition ipv4_from (a b c d : Z) : Z := from_le_bytes [a; b; c; d].
Definition ipv4_octets (addr : Z) : list Z := to_le_bytes 4 addr.

Definition is_v4 (a : IpAddr) : bool := match a with V4 _ => true | V6 _ => false end.

(** A value of the Rust type. *)
Definition ip_ok (a : IpAddr) : Prop :=
  match a with
  | V4 addr => is_u32 addr
  | V6 o => length o = 16%nat /\ bytes_ok o
  end.

Definition mac_ok (m : MacAddr) : Prop := length (mac_bytes m) = 6%nat /\ bytes_ok (mac_bytes m).

Definition is_multicast (o : list Z) : bool := byte_at o 0 =? 255.

Definition is_link_local (o : list Z) : bool :=
  (byte_at o 0 =? 254) && (Z.land (byte_at o 1) 192 =? 128).

Definition solicited_node (o : list Z) : list Z :=
  [255; 2; 0; 0; 0; 0; 0; 0; 0; 0; 0; 1; 255; byte_at o 13; byte_at o 14; byte_at o 15].

Definition link_local_from_mac (m : MacAddr) : list Z :=
  let b := byte_at (mac_bytes m) in
  [254; 128; 0; 0; 0; 0; 0; 0; Z.lxor (b 0) 2; b 1; b 2; 255; 254; b 3; b 4; b 5].

Definition multicast_mac (o : list Z) : MacAddr :=
  mkMac [51; 51; byte_at o 12; byte_at o 13; byte_at o 14; byte_at o 15].

(* ------------------------------------------------------------------ *)
(** ** Configuration and routing *)

Record NetConfig := mkNetConfig {
  cfg_ip : Z;
  cfg_subnet_mask : Z;
  cfg_gateway : Z;
  cfg_dns : Z
}.

(** [None] is [NoRoute]. *)
Definition next_hop_v4 (dest : Z) (cfg : NetConfig) : option Z :=
  if dest =? IPV4_BROADCAST then Some dest
  else
    let mask := cfg_subnet_mask cfg in
    if Z.land dest mask =? Z.land (cfg_ip cfg) mask then Some dest
    else if negb (cfg_gateway cfg =? 0) then Some (cfg_gateway cfg)
    else None.

(** The summary of a received frame the classify pass carries. *)
Record ParsedL3 := mkParsedL3 {
  l3_proto : Z;
  l3_src : IpAddr;
  l3_dst : IpAddr;
  l4_off : Z;
  l4_len : Z;
  snoop_mac : option MacAddr
}.

Definition ParsedL3_l4 (p : ParsedL3) (frame : list Z) : option (list Z) :=
  get_slice (l4_off p) (l4_len p) frame.

(* ------------------------------------------------------------------ *)
(** ** Byte-order lemmas *)

Lemma length_to_le_bytes n x : length (to_le_bytes n x) = n.
Proof. revert x. induction n; intros; simpl; [done|]. by f_equal. Qed.

Lemma length_to_be_bytes n x : length (to_be_bytes n x) = n.
Proof. unfold to_be_bytes. by rewrite length_rev, length_to_le_bytes. Qed.

Lemma to_le_bytes_ok n x : bytes_ok (to_le_bytes n x).
Proof. revert x. induction n; intros; simpl; constructor; [int_lia|apply IHn]. Qed.

Lemma to_be_bytes_ok n x : bytes_ok (to_be_bytes n x).
Proof. unfold to_be_bytes, bytes_ok. apply Forall_rev, to_le_bytes_ok. Qed.

Lemma from_to_le_bytes n x : from_le_bytes (to_le_bytes n x) = x mod 256 ^ Z.of_nat n.
Proof.
  revert x. induction n as [|n IH]; intros x; simpl; [by rewrite Z.mod_1_r|].
  rewrite IH, Nat2Z.inj_succ, Z.pow_succ_r by lia.
  symmetry. apply Z.rem_mul_r; lia.
Qed.

Lemma from_to_be_bytes n x : from_be_bytes (to_be_bytes n x) = x mod 256 ^ Z.of_nat n.
Proof. unfold from_be_bytes, to_be_bytes. rewrite rev_involutive. apply from_to_le_bytes. Qed.

Lemma from_le_bytes_range l :
  bytes_ok l -> 0 <= from_le_bytes l < 256 ^ Z.of_nat (length l).
Proof.
  induction 1 as [|b l Hb Hl IH]; simpl; [lia|].
  rewrite Nat2Z.inj_succ, Z.pow_succ_r by lia. unfold is_u8, U8_MAX in Hb. lia.
Qed.

Lemma from_be_bytes_range l :
  bytes_ok l -> 0 <= from_be_bytes l < 256 ^ Z.of_nat (length l).
Proof.
  intros H. unfold from_be_bytes. rewrite <-(length_rev l).
  apply from_le_bytes_range. by apply Forall_rev.
Qed.

Lemma to_from_le_bytes l : bytes_ok l -> to_le_bytes (length l) (from_le_bytes l) = l.
Proof.
  induction 1 as [|b l Hb Hl IH]; simpl; [done|]. unfold is_u8, U8_MAX in Hb.
  rewrite Z.mul_comm, Z_mod_plus_full, Z.div_add, Z.mod_small, Z.div_small, Z.add_0_l by lia.
  by rewrite IH.
Qed.

Lemma to_from_be_bytes l : bytes_ok l -> to_be_bytes (length l) (from_be_bytes l) = l.
Proof.
  intros H. unfold to_be_bytes, from_be_bytes. rewrite <-(length_rev l), to_from_le_bytes.
  - apply rev_involutive.
  - by apply Forall_rev.
Qed.

Lemma ntohs_htons x : is_u16 x -> ntohs (htons x) = x.
Proof. intros. unfold ntohs, htons. rewrite from_to_be_bytes. apply Z.mod_small. int_lia. Qed.

Lemma ntohl_htonl x : is_u32 x -> ntohl (htonl x) = x.
Proof. intros. unfold ntohl, htonl. rewrite from_to_be_bytes. apply Z.mod_small. int_lia. Qed.

Create Rewrite HintDb wire.
Create HintDb wire.
#[export] Hint Rewrite length_to_le_bytes length_to_be_bytes : wire.
#[export] Hint Resolve to_le_bytes_ok to_be_bytes_ok : wire.

(** Slices of a buffer built by appending fields. *)
Lemma slice_app_l off len (a b : list Z) :
  0 <= off -> 0 <= len -> off + len <= zlen a -> slice off len (a ++ b) = slice off len a.
Proof.
  intros. unfold slice, ztake, zdrop, zlen in *. rewrite drop_app_le by lia.
  rewrite take_app_le; [done|]. rewrite length_drop. lia.
Qed.

Lemma slice_app_r off len (a b : list Z) :
  zlen a <= off -> slice off len (a ++ b) = slice (off - zlen a) len b.
Proof.
  intros. unfold slice, ztake, zdrop, zlen in *. rewrite drop_app_ge by lia.
  by replace (Z.to_nat (off - Z.of_nat (length a))) with (Z.to_nat off - length a)%nat by lia.
Qed.

Lemma slice_all (a : list Z) len : zlen a <= len -> slice 0 len a = a.
Proof. intros. unfold slice, zdrop. simpl. by apply ztake_ge. Qed.
