(* ===== verification/Checksum.v ===== *)
(** * Internet checksum (crates/net/src/checksum.rs)

    The RFC 1071 sum over little-endian words, its folding loop, and the
    pseudo-header partial sum stamped into an L4 checksum field for a device
    (or the software pass) to finish.  The theorems relate them to the
    one's-complement sum: a filled-in header verifies, and finishing a stamped
    partial gives the checksum over pseudo-header and segment. *)

From S2P Require Import Prelude.
From S2P Require Import NetTypes.

(** [sum_words]: a [u32] accumulator, wrapping on overflow. *)
Fixpoint sum_words_from (sum : Z) (data : list Z) : Z :=
  match data with
  | b0 :: b1 :: rest => sum_words_from (w32 (sum + Z.lor b0 (Z.shiftl b1 8))) rest
  | [b] => w32 (sum + b)
  | [] => sum
  end.

Definition sum_words (data : list Z) : Z := sum_words_from 0 data.

(** One iteration of the [fold] loop. *)
Definition fold_step (sum : Z) : Z + Z :=
  if Z.shiftr sum 16 =? 0 then inr sum
  else inl (w32 (Z.land sum 65535 + Z.shiftr sum 16)).

Definition fold (sum : Z) : Z :=
  match while_pow 32 fold_step sum with
  | inr s => w16 s
  | inl _ => 0
  end.

(** [!x] on a [u16]. *)
Definition not16 (x : Z) : Z := 65535 - x.

Definition internet_checksum (data : list Z) : Z := not16 (fold (sum_words data)).

(** [for chunk in octets.chunks(2) { s32 += u16::from_le_bytes(..) }]. *)
Fixpoint sum_chunks (sum : Z) (o : list Z) : Z :=
  match o with
  | b0 :: b1 :: rest => sum_chunks (w32 (sum + from_le_bytes [b0; b1])) rest
  | _ => sum
  end.

(** The length word of the IPv6 pseudo-header, [(len as u32).to_be()]. *)
Definition len_be32 (len : Z) : Z := from_le_bytes (htonl (w32 len)).

Definition pseudo_sum_v6 (s d : list Z) (proto l4_len : Z) : Z :=
  let sum := sum_chunks 0 (s ++ d) in
  let len_be := len_be32 l4_len in
  let sum := w32 (sum + Z.land len_be 65535) in
  let sum := w32 (sum + Z.shiftr len_be 16) in
  w32 (sum + Z.shiftl proto 8).

Definition pseudo_sum_v4 (s d : Z) (proto l4_len : Z) : Z :=
  let sum := w32 (0 + Z.land s 65535) in
  let sum := w32 (sum + Z.shiftr s 16) in
  let sum := w32 (sum + Z.land d 65535) in
  let sum := w32 (sum + Z.shiftr d 16) in
  let sum := w32 (sum + Z.shiftl proto 8) in
  w32 (sum + from_le_bytes (htons (w16 l4_len))).

Definition l4_pseudo_partial (src dst : IpAddr) (proto l4_len : Z) : Z :=
  fold (match src, dst with
        | V4 s, V4 d => pseudo_sum_v4 s d proto l4_len
        | V6 s, V6 d => pseudo_sum_v6 s d proto l4_len
        | _, _ => 0
        end).

Definition l4_checksum_v6 (src dst : list Z) (proto : Z) (data : list Z) : Z :=
  not16 (fold (w32 (pseudo_sum_v6 src dst proto (zlen data) + sum_words data))).

(* ------------------------------------------------------------------ *)
(** ** The one's-complement sum *)

(** The mathematical sum of the little-endian words, without a width. *)
Fixpoint words_sum (data : list Z) : Z :=
  match data with
  | b0 :: b1 :: rest => b0 + 256 * b1 + words_sum rest
  | [b] => b
  | [] => 0
  end.

(** The representative of [x] modulo 65535 in [1, 65535], 0 for 0. *)
Definition ones_residue (x : Z) : Z := if x =? 0 then 0 else (x - 1) mod 65535 + 1.

Lemma words_ind (P : list Z -> Prop) :
  P [] -> (forall b, P [b]) -> (forall b0 b1 l, P l -> P (b0 :: b1 :: l)) -> forall l, P l.
Proof.
  intros H0 H1 H2. fix IH 1. intros [|b0 [|b1 l]]; [exact H0|apply H1|apply H2, IH].
Qed.

Lemma lor_bytes b0 b1 : is_u8 b0 -> is_u8 b1 -> Z.lor b0 (Z.shiftl b1 8) = b0 + 256 * b1.
Proof. intros. rewrite lor_shiftl by int_lia. change (2 ^ 8) with 256. lia. Qed.

Lemma even_zlen_cons2 (b0 b1 : Z) l : Z.even (zlen (b0 :: b1 :: l)) = Z.even (zlen l).
Proof. rewrite !zlen_cons, <-Z.add_assoc. rewrite Z.even_add. by destruct (Z.even _). Qed.

Lemma words_sum_bounds l : bytes_ok l -> 0 <= words_sum l <= 65535 * ((zlen l + 1) / 2).
Proof.
  induction l as [|b|b0 b1 l IH] using words_ind; intros H; simpl.
  - done.
  - inv H. change (zlen [b]) with 1. change ((1 + 1) / 2) with 1. int_lia.
  - inv H. match goal with H : Forall _ (_ :: _) |- _ => inv H end.
    match goal with H : Forall _ l |- _ => specialize (IH H) end.
    assert ((zlen (b0 :: b1 :: l) + 1) / 2 = (zlen l + 1) / 2 + 1) as ->.
    { rewrite !zlen_cons. int_lia. }
    int_lia.
Qed.

Lemma sum_words_from_exact sum l :
  bytes_ok l -> 0 <= sum -> sum + words_sum l <= U32_MAX ->
  sum_words_from sum l = sum + words_sum l.
Proof.
  revert sum. induction l as [|b|b0 b1 l IH] using words_ind; intros sum H H0 H1; simpl in *.
  - lia.
  - inv H. rewrite w32_small by int_lia. done.
  - inv H. match goal with H : Forall _ (_ :: _) |- _ => inv H end.
    match goal with H : Forall _ l |- _ => pose proof (words_sum_bounds l H) as Hb;
      pose proof (IH (sum + (b0 + 256 * b1)) H) as IH' end.
    assert (0 <= (zlen l + 1) / 2) by (apply Z.div_pos; [pose proof (zlen_nonneg l)|]; lia).
    rewrite lor_bytes by done. rewrite w32_small by int_lia. rewrite IH' by int_lia. lia.
Qed.

(** A buffer of up to 128 KiB is summed without overflow. *)
Lemma sum_words_exact l : bytes_ok l -> zlen l <= 131072 -> sum_words l = words_sum l.
Proof.
  intros H Hl. pose proof (words_sum_bounds l H) as Hb. unfold sum_words.
  rewrite sum_words_from_exact; [lia|done|lia|]. int_lia.
Qed.

Lemma words_sum_app a b :
  Z.even (zlen a) = true -> words_sum (a ++ b) = words_sum a + words_sum b.
Proof.
  induction a as [|x|b0 b1 a IH] using words_ind; intros He; simpl.
  - done.
  - done.
  - rewrite even_zlen_cons2 in He. rewrite IH by done. lia.
Qed.

Lemma sum_chunks_exact sum l :
  Z.even (zlen l) = true -> bytes_ok l -> 0 <= sum -> sum + words_sum l <= U32_MAX ->
  sum_chunks sum l = sum + words_sum l.
Proof.
  revert sum. induction l as [|b|b0 b1 l IH] using words_ind; intros sum He H H0 H1.
  - simpl in *. lia.
  - done.
  - inv H. match goal with H : Forall _ (_ :: _) |- _ => inv H end.
    rewrite even_zlen_cons2 in He. simpl in *.
    match goal with H : Forall _ l |- _ => pose proof (words_sum_bounds l H) as Hb;
      pose proof (IH (sum + (b0 + 256 * b1)) He H) as IH' end.
    assert (0 <= (zlen l + 1) / 2) by (apply Z.div_pos; [pose proof (zlen_nonneg l)|]; lia).
    rewrite w32_small by int_lia.
    match goal with |- sum_chunks ?x _ = _ => replace x with (sum + (b0 + 256 * b1)) by lia end.
    rewrite IH' by int_lia. lia.
Qed.

(* ------------------------------------------------------------------ *)
(** ** Folding *)

Lemma fold_step_residue x :
  is_u32 x ->
  match fold_step x with
  | inl y => is_u32 y /\ 0 <= y < x /\ ones_residue y = ones_residue x
  | inr y => y = x /\ 0 <= y <= 65535
  end.
Proof.
  intros Hx. unfold fold_step. rewrite Z.shiftr_div_pow2 by lia.
  change 65535 with (Z.ones 16) at 1. rewrite Z.land_ones by lia. change (2 ^ 16) with 65536.
  destruct (x / 65536 =? 0) eqn:E; bool_to_prop; [int_lia|].
  rewrite w32_small by int_lia. split; [int_lia|]. split; [int_lia|].
  unfold ones_residue.
  destruct (x mod 65536 + x / 65536 =? 0) eqn:E1, (x =? 0) eqn:E2; bool_to_prop;
    int_lia.
Qed.

(** [fold] always terminates on a [u32] and keeps the residue. *)
Lemma fold_spec x : is_u32 x -> fold x = ones_residue x.
Proof.
  intros Hx.
  destruct (while_pow_total fold_step (fun y => is_u32 y /\ ones_residue y = ones_residue x)
    (fun y => y) (fun y => 0 <= y <= 65535 /\ ones_residue y = ones_residue x)) with (k := 32%nat) (a := x)
    as (y & Hy & Hr & He).
  - intros y [Hy1 Hy2]. pose proof (fold_step_residue y Hy1) as H.
    destruct (fold_step y) as [z|z].
    + destruct H as (? & ? & ?). split; [split; congruence|lia].
    + destruct H as (-> & ?). done.
  - done.
  - change (2 ^ Z.of_nat 32) with 4294967296. int_lia.
  - unfold fold. rewrite Hy, <-He. unfold ones_residue.
    destruct (y =? 0) eqn:E; bool_to_prop; int_lia.
Qed.

Lemma ones_residue_range x : 0 <= ones_residue x <= 65535.
Proof. unfold ones_residue. destruct (x =? 0); int_lia. Qed.

Lemma ones_residue_add a b :
  0 <= a -> 0 <= b -> ones_residue (ones_residue a + b) = ones_residue (a + b).
Proof.
  intros. unfold ones_residue. destruct (a =? 0) eqn:E; bool_to_prop; [by subst|].
  destruct ((a - 1) mod 65535 + 1 + b =? 0) eqn:E1, (a + b =? 0) eqn:E2; bool_to_prop;
    int_lia.
Qed.

Lemma fold_range x : is_u32 x -> 0 <= fold x <= 65535.
Proof. intros. rewrite fold_spec by done. apply ones_residue_range. Qed.

(* ------------------------------------------------------------------ *)
(** ** Correctness *)

Lemma internet_checksum_spec data :
  bytes_ok data -> zlen data <= 131072 ->
  internet_checksum data = 65535 - ones_residue (words_sum data).
Proof.
  intros H Hl. unfold internet_checksum, not16. rewrite sum_words_exact by done.
  rewrite fold_spec; [done|]. pose proof (words_sum_bounds data H). int_lia.
Qed.

(** A 16-bit field at an even offset contributes its value to the sum. *)
Lemma words_sum_field pre field post :
  Z.even (zlen pre) = true -> 0 <= field <= 65535 ->
  words_sum (pre ++ to_le_bytes 2 field ++ post) =
  words_sum pre + field + words_sum post.
Proof.
  intros He Hf. rewrite words_sum_app by done. simpl.
  rewrite (Z.mod_small (field / 256)) by int_lia.
  pose proof (Z.div_mod field 256 ltac:(lia)). lia.
Qed.

Lemma bytes_ok_app a b : bytes_ok (a ++ b) <-> bytes_ok a /\ bytes_ok b.
Proof. unfold bytes_ok. by rewrite Forall_app. Qed.

Lemma checksum_field_verifies pre post :
  bytes_ok pre -> bytes_ok post -> Z.even (zlen pre) = true ->
  zlen pre + zlen post + 2 <= 131072 ->
  let c := internet_checksum (pre ++ [0; 0] ++ post) in
  internet_checksum (pre ++ to_le_bytes 2 c ++ post) = 0.
Proof.
  intros Hpre Hpost He Hlen c.
  assert (0 <= c <= 65535 /\ c = 65535 - ones_residue (words_sum pre + 0 + words_sum post))
    as [Hc Hc'].
  { change [0; 0] with (to_le_bytes 2 0) in c. unfold c.
    rewrite internet_checksum_spec, words_sum_field; try done; try lia.
    - pose proof (ones_residue_range (words_sum pre + 0 + words_sum post)). lia.
    - rewrite !bytes_ok_app. auto using to_le_bytes_ok.
    - rewrite !zlen_app. simpl to_le_bytes. rewrite !zlen_cons, zlen_nil. lia. }
  rewrite internet_checksum_spec.
  - rewrite words_sum_field by done. rewrite Hc'. clearbody c.
    pose proof (words_sum_bounds pre Hpre). pose proof (words_sum_bounds post Hpost).
    unfold ones_residue. destruct (words_sum pre + 0 + words_sum post =? 0) eqn:E1; bool_to_prop.
    + destruct (_ =? 0) eqn:E2; bool_to_prop; int_lia.
    + destruct (words_sum pre + _ + _ =? 0) eqn:E2; bool_to_prop; int_lia.
  - rewrite !bytes_ok_app. auto using to_le_bytes_ok.
  - rewrite !zlen_app. simpl to_le_bytes. rewrite !zlen_cons, zlen_nil. lia.
Qed.

(** Storing [internet_checksum] of a buffer in its zeroed checksum field,
    at any even offset, makes the buffer verify: its checksum is then 0. *)
Theorem internet_checksum_verifies pre post :
  bytes_ok pre -> bytes_ok post -> Z.even (zlen pre) = true ->
  zlen pre + zlen post + 2 <= 131072 ->
  let c := internet_checksum (pre ++ [0; 0] ++ post) in
  internet_checksum (pre ++ to_le_bytes 2 c ++ post) = 0.
Proof. exact (checksum_field_verifies pre post). Qed.

Lemma internet_checksum_verifies_witness :
  internet_checksum ([69; 0; 0; 40] ++
    to_le_bytes 2 (internet_checksum ([69; 0; 0; 40] ++ [0; 0] ++ [10; 0; 0; 1; 7])) ++
    [10; 0; 0; 1; 7]) = 0.
Proof.
  apply (internet_checksum_verifies [69; 0; 0; 40] [10; 0; 0; 1; 7]).
  - repeat constructor; int_lia.
  - repeat constructor; int_lia.
  - reflexivity.
  - vm_compute. congruence.
Defined.

(** The RFC 793 / RFC 8200 pseudo-header. *)
Definition pseudo_header (src dst : IpAddr) (proto l4_len : Z) : list Z :=
  match src, dst with
  | V4 s, V4 d => ipv4_octets s ++ ipv4_octets d ++ [0; proto] ++ htons (w16 l4_len)
  | V6 s, V6 d => s ++ d ++ htonl (w32 l4_len) ++ [0; 0; 0; proto]
  | _, _ => []
  end.

Definition same_family (a b : IpAddr) : Prop := is_v4 a = is_v4 b.

Lemma words_sum_htonl x : words_sum (htonl x) = from_le_bytes (htonl x) mod 65536 + from_le_bytes (htonl x) / 65536.
Proof.
  pose proof (to_be_bytes_ok 4 x) as H. pose proof (length_to_be_bytes 4 x) as Hl.
  unfold htonl. destruct (to_be_bytes 4 x) as [|a [|b [|c [|d [|]]]]]; try done.
  inv H. repeat match goal with H : Forall _ (_ :: _) |- _ => inv H end. simpl. int_lia.
Qed.

Lemma words_sum_le4 x : is_u32 x -> words_sum (to_le_bytes 4 x) = x mod 65536 + x / 65536.
Proof. intros. simpl. int_lia. Qed.

Lemma words_sum_htons x : words_sum (htons x) = from_le_bytes (htons x).
Proof.
  unfold htons. pose proof (length_to_be_bytes 2 x).
  destruct (to_be_bytes 2 x) as [|a [|b [|]]]; try done. simpl. lia.
Qed.

(** An accumulator chain whose total fits [u32] never wraps. *)
Ltac unwrap32 :=
  repeat match goal with
  | |- context [w32 ?x] =>
      lazymatch x with
      | context [w32 _] => fail
      | _ => rewrite (w32_small x) by (unfold is_u32, U32_MAX; lia)
      end
  end.

Lemma pseudo_sum_v4_exact s d proto l4_len :
  is_u32 s -> is_u32 d -> is_u8 proto ->
  pseudo_sum_v4 s d proto l4_len = words_sum (pseudo_header (V4 s) (V4 d) proto l4_len) /\
  is_u32 (pseudo_sum_v4 s d proto l4_len).
Proof.
  intros Hs Hd Hp. unfold pseudo_sum_v4.
  rewrite !Z.shiftr_div_pow2, Z.shiftl_mul_pow2 by lia.
  change 65535 with (Z.ones 16). rewrite !Z.land_ones by lia.
  change (2 ^ 16) with 65536. change (2 ^ 8) with 256.
  assert (0 <= from_le_bytes (htons (w16 l4_len)) < 65536) as Hh.
  { apply (from_le_bytes_range (htons (w16 l4_len))), to_be_bytes_ok. }
  unfold pseudo_header, ipv4_octets. rewrite !words_sum_app by done.
  rewrite !words_sum_le4, words_sum_htons by done. simpl words_sum.
  assert (0 <= s mod 65536 < 65536 /\ 0 <= s / 65536 < 65536) as [] by int_lia.
  assert (0 <= d mod 65536 < 65536 /\ 0 <= d / 65536 < 65536) as [] by int_lia.
  unfold is_u8, U8_MAX in Hp. unwrap32. unfold is_u32, U32_MAX. split; lia.
Qed.

Lemma pseudo_sum_v6_exact s d proto l4_len :
  ip_ok (V6 s) -> ip_ok (V6 d) -> is_u8 proto ->
  pseudo_sum_v6 s d proto l4_len = words_sum (pseudo_header (V6 s) (V6 d) proto l4_len) /\
  is_u32 (pseudo_sum_v6 s d proto l4_len).
Proof.
  intros [Ls Hs] [Ld Hd] Hp. unfold pseudo_sum_v6, len_be32.
  assert (zlen s = 16 /\ zlen d = 16) as [Zs Zd] by (unfold zlen; rewrite Ls, Ld; done).
  pose proof (words_sum_bounds s Hs) as Bs. pose proof (words_sum_bounds d Hd) as Bd.
  rewrite Zs in Bs. rewrite Zd in Bd. change ((16 + 1) / 2) with 8 in *.
  assert (words_sum (s ++ d) = words_sum s + words_sum d) as Esd
    by (apply words_sum_app; by rewrite Zs).
  rewrite sum_chunks_exact.
  2: { rewrite zlen_app, Zs, Zd. done. }
  2: { by apply bytes_ok_app. }
  2: lia.
  2: { rewrite Esd. int_lia. }
  pose proof (words_sum_htonl (w32 l4_len)) as Hw.
  assert (0 <= from_le_bytes (htonl (w32 l4_len)) < 4294967296) as Hh.
  { apply (from_le_bytes_range (htonl (w32 l4_len))), to_be_bytes_ok. }
  change 65535 with (Z.ones 16). rewrite Z.land_ones, Z.shiftr_div_pow2, Z.shiftl_mul_pow2 by lia.
  change (2 ^ 16) with 65536. change (2 ^ 8) with 256. rewrite Esd.
  unfold pseudo_header. rewrite !words_sum_app by (rewrite ?Zs, ?Zd; done). rewrite Hw. cbn [words_sum].
  generalize dependent (from_le_bytes (htonl (w32 l4_len))). intros h _ Hh.
  assert (0 <= h mod 65536 < 65536 /\ 0 <= h / 65536 < 65536) as [] by int_lia.
  unfold is_u8, U8_MAX in Hp. unwrap32. unfold is_u32, U32_MAX. split; lia.
Qed.

Lemma l4_pseudo_partial_spec src dst proto l4_len :
  ip_ok src -> ip_ok dst -> same_family src dst -> is_u8 proto ->
  l4_pseudo_partial src dst proto l4_len =
    ones_residue (words_sum (pseudo_header src dst proto l4_len)).
Proof.
  intros Hs Hd Hf Hp. unfold l4_pseudo_partial. destruct src as [s|s], dst as [d|d]; try done.
  - destruct (pseudo_sum_v4_exact s d proto l4_len Hs Hd Hp) as [E H].
    by rewrite fold_spec, E.
  - destruct (pseudo_sum_v6_exact s d proto l4_len Hs Hd Hp) as [E H].
    by rewrite fold_spec, E.
Qed.

Lemma pseudo_header_even src dst proto l4_len :
  ip_ok src -> ip_ok dst -> Z.even (zlen (pseudo_header src dst proto l4_len)) = true /\
  (is_u8 proto -> bytes_ok (pseudo_header src dst proto l4_len)).
Proof.
  intros Hs Hd. unfold pseudo_header.
  destruct src as [s|s], dst as [d|d]; try (split; [done|constructor]; fail).
  - split; [done|]. intros Hp. cbv iota. rewrite !bytes_ok_app. repeat split; try apply to_le_bytes_ok.
    + repeat constructor; int_lia.
    + apply to_be_bytes_ok.
  - destruct Hs as [Ls Hs], Hd as [Ld Hd]. cbv iota. split.
    + unfold zlen. by rewrite !length_app, Ls, Ld.
    + intros Hp. rewrite !bytes_ok_app. repeat split; try done; [apply to_be_bytes_ok|].
      repeat constructor; int_lia.
Qed.

(** Stamping the pseudo-header partial into an L4 checksum field and
    finishing it with [internet_checksum] over the segment, as the software
    path and an offloading device do, gives the checksum of the whole
    pseudo-header followed by the segment with a zero field. *)
Theorem partial_checksum_finishes src dst proto pre post :
  ip_ok src -> ip_ok dst -> same_family src dst -> is_u8 proto ->
  bytes_ok pre -> bytes_ok post -> Z.even (zlen pre) = true ->
  zlen pre + zlen post <= 65535 ->
  let len := zlen pre + 2 + zlen post in
  internet_checksum (pre ++ to_le_bytes 2 (l4_pseudo_partial src dst proto len) ++ post) =
  internet_checksum (pseudo_header src dst proto len ++ pre ++ [0; 0] ++ post).
Proof.
  intros Hs Hd Hf Hp Hpre Hpost He Hlen. cbv zeta. set (len := zlen pre + 2 + zlen post).
  rewrite l4_pseudo_partial_spec by done.
  destruct (pseudo_header_even src dst proto len Hs Hd) as [Hev Hok]. specialize (Hok Hp).
  assert (zlen (pseudo_header src dst proto len) <= 40).
  { unfold pseudo_header. destruct src, dst; try done; try (unfold zlen; simpl; lia).
    destruct Hs as [Ls _], Hd as [Ld _]. cbv iota. unfold zlen. rewrite !length_app, Ls, Ld.
    unfold htonl. rewrite length_to_be_bytes. simpl. lia. }
  pose proof (ones_residue_range (words_sum (pseudo_header src dst proto len))).
  pose proof (words_sum_bounds _ Hok). pose proof (words_sum_bounds _ Hpre).
  pose proof (words_sum_bounds _ Hpost). pose proof (zlen_nonneg pre). pose proof (zlen_nonneg post).
  pose proof (zlen_nonneg (pseudo_header src dst proto len)).
  rewrite !internet_checksum_spec.
  - rewrite words_sum_field by done. change [0; 0] with (to_le_bytes 2 0).
    rewrite words_sum_app, words_sum_field by (done || lia).
    f_equal. rewrite <-(ones_residue_add (words_sum (pseudo_header src dst proto len)));
      [f_equal; lia|lia|int_lia].
  - rewrite !bytes_ok_app. repeat split; try done. repeat constructor; int_lia.
  - rewrite !zlen_app, !zlen_cons, zlen_nil. lia.
  - rewrite !bytes_ok_app. auto using to_le_bytes_ok.
  - rewrite !zlen_app. simpl to_le_bytes. rewrite !zlen_cons, zlen_nil. lia.
Qed.

Lemma partial_checksum_finishes_witness :
  let s := V4 (ipv4_from 10 0 0 1) in
  let d := V4 (ipv4_from 10 0 0 2) in
  internet_checksum ([0; 80; 195; 80] ++ to_le_bytes 2 (l4_pseudo_partial s d 6 9) ++ [1; 2; 3]) =
  internet_checksum (pseudo_header s d 6 9 ++ [0; 80; 195; 80] ++ [0; 0] ++ [1; 2; 3]).
Proof.
  apply (partial_checksum_finishes (V4 (ipv4_from 10 0 0 1)) (V4 (ipv4_from 10 0 0 2)) 6
           [0; 80; 195; 80] [1; 2; 3]).
  - vm_compute. split; congruence.
  - vm_compute. split; congruence.
  - reflexivity.
  - int_lia.
  - repeat constructor; int_lia.
  - repeat constructor; int_lia.
  - reflexivity.
  - vm_compute. congruence.
Defined.
