(* ===== verification/Wire.v ===== *)
(** * Link and network layer codecs

    Ethernet (crates/net/src/ethernet.rs), IPv4 (ipv4.rs), IPv6 (ipv6.rs) and
    the receive classifier with its flow hash (classify.rs).  A header written
    in place is the list of its bytes; parsing yields the fields and the
    payload together with its offset, which stands for the sub-slice's
    position. *)

From S2P Require Import Prelude.
From S2P Require Import NetTypes.
From S2P Require Import Checksum.

(* ------------------------------------------------------------------ *)
(** ** Ethernet *)

Module Ethernet.

Abbreviation ETHERTYPE_ARP := 2054%Z (only parsing).
Abbreviation ETHERTYPE_IPV4 := 2048%Z (only parsing).
Definition HEADER_LEN : Z := 14.

(** The packed [u64] of [OUR_MAC_PACKED]. *)
Definition set_our_mac (bytes : list Z) : Z :=
  let b := byte_at bytes in
  Z.lor (Z.lor (Z.lor (Z.lor (Z.lor (b 0) (Z.shiftl (b 1) 8)) (Z.shiftl (b 2) 16))
    (Z.shiftl (b 3) 24)) (Z.shiftl (b 4) 32)) (Z.shiftl (b 5) 40).

Definition ethernet_our_mac (p : Z) : MacAddr :=
  mkMac [w8 p; w8 (Z.shiftr p 8); w8 (Z.shiftr p 16); w8 (Z.shiftr p 24);
         w8 (Z.shiftr p 32); w8 (Z.shiftr p 40)].

Definition fill_header (dst src : MacAddr) (ethertype : Z) : list Z :=
  mac_bytes dst ++ mac_bytes src ++ htons ethertype.

(** Source MAC, ethertype and payload. *)
Definition ethernet_parse_full (frame : list Z) : option (MacAddr * Z * list Z) :=
  match try_ref_from HEADER_LEN frame with
  | None => None
  | Some hdr =>
      Some (mkMac (slice 6 6 hdr), ntohs (slice 12 2 hdr), zdrop HEADER_LEN frame)
  end.

Definition ethernet_parse (frame : list Z) : option (Z * list Z) :=
  match try_ref_from HEADER_LEN frame with
  | None => None
  | Some hdr => Some (ntohs (slice 12 2 hdr), zdrop HEADER_LEN frame)
  end.

End Ethernet.

(* ------------------------------------------------------------------ *)
(** ** IPv4 *)

Module Ipv4.

Definition HEADER_LEN : Z := 20.

(** The per-core identification counter: the value used and the next one. *)
Definition next_ip_id (counter : Z) : Z * Z := (counter, w16 (counter + 1)).

Definition same_subnet (cfg : NetConfig) (ip : Z) : bool :=
  let mask := cfg_subnet_mask cfg in
  if mask =? 0 then false
  else Z.land ip mask =? Z.land (cfg_ip cfg) mask.

(** The header bytes before and after the checksum field. *)
Definition header_front (proto total_len id : Z) : list Z :=
  [69; 0] ++ htons total_len ++ htons id ++ htons 16384 ++ [64; proto].
Definition header_addrs (src dst : Z) : list Z := to_le_bytes 4 src ++ to_le_bytes 4 dst.

Definition fill_header (src dst proto total_len id : Z) : list Z :=
  let front := header_front proto total_len id in
  let addrs := header_addrs src dst in
  let checksum := internet_checksum (front ++ [0; 0] ++ addrs) in
  front ++ to_le_bytes 2 checksum ++ addrs.

Record Ipv4Parsed := mkParsed {
  src : Z;
  dst : Z;
  protocol : Z;
  payload_off : Z;
  payload : list Z
}.

(** [dst] is not addressed to us. *)
Definition not_ours (cfg : NetConfig) (dst : Z) : bool :=
  negb (dst =? cfg_ip cfg) && negb (dst =? IPV4_BROADCAST) && negb (cfg_ip cfg =? 0) &&
  (let mask := cfg_subnet_mask cfg in
   let nmask := U32_MAX - mask in
   negb (mask =? 0) && negb (Z.land dst nmask =? nmask)).

Definition ipv4_parse (cfg : NetConfig) (data : list Z) : option Ipv4Parsed :=
  match try_ref_from HEADER_LEN data with
  | None => None
  | Some hdr =>
      let version_ihl := byte_at hdr 0 in
      let version := Z.shiftr version_ihl 4 in
      if negb (version =? 4) then None
      else
        let ihl := Z.land version_ihl 15 in
        if ihl <? 5 then None
        else
          let header_len := ihl * 4 in
          let total_len := ntohs (slice 2 2 hdr) in
          if (total_len <? header_len) || (zlen data <? header_len) then None
          else
            let payload_end := Z.min total_len (zlen data) in
            let dst := from_le_bytes (slice 16 4 hdr) in
            if not_ours cfg dst then None
            else
              Some (mkParsed (from_le_bytes (slice 12 4 hdr)) dst (byte_at hdr 9)
                      header_len (slice header_len (payload_end - header_len) data))
  end.

End Ipv4.

(* ------------------------------------------------------------------ *)
(** ** IPv6 *)

Module Ipv6.

Abbreviation ETHERTYPE_IPV6 := 34525%Z (only parsing).
Definition HEADER_LEN : Z := 40.
Abbreviation MAX_PAYLOAD := (1500 - HEADER_LEN)%Z (only parsing).

Definition fill_header (src dst : list Z) (next_header hop_limit payload_len : Z) : list Z :=
  to_be_bytes 4 1610612736 ++ htons payload_len ++ [next_header; hop_limit] ++ src ++ dst.

(** The packet and [Some] of its length, or [None]; [out_len] is the room. *)
Definition ipv6_build (src dst : list Z) (next_header hop_limit : Z) (payload : list Z)
    (out_len : Z) : option (list Z) :=
  if MAX_PAYLOAD <? zlen payload then None
  else
    let total := HEADER_LEN + zlen payload in
    if out_len <? total then None
    else
      Some (to_be_bytes 4 1610612736 ++ htons (w16 (zlen payload)) ++
            [next_header; hop_limit] ++ src ++ dst ++ payload).

Record Ipv6Parsed := mkParsed {
  src : list Z;
  dst : list Z;
  next_header : Z;
  hop_limit : Z;
  payload : list Z
}.

Definition ipv6_parse (data : list Z) : option Ipv6Parsed :=
  match try_ref_from HEADER_LEN data with
  | None => None
  | Some hdr =>
      let v_c_f := ntohl (slice 0 4 hdr) in
      if negb (Z.shiftr v_c_f 28 =? 6) then None
      else
        let payload_len := ntohs (slice 4 2 hdr) in
        let payload_end := Z.min (HEADER_LEN + payload_len) (zlen data) in
        Some (mkParsed (slice 8 16 hdr) (slice 24 16 hdr) (byte_at hdr 6) (byte_at hdr 7)
                (slice HEADER_LEN (payload_end - HEADER_LEN) data))
  end.

End Ipv6.

(* ------------------------------------------------------------------ *)
(** ** Classification and the flow hash *)

Module Classify.

Inductive Classified :=
  | Arp (off : Z)
  | Ip (p : ParsedL3)
  | Drop.

Record EthFrame := mkEthFrame { l3_off : Z; src_mac : MacAddr; l3 : list Z }.

Definition summarize_ipv4 (cfg : NetConfig) (eth : EthFrame) : option ParsedL3 :=
  match Ipv4.ipv4_parse cfg (l3 eth) with
  | None => None
  | Some pkt =>
      Some (mkParsedL3 (Ipv4.protocol pkt) (V4 (Ipv4.src pkt)) (V4 (Ipv4.dst pkt))
              (l3_off eth + Ipv4.payload_off pkt) (zlen (Ipv4.payload pkt))
              (if Ipv4.same_subnet cfg (Ipv4.src pkt) then Some (src_mac eth) else None))
  end.

Definition summarize_ipv6 (accept_v6 : list Z -> bool) (eth : EthFrame) : option ParsedL3 :=
  match Ipv6.ipv6_parse (l3 eth) with
  | None => None
  | Some pkt =>
      if negb (accept_v6 (Ipv6.dst pkt)) then None
      else
        Some (mkParsedL3 (Ipv6.next_header pkt) (V6 (Ipv6.src pkt)) (V6 (Ipv6.dst pkt))
                (l3_off eth + Ipv6.HEADER_LEN) (zlen (Ipv6.payload pkt)) (Some (src_mac eth)))
  end.

Definition classify (cfg : NetConfig) (accept_v6 : list Z -> bool) (frame : list Z)
    : Classified :=
  match Ethernet.ethernet_parse_full frame with
  | None => Drop
  | Some (src_mac, ethertype, l3) =>
      let eth := mkEthFrame Ethernet.HEADER_LEN src_mac l3 in
      let of_option o := match o with Some p => Ip p | None => Drop end in
      if ethertype =? Ethernet.ETHERTYPE_ARP then Arp (l3_off eth)
      else if ethertype =? Ethernet.ETHERTYPE_IPV4 then of_option (summarize_ipv4 cfg eth)
      else if ethertype =? Ipv6.ETHERTYPE_IPV6 then of_option (summarize_ipv6 accept_v6 eth)
      else Drop
  end.

Abbreviation FNV_BASIS := 2166136261%Z (only parsing).

Definition fnv_step (h v : Z) : Z := w32 (Z.lxor h v * 16777619).

Definition fmix32 (h : Z) : Z :=
  let h := Z.lxor h (Z.shiftr h 16) in
  let h := w32 (h * 2246822507) in
  let h := Z.lxor h (Z.shiftr h 13) in
  let h := w32 (h * 3266489909) in
  Z.lxor h (Z.shiftr h 16).

Definition flow_hash_v4 (src_ip dst_ip src_port dst_port num_cores : Z) : Z :=
  let h := FNV_BASIS in
  let h := fnv_step h src_ip in
  let h := fnv_step h dst_ip in
  let h := fnv_step h src_port in
  let h := fnv_step h dst_port in
  fmix32 h mod num_cores.

Definition flow_hash_v6 (src dst : list Z) (src_port dst_port num_cores : Z) : Z :=
  let h := foldl fnv_step FNV_BASIS (src ++ dst) in
  let h := fnv_step h src_port in
  let h := fnv_step h dst_port in
  fmix32 h mod num_cores.

Definition flow_owner (src dst : IpAddr) (src_port dst_port num_cores : Z) : Z :=
  match src, dst with
  | V4 s, V4 d => flow_hash_v4 s d src_port dst_port num_cores
  | V6 s, V6 d => flow_hash_v6 s d src_port dst_port num_cores
  | _, _ => 0
  end.

Definition owner (parsed : ParsedL3) (frame : list Z) (num_cores : Z) : Z :=
  let l4 := default [] (ParsedL3_l4 parsed frame) in
  let '(src_port, dst_port) :=
    if 4 <=? zlen l4 then
      (from_be_bytes [byte_at l4 0; byte_at l4 1], from_be_bytes [byte_at l4 2; byte_at l4 3])
    else (0, 0) in
  flow_owner (l3_src parsed) (l3_dst parsed) src_port dst_port num_cores.

End Classify.

(* ------------------------------------------------------------------ *)
(** ** Round trips *)

(** A 2-byte field as two bytes, with its value. *)
Lemma htons_bytes x :
  exists a b, htons x = [a; b] /\ is_u8 a /\ is_u8 b /\ ntohs [a; b] = w16 x.
Proof.
  unfold htons. pose proof (length_to_be_bytes 2 x) as Hl. pose proof (to_be_bytes_ok 2 x) as Hb.
  pose proof (from_to_be_bytes 2 x) as Hv.
  destruct (to_be_bytes 2 x) as [|a [|b [|]]]; try done. inv Hb.
  match goal with H : Forall _ [_] |- _ => inv H end. by exists a, b.
Qed.

Lemma le4_bytes x :
  is_u32 x -> exists a b c d, to_le_bytes 4 x = [a; b; c; d] /\ from_le_bytes [a; b; c; d] = x.
Proof.
  intros Hx. exists (x mod 256), (x / 256 mod 256), (x / 256 / 256 mod 256),
    (x / 256 / 256 / 256 mod 256). split; [done|].
  change (from_le_bytes (to_le_bytes 4 x) = x). rewrite from_to_le_bytes.
  apply Z.mod_small. change (256 ^ Z.of_nat 4) with 4294967296. int_lia.
Qed.

Lemma list16_bytes (l : list Z) :
  length l = 16%nat ->
  exists b0 b1 b2 b3 b4 b5 b6 b7 b8 b9 b10 b11 b12 b13 b14 b15,
    l = [b0; b1; b2; b3; b4; b5; b6; b7; b8; b9; b10; b11; b12; b13; b14; b15].
Proof. intros Hl. do 16 (destruct l as [|? l]; [done|]). destruct l; [|done]. repeat eexists. Qed.

(** Taking a whole prefix and slicing past it. *)
Lemma try_ref_from_app size (a b : list Z) :
  zlen a = size -> try_ref_from size (a ++ b) = Some a.
Proof.
  intros <-. unfold try_ref_from. rewrite zlen_app.
  destruct (_ <? _) eqn:E; bool_to_prop; [pose proof (zlen_nonneg b); lia|].
  unfold ztake, zlen. by rewrite Nat2Z.id, take_app_length.
Qed.

Lemma slice_middle (a b c : list Z) off len :
  off = zlen a -> len = zlen b -> slice off len (a ++ b ++ c) = b.
Proof.
  intros -> ->. rewrite slice_app_r by lia. rewrite Z.sub_diag, slice_app_l by (pose proof (zlen_nonneg b); lia).
  apply slice_all. lia.
Qed.

Lemma list6_bytes (l : list Z) :
  length l = 6%nat -> exists b0 b1 b2 b3 b4 b5, l = [b0; b1; b2; b3; b4; b5].
Proof. intros Hl. do 6 (destruct l as [|? l]; [done|]). destruct l; [|done]. repeat eexists. Qed.

Lemma ethernet_parse_fill dst src ethertype rest :
  mac_ok dst -> mac_ok src -> is_u16 ethertype ->
  Ethernet.ethernet_parse_full (Ethernet.fill_header dst src ethertype ++ rest) =
    Some (src, ethertype, rest) /\ zlen (Ethernet.fill_header dst src ethertype) = 14.
Proof.
  destruct dst as [dst], src as [src]. intros [Hd _] [Hs _] He. simpl in *.
  destruct (list6_bytes dst Hd) as (?&?&?&?&?&?&->).
  destruct (list6_bytes src Hs) as (?&?&?&?&?&?&->).
  destruct (htons_bytes ethertype) as (t0 & t1 & Et & _ & _ & Ht).
  unfold Ethernet.fill_header, Ethernet.ethernet_parse_full. rewrite Et. simpl app.
  split; [|done]. unfold try_ref_from. destruct (_ <? _) eqn:E.
  { bool_to_prop. rewrite !zlen_cons in E. pose proof (zlen_nonneg rest).
    unfold Ethernet.HEADER_LEN in E. lia. }
  change (slice 12 2 _) with [t0; t1]. rewrite Ht, w16_small by done. reflexivity.
Qed.

Section Ipv4Laws.
Import Ipv4.

Lemma fill_header_len src dst proto total_len id : zlen (fill_header src dst proto total_len id) = 20.
Proof. done. Qed.

Lemma header_front_ok proto total_len id : is_u8 proto -> bytes_ok (header_front proto total_len id).
Proof.
  intros Hp. unfold header_front, htons. rewrite !bytes_ok_app.
  repeat split; auto using to_be_bytes_ok; repeat constructor; int_lia.
Qed.

(** Every IPv4 header the stack writes carries a valid checksum. *)
Theorem ipv4_header_verifies src dst proto total_len id :
  is_u8 proto -> internet_checksum (fill_header src dst proto total_len id) = 0.
Proof.
  intros Hp. unfold fill_header. apply checksum_field_verifies; try done.
  - by apply header_front_ok.
  - unfold header_addrs. rewrite bytes_ok_app. auto using to_le_bytes_ok.
Qed.

Lemma ipv4_header_verifies_witness :
  internet_checksum (fill_header (ipv4_from 10 0 0 2) (ipv4_from 10 0 0 1) 6 60 7) = 0.
Proof. apply ipv4_header_verifies. int_lia. Defined.

Lemma ipv4_parse_fill cfg src dst proto id payload pad :
  is_u32 src -> is_u32 dst -> is_u8 proto -> 20 + zlen payload <= 65535 ->
  not_ours cfg dst = false ->
  ipv4_parse cfg (fill_header src dst proto (20 + zlen payload) id ++ payload ++ pad) =
    Some (mkParsed src dst proto 20 payload).
Proof.
  intros Hs Hd Hp Hl Hours. unfold ipv4_parse.
  rewrite try_ref_from_app by apply fill_header_len.
  pose proof (zlen_nonneg payload). pose proof (zlen_nonneg pad).
  unfold fill_header. set (ck := internet_checksum _). clearbody ck.
  unfold header_front, header_addrs.
  destruct (htons_bytes (20 + zlen payload)) as (t0 & t1 & -> & _ & _ & Ht).
  destruct (htons_bytes id) as (i0 & i1 & -> & _ & _ & _).
  destruct (htons_bytes 16384) as (f0 & f1 & -> & _ & _ & _).
  destruct (le4_bytes src Hs) as (s0 & s1 & s2 & s3 & -> & Es).
  destruct (le4_bytes dst Hd) as (d0 & d1 & d2 & d3 & -> & Ed).
  set (h := (([69; 0] ++ _) ++ _)).
  change (byte_at h 0) with 69. change (byte_at h 9) with proto.
  change (slice 2 2 h) with [t0; t1]. change (slice 12 4 h) with [s0; s1; s2; s3].
  change (slice 16 4 h) with [d0; d1; d2; d3].
  rewrite Ht, w16_small, Es, Ed, Hours by int_lia.
  change (Z.shiftr 69 4) with 4. change (Z.land 69 15) with 5. simpl negb. cbv iota.
  change (5 <? 5) with false. change (5 * 4) with 20. cbv iota.
  rewrite !zlen_app. change (zlen h) with 20.
  destruct (_ || _) eqn:E.
  { apply orb_prop in E as [E|E]; bool_to_prop; lia. }
  do 2 f_equal. apply slice_middle; [done|]. lia.
Qed.

(** An IPv4 packet the stack builds is parsed back to its addresses,
    protocol and payload by any host that accepts the destination, with
    Ethernet trailing padding trimmed off. *)
Theorem ipv4_roundtrip cfg src dst proto id payload pad :
  is_u32 src -> is_u32 dst -> is_u8 proto -> 20 + zlen payload <= 65535 ->
  not_ours cfg dst = false ->
  ipv4_parse cfg (fill_header src dst proto (20 + zlen payload) id ++ payload ++ pad) =
    Some (mkParsed src dst proto 20 payload).
Proof. exact (ipv4_parse_fill cfg src dst proto id payload pad). Qed.

Lemma ipv4_roundtrip_witness :
  ipv4_parse (mkNetConfig 0 0 0 0)
    (fill_header (ipv4_from 10 0 0 2) (ipv4_from 10 0 0 1) 17 (20 + zlen [1; 2; 3]) 9 ++
       [1; 2; 3] ++ [0; 0; 0]) =
  Some (mkParsed (ipv4_from 10 0 0 2) (ipv4_from 10 0 0 1) 17 20 [1; 2; 3]).
Proof.
  apply ipv4_roundtrip; try reflexivity; try (vm_compute; split; congruence).
  vm_compute. congruence.
Defined.

End Ipv4Laws.

Section Ipv6Laws.
Import Ipv6.

Lemma ipv6_fill_header_len src dst nh hl pl :
  length src = 16%nat -> length dst = 16%nat -> zlen (fill_header src dst nh hl pl) = 40.
Proof.
  intros Hs Hd. unfold fill_header, htons, zlen.
  rewrite !length_app, !length_to_be_bytes, Hs, Hd. done.
Qed.

Lemma ipv6_parse_fill src dst nh hl payload pad :
  length src = 16%nat -> length dst = 16%nat -> zlen payload <= 65535 ->
  ipv6_parse (fill_header src dst nh hl (zlen payload) ++ payload ++ pad) =
    Some (mkParsed src dst nh hl payload).
Proof.
  intros Hs Hd Hl. unfold ipv6_parse.
  rewrite try_ref_from_app by by apply ipv6_fill_header_len.
  pose proof (ipv6_fill_header_len src dst nh hl (zlen payload) Hs Hd) as Hlen.
  pose proof (zlen_nonneg payload). pose proof (zlen_nonneg pad).
  rewrite !zlen_app, Hlen.
  assert (ntohs (slice 4 2 (fill_header src dst nh hl (zlen payload))) = zlen payload) as ->.
  { destruct (htons_bytes (zlen payload)) as (t0 & t1 & E & _ & _ & Ht).
    unfold fill_header. rewrite E. change (slice 4 2 _) with [t0; t1].
    rewrite Ht. apply w16_small. int_lia. }
  rewrite slice_middle by (rewrite ?Hlen; change HEADER_LEN with 40; lia).
  unfold fill_header.
  destruct (htons_bytes (zlen payload)) as (t0 & t1 & -> & _ & _ & _).
  destruct (list16_bytes src Hs) as (?&?&?&?&?&?&?&?&?&?&?&?&?&?&?&?&->).
  destruct (list16_bytes dst Hd) as (?&?&?&?&?&?&?&?&?&?&?&?&?&?&?&?&->).
  reflexivity.
Qed.

(** An IPv6 packet [ipv6_build] makes is parsed back to its addresses,
    next header, hop limit and payload, with trailing padding trimmed off. *)
Theorem ipv6_roundtrip src dst nh hl payload out_len pad :
  length src = 16%nat -> length dst = 16%nat ->
  zlen payload <= MAX_PAYLOAD -> HEADER_LEN + zlen payload <= out_len ->
  exists pkt, ipv6_build src dst nh hl payload out_len = Some pkt /\
    zlen pkt = HEADER_LEN + zlen payload /\
    ipv6_parse (pkt ++ pad) = Some (mkParsed src dst nh hl payload).
Proof.
  intros Hs Hd Hp Ho. unfold ipv6_build. unfold HEADER_LEN in *.
  destruct (_ <? zlen payload) eqn:E1; bool_to_prop; [lia|].
  destruct (out_len <? _) eqn:E2; bool_to_prop; [lia|].
  pose proof (zlen_nonneg payload).
  assert (to_be_bytes 4 1610612736 ++ htons (w16 (zlen payload)) ++ [nh; hl] ++ src ++ dst ++ payload =
    fill_header src dst nh hl (zlen payload) ++ payload) as Heq.
  { unfold fill_header. rewrite w16_small by int_lia. by rewrite <-!app_assoc. }
  eexists. split; [done|]. rewrite Heq. split.
  - rewrite zlen_app, ipv6_fill_header_len by done. done.
  - rewrite <-app_assoc. apply ipv6_parse_fill; [done|done|lia].
Qed.

Lemma ipv6_roundtrip_witness :
  exists pkt, ipv6_build (link_local_from_mac (mkMac [82; 84; 0; 18; 52; 86]))
      (replicate 16 1) 58 255 [128; 0; 1] 100 = Some pkt /\
    zlen pkt = HEADER_LEN + zlen [128; 0; 1] /\
    ipv6_parse (pkt ++ [0; 0]) =
      Some (mkParsed (link_local_from_mac (mkMac [82; 84; 0; 18; 52; 86])) (replicate 16 1)
              58 255 [128; 0; 1]).
Proof. apply ipv6_roundtrip; vm_compute; congruence. Defined.

End Ipv6Laws.

Section ClassifyLaws.
Import Classify.

Lemma try_ref_from_some size (data hdr : list Z) :
  try_ref_from size data = Some hdr -> size <= zlen data.
Proof. unfold try_ref_from. destruct (_ <? _) eqn:E; bool_to_prop; [done|]. lia. Qed.

Lemma try_ref_from_ok size (data hdr : list Z) :
  try_ref_from size data = Some hdr -> bytes_ok data -> bytes_ok hdr.
Proof.
  unfold try_ref_from. destruct (_ <? _); [done|]. intros [= <-] H. by apply Forall_take.
Qed.

Lemma ntohs_nonneg off len (data : list Z) : bytes_ok data -> 0 <= ntohs (slice off len data).
Proof. intros H. apply from_be_bytes_range. by apply Forall_take, Forall_drop. Qed.

Lemma zlen_slice off len (data : list Z) :
  0 <= off -> 0 <= len -> off + len <= zlen data -> zlen (slice off len data) = len.
Proof. intros. unfold slice. rewrite zlen_ztake, zlen_zdrop by lia. lia. Qed.

(** The IPv4 parser never slices out of range, whatever the bytes. *)
Lemma ipv4_parse_bounds cfg data p :
  bytes_ok data -> Ipv4.ipv4_parse cfg data = Some p ->
  0 <= Ipv4.payload_off p /\ Ipv4.payload_off p + zlen (Ipv4.payload p) <= zlen data /\
  Ipv4.payload p = slice (Ipv4.payload_off p) (zlen (Ipv4.payload p)) data.
Proof.
  intros Hok. unfold Ipv4.ipv4_parse. destruct (try_ref_from _ data) as [hdr|] eqn:Eh; [|done].
  destruct (negb _); [done|]. destruct (_ <? 5) eqn:E5; [done|].
  destruct (_ || _) eqn:E; [done|]. destruct (Ipv4.not_ours _ _); [done|].
  intros [= <-]. simpl. bool_to_prop. set (ihl := Z.land _ 15) in *.
  rewrite zlen_slice by lia. repeat split; lia.
Qed.

Lemma ipv6_parse_bounds data p :
  bytes_ok data -> Ipv6.ipv6_parse data = Some p ->
  Ipv6.HEADER_LEN + zlen (Ipv6.payload p) <= zlen data /\
  Ipv6.payload p = slice Ipv6.HEADER_LEN (zlen (Ipv6.payload p)) data.
Proof.
  intros Hok. unfold Ipv6.ipv6_parse. destruct (try_ref_from _ data) as [hdr|] eqn:Eh; [|done].
  destruct (negb _); [done|]. intros [= <-]. simpl.
  pose proof (ntohs_nonneg 4 2 hdr (try_ref_from_ok _ _ _ Eh Hok)).
  apply try_ref_from_some in Eh. unfold Ipv6.HEADER_LEN in *.
  rewrite zlen_slice by lia. split; [lia|done].
Qed.

(** A frame around an L4 segment classifies to exactly that segment. *)
Lemma classify_ipv4_frame cfg acc dmac smac src dst proto id l4 pad :
  mac_ok dmac -> mac_ok smac -> is_u32 src -> is_u32 dst -> is_u8 proto ->
  20 + zlen l4 <= 65535 -> Ipv4.not_ours cfg dst = false ->
  let frame := Ethernet.fill_header dmac smac Ethernet.ETHERTYPE_IPV4 ++
    Ipv4.fill_header src dst proto (20 + zlen l4) id ++ l4 ++ pad in
  exists p, classify cfg acc frame = Ip p /\ l3_proto p = proto /\ l3_src p = V4 src /\
    l3_dst p = V4 dst /\ ParsedL3_l4 p frame = Some l4.
Proof.
  intros Hd Hs H1 H2 H3 H4 H5. cbv zeta. unfold classify.
  destruct (ethernet_parse_fill dmac smac Ethernet.ETHERTYPE_IPV4
    (Ipv4.fill_header src dst proto (20 + zlen l4) id ++ l4 ++ pad)) as [-> He]; [done..|].
  change (Ethernet.ETHERTYPE_IPV4 =? Ethernet.ETHERTYPE_ARP) with false.
  rewrite Z.eqb_refl. cbv iota. unfold summarize_ipv4. cbn [l3].
  rewrite ipv4_parse_fill by done. eexists. split; [reflexivity|].
  split; [done|split; [done|split; [done|]]]. unfold ParsedL3_l4, get_slice.
  cbn [l4_off l4_len l3_off Ipv4.payload_off Ipv4.payload].
  rewrite !zlen_app, He, fill_header_len. pose proof (zlen_nonneg l4). pose proof (zlen_nonneg pad).
  destruct (_ <=? _) eqn:E; bool_to_prop; [|unfold Ethernet.HEADER_LEN in *; lia].
  f_equal. rewrite app_assoc. apply slice_middle; [|done].
  rewrite zlen_app, He, fill_header_len. done.
Qed.

Lemma classify_ipv6_frame cfg acc dmac smac src dst proto hl l4 pad :
  mac_ok dmac -> mac_ok smac -> length src = 16%nat -> length dst = 16%nat ->
  zlen l4 <= 65535 -> acc dst = true ->
  let frame := Ethernet.fill_header dmac smac Ipv6.ETHERTYPE_IPV6 ++
    Ipv6.fill_header src dst proto hl (zlen l4) ++ l4 ++ pad in
  exists p, classify cfg acc frame = Ip p /\ l3_proto p = proto /\ l3_src p = V6 src /\
    l3_dst p = V6 dst /\ ParsedL3_l4 p frame = Some l4.
Proof.
  intros Hd Hs H1 H2 H3 H4. cbv zeta. unfold classify.
  destruct (ethernet_parse_fill dmac smac Ipv6.ETHERTYPE_IPV6
    (Ipv6.fill_header src dst proto hl (zlen l4) ++ l4 ++ pad)) as [-> He]; [done..|].
  change (Ipv6.ETHERTYPE_IPV6 =? Ethernet.ETHERTYPE_ARP) with false.
  change (Ipv6.ETHERTYPE_IPV6 =? Ethernet.ETHERTYPE_IPV4) with false.
  rewrite Z.eqb_refl. cbv iota. unfold summarize_ipv6. cbn [l3].
  rewrite ipv6_parse_fill by done. cbn [Ipv6.dst]. rewrite H4. cbn [negb].
  eexists. split; [reflexivity|].
  split; [done|split; [done|split; [done|]]]. unfold ParsedL3_l4, get_slice.
  cbn [l4_off l4_len l3_off Ipv6.payload].
  pose proof (ipv6_fill_header_len src dst proto hl (zlen l4) H1 H2) as Hh.
  rewrite !zlen_app, He, Hh. pose proof (zlen_nonneg l4). pose proof (zlen_nonneg pad).
  destruct (_ <=? _) eqn:E; bool_to_prop;
    [|unfold Ethernet.HEADER_LEN, Ipv6.HEADER_LEN in *; lia].
  f_equal. rewrite app_assoc. apply slice_middle; [|done].
  rewrite zlen_app, He, Hh. done.
Qed.

(** whatever bytes arrive, a frame classified as IP names an L4 segment
    that lies inside the frame, so the later re-slice never fails. *)
Theorem classify_l4_in_bounds cfg accept_v6 frame p :
  bytes_ok frame -> classify cfg accept_v6 frame = Ip p ->
  0 <= l4_off p /\ 0 <= l4_len p /\ l4_off p + l4_len p <= zlen frame /\
  exists l4, ParsedL3_l4 p frame = Some l4 /\ zlen l4 = l4_len p.
Proof.
  intros Hok Hc.
  assert (0 <= l4_off p /\ 0 <= l4_len p /\ l4_off p + l4_len p <= zlen frame) as (H1 & H2 & H3).
  { revert Hc. unfold classify, Ethernet.ethernet_parse_full.
    destruct (try_ref_from _ frame) as [hdr|] eqn:Eh; [|done].
    apply try_ref_from_some in Eh. unfold Ethernet.HEADER_LEN in *.
    assert (bytes_ok (zdrop 14 frame)) as Hd by (by apply Forall_drop).
    assert (zlen (zdrop 14 frame) = zlen frame - 14) as Hl by (rewrite zlen_zdrop; lia).
    destruct (_ =? Ethernet.ETHERTYPE_ARP); [done|].
    destruct (_ =? Ethernet.ETHERTYPE_IPV4).
    - unfold summarize_ipv4. simpl. destruct (Ipv4.ipv4_parse _ _) as [q|] eqn:Eq; [|done].
      intros [= <-]. simpl. destruct (ipv4_parse_bounds _ _ _ Hd Eq) as (? & ? & _).
      pose proof (zlen_nonneg (Ipv4.payload q)). lia.
    - destruct (_ =? Ipv6.ETHERTYPE_IPV6); [|done]. unfold summarize_ipv6. simpl.
      destruct (Ipv6.ipv6_parse _) as [q|] eqn:Eq; [|done].
      destruct (negb _); [done|]. intros [= <-]. simpl.
      destruct (ipv6_parse_bounds _ _ Hd Eq) as (? & _).
      pose proof (zlen_nonneg (Ipv6.payload q)). unfold Ipv6.HEADER_LEN in *. lia. }
  repeat split; try lia. unfold ParsedL3_l4, get_slice.
  destruct (_ <=? _) eqn:E; bool_to_prop; [|lia]. eexists; split; [done|].
  apply zlen_slice; lia.
Qed.

Lemma classify_l4_in_bounds_witness :
  exists p, classify (mkNetConfig 0 0 0 0) (fun _ => true)
    (Ethernet.fill_header MAC_BROADCAST MAC_ZERO 2048 ++ Ipv4.fill_header 1 2 6 23 0 ++ [7; 8; 9]) = Ip p /\
    exists l4, ParsedL3_l4 p
      (Ethernet.fill_header MAC_BROADCAST MAC_ZERO 2048 ++ Ipv4.fill_header 1 2 6 23 0 ++ [7; 8; 9]) =
      Some l4 /\ zlen l4 = l4_len p.
Proof.
  eexists. split; [vm_compute; reflexivity|].
  eapply (classify_l4_in_bounds (mkNetConfig 0 0 0 0) (fun _ => true)).
  - vm_compute. repeat constructor; vm_compute; congruence.
  - vm_compute. reflexivity.
Defined.

Lemma flow_owner_range src dst sp dp n :
  0 < n -> 0 <= flow_owner src dst sp dp n < n.
Proof.
  intros Hn. unfold flow_owner. destruct src, dst; try lia; apply Z.mod_pos_bound; lia.
Qed.

End ClassifyLaws.
