(* ===== verification/TcpTypes.v ===== *)
(** * TCP data (crates/net/tcp/src/state.rs, send.rs)

    Flags, states, sizing constants and the per-connection control block, with
    the environment the TCP code runs in.

    [TcpConnection] has the fields of the Rust struct under their names; an
    [IOBuf] is the list of its visible bytes, a [Waker] an opaque identifier.
    Millisecond timestamps ([u64]) are unbounded; every other integer keeps its
    width.

    [Ctx] is what a method reaches outside its connection: the clock, the
    segments handed to the NIC, the wakers fired, the head of the armed-timer
    list, and the answers of the allocator, the random generator, the driver
    and the neighbour caches.  Answers that vary from call to call are scripts
    consumed in order (an exhausted allocation or grant script means success).
    A method is a program of [St (TcpConnection * Ctx)].  Diagnostic counters
    are not modelled. *)

From S2P Require Import Prelude.
From S2P Require Import NetTypes.
From S2P Require Import CongestionControl.

(* ------------------------------------------------------------------ *)
(** ** Flags, states, constants *)

Abbreviation TCP_FIN := 1%Z (only parsing).
Abbreviation TCP_SYN := 2%Z (only parsing).
Abbreviation TCP_RST := 4%Z (only parsing).
Abbreviation TCP_PSH := 8%Z (only parsing).
Abbreviation TCP_ACK := 16%Z (only parsing).

(** [flags & f != 0]. *)
Definition has_flag (flags f : Z) : bool := negb (Z.land flags f =? 0).

Inductive TcpState :=
  | Closed | Listen | SynReceived | Established | FinWait1 | FinWait2
  | CloseWait | LastAck | TimeWait | SynSent.

#[export] Instance TcpState_eq_dec : EqDecision TcpState.
Proof. solve_decision. Defined.

Definition state_eqb (a b : TcpState) : bool := bool_decide (a = b).

Inductive ConnectFailure := NoFailure | Refused | TimedOut.

Definition SEGMENT_SIZE : Z := 64.
Abbreviation MAX_SEGMENTS := 1023%Z (only parsing).
Abbreviation NULL_SLOT := 65535%Z (only parsing).
Definition RX_RING_BYTES : Z := 16384.
Abbreviation MSS_V4 := 1460%Z (only parsing).
Abbreviation MSS_V6 := 1440%Z (only parsing).
Abbreviation MSS_MAX := MSS_V4 (only parsing).

Definition mss_for (local_ip : IpAddr) : Z :=
  match local_ip with V4 _ => MSS_V4 | V6 _ => MSS_V6 end.

Abbreviation RTO_INITIAL_MS := 1000%Z (only parsing).
Abbreviation RTO_K := 4%Z (only parsing).
Abbreviation RTO_MAX_MS := 60000%Z (only parsing).
Abbreviation TLP_MIN_MS := 10%Z (only parsing).
Abbreviation TLP_MAX_PROBES := 2%Z (only parsing).
Abbreviation RTX_MAX_RETRIES := 8%Z (only parsing).
Abbreviation FIN_RETX_MAX := 5%Z (only parsing).
Abbreviation PERSIST_MAX_PROBES := 8%Z (only parsing).
Abbreviation SYN_RETX_MAX := 5%Z (only parsing).
Abbreviation TIME_WAIT_MS := 60000%Z (only parsing).
Abbreviation OOO_MAX_SEGS := 32%Z (only parsing).
Abbreviation OOO_MAX_BYTES := RX_RING_BYTES (only parsing).

(* ------------------------------------------------------------------ *)
(** ** Control block *)

Record RtxEntry := mkRtx {
  iobuf : list Z;
  seq_start : Z;
  len : Z;
  first_tx_ms : Z;
  last_tx_ms : Z;
  tx_count : Z;
  sacked : bool
}.

Record OooSeg := mkOooSeg { ooo_seq : Z; ooo_bytes : list Z }.

Record OooQueue := mkOoo { segs : list OooSeg; total_bytes : Z }.

Record TcpConnection := mkConn {
  state : TcpState;
  remote_ip : IpAddr;
  local_ip : IpAddr;
  local_port : Z;
  remote_port : Z;
  snd_nxt : Z;
  snd_una : Z;
  snd_wnd : Z;
  snd_wscale : Z;
  snd_mss : Z;
  wscale_ok : bool;
  sack_ok : bool;
  snd_wl1 : Z;
  snd_wl2 : Z;
  rcv_nxt : Z;
  rcv_wnd : Z;
  rx_ring : option (list Z);
  rx_head : Z;
  rx_tail : Z;
  rx_used : Z;
  chunk_wanted : bool;
  pending_chunk : option (list Z);
  listener_port : Z;
  accepted : bool;
  connect_failure : ConnectFailure;
  generation : Z;
  recv_waker : option Z;
  send_waker : option Z;
  rtx_queue : list RtxEntry;
  rtx_bytes_in_flight : Z;
  rtx_alloc_failed : bool;
  rto_ms : Z;
  rtx_deadline_ms : Z;
  rtx_backoff : Z;
  srtt_ms : Z;
  rttvar_ms : Z;
  rtt_seeded : bool;
  rtt_anchor_ms : Z;
  rtt_anchor_seq : Z;
  rtt_anchor_active : bool;
  lifecycle_deadline_ms : Z;
  fin_retx_count : Z;
  persist_deadline_ms : Z;
  persist_backoff : Z;
  tlp_deadline_ms : Z;
  tlp_count : Z;
  rack_deadline_ms : Z;
  rack_sack_hint : bool;
  cwnd : Z;
  dup_acks : Z;
  cc : Controller.t;
  next_free : Z;
  slot_index : Z;
  tick_next : Z;
  tick_in_list : bool;
  ooo : OooQueue
}.

(** [TcpConnection::new()]. *)
Definition new_conn : TcpConnection := {|
  state := Closed; remote_ip := V4_ANY; local_ip := V4_ANY; local_port := 0;
  remote_port := 0; snd_nxt := 0; snd_una := 0; snd_wnd := 0; snd_wscale := 0;
  snd_mss := w16 MSS_MAX; wscale_ok := false; sack_ok := false; snd_wl1 := 0;
  snd_wl2 := 0; rcv_nxt := 0; rcv_wnd := w16 RX_RING_BYTES; rx_ring := None;
  rx_head := 0; rx_tail := 0; rx_used := 0; chunk_wanted := false;
  pending_chunk := None; listener_port := 0; accepted := false;
  connect_failure := NoFailure; generation := 0; recv_waker := None;
  send_waker := None; rtx_queue := []; rtx_bytes_in_flight := 0;
  rtx_alloc_failed := false; rto_ms := RTO_INITIAL_MS; rtx_deadline_ms := 0;
  rtx_backoff := 0; srtt_ms := 0; rttvar_ms := 0; rtt_seeded := false;
  rtt_anchor_ms := 0; rtt_anchor_seq := 0; rtt_anchor_active := false;
  lifecycle_deadline_ms := 0; fin_retx_count := 0; persist_deadline_ms := 0;
  persist_backoff := 0; tlp_deadline_ms := 0; tlp_count := 0;
  rack_deadline_ms := 0; rack_sack_hint := false; cwnd := 0; dup_acks := 0;
  cc := Controller.with_default_mss; next_free := NULL_SLOT; slot_index := 0;
  tick_next := NULL_SLOT; tick_in_list := false; ooo := mkOoo [] 0
|}.

Definition eta_conn (c : TcpConnection) : TcpConnection :=
  mkConn
    (state c) (remote_ip c) (local_ip c) (local_port c) (remote_port c) (snd_nxt c)
    (snd_una c) (snd_wnd c) (snd_wscale c) (snd_mss c) (wscale_ok c) (sack_ok c)
    (snd_wl1 c) (snd_wl2 c) (rcv_nxt c) (rcv_wnd c) (rx_ring c) (rx_head c) (rx_tail c)
    (rx_used c) (chunk_wanted c) (pending_chunk c) (listener_port c) (accepted c)
    (connect_failure c) (generation c) (recv_waker c) (send_waker c) (rtx_queue c)
    (rtx_bytes_in_flight c) (rtx_alloc_failed c) (rto_ms c) (rtx_deadline_ms c)
    (rtx_backoff c) (srtt_ms c) (rttvar_ms c) (rtt_seeded c) (rtt_anchor_ms c)
    (rtt_anchor_seq c) (rtt_anchor_active c) (lifecycle_deadline_ms c)
    (fin_retx_count c) (persist_deadline_ms c) (persist_backoff c) (tlp_deadline_ms c)
    (tlp_count c) (rack_deadline_ms c) (rack_sack_hint c) (cwnd c) (dup_acks c) (cc c)
    (next_free c) (slot_index c) (tick_next c) (tick_in_list c) (ooo c).
Definition set_state (v : TcpState) (c : TcpConnection) : TcpConnection :=
  ltac:(set_field eta_conn state c v).
Definition set_remote_ip (v : IpAddr) (c : TcpConnection) : TcpConnection :=
  ltac:(set_field eta_conn remote_ip c v).
Definition set_local_ip (v : IpAddr) (c : TcpConnection) : TcpConnection :=
  ltac:(set_field eta_conn local_ip c v).
Definition set_local_port (v : Z) (c : TcpConnection) : TcpConnection :=
  ltac:(set_field eta_conn local_port c v).
Definition set_remote_port (v : Z) (c : TcpConnection) : TcpConnection :=
  ltac:(set_field eta_conn remote_port c v).
Definition set_snd_nxt (v : Z) (c : TcpConnection) : TcpConnection :=
  ltac:(set_field eta_conn snd_nxt c v).
Definition set_snd_una (v : Z) (c : TcpConnection) : TcpConnection :=
  ltac:(set_field eta_conn snd_una c v).
Definition set_snd_wnd (v : Z) (c : TcpConnection) : TcpConnection :=
  ltac:(set_field eta_conn snd_wnd c v).
Definition set_snd_wscale (v : Z) (c : TcpConnection) : TcpConnection :=
  ltac:(set_field eta_conn snd_wscale c v).
Definition set_snd_mss (v : Z) (c : TcpConnection) : TcpConnection :=
  ltac:(set_field eta_conn snd_mss c v).
Definition set_wscale_ok (v : bool) (c : TcpConnection) : TcpConnection :=
  ltac:(set_field eta_conn wscale_ok c v).
Definition set_sack_ok (v : bool) (c : TcpConnection) : TcpConnection :=
  ltac:(set_field eta_conn sack_ok c v).
Definition set_snd_wl1 (v : Z) (c : TcpConnection) : TcpConnection :=
  ltac:(set_field eta_conn snd_wl1 c v).
Definition set_snd_wl2 (v : Z) (c : TcpConnection) : TcpConnection :=
  ltac:(set_field eta_conn snd_wl2 c v).
Definition set_rcv_nxt (v : Z) (c : TcpConnection) : TcpConnection :=
  ltac:(set_field eta_conn rcv_nxt c v).
Definition set_rcv_wnd (v : Z) (c : TcpConnection) : TcpConnection :=
  ltac:(set_field eta_conn rcv_wnd c v).
Definition set_rx_ring (v : option (list Z)) (c : TcpConnection) : TcpConnection :=
  ltac:(set_field eta_conn rx_ring c v).
Definition set_rx_head (v : Z) (c : TcpConnection) : TcpConnection :=
  ltac:(set_field eta_conn rx_head c v).
Definition set_rx_tail (v : Z) (c : TcpConnection) : TcpConnection :=
  ltac:(set_field eta_conn rx_tail c v).
Definition set_rx_used (v : Z) (c : TcpConnection) : TcpConnection :=
  ltac:(set_field eta_conn rx_used c v).
Definition set_chunk_wanted (v : bool) (c : TcpConnection) : TcpConnection :=
  ltac:(set_field eta_conn chunk_wanted c v).
Definition set_pending_chunk (v : option (list Z)) (c : TcpConnection) : TcpConnection :=
  ltac:(set_field eta_conn pending_chunk c v).
Definition set_listener_port (v : Z) (c : TcpConnection) : TcpConnection :=
  ltac:(set_field eta_conn listener_port c v).
Definition set_accepted (v : bool) (c : TcpConnection) : TcpConnection :=
  ltac:(set_field eta_conn accepted c v).
Definition set_connect_failure (v : ConnectFailure) (c : TcpConnection) : TcpConnection :=
  ltac:(set_field eta_conn connect_failure c v).
Definition set_generation (v : Z) (c : TcpConnection) : TcpConnection :=
  ltac:(set_field eta_conn generation c v).
Definition set_recv_waker (v : option Z) (c : TcpConnection) : TcpConnection :=
  ltac:(set_field eta_conn recv_waker c v).
Definition set_send_waker (v : option Z) (c : TcpConnection) : TcpConnection :=
  ltac:(set_field eta_conn send_waker c v).
Definition set_rtx_queue (v : list RtxEntry) (c : TcpConnection) : TcpConnection :=
  ltac:(set_field eta_conn rtx_queue c v).
Definition set_rtx_bytes_in_flight (v : Z) (c : TcpConnection) : TcpConnection :=
  ltac:(set_field eta_conn rtx_bytes_in_flight c v).
Definition set_rtx_alloc_failed (v : bool) (c : TcpConnection) : TcpConnection :=
  ltac:(set_field eta_conn rtx_alloc_failed c v).
Definition set_rto_ms (v : Z) (c : TcpConnection) : TcpConnection :=
  ltac:(set_field eta_conn rto_ms c v).
Definition set_rtx_deadline_ms (v : Z) (c : TcpConnection) : TcpConnection :=
  ltac:(set_field eta_conn rtx_deadline_ms c v).
Definition set_rtx_backoff (v : Z) (c : TcpConnection) : TcpConnection :=
  ltac:(set_field eta_conn rtx_backoff c v).
Definition set_srtt_ms (v : Z) (c : TcpConnection) : TcpConnection :=
  ltac:(set_field eta_conn srtt_ms c v).
Definition set_rttvar_ms (v : Z) (c : TcpConnection) : TcpConnection :=
  ltac:(set_field eta_conn rttvar_ms c v).
Definition set_rtt_seeded (v : bool) (c : TcpConnection) : TcpConnection :=
  ltac:(set_field eta_conn rtt_seeded c v).
Definition set_rtt_anchor_ms (v : Z) (c : TcpConnection) : TcpConnection :=
  ltac:(set_field eta_conn rtt_anchor_ms c v).
Definition set_rtt_anchor_seq (v : Z) (c : TcpConnection) : TcpConnection :=
  ltac:(set_field eta_conn rtt_anchor_seq c v).
Definition set_rtt_anchor_active (v : bool) (c : TcpConnection) : TcpConnection :=
  ltac:(set_field eta_conn rtt_anchor_active c v).
Definition set_lifecycle_deadline_ms (v : Z) (c : TcpConnection) : TcpConnection :=
  ltac:(set_field eta_conn lifecycle_deadline_ms c v).
Definition set_fin_retx_count (v : Z) (c : TcpConnection) : TcpConnection :=
  ltac:(set_field eta_conn fin_retx_count c v).
Definition set_persist_deadline_ms (v : Z) (c : TcpConnection) : TcpConnection :=
  ltac:(set_field eta_conn persist_deadline_ms c v).
Definition set_persist_backoff (v : Z) (c : TcpConnection) : TcpConnection :=
  ltac:(set_field eta_conn persist_backoff c v).
Definition set_tlp_deadline_ms (v : Z) (c : TcpConnection) : TcpConnection :=
  ltac:(set_field eta_conn tlp_deadline_ms c v).
Definition set_tlp_count (v : Z) (c : TcpConnection) : TcpConnection :=
  ltac:(set_field eta_conn tlp_count c v).
Definition set_rack_deadline_ms (v : Z) (c : TcpConnection) : TcpConnection :=
  ltac:(set_field eta_conn rack_deadline_ms c v).
Definition set_rack_sack_hint (v : bool) (c : TcpConnection) : TcpConnection :=
  ltac:(set_field eta_conn rack_sack_hint c v).
Definition set_cwnd (v : Z) (c : TcpConnection) : TcpConnection :=
  ltac:(set_field eta_conn cwnd c v).
Definition set_dup_acks (v : Z) (c : TcpConnection) : TcpConnection :=
  ltac:(set_field eta_conn dup_acks c v).
Definition set_cc (v : Controller.t) (c : TcpConnection) : TcpConnection :=
  ltac:(set_field eta_conn cc c v).
Definition set_next_free (v : Z) (c : TcpConnection) : TcpConnection :=
  ltac:(set_field eta_conn next_free c v).
Definition set_slot_index (v : Z) (c : TcpConnection) : TcpConnection :=
  ltac:(set_field eta_conn slot_index c v).
Definition set_tick_next (v : Z) (c : TcpConnection) : TcpConnection :=
  ltac:(set_field eta_conn tick_next c v).
Definition set_tick_in_list (v : bool) (c : TcpConnection) : TcpConnection :=
  ltac:(set_field eta_conn tick_in_list c v).
Definition set_ooo (v : OooQueue) (c : TcpConnection) : TcpConnection :=
  ltac:(set_field eta_conn ooo c v).

(** [reset_preserving]: a fresh connection that keeps its slot index, its heap
    buffers (the ring with its old bytes) and the given generation. *)
Definition reset_preserving (next_gen : Z) (c : TcpConnection) : TcpConnection :=
  new_conn |> set_generation next_gen |> set_rx_ring (rx_ring c)
    |> set_slot_index (slot_index c).

(* ------------------------------------------------------------------ *)
(** ** Segments and the environment *)

Record SegmentMeta := mkMeta {
  sm_local_ip : IpAddr;
  sm_dst_ip : IpAddr;
  sm_src_port : Z;
  sm_dst_port : Z;
  sm_seq : Z;
  sm_ack : Z;
  sm_flags : Z;
  sm_window : Z
}.

(** A segment handed to the driver: its metadata, the resolved MAC, the IPv4
    identification drawn for it, options and payload; [sg_gso] is the segment
    size of a TSO super-segment. *)
Record Segment := mkSegment {
  sg_meta : SegmentMeta;
  sg_dst_mac : MacAddr;
  sg_ip_id : Z;
  sg_options : list Z;
  sg_payload : list Z;
  sg_gso : option Z
}.

Record Ctx := mkCtx {
  now_ms : Z;
  out : list Segment;
  woken : list Z;
  ready_ports : list Z;
  tick_head : Z;
  allocs : list bool;
  rng : list Z;
  ip_id : Z;
  our_mac : MacAddr;
  mac_resolve : IpAddr -> option MacAddr;
  direct_fill : bool;
  tx_grants : list bool;
  tso_available : bool;
  tso_grants : list bool;
  tso_cap : Z
}.

Definition eta_ctx (x : Ctx) : Ctx :=
  mkCtx
    (now_ms x) (out x) (woken x) (ready_ports x) (tick_head x) (allocs x) (rng x)
    (ip_id x) (our_mac x) (mac_resolve x) (direct_fill x) (tx_grants x)
    (tso_available x) (tso_grants x) (tso_cap x).
Definition set_now_ms (v : Z) (x : Ctx) : Ctx := ltac:(set_field eta_ctx now_ms x v).
Definition set_out (v : list Segment) (x : Ctx) : Ctx := ltac:(set_field eta_ctx out x v).
Definition set_woken (v : list Z) (x : Ctx) : Ctx := ltac:(set_field eta_ctx woken x v).
Definition set_ready_ports (v : list Z) (x : Ctx) : Ctx := ltac:(set_field eta_ctx ready_ports x v).
Definition set_tick_head (v : Z) (x : Ctx) : Ctx := ltac:(set_field eta_ctx tick_head x v).
Definition set_allocs (v : list bool) (x : Ctx) : Ctx := ltac:(set_field eta_ctx allocs x v).
Definition set_rng (v : list Z) (x : Ctx) : Ctx := ltac:(set_field eta_ctx rng x v).
Definition set_ip_id (v : Z) (x : Ctx) : Ctx := ltac:(set_field eta_ctx ip_id x v).
Definition set_tx_grants (v : list bool) (x : Ctx) : Ctx := ltac:(set_field eta_ctx tx_grants x v).
Definition set_tso_grants (v : list bool) (x : Ctx) : Ctx := ltac:(set_field eta_ctx tso_grants x v).

(** The answer of [try_reserve]: the next entry of the script. *)
Definition try_reserve : St Ctx bool := fun x =>
  match allocs x with
  | [] => (true, x)
  | b :: rest => (b, set_allocs rest x)
  end.

(** Fires a waker. *)
Definition wake (w : Z) : St Ctx unit := modify (fun x => set_woken (woken x ++ [w]) x).

Definition CS : Type := TcpConnection * Ctx.

(** Reading and assigning the connection's fields, and running environment
    code, from a method. *)
Definition getc {A} (f : TcpConnection -> A) : St CS A := fun s => (f (fst s), s).
Definition setc (f : TcpConnection -> TcpConnection) : St CS unit :=
  fun s => (tt, (f (fst s), snd s)).
Definition on_ctx {A} (m : St Ctx A) : St CS A :=
  fun s => let (a, x) := m (snd s) in (a, (fst s, x)).
Definition now : St CS Z := on_ctx (gets now_ms).

Lemma exec_getc {A} (f : TcpConnection -> A) s : exec (getc f) s = s.
Proof. done. Qed.

Lemma eval_getc {A} (f : TcpConnection -> A) s : eval (getc f) s = f (fst s).
Proof. done. Qed.

Lemma exec_setc f s : exec (setc f) s = (f (fst s), snd s).
Proof. done. Qed.

Lemma exec_on_ctx {A} (m : St Ctx A) s : exec (on_ctx m) s = (fst s, exec m (snd s)).
Proof. unfold exec, on_ctx. by destruct (m (snd s)). Qed.

Lemma eval_on_ctx {A} (m : St Ctx A) s : eval (on_ctx m) s = eval m (snd s).
Proof. unfold eval, on_ctx. by destruct (m (snd s)). Qed.

Lemma exec_now s : exec now s = s.
Proof. by destruct s. Qed.

Lemma eval_now s : eval now s = now_ms (snd s).
Proof. done. Qed.

#[export] Hint Rewrite @exec_getc @eval_getc exec_setc @exec_on_ctx @eval_on_ctx
  exec_now eval_now : st.

(** Computes the final state or result of a straight-line method. *)
Ltac st_simpl := autorewrite with st; cbn [fst snd].

(** [if let Some(w) = self.recv_waker.take() { w.wake() }], and for the send
    waker. *)
Definition wake_recv : St CS unit := fun s =>
  match recv_waker (fst s) with
  | Some w => (setc (set_recv_waker None);; on_ctx (wake w))%st s
  | None => (tt, s)
  end.
Definition wake_send : St CS unit := fun s =>
  match send_waker (fst s) with
  | Some w => (setc (set_send_waker None);; on_ctx (wake w))%st s
  | None => (tt, s)
  end.

(** [register_armed_slot]: push the slot on the armed-timer list, once. *)
Definition register_armed_slot : St CS unit := fun s =>
  let (c, x) := s in
  if tick_in_list c then (tt, s)
  else (tt, (c |> set_tick_next (tick_head x) |> set_tick_in_list true,
             set_tick_head (slot_index c) x)).

Definition arm_for_tick : St CS unit := register_armed_slot.

(** 32-bit serial-number order. *)
Definition seq_lt (a b : Z) : bool := i32 (w32 (a - b)) <? 0.

(* ------------------------------------------------------------------ *)
(** ** Frame rules of connection programs *)

Section Frames.
Context {T : Type} (f : CS -> T).

Lemma preserves_getc {A} (g : TcpConnection -> A) : preserves f (getc g).
Proof. done. Qed.

Lemma preserves_now : preserves f now.
Proof. intros s. by rewrite exec_now. Qed.

Lemma preserves_setc g : (forall s, f (g (fst s), snd s) = f s) -> preserves f (setc g).
Proof. done. Qed.

End Frames.

(** Environment code keeps every view of the connection. *)
Lemma preserves_on_ctx {T A} (f : CS -> T) (m : St Ctx A) :
  (forall c x x', f (c, x') = f (c, x)) -> preserves f (on_ctx m).
Proof. intros H [c x]. rewrite exec_on_ctx. apply H. Qed.

Lemma preserves_try_reserve {T} (f : CS -> T) :
  (forall s v, f (fst s, set_allocs v (snd s)) = f s) -> preserves f (on_ctx try_reserve).
Proof.
  intros H [c x]. rewrite exec_on_ctx. unfold exec, try_reserve. simpl.
  destruct (allocs x) as [|? ?]; [done|]. apply (H (c, x)).
Qed.

Lemma preserves_arm {T} (f : CS -> T) :
  (forall c x v w, f (c |> set_tick_next v |> set_tick_in_list true, set_tick_head w x) = f (c, x)) ->
  preserves f arm_for_tick.
Proof.
  intros H [c x]. unfold exec, arm_for_tick, register_armed_slot.
  destruct (tick_in_list c); [done|]. apply H.
Qed.

#[export] Hint Resolve preserves_getc preserves_now : preserves.

(** Decides a frame goal about a connection program. *)
Ltac preserve_cs :=
  repeat match goal with
  | |- preserves _ (sbind _ _) => apply preserves_bind; [|intros ?]
  | |- preserves _ (setc _) => apply preserves_setc; intros ?; reflexivity
  | |- preserves _ (on_ctx try_reserve) => apply preserves_try_reserve; intros ? ?; reflexivity
  | |- preserves _ (on_ctx _) => apply preserves_on_ctx; intros ? ? ?; reflexivity
  | |- preserves _ arm_for_tick => apply preserves_arm; intros ? ? ? ?; reflexivity
  | |- preserves _ (swhen _ _) => apply preserves_when
  | |- preserves _ (if ?b then _ else _) => destruct b
  | |- preserves _ (match ?x with _ => _ end) => destruct x
  | |- preserves _ _ => solve [auto with preserves nocore]
  end.
