(* ===== verification/TcpSend.v ===== *)
(** * Segment assembly and transmission (crates/net/tcp/src/send.rs)

    The frame builder, the control-segment senders, the option blob of a
    SYN-shaped segment, and the three ways a stretch of stream bytes is put on
    the wire: one segment, a loop of segments, one TSO super-segment.

    A chain cursor is the list of bytes it has yet to yield; a sender that
    returns [true] (or a count) has consumed that many bytes from it. *)

From S2P Require Import Prelude.
From S2P Require Import NetTypes.
From S2P Require Import Checksum.
From S2P Require Import Wire.
From S2P Require Import TcpTypes.

#[local] Open Scope st_scope.

Abbreviation ETH_HDR_LEN := Ethernet.HEADER_LEN (only parsing).
Abbreviation IPV4_HDR_LEN := Ipv4.HEADER_LEN (only parsing).
Abbreviation IPV6_HDR_LEN := Ipv6.HEADER_LEN (only parsing).
Definition TCP_HDR_LEN : Z := 20.
Abbreviation TSO_FRAME_BUF_LEN := (ETH_HDR_LEN + IPV6_HDR_LEN + TCP_HDR_LEN + 16384 + 24)%Z (only parsing).

Definition payload_offset (local_ip : IpAddr) : Z :=
  match local_ip with
  | V4 _ => ETH_HDR_LEN + IPV4_HDR_LEN + TCP_HDR_LEN
  | V6 _ => ETH_HDR_LEN + IPV6_HDR_LEN + TCP_HDR_LEN
  end.

(** The TCP header with the pseudo-header partial in its checksum field. *)
Definition tcp_header (meta : SegmentMeta) (opt_len tcp_seg_len : Z) : list Z :=
  htons (sm_src_port meta) ++ htons (sm_dst_port meta) ++
  htonl (sm_seq meta) ++ htonl (sm_ack meta) ++
  [w8 (Z.shiftl (w8 ((TCP_HDR_LEN + opt_len) / 4)) 4); sm_flags meta] ++
  htons (sm_window meta) ++
  to_le_bytes 2 (l4_pseudo_partial (sm_local_ip meta) (sm_dst_ip meta) PROTO_TCP tcp_seg_len) ++
  [0; 0].

(** The whole frame around [options] and [payload]; [ip_id] is the
    identification [ipv4::fill_header] draws.  Addresses of two families are
    the source's [unreachable!]. *)
Definition fill_tcp_frame_headers (our_mac : MacAddr) (meta : SegmentMeta)
    (dst_mac : MacAddr) (ip_id : Z) (options payload : list Z) : list Z :=
  let opt_len := zlen options in
  let tcp_seg_len := TCP_HDR_LEN + opt_len + zlen payload in
  let segment := tcp_header meta opt_len tcp_seg_len ++ options ++ payload in
  match sm_local_ip meta, sm_dst_ip meta with
  | V4 s, V4 d =>
      let ip_total := w16 (IPV4_HDR_LEN + tcp_seg_len) in
      Ethernet.fill_header dst_mac our_mac Ethernet.ETHERTYPE_IPV4 ++
      Ipv4.fill_header s d PROTO_TCP ip_total ip_id ++ segment
  | V6 s, V6 d =>
      Ethernet.fill_header dst_mac our_mac Ipv6.ETHERTYPE_IPV6 ++
      Ipv6.fill_header s d PROTO_TCP 64 (w16 tcp_seg_len) ++ segment
  | _, _ => []
  end.

(** The bytes of an emitted segment. *)
Definition segment_frame (our_mac : MacAddr) (sg : Segment) : list Z :=
  fill_tcp_frame_headers our_mac (sg_meta sg) (sg_dst_mac sg) (sg_ip_id sg)
    (sg_options sg) (sg_payload sg).

(** [fill] runs and the frame is submitted: an IPv4 frame draws the next
    identification. *)
Definition submit (fill : Z -> Segment) : St Ctx unit := fun x =>
  let sg := fill (ip_id x) in
  let x := set_out (out x ++ [sg]) x in
  (tt, if is_v4 (sm_dst_ip (sg_meta sg))
       then set_ip_id (snd (Ipv4.next_ip_id (ip_id x))) x else x).

(** [nic::acquire_tx_buf] and [nic::acquire_tx_tso_buf]. *)
Definition acquire_tx_buf : St Ctx bool := fun x =>
  match tx_grants x with
  | [] => (true, x)
  | b :: rest => (b, set_tx_grants rest x)
  end.

Definition acquire_tx_tso_buf : St Ctx bool := fun x =>
  match tso_grants x with
  | [] => (tso_available x, x)
  | b :: rest => (b, set_tso_grants rest x)
  end.

(** [true] when the frame reached the driver; [false] is back-pressure, with
    [fill] not run. *)
Definition build_and_send_frame (fill : Z -> Segment) : St Ctx bool :=
  granted <- acquire_tx_buf;;
  if granted : bool then submit fill;; sret true
  else
    df <- gets direct_fill;;
    if df : bool then sret false
    else submit fill;; sret true.

Definition send_segment_opts (meta : SegmentMeta) (payload options : list Z) : St Ctx unit :=
  mac <- gets (fun x => mac_resolve x (sm_dst_ip meta));;
  match mac with
  | None => sret tt
  | Some dst_mac =>
      let payload := ztake (Z.min (zlen payload) MSS_MAX) payload in
      build_and_send_frame (fun id => mkSegment meta dst_mac id options payload None);;
      sret tt
  end.

Definition send_segment (meta : SegmentMeta) (payload : list Z) : St Ctx unit :=
  send_segment_opts meta payload [].

Definition SYN_OPTS_MAX : Z := 12.

(** The filled prefix of [out]. *)
Definition syn_option_blob (mss : Z) (wscale sack : bool) : list Z :=
  let mss_b := to_be_bytes 2 mss in
  match wscale, sack with
  | true, false => [2; 4] ++ mss_b ++ [1; 3; 3; 0]
  | true, true => [2; 4] ++ mss_b ++ [1; 3; 3; 0; 4; 2; 1; 1]
  | false, true => [2; 4] ++ mss_b ++ [4; 2; 1; 1]
  | false, false => [2; 4] ++ mss_b
  end.

Definition send_rst (local_ip dst_ip : IpAddr) (src_port dst_port seq ack : Z) : St Ctx unit :=
  send_segment (mkMeta local_ip dst_ip src_port dst_port seq ack
                  (Z.lor TCP_RST TCP_ACK) 0) [].

(* ------------------------------------------------------------------ *)
(** ** Stream bytes *)

Definition with_seq (seq : Z) (meta : SegmentMeta) : SegmentMeta :=
  mkMeta (sm_local_ip meta) (sm_dst_ip meta) (sm_src_port meta) (sm_dst_port meta)
    seq (sm_ack meta) (sm_flags meta) (sm_window meta).

Definition send_segment_from_cursor (meta : SegmentMeta) (cursor : list Z)
    (payload_len : Z) : St Ctx bool :=
  mac <- gets (fun x => mac_resolve x (sm_dst_ip meta));;
  match mac with
  | None => sret false
  | Some dst_mac =>
      let payload_len := Z.min payload_len MSS_MAX in
      build_and_send_frame (fun id =>
        mkSegment meta dst_mac id [] (ztake payload_len cursor) None)
  end.

(** The loop of [send_per_mss_fallback]; [fuel] bounds its iterations by the
    payload length. *)
Fixpoint per_mss_loop (fuel : nat) (chunk_meta : SegmentMeta) (cursor : list Z)
    (sent payload_len mss : Z) : St Ctx Z :=
  match fuel with
  | O => sret sent
  | S fuel' =>
      if sent <? payload_len then
        let chunk := Z.min (payload_len - sent) mss in
        ok <- send_segment_from_cursor chunk_meta cursor chunk;;
        if ok : bool then
          per_mss_loop fuel' (with_seq (w32 (sm_seq chunk_meta + w32 chunk)) chunk_meta)
            (zdrop (Z.min chunk MSS_MAX) cursor) (sent + chunk) payload_len mss
        else sret sent
      else sret sent
  end.

Definition send_per_mss_fallback (meta : SegmentMeta) (cursor : list Z)
    (payload_len mss : Z) : St Ctx Z :=
  per_mss_loop (Z.to_nat payload_len) meta cursor 0 payload_len mss.

(** One TSO super-segment, or the per-segment loop when no slot is free.  The
    device fills in the checksum of every segment it cuts. *)
Definition send_super_segment_from_cursor (meta : SegmentMeta) (cursor : list Z)
    (payload_len mss : Z) : St Ctx Z :=
  mac <- gets (fun x => mac_resolve x (sm_dst_ip meta));;
  match mac with
  | None => sret 0
  | Some dst_mac =>
      slot <- acquire_tx_tso_buf;;
      if slot : bool then
        submit (fun id =>
          mkSegment meta dst_mac id [] (ztake payload_len cursor) (Some (w16 mss)));;
        sret payload_len
      else send_per_mss_fallback meta cursor payload_len mss
  end.

(* ------------------------------------------------------------------ *)
(** ** What a control segment adds to the wire *)

Lemma build_and_send_out fill x :
  exists new, out (exec (build_and_send_frame fill) x) = out x ++ new /\
    (new = [] \/ exists id, new = [fill id]).
Proof.
  unfold build_and_send_frame, acquire_tx_buf, exec, sbind, gets, submit, sret.
  destruct (tx_grants x) as [|[] grants]; [| |destruct (direct_fill _)]; simpl;
    try destruct (is_v4 _); simpl; eauto using app_nil_r.
  all: exists []; rewrite app_nil_r; auto.
Qed.

(** [send_segment] emits its segment, or nothing when the neighbour is
    unresolved or the driver is full. *)
Lemma send_segment_out meta payload x :
  exists new, out (exec (send_segment meta payload) x) = out x ++ new /\
    (new = [] \/ exists mac id,
       new = [mkSegment meta mac id [] (ztake (Z.min (zlen payload) MSS_MAX) payload) None]).
Proof.
  unfold send_segment, send_segment_opts. autorewrite with st.
  destruct (mac_resolve x _) as [mac|]; autorewrite with st.
  - destruct (build_and_send_out (fun id => mkSegment meta mac id []
      (ztake (Z.min (zlen payload) MSS_MAX) payload) None) x) as (new & -> & H).
    exists new. split; [done|]. destruct H as [?|[id ?]]; eauto.
  - exists []. rewrite app_nil_r. auto.
Qed.

Lemma build_and_send_now fill x : now_ms (exec (build_and_send_frame fill) x) = now_ms x.
Proof.
  unfold build_and_send_frame, acquire_tx_buf, exec, sbind, gets, submit, sret.
  destruct (tx_grants x) as [|[] grants]; [| |destruct (direct_fill _)]; simpl;
    try destruct (is_v4 _); done.
Qed.

Lemma send_segment_now meta payload x :
  now_ms (exec (send_segment meta payload) x) = now_ms x.
Proof.
  unfold send_segment, send_segment_opts. autorewrite with st.
  destruct (mac_resolve x _); autorewrite with st; [apply build_and_send_now|done].
Qed.
