(* ===== verification/TcpWire.v ===== *)
(** * The TCP header and its options on the wire (crates/net/tcp/src/receive.rs)

    Header parsing at the top of [tcp_receive_inner], the SYN option walk, the
    SACK option both ways, and the theorems that what one side writes the other
    reads back. *)

From S2P Require Import Prelude.
From S2P Require Import NetTypes.
From S2P Require Import Checksum.
From S2P Require Import Wire.
From S2P Require Import TcpTypes.
From S2P Require Import TcpSend.

(* ------------------------------------------------------------------ *)
(** ** Definitions *)

(** The fields [tcp_receive_inner] reads from [TcpHeader], in host order. *)
Record TcpHdr := mkHdr {
  h_src_port : Z;
  h_dst_port : Z;
  h_seq : Z;
  h_ack : Z;
  h_flags : Z;
  h_window : Z;
  h_data_offset : Z
}.

Definition parse_header (first : list Z) : option TcpHdr :=
  match try_ref_from 20 first with
  | None => None
  | Some h =>
      Some (mkHdr (ntohs (slice 0 2 h)) (ntohs (slice 2 2 h)) (ntohl (slice 4 4 h))
              (ntohl (slice 8 4 h)) (byte_at h 13) (ntohs (slice 14 2 h))
              (Z.shiftr (byte_at h 12) 4 * 4))
  end.

Record SynOptions := mkSynOptions {
  so_wscale : option Z;
  so_mss : option Z;
  so_sack_permitted : bool
}.

Definition no_options : SynOptions := mkSynOptions None None false.

(** [opt.get_or_insert(v)]. *)
Definition get_or_insert (o : option Z) (v : Z) : option Z :=
  match o with Some x => Some x | None => Some v end.

(** What one option of [kind] and [len] contributes; [body] follows the length
    byte. *)
Definition syn_option (kind len : Z) (body : list Z) (o : SynOptions) : SynOptions :=
  if (kind =? 2) && (len =? 4) then
    match body with
    | hi :: lo :: _ =>
        mkSynOptions (so_wscale o) (get_or_insert (so_mss o) (from_be_bytes [hi; lo]))
          (so_sack_permitted o)
    | _ => o
    end
  else if (kind =? 3) && (len =? 3) then
    match body with
    | s :: _ =>
        mkSynOptions (get_or_insert (so_wscale o) (Z.min s 14)) (so_mss o)
          (so_sack_permitted o)
    | [] => o
    end
  else if (kind =? 4) && (len =? 2) then mkSynOptions (so_wscale o) (so_mss o) true
  else o.

(** The walk; [opts] is what is left from position [i] on.  Every iteration
    consumes at least one byte, so the length is enough fuel. *)
Fixpoint syn_options_loop (fuel : nat) (opts : list Z) (o : SynOptions) : SynOptions :=
  match fuel with
  | O => o
  | S fuel' =>
      match opts with
      | [] => o
      | kind :: rest =>
          if kind =? 0 then o
          else if kind =? 1 then syn_options_loop fuel' rest o
          else
            match rest with
            | [] => o
            | len :: body =>
                if len <? 2 then o
                else syn_options_loop fuel' (zdrop len opts) (syn_option kind len body o)
            end
      end
  end.

Definition parse_syn_options (opts : list Z) : SynOptions :=
  syn_options_loop (length opts) opts no_options.

(** The inner loop of [parse_sack_blocks]: up to [room] blocks of 8 bytes. *)
Fixpoint read_blocks (room : nat) (bytes : list Z) : list (Z * Z) :=
  match room with
  | O => []
  | S room' =>
      if 8 <=? zlen bytes then
        (from_be_bytes (slice 0 4 bytes), from_be_bytes (slice 4 4 bytes)) ::
        read_blocks room' (zdrop 8 bytes)
      else []
  end.

Fixpoint sack_blocks_loop (fuel : nat) (opts : list Z) (room : nat) : list (Z * Z) :=
  match fuel with
  | O => []
  | S fuel' =>
      match opts with
      | [] => []
      | kind :: rest =>
          if kind =? 0 then []
          else if kind =? 1 then sack_blocks_loop fuel' rest room
          else
            match rest with
            | [] => []
            | len :: _ =>
                if len <? 2 then []
                else if kind =? 5 then
                  read_blocks room (zdrop 2 (ztake (Z.min len (zlen opts)) opts))
                else sack_blocks_loop fuel' (zdrop len opts) room
            end
      end
  end.

(** [out] has room for four blocks at both call sites. *)
Definition parse_sack_blocks (opts : list Z) : list (Z * Z) :=
  sack_blocks_loop (length opts) opts 4.

(** The option [emit_ack] attaches: [NOP, NOP, kind 5, length, blocks]. *)
Definition sack_option (blocks : list (Z * Z)) : list Z :=
  [1; 1; 5; w8 (2 + 8 * zlen blocks)] ++
  flat_map (fun b => to_be_bytes 4 (fst b) ++ to_be_bytes 4 (snd b)) blocks.

(* ------------------------------------------------------------------ *)
(** ** Option round trips *)

Lemma from_be_2 x : is_u16 x -> from_be_bytes (to_be_bytes 2 x) = x.
Proof. intros. rewrite from_to_be_bytes. apply Z.mod_small. change (256 ^ Z.of_nat 2) with 65536. int_lia. Qed.

Lemma from_be_4 x : is_u32 x -> from_be_bytes (to_be_bytes 4 x) = x.
Proof. intros. rewrite from_to_be_bytes. apply Z.mod_small. change (256 ^ Z.of_nat 4) with 4294967296. int_lia. Qed.

Lemma parse_syn_blob mss wscale sack :
  is_u16 mss ->
  parse_syn_options (syn_option_blob mss wscale sack) =
    mkSynOptions (if wscale then Some 0 else None) (Some mss) sack.
Proof.
  intros Hm. pose proof (from_be_2 mss Hm) as Hv. pose proof (length_to_be_bytes 2 mss) as Hl.
  unfold syn_option_blob. destruct (to_be_bytes 2 mss) as [|hi [|lo [|]]]; try done.
  rewrite <-Hv. by destruct wscale, sack.
Qed.

(** The options of a SYN-shaped segment are read back exactly: the MSS
    always, window scaling (shift 0) and SACK-permitted iff they were offered. *)
Theorem syn_options_roundtrip mss wscale sack :
  is_u16 mss ->
  parse_syn_options (syn_option_blob mss wscale sack) =
    mkSynOptions (if wscale then Some 0 else None) (Some mss) sack.
Proof. apply parse_syn_blob. Qed.

Lemma syn_options_roundtrip_witness :
  parse_syn_options (syn_option_blob 1460 true true) = mkSynOptions (Some 0) (Some 1460) true.
Proof. apply (syn_options_roundtrip 1460 true true). int_lia. Defined.

Lemma syn_options_wscale_cap fuel opts o :
  (forall s, so_wscale o = Some s -> s <= 14) ->
  forall s, so_wscale (syn_options_loop fuel opts o) = Some s -> s <= 14.
Proof.
  revert opts o. induction fuel as [|fuel IH]; intros opts o Ho; [done|]. simpl.
  destruct opts as [|kind rest]; [done|]. destruct (kind =? 0); [done|].
  destruct (kind =? 1); [by apply IH|]. destruct rest as [|l body]; [done|].
  destruct (l <? 2); [done|]. apply IH. intros s. unfold syn_option.
  repeat case_match; simpl; try apply Ho. unfold get_or_insert.
  destruct (so_wscale o); [apply Ho|]. intros [= <-]. lia.
Qed.

(** Whatever a peer sends, the negotiated window scale is at most 14, so
    scaling a 16-bit window never overflows [u32]. *)
Theorem wscale_never_overflows opts s window :
  is_u16 window -> so_wscale (parse_syn_options opts) = Some s -> 0 <= s ->
  s <= 14 /\ is_u32 (Z.shiftl window s).
Proof.
  intros Hw Hs Hpos.
  assert (s <= 14) by (apply (syn_options_wscale_cap (length opts) opts no_options); done).
  split; [done|]. rewrite Z.shiftl_mul_pow2 by done.
  assert (2 ^ s <= 2 ^ 14) by (apply Z.pow_le_mono_r; lia).
  assert (0 < 2 ^ s) by (apply Z.pow_pos_nonneg; lia). unfold_ints. nia.
Qed.

Lemma wscale_never_overflows_witness :
  so_wscale (parse_syn_options [3; 3; 200]) = Some 14 /\ is_u32 (Z.shiftl 65535 14).
Proof.
  split; [reflexivity|].
  apply (wscale_never_overflows [3; 3; 200] 14 65535); [int_lia|reflexivity|lia].
Defined.

Lemma read_blocks_roundtrip blocks room :
  Forall (fun b => is_u32 (fst b) /\ is_u32 (snd b)) blocks -> (length blocks <= room)%nat ->
  read_blocks room (flat_map (fun b => to_be_bytes 4 (fst b) ++ to_be_bytes 4 (snd b)) blocks) =
    blocks.
Proof.
  intros Hb. revert room. induction Hb as [|[l r] blocks [Hl Hr] Hb IH]; intros room Hlen.
  { by destruct room. }
  destruct room as [|room]; [simpl in Hlen; lia|].
  cbn [flat_map fst snd].
  set (tail := flat_map _ blocks) in *. pose proof (from_be_4 l Hl) as El.
  pose proof (from_be_4 r Hr) as Er. simpl in Hlen.
  pose proof (length_to_be_bytes 4 l) as Ll. pose proof (length_to_be_bytes 4 r) as Lr.
  destruct (to_be_bytes 4 l) as [|l0 [|l1 [|l2 [|l3 [|]]]]]; try done.
  destruct (to_be_bytes 4 r) as [|r0 [|r1 [|r2 [|r3 [|]]]]]; try done.
  simpl app. cbn [read_blocks].
  replace (8 <=? _) with true.
  2: { symmetry. apply Z.leb_le. rewrite !zlen_cons. pose proof (zlen_nonneg tail). lia. }
  change (slice 0 4 _) with [l0; l1; l2; l3]. change (slice 4 4 _) with [r0; r1; r2; r3].
  change (zdrop 8 _) with tail. rewrite El, Er, IH by lia. done.
Qed.

Lemma zlen_block_bytes blocks :
  zlen (flat_map (fun b : Z * Z => to_be_bytes 4 (fst b) ++ to_be_bytes 4 (snd b)) blocks) =
  8 * zlen blocks.
Proof.
  induction blocks as [|b blocks IH]; [done|]. cbn [flat_map].
  rewrite !zlen_app, zlen_cons, IH. unfold zlen. rewrite !length_to_be_bytes. lia.
Qed.

(** The SACK blocks attached to an ACK are the ones the peer parses out
    of it: at most four ranges survive the trip unchanged, in order. *)
Theorem sack_option_roundtrip blocks :
  Forall (fun b => is_u32 (fst b) /\ is_u32 (snd b)) blocks -> (length blocks <= 4)%nat ->
  parse_sack_blocks (sack_option blocks) = blocks.
Proof.
  intros Hb Hl. unfold parse_sack_blocks, sack_option.
  set (body := flat_map _ _). set (n := w8 (2 + 8 * zlen blocks)).
  assert (n = 2 + 8 * zlen blocks) as Hn by (apply w8_small; unfold zlen in *; int_lia).
  assert (zlen body = 8 * zlen blocks) as Hlb by apply zlen_block_bytes.
  pose proof (zlen_nonneg blocks).
  cbn [length app sack_blocks_loop Z.eqb Pos.eqb].
  destruct (n <? 2) eqn:E; bool_to_prop; [lia|].
  replace (zdrop 2 (ztake (Z.min n (zlen (5 :: n :: body))) (5 :: n :: body))) with body.
  { by apply read_blocks_roundtrip. }
  rewrite ztake_ge; [done|]. rewrite !zlen_cons, Hlb. lia.
Qed.

Lemma sack_option_roundtrip_witness :
  parse_sack_blocks (sack_option [(1000, 2460); (4294966000, 500)]) = [(1000, 2460); (4294966000, 500)].
Proof.
  apply sack_option_roundtrip.
  - constructor; [simpl; int_lia|constructor; [simpl; int_lia|constructor]].
  - simpl. lia.
Defined.

(* ------------------------------------------------------------------ *)
(** ** Frame round trip *)

Lemma htonl_bytes x :
  exists a b c d, htonl x = [a; b; c; d] /\ ntohl [a; b; c; d] = w32 x.
Proof.
  unfold htonl. pose proof (length_to_be_bytes 4 x) as Hl. pose proof (from_to_be_bytes 4 x) as Hv.
  destruct (to_be_bytes 4 x) as [|a [|b [|c [|d [|]]]]]; try done. by exists a, b, c, d.
Qed.

(** The metadata fields are of their Rust types. *)
Definition meta_ok (m : SegmentMeta) : Prop :=
  ip_ok (sm_local_ip m) /\ ip_ok (sm_dst_ip m) /\ same_family (sm_local_ip m) (sm_dst_ip m) /\
  is_u16 (sm_src_port m) /\ is_u16 (sm_dst_port m) /\ is_u32 (sm_seq m) /\
  is_u32 (sm_ack m) /\ is_u8 (sm_flags m) /\ is_u16 (sm_window m).

(** Options are padded to words and at most 40 bytes. *)
Definition options_ok (options : list Z) : Prop :=
  zlen options mod 4 = 0 /\ zlen options <= 40.

Lemma zlen_tcp_header meta ol sl : zlen (tcp_header meta ol sl) = 20.
Proof. done. Qed.

Lemma parse_tcp_header meta options payload sl :
  meta_ok meta -> options_ok options ->
  parse_header (tcp_header meta (zlen options) sl ++ options ++ payload) =
    Some (mkHdr (sm_src_port meta) (sm_dst_port meta) (sm_seq meta) (sm_ack meta)
            (sm_flags meta) (sm_window meta) (20 + zlen options)).
Proof.
  intros (_ & _ & _ & Hsp & Hdp & Hseq & Hack & _ & Hwin) [Hal Hol]. unfold parse_header.
  rewrite try_ref_from_app by done. pose proof (zlen_nonneg options) as Hpos.
  assert (Z.shiftr (w8 (Z.shiftl (w8 ((TCP_HDR_LEN + zlen options) / 4)) 4)) 4 * 4 =
    20 + zlen options) as Hoff.
  { unfold TCP_HDR_LEN. rewrite Z.shiftl_mul_pow2, Z.shiftr_div_pow2 by lia.
    change (2 ^ 4) with 16. int_lia. }
  unfold tcp_header. set (ck := l4_pseudo_partial _ _ _ _). clearbody ck.
  destruct (htons_bytes (sm_src_port meta)) as (? & ? & -> & _ & _ & E1).
  destruct (htons_bytes (sm_dst_port meta)) as (? & ? & -> & _ & _ & E2).
  destruct (htonl_bytes (sm_seq meta)) as (? & ? & ? & ? & -> & E3).
  destruct (htonl_bytes (sm_ack meta)) as (? & ? & ? & ? & -> & E4).
  destruct (htons_bytes (sm_window meta)) as (? & ? & -> & _ & _ & E5).
  rewrite w16_small in E1, E2, E5 by done. rewrite w32_small in E3, E4 by done.
  rewrite <-Hoff, <-E1, <-E2, <-E3, <-E4, <-E5. reflexivity.
Qed.

(** C39: a frame the stack puts on the wire, for IPv4 and for IPv6, is
    classified by the receiver as a TCP packet between the same addresses; its
    L4 segment parses to the sender's ports, sequence and acknowledgement
    numbers, flags and window, followed by the same options and payload.
    Trailing Ethernet padding does not leak into the payload. *)
Theorem tcp_frame_roundtrip cfg acc our_mac dst_mac ip_id meta options payload pad :
  meta_ok meta -> options_ok options -> mac_ok our_mac -> mac_ok dst_mac ->
  40 + zlen options + zlen payload <= 65535 ->
  match sm_dst_ip meta with
  | V4 d => Ipv4.not_ours cfg d = false
  | V6 d => acc d = true
  end ->
  let frame :=
    fill_tcp_frame_headers our_mac meta dst_mac ip_id options payload ++ pad in
  exists p l4,
    Classify.classify cfg acc frame = Classify.Ip p /\ l3_proto p = PROTO_TCP /\
    l3_src p = sm_local_ip meta /\ l3_dst p = sm_dst_ip meta /\
    ParsedL3_l4 p frame = Some l4 /\
    parse_header l4 = Some (mkHdr (sm_src_port meta) (sm_dst_port meta) (sm_seq meta)
      (sm_ack meta) (sm_flags meta) (sm_window meta) (20 + zlen options)) /\
    slice 20 (zlen options) l4 = options /\ zdrop (20 + zlen options) l4 = payload.
Proof.
  intros Hm Ho Hour Hdst Hlen Hacc. cbv zeta.
  set (seg := tcp_header meta (zlen options) (20 + zlen options + zlen payload) ++ options ++ payload).
  pose proof (zlen_nonneg options). pose proof (zlen_nonneg payload).
  assert (zlen seg = 20 + zlen options + zlen payload) as Hseg
    by (unfold seg; rewrite !zlen_app, zlen_tcp_header; lia).
  assert (slice 20 (zlen options) seg = options) as Hopt by by apply slice_middle.
  assert (zdrop (20 + zlen options) seg = payload) as Hpay.
  { unfold seg. rewrite app_assoc. unfold zdrop.
    replace (Z.to_nat (20 + zlen options)) with
      (length (tcp_header meta (zlen options) (20 + zlen options + zlen payload) ++ options)).
    - apply drop_app_length.
    - rewrite length_app. unfold zlen.
      change (length (tcp_header _ _ _)) with 20%nat. lia. }
  pose proof (parse_tcp_header meta options payload (20 + zlen options + zlen payload) Hm Ho) as Hp.
  pose proof Hm as (Hl & Hd & Hf & _). unfold fill_tcp_frame_headers.
  change TCP_HDR_LEN with 20. fold seg. change IPV4_HDR_LEN with 20.
  destruct (sm_local_ip meta) as [s|s], (sm_dst_ip meta) as [d|d]; try done.
  - rewrite w16_small by int_lia. rewrite <-Hseg, <-!app_assoc.
    destruct (classify_ipv4_frame cfg acc dst_mac our_mac s d PROTO_TCP ip_id seg pad)
      as (p & ? & ? & ? & ? & ?); try done; try lia.
    exists p, seg. by split_and!.
  - destruct Hl as [Hl _], Hd as [Hd _]. rewrite w16_small by int_lia.
    rewrite <-Hseg, <-!app_assoc.
    destruct (classify_ipv6_frame cfg acc dst_mac our_mac s d PROTO_TCP 64 seg pad)
      as (p & ? & ? & ? & ? & ?); try done; try lia.
    exists p, seg. by split_and!.
Qed.

Lemma tcp_frame_roundtrip_witness :
  let meta := mkMeta (V4 (ipv4_from 10 0 0 2)) (V4 (ipv4_from 10 0 0 1)) 80 50000
    1000 2000 24 16383 in
  let frame := fill_tcp_frame_headers (mkMac [2; 0; 0; 0; 0; 1]) meta MAC_BROADCAST 7
    [1; 1; 1; 1] [104; 105] ++ [0; 0] in
  exists p l4,
    Classify.classify (mkNetConfig 0 0 0 0) (fun _ => false) frame = Classify.Ip p /\
    l3_proto p = PROTO_TCP /\ l3_src p = sm_local_ip meta /\ l3_dst p = sm_dst_ip meta /\
    ParsedL3_l4 p frame = Some l4 /\
    parse_header l4 = Some (mkHdr 80 50000 1000 2000 24 16383 24) /\
    slice 20 4 l4 = [1; 1; 1; 1] /\ zdrop 24 l4 = [104; 105].
Proof.
  apply (tcp_frame_roundtrip (mkNetConfig 0 0 0 0) (fun _ => false) (mkMac [2; 0; 0; 0; 0; 1])
    MAC_BROADCAST 7 (mkMeta (V4 (ipv4_from 10 0 0 2)) (V4 (ipv4_from 10 0 0 1)) 80 50000
      1000 2000 24 16383) [1; 1; 1; 1] [104; 105] [0; 0]).
  - repeat split; vm_compute; congruence.
  - split; [reflexivity|vm_compute; congruence].
  - split; [reflexivity|]. repeat constructor; vm_compute; congruence.
  - split; [reflexivity|]. repeat constructor; vm_compute; congruence.
  - vm_compute. congruence.
  - reflexivity.
Defined.
