(* ===== verification/SeqNum.v ===== *)
(** * Sequence numbers (crates/net/tcp/src/state.rs, [seq_lt])

    The 32-bit wrap-around comparison against the order of the unbounded stream
    positions the 32-bit numbers stand for.  Every component states its
    invariants on absolute positions and comes here to compare them. *)

From S2P Require Import Prelude.
From S2P Require Import TcpTypes.

Lemma seq_lt_abs a b :
  - 2147483648 <= a - b < 2147483648 -> seq_lt (w32 a) (w32 b) = (a <? b).
Proof.
  intros H. unfold seq_lt. rewrite w32_sub_l, w32_sub_r, i32_w32 by done.
  destruct (a - b <? 0) eqn:E1, (a <? b) eqn:E2; bool_to_prop; (done || lia).
Qed.

Lemma seq_lt_self a : seq_lt a a = false.
Proof. unfold seq_lt. by rewrite Z.sub_diag. Qed.

Lemma w32_diff a b d : a = b + d -> is_u32 d -> w32 (w32 a - w32 b) = d.
Proof. intros. by apply w32_sub_cancel. Qed.

Lemma w32_inj a b : w32 a = w32 b -> Z.abs (a - b) < 4294967296 -> a = b.
Proof. int_lia. Qed.

(** The absolute position of a sequence number relative to a base. *)
Lemma w32_rebase R s : is_u32 s -> w32 (R + w32 (s - w32 R)) = s.
Proof. intros. rewrite w32_add_r. int_lia. Qed.

(** Within any window shorter than 2^31, [seq_lt] orders 32-bit sequence
    numbers as the absolute positions they stand for, across wrap-around; it is
    a strict total order there. *)
Theorem seq_lt_window_order base a b :
  base <= a < base + 2147483648 -> base <= b < base + 2147483648 ->
  (seq_lt (w32 a) (w32 b) = true <-> a < b) /\
  (w32 a = w32 b <-> a = b) /\
  (seq_lt (w32 a) (w32 b) = false /\ seq_lt (w32 b) (w32 a) = false <-> a = b).
Proof.
  intros Ha Hb. rewrite !seq_lt_abs by lia. rewrite Z.ltb_lt, !Z.ltb_ge.
  split; [lia|]. split; [|lia]. split; [|by intros ->]. intros H. apply w32_inj in H; lia.
Qed.

Lemma seq_lt_window_order_witness :
  (seq_lt (w32 4294967290) (w32 4294967306) = true <-> 4294967290 < 4294967306) /\
  (w32 4294967290 = w32 4294967306 <-> 4294967290 = 4294967306) /\
  (seq_lt (w32 4294967290) (w32 4294967306) = false /\
   seq_lt (w32 4294967306) (w32 4294967290) = false <-> 4294967290 = 4294967306).
Proof. apply (seq_lt_window_order 4294967290); lia. Defined.
