(* ===== verification/RxRing.v ===== *)
(** * Receive ring (crates/net/tcp/src/state.rs)

    The per-connection byte ring: lazy allocation, free space, push of an
    in-order payload, pop by the application with the window-update that
    follows it.  [ring_view] is the queue of bytes the ring holds; push and pop
    refine the operations of that queue. *)

From S2P Require Import Prelude.
From S2P Require Import NetTypes.
From S2P Require Import TcpTypes.
From S2P Require Import TcpSend.

#[local] Open Scope st_scope.

(* ------------------------------------------------------------------ *)
(** ** Operations *)

Definition ensure_rx_ring : St CS bool :=
  ring <- getc rx_ring;;
  match ring with
  | Some _ => sret true
  | None =>
      ok <- on_ctx try_reserve;;
      if ok : bool then
        setc (set_rx_ring (Some (replicate (Z.to_nat RX_RING_BYTES) 0)));; sret true
      else sret false
  end.

Definition rx_free (c : TcpConnection) : Z := sat_sub (RX_RING_BYTES - 1) (rx_used c).

(** [ring[off..off + src.len()].copy_from_slice(src)]. *)
Definition splice (off : Z) (src ring : list Z) : list Z :=
  ztake off ring ++ src ++ zdrop (off + zlen src) ring.

(** The bytes absorbed, and the connection after. *)
Definition rx_ring_push (payload : list Z) : St TcpConnection Z := fun c =>
  if zlen payload =? 0 then (0, c)
  else
    let free := rx_free c in
    if free =? 0 then (0, c)
    else
      let n := Z.min (zlen payload) free in
      match rx_ring c with
      | None => (0, c)
      | Some ring =>
          let tail := rx_tail c in
          let ring :=
            if tail + n <=? RX_RING_BYTES then splice tail (ztake n payload) ring
            else
              let first := RX_RING_BYTES - tail in
              splice 0 (slice first (n - first) payload)
                (splice tail (ztake first payload) ring) in
          (n, c |> set_rx_ring (Some ring)
                |> set_rx_tail (w16 ((tail + n) mod RX_RING_BYTES))
                |> set_rx_used (w16 (rx_used c + w16 n)))
      end.

Definition deliver_payload (payload : list Z) : St TcpConnection Z := rx_ring_push payload.

(** A connection-only method inside a program with the environment. *)
Definition on_conn {A} (m : St TcpConnection A) : St CS A :=
  fun s => let (a, c) := m (fst s) in (a, (c, snd s)).

Lemma exec_on_conn {A} (m : St TcpConnection A) s :
  exec (on_conn m) s = (exec m (fst s), snd s).
Proof. unfold exec, on_conn. by destruct (m (fst s)). Qed.

Lemma eval_on_conn {A} (m : St TcpConnection A) s : eval (on_conn m) s = eval m (fst s).
Proof. unfold eval, on_conn. by destruct (m (fst s)). Qed.

#[export] Hint Rewrite @exec_on_conn @eval_on_conn : st.

(** The metadata of a segment of the connection, the shape every method
    fills in. *)
Definition conn_meta (c : TcpConnection) (seq flags window : Z) : SegmentMeta :=
  mkMeta (local_ip c) (remote_ip c) (local_port c) (remote_port c) seq (rcv_nxt c)
    flags window.

Definition maybe_send_window_update : St CS unit :=
  c <- getc id;;
  if negb (state_eqb (state c) Established) then sret tt
  else
    let mss := w16 (mss_for (local_ip c)) in
    let free := w16 (rx_free c) in
    if (rcv_wnd c <? mss) && (mss <=? free) then
      setc (set_rcv_wnd free);;
      on_ctx (send_segment (conn_meta c (snd_nxt c) TCP_ACK free) [])
    else sret tt.

(** The bytes copied out, at most [out_len]. *)
Definition rx_pop (out_len : Z) : St CS (list Z) :=
  c <- getc id;;
  if (out_len =? 0) || (rx_used c =? 0) then sret []
  else
    match rx_ring c with
    | None => sret []
    | Some ring =>
        let take := Z.min out_len (rx_used c) in
        let head := rx_head c in
        let bytes :=
          if head + take <=? RX_RING_BYTES then slice head take ring
          else
            let first := RX_RING_BYTES - head in
            zdrop head ring ++ ztake (take - first) ring in
        setc (fun c => c |> set_rx_head (w16 ((head + take) mod RX_RING_BYTES))
                         |> set_rx_used (w16 (rx_used c - w16 take)));;
        maybe_send_window_update;;
        sret bytes
    end.

(* ------------------------------------------------------------------ *)
(** ** The queue the ring holds *)

Definition ring_bytes (ring : list Z) (head used : Z) : list Z :=
  (fun i => byte_at ring ((head + Z.of_nat i) mod RX_RING_BYTES)) <$> seq 0 (Z.to_nat used).

Definition ring_view (c : TcpConnection) : list Z :=
  match rx_ring c with
  | Some ring => ring_bytes ring (rx_head c) (rx_used c)
  | None => []
  end.

Definition ring_ok (c : TcpConnection) : Prop :=
  match rx_ring c with
  | Some ring => zlen ring = RX_RING_BYTES
  | None => rx_used c = 0
  end /\
  0 <= rx_head c < RX_RING_BYTES /\ 0 <= rx_used c < RX_RING_BYTES /\
  rx_tail c = (rx_head c + rx_used c) mod RX_RING_BYTES.

(* ------------------------------------------------------------------ *)
(** ** Byte-level lemmas *)

Lemma byte_at_app_l (a b : list Z) i : 0 <= i < zlen a -> byte_at (a ++ b) i = byte_at a i.
Proof. unfold byte_at, zlen. intros. rewrite app_nth1 by lia. done. Qed.

Lemma byte_at_app_r (a b : list Z) i : zlen a <= i -> byte_at (a ++ b) i = byte_at b (i - zlen a).
Proof.
  unfold byte_at, zlen. intros. rewrite app_nth2 by lia. f_equal. lia.
Qed.


Lemma byte_at_lookup (l : list Z) i : byte_at l i = default 0 (l !! Z.to_nat i).
Proof. unfold byte_at. by rewrite nth_lookup. Qed.

Lemma byte_at_ztake (l : list Z) n i : 0 <= i < n -> byte_at (ztake n l) i = byte_at l i.
Proof. intros. rewrite !byte_at_lookup. unfold ztake. rewrite lookup_take_lt by lia. done. Qed.

Lemma byte_at_zdrop (l : list Z) n i : 0 <= n -> 0 <= i -> byte_at (zdrop n l) i = byte_at l (n + i).
Proof.
  intros. rewrite !byte_at_lookup. unfold zdrop. rewrite lookup_drop.
  by replace (Z.to_nat n + Z.to_nat i)%nat with (Z.to_nat (n + i)) by lia.
Qed.

Lemma byte_at_slice (l : list Z) off n i :
  0 <= off -> 0 <= i < n -> byte_at (slice off n l) i = byte_at l (off + i).
Proof. intros. unfold slice. rewrite byte_at_ztake, byte_at_zdrop by lia. done. Qed.

Lemma list_eq_bytes (a b : list Z) :
  zlen a = zlen b -> (forall i, 0 <= i < zlen a -> byte_at a i = byte_at b i) -> a = b.
Proof.
  intros Hl Hi. unfold zlen in *. apply (nth_ext a b 0 0); [lia|]. intros n Hn.
  specialize (Hi (Z.of_nat n)). unfold byte_at in Hi. rewrite !Nat2Z.id in Hi. apply Hi. lia.
Qed.

Lemma byte_at_splice off src ring j :
  0 <= off -> off + zlen src <= zlen ring -> 0 <= j ->
  byte_at (splice off src ring) j =
    if (off <=? j) && (j <? off + zlen src) then byte_at src (j - off) else byte_at ring j.
Proof.
  intros Ho Hl Hj. pose proof (zlen_nonneg src). unfold splice.
  assert (zlen (ztake off ring) = off) as Ht by (rewrite zlen_ztake; lia).
  destruct (off <=? j) eqn:E1; bool_to_prop; simpl.
  - rewrite byte_at_app_r, Ht by lia. destruct (j <? off + zlen src) eqn:E2; bool_to_prop.
    + by rewrite byte_at_app_l by lia.
    + rewrite byte_at_app_r, byte_at_zdrop by lia. f_equal. lia.
  - by rewrite byte_at_app_l, byte_at_ztake by lia.
Qed.

Lemma zlen_splice off src ring :
  0 <= off -> off + zlen src <= zlen ring -> zlen (splice off src ring) = zlen ring.
Proof.
  intros. pose proof (zlen_nonneg src). unfold splice.
  rewrite !zlen_app, zlen_ztake, zlen_zdrop by lia. lia.
Qed.

Lemma zlen_ring_bytes ring head used : 0 <= used -> zlen (ring_bytes ring head used) = used.
Proof. intros. unfold ring_bytes, zlen. rewrite length_fmap, length_seq. lia. Qed.

Lemma byte_at_ring_bytes ring head used i :
  0 <= i < used -> byte_at (ring_bytes ring head used) i = byte_at ring ((head + i) mod RX_RING_BYTES).
Proof.
  intros. rewrite byte_at_lookup. unfold ring_bytes. rewrite list_lookup_fmap.
  rewrite lookup_seq_lt by lia. simpl. by rewrite Z2Nat.id by lia.
Qed.

(* ------------------------------------------------------------------ *)
(** ** Push and pop refine the queue *)

Lemma rx_free_spec c : 0 <= rx_used c < RX_RING_BYTES -> rx_free c = RX_RING_BYTES - 1 - rx_used c.
Proof. intros. unfold rx_free, sat_sub. lia. Qed.

(** Writing [n] bytes of [payload] round the ring from [tail]. *)
Definition ring_write (ring payload : list Z) (tail n : Z) : list Z :=
  if tail + n <=? RX_RING_BYTES then splice tail (ztake n payload) ring
  else
    let first := RX_RING_BYTES - tail in
    splice 0 (slice first (n - first) payload) (splice tail (ztake first payload) ring).

Lemma zlen_ring_write ring payload tail n :
  zlen ring = RX_RING_BYTES -> 0 <= tail < RX_RING_BYTES -> 0 <= n < RX_RING_BYTES ->
  n <= zlen payload -> zlen (ring_write ring payload tail n) = RX_RING_BYTES.
Proof.
  intros Hr Ht Hn Hp. unfold ring_write, RX_RING_BYTES in *.
  destruct (_ <=? _) eqn:E; bool_to_prop.
  - rewrite zlen_splice; rewrite ?zlen_ztake; lia.
  - unfold slice. rewrite !zlen_splice; rewrite ?zlen_ztake, ?zlen_zdrop, ?zlen_splice;
      rewrite ?zlen_ztake; lia.
Qed.

(** Position [j] of the ring holds payload byte [(j - tail) mod size] if that
    is below [n], and its old byte otherwise. *)
Lemma byte_at_ring_write ring payload tail n j :
  zlen ring = RX_RING_BYTES -> 0 <= tail < RX_RING_BYTES -> 0 <= n < RX_RING_BYTES ->
  n <= zlen payload -> 0 <= j < RX_RING_BYTES ->
  byte_at (ring_write ring payload tail n) j =
    if (j - tail) mod RX_RING_BYTES <? n then byte_at payload ((j - tail) mod RX_RING_BYTES)
    else byte_at ring j.
Proof.
  intros Hr Ht Hn Hp Hj.
  assert ((j - tail) mod RX_RING_BYTES = if tail <=? j then j - tail else j - tail + RX_RING_BYTES) as ->.
  { unfold RX_RING_BYTES in *. destruct (tail <=? j) eqn:E; bool_to_prop; int_lia. }
  unfold ring_write, RX_RING_BYTES in *.
  destruct (tail + n <=? 16384) eqn:E; bool_to_prop.
  - rewrite byte_at_splice; rewrite ?zlen_ztake by lia; try lia.
    destruct (tail <=? j) eqn:E1, (j <? _) eqn:E2, (_ <? n) eqn:E3; bool_to_prop; simpl;
      try lia; try done. by rewrite byte_at_ztake by lia.
  - assert (zlen (slice (16384 - tail) (n - (16384 - tail)) payload) = n - (16384 - tail)) as Hs
      by (unfold slice; rewrite zlen_ztake, zlen_zdrop by lia; lia).
    assert (zlen (ztake (16384 - tail) payload) = 16384 - tail) as Hf
      by (rewrite zlen_ztake by lia; lia).
    cbv zeta. rewrite byte_at_splice; rewrite ?Hs, ?zlen_splice; rewrite ?Hf; try lia.
    rewrite byte_at_splice; rewrite ?Hf; try lia.
    destruct (0 <=? j) eqn:E0, (j <? 0 + _) eqn:E1, (tail <=? j) eqn:E2, (j <? tail + _) eqn:E3,
      (_ <? n) eqn:E4; bool_to_prop; simpl; try lia; try done.
    + rewrite byte_at_slice by lia. f_equal. lia.
    + by rewrite byte_at_ztake by lia.
Qed.

(** [c'] differs from [c] at most in the ring and its cursors. *)
Definition ring_frame (c c' : TcpConnection) : Prop :=
  c' = c |> set_rx_ring (rx_ring c') |> set_rx_head (rx_head c')
         |> set_rx_tail (rx_tail c') |> set_rx_used (rx_used c').

Lemma ring_frame_refl c : ring_frame c c.
Proof. by destruct c. Qed.

Lemma ring_frame_trans c1 c2 c3 : ring_frame c1 c2 -> ring_frame c2 c3 -> ring_frame c1 c3.
Proof. unfold ring_frame. intros H1 H2. rewrite H2 at 1. by rewrite H1. Qed.

Lemma rx_push_spec payload c :
  ring_ok c -> rx_ring c <> None ->
  let n := Z.min (zlen payload) (rx_free c) in
  let r := rx_ring_push payload c in
  fst r = n /\ ring_ok (snd r) /\ rx_ring (snd r) <> None /\
  ring_view (snd r) = ring_view c ++ ztake n payload /\ ring_frame c (snd r).
Proof.
  intros Hok Hr n r. pose proof Hok as (Hlen & Hh & Hu & Ht).
  pose proof (rx_free_spec c Hu) as Hfree. pose proof (zlen_nonneg payload) as Hpos.
  assert (n = 0 -> r = (0, c) -> fst r = n /\ ring_ok (snd r) /\ rx_ring (snd r) <> None /\
    ring_view (snd r) = ring_view c ++ ztake n payload /\ ring_frame c (snd r)) as Hnop.
  { intros -> ->. unfold ztake. simpl. rewrite app_nil_r. auto using ring_frame_refl. }
  subst r. unfold rx_ring_push in *.
  destruct (zlen payload =? 0) eqn:E0; bool_to_prop; [apply Hnop; [lia|done]|].
  destruct (rx_free c =? 0) eqn:E1; bool_to_prop; [apply Hnop; [lia|done]|].
  destruct (rx_ring c) as [ring|] eqn:Er; [|done]. clear Hnop.
  assert (0 < n < RX_RING_BYTES /\ n <= zlen payload /\ rx_used c + n < RX_RING_BYTES)
    as (Hn & Hnp & Hun) by lia.
  fold n. fold (ring_write ring payload (rx_tail c) n).
  assert (0 <= rx_tail c < RX_RING_BYTES) as Htl by (rewrite Ht; apply Z.mod_pos_bound; done).
  assert (w16 (rx_used c + w16 n) = rx_used c + n) as Hw
    by (rewrite (w16_small n) by (unfold RX_RING_BYTES in *; int_lia);
        apply w16_small; unfold RX_RING_BYTES in *; int_lia).
  assert (w16 ((rx_tail c + n) mod RX_RING_BYTES) = (rx_head c + (rx_used c + n)) mod RX_RING_BYTES) as Hw2.
  { rewrite w16_small.
    - rewrite Ht, Z.add_mod_idemp_l by done. f_equal. lia.
    - pose proof (Z.mod_pos_bound (rx_tail c + n) RX_RING_BYTES ltac:(done)).
      unfold RX_RING_BYTES in *. int_lia. }
  simpl. split; [done|]. split; [|split; [done|split; [|done]]].
  - unfold ring_ok. simpl. rewrite Hw, Hw2, zlen_ring_write by (done || lia).
    repeat split; lia.
  - unfold ring_view. simpl. rewrite Er, Hw.
    apply list_eq_bytes.
    { rewrite zlen_app, !zlen_ring_bytes, zlen_ztake by lia. lia. }
    rewrite zlen_ring_bytes by lia. intros i Hi.
    rewrite byte_at_ring_bytes by lia.
    rewrite byte_at_ring_write by (done || lia || (apply Z.mod_pos_bound; done)).
    assert (((rx_head c + i) mod RX_RING_BYTES - rx_tail c) mod RX_RING_BYTES =
      (i - rx_used c) mod RX_RING_BYTES) as ->.
    { rewrite Ht, Zminus_mod_idemp_l, Zminus_mod_idemp_r. f_equal. lia. }
    destruct (Z_lt_le_dec i (rx_used c)) as [Hlt|Hge].
    + rewrite byte_at_app_l by (rewrite zlen_ring_bytes; lia).
      rewrite byte_at_ring_bytes by lia.
      replace ((i - rx_used c) mod RX_RING_BYTES) with (i - rx_used c + RX_RING_BYTES)
        by (unfold RX_RING_BYTES in *; int_lia).
      destruct (_ <? n) eqn:E; bool_to_prop; [lia|done].
    + rewrite (Z.mod_small (i - rx_used c)) by lia.
      destruct (_ <? n) eqn:E; bool_to_prop; [|lia].
      rewrite byte_at_app_r, zlen_ring_bytes by (rewrite ?zlen_ring_bytes; lia).
      by rewrite byte_at_ztake by lia.
Qed.

(** The connection after [maybe_send_window_update]. *)
Definition window_updated (c : TcpConnection) : TcpConnection :=
  if state_eqb (state c) Established && (rcv_wnd c <? w16 (mss_for (local_ip c))) &&
     (w16 (mss_for (local_ip c)) <=? w16 (rx_free c))
  then set_rcv_wnd (w16 (rx_free c)) c else c.

Lemma window_update_conn s :
  fst (exec maybe_send_window_update s) = window_updated (fst s).
Proof.
  unfold maybe_send_window_update, window_updated. st_simpl. unfold id.
  destruct (state_eqb _ _); simpl; [|done].
  destruct (_ && _); st_simpl; done.
Qed.

(** The cursors after [take] bytes are read. *)
Definition ring_popped (take : Z) (c : TcpConnection) : TcpConnection :=
  c |> set_rx_head (w16 ((rx_head c + take) mod RX_RING_BYTES))
    |> set_rx_used (w16 (rx_used c - w16 take)).

Lemma ring_popped_spec take c :
  ring_ok c -> 0 <= take <= rx_used c ->
  ring_ok (ring_popped take c) /\ ring_view (ring_popped take c) = zdrop take (ring_view c) /\
  ring_frame c (ring_popped take c).
Proof.
  intros (Hlen & Hh & Hu & Ht) Htake. pose proof (Z.mod_pos_bound (rx_head c + take) RX_RING_BYTES ltac:(done)).
  assert (w16 (rx_used c - w16 take) = rx_used c - take) as Hw.
  { unfold RX_RING_BYTES in *. rewrite (w16_small take), w16_small; int_lia. }
  assert (w16 ((rx_head c + take) mod RX_RING_BYTES) = (rx_head c + take) mod RX_RING_BYTES) as Hw2.
  { apply w16_small. unfold RX_RING_BYTES in *. int_lia. }
  split; [|split; [|done]].
  - unfold ring_ok, ring_popped. simpl. rewrite Hw, Hw2.
    repeat split; try lia.
    + destruct (rx_ring c); [done|]. lia.
    + rewrite Ht, Z.add_mod_idemp_l by done. f_equal. lia.
  - unfold ring_view, ring_popped. simpl. rewrite Hw, Hw2.
    destruct (rx_ring c) as [ring|]; [|by unfold zdrop; rewrite drop_nil].
    apply list_eq_bytes.
    { rewrite zlen_zdrop, !zlen_ring_bytes by lia. lia. }
    rewrite zlen_ring_bytes by lia. intros i Hi.
    rewrite byte_at_zdrop, !byte_at_ring_bytes, Z.add_mod_idemp_l by lia. f_equal. f_equal. lia.
Qed.

(** The two-piece copy out of the ring is a prefix of the queue. *)
Lemma ring_read_prefix ring head used take :
  zlen ring = RX_RING_BYTES -> 0 <= head < RX_RING_BYTES -> 0 < take <= used ->
  used < RX_RING_BYTES ->
  (if head + take <=? RX_RING_BYTES then slice head take ring
   else zdrop head ring ++ ztake (take - (RX_RING_BYTES - head)) ring) =
  ztake take (ring_bytes ring head used).
Proof.
  intros Hr Hh Ht Hu. apply list_eq_bytes.
  - rewrite zlen_ztake, zlen_ring_bytes by lia. unfold slice.
    destruct (_ <=? _) eqn:E; bool_to_prop;
      rewrite ?zlen_app, ?zlen_ztake, ?zlen_zdrop by lia; lia.
  - intros i Hi.
    assert (0 <= i < take) as Hit.
    { unfold slice in Hi. destruct (_ <=? _) eqn:E; bool_to_prop;
        rewrite ?zlen_app, ?zlen_ztake, ?zlen_zdrop in Hi by lia; lia. }
    rewrite byte_at_ztake, byte_at_ring_bytes by lia.
    destruct (_ <=? _) eqn:E; bool_to_prop.
    + rewrite byte_at_slice by lia. f_equal. rewrite Z.mod_small; lia.
    + destruct (Z_lt_le_dec (head + i) RX_RING_BYTES).
      * rewrite byte_at_app_l by (rewrite zlen_zdrop; lia).
        rewrite byte_at_zdrop, Z.mod_small by lia. done.
      * rewrite byte_at_app_r, zlen_zdrop, byte_at_ztake by (rewrite ?zlen_zdrop; lia).
        f_equal. unfold RX_RING_BYTES in *. int_lia.
Qed.

Lemma zlen_ring_view c : ring_ok c -> zlen (ring_view c) = rx_used c.
Proof.
  intros (Hlen & _ & Hu & _). unfold ring_view. destruct (rx_ring c).
  - apply zlen_ring_bytes. lia.
  - rewrite zlen_nil. lia.
Qed.

(** [rx_pop] hands out a prefix of the queue and removes it. *)
Lemma rx_pop_spec out_len s :
  ring_ok (fst s) -> 0 <= out_len ->
  let c := fst s in
  let take := Z.min out_len (rx_used c) in
  eval (rx_pop out_len) s = ztake take (ring_view c) /\
  fst (exec (rx_pop out_len) s) =
    if take =? 0 then c else window_updated (ring_popped take c).
Proof.
  destruct s as [c x]. intros Hok Ho. cbn [fst] in *. pose proof Hok as (Hlen & Hh & Hu & Ht).
  unfold rx_pop. st_simpl. unfold id.
  destruct (_ || _) eqn:E0.
  { replace (Z.min out_len (rx_used c)) with 0
      by (apply orb_true_iff in E0 as [?|?]; bool_to_prop; lia). done. }
  bool_to_prop. unfold ring_view.
  destruct (rx_ring c) as [ring|] eqn:Er; [|lia]. st_simpl.
  rewrite (ring_read_prefix _ _ (rx_used c)), window_update_conn by lia. cbn [fst].
  split; [done|]. destruct (_ =? _) eqn:E; bool_to_prop; [lia|done].
Qed.

Lemma window_updated_ring c :
  (ring_ok (window_updated c) <-> ring_ok c) /\ ring_view (window_updated c) = ring_view c /\
  rx_ring (window_updated c) = rx_ring c.
Proof. unfold window_updated. by destruct (_ && _). Qed.

(** Any interleaving of deliveries and reads. *)
Inductive ring_op := RPush (payload : list Z) | RPop (out_len : Z).

Definition ring_step (op : ring_op) : St CS (list Z) :=
  match op with
  | RPush payload => on_conn (deliver_payload payload);; sret []
  | RPop n => rx_pop n
  end.

(** The bytes read, in order. *)
Fixpoint ring_run (ops : list ring_op) : St CS (list Z) :=
  match ops with
  | [] => sret []
  | op :: ops => a <- ring_step op;; b <- ring_run ops;; sret (a ++ b)
  end.

(** The abstract queue of at most [RX_RING_BYTES - 1] bytes. *)
Definition queue_step (op : ring_op) (q : list Z) : list Z * list Z :=
  match op with
  | RPush payload => ([], q ++ ztake (RX_RING_BYTES - 1 - zlen q) payload)
  | RPop n => (ztake n q, zdrop n q)
  end.

Fixpoint queue_run (ops : list ring_op) (q : list Z) : list Z * list Z :=
  match ops with
  | [] => ([], q)
  | op :: ops =>
      let (a, q) := queue_step op q in
      let (b, q) := queue_run ops q in (a ++ b, q)
  end.

Definition ring_op_ok (op : ring_op) : Prop :=
  match op with RPush _ => True | RPop n => 0 <= n end.

Lemma ztake_min {A} n (l : list A) : ztake (Z.min n (zlen l)) l = ztake n l.
Proof.
  destruct (Z_le_gt_dec n (zlen l)); [by rewrite Z.min_l|].
  rewrite Z.min_r, !ztake_ge by lia. done.
Qed.

Lemma zdrop_min {A} n (l : list A) : zdrop (Z.min n (zlen l)) l = zdrop n l.
Proof.
  unfold zdrop, zlen. destruct (Z_le_gt_dec n (Z.of_nat (length l))); [by rewrite Z.min_l|].
  rewrite Z.min_r, !drop_ge by lia. done.
Qed.

Lemma ring_step_refines op s :
  ring_ok (fst s) -> rx_ring (fst s) <> None -> ring_op_ok op ->
  let s' := exec (ring_step op) s in
  ring_ok (fst s') /\ rx_ring (fst s') <> None /\
  queue_step op (ring_view (fst s)) = (eval (ring_step op) s, ring_view (fst s')).
Proof.
  intros Hok Hr Hop. pose proof (zlen_ring_view _ Hok) as Hl. pose proof Hok as (_ & _ & Hu & _).
  destruct op as [payload|n]; simpl in *.
  - st_simpl. destruct (rx_push_spec payload (fst s) Hok Hr) as (_ & H1 & H2 & H3 & _).
    unfold deliver_payload, exec. split; [done|]. split; [done|]. rewrite H3.
    by rewrite Z.min_comm, ztake_min, rx_free_spec, Hl.
  - destruct (rx_pop_spec n s Hok Hop) as [-> ->]. rewrite <-Hl, ztake_min.
    destruct (_ =? 0) eqn:E; bool_to_prop.
    + split; [done|]. split; [done|]. by rewrite <-(zdrop_min n), E.
    + destruct (ring_popped_spec (Z.min n (zlen (ring_view (fst s)))) (fst s)) as (H1 & H2 & H3);
        [done|lia|].
      destruct (window_updated_ring (ring_popped (Z.min n (zlen (ring_view (fst s)))) (fst s)))
        as (Hw1 & Hw2 & Hw3).
      split; [by apply Hw1|]. split; [by rewrite Hw3|].
      by rewrite Hw2, H2, zdrop_min.
Qed.

(** C20: The receive ring is a bounded FIFO.  Through any interleaving of
    segment deliveries and application reads the circular buffer behaves as
    the abstract byte queue of capacity 16383: a read returns the oldest bytes,
    a delivery appends the longest prefix that fits, nothing is reordered,
    duplicated or lost across the wrap-around, and the cursors stay
    consistent. *)
Theorem rx_ring_refines_queue ops s :
  ring_ok (fst s) -> rx_ring (fst s) <> None -> Forall ring_op_ok ops ->
  queue_run ops (ring_view (fst s)) = (eval (ring_run ops) s, ring_view (fst (exec (ring_run ops) s))) /\
  ring_ok (fst (exec (ring_run ops) s)).
Proof.
  revert s. induction ops as [|op ops IH]; intros s Hok Hr Hops; [done|].
  apply Forall_cons in Hops as [Hop Hops]. simpl.
  destruct (ring_step_refines op s Hok Hr Hop) as (H1 & H2 & ->).
  destruct (IH _ H1 H2 Hops) as [-> H3]. st_simpl. done.
Qed.

(** An environment in which every resource is granted. *)
Definition idle_ctx : Ctx :=
  mkCtx 0 [] [] [] NULL_SLOT [] [] 1 (mkMac [2; 0; 0; 0; 0; 1]) (fun _ => Some (mkMac [2; 0; 0; 0; 0; 2]))
    true [] true [] 16384.

Definition wrapped_conn : TcpConnection :=
  new_conn |> set_rx_ring (Some (replicate (Z.to_nat RX_RING_BYTES) 0)) |> set_rx_head 16382 |> set_rx_tail 16382.

Lemma rx_ring_refines_queue_witness :
  queue_run [RPush [1; 2; 3; 4]; RPop 3; RPush [5]; RPop 9] (ring_view wrapped_conn) =
    ([1; 2; 3; 4; 5], []) /\
  ring_ok (fst (exec (ring_run [RPush [1; 2; 3; 4]; RPop 3; RPush [5]; RPop 9])
    (wrapped_conn, idle_ctx))).
Proof.
  destruct (rx_ring_refines_queue [RPush [1; 2; 3; 4]; RPop 3; RPush [5]; RPop 9]
    (wrapped_conn, idle_ctx)) as [_ H].
  - repeat split; vm_compute; congruence.
  - discriminate.
  - repeat constructor; simpl; lia.
  - split; [vm_compute; reflexivity|exact H].
Defined.

(** A read reopens the window.  After a read that returned bytes on an
    established connection, whenever a full segment fits in the ring the
    peer has been told so: the advertised window is at least one MSS, and if
    the window was below one MSS before, the connection advertised the whole
    free space in an ACK (handed to [send_segment]) before returning. *)
Theorem rx_pop_reopens_window n c x :
  ring_ok c -> 0 < n -> 0 < rx_used c -> state c = Established ->
  let s' := exec (rx_pop n) (c, x) in
  let mss := mss_for (local_ip c) in
  let free := rx_free (fst s') in
  mss <= free ->
  mss <= rcv_wnd (fst s') /\
  (rcv_wnd c < mss ->
     rcv_wnd (fst s') = free /\
     snd s' = exec (send_segment (conn_meta c (snd_nxt c) TCP_ACK free) []) x) /\
  (mss <= rcv_wnd c -> s' = (ring_popped (Z.min n (rx_used c)) c, x)).
Proof.
  intros Hok Hn Hu Hst s' mss free.
  destruct (ring_popped_spec (Z.min n (rx_used c)) c) as (Hok' & _ & _); [done|lia|].
  set (c' := ring_popped (Z.min n (rx_used c)) c) in *.
  assert (s' = exec maybe_send_window_update (c', x)) as Hs'.
  { subst s'. unfold rx_pop. st_simpl. unfold id. destruct (_ || _) eqn:E.
    { apply orb_true_iff in E as [E|E]; bool_to_prop; lia. }
    destruct (rx_ring c) eqn:Er; [|destruct Hok as [Hr _]; rewrite Er in Hr; lia].
    by st_simpl. }
  assert (rx_free (fst s') = rx_free c') as Hf.
  { rewrite Hs', window_update_conn. unfold window_updated. by destruct (_ && _). }
  assert (state c' = Established) as Hst' by done.
  assert (w16 (rx_free c') = rx_free c') as Hw.
  { destruct Hok' as (_ & _ & Hu' & _). rewrite rx_free_spec by done.
    apply w16_small. unfold RX_RING_BYTES in *. int_lia. }
  assert (w16 (mss_for (local_ip c')) = mss) as Hm.
  { change (local_ip c') with (local_ip c). unfold mss. by destruct (local_ip c). }
  revert Hs'. unfold maybe_send_window_update. st_simpl. unfold id.
  rewrite Hm, Hw, Hst'. change (negb (state_eqb Established Established)) with false. cbv iota.
  change (rcv_wnd c') with (rcv_wnd c). unfold free. rewrite Hf. intros Hs' Hfree.
  destruct (mss <=? rx_free c') eqn:E1; bool_to_prop; [|lia].
  destruct (rcv_wnd c <? mss) eqn:E2; bool_to_prop; revert Hs'; cbn [andb]; st_simpl; intros ->;
    cbn [fst snd].
  - split; [done|]. split; [|lia]. intros _. done.
  - split; [done|]. split; [lia|]. done.
Qed.

Definition stalled_conn : TcpConnection :=
  new_conn |> set_state Established |> set_rx_ring (Some (replicate (Z.to_nat RX_RING_BYTES) 7))
    |> set_rx_used 16383 |> set_rx_tail 16383 |> set_rcv_wnd 0.

Lemma rx_pop_reopens_window_witness :
  rcv_wnd (fst (exec (rx_pop 2000) (stalled_conn, idle_ctx))) = 2000.
Proof.
  destruct (rx_pop_reopens_window 2000 stalled_conn idle_ctx) as (_ & H & _).
  - repeat split; vm_compute; congruence.
  - lia.
  - vm_compute; reflexivity.
  - reflexivity.
  - vm_compute. discriminate.
  - destruct H as [H _]; [vm_compute; reflexivity|]. rewrite H. vm_compute. reflexivity.
Defined.
