(* ===== verification/OooQueue.v ===== *)
(** * Out-of-order reassembly (crates/net/tcp/src/state.rs, [OooQueue])

    The bounded, sorted set of segments that arrived ahead of a gap, the SACK
    blocks it advertises, and the drain into the receive ring once the gap
    fills.  The invariant and every specification are on absolute stream
    positions; the queue itself holds their 32-bit truncations. *)

From S2P Require Import Prelude.
From S2P Require Import NetTypes.
From S2P Require Import TcpTypes.
From S2P Require Import SeqNum.
From S2P Require Import TcpSend.
From S2P Require Import RxRing.

#[local] Open Scope st_scope.

(* ------------------------------------------------------------------ *)
(** ** Operations *)

Definition ooo_is_empty (q : OooQueue) : bool := zlen (segs q) =? 0.

Definition ooo_clear (q : OooQueue) : OooQueue := mkOoo [] 0.

(** [seq.wrapping_sub(rcv_nxt) as usize]. *)
Definition seg_off (rcv_nxt : Z) (s : OooSeg) : Z := w32 (ooo_seq s - rcv_nxt).

(** The overlap test of [insert]'s loop against one buffered segment. *)
Definition seg_overlaps (rcv_nxt off end_ : Z) (s : OooSeg) : bool :=
  let s_off := seg_off rcv_nxt s in
  let s_end := s_off + zlen (ooo_bytes s) in
  (off <? s_end) && (s_off <? end_).

(** [Vec::insert] before the first segment at a larger offset. *)
Fixpoint insert_sorted (rcv_nxt off : Z) (seg : OooSeg) (l : list OooSeg) : list OooSeg :=
  match l with
  | [] => [seg]
  | s :: r =>
      if off <? seg_off rcv_nxt s then seg :: s :: r
      else s :: insert_sorted rcv_nxt off seg r
  end.

Definition ooo_insert (rcv_nxt seq : Z) (bytes : list Z) : St OooQueue bool := fun q =>
  if (zlen bytes =? 0) || (OOO_MAX_SEGS <=? zlen (segs q)) then (false, q)
  else
    let off := w32 (seq - rcv_nxt) in
    if (off =? 0) || (OOO_MAX_BYTES <=? off) then (false, q)
    else
      let avail := OOO_MAX_BYTES - off in
      let bytes := if avail <? zlen bytes then ztake avail bytes else bytes in
      let take := zlen bytes in
      let end_ := off + take in
      if existsb (seg_overlaps rcv_nxt off end_) (segs q) then (false, q)
      else if OOO_MAX_BYTES <? total_bytes q + take then (false, q)
      else
        (true, mkOoo (insert_sorted rcv_nxt off (mkOooSeg seq bytes) (segs q))
                 (total_bytes q + take)).

(** [sack_blocks] into [cap] slots; [acc] holds the blocks written, the latest
    first. *)
Fixpoint sack_blocks_acc (cap : Z) (acc : list (Z * Z)) (l : list OooSeg) : list (Z * Z) :=
  match l with
  | [] => rev acc
  | s :: r =>
      let left := ooo_seq s in
      let right := w32 (ooo_seq s + w32 (zlen (ooo_bytes s))) in
      match acc with
      | (l0, r0) :: acc' =>
          if r0 =? left then sack_blocks_acc cap ((l0, right) :: acc') r
          else if zlen acc =? cap then rev acc
          else sack_blocks_acc cap ((left, right) :: acc) r
      | [] =>
          if zlen acc =? cap then rev acc
          else sack_blocks_acc cap ((left, right) :: acc) r
      end
  end.

Definition ooo_sack_blocks (cap : Z) (q : OooQueue) : list (Z * Z) :=
  sack_blocks_acc cap [] (segs q).

(** The loop of [take_at]: the list shrinks on every iteration. *)
Fixpoint take_at_loop (rcv_nxt total : Z) (l : list OooSeg) : option OooSeg * OooQueue :=
  match l with
  | [] => (None, mkOoo [] total)
  | s :: r =>
      let rel := i32 (w32 (ooo_seq s - rcv_nxt)) in
      if 0 <? rel then (None, mkOoo l total)
      else
        let total := w64 (total - zlen (ooo_bytes s)) in
        if 0 <? i32 (w32 (rel + zlen (ooo_bytes s))) then (Some s, mkOoo r total)
        else take_at_loop rcv_nxt total r
  end.

Definition ooo_take_at (rcv_nxt : Z) : St OooQueue (option OooSeg) := fun q =>
  take_at_loop rcv_nxt (total_bytes q) (segs q).

(** The loop of [drain_ooo]: every iteration removes a segment, so one more
    than the number of buffered segments is enough fuel. *)
Fixpoint drain_loop (fuel : nat) (delivered : Z) : St TcpConnection Z := fun c =>
  match fuel with
  | O => (delivered, c)
  | S fuel' =>
      let (found, q) := ooo_take_at (rcv_nxt c) (ooo c) in
      let c := set_ooo q c in
      match found with
      | None => (delivered, c)
      | Some seg =>
          let skip := w32 (rcv_nxt c - ooo_seq seg) in
          let tail := zdrop skip (ooo_bytes seg) in
          let (pushed, c) := rx_ring_push tail c in
          let c := set_rcv_nxt (w32 (rcv_nxt c + w32 pushed)) c in
          if pushed <? zlen tail then (delivered + pushed, c)
          else drain_loop fuel' (delivered + pushed) c
      end
  end.

Definition drain_ooo : St TcpConnection Z := fun c =>
  drain_loop (S (length (segs (ooo c)))) 0 c.

(* ------------------------------------------------------------------ *)
(** ** Invariant on absolute positions *)

(** A segment by its absolute start. *)
Definition AbsSeg : Type := Z * list Z.

Definition conc (s : AbsSeg) : OooSeg := mkOooSeg (w32 (fst s)) (snd s).
#[local] Arguments conc : simpl never.

Definition seg_end (s : AbsSeg) : Z := fst s + zlen (snd s).

(** Nonempty, ascending, disjoint segments inside [[lo, hi)]. *)
Fixpoint seg_chain (lo hi : Z) (ss : list AbsSeg) : Prop :=
  match ss with
  | [] => True
  | s :: r => lo <= fst s /\ 0 < zlen (snd s) /\ seg_end s <= hi /\ seg_chain (seg_end s) hi r
  end.

Definition sum_lens (ss : list AbsSeg) : Z := foldr (fun s n => zlen (snd s) + n) 0 ss.

(** The queue [q] holds the segments [ss], all strictly ahead of the position
    [R] and inside the window above it. *)
Record ooo_ok (R : Z) (ss : list AbsSeg) (q : OooQueue) : Prop := {
  ooo_segs : segs q = conc <$> ss;
  ooo_total : total_bytes q = sum_lens ss;
  ooo_chain : seg_chain (R + 1) (R + OOO_MAX_BYTES) ss;
  ooo_count : zlen ss <= OOO_MAX_SEGS
}.

Section Chains.
Implicit Types (ss : list AbsSeg).

Lemma seg_chain_weaken lo hi lo' hi' ss :
  lo' <= lo -> hi <= hi' -> seg_chain lo hi ss -> seg_chain lo' hi' ss.
Proof.
  revert lo lo'. induction ss as [|s ss IH]; intros lo lo' Hl Hh; simpl; [done|].
  intros (H1 & H2 & H3 & H4). repeat split; try lia. by apply (IH (seg_end s)).
Qed.

Lemma seg_chain_elem lo hi ss s :
  seg_chain lo hi ss -> s ∈ ss -> lo <= fst s /\ 0 < zlen (snd s) /\ seg_end s <= hi.
Proof.
  revert lo. induction ss as [|s' ss IH]; intros lo; simpl; [by intros _ ?%not_elem_of_nil|].
  intros (H1 & H2 & H3 & H4) [->|Hin]%elem_of_cons; [done|].
  destruct (IH _ H4 Hin) as (?&?&?). unfold seg_end in *. lia.
Qed.

Lemma sum_lens_bound lo hi ss : seg_chain lo hi ss -> lo <= hi -> sum_lens ss <= hi - lo.
Proof.
  revert lo. induction ss as [|s ss IH]; intros lo; simpl; [lia|].
  intros (H1 & H2 & H3 & H4) H. specialize (IH _ H4 H3). unfold seg_end in *. lia.
Qed.

Lemma sum_lens_nonneg ss : 0 <= sum_lens ss.
Proof. induction ss as [|s ss IH]; simpl; [lia|]. pose proof (zlen_nonneg (snd s)). lia. Qed.

Lemma sum_lens_app ss1 ss2 : sum_lens (ss1 ++ ss2) = sum_lens ss1 + sum_lens ss2.
Proof. induction ss1 as [|s ss1 IH]; simpl; lia. Qed.

Lemma seg_off_conc R s :
  0 <= fst s - R < 4294967296 -> seg_off (w32 R) (conc s) = fst s - R.
Proof. intros. unfold seg_off, conc. simpl. apply w32_sub_cancel; int_lia. Qed.

(** Does [s] stay clear of [[a, e)]? *)
Definition seg_clear (a e : Z) (s : AbsSeg) : Prop := seg_end s <= a \/ e <= fst s.

Lemma existsb_overlaps_false R a e lo hi ss :
  seg_chain lo hi ss -> R <= lo -> hi <= R + OOO_MAX_BYTES ->
  existsb (seg_overlaps (w32 R) (a - R) (e - R)) (conc <$> ss) = false <->
  Forall (seg_clear a e) ss.
Proof.
  intros Hc HR Hhi. revert lo Hc HR. unfold RX_RING_BYTES in *.
  induction ss as [|s ss IH]; intros lo Hc HR; simpl; [done|].
  destruct Hc as (H1 & H2 & H3 & H4).
  assert (R <= seg_end s) as HR' by (unfold seg_end in *; lia).
  rewrite orb_false_iff, Forall_cons, (IH _ H4 HR').
  assert (seg_overlaps (w32 R) (a - R) (e - R) (conc s) = false <-> seg_clear a e s) as ->; [|done].
  unfold seg_overlaps, seg_clear. rewrite seg_off_conc by (unfold seg_end in *; lia).
  rewrite andb_false_iff, !Z.ltb_ge. unfold conc, seg_end. simpl. lia.
Qed.

Lemma insert_sorted_spec R a b lo hi ss :
  seg_chain lo hi ss -> R <= lo -> hi <= R + OOO_MAX_BYTES ->
  Forall (seg_clear a (a + zlen b)) ss ->
  lo <= a -> 0 < zlen b -> a + zlen b <= hi ->
  exists ss1 ss2, ss = ss1 ++ ss2 /\ seg_chain lo hi (ss1 ++ (a, b) :: ss2) /\
    insert_sorted (w32 R) (a - R) (conc (a, b)) (conc <$> ss) = conc <$> ss1 ++ (a, b) :: ss2.
Proof.
  unfold RX_RING_BYTES.
  intros Hc HR Hhi Hcl Hlo Hb He. revert lo Hc HR Hlo.
  induction ss as [|s ss IH]; intros lo Hc HR Hlo; csimpl.
  { exists [], []. simpl. unfold seg_end. simpl. split; [done|]. split; [lia|done]. }
  destruct Hc as (H1 & H2 & H3 & H4). apply Forall_cons in Hcl as [Hs Hcl].
  unfold seg_clear, seg_end in *. rewrite seg_off_conc by lia.
  destruct (a - R <? fst s - R) eqn:E; bool_to_prop.
  - exists [], (s :: ss). simpl. unfold seg_end. simpl.
    split; [done|]. split; [|done]. repeat split; try lia. done.
  - destruct (IH Hcl (fst s + zlen (snd s))) as (ss1 & ss2 & -> & Hc' & ->); [done|lia|lia|].
    exists (s :: ss1), ss2. split; [done|]. split; [|done].
    simpl. unfold seg_end. repeat split; (lia || done).
Qed.

End Chains.

(** The window-clamped segment [insert] would buffer. *)
Definition clamped (R seq : Z) (bytes : list Z) : AbsSeg :=
  let off := w32 (seq - w32 R) in (R + off, ztake (OOO_MAX_BYTES - off) bytes).

(** [insert] accepts exactly the segments that start in the window above
    [rcv_nxt], touch no buffered byte and leave room in the segment cap; the
    byte cap never binds.  An accepted segment is buffered whole up to the
    window's edge, and a rejected one leaves the queue alone. *)
Lemma ooo_insert_spec R ss q seq bytes :
  ooo_ok R ss q -> is_u32 seq ->
  let off := w32 (seq - w32 R) in
  let new := clamped R seq bytes in
  let accepts := bytes <> [] /\ zlen ss < OOO_MAX_SEGS /\ 0 < off < OOO_MAX_BYTES /\
    Forall (seg_clear (fst new) (seg_end new)) ss in
  let r := ooo_insert (w32 R) seq bytes q in
  (accepts /\ fst r = true /\
     exists ss1 ss2, ss = ss1 ++ ss2 /\ ooo_ok R (ss1 ++ new :: ss2) (snd r)) \/
  (~ accepts /\ r = (false, q)).
Proof.
  intros [Hsegs Htot Hch Hcnt] Hseq off new accepts r. unfold ooo_insert in r.
  assert (zlen (segs q) = zlen ss) as Hl by (rewrite Hsegs; unfold zlen; by rewrite length_fmap).
  subst r. rewrite Hl. fold off. pose proof (zlen_nonneg bytes) as Hb0.
  destruct ((zlen bytes =? 0) || (OOO_MAX_SEGS <=? zlen ss)) eqn:E1.
  { right. split; [|done]. intros (Hb & Hc & _). apply orb_true_iff in E1 as [E1|E1]; bool_to_prop; [|lia].
    by apply Hb, zlen_nil_inv. }
  destruct ((off =? 0) || (OOO_MAX_BYTES <=? off)) eqn:E2.
  { right. split; [|done]. intros (_ & _ & Ho & _). apply orb_true_iff in E2 as [E2|E2]; bool_to_prop; lia. }
  bool_to_prop. pose proof (w32_range (seq - w32 R)) as [Hoff _].
  change (w32 (seq - w32 R)) with off in Hoff.
  assert ((if OOO_MAX_BYTES - off <? zlen bytes then ztake (OOO_MAX_BYTES - off) bytes else bytes) = snd new) as ->.
  { simpl. fold off. destruct (_ <? zlen bytes) eqn:E; bool_to_prop; [done|]. by rewrite ztake_ge by lia. }
  assert (0 < zlen (snd new) <= OOO_MAX_BYTES - off) as Hn.
  { simpl. fold off. rewrite zlen_ztake by lia. lia. }
  assert (off = fst new - R) as Ho by (simpl; fold off; lia).
  replace (off + zlen (snd new)) with (seg_end new - R) by (unfold seg_end; lia).
  rewrite Ho, Hsegs.
  pose proof (existsb_overlaps_false R (fst new) (seg_end new) _ _ ss Hch ltac:(lia) ltac:(lia)) as Hov.
  destruct (existsb _ _) eqn:E3.
  { right. split; [|done]. intros (_ & _ & _ & Hcl). apply Hov in Hcl. done. }
  pose proof (proj1 Hov eq_refl) as Hcl. clear Hov.
  destruct (insert_sorted_spec R (fst new) (snd new) _ _ ss Hch) as (ss1 & ss2 & -> & Hc' & Hins);
    try lia; [done|].
  rewrite <-surjective_pairing in *.
  pose proof (sum_lens_bound _ _ _ Hc' ltac:(unfold RX_RING_BYTES; lia)) as Hsum.
  rewrite sum_lens_app in Hsum. rewrite sum_lens_app in Htot.
  change (sum_lens (new :: ss2)) with (zlen (snd new) + sum_lens ss2) in Hsum.
  destruct (_ <? _) eqn:E4; bool_to_prop; [lia|]. left. split; [|split; [done|]].
  - unfold accepts. repeat split; try lia; [|done]. intros ->. by rewrite zlen_nil in *.
  - exists ss1, ss2. split; [done|]. split; cbn [snd segs total_bytes].
    + etrans; [|exact Hins]. f_equal. unfold conc. f_equal.
      symmetry. by apply w32_rebase.
    + rewrite sum_lens_app. change (sum_lens (new :: ss2)) with (zlen (snd new) + sum_lens ss2). lia.
    + done.
    + rewrite zlen_app, zlen_cons. rewrite zlen_app in *. lia.
Qed.

(* ------------------------------------------------------------------ *)
(** ** Draining *)

(** Stretch of the peer's byte stream [st] of length [n] from position [a]. *)
Definition stream_slice (st : Z -> Z) (a n : Z) : list Z :=
  (fun i => st (a + Z.of_nat i)) <$> seq 0 (Z.to_nat n).

Definition seg_matches (st : Z -> Z) (s : AbsSeg) : Prop :=
  snd s = stream_slice st (fst s) (zlen (snd s)).

Section Streams.
Context (st : Z -> Z).

Lemma zlen_stream a n : 0 <= n -> zlen (stream_slice st a n) = n.
Proof. intros. unfold zlen, stream_slice. rewrite length_fmap, length_seq. lia. Qed.

Lemma byte_at_stream a n i : 0 <= i < n -> byte_at (stream_slice st a n) i = st (a + i).
Proof.
  intros. rewrite byte_at_lookup. unfold stream_slice.
  rewrite list_lookup_fmap, lookup_seq_lt by lia. simpl. f_equal. lia.
Qed.

Lemma stream_ztake a n k : 0 <= k <= n -> ztake k (stream_slice st a n) = stream_slice st a k.
Proof.
  intros. apply list_eq_bytes.
  - rewrite zlen_ztake, !zlen_stream by lia. lia.
  - intros i Hi. rewrite zlen_ztake, zlen_stream in Hi by lia.
    by rewrite byte_at_ztake, !byte_at_stream by lia.
Qed.

Lemma stream_zdrop a n k :
  0 <= k <= n -> zdrop k (stream_slice st a n) = stream_slice st (a + k) (n - k).
Proof.
  intros. apply list_eq_bytes.
  - rewrite zlen_zdrop, !zlen_stream by lia. lia.
  - intros i Hi. rewrite zlen_zdrop, zlen_stream in Hi by lia.
    rewrite byte_at_zdrop, !byte_at_stream by lia. f_equal. lia.
Qed.

Lemma stream_app a n m :
  0 <= n -> 0 <= m -> stream_slice st a n ++ stream_slice st (a + n) m = stream_slice st a (n + m).
Proof.
  intros. rewrite <-(ztake_zdrop n (stream_slice st a (n + m))).
  rewrite stream_ztake, stream_zdrop by lia. do 2 f_equal. lia.
Qed.

Lemma stream_nil a : stream_slice st a 0 = [].
Proof. done. Qed.

End Streams.

Lemma take_at_spec R lo hi ss total :
  seg_chain lo hi ss -> R - 1073741824 <= lo -> hi <= R + OOO_MAX_BYTES -> total = sum_lens ss ->
  exists old rest, Forall (fun s => seg_end s <= R) old /\
  ((ss = old ++ rest /\ seg_chain (R + 1) hi rest /\
    take_at_loop (w32 R) total (conc <$> ss) = (None, mkOoo (conc <$> rest) (sum_lens rest))) \/
   (exists s, ss = old ++ s :: rest /\ fst s <= R < seg_end s /\ seg_chain (seg_end s) hi rest /\
    take_at_loop (w32 R) total (conc <$> ss) =
      (Some (conc s), mkOoo (conc <$> rest) (sum_lens rest)))).
Proof.
  unfold RX_RING_BYTES. revert lo total.
  induction ss as [|s ss IH]; intros lo total Hc Hlo Hhi ->.
  { exists [], []. split; [done|]. by left. }
  pose proof Hc as (H1 & H2 & H3 & H4).
  pose proof (sum_lens_nonneg ss). pose proof (sum_lens_bound _ _ _ H4 H3) as Hb.
  unfold seg_end in *. csimpl.
  rewrite w32_sub_l, w32_sub_r, i32_w32 by lia.
  destruct (0 <? fst s - R) eqn:E1; bool_to_prop.
  { exists [], (s :: ss). split; [done|]. left. split; [done|]. split; [|done].
    repeat split; (lia || done). }
  rewrite i32_w32 by lia. rewrite w64_small by int_lia.
  replace (zlen (snd s) + sum_lens ss - zlen (snd s)) with (sum_lens ss) by lia.
  destruct (0 <? fst s - R + zlen (snd s)) eqn:E2; bool_to_prop.
  - exists [], ss. split; [done|]. right. exists s. repeat split; (lia || done).
  - destruct (IH _ (sum_lens ss) H4) as (old & rest & Hold & Hcase); [lia|lia|done|].
    exists (s :: old), rest. split; [constructor; [lia|done]|].
    destruct Hcase as [(-> & Hr & ->)|(s' & -> & Hr)]; [left|right; exists s']; auto.
Qed.

(** [c'] differs from [c] at most in the ring, [rcv_nxt] and the queue. *)
Definition drain_frame (c c' : TcpConnection) : Prop :=
  ring_frame (c |> set_rcv_nxt (rcv_nxt c') |> set_ooo (ooo c')) c'.

Lemma drain_frame_step c c1 c2 c3 q n :
  c1 = set_ooo q c -> ring_frame c1 c2 -> drain_frame (set_rcv_nxt n c2) c3 -> drain_frame c c3.
Proof.
  unfold drain_frame, ring_frame. intros -> H2 H3. rewrite H3 at 1. by rewrite H2.
Qed.

(** What the connection holds of the peer's stream: delivered up to [R], with
    the segments [ss] buffered (some may already lie below [R]). *)
Record drain_pre (st : Z -> Z) (R : Z) (ss : list AbsSeg) (c : TcpConnection) : Prop := {
  dp_nxt : rcv_nxt c = w32 R;
  dp_ring : ring_ok c;
  dp_some : rx_ring c <> None;
  dp_segs : segs (ooo c) = conc <$> ss;
  dp_total : total_bytes (ooo c) = sum_lens ss;
  dp_chain : seg_chain (R - 1073741824) (R + OOO_MAX_BYTES) ss;
  dp_count : zlen ss <= OOO_MAX_SEGS;
  dp_match : Forall (seg_matches st) ss
}.

(** The result of a drain from [R] with [ss] buffered. *)
Definition drain_post (st : Z -> Z) (R : Z) (ss : list AbsSeg) (c : TcpConnection)
    (delivered : Z) (c' : TcpConnection) : Prop :=
  exists ss', let R' := R + delivered in
  0 <= delivered /\ rcv_nxt c' = w32 R' /\
  ring_view c' = ring_view c ++ stream_slice st R delivered /\
  ring_ok c' /\ rx_ring c' <> None /\ ooo_ok R' ss' (ooo c') /\
  suffix ss' ss /\
  (forall s, s ∈ ss -> s ∉ ss' -> seg_end s <= R' \/ rx_free c' = 0) /\
  drain_frame c c'.

Section Drain.
Context (st : Z -> Z).

Lemma drain_done R lo ss old rest c :
  drain_pre st R ss c -> ss = old ++ rest -> Forall (fun s => seg_end s <= R) old ->
  seg_chain lo (R + OOO_MAX_BYTES) rest -> R + 1 <= lo ->
  drain_post st R ss c 0 (set_ooo (mkOoo (conc <$> rest) (sum_lens rest)) c).
Proof.
  intros [Hn Hr Hs _ _ _ Hcnt _] -> Hold Hch Hlo. exists rest. rewrite Z.add_0_r.
  rewrite zlen_app in Hcnt. pose proof (zlen_nonneg old).
  split; [lia|]. split; [done|]. split; [by rewrite stream_nil, app_nil_r|].
  split; [done|]. split; [done|]. split.
  { split; [done|done|by eapply seg_chain_weaken|lia]. }
  split; [by exists old|]. split; [|by destruct c].
  intros s [Hin|Hin]%elem_of_app Hnot; [|done].
  left. rewrite Forall_forall in Hold. by apply Hold.
Qed.

(** The bytes of a segment that reaches [R], from [R] on. *)
Lemma seg_tail R s :
  seg_matches st s -> fst s <= R < seg_end s -> R - 1073741824 <= fst s ->
  zdrop (w32 (w32 R - w32 (fst s))) (snd s) = stream_slice st R (seg_end s - R).
Proof.
  unfold RX_RING_BYTES, seg_end. intros Hm Hr Hl.
  rewrite (w32_sub_cancel R (fst s) (R - fst s)) by int_lia.
  rewrite Hm at 1. rewrite stream_zdrop by lia. f_equal; lia.
Qed.

Lemma drain_post_step R ss old s rest c c2 q delivered c' :
  ss = old ++ s :: rest -> Forall (fun s => seg_end s <= R) old ->
  fst s <= R < seg_end s ->
  let n := seg_end s - R in
  ring_view c2 = ring_view c ++ stream_slice st R n -> ring_frame (set_ooo q c) c2 ->
  drain_post st (seg_end s) rest (set_rcv_nxt (w32 (seg_end s)) c2) delivered c' ->
  drain_post st R ss c (n + delivered) c'.
Proof.
  intros -> Hold Hs n Hv Hf (ss' & H1 & H2 & H3 & H4 & H5 & H6 & H7 & H8 & H9).
  exists ss'. replace (R + (n + delivered)) with (seg_end s + delivered) by lia.
  change (ring_view (set_rcv_nxt (w32 (seg_end s)) c2)) with (ring_view c2) in H3.
  split; [lia|]. split; [done|]. split.
  { rewrite H3, Hv, <-app_assoc. f_equal. replace (seg_end s) with (R + n) by lia.
    apply stream_app; lia. }
  split; [done|]. split; [done|]. split; [done|]. split.
  { etrans; [exact H7|]. exists (old ++ [s]). by rewrite <-app_assoc. }
  split; [|by eapply drain_frame_step].
  intros s0 [Hin|[->|Hin]%elem_of_cons]%elem_of_app Hnot; [|left; lia|by apply H8].
  rewrite Forall_forall in Hold. specialize (Hold s0 Hin). simpl in Hold. left; lia.
Qed.

(** The ring filled before the segment's tail was absorbed. *)
Lemma drain_post_full R ss old s rest c c2 n :
  drain_pre st R ss c -> ss = old ++ s :: rest -> Forall (fun s => seg_end s <= R) old ->
  0 <= n -> R + n < seg_end s -> seg_chain (seg_end s) (R + OOO_MAX_BYTES) rest ->
  ring_view c2 = ring_view c ++ stream_slice st R n -> ring_ok c2 -> rx_ring c2 <> None ->
  ring_frame (set_ooo (mkOoo (conc <$> rest) (sum_lens rest)) c) c2 -> rx_free c2 = 0 ->
  drain_post st R ss c n (set_rcv_nxt (w32 (R + n)) c2).
Proof.
  intros Hpre -> Hold Hn Hs Hch Hv Hok Hsome Hf Hfree. exists rest.
  destruct Hpre as [_ _ _ _ _ _ Hcnt _]. rewrite zlen_app, zlen_cons in Hcnt.
  pose proof (zlen_nonneg old).
  split; [lia|]. split; [done|]. split; [done|]. split; [done|]. split; [done|]. split.
  { split; [by rewrite Hf|by rewrite Hf|eapply seg_chain_weaken; [| |exact Hch]; lia|lia]. }
  split; [exists (old ++ [s]); by rewrite <-app_assoc|]. split; [intros; by right|].
  unfold drain_frame, ring_frame in *. by rewrite Hf.
Qed.

Lemma drain_loop_spec fuel R ss c d :
  drain_pre st R ss c -> (length ss < fuel)%nat ->
  exists delivered c', drain_loop fuel d c = (d + delivered, c') /\
    drain_post st R ss c delivered c'.
Proof.
  revert R ss c d. induction fuel as [|fuel IH]; intros R ss c d Hpre Hfuel; [lia|].
  pose proof Hpre as [Hn Hr Hs Hsegs Htot Hch Hcnt Hm].
  destruct (take_at_spec R _ _ ss (total_bytes (ooo c)) Hch) as
    (old & rest & Hold & [(Hss & Hrest & Htk)|(s & Hss & Hse & Hrest & Htk)]); [lia|lia|done| |];
    cbn [drain_loop]; unfold ooo_take_at; rewrite Hn, Hsegs, Htk.
  { exists 0, (set_ooo (mkOoo (conc <$> rest) (sum_lens rest)) c). rewrite Z.add_0_r.
    split; [done|]. by eapply (drain_done R (R + 1)). }
  assert (s ∈ ss) as Hin by (rewrite Hss; apply elem_of_app; right; by left).
  destruct (seg_chain_elem _ _ _ _ Hch Hin) as (Hb1 & Hb2 & Hb3).
  rewrite Hss in Hm. apply Forall_app in Hm as [_ [Hms Hmr]%Forall_cons].
  set (c1 := set_ooo (mkOoo (conc <$> rest) (sum_lens rest)) c).
  change (rcv_nxt c1) with (rcv_nxt c). rewrite Hn.
  change (ooo_seq (conc s)) with (w32 (fst s)). change (ooo_bytes (conc s)) with (snd s).
  rewrite seg_tail by done.
  set (tail := stream_slice st R (seg_end s - R)).
  assert (zlen tail = seg_end s - R) as Hl by (apply zlen_stream; lia). rewrite Hl.
  destruct (rx_push_spec tail c1 Hr Hs) as (H1 & H2 & H3 & H4 & H5).
  pose proof (zlen_ring_view _ Hr) as Hv1. pose proof (zlen_ring_view _ H2) as Hv2.
  pose proof Hr as (_ & _ & Hu & _). pose proof H2 as (_ & _ & Hu2 & _).
  rewrite H4, zlen_app, zlen_ztake, Hl in Hv2 by (unfold rx_free, sat_sub; lia).
  change (ring_view c1) with (ring_view c) in *. change (rx_free c1) with (rx_free c) in *.
  rewrite Hv1 in Hv2. rewrite Hl in H1, H4. rewrite (rx_free_spec c Hu) in *.
  assert (rcv_nxt (rx_ring_push tail c1).2 = w32 R) as Hn2 by (by rewrite H5).
  destruct (rx_ring_push tail c1) as [pushed c2] eqn:Epush. cbn [fst snd] in *.
  rewrite Hn2, w32_add_l, w32_add_r. subst pushed.
  set (pushed := Z.min (seg_end s - R) (RX_RING_BYTES - 1 - rx_used c)) in *.
  destruct (_ <? _) eqn:Elt; bool_to_prop.
  - eexists _, _. split; [done|].
    eapply (drain_post_full R ss old s rest c c2); try done; try lia.
    + rewrite H4. unfold tail. by rewrite stream_ztake by lia.
    + rewrite rx_free_spec by done. lia.
  - assert (pushed = seg_end s - R) as Hp by lia. rewrite Hp in *. clear Hp. replace (R + (seg_end s - R)) with (seg_end s) by lia.
    assert (rx_ring (set_rcv_nxt (w32 (seg_end s)) c2) <> None) as Hs3 by done.
    destruct (IH (seg_end s) rest (set_rcv_nxt (w32 (seg_end s)) c2) (d + (seg_end s - R)))
      as (delivered & c' & -> & Hpost).
    + split; [done|done|done|by rewrite H5|by rewrite H5| | |done].
      * eapply seg_chain_weaken; [| |exact Hrest]; unfold RX_RING_BYTES; lia.
      * rewrite Hss, zlen_app, zlen_cons in Hcnt. pose proof (zlen_nonneg old). lia.
    + rewrite Hss, length_app in Hfuel. simpl in Hfuel. lia.
    + exists (seg_end s - R + delivered), c'. split; [f_equal; lia|].
      apply (drain_post_step R ss old s rest c c2 (mkOoo (conc <$> rest) (sum_lens rest))); try done.
      rewrite H4. unfold tail. by rewrite stream_ztake by lia.
Qed.

End Drain.

(* ------------------------------------------------------------------ *)
(** ** SACK blocks *)

(** Byte position [p] is buffered; [p] is in an advertised block. *)
Definition held (ss : list AbsSeg) (p : Z) : Prop := exists s, s ∈ ss /\ fst s <= p < seg_end s.
Definition in_blocks (bs : list (Z * Z)) (p : Z) : Prop := exists b, b ∈ bs /\ fst b <= p < snd b.

(** Nonempty, pairwise separated blocks below [top], the highest first. *)
Fixpoint blocks_desc (top : Z) (bs : list (Z * Z)) : Prop :=
  match bs with
  | [] => True
  | b :: r => fst b < snd b /\ snd b <= top /\ blocks_desc (fst b - 1) r
  end.

Definition wire_block (b : Z * Z) : Z * Z := (w32 (fst b), w32 (snd b)).

Lemma held_cons s ss p : held (s :: ss) p <-> fst s <= p < seg_end s \/ held ss p.
Proof.
  split.
  - intros (x & [->|Hin]%elem_of_cons & H); [by left|right; by exists x].
  - intros [H|(x & Hin & H)]; [exists s|exists x]; (split; [|done]); by constructor.
Qed.

Lemma in_blocks_cons b bs p : in_blocks (b :: bs) p <-> fst b <= p < snd b \/ in_blocks bs p.
Proof.
  split.
  - intros (x & [->|Hin]%elem_of_cons & H); [by left|right; by exists x].
  - intros [H|(x & Hin & H)]; [exists b|exists x]; (split; [|done]); by constructor.
Qed.

Lemma blocks_desc_weaken top top' bs : top <= top' -> blocks_desc top bs -> blocks_desc top' bs.
Proof. destruct bs as [|b bs]; simpl; [done|]. intros ? (?&?&?). repeat split; (lia || done). Qed.

(** What the blocks [bs] say, given those already written in [acc]. *)
Definition sack_says (cap hi : Z) (acc : list (Z * Z)) (ss : list AbsSeg) (bs : list (Z * Z)) : Prop :=
  blocks_desc hi bs /\ zlen bs <= cap /\
  (forall p, in_blocks bs p -> in_blocks acc p \/ held ss p) /\
  (forall p, in_blocks acc p -> in_blocks bs p) /\
  (zlen bs < cap -> forall p, held ss p -> in_blocks bs p).

Lemma sack_says_done cap hi acc ss :
  blocks_desc hi acc -> zlen acc <= cap -> (zlen acc = cap \/ ss = []) ->
  sack_says cap hi acc ss acc.
Proof.
  intros Hd Hc Hend. split; [done|]. split; [done|]. split; [by left|]. split; [done|].
  intros Hlt p (s & Hin & _). destruct Hend as [?|?]; [lia|]. subst ss. by apply not_elem_of_nil in Hin.
Qed.

Lemma sack_says_step cap hi acc acc' s ss bs :
  (forall p, in_blocks acc' p <-> in_blocks acc p \/ fst s <= p < seg_end s) ->
  sack_says cap hi acc' ss bs -> sack_says cap hi acc (s :: ss) bs.
Proof.
  intros Hacc (H1 & H2 & H3 & H4 & H5). split; [done|]. split; [done|].
  setoid_rewrite held_cons. setoid_rewrite Hacc in H3. setoid_rewrite Hacc in H4.
  split; [|split; [by auto|]].
  - intros p Hp. destruct (H3 p Hp) as [[?|?]|?]; auto.
  - intros Hlt p [Hp|Hp]; auto.
Qed.

Lemma sack_blocks_acc_spec base cap lo hi acc ss :
  seg_chain lo hi ss -> blocks_desc lo acc -> zlen acc <= cap ->
  base <= lo -> lo <= hi -> hi < base + 4294967296 ->
  (forall b, b ∈ acc -> base <= fst b) ->
  exists bs, sack_blocks_acc cap (wire_block <$> acc) (conc <$> ss) = rev (wire_block <$> bs) /\
    sack_says cap hi acc ss bs.
Proof.
  intros Hc Hd Hl Hb Hlohi Hhi. revert lo acc Hc Hd Hl Hb Hlohi.
  induction ss as [|s ss IH]; intros lo acc.
  { intros _ Hd Hl _ ? _. exists acc. split; [done|]. apply sack_says_done; [|done|by right].
    by eapply blocks_desc_weaken. }
  intros (H1 & H2 & H3 & H4) Hd Hl Hb Hlohi Hab. rewrite (fmap_cons conc).
  cbn [sack_blocks_acc]. change (ooo_bytes (conc s)) with (snd s).
  change (ooo_seq (conc s)) with (w32 (fst s)).
  assert (w32 (w32 (fst s) + w32 (zlen (snd s))) = w32 (seg_end s)) as ->
    by (autorewrite with ints; done).
  assert (fst s < seg_end s) by (unfold seg_end; lia).
  assert (zlen acc <> cap -> blocks_desc (fst s - 1) acc ->
    exists bs, sack_blocks_acc cap (wire_block (fst s, seg_end s) :: (wire_block <$> acc)) (conc <$> ss) =
      rev (wire_block <$> bs) /\ sack_says cap hi acc (s :: ss) bs) as Hnew.
  { intros Hcap Hsep. destruct (IH (seg_end s) ((fst s, seg_end s) :: acc)) as (bs & Heq & Hs);
      try (done || lia).
    - rewrite zlen_cons. lia.
    - intros b [->|?]%elem_of_cons; [simpl; lia|by apply Hab].
    - exists bs. split; [exact Heq|]. eapply sack_says_step; [|exact Hs].
      intros p. rewrite in_blocks_cons. simpl. tauto. }
  assert (forall acc0 : list (Z * Z), zlen (wire_block <$> acc0) = zlen acc0) as Hzl
    by (intros; unfold zlen; by rewrite length_fmap).
  destruct acc as [|[l0 r0] acc'].
  - change (wire_block <$> []) with (@nil (Z * Z)) in *. cbv iota beta.
    change (zlen []) with 0 in *. destruct (0 =? cap) eqn:E; bool_to_prop; [|by apply Hnew].
    exists []. split; [done|]. apply sack_says_done; [done|done|by left].
  - rewrite fmap_cons. change (wire_block (l0, r0)) with (w32 l0, w32 r0). cbv iota beta.
    destruct Hd as (Hd1 & Hd2 & Hd3). simpl in Hd1, Hd2, Hd3.
    specialize (Hab (l0, r0) ltac:(left)) as Hl0. simpl in Hl0.
    destruct (w32 r0 =? w32 (fst s)) eqn:E; bool_to_prop.
    + apply w32_inj in E; [|lia]. subst r0.
      destruct (IH (seg_end s) ((l0, seg_end s) :: acc')) as (bs & Heq & Hs); try (done || lia).
      * simpl. repeat split; (lia || done).
      * intros b [->|?]%elem_of_cons; [done|apply Hab; by right].
      * exists bs. split; [exact Heq|]. eapply sack_says_step; [|exact Hs].
        intros p. rewrite !in_blocks_cons. simpl. split.
        -- intros [?|?]; [|tauto]. lia.
        -- intros [[?|?]|?]; [left; lia|by right|left; lia].
    + rewrite zlen_cons, Hzl, <-(zlen_cons (l0, r0)).
      assert (r0 <> fst s) by (intros ->; done).
      destruct (zlen _ =? cap) eqn:E2; bool_to_prop.
      * exists ((l0, r0) :: acc'). split; [done|].
        apply sack_says_done; [|done|by left]. simpl. repeat split; (lia || done).
      * apply Hnew; [done|]. simpl. repeat split; (lia || done).
Qed.

(* ------------------------------------------------------------------ *)
(** ** Properties *)

Lemma held_app ss1 ss2 p : held (ss1 ++ ss2) p <-> held ss1 p \/ held ss2 p.
Proof.
  induction ss1 as [|s ss1 IH]; simpl.
  - split; [by right|]. intros [(s & Hin & _)|?]; [by apply not_elem_of_nil in Hin|done].
  - rewrite !held_cons, IH. tauto.
Qed.

(** [OooQueue::insert] keeps the reassembly queue sorted, disjoint, inside
    the receive window and within both caps, and accepts exactly the segments
    that start strictly inside the window above [rcv_nxt], overlap no buffered
    byte and find a free slot.  Acceptance adds exactly the segment's bytes up
    to the window's edge; rejection changes nothing. *)
Theorem ooo_insert_exact R ss q seq bytes :
  ooo_ok R ss q -> is_u32 seq ->
  let off := w32 (seq - w32 R) in
  let new := clamped R seq bytes in
  let accepts := bytes <> [] /\ zlen ss < OOO_MAX_SEGS /\ 0 < off < OOO_MAX_BYTES /\
    (forall p, fst new <= p < seg_end new -> ~ held ss p) in
  let r := ooo_insert (w32 R) seq bytes q in
  (fst r = true <-> accepts) /\
  exists ss', ooo_ok R ss' (snd r) /\ total_bytes (snd r) <= OOO_MAX_BYTES /\
    forall p, held ss' p <-> held ss p \/ (accepts /\ fst new <= p < seg_end new).
Proof.
  intros Hok Hseq off new accepts r.
  assert (Hcl : 0 < off < OOO_MAX_BYTES -> bytes <> [] ->
    Forall (seg_clear (fst new) (seg_end new)) ss <->
    (forall p, fst new <= p < seg_end new -> ~ held ss p)).
  { intros Ho Hb. rewrite Forall_forall.
    assert (fst new < seg_end new) as Hne.
    { unfold seg_end, new, clamped. fold off. cbn [fst snd]. rewrite zlen_ztake by lia.
      pose proof (zlen_nonneg bytes). assert (zlen bytes <> 0) by (by intros ?%zlen_nil_inv). lia. }
    split.
    - intros H p Hp (s & Hin & Hs). destruct (H s Hin); lia.
    - intros H s Hin. destruct (seg_chain_elem _ _ _ _ (ooo_chain _ _ _ Hok) Hin) as (_ & Hs & _).
      unfold seg_clear. destruct (Z_le_gt_dec (seg_end s) (fst new)); [by left|].
      destruct (Z_le_gt_dec (seg_end new) (fst s)); [by right|]. exfalso.
      unfold seg_end in Hs. apply (H (Z.max (fst new) (fst s))); [lia|].
      exists s. split; [done|]. unfold seg_end in *. lia. }
  assert (forall ss' q', ooo_ok R ss' q' -> total_bytes q' <= OOO_MAX_BYTES) as Hcap.
  { intros ss' q' [_ -> Hc _]. pose proof (sum_lens_bound _ _ _ Hc). unfold RX_RING_BYTES in *. lia. }
  destruct (ooo_insert_spec R ss q seq bytes Hok Hseq) as
    [((Hb & Hc & Ho & Hf) & Hr & ss1 & ss2 & -> & Hok')|(Hno & Hr)].
  - assert accepts as Hacc by (repeat split; [done|done|lia|lia|by apply Hcl]).
    split; [by split|]. exists (ss1 ++ new :: ss2). split; [done|]. split; [by eapply Hcap|].
    intros p. rewrite !held_app, held_cons. tauto.
  - assert (~ accepts) as Hacc.
    { intros (Hb & Hc & Ho & Hf). apply Hno. repeat split; [done|done|lia|lia|by apply Hcl]. }
    unfold r. rewrite Hr. simpl. split; [done|]. exists ss. split; [done|].
    split; [by eapply Hcap|]. tauto.
Qed.

Lemma ooo_insert_exact_witness :
  let q := mkOoo [mkOooSeg 4 [9; 9]] 2 in
  fst (ooo_insert 4294967295 2 [1; 2] q) = true /\
  fst (ooo_insert 4294967295 3 [1; 2] q) = false.
Proof.
  intros q. assert (ooo_ok 4294967295 [(4294967300, [9; 9])] q) as Hok.
  { split; [reflexivity|reflexivity|vm_compute; intuition congruence|vm_compute; congruence]. }
  pose proof (ooo_insert_exact 4294967295 [(4294967300, [9; 9])] q 2 [1; 2] Hok
    ltac:(vm_compute; split; congruence)) as [_ (ss' & [] & _)].
  split; vm_compute; reflexivity.
Defined.

(** [drain_ooo] terminates with its fuel and delivers to the receive ring
    exactly the peer's bytes from the old [rcv_nxt] to the new one.  It stops
    only at a real gap or when the ring is full: every buffered segment it
    gave up lies below the new [rcv_nxt] unless the ring has no room.  What
    remains buffered is strictly ahead of the new [rcv_nxt], and nothing but
    the ring, [rcv_nxt] and the queue changes. *)
Theorem drain_ooo_delivers_stream st R ss c :
  drain_pre st R ss c ->
  exists delivered c', drain_ooo c = (delivered, c') /\ drain_post st R ss c delivered c'.
Proof.
  intros Hpre. unfold drain_ooo. rewrite (dp_segs _ _ _ _ Hpre), length_fmap.
  apply (drain_loop_spec st _ R ss c 0 Hpre). lia.
Qed.

(** Position 100 was just delivered; [[98, 102)] and [[102, 103)] are buffered. *)
Definition drain_conn : TcpConnection :=
  new_conn |> set_rx_ring (Some (replicate (Z.to_nat RX_RING_BYTES) 0)) |> set_rcv_nxt 100
    |> set_ooo (mkOoo [mkOooSeg 98 [98; 99; 100; 101]; mkOooSeg 102 [102]; mkOooSeg 110 [110]] 6).

Lemma drain_ooo_delivers_stream_witness :
  exists delivered c', drain_ooo drain_conn = (delivered, c') /\ delivered = 3 /\
    ring_view c' = [100; 101; 102].
Proof.
  destruct (drain_ooo_delivers_stream (fun p => p) 100
    [(98, [98; 99; 100; 101]); (102, [102]); (110, [110])] drain_conn) as (d & c' & H & _).
  - split; try reflexivity; [repeat split; vm_compute; congruence|discriminate| |discriminate|].
    + vm_compute. intuition congruence.
    + repeat constructor.
  - exists d, c'. split; [exact H|]. vm_compute in H. injection H as <- <-.
    split; vm_compute; reflexivity.
Defined.

(** The SACK blocks the receiver advertises are exact.  They are at most
    [cap], ascending, separated (abutting segments are merged) and contain only
    bytes really buffered; when they do not fill the option they contain every
    buffered byte. *)
Theorem sack_blocks_exact R ss q cap :
  ooo_ok R ss q -> 0 <= cap ->
  exists bs, ooo_sack_blocks cap q = rev (wire_block <$> bs) /\
    blocks_desc (R + OOO_MAX_BYTES) bs /\ zlen bs <= cap /\
    (forall p, in_blocks bs p -> held ss p) /\
    (zlen bs < cap -> forall p, held ss p -> in_blocks bs p).
Proof.
  intros [Hsegs _ Hch _] Hcap. unfold ooo_sack_blocks. rewrite Hsegs.
  destruct (sack_blocks_acc_spec (R + 1) cap (R + 1) (R + OOO_MAX_BYTES) [] ss)
    as (bs & Heq & Hd & Hl & H1 & _ & H2); try done;
    try (unfold RX_RING_BYTES; lia).
  - intros b Hb. by apply not_elem_of_nil in Hb.
  - exists bs. split; [exact Heq|]. split; [done|]. split; [done|]. split; [|done].
    intros p Hp. destruct (H1 p Hp) as [(b & Hb & _)|?]; [by apply not_elem_of_nil in Hb|done].
Qed.

Lemma sack_blocks_exact_witness :
  exists bs, ooo_sack_blocks 3 (mkOoo [mkOooSeg 98 [1; 2]; mkOooSeg 100 [3]; mkOooSeg 105 [4]] 4)
    = rev (wire_block <$> bs) /\ zlen bs = 2.
Proof.
  destruct (sack_blocks_exact 90 [(98, [1; 2]); (100, [3]); (105, [4])]
    (mkOoo [mkOooSeg 98 [1; 2]; mkOooSeg 100 [3]; mkOooSeg 105 [4]] 4) 3) as (bs & H & _).
  - split; [reflexivity|reflexivity|vm_compute; intuition congruence|vm_compute; congruence].
  - lia.
  - exists bs. split; [exact H|]. apply (f_equal length) in H.
    rewrite length_rev, length_fmap in H. unfold zlen. rewrite <-H. reflexivity.
Defined.
