(* ===== verification/Rtx.v ===== *)
(** * Retransmission, timers and loss recovery (crates/net/tcp/src/state.rs)

    The retransmit queue (RFC 6298), the RTT estimator and its timeout, the
    tail-loss probe, the lifecycle and persist timers, the congestion hooks
    (RFC 5681), SACK recovery (RFC 6675) and RACK (RFC 8985), each method of
    [TcpConnection] as a program of [St CS].  A chain of buffers is the list of
    its parts' visible bytes. *)

From S2P Require Import Prelude.
From S2P Require Import NetTypes.
From S2P Require Import CongestionControl.
From S2P Require Import Loss.
From S2P Require Import TcpTypes.
From S2P Require Import SeqNum.
From S2P Require Import TcpSend.
From S2P Require Import RxRing.

#[local] Open Scope st_scope.

(* ------------------------------------------------------------------ *)
(** ** Timers *)

(** FlightSize. *)
Definition flight (c : TcpConnection) : Z := w32 (snd_nxt c - snd_una c).

Definition pto_ms (c : TcpConnection) : Z :=
  if srtt_ms c =? 0 then 0
  else
    let pto := Z.max (sat_mul32 (srtt_ms c) 2) TLP_MIN_MS in
    if rto_ms c <=? pto then 0 else pto.

Definition arm_tlp (now : Z) : St CS unit :=
  setc (fun c =>
    let pto := pto_ms c in
    set_tlp_deadline_ms
      (if negb (pto =? 0) && (tlp_count c <? TLP_MAX_PROBES) then now + pto else 0) c).

Definition arm_rtx : St CS unit :=
  now <- now;;
  setc (fun c => set_rtx_deadline_ms (now + rto_ms c) c);;
  arm_tlp now;;
  arm_for_tick.

(** [sample_rtt]: the RFC 6298 estimator. *)
Definition sample_rtt (r : Z) (c : TcpConnection) : TcpConnection :=
  let r := Z.max r 1 in
  if negb (rtt_seeded c) then
    c |> set_srtt_ms r |> set_rttvar_ms (r / 2) |> set_rtt_seeded true
  else
    let delta := Z.abs (srtt_ms c - r) in
    c |> set_rttvar_ms (w32 (rttvar_ms c - Z.shiftr (rttvar_ms c) 2 + Z.shiftr delta 2))
      |> set_srtt_ms (w32 (srtt_ms c - Z.shiftr (srtt_ms c) 3 + Z.shiftr r 3)).

Definition estimated_rto (c : TcpConnection) : Z :=
  if negb (rtt_seeded c) then RTO_INITIAL_MS
  else
    let spread := Z.max 1 (sat_mul32 (rttvar_ms c) RTO_K) in
    Z.min (Z.max (sat_add32 (srtt_ms c) spread) RTO_INITIAL_MS) RTO_MAX_MS.

(** [(estimated_rto() as u64) << count.min(16)], capped. *)
Definition backed_off (c : TcpConnection) (count : Z) : Z :=
  Z.min (w64 (Z.shiftl (estimated_rto c) (Z.min count 16))) RTO_MAX_MS.

Definition arm_fin_timer (now : Z) : St CS unit :=
  setc (fun c => set_lifecycle_deadline_ms (now + backed_off c (fin_retx_count c)) c);;
  arm_for_tick.

Definition arm_time_wait (now : Z) : St CS unit :=
  setc (set_lifecycle_deadline_ms (now + TIME_WAIT_MS));;
  arm_for_tick.

Definition arm_persist (now : Z) : St CS unit :=
  setc (fun c => set_persist_deadline_ms (now + backed_off c (persist_backoff c)) c);;
  arm_for_tick.

Definition retransmit_fin (now : Z) : St CS unit :=
  c <- getc id;;
  on_ctx (send_segment
    (conn_meta c (w32 (snd_nxt c - 1)) (Z.lor TCP_FIN TCP_ACK) (w16 (rx_free c))) []);;
  setc (fun c => set_fin_retx_count (sat_add8 (fin_retx_count c) 1) c);;
  arm_fin_timer now.

Definition send_window_probe (now : Z) : St CS unit :=
  c <- getc id;;
  on_ctx (send_segment (conn_meta c (w32 (snd_una c - 1)) TCP_ACK (w16 (rx_free c))) []);;
  setc (fun c => set_persist_backoff (sat_add8 (persist_backoff c) 1) c);;
  arm_persist now.

(* ------------------------------------------------------------------ *)
(** ** Retransmit queue *)

(** [true] when the entry was queued. *)
Definition rtx_push (buf : list Z) (seq len now_ms : Z) : St CS bool :=
  ok <- on_ctx try_reserve;;
  if negb ok then setc (set_rtx_alloc_failed true);; sret false
  else
    was_empty <- getc (fun c => zlen (rtx_queue c) =? 0);;
    setc (fun c =>
      c |> set_rtx_queue (rtx_queue c ++ [mkRtx buf seq len now_ms now_ms 1 false])
        |> set_rtx_bytes_in_flight (sat_add32 (rtx_bytes_in_flight c) len));;
    deadline <- getc rtx_deadline_ms;;
    swhen (was_empty && (deadline =? 0)) arm_rtx;;
    anchored <- getc rtt_anchor_active;;
    swhen (negb anchored)
      (setc (fun c => c |> set_rtt_anchor_active true
                        |> set_rtt_anchor_seq (w32 (seq + len))
                        |> set_rtt_anchor_ms now_ms));;
    sret true.

(** The loop of [rtx_ack] on the queue and the byte count: bytes retired, the
    queue and the count after. *)
Fixpoint rtx_ack_loop (ack acked inflight : Z) (q : list RtxEntry) : Z * (list RtxEntry * Z) :=
  match q with
  | [] => (acked, ([], inflight))
  | head :: rest =>
      let head_end := w32 (seq_start head + len head) in
      if negb (seq_lt ack head_end) then
        rtx_ack_loop ack (acked + len head) (sat_sub inflight (len head)) rest
      else if seq_lt (seq_start head) ack then
        let consumed := w32 (ack - seq_start head) in
        if consumed <=? zlen (iobuf head) then
          (acked + consumed,
           (mkRtx (zdrop consumed (iobuf head)) ack (sat_sub (len head) (w16 consumed))
              (first_tx_ms head) (last_tx_ms head) (tx_count head) (sacked head) :: rest,
            sat_sub inflight consumed))
        else (acked, (q, inflight))
      else (acked, (q, inflight))
  end.

Definition rtx_ack (ack : Z) : St CS Z := fun s =>
  let c := fst s in
  match rtx_ack_loop ack 0 (rtx_bytes_in_flight c) (rtx_queue c) with
  | (acked, (q, inflight)) =>
      (acked, (c |> set_rtx_queue q |> set_rtx_bytes_in_flight inflight, snd s))
  end.

Definition handle_rtx_push_oom : St CS unit :=
  setc (fun c => c |> set_rtx_queue [] |> set_rtx_bytes_in_flight 0 |> set_rtx_deadline_ms 0).

(** [drain_chain_prefix]: the chain without its first [n] bytes. *)
Fixpoint drain_chain_prefix (chain : list (list Z)) (n : Z) : list (list Z) :=
  match chain with
  | [] => []
  | front :: rest =>
      if n =? 0 then chain
      else if zlen front <=? n then drain_chain_prefix rest (n - zlen front)
      else zdrop n front :: rest
  end.

(** The loop of [rtx_on_data_sent]; each iteration pops a part. *)
Fixpoint rtx_retain (chain : list (list Z)) (total seq now_ms : Z) : St CS (list (list Z)) :=
  match chain with
  | [] => sret []
  | front :: rest =>
      if total =? 0 then sret chain
      else if zlen front <=? total then
        ok <- rtx_push front seq (w16 (zlen front)) now_ms;;
        if ok : bool then
          rtx_retain rest (total - zlen front) (w32 (seq + w32 (zlen front))) now_ms
        else handle_rtx_push_oom;; sret (drain_chain_prefix rest (total - zlen front))
      else
        ok <- rtx_push (ztake total front) seq (w16 total) now_ms;;
        swhen (negb ok) handle_rtx_push_oom;;
        sret (zdrop total front :: rest)
  end.

(** The chain left to send. *)
Definition rtx_on_data_sent (chain : list (list Z)) (total : Z) : St CS (list (list Z)) :=
  if total =? 0 then sret chain
  else
    failed <- getc rtx_alloc_failed;;
    if failed : bool then sret (drain_chain_prefix chain total)
    else
      now_ms <- now;;
      nxt <- getc snd_nxt;;
      rtx_retain chain total (w32 (nxt - w32 total)) now_ms.

Definition rtx_on_data_sent_slice (bytes : list Z) : St CS unit :=
  failed <- getc rtx_alloc_failed;;
  if (zlen bytes =? 0) || failed then sret tt
  else
    ok <- on_ctx try_reserve;;
    if negb ok then setc (set_rtx_alloc_failed true);; handle_rtx_push_oom
    else
      nxt <- getc snd_nxt;;
      now_ms <- now;;
      ok <- rtx_push bytes (w32 (nxt - w32 (zlen bytes))) (w16 (zlen bytes)) now_ms;;
      swhen (negb ok) handle_rtx_push_oom.

(* ------------------------------------------------------------------ *)
(** ** Congestion window *)

Definition congestion_init : St CS unit :=
  setc (fun c =>
    let smss := mss_for (local_ip c) in
    let ctl := Controller.set_slow_start_cap (2 * smss) (Controller.new smss) in
    c |> set_cc ctl |> set_cwnd (Controller.window ctl)).

Definition usable_window (c : TcpConnection) : Z :=
  sat_sub (Z.min (cwnd c) (snd_wnd c)) (flight c).

Definition cwnd_on_ack (acked : Z) : St CS unit :=
  now <- now;;
  setc (fun c =>
    let rtt := mkRtt (sat_mul32 (srtt_ms c) 1000) 0 in
    let ctl := Controller.on_ack acked (flight c) rtt now (cc c) in
    c |> set_cc ctl |> set_cwnd (Controller.window ctl)).

Definition congestion_on_rto : St CS unit :=
  setc (fun c =>
    let ctl := Controller.on_rto (cc c) in
    c |> set_cc ctl |> set_cwnd (Controller.window ctl)).

(* ------------------------------------------------------------------ *)
(** ** Acknowledgements and retransmissions *)

Definition rtx_on_ack (old_una : Z) : St CS unit :=
  c <- getc id;;
  if rtx_alloc_failed c then
    swhen (snd_una c =? snd_nxt c)
      (setc (fun c => c |> set_rtx_alloc_failed false |> set_rtx_backoff 0
                        |> set_rto_ms RTO_INITIAL_MS))
  else if snd_una c =? old_una then sret tt
  else
    drop <- rtx_ack (snd_una c);;
    swhen (0 <? drop) (cwnd_on_ack (w32 drop));;
    c <- getc id;;
    now <- now;;
    swhen (rtt_anchor_active c && negb (seq_lt (snd_una c) (rtt_anchor_seq c)))
      (setc (fun c =>
         let elapsed := sat_sub now (rtt_anchor_ms c) in
         c |> sample_rtt (w32 (Z.min elapsed U32_MAX)) |> set_rtt_anchor_active false));;
    setc (fun c => c |> set_rtx_backoff 0 |> set_tlp_count 0);;
    setc (fun c => set_rto_ms (estimated_rto c) c);;
    inflight <- getc rtx_bytes_in_flight;;
    if inflight =? 0 then setc (fun c => c |> set_rtx_deadline_ms 0 |> set_tlp_deadline_ms 0)
    else arm_rtx.

(** [emit_rtx_entry(idx)]: re-send up to one MSS of the entry. *)
Definition emit_rtx_entry (idx : nat) : St CS unit :=
  c <- getc id;;
  now <- now;;
  match rtx_queue c !! idx with
  | None => sret tt
  | Some e =>
      let n := Z.min (len e) (snd_mss c) in
      if n =? 0 then sret tt
      else
        setc (set_rtx_queue
          (<[idx := mkRtx (iobuf e) (seq_start e) (len e) (first_tx_ms e) now
                      (sat_add8 (tx_count e) 1) (sacked e)]> (rtx_queue c)));;
        on_ctx (send_segment
          (conn_meta c (seq_start e) (Z.lor TCP_ACK TCP_PSH) (w16 (rx_free c)))
          (ztake n (iobuf e)));;
        setc (set_rtt_anchor_active false)
  end.

Definition retransmit_oldest_segment : St CS unit := emit_rtx_entry 0.

Definition send_tlp_probe (now : Z) : St CS unit :=
  inflight <- getc rtx_bytes_in_flight;;
  if inflight =? 0 then setc (set_tlp_deadline_ms 0)
  else
    setc (fun c => set_tlp_count (sat_add8 (tlp_count c) 1) c);;
    emit_rtx_entry 0;;
    arm_tlp now;;
    arm_for_tick.

Definition set_sacked (b : bool) (e : RtxEntry) : RtxEntry :=
  mkRtx (iobuf e) (seq_start e) (len e) (first_tx_ms e) (last_tx_ms e) (tx_count e) b.

Definition retransmit_oldest (now : Z) : St CS unit :=
  inflight <- getc rtx_bytes_in_flight;;
  if inflight =? 0 then setc (set_rtx_deadline_ms 0)
  else
    congestion_on_rto;;
    setc (fun c => set_rtx_queue (set_sacked false <$> rtx_queue c) c);;
    retransmit_oldest_segment;;
    setc (set_tlp_deadline_ms 0);;
    setc (fun c => set_rtx_backoff (sat_add8 (rtx_backoff c) 1) c);;
    setc (fun c => set_rto_ms (Z.min (sat_mul32 (rto_ms c) 2) RTO_MAX_MS) c);;
    setc (fun c => set_rtx_deadline_ms (now + rto_ms c) c);;
    arm_for_tick.

(* ------------------------------------------------------------------ *)
(** ** SACK recovery and fast retransmit *)

(** [[seq_start, e_end)] lies inside the block. *)
Definition covers (e : RtxEntry) (b : Z * Z) : bool :=
  negb (seq_lt (seq_start e) (fst b)) && negb (seq_lt (snd b) (w32 (seq_start e + len e))).

Definition sack_entry (blocks : list (Z * Z)) (e : RtxEntry) : RtxEntry :=
  if sacked e then e
  else if existsb (covers e) blocks then set_sacked true e else e.

Definition apply_sack (blocks : list (Z * Z)) : St CS bool :=
  q <- getc rtx_queue;;
  let changed := existsb (fun e => negb (sacked e) && existsb (covers e) blocks) q in
  setc (set_rtx_queue (sack_entry blocks <$> q));;
  swhen changed (setc (set_rack_sack_hint true));;
  sret changed.

(** The largest of [key e] over the SACKed entries. *)
Definition max_sacked (key : RtxEntry -> Z) (q : list RtxEntry) : option Z :=
  foldl (fun acc e => if sacked e
    then Some (match acc with None => key e | Some m => Z.max m (key e) end) else acc) None q.

(** Runs the indices [l] in order. *)
Fixpoint for_each {A} (l : list A) (f : A -> St CS unit) : St CS unit :=
  match l with
  | [] => sret tt
  | i :: l => f i;; for_each l f
  end.

Definition sack_retransmit_holes : St CS unit :=
  c <- getc id;;
  let base := snd_una c in
  match max_sacked (fun e => w32 (w32 (seq_start e + len e) - base)) (rtx_queue c) with
  | None => sret tt
  | Some highest_off =>
      for_each (seq 0 (length (rtx_queue c))) (fun i =>
        q <- getc rtx_queue;;
        match q !! i with
        | None => sret tt
        | Some e =>
            if sacked e then sret tt
            else
              let off := w32 (seq_start e - base) in
              swhen ((Z.land off 2147483648 =? 0) && (off <? highest_off)) (emit_rtx_entry i)
        end)
  end.

Definition fast_retransmit : St CS unit :=
  setc (fun c => set_cc (Controller.on_loss 0 false (cc c)) c);;
  c <- getc id;;
  (if sack_ok c && existsb sacked (rtx_queue c) then sack_retransmit_holes
   else retransmit_oldest_segment);;
  setc (fun c => set_cwnd (Controller.window (cc c)) c).

Definition on_dup_ack : St CS unit :=
  setc (fun c => set_dup_acks (sat_add8 (dup_acks c) 1) c);;
  d <- getc dup_acks;;
  swhen (d =? 3) fast_retransmit.

Definition on_new_data_ack : St CS unit := setc (set_dup_acks 0).

(* ------------------------------------------------------------------ *)
(** ** RACK *)

(** The two-cursor merge: re-send every entry whose offset is the next lost
    one. *)
Fixpoint rack_resend (base : Z) (idxs : list nat) (lost : list Z) : St CS unit :=
  match idxs with
  | [] => sret tt
  | i :: idxs =>
      match lost with
      | [] => sret tt
      | l :: lost' =>
          q <- getc rtx_queue;;
          match q !! i with
          | None => sret tt
          | Some e =>
              if w32 (seq_start e - base) =? l then
                emit_rtx_entry i;; rack_resend base idxs lost'
              else rack_resend base idxs lost
          end
      end
  end.

Definition rack_params (srtt : Z) : LossParams :=
  mkLossParams U64_MAX (time_threshold_ticks (rfc9002 srtt 0 1 0)).

(** The un-SACKed entries as loss-detector units. *)
Definition rack_units (base : Z) (q : list RtxEntry) : list (Z * Z) :=
  (fun e => (w32 (seq_start e - base), last_tx_ms e)) <$> filter (fun e => sacked e = false) q.

Definition rack_detect (now_ms : Z) : St CS unit :=
  setc (set_rack_deadline_ms 0);;
  c <- getc id;;
  if negb (rack_sack_hint c) || (srtt_ms c =? 0) || (zlen (rtx_queue c) =? 0) then sret tt
  else
    let base := snd_una c in
    match max_sacked (fun e => w32 (seq_start e - base)) (rtx_queue c) with
    | None => setc (set_rack_sack_hint false)
    | Some largest_acked =>
        let (lost, deadline) :=
          detect (rack_params (srtt_ms c)) largest_acked now_ms (rack_units base (rtx_queue c)) in
        let lost_offs := (fun l => w32 (fst l)) <$> lost in
        swhen (negb (zlen lost_offs =? 0)) (
          setc (fun c => set_cc (Controller.on_loss 0 false (cc c)) c);;
          rack_resend base (seq 0 (length (rtx_queue c))) lost_offs;;
          setc (fun c => set_cwnd (Controller.window (cc c)) c));;
        match deadline with
        | Some dl => setc (set_rack_deadline_ms dl);; arm_for_tick
        | None => sret tt
        end
    end.
