(* ===== verification/RtxProps.v ===== *)
(** * Correctness of retransmission

    The retransmit queue against the byte stream the connection sent: the queue
    always covers a contiguous stretch of that stream, an acknowledgement
    retires exactly what it covers, and whatever recovery path re-sends
    (timeout, tail-loss probe, fast retransmit, SACK holes, RACK) puts on the
    wire the bytes first sent at those sequence numbers. *)

From S2P Require Import Prelude.
From S2P Require Import NetTypes.
From S2P Require Import CongestionControl.
From S2P Require Import Loss.
From S2P Require Import TcpTypes.
From S2P Require Import SeqNum.
From S2P Require Import TcpSend.
From S2P Require Import RxRing.
From S2P Require Import OooQueue.
From S2P Require Import Rtx.

#[local] Open Scope st_scope.

(* ------------------------------------------------------------------ *)
(** ** Invariant *)

(** The entries [q] hold the stream [st] from position [a] to position [b],
    without gap or overlap. *)
Fixpoint rtx_chain (st : Z -> Z) (a b : Z) (q : list RtxEntry) : Prop :=
  match q with
  | [] => a = b
  | e :: r =>
      seq_start e = w32 a /\ 0 < len e <= U16_MAX /\ iobuf e = stream_slice st a (len e) /\
      rtx_chain st (a + len e) b r
  end.

(** The connection retains the stream from [a] to [b]. *)
Record rtx_ok (st : Z -> Z) (a b : Z) (c : TcpConnection) : Prop := {
  rx_chain : rtx_chain st a b (rtx_queue c);
  rx_inflight : rtx_bytes_in_flight c = b - a;
  rx_window : b - a < 2147483648;
  rx_mss : is_u16 (snd_mss c)
}.

Section Chain.
Context (st : Z -> Z).

Lemma rtx_chain_le a b q : rtx_chain st a b q -> a <= b.
Proof.
  revert a. induction q as [|e q IH]; intros a; simpl; [lia|].
  intros (_ & H & _ & Hc). apply IH in Hc. lia.
Qed.

Lemma rtx_chain_snoc a b q e :
  rtx_chain st a b q -> seq_start e = w32 b -> 0 < len e <= U16_MAX ->
  iobuf e = stream_slice st b (len e) -> rtx_chain st a (b + len e) (q ++ [e]).
Proof.
  revert a. induction q as [|e' q IH]; intros a; simpl.
  - intros -> H1 H2 H3. repeat split; (done || lia).
  - intros (H1 & H2 & H3 & H4) He1 He2 He3. repeat split; try (done || lia). by apply IH.
Qed.

Lemma rtx_chain_lookup a b q i e :
  rtx_chain st a b q -> q !! i = Some e ->
  exists p, a <= p /\ p + len e <= b /\ seq_start e = w32 p /\ 0 < len e <= U16_MAX /\
    iobuf e = stream_slice st p (len e).
Proof.
  revert a i. induction q as [|e' q IH]; intros a i; simpl; [done|].
  intros (H1 & H2 & H3 & H4). destruct i as [|i]; simpl.
  - intros [= ->]. exists a. apply rtx_chain_le in H4. repeat split; (done || lia).
  - intros Hi. destruct (IH _ _ H4 Hi) as (p & ? & ? & ? & ? & ?). exists p.
    repeat split; (lia || done).
Qed.

(** Rewriting entries without touching what they cover. *)
Definition same_cover (e e' : RtxEntry) : Prop :=
  iobuf e' = iobuf e /\ seq_start e' = seq_start e /\ len e' = len e.

Lemma rtx_chain_cover a b q q' :
  Forall2 same_cover q q' -> rtx_chain st a b q -> rtx_chain st a b q'.
Proof.
  intros HF. revert a. induction HF as [|e e' q q' (H1 & H2 & H3) _ IH]; intros a; simpl; [done|].
  rewrite H1, H2, H3. intros (? & ? & ? & ?). auto.
Qed.

Lemma same_cover_refl e : same_cover e e.
Proof. done. Qed.

Lemma same_cover_insert q i e e' :
  q !! i = Some e -> same_cover e e' -> Forall2 same_cover q (<[i := e']> q).
Proof.
  revert i. induction q as [|e0 q IH]; intros i; [done|].
  destruct i as [|i]; simpl.
  - intros [= ->] H. constructor; [done|]. by apply Forall_Forall2_diag, Forall_true.
  - intros Hi H. constructor; [done|]. by apply IH.
Qed.

Lemma same_cover_fmap (f : RtxEntry -> RtxEntry) q :
  (forall e, same_cover e (f e)) -> Forall2 same_cover q (f <$> q).
Proof. intros H. induction q; constructor; auto. Qed.

End Chain.

(* ------------------------------------------------------------------ *)
(** ** Acknowledgement *)

(** [rtx_ack] at position [k] retires what the queue holds below [k]. *)
Lemma rtx_ack_loop_spec st a b k acked inflight q :
  rtx_chain st a b q -> a <= k -> k - a < 2147483648 -> b - a < 2147483648 ->
  b - a <= inflight ->
  exists q', rtx_ack_loop (w32 k) acked inflight q =
    (acked + (Z.min k b - a), (q', inflight - (Z.min k b - a))) /\
  rtx_chain st (Z.min k b) b q'.
Proof.
  revert a acked inflight. induction q as [|e q IH]; intros a acked inflight; simpl.
  { intros -> Hk _ _ _. rewrite Z.min_r by lia. exists []. rewrite Z.sub_diag, Z.add_0_r, Z.sub_0_r. done. }
  intros (Hs & Hl & Hb & Hc) Hk Hk2 Hw Hi. pose proof (rtx_chain_le _ _ _ _ Hc) as Hle.
  unfold U16_MAX in Hl.
  rewrite Hs, w32_add_l, seq_lt_abs by lia.
  destruct (k <? a + len e) eqn:E1; bool_to_prop; simpl negb; cbv iota.
  - rewrite seq_lt_abs by lia. destruct (a <? k) eqn:E2; bool_to_prop.
    + rewrite (w32_sub_cancel k a (k - a)) by int_lia. rewrite Hb, zlen_stream by lia.
      destruct (k - a <=? len e) eqn:E3; bool_to_prop; [|lia].
      rewrite Z.min_l by lia. eexists. split.
      * do 2 f_equal. unfold sat_sub. lia.
      * simpl. rewrite stream_zdrop, w16_small by int_lia. unfold sat_sub, U16_MAX.
        rewrite Z.max_r by lia. repeat split; try lia.
        -- f_equal; lia.
        -- replace (k + (len e - (k - a))) with (a + len e) by lia. done.
    + assert (k = a) as -> by lia. rewrite Z.min_l, Z.sub_diag, Z.add_0_r, Z.sub_0_r by lia.
      eexists. split; [done|]. simpl. done.
  - destruct (IH (a + len e) (acked + len e) (sat_sub inflight (len e)) Hc) as (q' & -> & Hq');
      try (unfold sat_sub; lia).
    exists q'. split; [|done]. unfold sat_sub. f_equal; [lia|f_equal; lia].
Qed.

(* ------------------------------------------------------------------ *)
(** ** Retransmissions *)

(** The segment carries bytes of the stream, at their sequence number, from
    inside [[a, b)]. *)
Definition stream_segment (st : Z -> Z) (a b : Z) (sg : Segment) : Prop :=
  exists p n, a <= p /\ 0 < n <= MSS_MAX /\ p + n <= b /\
    sm_seq (sg_meta sg) = w32 p /\ sg_payload sg = stream_slice st p n.

(** From [s] to [s'] the retained stretch is the same and only stream segments
    were emitted. *)
Definition resend_ok (st : Z -> Z) (a b : Z) (s s' : CS) : Prop :=
  rtx_ok st a b (fst s') /\
  exists new, out (snd s') = out (snd s) ++ new /\ Forall (stream_segment st a b) new.

Definition resends (st : Z -> Z) (a b : Z) {A} (m : St CS A) : Prop :=
  forall s, rtx_ok st a b (fst s) -> resend_ok st a b s (exec m s).

Section Resends.
Context (st : Z -> Z) (a b : Z).

Lemma resends_ret {A} (x : A) : resends st a b (sret x).
Proof. intros s Hs. split; [done|]. exists []. by rewrite app_nil_r. Qed.

Lemma resends_getc {A} (f : TcpConnection -> A) : resends st a b (getc f).
Proof. intros s Hs. split; [done|]. exists []. by rewrite app_nil_r. Qed.

Lemma resends_now : resends st a b now.
Proof. intros s Hs. rewrite exec_now. split; [done|]. exists []. by rewrite app_nil_r. Qed.

Lemma resends_bind {A B} (m : St CS A) (k : A -> St CS B) :
  resends st a b m -> (forall x, resends st a b (k x)) -> resends st a b (sbind m k).
Proof.
  intros Hm Hk s Hs. destruct (Hm s Hs) as (H1 & new1 & E1 & F1).
  rewrite exec_bind. destruct (Hk (eval m s) (exec m s) H1) as (H2 & new2 & E2 & F2).
  split; [done|]. exists (new1 ++ new2). rewrite E2, E1, app_assoc. split; [done|].
  by apply Forall_app.
Qed.

Lemma resends_when c (m : St CS unit) : resends st a b m -> resends st a b (swhen c m).
Proof. destruct c; [done|]. intros _. apply resends_ret. Qed.

Lemma resends_setc f :
  (forall c, Forall2 same_cover (rtx_queue c) (rtx_queue (f c)) /\
     rtx_bytes_in_flight (f c) = rtx_bytes_in_flight c /\ snd_mss (f c) = snd_mss c) ->
  resends st a b (setc f).
Proof.
  intros Hf s [H1 H2 H3 H4]. split; [|exists []; by rewrite app_nil_r].
  destruct (Hf (fst s)) as (Hq & Hi & Hm). split; simpl; [|by rewrite Hi|done|by rewrite Hm].
  by eapply rtx_chain_cover.
Qed.

(** Assignments to other fields. *)
Lemma resends_setc_frame f :
  (forall c, rtx_queue (f c) = rtx_queue c /\
     rtx_bytes_in_flight (f c) = rtx_bytes_in_flight c /\ snd_mss (f c) = snd_mss c) ->
  resends st a b (setc f).
Proof.
  intros Hf. apply resends_setc. intros c. destruct (Hf c) as (-> & -> & ->). split; [|done].
  by apply Forall_Forall2_diag, Forall_true.
Qed.

Lemma resends_arm : resends st a b arm_for_tick.
Proof.
  intros [c x] Hs. unfold arm_for_tick, register_armed_slot, exec. simpl in *.
  destruct (tick_in_list c); (split; [by destruct Hs|]); exists []; by rewrite app_nil_r.
Qed.

Lemma resends_for_each {A} (l : list A) f :
  (forall i, resends st a b (f i)) -> resends st a b (for_each l f).
Proof.
  intros Hf. induction l as [|i l IH]; simpl; [apply resends_ret|].
  apply resends_bind; auto.
Qed.

Lemma resends_emit i : resends st a b (emit_rtx_entry i).
Proof.
  intros [c x] Hs. unfold emit_rtx_entry. st_simpl. unfold id.
  destruct (rtx_queue c !! i) as [e|] eqn:Ei; [|by apply resends_ret].
  destruct (Z.min (len e) (snd_mss c) =? 0) eqn:En; [by apply resends_ret|]. bool_to_prop.
  st_simpl. destruct Hs as [Hc Hi Hw Hm]. simpl in *.
  destruct (rtx_chain_lookup _ _ _ _ _ _ Hc Ei) as (p & Hp1 & Hp2 & Hp3 & Hp4 & Hp5).
  split.
  - split; simpl; [|done|done|done]. eapply rtx_chain_cover; [|exact Hc].
    eapply same_cover_insert; [exact Ei|]. done.
  - destruct (send_segment_out (conn_meta c (seq_start e) (Z.lor TCP_ACK TCP_PSH) (w16 (rx_free c)))
      (ztake (Z.min (len e) (snd_mss c)) (iobuf e)) x) as (new & Hout & Hnew).
    exists new. split; [exact Hout|]. destruct Hnew as [->|(mac & id & ->)]; [done|].
    apply Forall_singleton. unfold U16_MAX, is_u16 in *.
    assert (0 < Z.min (len e) (snd_mss c)) by lia.
    exists p, (Z.min (Z.min (len e) (snd_mss c)) MSS_MAX). cbn [sg_meta sg_payload conn_meta sm_seq].
    rewrite Hp5, stream_ztake, zlen_stream, stream_ztake by lia.
    repeat split; (lia || done).
Qed.

End Resends.

Create HintDb resends.
#[export] Hint Resolve resends_ret resends_getc resends_now resends_when resends_arm
  resends_emit : resends.

(** Walks a program, leaving the goals no rule decides. *)
Ltac resend :=
  repeat match goal with
  | |- resends _ _ _ (sbind _ _) => apply resends_bind; [|intros ?]
  | |- resends _ _ _ (setc _) => first [apply resends_setc_frame; intros ?; by repeat split | fail 1]
  | |- resends _ _ _ (swhen _ _) => apply resends_when
  | |- resends _ _ _ (if ?b then _ else _) => destruct b
  | |- resends _ _ _ (match ?x with _ => _ end) => destruct x
  | |- resends _ _ _ (for_each _ _) => apply resends_for_each; intros ?
  | |- resends _ _ _ _ => solve [auto with resends nocore]
  end.

Section RecoveryPaths.
Context (st : Z -> Z) (a b : Z).

Lemma resends_holes : resends st a b sack_retransmit_holes.
Proof. unfold sack_retransmit_holes. resend. Qed.

Lemma resends_fast : resends st a b fast_retransmit.
Proof. unfold fast_retransmit, retransmit_oldest_segment. resend; apply resends_holes. Qed.

Lemma resends_dup : resends st a b on_dup_ack.
Proof. unfold on_dup_ack. resend. apply resends_fast. Qed.

Lemma resends_tlp now : resends st a b (send_tlp_probe now).
Proof. unfold send_tlp_probe, arm_tlp. resend. Qed.

Lemma resends_rto now : resends st a b (retransmit_oldest now).
Proof.
  unfold retransmit_oldest, congestion_on_rto, retransmit_oldest_segment. resend.
  apply resends_setc. intros c. split; [|done]. by apply same_cover_fmap.
Qed.

Lemma resends_rack_resend base idxs lost : resends st a b (rack_resend base idxs lost).
Proof.
  revert lost. induction idxs as [|i idxs IH]; intros lost; simpl; [resend|].
  destruct lost; resend; apply IH.
Qed.

Lemma resends_rack now : resends st a b (rack_detect now).
Proof. unfold rack_detect. resend. apply resends_rack_resend. Qed.

Lemma resends_sack blocks : resends st a b (apply_sack blocks).
Proof.
  intros [c x] [H1 H2 H3 H4]. unfold apply_sack. st_simpl.
  split; [|exists []; rewrite app_nil_r; by destruct (existsb _ _)].
  assert (rtx_chain st a b (sack_entry blocks <$> rtx_queue c)) as Hc.
  { eapply rtx_chain_cover; [|exact H1]. apply same_cover_fmap. intros e.
    unfold sack_entry. destruct (sacked e), (existsb (covers e) blocks); done. }
  destruct (existsb _ _); by split.
Qed.

End RecoveryPaths.

(* ------------------------------------------------------------------ *)
(** ** Retention *)

(** The part of a state the retransmit queue is about. *)
Definition rtx_view (s : CS) :=
  (snd_una (fst s), snd_nxt (fst s), snd_mss (fst s), rtx_queue (fst s),
   rtx_bytes_in_flight (fst s), rtx_alloc_failed (fst s), out (snd s)).

Lemma arm_rtx_view : preserves rtx_view arm_rtx.
Proof. unfold arm_rtx, arm_tlp. preserve_cs. Qed.

Lemma cwnd_on_ack_view acked : preserves rtx_view (cwnd_on_ack acked).
Proof. unfold cwnd_on_ack. preserve_cs. Qed.

#[local] Hint Resolve arm_rtx_view cwnd_on_ack_view : preserves.

Lemma rtx_push_result buf seq n now_ms s :
  eval (rtx_push buf seq n now_ms) s = eval try_reserve (snd s).
Proof.
  unfold rtx_push. st_simpl. destruct (eval try_reserve (snd s)); simpl negb; cbv iota; by st_simpl.
Qed.

Lemma try_reserve_out x : out (exec try_reserve x) = out x.
Proof. unfold exec, try_reserve. by destruct (allocs x). Qed.

Lemma rtx_push_view buf seq n now_ms s :
  let c := fst s in
  rtx_view (exec (rtx_push buf seq n now_ms) s) =
    if eval (rtx_push buf seq n now_ms) s then
      (snd_una c, snd_nxt c, snd_mss c,
       rtx_queue c ++ [mkRtx buf seq n now_ms now_ms 1 false],
       sat_add32 (rtx_bytes_in_flight c) n, rtx_alloc_failed c, out (snd s))
    else
      (snd_una c, snd_nxt c, snd_mss c, rtx_queue c, rtx_bytes_in_flight c, true, out (snd s)).
Proof.
  intros c. rewrite rtx_push_result. unfold rtx_push.
  rewrite exec_bind, eval_on_ctx, exec_on_ctx.
  pose proof (try_reserve_out (snd s)) as Hout.
  destruct (eval try_reserve (snd s)); simpl negb; cbv iota.
  - rewrite exec_bind, eval_getc, exec_getc, exec_bind, exec_setc.
    match goal with |- rtx_view (exec ?m ?s1) = _ => assert (rtx_view (exec m s1) = rtx_view s1) as -> end.
    { apply preserves_bind; [|intros ?]; preserve_cs. }
    unfold rtx_view. cbn [fst snd]. by rewrite Hout.
  - unfold rtx_view. st_simpl. by rewrite Hout.
Qed.

(** A push of the next [n] bytes of the stream. *)
Lemma rtx_push_ok st a b buf n now_ms s :
  rtx_alloc_failed (fst s) = false ->
  rtx_chain st a b (rtx_queue (fst s)) -> rtx_bytes_in_flight (fst s) = b - a ->
  0 < n <= U16_MAX -> b + n - a < 2147483648 -> buf = stream_slice st b n ->
  let s' := exec (rtx_push buf (w32 b) n now_ms) s in
  if eval (rtx_push buf (w32 b) n now_ms) s then
    rtx_alloc_failed (fst s') = false /\ rtx_chain st a (b + n) (rtx_queue (fst s')) /\
    rtx_bytes_in_flight (fst s') = b + n - a
  else rtx_alloc_failed (fst s') = true.
Proof.
  intros Hf Hc Hi Hn Hw Hb. cbv zeta. pose proof (rtx_chain_le _ _ _ _ Hc).
  pose proof (rtx_push_view buf (w32 b) n now_ms s) as Hv. unfold rtx_view in Hv.
  destruct (eval _ s); injection Hv as E1 E2 E3 E4 E5 E6 E7; rewrite ?E4, ?E5, ?E6; [|done].
  split; [done|]. split.
  - by apply (rtx_chain_snoc st a b _ (mkRtx buf (w32 b) n now_ms now_ms 1 false)).
  - rewrite Hi. unfold sat_add32, U32_MAX. lia.
Qed.

(** The first [n] bytes of a chain. *)
Definition chain_prefix (chain : list (list Z)) (n : Z) : list Z := ztake n (concat chain).

Lemma drain_chain_prefix_spec chain n :
  0 <= n -> concat (drain_chain_prefix chain n) = zdrop n (concat chain).
Proof.
  revert n. induction chain as [|front rest IH]; intros n Hn; simpl.
  { unfold zdrop. by rewrite drop_nil. }
  destruct (n =? 0) eqn:E0; bool_to_prop; [by subst|].
  destruct (zlen front <=? n) eqn:E; bool_to_prop.
  - rewrite IH by lia. unfold zdrop, zlen in *. rewrite drop_app_ge by lia. f_equal. lia.
  - simpl. unfold zdrop, zlen in *. rewrite drop_app_le by lia. done.
Qed.

Definition part_ok (p : list Z) : Prop := 0 < zlen p <= U16_MAX.

Lemma ztake_app_le {A} n (l1 l2 : list A) : n <= zlen l1 -> ztake n (l1 ++ l2) = ztake n l1.
Proof. unfold ztake, zlen. intros. apply take_app_le. lia. Qed.

(** The queue covers [[a, b)], or coverage is suspended. *)
Definition covered (st : Z -> Z) (a b : Z) (c : TcpConnection) : Prop :=
  if rtx_alloc_failed c then rtx_queue c = [] /\ rtx_bytes_in_flight c = 0
  else rtx_chain st a b (rtx_queue c) /\ rtx_bytes_in_flight c = b - a.

(** From [s] to [s'] only the retained stretch moved. *)
Definition sender_frame (s s' : CS) : Prop :=
  snd_una (fst s') = snd_una (fst s) /\ snd_nxt (fst s') = snd_nxt (fst s) /\
  snd_mss (fst s') = snd_mss (fst s) /\ out (snd s') = out (snd s).

Lemma sender_frame_trans s1 s2 s3 : sender_frame s1 s2 -> sender_frame s2 s3 -> sender_frame s1 s3.
Proof. unfold sender_frame. intros (?&?&?&?) (?&?&?&?). repeat split; congruence. Qed.

Lemma rtx_push_frame buf seq n now_ms s : sender_frame s (exec (rtx_push buf seq n now_ms) s).
Proof.
  pose proof (rtx_push_view buf seq n now_ms s) as Hv. unfold rtx_view in Hv.
  destruct (eval _ s); injection Hv as E1 E2 E3 E4 E5 E6 E7; by repeat split.
Qed.

Lemma oom_covered st a b s :
  rtx_alloc_failed (fst s) = true -> covered st a b (fst (exec handle_rtx_push_oom s)).
Proof. intros H. unfold covered, handle_rtx_push_oom. st_simpl. simpl. by rewrite H. Qed.

Lemma rtx_retain_ok st a b chain total now_ms s :
  Forall part_ok chain -> 0 <= total <= zlen (concat chain) ->
  chain_prefix chain total = stream_slice st b total ->
  b + total - a < 2147483648 -> rtx_alloc_failed (fst s) = false ->
  rtx_chain st a b (rtx_queue (fst s)) -> rtx_bytes_in_flight (fst s) = b - a ->
  let s' := exec (rtx_retain chain total (w32 b) now_ms) s in
  sender_frame s s' /\ covered st a (b + total) (fst s') /\
  concat (eval (rtx_retain chain total (w32 b) now_ms) s) = zdrop total (concat chain).
Proof.
  revert b total s. induction chain as [|front rest IH];
    intros b total s Hparts Ht Hpre Hw Hf Hc Hi; cbn [rtx_retain].
  { assert (total = 0) as -> by (unfold zlen in Ht; simpl in Ht; lia). rewrite Z.add_0_r.
    unfold covered. cbv zeta. rewrite exec_ret, Hf. done. }
  apply Forall_cons in Hparts as [Hp Hparts]. unfold part_ok, U16_MAX in Hp.
  pose proof (rtx_chain_le _ _ _ _ Hc) as Hle. cbv zeta.
  destruct (total =? 0) eqn:E0; bool_to_prop.
  { subst total. rewrite Z.add_0_r. unfold covered. rewrite exec_ret, Hf. done. }
  unfold chain_prefix in Hpre. simpl concat in *. rewrite zlen_app in Ht.
  destruct (zlen front <=? total) eqn:E1; bool_to_prop.
  - rewrite ztake_app_ge in Hpre by lia.
    replace total with (zlen front + (total - zlen front)) in Hpre at 2 by lia.
    rewrite <-stream_app in Hpre by lia. apply app_inj_1 in Hpre as [Hfr Hrest];
      [|apply Nat2Z.inj; change (zlen front = zlen (stream_slice st b (zlen front))); by rewrite zlen_stream by lia].
    rewrite w16_small, w32_add_l, w32_add_r, exec_bind, eval_bind, zdrop_app_ge by int_lia.
    pose proof (rtx_push_frame front (w32 b) (zlen front) now_ms s) as Hfrm.
    pose proof (rtx_push_ok st a b front (zlen front) now_ms s) as Hpush.
    destruct (eval (rtx_push front (w32 b) (zlen front) now_ms) s).
    + destruct Hpush as (P1 & P2 & P3); try (done || lia).
      destruct (IH (b + zlen front) (total - zlen front)
        (exec (rtx_push front (w32 b) (zlen front) now_ms) s) Hparts) as (Q1 & Q2 & Q3);
        try (done || lia).
      split; [by eapply sender_frame_trans|]. split; [|done].
      by replace (b + total) with (b + zlen front + (total - zlen front)) by lia.
    + st_simpl. split; [by eapply sender_frame_trans|]. split; [|by apply drain_chain_prefix_spec; lia].
      apply (oom_covered st a (b + total)). apply Hpush; (done || lia).
  - rewrite ztake_app_le in Hpre by lia.
    rewrite w16_small, exec_bind, eval_bind, zdrop_app_le by int_lia.
    pose proof (rtx_push_frame (ztake total front) (w32 b) total now_ms s) as Hfrm.
    pose proof (rtx_push_ok st a b (ztake total front) total now_ms s) as Hpush.
    destruct (eval (rtx_push (ztake total front) (w32 b) total now_ms) s); st_simpl;
      cbn [negb]; (split; [by eapply sender_frame_trans|]); (split; [|done]).
    + unfold covered. destruct Hpush as (-> & P2 & P3); (done || unfold U16_MAX; lia).
    + apply (oom_covered st a (b + total)). apply Hpush; (done || unfold U16_MAX; lia).
Qed.

(* ------------------------------------------------------------------ *)
(** ** The sender's life *)

(** The sender has sent [[.., b)], [[.., a)] is acknowledged, and unless an
    allocation failure suspended coverage the queue holds [[a, b)]. *)
Record snd_ok (st : Z -> Z) (a b : Z) (c : TcpConnection) : Prop := {
  so_una : snd_una c = w32 a;
  so_nxt : snd_nxt c = w32 b;
  so_win : 0 <= b - a < 2147483648;
  so_mss : is_u16 (snd_mss c);
  so_cover : covered st a b c
}.

Lemma rtx_on_data_sent_ok st a b chain total s :
  snd_ok st a b (fst s) -> Forall part_ok chain -> 0 <= total <= zlen (concat chain) ->
  chain_prefix chain total = stream_slice st b total -> b + total - a < 2147483648 ->
  let m := setc (fun c => set_snd_nxt (w32 (snd_nxt c + total)) c);; rtx_on_data_sent chain total in
  snd_ok st a (b + total) (fst (exec m s)) /\ out (snd (exec m s)) = out (snd s) /\
  concat (eval m s) = zdrop total (concat chain).
Proof.
  intros [Hu Hn Hw Hm Hc] Hparts Ht Hpre Hw' m. unfold m. rewrite exec_bind, eval_bind, exec_setc.
  destruct s as [c x]. cbn [fst snd] in *. unfold rtx_on_data_sent.
  set (s1 := (set_snd_nxt (w32 (snd_nxt c + total)) c, x)).
  assert (snd_nxt (fst s1) = w32 (b + total)) as Hn1 by (simpl; by rewrite Hn, w32_add_l).
  assert (covered st a b (fst s1)) as Hc1 by done.
  destruct (total =? 0) eqn:E0; bool_to_prop.
  { subst total. rewrite exec_ret, eval_ret. rewrite Z.add_0_r in *.
    split; [split; (done || lia)|done]. }
  st_simpl. change (rtx_alloc_failed (fst s1)) with (rtx_alloc_failed c).
  destruct (rtx_alloc_failed c) eqn:Ef; st_simpl.
  - split; [|split; [done|by apply drain_chain_prefix_spec; lia]].
    split; [done|done|lia|done|]. unfold covered in *. simpl in *. by rewrite Ef in *.
  - unfold covered in Hc. rewrite Ef in Hc. destruct Hc as [Hq Hi].
    rewrite Hn1, (w32_sub_r (w32 (b + total)) total), w32_sub_l.
    replace (b + total - total) with b by lia.
    destruct (rtx_retain_ok st a b chain total (now_ms (snd s1)) s1) as ((F1 & F2 & F3 & F4) & Hcov & Hch);
      try done.
    split; [|split; [by rewrite F4|done]].
    split; [by rewrite F1|by rewrite F2|lia|by rewrite F3|done].
Qed.

(** A TSO record of the next bytes of the stream, retained as one entry. *)
Lemma rtx_on_data_sent_slice_ok st a b bytes s :
  snd_ok st a b (fst s) -> zlen bytes <= U16_MAX -> bytes = stream_slice st b (zlen bytes) ->
  b + zlen bytes - a < 2147483648 ->
  let m := setc (fun c => set_snd_nxt (w32 (snd_nxt c + zlen bytes)) c);; rtx_on_data_sent_slice bytes in
  snd_ok st a (b + zlen bytes) (fst (exec m s)) /\ out (snd (exec m s)) = out (snd s).
Proof.
  intros [Hu Hn Hw Hm Hc] Hl Hb Hw' m. unfold m. rewrite exec_bind, exec_setc. destruct s as [c x]. cbn [fst snd] in *.
  pose proof (zlen_nonneg bytes) as Hpos. unfold rtx_on_data_sent_slice.
  rewrite exec_bind, eval_getc, exec_getc. cbn [fst].
  change (rtx_alloc_failed (set_snd_nxt _ c)) with (rtx_alloc_failed c).
  assert (w32 (snd_nxt c + zlen bytes) = w32 (b + zlen bytes)) as -> by by rewrite Hn, w32_add_l.
  destruct (zlen bytes =? 0) eqn:E0; cbn [orb]; bool_to_prop.
  { rewrite exec_ret. rewrite E0, Z.add_0_r in *. split; [split; (done || lia)|done]. }
  unfold covered in Hc. destruct (rtx_alloc_failed c) eqn:Ef.
  { rewrite exec_ret. split; [|done]. split; [done|done|lia|done|]. unfold covered. simpl. by rewrite Ef. }
  destruct Hc as [Hq Hi]. rewrite exec_bind, eval_on_ctx, exec_on_ctx. cbn [fst snd].
  pose proof (try_reserve_out x) as Ho. destruct (eval try_reserve x); cbn [negb]; cbv iota.
  - set (s1 := (set_snd_nxt (w32 (b + zlen bytes)) c, exec try_reserve x)).
    rewrite exec_bind, eval_getc, exec_getc, exec_bind, eval_now, exec_now, exec_bind.
    change (snd_nxt (fst s1)) with (w32 (b + zlen bytes)).
    rewrite w32_sub_r, w32_sub_l, w16_small by (unfold_ints; lia).
    replace (b + zlen bytes - zlen bytes) with b by lia.
    pose proof (rtx_push_frame bytes (w32 b) (zlen bytes) (now_ms (snd s1)) s1) as (F1 & F2 & F3 & F4).
    pose proof (rtx_push_ok st a b bytes (zlen bytes) (now_ms (snd s1)) s1 Ef Hq Hi ltac:(lia) Hw' Hb) as Hp.
    cbv zeta in Hp. destruct (eval (rtx_push _ _ _ _) s1);
      set (s2 := exec (rtx_push _ _ _ _) s1) in *; clearbody s2; cbn [negb swhen].
    + rewrite exec_ret. destruct Hp as (P1 & P2 & P3).
      split; [|by rewrite F4]. split; [by rewrite F1|by rewrite F2|lia|by rewrite F3|].
      unfold covered. by rewrite P1.
    + pose proof (oom_covered st a (b + zlen bytes) _ Hp) as Hcov. unfold handle_rtx_push_oom in *.
      rewrite exec_setc in *. split; [|cbn [fst snd] in *; rewrite <-Ho; exact F4].
      split; [simpl; by rewrite F1|simpl; by rewrite F2|lia|simpl; by rewrite F3|done].
  - unfold handle_rtx_push_oom. rewrite exec_bind, !exec_setc. split; [|done]. by split; [done|done|lia|done|].
Qed.

(** An acknowledgement at position [k], which may be one past the data (the FIN). *)
Lemma rtx_ack_view st a b k s :
  rtx_chain st a b (rtx_queue (fst s)) -> rtx_bytes_in_flight (fst s) = b - a ->
  a <= k -> k - a < 2147483648 -> b - a < 2147483648 ->
  let s' := exec (rtx_ack (w32 k)) s in
  sender_frame s s' /\ rtx_alloc_failed (fst s') = rtx_alloc_failed (fst s) /\
  rtx_chain st (Z.min k b) b (rtx_queue (fst s')) /\ rtx_bytes_in_flight (fst s') = b - Z.min k b.
Proof.
  intros Hc Hi Hk Hk2 Hw. destruct s as [c x]. cbn [fst] in *. unfold rtx_ack, exec. cbn [fst].
  destruct (rtx_ack_loop_spec st a b k 0 (rtx_bytes_in_flight c) (rtx_queue c)) as (q' & -> & Hq');
    try (done || lia).
  simpl. repeat split; try (done || lia).
Qed.

(** An acknowledgement of position [k], [snd_una] already advanced to it; [e] is where
    [snd_nxt] stands. *)
Lemma rtx_on_ack_ok st a b e k s :
  snd_una (fst s) = w32 k -> snd_nxt (fst s) = w32 e -> covered st (Z.min a b) b (fst s) ->
  a <= k <= e -> b <= e <= b + 1 -> e - a < 2147483648 ->
  let s' := exec (rtx_on_ack (w32 a)) s in
  sender_frame s s' /\ covered st (Z.min k b) b (fst s').
Proof.
  intros Hu Hn Hc Hk He Hw. cbv zeta. unfold rtx_on_ack. rewrite exec_bind, eval_getc, exec_getc.
  unfold id, covered in *. rewrite Hu, Hn.
  destruct (rtx_alloc_failed (fst s)) eqn:Ef.
  - rewrite exec_when. destruct (w32 k =? w32 e) eqn:E; bool_to_prop.
    + apply w32_inj in E; [|lia]. subst k. rewrite exec_setc. destruct Hc as [Hq Hi]. simpl.
      rewrite Hq, Hi, Z.min_r by lia. split; [done|]. split; [done|lia].
    + by rewrite Ef.
  - destruct Hc as [Hq Hi]. destruct (w32 k =? w32 a) eqn:E; bool_to_prop.
    { apply w32_inj in E; [|lia]. subst k. rewrite exec_ret, Ef. done. }
    rewrite exec_bind.
    match goal with |- context [exec ?m (exec (rtx_ack _) s)] =>
      assert (preserves rtx_view m) as Hp; [preserve_cs|specialize (Hp (exec (rtx_ack (w32 k)) s))] end.
    { apply preserves_setc. intros [c' x']. unfold sample_rtt. simpl. by destruct (rtt_seeded c'). }
    destruct (rtx_ack_view st (Z.min a b) b k s Hq Hi ltac:(lia) ltac:(lia) ltac:(lia)) as ((F1 & F2 & F3 & F4) & Ha & Hq' & Hi').
    unfold rtx_view in Hp. injection Hp as E1 E2 E3 E4 E5 E6 E7. unfold sender_frame.
    rewrite E1, E2, E3, E4, E5, E6, E7, Ha, Ef. by repeat split.
Qed.

Inductive snd_op :=
  | SSend (chain : list (list Z)) (total : Z)
  | SSlice (bytes : list Z)
  | SFin
  | SAck (k : Z)
  | SRto (now : Z) | STlp (now : Z) | SDupAck | SRack (now : Z) | SSack (blocks : list (Z * Z)).

(** The steps as the callers take them: a send advances [snd_nxt] before it
    retains the bytes, be they a chain or a TSO record, the FIN takes a sequence
    number no entry holds, and an acknowledgement advances [snd_una] before it
    retires what it covers. *)
Definition snd_step (op : snd_op) : St CS unit :=
  match op with
  | SSend chain total =>
      setc (fun c => set_snd_nxt (w32 (snd_nxt c + total)) c);;
      rtx_on_data_sent chain total;; sret tt
  | SSlice bytes =>
      setc (fun c => set_snd_nxt (w32 (snd_nxt c + zlen bytes)) c);; rtx_on_data_sent_slice bytes
  | SFin => setc (fun c => set_snd_nxt (w32 (snd_nxt c + 1)) c)
  | SAck k => old_una <- getc snd_una;; setc (set_snd_una (w32 k));; rtx_on_ack old_una
  | SRto now => retransmit_oldest now
  | STlp now => send_tlp_probe now
  | SDupAck => on_dup_ack
  | SRack now => rack_detect now
  | SSack blocks => apply_sack blocks;; sret tt
  end.

Fixpoint snd_run (ops : list snd_op) : St CS unit :=
  match ops with
  | [] => sret tt
  | op :: ops => snd_step op;; snd_run ops
  end.

(** [op] is possible when the data sent ends at [b], everything before [a] is
    acknowledged and [fin] says whether the FIN, which takes one sequence number
    after the data, went out; it leaves [a'], [b']
    and [fin']. *)
Definition snd_op_ok (st : Z -> Z) (a b : Z) (fin : bool) (op : snd_op) (a' b' : Z) (fin' : bool) : Prop :=
  match op with
  | SSend chain total =>
      fin = false /\ Forall part_ok chain /\ 0 <= total <= zlen (concat chain) /\
      chain_prefix chain total = stream_slice st b total /\
      b + total - a < 2147483648 /\ a' = a /\ b' = b + total /\ fin' = false
  | SSlice bytes =>
      fin = false /\ zlen bytes <= U16_MAX /\ bytes = stream_slice st b (zlen bytes) /\
      b + zlen bytes - a < 2147483648 /\ a' = a /\ b' = b + zlen bytes /\ fin' = false
  | SFin => fin = false /\ b + 1 - a < 2147483648 /\ a' = a /\ b' = b /\ fin' = true
  | SAck k => a <= k <= b + Z.b2z fin /\ a' = k /\ b' = b /\ fin' = fin
  | _ => a' = a /\ b' = b /\ fin' = fin
  end.

Inductive snd_ops_ok (st : Z -> Z) : Z -> Z -> bool -> list snd_op -> Z -> Z -> bool -> Prop :=
  | sops_nil a b fin : snd_ops_ok st a b fin [] a b fin
  | sops_cons a b fin op ops a1 b1 fin1 a2 b2 fin2 :
      snd_op_ok st a b fin op a1 b1 fin1 -> snd_ops_ok st a1 b1 fin1 ops a2 b2 fin2 ->
      snd_ops_ok st a b fin (op :: ops) a2 b2 fin2.

(** The sender has sent the data [[.., b)], then the FIN if [fin]; everything
    before [a] is acknowledged, and unless an allocation failure suspended
    coverage the queue holds the data outstanding. *)
Record snd_life (st : Z -> Z) (a b : Z) (fin : bool) (c : TcpConnection) : Prop := {
  sl_una : snd_una c = w32 a;
  sl_nxt : snd_nxt c = w32 (b + Z.b2z fin);
  sl_win : 0 <= b + Z.b2z fin - a < 2147483648;
  sl_mss : is_u16 (snd_mss c);
  sl_cover : covered st (Z.min a b) b c
}.

Lemma snd_life_data st a b c : snd_life st a b false c <-> snd_ok st a b c.
Proof.
  split; intros [Hu Hn Hw Hm Hc]; cbn [Z.b2z] in *; rewrite ?Z.add_0_r in *;
    (split; [done|cbn [Z.b2z]; rewrite ?Z.add_0_r; done|cbn [Z.b2z]; lia|done|]).
  - by rewrite Z.min_l in Hc by lia.
  - by rewrite Z.min_l by lia.
Qed.

(** The fields recovery never touches. *)
Definition seq_view (s : CS) :=
  (snd_una (fst s), snd_nxt (fst s), snd_mss (fst s), rtx_alloc_failed (fst s)).

Lemma emit_seq_view i : preserves seq_view (emit_rtx_entry i).
Proof. unfold emit_rtx_entry. preserve_cs. Qed.
#[local] Hint Resolve emit_seq_view : preserves.

Lemma for_each_preserves {A T} (f : CS -> T) (l : list A) g :
  (forall i, preserves f (g i)) -> preserves f (for_each l g).
Proof. intros H. induction l as [|i l IH]; simpl; preserve_cs; auto. Qed.

Lemma rack_resend_seq_view base idxs lost : preserves seq_view (rack_resend base idxs lost).
Proof.
  revert lost. induction idxs as [|i idxs IH]; intros lost; simpl; [preserve_cs|].
  destruct lost; preserve_cs; apply IH.
Qed.

Lemma holes_seq_view : preserves seq_view sack_retransmit_holes.
Proof. unfold sack_retransmit_holes. preserve_cs. apply for_each_preserves. intros i. preserve_cs. Qed.
#[local] Hint Resolve rack_resend_seq_view holes_seq_view : preserves.

(** A recovery step keeps the sender's invariant and emits stream bytes. *)
Lemma recovery_step st a b fin (m : St CS unit) s :
  preserves seq_view m -> (forall a b, resends st a b m) ->
  snd_life st a b fin (fst s) ->
  snd_life st a b fin (fst (exec m s)) /\
  exists new, out (snd (exec m s)) = out (snd s) ++ new /\ Forall (stream_segment st a b) new.
Proof.
  intros Hp Hr [Hu Hn Hw Hm Hc]. specialize (Hp s). unfold seq_view in Hp.
  injection Hp as E1 E2 E3 E4. unfold covered in Hc. set (lo := Z.min a b) in *.
  assert (0 <= b - lo < 2147483648) as Hlo by (unfold Z.b2z in Hw; destruct fin; lia).
  assert (exists b', lo <= b' <= b /\ (if rtx_alloc_failed (fst s) then b' = lo else b' = b) /\
    rtx_ok st lo b' (fst s)) as (b' & Hb' & Hcase & Hok).
  { destruct (rtx_alloc_failed (fst s)); [exists lo|exists b]; (split; [lia|split; [done|]]);
      destruct Hc as [Hq Hi]; split; rewrite ?Hq, ?Hi; (done || lia). }
  destruct (Hr lo b' s Hok) as ([Rc Ri Rw _] & new & Hout & Hnew). split.
  - split; [by rewrite E1|by rewrite E2|done|by rewrite E3|]. unfold covered. rewrite E4.
    destruct (rtx_alloc_failed (fst s)); subst b'; [|done].
    split; [|lia]. destruct (rtx_queue (fst (exec m s))) as [|e q]; [done|].
    destruct Rc as (_ & Hl & _ & Hc'). apply rtx_chain_le in Hc'. lia.
  - exists new. split; [done|]. eapply Forall_impl; [exact Hnew|].
    intros sg (p & n & H1 & H2 & H3 & H4). exists p, n. repeat split; try (done || lia); apply H4.
Qed.

Lemma rto_seq_view now : preserves seq_view (retransmit_oldest now).
Proof. unfold retransmit_oldest, congestion_on_rto, retransmit_oldest_segment. preserve_cs. Qed.

Lemma tlp_seq_view now : preserves seq_view (send_tlp_probe now).
Proof. unfold send_tlp_probe, arm_tlp. preserve_cs. Qed.

Lemma dup_seq_view : preserves seq_view on_dup_ack.
Proof. unfold on_dup_ack, fast_retransmit, retransmit_oldest_segment. preserve_cs. Qed.

Lemma rack_seq_view now : preserves seq_view (rack_detect now).
Proof. unfold rack_detect. preserve_cs. Qed.

Lemma sack_seq_view blocks : preserves seq_view (apply_sack blocks).
Proof. unfold apply_sack. preserve_cs. Qed.
#[local] Hint Resolve sack_seq_view : preserves.

Lemma snd_step_ok st a b fin op a' b' fin' s :
  snd_life st a b fin (fst s) -> snd_op_ok st a b fin op a' b' fin' ->
  a <= a' /\ b <= b' /\ snd_life st a' b' fin' (fst (exec (snd_step op) s)) /\
  exists new, out (snd (exec (snd_step op) s)) = out (snd s) ++ new /\
    Forall (stream_segment st a b) new.
Proof.
  intros Hs Hop.
  assert (forall m : St CS unit, preserves seq_view m -> (forall a b, resends st a b m) ->
    a' = a /\ b' = b /\ fin' = fin ->
    a <= a' /\ b <= b' /\ snd_life st a' b' fin' (fst (exec m s)) /\
    exists new, out (snd (exec m s)) = out (snd s) ++ new /\ Forall (stream_segment st a b) new) as Hrec.
  { intros m Hp Hr (-> & -> & ->). split; [lia|]. split; [lia|]. by apply recovery_step. }
  destruct op as [chain total|bytes| |k|now|now| |now|blocks]; simpl in Hop.
  - destruct Hop as (-> & H1 & H2 & H3 & H4 & -> & -> & ->). rewrite snd_life_data in *.
    destruct (rtx_on_data_sent_ok st a b chain total s Hs H1 H2 H3 H4) as (K1 & K2 & _).
    split; [lia|]. split; [lia|]. simpl. rewrite !exec_bind in *. rewrite !exec_ret.
    split; [done|]. exists []. by rewrite app_nil_r.
  - destruct Hop as (-> & H1 & H2 & H3 & -> & -> & ->). rewrite snd_life_data in *.
    pose proof (zlen_nonneg bytes).
    destruct (rtx_on_data_sent_slice_ok st a b bytes s Hs H1 H2 H3) as (K1 & K2).
    split; [lia|]. split; [lia|]. split; [done|]. exists []. by rewrite app_nil_r.
  - destruct Hop as (-> & H1 & -> & -> & ->). split; [lia|]. split; [lia|].
    destruct Hs as [Hu Hn Hw Hm Hc]. destruct s as [c x]. cbn [Z.b2z] in *.
    cbn [snd_step]. rewrite exec_setc. cbn [fst snd] in *. split; [|exists []; by rewrite app_nil_r].
    split; cbn [Z.b2z]; try (done || lia). simpl. rewrite Hn, w32_add_l. f_equal. lia.
  - destruct Hop as (Hk & -> & -> & ->). split; [lia|]. split; [lia|].
    destruct Hs as [Hu Hn Hw Hm Hc]. destruct s as [c x]. cbn [fst snd] in *.
    cbn [snd_step]. rewrite !exec_bind, exec_getc, eval_getc, exec_setc. cbn [fst snd]. rewrite Hu.
    assert (0 <= Z.b2z fin <= 1) by (destruct fin; simpl; lia).
    destruct (rtx_on_ack_ok st a b (b + Z.b2z fin) k (set_snd_una (w32 k) c, x)) as ((F1 & F2 & F3 & F4) & Hcov);
      try (done || lia).
    split; [|exists []; by rewrite app_nil_r].
    split; [by rewrite F1|by rewrite F2|lia|by rewrite F3|done].
  - apply Hrec; [apply rto_seq_view|intros; apply resends_rto|done].
  - apply Hrec; [apply tlp_seq_view|intros; apply resends_tlp|done].
  - apply Hrec; [apply dup_seq_view|intros; apply resends_dup|done].
  - apply Hrec; [apply rack_seq_view|intros; apply resends_rack|done].
  - apply Hrec; [simpl; preserve_cs|intros; simpl; resend; apply resends_sack|done].
Qed.

Lemma stream_segment_weaken st a b a' b' sg :
  a' <= a -> b <= b' -> stream_segment st a b sg -> stream_segment st a' b' sg.
Proof.
  intros ? ? (p & n & H1 & H2 & H3 & H4). exists p, n. repeat split; try (done || lia); apply H4.
Qed.

Lemma snd_ops_grow st a b fin ops a' b' fin' : snd_ops_ok st a b fin ops a' b' fin' -> b <= b'.
Proof.
  intros Hops. induction Hops as [|? ? ? op ? ? ? ? ? ? ? Hop]; [lia|].
  destruct op; simpl in Hop; try lia. pose proof (zlen_nonneg bytes). lia.
Qed.

(** C1: A sender re-sends exactly what it sent.  Take an established
    connection and any sequence of sends of a chain of parts of 1 to 65535 bytes
    each, TSO records of at most 65535 bytes, the FIN, acknowledgements up to and
    including the FIN, SACKs, timeouts, tail-loss probes, duplicate ACKs and
    RACK runs, with less than half the sequence space outstanding.  While no
    retransmit record has failed to allocate, the retransmit queue covers
    exactly the data bytes outstanding; after a failure it is empty, and stays
    so until everything outstanding is acknowledged.  Every segment a recovery
    path emits carries, at its sequence number, the bytes of the stream at that
    position, never beyond the data sent. *)
Theorem sender_resends_the_stream st a b fin ops a' b' fin' s :
  snd_life st a b fin (fst s) -> snd_ops_ok st a b fin ops a' b' fin' ->
  snd_life st a' b' fin' (fst (exec (snd_run ops) s)) /\
  exists new, out (snd (exec (snd_run ops) s)) = out (snd s) ++ new /\
    Forall (stream_segment st a b') new.
Proof.
  intros Hs Hops. revert s Hs.
  induction Hops as [a b fin|a b fin op ops a1 b1 fin1 a2 b2 fin2 Hop Hops IH]; intros s Hs; cbn [snd_run].
  - rewrite exec_ret. split; [done|]. exists []. by rewrite app_nil_r.
  - rewrite exec_bind.
    destruct (snd_step_ok st a b fin op a1 b1 fin1 s Hs Hop) as (Ha & Hb & H1 & new1 & E1 & F1).
    destruct (IH _ H1) as (H2 & new2 & E2 & F2). split; [done|]. exists (new1 ++ new2).
    pose proof (snd_ops_grow _ _ _ _ _ _ _ _ Hops).
    rewrite E2, E1, app_assoc. split; [done|]. apply Forall_app.
    split; eapply Forall_impl; [exact F1| |exact F2|]; intros sg; apply stream_segment_weaken; lia.
Qed.

Definition sending_conn : TcpConnection :=
  new_conn |> set_state Established |> set_snd_una 4294967295 |> set_snd_nxt 4294967295
    |> set_cwnd 14600 |> set_snd_wnd 65535.

Definition sending_trace : list snd_op :=
  [SSend [[1; 2; 3]; [4; 5]] 4; SSlice [5; 6]; SFin; SAck 4294967297; SRto 1000; SAck 4294967302].

Lemma sending_conn_ok :
  snd_life (fun p => p - 4294967294) 4294967295 4294967295 false sending_conn.
Proof. split; try reflexivity; [cbn; lia|vm_compute; split; congruence|split; reflexivity]. Qed.

Lemma sending_trace_ok :
  snd_ops_ok (fun p => p - 4294967294) 4294967295 4294967295 false sending_trace 4294967302 4294967301 true.
Proof.
  apply (sops_cons _ _ _ _ _ _ 4294967295 4294967299 false).
  { repeat split; try reflexivity; try lia; [|vm_compute; congruence].
    repeat constructor; vm_compute; congruence. }
  apply (sops_cons _ _ _ _ _ _ 4294967295 4294967301 false); [by vm_compute|].
  apply (sops_cons _ _ _ _ _ _ 4294967295 4294967301 true); [by vm_compute|].
  apply (sops_cons _ _ _ _ _ _ 4294967297 4294967301 true); [repeat split; cbn; lia|].
  apply (sops_cons _ _ _ _ _ _ 4294967297 4294967301 true); [by split|].
  apply (sops_cons _ _ _ _ _ _ 4294967302 4294967301 true); [repeat split; cbn; lia|]. apply sops_nil.
Qed.

Lemma sender_resends_the_stream_witness :
  snd_life (fun p => p - 4294967294) 4294967302 4294967301 true
    (fst (exec (snd_run sending_trace) (sending_conn, idle_ctx))) /\
  (fun sg => (sm_seq (sg_meta sg), sg_payload sg)) <$>
    out (snd (exec (snd_run sending_trace) (sending_conn, idle_ctx))) = [(1, [3])] /\
  rtx_queue (fst (exec (snd_run sending_trace) (sending_conn, idle_ctx))) = [].
Proof.
  pose proof (sender_resends_the_stream (fun p => p - 4294967294) 4294967295 4294967295 false
    sending_trace 4294967302 4294967301 true (sending_conn, idle_ctx)
    sending_conn_ok sending_trace_ok) as H.
  destruct H as [H _]. split; [exact H|split; vm_compute; reflexivity].
Defined.

(** [rtx_ack] retires exactly the retained bytes an acknowledgement
    covers.  For an acknowledgement of position [k], which may lie past the
    data (the SYN and FIN take sequence numbers no entry holds), the count it
    returns is the number of data bytes below [k], and the queue then holds
    exactly the stream from there on: fully covered entries are gone and a
    partly covered head is narrowed, wrap-around included. *)
Theorem rtx_ack_retires_exactly st a b k s :
  rtx_ok st a b (fst s) -> a <= k < a + 2147483648 ->
  let acked := Z.min k b - a in
  eval (rtx_ack (w32 k)) s = acked /\
  rtx_ok st (a + acked) b (fst (exec (rtx_ack (w32 k)) s)).
Proof.
  intros [Hc Hi Hw Hm] Hk. destruct s as [c x]. cbn [fst] in *. unfold rtx_ack, exec, eval. cbn [fst].
  pose proof (rtx_chain_le _ _ _ _ Hc).
  destruct (rtx_ack_loop_spec st a b k 0 (rtx_bytes_in_flight c) (rtx_queue c)) as (q' & -> & Hq');
    try (done || lia).
  cbn [fst snd]. split; [lia|]. replace (a + (Z.min k b - a)) with (Z.min k b) by lia.
  split; simpl; (done || lia).
Qed.

Lemma rtx_ack_retires_exactly_witness :
  let c := new_conn |> set_rtx_queue [mkRtx [1; 2] 4294967295 2 0 0 1 false; mkRtx [3; 4] 1 2 0 0 1 false]
    |> set_rtx_bytes_in_flight 4 in
  eval (rtx_ack 2) (c, idle_ctx) = 3 /\ rtx_queue (fst (exec (rtx_ack 2) (c, idle_ctx))) = [mkRtx [4] 2 1 0 0 1 false].
Proof.
  intros c. split; [|vm_compute; reflexivity].
  destruct (rtx_ack_retires_exactly (fun p => p - 4294967294) 4294967295 4294967299 4294967298
    (c, idle_ctx)) as [H _].
  - split; [|reflexivity|lia|vm_compute; split; congruence].
    repeat split; try reflexivity; vm_compute; congruence.
  - lia.
  - exact H.
Defined.

(* ------------------------------------------------------------------ *)
(** ** RTT estimator and timeout *)

Definition rtt_ok (c : TcpConnection) : Prop :=
  is_u32 (srtt_ms c) /\ is_u32 (rttvar_ms c) /\ (rtt_seeded c = true -> 1 <= srtt_ms c).

Lemma sample_rtt_hull r c :
  rtt_ok c -> is_u32 r ->
  let r := Z.max r 1 in
  let c' := sample_rtt r c in
  rtt_ok c' /\ rtt_seeded c' = true /\
  (if rtt_seeded c then Z.min (srtt_ms c) r <= srtt_ms c' <= Z.max (srtt_ms c) r else srtt_ms c' = r) /\
  rttvar_ms c' <= Z.max (rttvar_ms c) (Z.max r (srtt_ms c)).
Proof.
  intros (Hs & Hv & H1) Hr r0. unfold sample_rtt, rtt_ok. replace (Z.max r0 1) with r0 by lia.
  destruct (rtt_seeded c) eqn:Es; simpl.
  - specialize (H1 eq_refl). rewrite !Z.shiftr_div_pow2 by lia. change (2 ^ 2) with 4. change (2 ^ 3) with 8.
    unfold_ints. rewrite !(Z.mod_small _ 4294967296) by (Z.to_euclidean_division_equations; lia).
    repeat split; intros; try done; Z.to_euclidean_division_equations; lia.
  - unfold_ints. repeat split; intros; Z.to_euclidean_division_equations; lia.
Qed.

Lemma estimated_rto_range c : RTO_INITIAL_MS <= estimated_rto c <= RTO_MAX_MS.
Proof.
  unfold estimated_rto. destruct (negb _); lia.
Qed.

Definition sample_all (rs : list Z) (c : TcpConnection) : TcpConnection :=
  foldl (fun c r => sample_rtt r c) c rs.

Lemma sample_rtt_max r c : sample_rtt (Z.max r 1) c = sample_rtt r c.
Proof. unfold sample_rtt. by replace (Z.max (Z.max r 1) 1) with (Z.max r 1) by lia. Qed.

Lemma sample_all_hull lo hi rs c :
  rtt_ok c -> Forall (fun r => is_u32 r /\ lo <= Z.max r 1 <= hi) rs ->
  rtt_seeded c = true -> lo <= srtt_ms c <= hi -> rttvar_ms c <= hi ->
  let c' := sample_all rs c in
  rtt_ok c' /\ rtt_seeded c' = true /\ lo <= srtt_ms c' <= hi /\ rttvar_ms c' <= hi.
Proof.
  revert c. induction rs as [|r rs IH]; intros c Hok Hrs Hs Hl Hv; [done|].
  apply Forall_cons in Hrs as [[Hr Hb] Hrs]. simpl.
  destruct (sample_rtt_hull r c Hok Hr) as (H1 & H2 & H3 & H4). rewrite Hs, sample_rtt_max in *.
  apply IH; (done || lia).
Qed.

(** The RTT estimator is well-behaved on 32-bit milliseconds.  Over any
    nonempty run of samples it never wraps, the smoothed RTT stays between the
    smallest and the largest sample (floored at the 1 ms clock), the variance
    never exceeds the largest, and the timeout it implies is always within
    [1 s, 60 s]. *)
Theorem rtt_estimator_bounded lo hi r rs c :
  rtt_seeded c = false -> rtt_ok c ->
  Forall (fun r => is_u32 r /\ lo <= Z.max r 1 <= hi) (r :: rs) ->
  let c' := sample_all (r :: rs) c in
  lo <= srtt_ms c' <= hi /\ 0 <= rttvar_ms c' <= hi /\ rtt_ok c' /\
  RTO_INITIAL_MS <= estimated_rto c' <= RTO_MAX_MS.
Proof.
  intros Hs Hok Hall. apply Forall_cons in Hall as [[Hr Hb] Hrs].
  destruct (sample_rtt_hull r c Hok Hr) as (H1 & H2 & H3 & H4). rewrite Hs, sample_rtt_max in *.
  assert (rttvar_ms (sample_rtt r c) <= hi) as Hv.
  { unfold sample_rtt. rewrite Hs. simpl. Z.to_euclidean_division_equations; lia. }
  destruct (sample_all_hull lo hi rs (sample_rtt r c)) as (K1 & K2 & K3 & K4); try (done || lia).
  cbv zeta. split; [done|]. split; [|split; [done|apply estimated_rto_range]].
  destruct K1 as (_ & [? _] & _). done.
Qed.

Lemma rtt_estimator_bounded_witness :
  let c' := sample_all [120; 80; 400] new_conn in
  80 <= srtt_ms c' <= 400 /\ estimated_rto c' = 1000.
Proof.
  intros c'.
  destruct (rtt_estimator_bounded 80 400 120 [80; 400] new_conn) as (H & _ & _ & _).
  - reflexivity.
  - vm_compute. intuition congruence.
  - repeat constructor; vm_compute; congruence.
  - split; [exact H|vm_compute; reflexivity].
Defined.

(* ------------------------------------------------------------------ *)
(** ** Timeouts *)

(** Consecutive timeouts, the [i]-th at the tick [i] of the list. *)
Fixpoint timeouts (ticks : list Z) : St CS unit :=
  match ticks with
  | [] => sret tt
  | now :: ticks => retransmit_oldest now;; timeouts ticks
  end.

(** The fields a timeout moves besides the queue. *)
Definition timer_view (s : CS) :=
  (rto_ms (fst s), rtx_backoff (fst s), rtx_deadline_ms (fst s), rtx_bytes_in_flight (fst s)).

Lemma emit_timer_view i : preserves timer_view (emit_rtx_entry i).
Proof. unfold emit_rtx_entry. preserve_cs. Qed.

Lemma retransmit_oldest_timer now s :
  rtx_bytes_in_flight (fst s) <> 0 ->
  let c := fst s in
  let rto := Z.min (sat_mul32 (rto_ms c) 2) RTO_MAX_MS in
  timer_view (exec (retransmit_oldest now) s) =
    (rto, sat_add8 (rtx_backoff c) 1, now + rto, rtx_bytes_in_flight c).
Proof.
  intros Hi. unfold retransmit_oldest. rewrite exec_bind, eval_getc, exec_getc. cbv zeta.
  destruct (rtx_bytes_in_flight (fst s) =? 0) eqn:E; bool_to_prop; [done|].
  rewrite !exec_bind. unfold retransmit_oldest_segment.
  set (s1 := exec (setc _) (exec congestion_on_rto s)).
  assert (timer_view s1 = timer_view s) as Hv1 by done.
  pose proof (emit_timer_view 0 s1) as Hv2. rewrite Hv1 in Hv2. clear Hv1.
  set (s2 := exec (emit_rtx_entry 0) s1) in *. clearbody s2. clear s1.
  assert (preserves timer_view arm_for_tick) as Ha by preserve_cs.
  rewrite (Ha _), !exec_setc. unfold timer_view in *. injection Hv2 as E1 E2 E3 E4.
  cbn [fst snd]. destruct (fst s2). simpl in *. by rewrite E1, E2, E4.
Qed.

Lemma timeouts_view ticks s :
  rtx_bytes_in_flight (fst s) <> 0 -> 0 < rto_ms (fst s) <= RTO_MAX_MS ->
  is_u8 (rtx_backoff (fst s)) ->
  let n := Z.of_nat (length ticks) in
  let rto := Z.min (rto_ms (fst s) * 2 ^ n) RTO_MAX_MS in
  timer_view (exec (timeouts ticks) s) =
    (rto, Z.min U8_MAX (rtx_backoff (fst s) + n),
     match last ticks with Some t => t + rto | None => rtx_deadline_ms (fst s) end,
     rtx_bytes_in_flight (fst s)).
Proof.
  revert s. induction ticks as [|t ticks IH]; intros s Hi Hr Hb; cbn [timeouts].
  - rewrite exec_ret. cbv zeta. simpl. unfold timer_view. change (2 ^ 0) with 1.
    rewrite Z.mul_1_r, Z.min_l, Z.add_0_r, Z.min_r by (apply Hr || apply Hb). done.
  - rewrite exec_bind. pose proof (retransmit_oldest_timer t s Hi) as Hv.
    unfold timer_view in Hv. injection Hv as E1 E2 E3 E4.
    specialize (IH (exec (retransmit_oldest t) s)). rewrite E1, E2, E3, E4 in IH.
    unfold is_u8, sat_add8, sat_mul32, U8_MAX, U32_MAX in *.
    specialize (IH Hi ltac:(lia) ltac:(lia)). cbv zeta in *. rewrite IH.
    pose proof (Z.pow_pos_nonneg 2 (Z.of_nat (length ticks)) ltac:(lia) ltac:(lia)) as Hp.
    assert (2 ^ Z.of_nat (length (t :: ticks)) = 2 * 2 ^ Z.of_nat (length ticks)) as ->.
    { simpl length. rewrite Nat2Z.inj_succ, Z.pow_succ_r by lia. done. }
    set (p := 2 ^ Z.of_nat (length ticks)) in *.
    assert (Z.min (Z.min (Z.min 4294967295 (rto_ms (fst s) * 2)) 60000 * p) 60000 =
      Z.min (rto_ms (fst s) * (2 * p)) 60000) as Hm by nia.
    rewrite Hm. replace (Z.min 255 (Z.min 255 (rtx_backoff (fst s) + 1) + Z.of_nat (length ticks)))
      with (Z.min 255 (rtx_backoff (fst s) + Z.of_nat (length (t :: ticks)))) by (simpl length; lia).
    rewrite last_cons. destruct (last ticks) eqn:El; [done|]. apply last_None in El. subst ticks.
    change p with 1 in *. by replace (Z.min (Z.min 4294967295 (rto_ms (fst s) * 2)) 60000)
      with (Z.min (rto_ms (fst s) * (2 * 1)) 60000) by lia.
Qed.

(** Exponential backoff.  Each retransmission timeout with data
    outstanding doubles the RTO up to the 60 s ceiling and counts one retry, so
    after [n] timeouts in a row the RTO is [min (rto * 2^n) 60000], the retry
    count has grown by [n] (saturating) and the timer is armed that far past
    the last one; nothing leaves the retransmit queue. *)
Theorem rto_backs_off ticks t s :
  rtx_bytes_in_flight (fst s) <> 0 -> 0 < rto_ms (fst s) <= RTO_MAX_MS ->
  is_u8 (rtx_backoff (fst s)) ->
  let c' := fst (exec (timeouts (ticks ++ [t])) s) in
  let n := Z.of_nat (length ticks) + 1 in
  rto_ms c' = Z.min (rto_ms (fst s) * 2 ^ n) RTO_MAX_MS /\
  rtx_backoff c' = Z.min U8_MAX (rtx_backoff (fst s) + n) /\
  rtx_deadline_ms c' = t + rto_ms c' /\
  rtx_bytes_in_flight c' = rtx_bytes_in_flight (fst s).
Proof.
  intros Hi Hr Hb. pose proof (timeouts_view (ticks ++ [t]) s Hi Hr Hb) as Hv.
  cbv zeta in *. rewrite length_app, last_snoc in Hv. simpl length in Hv.
  replace (Z.of_nat (length ticks + 1)) with (Z.of_nat (length ticks) + 1) in Hv by lia.
  unfold timer_view in Hv. injection Hv as -> -> -> ->. done.
Qed.

Lemma rto_backs_off_witness :
  let c := new_conn |> set_rtx_queue [mkRtx [1; 2] 0 2 0 0 1 false] |> set_rtx_bytes_in_flight 2 in
  rto_ms (fst (exec (timeouts ([1000; 3000] ++ [7000])) (c, idle_ctx))) = 8000.
Proof.
  intros c. destruct (rto_backs_off [1000; 3000] 7000 (c, idle_ctx)) as [H _].
  - discriminate.
  - vm_compute. split; congruence.
  - vm_compute. split; congruence.
  - exact H.
Defined.
