(* ===== verification/LossRecovery.v ===== *)
(** * Which segments loss recovery re-sends

    SACK marking, the hole-filling pass of fast retransmit and the RACK pass,
    against declarative selections of the retransmit queue: each pass re-sends
    every entry its rule selects, once, in order, and no other. *)

From S2P Require Import Prelude.
From S2P Require Import NetTypes.
From S2P Require Import Wire.
From S2P Require Import CongestionControl.
From S2P Require Import Loss.
From S2P Require Import TcpTypes.
From S2P Require Import SeqNum.
From S2P Require Import TcpSend.
From S2P Require Import RxRing.
From S2P Require Import OooQueue.
From S2P Require Import Rtx.
From S2P Require Import RtxProps.

#[local] Open Scope st_scope.

(* ------------------------------------------------------------------ *)
(** ** One emission, when the driver accepts *)

(** Sequence number and payload of every segment handed to the driver. *)
Definition wire (s : CS) : list (Z * list Z) :=
  (fun sg => (sm_seq (sg_meta sg), sg_payload sg)) <$> out (snd s).

(** The neighbour is resolved, transmit buffers are granted, and the queue's
    entries are nonempty. *)
Record emitting (s : CS) : Prop := {
  em_grants : tx_grants (snd s) = [];
  em_mac : mac_resolve (snd s) (remote_ip (fst s)) <> None;
  em_mss : 0 < snd_mss (fst s) <= MSS_MAX;
  em_lens : Forall (fun e => 0 < len e) (rtx_queue (fst s))
}.

(** The entry after a re-send. *)
Definition touch (now : Z) (e : RtxEntry) : RtxEntry :=
  mkRtx (iobuf e) (seq_start e) (len e) (first_tx_ms e) now (sat_add8 (tx_count e) 1) (sacked e).

(** What a re-send of the entry puts on the wire. *)
Definition resent (mss : Z) (e : RtxEntry) : Z * list Z :=
  (seq_start e, ztake (Z.min (len e) mss) (iobuf e)).

(** What the passes read besides the queue. *)
Definition pass_view (s : CS) := (snd_una (fst s), snd_mss (fst s), now_ms (snd s)).

Lemma send_segment_accepted meta payload x :
  tx_grants x = [] -> mac_resolve x (sm_dst_ip meta) <> None -> zlen payload <= MSS_MAX ->
  let x' := exec (send_segment meta payload) x in
  (fun sg => (sm_seq (sg_meta sg), sg_payload sg)) <$> out x' =
    ((fun sg => (sm_seq (sg_meta sg), sg_payload sg)) <$> out x) ++ [(sm_seq meta, payload)] /\
  tx_grants x' = [] /\ mac_resolve x' = mac_resolve x /\ now_ms x' = now_ms x.
Proof.
  intros Hg Hm Hl. unfold send_segment, send_segment_opts. cbv zeta. autorewrite with st.
  destruct (mac_resolve x (sm_dst_ip meta)) as [mac|]; [|done]. autorewrite with st.
  rewrite Z.min_l, (ztake_ge (zlen payload)) by lia.
  unfold build_and_send_frame, acquire_tx_buf, exec, sbind, submit, sret. rewrite Hg. simpl.
  destruct (is_v4 _); simpl; rewrite fmap_app; done.
Qed.

Lemma emit_exact i e s :
  emitting s -> rtx_queue (fst s) !! i = Some e ->
  let s' := exec (emit_rtx_entry i) s in
  emitting s' /\ pass_view s' = pass_view s /\
  rtx_queue (fst s') = <[i := touch (now_ms (snd s)) e]> (rtx_queue (fst s)) /\
  wire s' = wire s ++ [resent (snd_mss (fst s)) e].
Proof.
  intros [Hg Hm Hs Hl] Hi. destruct s as [c x]. cbn [fst snd] in *.
  pose proof (Forall_lookup_1 _ _ _ _ Hl Hi) as Hle. simpl in Hle.
  unfold emit_rtx_entry. cbv zeta. st_simpl. unfold id. rewrite Hi.
  destruct (Z.min (len e) (snd_mss c) =? 0) eqn:E; bool_to_prop; [lia|]. st_simpl.
  destruct (send_segment_accepted (conn_meta c (seq_start e) (Z.lor TCP_ACK TCP_PSH) (w16 (rx_free c)))
    (ztake (Z.min (len e) (snd_mss c)) (iobuf e)) x) as (H1 & H2 & H3 & H4); try done.
  { rewrite zlen_ztake by lia. lia. }
  split; [split; cbn [fst snd]|].
  - done.
  - by rewrite H3.
  - done.
  - apply Forall_insert; [done|]. simpl. lia.
  - unfold pass_view. cbn [fst snd]. rewrite H4. split; [done|]. split; [done|]. exact H1.
Qed.

(* ------------------------------------------------------------------ *)
(** ** Passes *)

(** The entries after a pass that re-sent those [sel] selects. *)
Definition touch_sel (now : Z) (sel : RtxEntry -> bool) (e : RtxEntry) : RtxEntry :=
  if sel e then touch now e else e.

(** A pass over the queue from index [i] re-sends the selected entries. *)
Definition pass_post (sel : RtxEntry -> bool) (i : nat) (s s' : CS) : Prop :=
  emitting s' /\ pass_view s' = pass_view s /\
  rtx_queue (fst s') =
    take i (rtx_queue (fst s)) ++ (touch_sel (now_ms (snd s)) sel <$> drop i (rtx_queue (fst s))) /\
  wire s' = wire s ++ (resent (snd_mss (fst s)) <$> filter (fun e => sel e = true) (drop i (rtx_queue (fst s)))).

Lemma pass_post_end sel i s :
  emitting s -> (length (rtx_queue (fst s)) <= i)%nat -> pass_post sel i s s.
Proof.
  intros He Hi. unfold pass_post. rewrite take_ge, drop_ge by lia. by rewrite !app_nil_r.
Qed.

Lemma pass_post_skip sel i e s s' :
  rtx_queue (fst s) !! i = Some e -> sel e = false ->
  pass_post sel (S i) s s' -> pass_post sel i s s'.
Proof.
  intros Hi He (H1 & H2 & H3 & H4). unfold pass_post.
  rewrite (drop_S _ _ _ Hi), fmap_cons, filter_cons. unfold touch_sel at 1. rewrite He.
  rewrite decide_False by done. split; [done|]. split; [done|]. split; [|done].
  rewrite H3, (take_S_r _ _ _ Hi), <-app_assoc. done.
Qed.

Lemma pass_post_emit sel i e s s' :
  emitting s -> rtx_queue (fst s) !! i = Some e -> sel e = true ->
  pass_post sel (S i) (exec (emit_rtx_entry i) s) s' -> pass_post sel i s s'.
Proof.
  intros Hem Hi He (H1 & H2 & H3 & H4).
  destruct (emit_exact i e s Hem Hi) as (_ & Hv & Hq & Hw). unfold pass_post.
  unfold pass_view in *. injection Hv as V1 V2 V3. rewrite V1, V2, V3 in H2. rewrite V3, Hq in H3.
  rewrite V2, Hq, Hw in H4. pose proof (lookup_lt_Some _ _ _ Hi).
  rewrite drop_insert_lt in H3, H4 by lia.
  rewrite (drop_S _ _ _ Hi), fmap_cons, filter_cons. unfold touch_sel at 1. rewrite He.
  rewrite decide_True, fmap_cons by done.
  split; [done|]. split; [done|]. split.
  - rewrite H3. erewrite take_S_r by (apply list_lookup_insert_eq; lia).
    rewrite take_insert_ge, <-app_assoc by lia. done.
  - rewrite H4, <-app_assoc. done.
Qed.

(** The loop of a pass whose body re-sends the entry it looks at or skips it. *)
Lemma for_each_pass sel (body : nat -> St CS unit) n i (s : CS) :
  (forall j (s : CS) e, rtx_queue (fst s) !! j = Some e ->
     exec (body j) s = if sel e : bool then exec (emit_rtx_entry j) s else s) ->
  emitting s -> (i + n = length (rtx_queue (fst s)))%nat ->
  pass_post sel i s (exec (for_each (seq i n) body) s).
Proof.
  intros Hb. revert i s. induction n as [|n IH]; intros i s Hem Hn; simpl.
  { rewrite exec_ret. apply pass_post_end; [done|lia]. }
  destruct (lookup_lt_is_Some_2 (rtx_queue (fst s)) i) as [e Hi]; [lia|].
  rewrite exec_bind, (Hb _ _ _ Hi).
  destruct (sel e) eqn:He.
  - apply (pass_post_emit _ _ e); [done..|]. destruct (emit_exact i e s Hem Hi) as (Hem' & _ & Hq & _).
    apply IH; [done|]. rewrite Hq, length_insert. lia.
  - apply (pass_post_skip _ _ e); [done..|]. apply IH; [done|lia].
Qed.

(** The hole-filling rule: un-SACKed and starting below the highest SACKed
    byte. *)
Definition is_hole (base highest_off : Z) (e : RtxEntry) : bool :=
  let off := w32 (seq_start e - base) in
  negb (sacked e) && (Z.land off 2147483648 =? 0) && (off <? highest_off).

Lemma holes_pass s h :
  emitting s ->
  max_sacked (fun e => w32 (w32 (seq_start e + len e) - snd_una (fst s))) (rtx_queue (fst s)) = Some h ->
  pass_post (is_hole (snd_una (fst s)) h) 0 s (exec sack_retransmit_holes s).
Proof.
  intros Hem Hh. unfold sack_retransmit_holes. rewrite exec_bind, eval_getc, exec_getc. unfold id.
  rewrite Hh. apply for_each_pass; [|done|done].
  intros j s' e Hj. rewrite exec_bind, eval_getc, exec_getc, Hj. unfold is_hole.
  destruct (sacked e); simpl negb; cbn [andb]; [by rewrite exec_ret|]. by rewrite exec_when.
Qed.

Lemma touch_sel_none now sel q :
  filter (fun e => sel e = true) q = [] -> touch_sel now sel <$> q = q.
Proof.
  induction q as [|e q IH]; [done|]. rewrite filter_cons, fmap_cons.
  destruct (decide (sel e = true)) as [He|He]; [done|]. intros Hf. unfold touch_sel at 1.
  destruct (sel e); [done|]. by rewrite IH.
Qed.

(** A later entry with the same offset contradicts distinct offsets. *)
Lemma later_entry_differs {B} (f : RtxEntry -> B) (P : RtxEntry -> Prop) `{!forall e, Decision (P e)} q i e lost :
  NoDup (f <$> q) -> q !! i = Some e -> f e :: lost = f <$> filter P (drop (S i) q) -> False.
Proof.
  intros Hnd Hi Hl. assert (f e ∈ f <$> filter P (drop (S i) q)) as Hin by (rewrite <-Hl; left).
  apply list_elem_of_fmap in Hin as (e' & Heq & Hin). apply list_elem_of_filter in Hin as [_ Hin].
  apply list_elem_of_lookup in Hin as [k Hk]. rewrite lookup_drop in Hk.
  assert (i = S i + k)%nat; [|lia].
  eapply NoDup_lookup; [exact Hnd| |]; rewrite list_lookup_fmap; [by rewrite Hi|].
  rewrite Hk. simpl. by f_equal.
Qed.

(** The lost offsets are those of the selected entries, in queue order. *)
Lemma rack_resend_pass sel base n i s lost :
  emitting s -> (i + n = length (rtx_queue (fst s)))%nat ->
  NoDup ((fun e => w32 (seq_start e - base)) <$> rtx_queue (fst s)) ->
  lost = (fun e => w32 (seq_start e - base)) <$> filter (fun e => sel e = true) (drop i (rtx_queue (fst s))) ->
  pass_post sel i s (exec (rack_resend base (seq i n) lost) s).
Proof.
  revert i s lost. induction n as [|n IH]; intros i s lost Hem Hn Hnd Hlost; simpl.
  { rewrite exec_ret. apply pass_post_end; [done|lia]. }
  destruct (lookup_lt_is_Some_2 (rtx_queue (fst s)) i) as [e Hi]; [lia|].
  destruct lost as [|l lost].
  { rewrite exec_ret. assert (filter (fun e => sel e = true) (drop i (rtx_queue (fst s))) = []) as Hf
      by (symmetry in Hlost; by apply fmap_nil_inv in Hlost).
    unfold pass_post. rewrite Hf, app_nil_r. split; [done|]. split; [done|]. split; [|done].
    by rewrite (touch_sel_none _ _ _ Hf), take_drop. }
  rewrite exec_bind, eval_getc, exec_getc, Hi.
  rewrite (drop_S _ _ _ Hi), filter_cons in Hlost.
  destruct (decide (sel e = true)) as [He|He]; simpl in Hlost.
  - injection Hlost as -> Hlost. rewrite Z.eqb_refl, exec_bind.
    apply (pass_post_emit _ _ e); [done..|].
    destruct (emit_exact i e s Hem Hi) as (Hem' & _ & Hq & _).
    apply IH; rewrite ?Hq; [done| | |].
    + rewrite length_insert. lia.
    + rewrite list_fmap_insert, list_insert_id; [done|]. by rewrite list_lookup_fmap, Hi.
    + rewrite drop_insert_lt by lia. done.
  - assert (sel e = false) as He' by (by destruct (sel e)).
    destruct (w32 (seq_start e - base) =? l) eqn:El; bool_to_prop.
    + exfalso. subst l.
      by eapply (later_entry_differs (fun e => w32 (seq_start e - base))).
    + apply (pass_post_skip _ _ e); [done..|]. apply IH; (done || lia).
Qed.

(* ------------------------------------------------------------------ *)
(** ** Offsets of a contiguous queue *)

(** Position of the entry above the base [a]. *)
Definition off_of (a : Z) (e : RtxEntry) : Z := w32 (seq_start e - w32 a).

Lemma off_of_chain st a p b q :
  rtx_chain st p b q -> a <= p -> b - a < 2147483648 ->
  StronglySorted Z.lt (off_of a <$> q) /\
  Forall (fun e => p - a <= off_of a e /\ 0 < len e <= U16_MAX /\ off_of a e + len e <= b - a) q.
Proof.
  revert p. induction q as [|e q IH]; intros p; [by repeat constructor|].
  intros (Hs & Hl & Hb & Hc) Hp Hw. pose proof (rtx_chain_le _ _ _ _ Hc).
  assert (off_of a e = p - a) as Ho by (unfold off_of; rewrite Hs; apply w32_sub_cancel; int_lia).
  destruct (IH _ Hc) as [H1 H2]; [lia|lia|]. rewrite fmap_cons. split.
  - constructor; [done|]. rewrite Ho, Forall_fmap. eapply Forall_impl; [exact H2|].
    intros e' (?&?&?). simpl. lia.
  - constructor; [lia|]. eapply Forall_impl; [exact H2|]. intros e' (?&?&?). simpl. lia.
Qed.

Lemma sorted_NoDup (l : list Z) : StronglySorted Z.lt l -> NoDup l.
Proof.
  induction 1 as [|x l Hs IH Hf]; constructor; [|done].
  intros Hin. rewrite Forall_forall in Hf. specialize (Hf x Hin). lia.
Qed.

Lemma sorted_filter (f : RtxEntry -> Z) (P : RtxEntry -> Prop) `{!forall e, Decision (P e)} q :
  StronglySorted Z.lt (f <$> q) -> StronglySorted Z.le (f <$> filter P q).
Proof.
  induction q as [|e q IH]; [by constructor|]. rewrite fmap_cons. intros Hs.
  apply StronglySorted_inv in Hs as [Hs Hf]. rewrite filter_cons. case_decide; [|by apply IH].
  rewrite fmap_cons. constructor; [by apply IH|]. rewrite Forall_fmap, Forall_forall in *.
  intros e' [_ Hin]%list_elem_of_filter. specialize (Hf e' Hin). simpl in *. lia.
Qed.

Lemma max_sacked_spec key q :
  match max_sacked key q with
  | None => Forall (fun e => sacked e = false) q
  | Some m => (exists e, e ∈ q /\ sacked e = true /\ key e = m) /\
      Forall (fun e => sacked e = true -> key e <= m) q
  end.
Proof.
  unfold max_sacked. induction q as [|e q IH] using rev_ind; [by constructor|].
  rewrite foldl_app. simpl.
  destruct (foldl _ None q) as [m|]; destruct (sacked e) eqn:Es.
  - destruct IH as [(e0 & H1 & H2 & H3) H4]. split.
    + destruct (Z.max_spec m (key e)) as [[? ->]|[? ->]].
      * exists e. split; [apply elem_of_app; right; left|done].
      * exists e0. split; [apply elem_of_app; by left|done].
    + apply Forall_app. split; [|by constructor; [lia|]].
      eapply Forall_impl; [exact H4|]. simpl. intros e1 H5 H6. specialize (H5 H6). lia.
  - destruct IH as [(e0 & H1 & H2 & H3) H4]. split.
    + exists e0. split; [apply elem_of_app; by left|done].
    + apply Forall_app. split; [done|]. by constructor; [congruence|].
  - split.
    + exists e. split; [apply elem_of_app; right; left|done].
    + apply Forall_app. split; [|by constructor]. eapply Forall_impl; [exact IH|]. simpl. congruence.
  - apply Forall_app. split; [done|by constructor].
Qed.

Lemma filter_ext_elem (f g : RtxEntry -> bool) (q : list RtxEntry) :
  (forall e, e ∈ q -> f e = g e) ->
  filter (fun e => f e = true) q = filter (fun e => g e = true) q.
Proof.
  induction q as [|e q IH]; intros H; [done|].
  assert (filter (fun e => f e = true) q = filter (fun e => g e = true) q) as Hq
    by (apply IH; intros; apply H; by right).
  rewrite !filter_cons, Hq, (H e) by left. done.
Qed.

Lemma filter_none (q : list RtxEntry) : filter (fun _ => false = true) q = [].
Proof. induction q as [|e q IH]; [done|]. by rewrite filter_cons_False. Qed.

(** Some SACKed entry lies, by [key], above [x]. *)
Definition sacked_above (key : RtxEntry -> Z) (x : Z) (q : list RtxEntry) : bool :=
  existsb (fun e => sacked e && (x <? key e)) q.

Lemma sacked_above_max key x q :
  match max_sacked key q with
  | Some m => sacked_above key x q = (x <? m)
  | None => sacked_above key x q = false
  end.
Proof.
  pose proof (max_sacked_spec key q) as H. unfold sacked_above.
  destruct (max_sacked key q) as [m|].
  - destruct H as [(e & H1 & H2 & H3) H4]. rewrite Forall_forall in H4.
    destruct (x <? m) eqn:E; bool_to_prop.
    + apply existsb_exists. exists e. split; [by apply list_elem_of_In|].
      rewrite H2, H3. by apply Z.ltb_lt.
    + apply not_true_iff_false. intros (e' & H5 & H6)%existsb_exists.
      apply list_elem_of_In in H5. bool_to_prop. specialize (H4 e' H5 ltac:(done)). lia.
  - apply not_true_iff_false. intros (e' & H5 & H6)%existsb_exists.
    apply list_elem_of_In in H5. rewrite Forall_forall in H. bool_to_prop. specialize (H e' H5). congruence.
Qed.

Lemma max_sacked_ext key1 key2 (q : list RtxEntry) :
  (forall e, e ∈ q -> key1 e = key2 e) -> max_sacked key1 q = max_sacked key2 q.
Proof.
  unfold max_sacked. generalize (@None Z). induction q as [|e q IH]; intros acc H; simpl; [done|].
  rewrite (H e) by left. apply IH. intros. apply H. by right.
Qed.

(** SACK-based fast retransmit fills every hole once.  With the queue
    covering [[a, b)], the pass re-sends exactly the un-SACKed entries that
    start below the end of some SACKed entry, each once, in sequence order,
    and nothing above the highest SACK; with nothing SACKed it sends nothing. *)
Theorem sack_recovery_fills_holes st a b s :
  emitting s -> snd_una (fst s) = w32 a -> rtx_chain st a b (rtx_queue (fst s)) ->
  b - a < 2147483648 ->
  let q := rtx_queue (fst s) in
  let hole := fun e => negb (sacked e) && sacked_above (fun e' => off_of a e' + len e') (off_of a e) q in
  let s' := exec sack_retransmit_holes s in
  wire s' = wire s ++ (resent (snd_mss (fst s)) <$> filter (fun e => hole e = true) q).
Proof.
  intros Hem Hu Hc Hw q hole s'.
  destruct (off_of_chain st a a b q Hc) as [_ Hoffs]; [lia|lia|]. rewrite Forall_forall in Hoffs.
  set (key := fun e' => off_of a e' + len e').
  assert (max_sacked (fun e => w32 (w32 (seq_start e + len e) - snd_una (fst s))) q = max_sacked key q) as Hmax.
  { apply max_sacked_ext. intros e Hin. destruct (Hoffs e Hin) as (? & ? & ?).
    unfold key, off_of in *. rewrite Hu, w32_sub_l.
    rewrite <-(w32_small (w32 (seq_start e - w32 a) + len e)) by int_lia.
    rewrite w32_add_l. f_equal. lia. }
  destruct (max_sacked key q) as [h|] eqn:Eh.
  - destruct (holes_pass s h Hem Hmax) as (_ & _ & _ & Hwire). unfold s'. rewrite Hwire. do 2 f_equal.
    change (drop 0 (rtx_queue (fst s))) with q. apply filter_ext_elem. intros e Hin.
    destruct (Hoffs e Hin) as (Ho & Hl & Hb). unfold hole, is_hole.
    pose proof (sacked_above_max key (off_of a e) q) as Hab. rewrite Eh in Hab. unfold key in Hab. rewrite Hab.
    rewrite Hu. fold (off_of a e).
    assert ((Z.land (off_of a e) 2147483648 =? 0) = true) as ->; [|by rewrite andb_true_r].
    apply Z.eqb_eq. change 2147483648 with (Z.shiftl 1 31).
    apply land_shiftl_disjoint; [lia|]. change (2 ^ 31) with 2147483648. lia.
  - unfold s', sack_retransmit_holes. rewrite exec_bind, eval_getc, exec_getc. unfold id.
    fold q. rewrite Hmax, exec_ret.
    assert (filter (fun e => hole e = true) q = filter (fun _ => false = true) q) as ->.
    { apply (filter_ext_elem hole (fun _ => false)). intros e Hin. unfold hole.
      pose proof (sacked_above_max key (off_of a e) q) as Hab. rewrite Eh in Hab. unfold key in Hab.
      rewrite Hab. apply andb_false_r. }
    by rewrite filter_none, app_nil_r.
Qed.

Definition lossy_conn : TcpConnection :=
  new_conn |> set_state Established |> set_snd_una 4294967295 |> set_snd_nxt 5 |> set_sack_ok true
    |> set_srtt_ms 80 |> set_rack_sack_hint true
    |> set_rtx_queue [mkRtx [1; 2] 4294967295 2 0 0 1 false; mkRtx [3] 1 1 0 5 1 true;
                      mkRtx [4] 2 1 0 950 1 false; mkRtx [5] 3 1 0 9 1 true;
                      mkRtx [6] 4 1 0 9 1 false]
    |> set_rtx_bytes_in_flight 6.

Lemma lossy_emitting x :
  tx_grants x = [] -> mac_resolve x V4_ANY <> None -> emitting (lossy_conn, x).
Proof. intros. split; [done|done|vm_compute; split; congruence|by repeat constructor]. Qed.

Lemma lossy_chain : rtx_chain (fun p => p - 4294967294) 4294967295 4294967301 (rtx_queue lossy_conn).
Proof. repeat split; try reflexivity; vm_compute; congruence. Qed.

Lemma sack_recovery_fills_holes_witness :
  wire (exec sack_retransmit_holes (lossy_conn, idle_ctx)) = [(4294967295, [1; 2]); (2, [4])].
Proof.
  rewrite (sack_recovery_fills_holes (fun p => p - 4294967294) 4294967295 4294967301
    (lossy_conn, idle_ctx)).
  - vm_compute. reflexivity.
  - apply lossy_emitting; [reflexivity|discriminate].
  - reflexivity.
  - exact lossy_chain.
  - lia.
Defined.

(* ------------------------------------------------------------------ *)
(** ** RACK *)

(** The reordering window: [9/8] of the smoothed RTT, at least the clock. *)
Definition reo_wnd (srtt : Z) : Z := Z.max (srtt * 9 / 8) 1.

Lemma rack_verdict srtt largest now off sent :
  0 < srtt -> is_u32 srtt -> is_u32 largest -> is_u32 off ->
  verdict (rack_params srtt) largest now (off, sent) =
    if (off <? largest) && (reo_wnd srtt <? now - sent) then Some (off, Time) else None.
Proof.
  intros H0 Hs Hl Ho. unfold verdict, rack_params, rfc9002, reo_wnd. cbn [packet_threshold time_threshold_ticks].
  replace (Z.max srtt 0) with srtt by lia.
  destruct (0 <? srtt) eqn:E0; bool_to_prop; [|lia]. cbv iota.
  assert (sat_add64 (Z.max (sat_mul64 srtt 9 / 8) 1) 0 = Z.max (srtt * 9 / 8) 1) as ->.
  { unfold sat_mul64. rewrite Z.min_r by int_lia. unfold_ints. Z.to_euclidean_division_equations; lia. }
  assert (1 <= Z.max (srtt * 9 / 8) 1) by lia. set (thr := Z.max (srtt * 9 / 8) 1) in *.
  destruct (largest <=? off) eqn:E1; bool_to_prop.
  { destruct (off <? largest) eqn:E2; bool_to_prop; [lia|done]. }
  destruct (off <? largest) eqn:E2; bool_to_prop; [|lia].
  destruct (sat_add64 off U64_MAX <=? largest) eqn:E3; bool_to_prop; [unfold_ints; lia|].
  unfold sat_sub. cbn [andb].
  destruct (thr <? Z.max 0 (now - sent)) eqn:E4, (thr <? now - sent) eqn:E5; bool_to_prop; (done || lia).
Qed.

Lemma omap_cons_eq {A B} (f : A -> option B) x l :
  omap f (x :: l) = match f x with Some y => y :: omap f l | None => omap f l end.
Proof. done. Qed.

Lemma lost_offsets (lost : RtxEntry -> bool) p largest now base (q : list RtxEntry) :
  (forall e, e ∈ q -> lost e = negb (sacked e) && lost e /\
     (sacked e = false -> verdict p largest now (w32 (seq_start e - base), last_tx_ms e) =
        if lost e then Some (w32 (seq_start e - base), Time) else None)) ->
  (fun l => w32 (fst l)) <$> omap (verdict p largest now) (rack_units base q) =
    (fun e => w32 (seq_start e - base)) <$> filter (fun e => lost e = true) q.
Proof.
  unfold rack_units. induction q as [|e q IH]; intros H; [done|].
  assert (forall e', e' ∈ q -> e' ∈ e :: q) as Hsub by (intros; by right).
  specialize (IH (fun e' He => H e' (Hsub e' He))).
  destruct (H e) as [H1 H2]; [left|]. rewrite !filter_cons.
  destruct (decide (sacked e = false)) as [Es|Es].
  - rewrite fmap_cons, omap_cons_eq, (H2 Es).
    destruct (lost e) eqn:El; [rewrite decide_True by done|rewrite decide_False by done; done].
    rewrite !fmap_cons. cbn [fst]. by rewrite w32_idemp, IH.
  - apply not_false_iff_true in Es. rewrite Es in H1. cbn in H1. rewrite H1, decide_False by done. done.
Qed.

Lemma wire_arm : preserves wire arm_for_tick.
Proof. preserve_cs. Qed.

(** The end of [rack_detect] arms the timer and sends nothing. *)
Lemma rack_tail_wire (deadline : option Z) s :
  let m := match deadline with
           | Some dl => setc (set_rack_deadline_ms dl);; arm_for_tick
           | None => sret tt
           end in
  wire (exec m s) = wire s /\ cc (fst (exec m s)) = cc (fst s) /\ cwnd (fst (exec m s)) = cwnd (fst s).
Proof.
  destruct deadline as [dl|]; simpl; [|done]. rewrite exec_bind, exec_setc.
  rewrite (wire_arm _). split; [done|].
  unfold arm_for_tick, register_armed_slot, exec. simpl. by destruct (tick_in_list _).
Qed.

Section Rack.
Context (st : Z -> Z) (a b now srtt : Z) (q : list RtxEntry).
Context (Hc : rtx_chain st a b q) (Hw : b - a < 2147483648) (Hs0 : 0 < srtt) (Hs : is_u32 srtt).

(** Un-SACKed, below the highest SACKed entry, and older than the window. *)
Definition late (e : RtxEntry) : bool :=
  negb (sacked e) && sacked_above (off_of a) (off_of a e) q && (reo_wnd srtt <? now - last_tx_ms e).

Lemma late_none :
  max_sacked (off_of a) q = None -> filter (fun e => late e = true) q = [].
Proof.
  intros Hm. rewrite <-(filter_none q). apply filter_ext_elem. intros e _. unfold late.
  pose proof (sacked_above_max (off_of a) (off_of a e) q) as H. rewrite Hm in H. rewrite H.
  by rewrite andb_false_r.
Qed.

Lemma rack_detect_offsets largest :
  max_sacked (off_of a) q = Some largest ->
  exists deadline, detect (rack_params srtt) largest now (rack_units (w32 a) q) =
    (omap (verdict (rack_params srtt) largest now) (rack_units (w32 a) q), deadline) /\
  (fun l => w32 (fst l)) <$> omap (verdict (rack_params srtt) largest now) (rack_units (w32 a) q) =
    off_of a <$> filter (fun e => late e = true) q.
Proof.
  intros Hm. destruct (off_of_chain st a a b q Hc) as [Hsort _]; [lia|lia|].
  eexists. split.
  - unfold detect. rewrite detect_from_spec; [reflexivity|]. unfold ascending, rack_units.
    change (map fst ?l) with (fst <$> l). rewrite <-list_fmap_compose.
    apply (sorted_filter (off_of a) (fun e => sacked e = false) q Hsort).
  - apply lost_offsets. intros e Hin. split.
    { unfold late. by destruct (sacked e). }
    intros Es. pose proof (max_sacked_spec (off_of a) q) as H. rewrite Hm in H.
    destruct H as [(e' & _ & _ & <-) _].
    rewrite rack_verdict by (done || apply w32_range). unfold late. rewrite Es. cbn [negb andb].
    pose proof (sacked_above_max (off_of a) (off_of a e) q) as H. rewrite Hm in H. rewrite H. done.
Qed.

End Rack.

Lemma emit_cc i : preserves (fun s => cc (fst s)) (emit_rtx_entry i).
Proof. unfold emit_rtx_entry. preserve_cs. Qed.
#[local] Hint Resolve emit_cc : preserves.

Lemma rack_resend_cc base idxs lost : preserves (fun s => cc (fst s)) (rack_resend base idxs lost).
Proof.
  revert lost. induction idxs as [|i idxs IH]; intros lost; simpl; [preserve_cs|].
  destruct lost; preserve_cs; apply IH.
Qed.

(** RACK re-sends exactly the late segments.  With SACK evidence and an
    RTT estimate, one run re-sends, once each and in order, exactly the
    un-SACKed entries sent below the highest SACKed one whose latest
    transmission is older than 9/8 of the smoothed RTT; it cuts the congestion
    window once if there is such an entry and leaves the controller alone
    otherwise. *)
Theorem rack_resends_late st a b now s :
  emitting s -> snd_una (fst s) = w32 a -> rtx_chain st a b (rtx_queue (fst s)) ->
  b - a < 2147483648 -> rack_sack_hint (fst s) = true ->
  0 < srtt_ms (fst s) -> is_u32 (srtt_ms (fst s)) ->
  let q := rtx_queue (fst s) in
  let lost := filter (fun e => late a now (srtt_ms (fst s)) q e = true) q in
  let s' := exec (rack_detect now) s in
  wire s' = wire s ++ (resent (snd_mss (fst s)) <$> lost) /\
  cc (fst s') = (if bool_decide (lost = []) then cc (fst s) else Controller.on_loss 0 false (cc (fst s))) /\
  (lost <> [] -> cwnd (fst s') = Controller.window (cc (fst s'))).
Proof.
  intros Hem Hu Hc Hw Hhint Hs0 Hs q lost s'. destruct s as [c x]. cbn [fst snd] in *.
  assert (forall s1, lost = [] -> wire s1 = wire (c, x) -> cc (fst s1) = cc c ->
    wire s1 = wire (c, x) ++ (resent (snd_mss c) <$> lost) /\
    cc (fst s1) = (if bool_decide (lost = []) then cc c else Controller.on_loss 0 false (cc c)) /\
    (lost <> [] -> cwnd (fst s1) = Controller.window (cc (fst s1)))) as Hnone.
  { intros s1 -> -> ->. by rewrite app_nil_r. }
  unfold s', rack_detect. rewrite exec_bind, exec_setc, exec_bind, eval_getc, exec_getc. cbn [fst snd]. unfold id.
  set (c1 := set_rack_deadline_ms 0 c).
  change (rack_sack_hint c1) with (rack_sack_hint c). change (srtt_ms c1) with (srtt_ms c).
  change (rtx_queue c1) with q. change (snd_una c1) with (snd_una c). rewrite Hhint, Hu.
  assert (Hgate : negb true || (srtt_ms c =? 0) || (zlen q =? 0) = (zlen q =? 0)).
  { destruct (srtt_ms c =? 0) eqn:E; bool_to_prop; [lia|done]. }
  rewrite Hgate. clear Hgate. change (fun e => w32 (seq_start e - w32 a)) with (off_of a).
  destruct (zlen q =? 0) eqn:Ez; bool_to_prop.
  { apply Hnone; [|done|done]. apply zlen_nil_inv in Ez. unfold lost. by rewrite Ez. }
  destruct (max_sacked (off_of a) q) as [largest|] eqn:Em.
  2: { rewrite exec_setc. apply Hnone; [|done|done]. by apply late_none. }
  destruct (rack_detect_offsets st a b now (srtt_ms c) q Hc Hw Hs0 Hs largest Em) as (dl & Hdet & Hoffs).
  rewrite Hdet. cbv zeta. rewrite Hoffs. fold lost. rewrite exec_bind, exec_when.
  destruct (rack_tail_wire dl) with (s := if negb (zlen (off_of a <$> lost) =? 0) then
    exec (setc (fun c => set_cc (Controller.on_loss 0 false (cc c)) c);;
          rack_resend (w32 a) (seq 0 (length q)) (off_of a <$> lost);;
          setc (fun c => set_cwnd (Controller.window (cc c)) c)) (c1, x) else (c1, x)) as (T1 & T2 & T3).
  rewrite T1, T2, T3. clear T1 T2 T3.
  destruct (zlen (off_of a <$> lost) =? 0) eqn:El; bool_to_prop; cbn [negb]; cbv iota.
  { apply Hnone; [|done|done]. apply zlen_nil_inv in El. by apply fmap_nil_inv in El. }
  rewrite bool_decide_eq_false_2 by (intros Hl; by rewrite Hl in El).
  rewrite !exec_bind, !exec_setc. cbn [fst snd].
  set (s2 := (set_cc (Controller.on_loss 0 false (cc c1)) c1, x)).
  assert (emitting s2) as Hem2 by (destruct Hem; by split).
  destruct (off_of_chain st a a b q Hc) as [Hsort _]; [lia|lia|].
  destruct (rack_resend_pass (late a now (srtt_ms c) q) (w32 a) (length q) 0 s2 (off_of a <$> lost) Hem2)
    as (_ & _ & _ & Hwire); [done|by apply sorted_NoDup|done|].
  split; [exact Hwire|]. split; [|done]. apply (rack_resend_cc (w32 a) (seq 0 (length q)) _ s2).
Qed.

Lemma rack_resends_late_witness :
  wire (exec (rack_detect 1000) (lossy_conn, idle_ctx)) = [(4294967295, [1; 2])].
Proof.
  destruct (rack_resends_late (fun p => p - 4294967294) 4294967295 4294967301 1000
    (lossy_conn, idle_ctx)) as [H _].
  - apply lossy_emitting; [reflexivity|discriminate].
  - reflexivity.
  - exact lossy_chain.
  - lia.
  - reflexivity.
  - vm_compute. reflexivity.
  - vm_compute. split; congruence.
  - rewrite H. vm_compute. reflexivity.
Defined.
