(* ===== verification/HashTable.v ===== *)
(** * Connection hash table (crates/net/tcp/src/pool.rs, [TcpHashCore])

    The per-core open-addressed table from a packed 4-tuple key to a pool slot:
    linear probing, key 0 for an empty cell, removal by re-inserting the rest of
    the run.  The development proves it refines a finite map. *)

From S2P Require Import Prelude.
From S2P Require Import NetTypes.

Definition TCP_HASH_SIZE : Z := 65536.
Abbreviation TCP_HASH_MASK := (TCP_HASH_SIZE - 1)%Z (only parsing).
Abbreviation TCP_HASH_SHIFT := 16%Z (only parsing).

Record TcpHashCore := mkHash { keys : list Z; slots : list Z }.

(** [TcpHashCore::new()]. *)
Definition hash_new : TcpHashCore :=
  mkHash (replicate (Z.to_nat TCP_HASH_SIZE) 0) (replicate (Z.to_nat TCP_HASH_SIZE) 0).

(** Array reads and writes; every index is masked into range. *)
Definition cell (l : list Z) (i : Z) : Z := default 0 (l !! Z.to_nat i).
Definition set_cell (i v : Z) (l : list Z) : list Z := <[Z.to_nat i := v]> l.

Definition put (idx key slot : Z) (h : TcpHashCore) : TcpHashCore :=
  mkHash (set_cell idx key (keys h)) (set_cell idx slot (slots h)).

(** The source address folded to 32 bits. *)
Definition ip_fold (src_ip : IpAddr) : Z :=
  match src_ip with
  | V4 a => from_be_bytes (to_le_bytes 4 a)
  | V6 o =>
      Z.lxor (Z.lxor (Z.lxor (from_be_bytes (slice 0 4 o)) (from_be_bytes (slice 4 4 o)))
                (from_be_bytes (slice 8 4 o))) (from_be_bytes (slice 12 4 o))
  end.

Definition tcp_hash_key (src_ip : IpAddr) (src_port dst_port : Z) : Z :=
  let ip := ip_fold src_ip in
  let family_bit := match src_ip with V6 _ => Z.shiftl 1 62 | V4 _ => 0 end in
  Z.lor (Z.lor (Z.lor (Z.lor (Z.shiftl ip 32) (Z.shiftl src_port 16)) dst_port) (Z.shiftl 1 63))
    family_bit.

Definition tcp_hash_bucket (key : Z) : Z :=
  let h := w64 (key * 11400714819323198485) in
  Z.shiftr h (64 - TCP_HASH_SHIFT).

(** The probe loop [for i in 0..SIZE]: the first index from [start] on, in
    wrap-around order, at which [stop] holds. *)
Fixpoint probe (stop : Z -> bool) (start : Z) (n : nat) (i : Z) : option Z :=
  match n with
  | O => None
  | S n' =>
      let idx := Z.land (start + i) TCP_HASH_MASK in
      if stop idx then Some idx else probe stop start n' (i + 1)
  end.

Definition probe_all (stop : Z -> bool) (start : Z) : option Z :=
  probe stop start (Z.to_nat TCP_HASH_SIZE) 0.

Definition tcp_hash_find (key : Z) (h : TcpHashCore) : option Z :=
  match probe_all (fun idx => (cell (keys h) idx =? 0) || (cell (keys h) idx =? key))
          (tcp_hash_bucket key) with
  | Some idx => if cell (keys h) idx =? 0 then None else Some (cell (slots h) idx)
  | None => None
  end.

Definition tcp_hash_insert (key slot : Z) (h : TcpHashCore) : TcpHashCore :=
  match probe_all (fun idx => (cell (keys h) idx =? 0) || (cell (keys h) idx =? key))
          (tcp_hash_bucket key) with
  | Some idx => put idx key (w16 slot) h
  | None => h
  end.

(** The back-shift loop of [tcp_hash_remove]: one iteration per cell of the
    run, bounded by the table size. *)
Fixpoint back_shift (fuel : nat) (i : Z) (h : TcpHashCore) : TcpHashCore :=
  match fuel with
  | O => h
  | S fuel' =>
      if cell (keys h) i =? 0 then h
      else
        let moving_key := cell (keys h) i in
        let moving_slot := cell (slots h) i in
        let h := put i 0 0 h in
        match probe_all (fun idx => cell (keys h) idx =? 0) (tcp_hash_bucket moving_key) with
        | Some new_idx =>
            back_shift fuel' (Z.land (i + 1) TCP_HASH_MASK) (put new_idx moving_key moving_slot h)
        | None => h
        end
  end.

Definition tcp_hash_remove (key : Z) (h : TcpHashCore) : TcpHashCore :=
  match probe_all (fun idx => (cell (keys h) idx =? 0) || (cell (keys h) idx =? key))
          (tcp_hash_bucket key) with
  | Some idx =>
      if cell (keys h) idx =? 0 then h
      else back_shift (Z.to_nat TCP_HASH_SIZE) (Z.land (idx + 1) TCP_HASH_MASK) (put idx 0 0 h)
  | None => h
  end.

(* ------------------------------------------------------------------ *)
(** ** Cells and probes *)

Definition in_table (i : Z) : Prop := 0 <= i < TCP_HASH_SIZE.

Lemma mask_mod x : 0 <= x -> Z.land x TCP_HASH_MASK = x mod TCP_HASH_SIZE.
Proof. intros. change TCP_HASH_MASK with (Z.ones 16). by rewrite Z.land_ones by lia. Qed.

Lemma bucket_range k : in_table (tcp_hash_bucket k).
Proof.
  unfold tcp_hash_bucket, in_table, TCP_HASH_SIZE. rewrite Z.shiftr_div_pow2 by lia.
  change (2 ^ (64 - 16)) with 281474976710656. unfold w64.
  pose proof (Z.mod_pos_bound (k * 11400714819323198485) 18446744073709551616 ltac:(lia)).
  generalize dependent ((k * 11400714819323198485) mod 18446744073709551616).
  intros. Z.to_euclidean_division_equations; lia.
Qed.

Lemma cell_set l i j v :
  zlen l = TCP_HASH_SIZE -> in_table i -> 0 <= j ->
  cell (set_cell i v l) j = if j =? i then v else cell l j.
Proof.
  unfold cell, set_cell, in_table, zlen. intros Hl Hi Hj.
  destruct (j =? i) eqn:E; bool_to_prop.
  - subst j. rewrite list_lookup_insert_eq by lia. done.
  - rewrite list_lookup_insert_ne by lia. done.
Qed.

Lemma zlen_set_cell i v l : zlen (set_cell i v l) = zlen l.
Proof. unfold zlen, set_cell. by rewrite length_insert. Qed.

(** Distance from [b] forward to [x]. *)
Definition dist (b x : Z) : Z := if b <=? x then x - b else x - b + TCP_HASH_SIZE.

Lemma dist_probe b j : in_table b -> 0 <= j < TCP_HASH_SIZE -> (b + j) mod TCP_HASH_SIZE = (if b + j <? TCP_HASH_SIZE then b + j else b + j - TCP_HASH_SIZE).
Proof.
  unfold in_table, TCP_HASH_SIZE. intros. destruct (_ <? _) eqn:E; bool_to_prop; Z.to_euclidean_division_equations; lia.
Qed.

(** The probe stops at the nearest stopping cell. *)
Lemma probe_spec stop b n i :
  in_table b -> 0 <= i -> i + Z.of_nat n = TCP_HASH_SIZE ->
  (forall y, in_table y -> dist b y < i -> stop y = false) ->
  match probe stop b n i with
  | Some x => in_table x /\ stop x = true /\ forall y, in_table y -> dist b y < dist b x -> stop y = false
  | None => forall y, in_table y -> stop y = false
  end.
Proof.
  intros Hb. revert i. induction n as [|n IH]; intros i Hi Hn Hbefore; simpl.
  - intros y Hy. apply Hbefore; [done|]. unfold in_table, dist, TCP_HASH_SIZE in *. destruct (b <=? y) eqn:E; bool_to_prop; lia.
  - pose proof Hb as [Hb0 _]. rewrite mask_mod, dist_probe by (done || lia).
    set (x := if b + i <? TCP_HASH_SIZE then b + i else b + i - TCP_HASH_SIZE).
    assert (in_table x /\ dist b x = i) as [Hx Hd].
    { unfold x, dist, in_table, TCP_HASH_SIZE in *. destruct (b + i <? 65536) eqn:E; bool_to_prop;
        (split; [lia|]); destruct (b <=? _) eqn:E2; bool_to_prop; lia. }
    destruct (stop x) eqn:Es.
    + split; [done|]. split; [done|]. rewrite Hd. done.
    + apply IH; [lia|lia|]. intros y Hy Hlt. destruct (decide (dist b y = i)) as [He|He]; [|apply Hbefore; [done|lia]].
      assert (y = x) as ->; [|done]. clear -Hb Hx Hy Hd He. unfold dist, in_table, TCP_HASH_SIZE in *.
      destruct (b <=? y) eqn:E1, (b <=? x) eqn:E2; bool_to_prop; lia.
Qed.

Lemma probe_all_spec stop b :
  in_table b ->
  match probe_all stop b with
  | Some x => in_table x /\ stop x = true /\ forall y, in_table y -> dist b y < dist b x -> stop y = false
  | None => forall y, in_table y -> stop y = false
  end.
Proof.
  intros Hb. apply probe_spec; [done|lia|done|]. intros y Hy Hlt.
  unfold dist, in_table in *. destruct (b <=? y) eqn:E; bool_to_prop; lia.
Qed.

#[global] Opaque probe_all tcp_hash_bucket.

(* ------------------------------------------------------------------ *)
(** ** Invariant *)

Definition kat (h : TcpHashCore) (x : Z) : Z := cell (keys h) x.
Definition vat (h : TcpHashCore) (x : Z) : Z := cell (slots h) x.

(** [y] lies on the probe path from the bucket of [k] to [x], before [x]. *)
Definition on_path (k y x : Z) : Prop := dist (tcp_hash_bucket k) y < dist (tcp_hash_bucket k) x.

Record hash_ok (h : TcpHashCore) : Prop := {
  ho_keys : zlen (keys h) = TCP_HASH_SIZE;
  ho_slots : zlen (slots h) = TCP_HASH_SIZE;
  ho_distinct : forall x y, in_table x -> in_table y -> kat h x <> 0 -> kat h x = kat h y -> x = y;
  ho_valid : forall x, in_table x -> kat h x <> 0 ->
    forall y, in_table y -> on_path (kat h x) y x -> kat h y <> 0
}.

(** The table stores the pairs of [m]. *)
Definition stores (h : TcpHashCore) (m : gmap Z Z) : Prop :=
  forall k v, m !! k = Some v <-> k <> 0 /\ exists x, in_table x /\ kat h x = k /\ vat h x = v.

Definition repr (h : TcpHashCore) (m : gmap Z Z) : Prop := hash_ok h /\ stores h m.

Definition has_room (h : TcpHashCore) : Prop := exists e, in_table e /\ kat h e = 0.

Lemma kat_put h i k v j :
  hash_ok h -> in_table i -> 0 <= j -> kat (put i k v h) j = if j =? i then k else kat h j.
Proof. intros Hh Hi Hj. apply cell_set; [apply Hh|done|done]. Qed.

Lemma vat_put h i k v j :
  hash_ok h -> in_table i -> 0 <= j -> vat (put i k v h) j = if j =? i then v else vat h j.
Proof. intros Hh Hi Hj. apply cell_set; [apply Hh|done|done]. Qed.

Lemma zlen_put h i k v :
  zlen (keys (put i k v h)) = zlen (keys h) /\ zlen (slots (put i k v h)) = zlen (slots h).
Proof. split; apply zlen_set_cell. Qed.

(** Where the probe of a key ends. *)
Lemma probe_key h k :
  hash_ok h -> k <> 0 ->
  match probe_all (fun idx => (cell (keys h) idx =? 0) || (cell (keys h) idx =? k)) (tcp_hash_bucket k) with
  | Some x => in_table x /\
      (forall y, in_table y -> on_path k y x -> kat h y <> 0 /\ kat h y <> k) /\
      ((kat h x = 0 /\ forall y, in_table y -> kat h y <> k) \/ kat h x = k)
  | None => forall y, in_table y -> kat h y <> 0 /\ kat h y <> k
  end.
Proof.
  intros Hh Hk. pose proof (probe_all_spec (fun idx => (cell (keys h) idx =? 0) || (cell (keys h) idx =? k))
    (tcp_hash_bucket k) (bucket_range k)) as Hp.
  destruct (probe_all _ _) as [x|].
  - destruct Hp as (Hx & Hs & Hbefore). split; [done|].
    assert (forall y, in_table y -> on_path k y x -> kat h y <> 0 /\ kat h y <> k) as Hb.
    { intros y Hy Hlt. specialize (Hbefore y Hy Hlt). bool_to_prop. done. }
    split; [done|]. apply orb_true_iff in Hs as [Hs|Hs]; bool_to_prop; [left|by right].
    split; [done|]. intros y Hy Hky. destruct (decide (y = x)) as [->|Hne]; [unfold kat in *; congruence|].
    destruct (Z_lt_le_dec (dist (tcp_hash_bucket k) y) (dist (tcp_hash_bucket k) x)) as [Hlt|Hge].
    + by destruct (Hb y Hy Hlt).
    + apply (ho_valid h Hh y Hy ltac:(congruence) x Hx); [|done]. rewrite Hky. unfold on_path.
      pose proof (bucket_range k) as Hr. unfold dist, in_table in *.
      destruct (tcp_hash_bucket k <=? y) eqn:E1, (tcp_hash_bucket k <=? x) eqn:E2; bool_to_prop; lia.
  - intros y Hy. specialize (Hp y Hy). bool_to_prop. done.
Qed.

Lemma find_spec h m k :
  repr h m -> k <> 0 -> tcp_hash_find k h = m !! k.
Proof.
  intros [Hh Hm] Hk. unfold tcp_hash_find. pose proof (probe_key h k Hh Hk) as Hp.
  assert (forall P : Prop, (forall y, in_table y -> kat h y <> k) -> m !! k = None) as Habsent.
  { intros _ Hno. destruct (m !! k) as [v|] eqn:E; [|done].
    apply Hm in E as (_ & y & Hy & Hky & _). by apply Hno in Hky. }
  destruct (probe_all _ _) as [x|].
  - destruct Hp as (Hx & _ & [[Hx0 Hno]|Hxk]); unfold kat in *.
    + rewrite Hx0. symmetry. by apply (Habsent True).
    + rewrite Hxk. destruct (k =? 0) eqn:E; bool_to_prop; [done|].
      symmetry. apply Hm. split; [done|]. by exists x.
  - symmetry. apply (Habsent True). intros y Hy. by apply Hp.
Qed.

(** Storing a key where its probe ended. *)
Lemma put_repr h m k v x :
  repr h m -> k <> 0 -> in_table x ->
  (forall y, in_table y -> on_path k y x -> kat h y <> 0 /\ kat h y <> k) ->
  ((kat h x = 0 /\ forall y, in_table y -> kat h y <> k) \/ kat h x = k) ->
  repr (put x k v h) (<[k := v]> m).
Proof.
  intros [Hh Hm] Hk Hx Hpath Hcase.
  assert (forall y, in_table y -> kat (put x k v h) y = if y =? x then k else kat h y) as HK
    by (intros y [? ?]; by apply kat_put).
  assert (forall y, in_table y -> vat (put x k v h) y = if y =? x then v else vat h y) as HV
    by (intros y [? ?]; by apply vat_put).
  assert (forall y, in_table y -> kat h y = k -> y = x) as Huniq.
  { intros y Hy Hky. destruct Hcase as [[_ Hno]|Hxk]; [by apply Hno in Hky|].
    apply (ho_distinct h Hh); (done || congruence). }
  split.
  - destruct (zlen_put h x k v) as [L1 L2]. split; [by rewrite L1, (ho_keys h Hh)|by rewrite L2, (ho_slots h Hh)| |].
    + intros y z Hy Hz. rewrite !HK by done.
      destruct (y =? x) eqn:E1, (z =? x) eqn:E2; bool_to_prop; subst; try done.
      * intros _ Heq. symmetry. by apply Huniq.
      * intros _ Heq. by apply Huniq.
      * by apply (ho_distinct h Hh).
    + intros y Hy Hky z Hz Hlt. rewrite HK in Hky, Hlt by done. rewrite HK by done.
      destruct (z =? x) eqn:E1; [done|]. destruct (y =? x) eqn:E2; bool_to_prop.
      * subst y. by apply Hpath.
      * by apply (ho_valid h Hh y Hy Hky z Hz).
  - intros k' v'. rewrite lookup_insert_Some. split.
    + intros [[<- <-]|[Hne Hl]].
      * split; [done|]. exists x. rewrite HK, HV, Z.eqb_refl by done. done.
      * apply Hm in Hl as (Hk' & y & Hy & Hky & Hvy). split; [done|]. exists y. split; [done|].
        rewrite HK, HV by done. destruct (y =? x) eqn:E; bool_to_prop; [|done]. subst y.
        destruct Hcase as [[? _]|?]; congruence.
    + intros (Hk' & y & Hy & Hky & Hvy). rewrite HK in Hky by done. rewrite HV in Hvy by done.
      destruct (y =? x) eqn:E; [by left|]. right. bool_to_prop. split.
      * intros <-. by apply E, Huniq.
      * apply Hm. split; [done|]. by exists y.
Qed.

Lemma insert_spec h m k v :
  repr h m -> k <> 0 ->
  repr (tcp_hash_insert k v h) (<[k := w16 v]> m) \/
  (tcp_hash_insert k v h = h /\ ~ has_room h /\ m !! k = None).
Proof.
  intros Hr Hk. unfold tcp_hash_insert. pose proof (probe_key h k (proj1 Hr) Hk) as Hp.
  destruct (probe_all _ _) as [x|].
  - left. destruct Hp as (Hx & Hb & Hc). by apply put_repr.
  - right. split; [done|]. split.
    + intros (e & He & H0). by destruct (Hp e He).
    + destruct (m !! k) as [v'|] eqn:E; [|done]. apply (proj2 Hr) in E as (_ & y & Hy & Hky & _).
      by destruct (Hp y Hy).
Qed.

(* ------------------------------------------------------------------ *)
(** ** Removal *)

(** The cell after [i]; positions counted from the cell after an empty [e], so
    that no probe path wraps. *)
Definition next (i : Z) : Z := if i + 1 <? TCP_HASH_SIZE then i + 1 else 0.
Definition lin (e x : Z) : Z := dist (next e) x.

Lemma mask_next i : in_table i -> Z.land (i + 1) TCP_HASH_MASK = next i.
Proof.
  intros [? ?]. rewrite mask_mod by lia. unfold next, TCP_HASH_SIZE in *.
  destruct (_ <? _) eqn:E; bool_to_prop; Z.to_euclidean_division_equations; lia.
Qed.

(** Decides goals about positions, distances and successors. *)
Ltac ring_lia :=
  unfold on_path, lin, next, dist, in_table, TCP_HASH_SIZE in *;
  repeat match goal with
  | |- context [?a <? ?b] => let E := fresh in destruct (a <? b) eqn:E; bool_to_prop
  | H : context [?a <? ?b] |- _ => let E := fresh in destruct (a <? b) eqn:E; bool_to_prop
  | |- context [?a <=? ?b] => let E := fresh in destruct (a <=? b) eqn:E; bool_to_prop
  | H : context [?a <=? ?b] |- _ => let E := fresh in destruct (a <=? b) eqn:E; bool_to_prop
  end; lia.

(** Facts about positions relative to an empty cell [e]. *)
Section Linear.
Context (e : Z) (He : in_table e).

Lemma lin_range x : in_table x -> 0 <= lin e x <= TCP_HASH_SIZE - 1.
Proof using He. intros. ring_lia. Qed.

Lemma lin_last x : in_table x -> lin e x = TCP_HASH_SIZE - 1 <-> x = e.
Proof using He. intros. split; [|intros ->]; ring_lia. Qed.

Lemma lin_inj x y : in_table x -> in_table y -> lin e x = lin e y -> x = y.
Proof using He. intros. ring_lia. Qed.

Lemma lin_next i : in_table i -> i <> e -> lin e (next i) = lin e i + 1.
Proof using He. intros. ring_lia. Qed.

(** A path that avoids [e] is an interval of positions. *)
Lemma lin_dist b x : in_table b -> in_table x -> lin e b <= lin e x -> dist b x = lin e x - lin e b.
Proof using He. intros. ring_lia. Qed.

Lemma lin_avoid b x : in_table b -> in_table x -> dist b x <= dist b e -> lin e b <= lin e x.
Proof using He. intros. ring_lia. Qed.

Lemma lin_between b x y :
  in_table b -> in_table x -> in_table y -> lin e b <= lin e x -> dist b y <= dist b x ->
  lin e b <= lin e y <= lin e x.
Proof using He. intros. ring_lia. Qed.

End Linear.

Lemma next_in_table i : in_table i -> in_table (next i).
Proof. intros. ring_lia. Qed.

(** Mid-removal: [e] is the empty cell that ends the run, the cells from [i] to
    [e] are still to be re-inserted, the others are in place. *)
Record shifting (e i : Z) (h : TcpHashCore) (m : gmap Z Z) : Prop := {
  sh_e : in_table e;
  sh_i : in_table i;
  sh_keys : zlen (keys h) = TCP_HASH_SIZE;
  sh_slots : zlen (slots h) = TCP_HASH_SIZE;
  sh_distinct : forall x y, in_table x -> in_table y -> kat h x <> 0 -> kat h x = kat h y -> x = y;
  sh_stores : stores h m;
  sh_empty : kat h e = 0;
  sh_run : forall x, in_table x -> lin e i <= lin e x < TCP_HASH_SIZE - 1 -> kat h x <> 0;
  sh_order : forall x, in_table x -> kat h x <> 0 -> lin e (tcp_hash_bucket (kat h x)) <= lin e x;
  sh_valid : forall x, in_table x -> kat h x <> 0 -> lin e x < lin e i ->
    forall y, in_table y -> on_path (kat h x) y x -> kat h y <> 0
}.

Section Put.
Context (h : TcpHashCore) (Hk : zlen (keys h) = TCP_HASH_SIZE) (Hs : zlen (slots h) = TCP_HASH_SIZE).

Lemma kat_put' i k v j : in_table i -> in_table j -> kat (put i k v h) j = if j =? i then k else kat h j.
Proof using Hk Hs. intros Hi [Hj _]. by apply cell_set. Qed.

Lemma vat_put' i k v j : in_table i -> in_table j -> vat (put i k v h) j = if j =? i then v else vat h j.
Proof using Hk Hs. intros Hi [Hj _]. by apply cell_set. Qed.

End Put.

(** The table after cell [i]'s entry moved to [q], empty or [i] itself. *)
Definition move (i q : Z) (h : TcpHashCore) : TcpHashCore := put q (kat h i) (vat h i) (put i 0 0 h).

Section Move.
Context (h : TcpHashCore) (i q : Z).
Context (Hk : zlen (keys h) = TCP_HASH_SIZE) (Hs : zlen (slots h) = TCP_HASH_SIZE).
Context (Hi : in_table i) (Hq : in_table q) (Hqe : q = i \/ kat h q = 0).

Lemma move_kat x :
  in_table x -> kat (move i q h) x = if x =? q then kat h i else if x =? i then 0 else kat h x.
Proof using Hk Hs Hi Hq.
  intros Hx. unfold move. destruct (zlen_put h i 0 0) as [L1 L2].
  rewrite kat_put' by (done || congruence). by rewrite kat_put'.
Qed.

Lemma move_vat x :
  in_table x -> vat (move i q h) x = if x =? q then vat h i else if x =? i then 0 else vat h x.
Proof using Hk Hs Hi Hq.
  intros Hx. unfold move. destruct (zlen_put h i 0 0) as [L1 L2].
  rewrite vat_put' by (done || congruence). by rewrite vat_put'.
Qed.

Lemma move_stores m : stores h m -> stores (move i q h) m.
Proof using Hk Hs Hi Hq Hqe.
  intros Hm k v. rewrite (Hm k v). split; intros (Hk0 & x & Hx & H1 & H2); (split; [done|]).
  - destruct (decide (x = i)) as [->|Hne].
    + exists q. rewrite move_kat, move_vat, Z.eqb_refl by done. done.
    + exists x. rewrite move_kat, move_vat by done.
      destruct (x =? q) eqn:E1; bool_to_prop; [|by destruct (x =? i) eqn:E2; bool_to_prop].
      subst x. destruct Hqe; congruence.
  - rewrite move_kat in H1 by done. rewrite move_vat in H2 by done.
    destruct (x =? q) eqn:E1; [by exists i|]. destruct (x =? i) eqn:E2; bool_to_prop; [congruence|by exists x].
Qed.

Lemma move_distinct :
  (forall x y, in_table x -> in_table y -> kat h x <> 0 -> kat h x = kat h y -> x = y) ->
  forall x y, in_table x -> in_table y ->
    kat (move i q h) x <> 0 -> kat (move i q h) x = kat (move i q h) y -> x = y.
Proof using Hk Hs Hi Hq Hqe.
  intros Hd x y Hx Hy. rewrite !move_kat by done.
  destruct (x =? q) eqn:E1, (y =? q) eqn:E2; bool_to_prop; subst; try done.
  - destruct (y =? i) eqn:E3; bool_to_prop; [done|]. intros H1 H2. apply (Hd i y) in H2; done.
  - destruct (x =? i) eqn:E3; bool_to_prop; [done|]. intros H1 H2. apply (Hd x i) in H2; done.
  - destruct (x =? i) eqn:E3; bool_to_prop; [done|].
    destruct (y =? i) eqn:E4; bool_to_prop; [done|]. by apply Hd.
Qed.

End Move.

Lemma shift_step e i q h m :
  shifting e i h m -> i <> e -> in_table q -> (q = i \/ kat h q = 0) ->
  (forall y, in_table y -> on_path (kat h i) y q -> y <> i /\ kat h y <> 0) ->
  dist (tcp_hash_bucket (kat h i)) q <= dist (tcp_hash_bucket (kat h i)) i ->
  shifting e (next i) (move i q h) m.
Proof.
  intros [He Hi Lk Ls Hd Hst He0 Hrun Hord Hval] Hne Hq Hqe Hpath Hdist.
  pose proof (lin_next e He i Hi Hne) as Hnext. pose proof (lin_range e He i Hi) as Hri.
  assert (lin e i <> TCP_HASH_SIZE - 1) as Hil by (rewrite lin_last by done; done).
  assert (kat h i <> 0) as Hki by (apply Hrun; [done|lia]).
  pose proof (bucket_range (kat h i)) as Hb.
  destruct (lin_between e He _ i q Hb Hi Hq (Hord i Hi Hki) Hdist) as [Hq1 Hq2].
  destruct (zlen_put h i 0 0) as [L1 L2].
  destruct (zlen_put (put i 0 0 h) q (kat h i) (vat h i)) as [L3 L4].
  assert (forall x, in_table x -> kat (move i q h) x = if x =? q then kat h i else if x =? i then 0 else kat h x)
    as HK by (intros; by apply move_kat).
  split; try done.
  - by apply next_in_table.
  - unfold move. congruence.
  - unfold move. congruence.
  - by apply move_distinct.
  - by apply move_stores.
  - rewrite HK by done. destruct (e =? q) eqn:E1; bool_to_prop.
    + subst q. assert (lin e e = TCP_HASH_SIZE - 1) by (by apply lin_last). lia.
    + destruct (e =? i); done.
  - intros x Hx Hr. rewrite HK by done. destruct (x =? q) eqn:E1; [done|].
    destruct (x =? i) eqn:E2; bool_to_prop; [subst x; lia|]. apply Hrun; [done|lia].
  - intros x Hx. rewrite HK by done. destruct (x =? q) eqn:E1; bool_to_prop; [by subst x|].
    destruct (x =? i) eqn:E2; bool_to_prop; [done|]. by apply Hord.
  - intros x Hx. rewrite HK by done. destruct (x =? q) eqn:E1; bool_to_prop.
    + subst x. intros _ _ y Hy Hlt. rewrite HK by done. destruct (Hpath y Hy Hlt) as [Hyi Hy0].
      destruct (y =? q) eqn:E2; [done|]. destruct (y =? i) eqn:E3; bool_to_prop; done.
    + destruct (x =? i) eqn:E2; bool_to_prop; [done|]. intros Hx0 Hlt y Hy Hp.
      assert (lin e x < lin e i) as Hxi.
      { assert (lin e x <> lin e i); [|lia]. intros Heq. by apply (lin_inj e He x i) in Heq. }
      rewrite HK by done. destruct (y =? q) eqn:E3; [done|].
      pose proof (Hval x Hx Hx0 Hxi y Hy Hp) as Hy0.
      destruct (y =? i) eqn:E4; bool_to_prop; [|done]. subst y. exfalso.
      unfold on_path in Hp. pose proof (bucket_range (kat h x)) as Hbx.
      destruct (lin_between e He _ x i Hbx Hx Hi (Hord x Hx Hx0)); lia.
Qed.

Lemma shifting_done e h m : shifting e e h m -> repr h m.
Proof.
  intros [He _ Lk Ls Hd Hst He0 _ _ Hval]. split; [|done]. split; [done|done|done|].
  intros x Hx Hx0. apply Hval; [done|done|].
  assert (lin e e = TCP_HASH_SIZE - 1) as -> by (by apply lin_last).
  pose proof (lin_range e He x Hx). assert (lin e x <> TCP_HASH_SIZE - 1); [|lia].
  rewrite lin_last by done. intros ->. done.
Qed.

Lemma back_shift_spec fuel e i h m :
  shifting e i h m -> TCP_HASH_SIZE - 1 - lin e i < Z.of_nat fuel ->
  repr (back_shift fuel i h) m.
Proof.
  revert i h. induction fuel as [|fuel IH]; intros i h Hsh Hf.
  { destruct (lin_range e (sh_e _ _ _ _ Hsh) i (sh_i _ _ _ _ Hsh)). lia. }
  pose proof Hsh as [He Hi Lk Ls Hd Hst He0 Hrun Hord Hval]. cbn [back_shift].
  change (cell (keys h) i) with (kat h i). change (cell (slots h) i) with (vat h i).
  destruct (decide (i = e)) as [->|Hne].
  { rewrite He0. simpl. by eapply shifting_done. }
  pose proof (lin_range e He i Hi). assert (lin e i <> TCP_HASH_SIZE - 1) by (by rewrite lin_last).
  assert (kat h i <> 0) as Hki by (apply Hrun; [done|lia]).
  destruct (kat h i =? 0) eqn:E0; bool_to_prop; [done|].
  pose proof (probe_all_spec (fun idx => cell (keys (put i 0 0 h)) idx =? 0)
    (tcp_hash_bucket (kat h i)) (bucket_range _)) as Hp.
  assert (forall y, in_table y -> cell (keys (put i 0 0 h)) y = if y =? i then 0 else kat h y) as HK
    by (intros y Hy; by apply (kat_put' h Lk Ls i 0 0 y)).
  destruct (probe_all _ _) as [q|].
  - destruct Hp as (Hq & Hq0 & Hbefore). rewrite mask_next by done. rewrite HK in Hq0 by done.
    fold (move i q h). apply (IH (next i)); [|rewrite lin_next by done; lia].
    apply shift_step; [done|done|done| | |].
    + destruct (q =? i) eqn:E; bool_to_prop; [by left|by right].
    + intros y Hy Hlt. specialize (Hbefore y Hy Hlt). rewrite HK in Hbefore by done.
      destruct (y =? i) eqn:E; bool_to_prop; done.
    + destruct (Z_lt_le_dec (dist (tcp_hash_bucket (kat h i)) i) (dist (tcp_hash_bucket (kat h i)) q))
        as [Hlt|]; [|done].
      specialize (Hbefore i Hi Hlt). rewrite HK, Z.eqb_refl in Hbefore by done. done.
  - specialize (Hp i Hi). by rewrite HK, Z.eqb_refl in Hp by done.
Qed.

(** The run a removal re-inserts: it starts after the removed cell and ends at
    the nearest empty one. *)
Lemma shifting_start h m k x :
  repr h m -> k <> 0 -> in_table x -> kat h x = k -> has_room h ->
  exists e, shifting e (next x) (put x 0 0 h) (delete k m).
Proof.
  intros [[Lk Ls Hd Hval] Hst] Hk Hx Hkx (e0 & He0 & Hz0).
  assert (forall y, in_table y -> kat (put x 0 0 h) y = if y =? x then 0 else kat h y) as HK
    by (intros; by apply kat_put').
  assert (forall y, in_table y -> vat (put x 0 0 h) y = if y =? x then 0 else vat h y) as HV
    by (intros; by apply vat_put').
  pose proof (next_in_table x Hx) as Hnx.
  pose proof (probe_all_spec (fun idx => kat (put x 0 0 h) idx =? 0) (next x) Hnx) as Hp.
  destruct (probe_all _ _) as [e|].
  2: { specialize (Hp x Hx). by rewrite HK, Z.eqb_refl in Hp by done. }
  destruct Hp as (He & Hez & Hnear). bool_to_prop. rewrite HK in Hez by done.
  assert (e0 <> x) as Hne0 by congruence.
  assert (e <> x) as Hne.
  { intros ->. specialize (Hnear e0 He0). rewrite HK in Hnear by done.
    destruct (e0 =? x) eqn:E; bool_to_prop; [done|]. rewrite Hz0 in Hnear. simpl in Hnear.
    assert (dist (next x) e0 < dist (next x) x); [|by specialize (Hnear H)].
    clear -Hx He0 Hne0. ring_lia. }
  destruct (e =? x) eqn:E; bool_to_prop; [done|]. clear E.
  destruct (zlen_put h x 0 0) as [L1 L2]. exists e.
  split; try (done || congruence).
  - intros y z Hy Hz. rewrite !HK by done.
    destruct (y =? x) eqn:E1; [done|]. destruct (z =? x) eqn:E2; [done|]. by apply Hd.
  - intros k' v. rewrite lookup_delete_Some, (Hst k' v). split.
    + intros (Hkk & Hk' & y & Hy & H1 & H2). split; [done|]. exists y. split; [done|].
      rewrite HK, HV by done. destruct (y =? x) eqn:E1; bool_to_prop; [congruence|done].
    + intros (Hk' & y & Hy & H1 & H2). rewrite HK in H1 by done. rewrite HV in H2 by done.
      destruct (y =? x) eqn:E1; bool_to_prop; [congruence|].
      split; [|split; [done|by exists y]]. intros <-. apply E1. apply Hd; congruence.
  - rewrite HK by done. by destruct (e =? x).
  - intros y Hy Hr. assert (dist (next x) y < dist (next x) e) as Hlt.
    { clear -Hx He Hy Hr Hne Hnx.
      assert (lin e e = TCP_HASH_SIZE - 1) by (by apply lin_last).
      rewrite !(lin_dist e He) by (done || lia). lia. }
    specialize (Hnear y Hy Hlt). by bool_to_prop.
  - intros y Hy. rewrite HK by done. destruct (y =? x) eqn:E1; [done|]. intros Hy0.
    apply lin_avoid; [done|apply bucket_range|done|].
    destruct (Z_le_gt_dec (dist (tcp_hash_bucket (kat h y)) y) (dist (tcp_hash_bucket (kat h y)) e)); [done|].
    exfalso. apply (Hval y Hy Hy0 e He); [unfold on_path; lia|done].
  - intros y Hy. rewrite HK by done. destruct (y =? x) eqn:E1; bool_to_prop; [done|].
    intros Hy0 Hlt z Hz Hp. rewrite HK by done. pose proof (Hval y Hy Hy0 z Hz Hp) as Hz'.
    destruct (z =? x) eqn:E2; bool_to_prop; [|done]. subst z. exfalso.
    rewrite lin_next in Hlt by (done || congruence). unfold on_path in Hp.
    pose proof (bucket_range (kat h y)) as Hb.
    assert (lin e (tcp_hash_bucket (kat h y)) <= lin e y) as Ho.
    { apply lin_avoid; [done|done|done|].
      destruct (Z_le_gt_dec (dist (tcp_hash_bucket (kat h y)) y) (dist (tcp_hash_bucket (kat h y)) e)); [done|].
      exfalso. apply (Hval y Hy Hy0 e He); [unfold on_path; lia|done]. }
    destruct (lin_between e He _ y x Hb Hy Hx Ho) as [_ Hxy]; [lia|].
    apply E1. apply (lin_inj e He); [done|done|lia].
Qed.

Lemma remove_spec h m k :
  repr h m -> k <> 0 -> has_room h -> repr (tcp_hash_remove k h) (delete k m).
Proof.
  intros Hr Hk Hroom. unfold tcp_hash_remove. pose proof (probe_key h k (proj1 Hr) Hk) as Hp.
  assert ((forall y, in_table y -> kat h y <> k) -> delete k m = m) as Habsent.
  { intros Hno. apply delete_id. destruct (m !! k) as [v|] eqn:E; [|done].
    apply (proj2 Hr) in E as (_ & y & Hy & Hky & _). by apply Hno in Hky. }
  destruct (probe_all _ _) as [x|].
  - destruct Hp as (Hx & _ & [[Hx0 Hno]|Hxk]); unfold kat in Hx0 || unfold kat in Hxk.
    + rewrite Hx0. simpl. by rewrite Habsent.
    + rewrite Hxk. destruct (k =? 0) eqn:E; bool_to_prop; [done|].
      destruct (shifting_start h m k x Hr Hk Hx Hxk Hroom) as [e Hsh].
      rewrite mask_next by done. apply (back_shift_spec _ e); [done|].
      destruct (lin_range e (sh_e _ _ _ _ Hsh) (next x) (next_in_table x Hx)).
      unfold TCP_HASH_SIZE. lia.
  - rewrite Habsent; [done|]. intros y Hy. by destruct (Hp y Hy).
Qed.

(** A table with fewer entries than cells has an empty cell. *)
Lemma room_of_size h m : repr h m -> Z.of_nat (size m) < TCP_HASH_SIZE -> has_room h.
Proof.
  intros [[Lk Ls Hd _] Hst] Hsize.
  pose proof (probe_all_spec (fun idx => kat h idx =? 0) 0 ltac:(unfold in_table, TCP_HASH_SIZE; lia)) as Hp.
  destruct (probe_all _ _) as [x|].
  { destruct Hp as (Hx & H0 & _). bool_to_prop. by exists x. }
  exfalso. assert (forall i k, keys h !! i = Some k -> in_table (Z.of_nat i) /\ kat h (Z.of_nat i) = k) as Hcell.
  { intros i k Hi. split.
    - apply lookup_lt_Some in Hi. unfold in_table, zlen in *. lia.
    - unfold kat, cell. by rewrite Nat2Z.id, Hi. }
  assert (NoDup (keys h)) as Hnd.
  { apply NoDup_alt. intros i j k Hi Hj. destruct (Hcell _ _ Hi) as [Ti Ki], (Hcell _ _ Hj) as [Tj Kj].
    apply Nat2Z.inj, Hd; [done|done| |congruence]. specialize (Hp _ Ti). by bool_to_prop. }
  assert (list_to_set (keys h) ⊆@{gset Z} dom m) as Hsub.
  { intros k Hk. apply elem_of_list_to_set, list_elem_of_lookup in Hk as [i Hi].
    destruct (Hcell _ _ Hi) as [Ti Ki]. apply elem_of_dom. exists (vat h (Z.of_nat i)).
    apply Hst. split; [|by exists (Z.of_nat i)]. specialize (Hp _ Ti). bool_to_prop. congruence. }
  apply subseteq_size in Hsub. rewrite size_list_to_set, size_dom in Hsub by done.
  unfold zlen in Lk. lia.
Qed.

Lemma cell_zeros n i : cell (replicate n 0) i = 0.
Proof.
  unfold cell.
  destruct (replicate n 0 !! Z.to_nat i) as [v|] eqn:E; [|done].
  by apply lookup_replicate_1 in E as [-> _].
Qed.

Lemma repr_new : repr hash_new ∅.
Proof.
  split; [split|].
  - unfold hash_new, zlen. cbn [keys]. rewrite length_replicate. unfold TCP_HASH_SIZE. lia.
  - unfold hash_new, zlen. cbn [slots]. rewrite length_replicate. unfold TCP_HASH_SIZE. lia.
  - intros x y _ _ H. exfalso. apply H, cell_zeros.
  - intros x _ H. exfalso. apply H, cell_zeros.
  - intros k v. rewrite lookup_empty. split; [done|]. intros (Hk & x & _ & H & _).
    exfalso. apply Hk. rewrite <-H. apply cell_zeros.
Qed.

(** Any sequence of insertions and removals, on the table and on a map. *)
Inductive hash_op := HInsert (key slot : Z) | HRemove (key : Z).

Definition hash_step (op : hash_op) (h : TcpHashCore) : TcpHashCore :=
  match op with
  | HInsert key slot => tcp_hash_insert key slot h
  | HRemove key => tcp_hash_remove key h
  end.

Definition map_step (op : hash_op) (m : gmap Z Z) : gmap Z Z :=
  match op with
  | HInsert key slot => <[key := w16 slot]> m
  | HRemove key => delete key m
  end.

Definition op_key (op : hash_op) : Z := match op with HInsert k _ => k | HRemove k => k end.

(** Keys are nonzero and the table always keeps an empty cell. *)
Fixpoint fits (ops : list hash_op) (m : gmap Z Z) : Prop :=
  Z.of_nat (size m) < TCP_HASH_SIZE /\
  match ops with
  | [] => True
  | op :: ops => op_key op <> 0 /\ fits ops (map_step op m)
  end.

Lemma hash_step_spec op h m :
  repr h m -> op_key op <> 0 -> Z.of_nat (size m) < TCP_HASH_SIZE ->
  repr (hash_step op h) (map_step op m).
Proof.
  intros Hr Hk Hs. pose proof (room_of_size h m Hr Hs) as Hroom. destruct op as [k v|k]; simpl in *.
  - destruct (insert_spec h m k v Hr Hk) as [?|(_ & Hno & _)]; done.
  - by apply remove_spec.
Qed.

(** C21: The connection hash table is a map.  After any sequence of insertions
    and removals that never fills it, a lookup returns exactly the slot last
    inserted for the key and not removed since: linear probing, wrap-around and
    the re-insertion of the run after a removal lose no entry, resurrect none
    and confuse no two keys. *)
Theorem hash_table_refines_map ops k :
  fits ops ∅ -> k <> 0 ->
  tcp_hash_find k (foldl (fun h op => hash_step op h) hash_new ops) =
    foldl (fun m op => map_step op m) ∅ ops !! k.
Proof.
  intros Hf Hk. assert (forall h m, repr h m -> fits ops m ->
    repr (foldl (fun h op => hash_step op h) h ops) (foldl (fun m op => map_step op m) m ops)) as Hrun.
  { clear. induction ops as [|op ops IH]; intros h m Hr Hf; simpl; [done|].
    destruct Hf as (Hs & Hk & Hf). apply IH; [|done]. by apply hash_step_spec. }
  apply find_spec; [|done]. apply Hrun; [apply repr_new|done].
Qed.

Lemma hash_table_refines_map_witness :
  tcp_hash_find 9 (foldl (fun h op => hash_step op h) hash_new
    [HInsert 7 3; HInsert 9 4; HRemove 7]) = Some 4.
Proof.
  rewrite (hash_table_refines_map [HInsert 7 3; HInsert 9 4; HRemove 7] 9).
  - reflexivity.
  - vm_compute. intuition congruence.
  - discriminate.
Defined.

(** An IPv4 address whose first octet has its top bit clear, and the one with it
    set. *)
Lemma ip_fold_top a :
  is_u32 a -> a mod 256 < 128 ->
  0 <= ip_fold (V4 a) < 2 ^ 31 /\ ip_fold (V4 (a + 128)) = ip_fold (V4 a) + 2 ^ 31.
Proof.
  intros Ha Ht. unfold ip_fold, from_be_bytes. cbn [to_le_bytes rev app from_le_bytes].
  assert ((a + 128) mod 256 = a mod 256 + 128 /\ (a + 128) / 256 = a / 256) as [-> ->].
  { pose proof (Z.div_mod a 256 ltac:(lia)). pose proof (Z.mod_pos_bound a 256 ltac:(lia)).
    split; symmetry; [apply (Z.mod_unique _ _ (a / 256))|apply (Z.div_unique _ _ _ (a mod 256 + 128))]; lia. }
  change (2 ^ 31) with 2147483648. pose proof (Z.mod_pos_bound a 256 ltac:(lia)).
  pose proof (Z.mod_pos_bound (a / 256) 256 ltac:(lia)). pose proof (Z.mod_pos_bound (a / 256 / 256) 256 ltac:(lia)).
  pose proof (Z.mod_pos_bound (a / 256 / 256 / 256) 256 ltac:(lia)). lia.
Qed.

(** The key's marker bit 63 is also the top bit of the address: two IPv4 peers
    whose addresses differ only there (10.0.0.1 and 138.0.0.1) get one key. *)
Theorem tcp_hash_key_collides a src_port dst_port :
  is_u32 a -> a mod 256 < 128 ->
  tcp_hash_key (V4 (a + 128)) src_port dst_port = tcp_hash_key (V4 a) src_port dst_port.
Proof.
  intros Ha Ht. destruct (ip_fold_top a Ha Ht) as [Hr E]. unfold tcp_hash_key. rewrite E, !Z.lor_0_r.
  replace (Z.shiftl (ip_fold (V4 a) + 2 ^ 31) 32)
    with (Z.lor (Z.shiftl (ip_fold (V4 a)) 32) (Z.shiftl 1 63)).
  2:{ rewrite lor_shiftl; rewrite ?Z.shiftl_mul_pow2 by lia; change (2 ^ 63) with (2 ^ 31 * 2 ^ 32); lia. }
  apply Z.bits_inj'. intros n _. rewrite !Z.lor_spec.
  destruct (Z.testbit (Z.shiftl (ip_fold _) 32) n), (Z.testbit (Z.shiftl src_port 16) n),
    (Z.testbit dst_port n), (Z.testbit (Z.shiftl 1 63) n); reflexivity.
Qed.
