(* ===== verification/Pool.v ===== *)
(** * Connection pool (crates/net/tcp/src/pool.rs)

    One core's TCP state: the segmented pool with its intrusive free list, the
    armed-timer list threaded through the slots, the accept rings, the listener
    map, the connection hash, and the per-core cells of receive.rs (challenge-ACK
    bucket) and ephemeral.rs (port cursor).

    The segments of the pool are one list of slots, a multiple of
    [SEGMENT_SIZE] long.  [slot_ptr] indexes it; an index past the end panics in
    the source and reads a fresh connection here (the invariant of PoolInv.v
    keeps every index the code follows in range).  The growth latch, the
    cross-core diagnostic snapshot and the counters are not modelled. *)

From S2P Require Import Prelude.
From S2P Require Import NetTypes.
From S2P Require Import TcpTypes.
From S2P Require Import RxRing.
From S2P Require Import HashTable.

#[local] Open Scope st_scope.

(* ------------------------------------------------------------------ *)
(** ** State of a core *)

Abbreviation MAX_ACCEPT_RINGS := 8%Z (only parsing).
Abbreviation ACCEPT_RING_CAPACITY := 4096%Z (only parsing).
Abbreviation ACCEPT_RING_MASK := (ACCEPT_RING_CAPACITY - 1)%Z (only parsing).
Abbreviation MAX_LISTENERS_PER_CORE := 8%Z (only parsing).
Abbreviation CHALLENGE_ACK_RATE := 100%Z (only parsing).
Abbreviation CHALLENGE_ACK_BURST := 100%Z (only parsing).

Record AcceptRing := mkRing { ar_head : Z; ar_tail : Z; ar_slots : list Z }.
Record AcceptRingTable := mkRings { at_ports : list Z; at_rings : list AcceptRing }.
Record ListenerMap := mkListeners { lm_ports : list Z; lm_slots : list Z }.

Record Core := mkCore {
  conns : list TcpConnection;
  free_head : Z;
  hash : TcpHashCore;
  accept_rings : AcceptRingTable;
  listeners : ListenerMap;
  challenge_tokens : Z;
  challenge_last_ms : Z;
  next_offset : Z;
  cpu_id : Z;
  num_cores : Z;
  ctx : Ctx
}.

Definition eta_core (p : Core) : Core :=
  mkCore (conns p) (free_head p) (hash p) (accept_rings p) (listeners p)
    (challenge_tokens p) (challenge_last_ms p) (next_offset p) (cpu_id p) (num_cores p)
    (ctx p).
Definition set_conns (v : list TcpConnection) (p : Core) : Core :=
  ltac:(set_field eta_core conns p v).
Definition set_free_head (v : Z) (p : Core) : Core := ltac:(set_field eta_core free_head p v).
Definition set_hash (v : TcpHashCore) (p : Core) : Core := ltac:(set_field eta_core hash p v).
Definition set_accept_rings (v : AcceptRingTable) (p : Core) : Core :=
  ltac:(set_field eta_core accept_rings p v).
Definition set_listeners (v : ListenerMap) (p : Core) : Core :=
  ltac:(set_field eta_core listeners p v).
Definition set_challenge_tokens (v : Z) (p : Core) : Core :=
  ltac:(set_field eta_core challenge_tokens p v).
Definition set_challenge_last_ms (v : Z) (p : Core) : Core :=
  ltac:(set_field eta_core challenge_last_ms p v).
Definition set_next_offset (v : Z) (p : Core) : Core := ltac:(set_field eta_core next_offset p v).
Definition set_ctx (v : Ctx) (p : Core) : Core := ltac:(set_field eta_core ctx p v).

(** [AcceptRingTable::new()] and [ListenerMap::new()]. *)
Definition empty_ring : AcceptRing :=
  mkRing 0 0 (replicate (Z.to_nat ACCEPT_RING_CAPACITY) 0).
Definition rings_new : AcceptRingTable :=
  mkRings (replicate (Z.to_nat MAX_ACCEPT_RINGS) 0)
    (replicate (Z.to_nat MAX_ACCEPT_RINGS) empty_ring).
Definition listeners_new : ListenerMap :=
  mkListeners (replicate (Z.to_nat MAX_LISTENERS_PER_CORE) 0)
    (replicate (Z.to_nat MAX_LISTENERS_PER_CORE) 0).

(** A core after [init]: an empty pool, an empty armed-timer list and the
    statics at their initial values. *)
Definition core_init (cpu cores : Z) (x : Ctx) : Core :=
  mkCore [] NULL_SLOT hash_new rings_new listeners_new CHALLENGE_ACK_BURST 0 0 cpu cores
    (set_tick_head NULL_SLOT x).

(* ------------------------------------------------------------------ *)
(** ** Slots *)

(** [conn_ptr(core, slot)]. *)
Definition conn_at (slot : Z) (p : Core) : TcpConnection :=
  default new_conn (conns p !! Z.to_nat slot).

Definition put_conn (slot : Z) (c : TcpConnection) (p : Core) : Core :=
  set_conns (<[Z.to_nat slot := c]> (conns p)) p.

(** A connection method on the slot. *)
Definition on_slot {A} (slot : Z) (m : St CS A) : St Core A := fun p =>
  match m (conn_at slot p, ctx p) with
  | (a, (c, x)) => (a, set_ctx x (put_conn slot c p))
  end.

(** Environment code. *)
Definition on_env {A} (m : St Ctx A) : St Core A := fun p =>
  let (a, x) := m (ctx p) in (a, set_ctx x p).

Definition pool_capacity (p : Core) : Z := w16 (w32 (zlen (conns p) / SEGMENT_SIZE * SEGMENT_SIZE)).

(** [for i in 0..cap { if f(slot i) { return Some(i) } }]. *)
Fixpoint find_from (i : Z) (f : TcpConnection -> bool) (l : list TcpConnection) : option Z :=
  match l with
  | [] => None
  | c :: l => if f c then Some i else find_from (i + 1) f l
  end.
Definition find_slot (f : TcpConnection -> bool) (p : Core) : option Z :=
  find_from 0 f (ztake (pool_capacity p) (conns p)).

(* ------------------------------------------------------------------ *)
(** ** Free list *)

Definition free_slot (slot : Z) : St Core unit := fun p =>
  (tt, p |> put_conn slot (set_next_free (free_head p) (conn_at slot p)) |> set_free_head slot).

(** [for i in (0..n).rev() { self.free_slot(base + i) }]. *)
Fixpoint free_slots (base : Z) (n : nat) : St Core unit :=
  match n with
  | O => sret tt
  | S n => free_slot (w16 (base + Z.of_nat n));; free_slots base n
  end.

Definition new_segment (base : Z) : list TcpConnection :=
  (fun i => set_slot_index (w16 (base + Z.of_nat i)) new_conn) <$>
    seq 0 (Z.to_nat SEGMENT_SIZE).

Definition grow_segment : St Core bool :=
  segs <- gets (fun p => zlen (conns p) / SEGMENT_SIZE);;
  if MAX_SEGMENTS <=? segs then sret false
  else
    ok <- on_env try_reserve;;
    if negb ok then sret false
    else
      let base := Z.min U16_MAX (w16 segs * SEGMENT_SIZE) in
      modify (fun p => set_conns (conns p ++ new_segment base) p);;
      free_slots base (Z.to_nat SEGMENT_SIZE);;
      sret true.

Definition pool_pop : St Core (option Z) := fun p =>
  let head := free_head p in
  if head =? NULL_SLOT then (None, p)
  else (Some head, set_free_head (next_free (conn_at head p)) p).

(** [TcpPool::alloc]: after a successful growth the free list is not empty, so
    the recursive call only pops. *)
Definition pool_alloc : St Core (option Z) :=
  r <- pool_pop;;
  match r with
  | Some slot => sret (Some slot)
  | None => ok <- grow_segment;; if ok : bool then pool_pop else sret None
  end.

(* ------------------------------------------------------------------ *)
(** ** Armed-timer list *)

Definition tick_head_get (p : Core) : Z := tick_head (ctx p).

Definition put_tick_head (v : Z) (p : Core) : Core := set_ctx (set_tick_head v (ctx p)) p.

Definition tick_head_take : St Core Z := fun p =>
  (tick_head (ctx p), put_tick_head NULL_SLOT p).

(** The slot of the chain from [tail] whose [tick_next] is [NULL_SLOT]; a chain
    visits no slot twice, so the pool's size bounds the walk. *)
Fixpoint chain_tail (fuel : nat) (tail : Z) (p : Core) : Z :=
  match fuel with
  | O => tail
  | S fuel =>
      let n := tick_next (conn_at tail p) in
      if n =? NULL_SLOT then tail else chain_tail fuel n p
  end.

Definition tick_head_publish (new_head : Z) : St Core unit := fun p =>
  let intruder := tick_head (ctx p) in
  if intruder =? NULL_SLOT then (tt, put_tick_head new_head p)
  else
    let tail := chain_tail (length (conns p)) intruder p in
    (tt, p |> put_conn tail (set_tick_next new_head (conn_at tail p)) |> put_tick_head intruder).

(** The splice loop of [free_connection]: the slot whose [tick_next] is [slot]
    is pointed at [next]. *)
Fixpoint unlink_after (fuel : nat) (prev slot next : Z) (p : Core) : Core :=
  match fuel with
  | O => p
  | S fuel =>
      let prev_next := tick_next (conn_at prev p) in
      if prev_next =? slot then put_conn prev (set_tick_next next (conn_at prev p)) p
      else if prev_next =? NULL_SLOT then p
      else unlink_after fuel prev_next slot next p
  end.

Definition tick_unlink (slot : Z) (p : Core) : Core :=
  let c := conn_at slot p in
  if tick_in_list c then
    let head := tick_head (ctx p) in
    if head =? slot then put_tick_head (tick_next c) p
    else if head =? NULL_SLOT then p
    else unlink_after (length (conns p)) head slot (tick_next c) p
  else p.

(* ------------------------------------------------------------------ *)
(** ** Connections *)

(** Neither [Closed] nor [Listen]. *)
Definition is_live (c : TcpConnection) : bool :=
  negb (state_eqb (state c) Closed) && negb (state_eqb (state c) Listen).

Definition conn_key (c : TcpConnection) : Z :=
  tcp_hash_key (remote_ip c) (remote_port c) (local_port c).

Definition free_connection (slot : Z) : St Core unit :=
  c <- gets (conn_at slot);;
  if state_eqb (state c) Closed && negb (next_free c =? NULL_SLOT) then sret tt
  else
    swhen (is_live c) (modify (fun p => set_hash (tcp_hash_remove (conn_key c) (hash p)) p));;
    modify (tick_unlink slot);;
    on_slot slot (wake_recv;; wake_send);;
    on_slot slot (setc (fun c => reset_preserving (w16 (generation c + 1)) c));;
    free_slot slot.

(** The reclaim scan: the first slot in the first of the given states that has
    one. *)
Fixpoint reclaim_slot (states : list TcpState) (p : Core) : option Z :=
  match states with
  | [] => None
  | st :: states =>
      match find_slot (fun c => state_eqb (state c) st) p with
      | Some i => Some i
      | None => reclaim_slot states p
      end
  end.

Definition alloc_connection : St Core (option Z) :=
  r <- pool_alloc;;
  match r with
  | Some slot =>
      on_slot slot (setc (fun c => reset_preserving (generation c) c));;
      sret (Some slot)
  | None =>
      victim <- gets (reclaim_slot [FinWait1; FinWait2; LastAck; TimeWait; CloseWait]);;
      match victim with
      | Some i => free_connection i;; pool_alloc
      | None => sret None
      end
  end.

Definition IpAddr_eqb (a b : IpAddr) : bool := bool_decide (a = b).

(** A live connection with this peer and local port. *)
Definition tuple_matches (src_ip : IpAddr) (src_port dst_port : Z) (c : TcpConnection) : bool :=
  IpAddr_eqb (remote_ip c) src_ip && (local_port c =? dst_port) && (remote_port c =? src_port).

Definition tcp_linear_find (src_ip : IpAddr) (src_port dst_port : Z) (p : Core) : option Z :=
  find_slot (fun c => is_live c && tuple_matches src_ip src_port dst_port c) p.

(** A fresh 32-bit sample: the next entry of the generator's script. *)
Definition next_seq : St Ctx Z := fun x =>
  match rng x with
  | [] => (0, x)
  | v :: rest => (w32 v, set_rng rest x)
  end.

(* ------------------------------------------------------------------ *)
(** ** Handles *)

Definition encode_handle (core slot : Z) : Z :=
  w64 (Z.lor (w64 (Z.shiftl core 16)) (Z.land slot 65535) + 1).

(** [cores] is [POOLS.len()], [cap] the capacity of each core's pool. *)
Definition decode_handle (cores : Z) (cap : Z -> Z) (handle : Z) : option (Z * Z) :=
  let v := w64 (handle - 1) in
  let core := w32 (Z.shiftr v 16) in
  let slot := Z.land v 65535 in
  if (cores <=? core) || (cap core <=? slot) then None else Some (core, slot).

(* ------------------------------------------------------------------ *)
(** ** Listener map *)

(** The index of the first port equal to [port] or, when [claim], to 0. *)
Fixpoint port_index (f : Z -> bool) (ports : list Z) : option nat :=
  match ports with
  | [] => None
  | q :: ports => if f q then Some O else S <$> port_index f ports
  end.

Definition listener_register (port slot : Z) (m : ListenerMap) : ListenerMap :=
  match port_index (fun q => (q =? 0) || (q =? port)) (lm_ports m) with
  | Some i => mkListeners (<[i := port]> (lm_ports m)) (<[i := slot]> (lm_slots m))
  | None => m
  end.

(** [ports[i] == port] is tested before [ports[i] == 0]. *)
Definition listener_find (port : Z) (m : ListenerMap) : option Z :=
  match port_index (fun q => (q =? port) || (q =? 0)) (lm_ports m) with
  | Some i =>
      if default 0 (lm_ports m !! i) =? port then Some (default 0 (lm_slots m !! i)) else None
  | None => None
  end.

(* ------------------------------------------------------------------ *)
(** ** Accept rings *)

(** The ring of [port], claiming an unused entry for a port seen first. *)
Definition ring_idx_for_port (port : Z) : St AcceptRingTable (option nat) := fun t =>
  match port_index (fun q => q =? port) (at_ports t) with
  | Some i => (Some i, t)
  | None =>
      match port_index (fun q => q =? 0) (at_ports t) with
      | Some i => (Some i, mkRings (<[i := port]> (at_ports t)) (at_rings t))
      | None => (None, t)
      end
  end.

Definition ring_at (i : nat) (t : AcceptRingTable) : AcceptRing :=
  default empty_ring (at_rings t !! i).
Definition put_ring (i : nat) (r : AcceptRing) (t : AcceptRingTable) : AcceptRingTable :=
  mkRings (at_ports t) (<[i := r]> (at_rings t)).

Definition accept_ring_push (port slot : Z) : St AcceptRingTable unit :=
  idx <- ring_idx_for_port port;;
  match idx with
  | None => sret tt
  | Some i =>
      r <- gets (ring_at i);;
      if ACCEPT_RING_CAPACITY <=? w32 (ar_head r - ar_tail r) then sret tt
      else
        modify (put_ring i (mkRing (w32 (ar_head r + 1)) (ar_tail r)
          (set_cell (Z.land (ar_head r) ACCEPT_RING_MASK) slot (ar_slots r))))
  end.

Definition accept_ring_pop (port : Z) : St AcceptRingTable (option Z) :=
  idx <- ring_idx_for_port port;;
  match idx with
  | None => sret None
  | Some i =>
      r <- gets (ring_at i);;
      if ar_head r =? ar_tail r then sret None
      else
        modify (put_ring i (mkRing (ar_head r) (w32 (ar_tail r + 1)) (ar_slots r)));;
        sret (Some (cell (ar_slots r) (Z.land (ar_tail r) ACCEPT_RING_MASK)))
  end.

Definition on_rings {A} (m : St AcceptRingTable A) : St Core A := fun p =>
  let (a, t) := m (accept_rings p) in (a, set_accept_rings t p).
