(* ===== verification/Receive.v ===== *)
(** * Segment arrival (crates/net/tcp/src/receive.rs)

    [tcp_receive] on one core: header parsing, the reset and SYN branches, the
    connection lookup, and the acknowledgement, data, FIN, TimeWait and liveness
    stages a segment of a live connection goes through, with the challenge-ACK
    bucket, the active-open reply and path-MTU notes.

    A segment is the list of its chain parts' bytes, narrowed to start at the
    TCP header.  A stage that returns from the source's function early answers
    [true]. *)

From S2P Require Import Prelude.
From S2P Require Import NetTypes.
From S2P Require Import TcpTypes.
From S2P Require Import TcpSend.
From S2P Require Import TcpWire.
From S2P Require Import RxRing.
From S2P Require Import OooQueue.
From S2P Require Import Rtx.
From S2P Require Import HashTable.
From S2P Require Import Pool.

#[local] Open Scope st_scope.

(* ------------------------------------------------------------------ *)
(** ** Challenge ACKs *)

Abbreviation MAX_CORES := 22%Z (only parsing).

Definition challenge_ack_allowed : St Core bool := fun p =>
  if MAX_CORES <=? cpu_id p then (true, p)
  else
    let now := now_ms (ctx p) in
    let last := challenge_last_ms p in
    let refill := sat_mul64 (now - last) CHALLENGE_ACK_RATE / 1000 in
    let p :=
      if (last <? now) && (0 <? refill) then
        p |> set_challenge_tokens (w32 (Z.min (challenge_tokens p + refill) CHALLENGE_ACK_BURST))
          |> set_challenge_last_ms now
      else p in
    let cur := challenge_tokens p in
    if 0 <? cur then (true, set_challenge_tokens (cur - 1) p) else (false, p).

Definition send_challenge_ack (local_ip dst_ip : IpAddr)
    (src_port dst_port snd_nxt rcv_nxt window : Z) : St Core unit :=
  ok <- challenge_ack_allowed;;
  if negb ok then sret tt
  else on_env (send_segment
    (mkMeta local_ip dst_ip src_port dst_port snd_nxt rcv_nxt TCP_ACK window) []).

(* ------------------------------------------------------------------ *)
(** ** The segment *)

(** A parsed segment: addresses, header, the options of a SYN, and the chain. *)
Record RxSegment := mkRx {
  rx_src_ip : IpAddr;
  rx_dst_ip : IpAddr;
  rx_hdr : TcpHdr;
  rx_syn : SynOptions;
  rx_chain : list (list Z)
}.

Definition total_len (chain : list (list Z)) : Z := foldr (fun p n => zlen p + n) 0 chain.

(** [first.data().get(20..data_offset)]. *)
Definition option_bytes (data_offset : Z) (chain : list (list Z)) : option (list Z) :=
  match chain with
  | [] => None
  | first :: _ => get_slice 20 (data_offset - 20) first
  end.

Definition parse_segment (src_ip dst_ip : IpAddr) (chain : list (list Z)) : option RxSegment :=
  match chain with
  | [] => None
  | first :: _ =>
      match parse_header first with
      | None => None
      | Some h =>
          let syn :=
            if has_flag (h_flags h) TCP_SYN && (20 <? h_data_offset h) then
              match option_bytes (h_data_offset h) chain with
              | Some opts => parse_syn_options opts
              | None => no_options
              end
            else no_options in
          Some (mkRx src_ip dst_ip h syn chain)
      end
  end.

Definition payload_len (r : RxSegment) : Z :=
  sat_sub (total_len (rx_chain r)) (h_data_offset (rx_hdr r)).

Definition rx_flag (r : RxSegment) (f : Z) : bool := has_flag (h_flags (rx_hdr r)) f.

(** The metadata of a reply to the segment. *)
Definition reply_meta (r : RxSegment) (seq ack flags window : Z) : SegmentMeta :=
  mkMeta (rx_dst_ip r) (rx_src_ip r) (h_dst_port (rx_hdr r)) (h_src_port (rx_hdr r))
    seq ack flags window.

(** An ACK, carrying SACK blocks while out-of-order data is held. *)
Definition emit_ack (r : RxSegment) : St CS unit :=
  c <- getc id;;
  let meta := reply_meta r (snd_nxt c) (rcv_nxt c) TCP_ACK (w16 (rx_free c)) in
  let blocks := if sack_ok c && negb (ooo_is_empty (ooo c)) then ooo_sack_blocks 4 (ooo c) else [] in
  if 0 <? zlen blocks then on_ctx (send_segment_opts meta [] (sack_option blocks))
  else on_ctx (send_segment meta []).

(** A bare ACK of the current position. *)
Definition bare_ack (r : RxSegment) : St CS unit :=
  c <- getc id;;
  on_ctx (send_segment (reply_meta r (snd_nxt c) (rcv_nxt c) TCP_ACK (w16 (rx_free c))) []).

(* ------------------------------------------------------------------ *)
(** ** Active open *)

(** [fail_connect] (connect.rs). *)
Definition fail_connect (slot : Z) (failure : ConnectFailure) : St Core unit :=
  c <- gets (conn_at slot);;
  modify (fun p => set_hash (tcp_hash_remove (conn_key c) (hash p)) p);;
  on_slot slot (
    setc (fun c => c |> set_connect_failure failure |> set_state Closed
                     |> set_lifecycle_deadline_ms 0 |> set_fin_retx_count 0
                     |> set_rtt_anchor_active false);;
    wake_send;; wake_recv).

(** [min(ours, peer's)], floored; the local default without an option. *)
Definition negotiated_mss (local_ip : IpAddr) (peer : option Z) : Z :=
  let local_mss := w16 (mss_for local_ip) in
  match peer with
  | Some peer => Z.max (Z.min local_mss peer) 536
  | None => local_mss
  end.

Definition handle_syn_sent (r : RxSegment) : St CS unit :=
  c <- getc id;;
  let h := rx_hdr r in
  let ack_acceptable := rx_flag r TCP_ACK && (h_ack h =? snd_nxt c) in
  if rx_flag r TCP_ACK && negb ack_acceptable then
    on_ctx (send_segment (reply_meta r (h_ack h) 0 TCP_RST 0) [])
  else if negb (rx_flag r TCP_SYN) then sret tt
  else if negb (rx_flag r TCP_ACK) then sret tt
  else
    setc (fun c =>
      c |> set_rcv_nxt (w32 (h_seq h + 1)) |> set_snd_una (h_ack h)
        |> set_snd_wnd (h_window h) |> set_snd_wl1 (h_seq h) |> set_snd_wl2 (h_ack h)
        |> set_wscale_ok (bool_decide (is_Some (so_wscale (rx_syn r))))
        |> set_snd_wscale (default 0 (so_wscale (rx_syn r)))
        |> set_sack_ok (so_sack_permitted (rx_syn r))
        |> set_snd_mss (negotiated_mss (local_ip c) (so_mss (rx_syn r)))
        |> set_state Established
        |> set_lifecycle_deadline_ms 0 |> set_fin_retx_count 0);;
    congestion_init;;
    c <- getc id;;
    now <- now;;
    swhen (rtt_anchor_active c && negb (seq_lt (snd_una c) (rtt_anchor_seq c)))
      (setc (fun c =>
         let elapsed := sat_sub now (rtt_anchor_ms c) in
         let c := c |> sample_rtt (w32 (Z.min elapsed U32_MAX)) |> set_rtt_anchor_active false in
         set_rto_ms (estimated_rto c) c));;
    bare_ack r;;
    wake_send;;
    wake_recv.

(* ------------------------------------------------------------------ *)
(** ** Reset *)

Definition rx_rst (r : RxSegment) : St Core unit :=
  let h := rx_hdr r in
  found <- gets (find_slot (fun c =>
    is_live c && tuple_matches (rx_src_ip r) (h_src_port h) (h_dst_port h) c));;
  match found with
  | None => sret tt
  | Some i =>
      c <- gets (conn_at i);;
      if state_eqb (state c) SynSent then
        swhen (rx_flag r TCP_ACK && (h_ack h =? snd_nxt c)) (fail_connect i Refused)
      else swhen (h_seq h =? rcv_nxt c) (free_connection i)
  end.

(* ------------------------------------------------------------------ *)
(** ** SYN *)

(** The new connection's fields. *)
Definition syn_received (r : RxSegment) (isn : Z) (c : TcpConnection) : TcpConnection :=
  let h := rx_hdr r in
  c |> set_state SynReceived |> set_remote_ip (rx_src_ip r) |> set_local_ip (rx_dst_ip r)
    |> set_local_port (h_dst_port h) |> set_remote_port (h_src_port h)
    |> set_snd_nxt isn |> set_snd_una isn
    |> set_snd_wnd (h_window h) |> set_snd_wl1 (h_seq h) |> set_snd_wl2 0
    |> set_wscale_ok (bool_decide (is_Some (so_wscale (rx_syn r))))
    |> set_snd_wscale (default 0 (so_wscale (rx_syn r)))
    |> set_sack_ok (so_sack_permitted (rx_syn r))
    |> set_snd_mss (negotiated_mss (rx_dst_ip r) (so_mss (rx_syn r)))
    |> set_rcv_nxt (w32 (h_seq h + 1)) |> set_listener_port (h_dst_port h)
    |> set_accepted false.

Definition reset_ring (c : TcpConnection) : TcpConnection :=
  c |> set_rx_head 0 |> set_rx_tail 0 |> set_rx_used 0 |> set_chunk_wanted false
    |> set_pending_chunk None.

Definition syn_ack (r : RxSegment) : St CS unit :=
  c <- getc id;;
  on_ctx (send_segment_opts
    (reply_meta r (snd_nxt c) (rcv_nxt c) (Z.lor TCP_SYN TCP_ACK) (w16 RX_RING_BYTES)) []
    (syn_option_blob (w16 (mss_for (local_ip c))) (wscale_ok c) (sack_ok c))).

(** The RST that refuses a SYN. *)
Definition refuse_syn (r : RxSegment) : St Core unit :=
  let h := rx_hdr r in
  on_env (send_rst (rx_dst_ip r) (rx_src_ip r) (h_dst_port h) (h_src_port h) 0
            (w32 (h_seq h + 1))).

(** A listener exists: allocate, initialise, publish, answer. *)
Definition accept_syn (r : RxSegment) : St Core unit :=
  let h := rx_hdr r in
  slot <- alloc_connection;;
  match slot with
  | None => sret tt
  | Some slot =>
      ring <- on_slot slot ensure_rx_ring;;
      if negb ring then refuse_syn r;; free_connection slot
      else
        isn <- on_env next_seq;;
        on_slot slot (setc (syn_received r isn);; congestion_init;; setc reset_ring);;
        modify (fun p => set_hash
          (tcp_hash_insert (tcp_hash_key (rx_src_ip r) (h_src_port h) (h_dst_port h)) slot
             (hash p)) p);;
        on_slot slot (syn_ack r);;
        on_slot slot (setc (fun c => set_snd_nxt (w32 (snd_nxt c + 1)) c))
  end.

(** The hash entry of the segment's tuple, re-verified. *)
Definition verified_find (src_ip : IpAddr) (src_port dst_port : Z) (p : Core) : option Z :=
  match tcp_hash_find (tcp_hash_key src_ip src_port dst_port) (hash p) with
  | Some s => if tuple_matches src_ip src_port dst_port (conn_at s p) then Some s else None
  | None => None
  end.

(** The registered listener, or the pool scan for one. *)
Definition find_listener (port : Z) (p : Core) : option Z :=
  match listener_find port (listeners p) with
  | Some l => Some l
  | None => find_slot (fun c => state_eqb (state c) Listen && (local_port c =? port)) p
  end.

Definition rx_bare_syn (r : RxSegment) : St Core unit :=
  let h := rx_hdr r in
  hit <- gets (verified_find (rx_src_ip r) (h_src_port h) (h_dst_port h));;
  twin <- gets (fun p => (fun s => (s, conn_at s p)) <$> hit);;
  match twin with
  | Some (s, c) =>
      if state_eqb (state c) Established then
        send_challenge_ack (rx_dst_ip r) (rx_src_ip r) (h_dst_port h) (h_src_port h)
          (snd_nxt c) (rcv_nxt c) (w16 (rx_free c))
      else if state_eqb (state c) SynSent then sret tt
      else
        listener <- gets (find_listener (h_dst_port h));;
        match listener with
        | None => refuse_syn r
        | Some _ => swhen (is_live c) (free_connection s);; accept_syn r
        end
  | None =>
      listener <- gets (find_listener (h_dst_port h));;
      match listener with
      | None => refuse_syn r
      | Some _ => accept_syn r
      end
  end.

(* ------------------------------------------------------------------ *)
(** ** Acknowledgement stage *)

(** RFC 9293: the advertised window, from a segment at least as recent as the
    one that last set it. *)
Definition refresh_window (h : TcpHdr) (c : TcpConnection) : TcpConnection :=
  if seq_lt (snd_wl1 c) (h_seq h) ||
     ((snd_wl1 c =? h_seq h) && negb (seq_lt (h_ack h) (snd_wl2 c))) then
    c |> set_snd_wnd (if wscale_ok c then w32 (Z.shiftl (h_window h) (snd_wscale c)) else h_window h)
      |> set_snd_wl1 (h_seq h) |> set_snd_wl2 (h_ack h)
  else c.

Definition is_dup_ack (r : RxSegment) (c : TcpConnection) : bool :=
  (h_ack (rx_hdr r) =? snd_una c) && (payload_len r =? 0) &&
  negb (has_flag (h_flags (rx_hdr r)) (Z.lor TCP_SYN TCP_FIN)) && seq_lt (snd_una c) (snd_nxt c).

(** [if c.usable_window() > 0 && let Some(w) = c.send_waker.take()]. *)
Definition wake_sender_if_open : St CS unit :=
  c <- getc id;;
  swhen (0 <? usable_window c) wake_send.

(** The blocks of the segment's SACK option. *)
Definition sack_blocks_of (r : RxSegment) : list (Z * Z) :=
  match option_bytes (h_data_offset (rx_hdr r)) (rx_chain r) with
  | Some opts => parse_sack_blocks opts
  | None => []
  end.

(** What follows the state transition: retire acknowledged data, fold SACKs,
    fast retransmit, RACK, the persist timer, the parked sender. *)
Definition ack_recovery (r : RxSegment) (old_una : Z) (dup : bool) : St CS unit :=
  rtx_on_ack old_una;;
  c <- getc id;;
  swhen (sack_ok c && (20 <? h_data_offset (rx_hdr r)))
    (let blocks := sack_blocks_of r in
     swhen (0 <? zlen blocks) (apply_sack blocks;; sret tt));;
  c <- getc id;;
  (if dup then on_dup_ack
   else swhen (negb (snd_una c =? old_una)) on_new_data_ack);;
  now <- now;;
  rack_detect now;;
  c <- getc id;;
  swhen (0 <? snd_wnd c)
    (setc (fun c => c |> set_persist_deadline_ms 0 |> set_persist_backoff 0));;
  wake_sender_if_open.

(** [executor::reactor::deliver_tcp_ready(port)]. *)
Definition deliver_tcp_ready (port : Z) : St Ctx unit :=
  modify (fun x => set_ready_ports (ready_ports x ++ [port]) x).

(** [true] when the segment is done with: an ACK above [SND.NXT], or the ACK of
    our FIN in [LastAck]. *)
Definition rx_ack (slot : Z) (r : RxSegment) : St Core bool :=
  let h := rx_hdr r in
  c <- gets (conn_at slot);;
  if seq_lt (snd_nxt c) (h_ack h) then
    send_challenge_ack (rx_dst_ip r) (rx_src_ip r) (h_dst_port h) (h_src_port h)
      (snd_nxt c) (rcv_nxt c) (w16 (rx_free c));;
    sret true
  else
    let old_una := snd_una c in
    let ack_advances := seq_lt (snd_una c) (h_ack h) in
    let dup := is_dup_ack r c in
    on_slot slot (setc (refresh_window h));;
    if state_eqb (state c) SynReceived && ack_advances then
      on_slot slot (setc (fun c => c |> set_state Established |> set_snd_una (h_ack h)));;
      on_rings (accept_ring_push (listener_port c) (w16 slot));;
      on_env (deliver_tcp_ready (listener_port c));;
      on_slot slot (ack_recovery r old_una dup);;
      sret false
    else if state_eqb (state c) LastAck && (h_ack h =? snd_nxt c) then
      free_connection slot;;
      sret true
    else
      on_slot slot (
        (if state_eqb (state c) FinWait1 && (h_ack h =? snd_nxt c) then
           setc (fun c => c |> set_state FinWait2 |> set_snd_una (h_ack h)
                            |> set_lifecycle_deadline_ms 0 |> set_fin_retx_count 0)
         else swhen ack_advances (setc (set_snd_una (h_ack h))));;
        ack_recovery r old_una dup);;
      sret false.

(* ------------------------------------------------------------------ *)
(** ** Data stage *)

(** The chain past its first [skip] bytes, part by part; an empty or skipped
    part yields nothing. *)
Fixpoint payload_parts (skip : Z) (chain : list (list Z)) : list (list Z) :=
  match chain with
  | [] => []
  | part :: chain =>
      if zlen part <=? skip then payload_parts (skip - zlen part) chain
      else zdrop skip part :: payload_parts 0 chain
  end.

(** [pushed += c.deliver_payload(part)] over the parts. *)
Fixpoint deliver_parts (parts : list (list Z)) (pushed : Z) : St TcpConnection Z :=
  match parts with
  | [] => sret pushed
  | part :: parts => n <- deliver_payload part;; deliver_parts parts (pushed + n)
  end.

(** In-order delivery: the zero-copy stash of a single-part segment for a parked
    [recv_chunk], or the copy through the ring. *)
Definition deliver_in_order (r : RxSegment) : St TcpConnection Z := fun c =>
  let off := h_data_offset (rx_hdr r) in
  match chunk_wanted c, pending_chunk c, rx_used c =? 0, rx_chain r with
  | true, None, true, [part] =>
      if off + payload_len r <=? zlen part then
        (payload_len r, c |> set_pending_chunk (Some (slice off (payload_len r) part))
                          |> set_chunk_wanted false)
      else (0, c)
  | _, _, _, _ => deliver_parts (payload_parts off (rx_chain r)) 0 c
  end.

Definition data_state (st : TcpState) : bool :=
  state_eqb st Established || state_eqb st FinWait1 || state_eqb st FinWait2.

Definition rx_data (r : RxSegment) : St CS unit :=
  let h := rx_hdr r in
  c <- getc id;;
  if (0 <? payload_len r) && data_state (state c) then
    if h_seq h =? rcv_nxt c then
      pushed <- on_conn (deliver_in_order r);;
      setc (fun c => set_rcv_nxt (w32 (rcv_nxt c + w32 pushed)) c);;
      c <- getc id;;
      drained <- (if ooo_is_empty (ooo c) then sret 0 else on_conn drain_ooo);;
      setc (fun c => set_rcv_wnd (w16 (rx_free c)) c);;
      swhen (0 <? pushed + drained) wake_recv;;
      emit_ack r
    else if seq_lt (h_seq h) (rcv_nxt c) then emit_ack r
    else
      ok <- on_ctx try_reserve;;
      swhen ok (setc (fun c =>
        set_ooo (snd (ooo_insert (rcv_nxt c) (h_seq h)
                   (concat (payload_parts (h_data_offset h) (rx_chain r))) (ooo c))) c));;
      emit_ack r
  else sret tt.

(* ------------------------------------------------------------------ *)
(** ** FIN, TimeWait and liveness stages *)

Definition rx_fin (r : RxSegment) : St CS unit :=
  c <- getc id;;
  if rx_flag r TCP_FIN && (w32 (h_seq (rx_hdr r) + w32 (payload_len r)) =? rcv_nxt c) then
    setc (fun c => set_rcv_nxt (w32 (rcv_nxt c + 1)) c);;
    bare_ack r;;
    now <- now;;
    match state c with
    | Established | SynReceived => setc (set_state CloseWait)
    | FinWait1 | FinWait2 =>
        setc (fun c => c |> set_state TimeWait |> set_fin_retx_count 0);;
        arm_time_wait now
    | _ => sret tt
    end;;
    c <- getc id;;
    swhen (state_eqb (state c) CloseWait) wake_recv
  else sret tt.

Definition rx_time_wait (r : RxSegment) (prev_state : TcpState) : St CS unit :=
  swhen (state_eqb prev_state TimeWait && rx_flag r TCP_FIN)
    (bare_ack r;; now <- now;; arm_time_wait now).

Definition rx_liveness : St CS unit :=
  c <- getc id;;
  swhen (state_eqb (state c) Established)
    (maybe_send_window_update;;
     c <- getc id;;
     swhen ((0 <? rx_used c) || bool_decide (is_Some (pending_chunk c))) wake_recv).

(* ------------------------------------------------------------------ *)
(** ** The whole arrival *)

(** The hash entry of the tuple — not re-verified — or the pool scan. *)
Definition rx_lookup (r : RxSegment) (p : Core) : option Z :=
  let h := rx_hdr r in
  match tcp_hash_find (tcp_hash_key (rx_src_ip r) (h_src_port h) (h_dst_port h)) (hash p) with
  | Some s => Some s
  | None => tcp_linear_find (rx_src_ip r) (h_src_port h) (h_dst_port h) p
  end.

(** A segment of the live connection in [slot]. *)
Definition rx_live (slot : Z) (r : RxSegment) : St Core unit :=
  prev_state <- gets (fun p => state (conn_at slot p));;
  done <- (if rx_flag r TCP_ACK then rx_ack slot r else sret false);;
  if done : bool then sret tt
  else on_slot slot (rx_data r;; rx_fin r;; rx_time_wait r prev_state;; rx_liveness).

Definition rx_segment (r : RxSegment) : St Core unit :=
  if rx_flag r TCP_RST then rx_rst r
  else if rx_flag r TCP_SYN && negb (rx_flag r TCP_ACK) then rx_bare_syn r
  else
    found <- gets (rx_lookup r);;
    match found with
    | None => sret tt
    | Some slot =>
        c <- gets (conn_at slot);;
        if negb (is_live c) then sret tt
        else if state_eqb (state c) SynSent then on_slot slot (handle_syn_sent r)
        else rx_live slot r
    end.

Definition tcp_receive (src_ip dst_ip : IpAddr) (segment : list (list Z)) : St Core unit :=
  match parse_segment src_ip dst_ip segment with
  | None => sret tt
  | Some r => rx_segment r
  end.

(* ------------------------------------------------------------------ *)
(** ** Path MTU *)

Inductive PathMtuOutcome := Applied | Rejected | NoConn.

Definition pmtu_floor (local_ip : IpAddr) : Z :=
  match local_ip with V4 _ => 536 | V6 _ => 1220 end.

Definition note_path_mtu (remote_ip : IpAddr) (remote_port local_port seq candidate_mss : Z)
    : St Core PathMtuOutcome :=
  hit <- gets (verified_find remote_ip remote_port local_port);;
  match hit with
  | None => sret NoConn
  | Some slot =>
      c <- gets (conn_at slot);;
      let in_window := w32 (seq - snd_una c) <? flight c in
      if negb (state_eqb (state c) Established) || negb in_window then sret Rejected
      else
        let new_mss := Z.max candidate_mss (pmtu_floor (local_ip c)) in
        if new_mss <? snd_mss c then
          on_slot slot (setc (set_snd_mss new_mss));; sret Applied
        else sret Rejected
  end.
