(* ===== verification/Frames.v ===== *)
(** * What the recovery machinery leaves alone

    Retransmission, loss detection, SACK folding and congestion control touch
    only the sender's scoreboard and timers.  Three views of a connection they
    keep — its synchronised part, its receive side, its persist timer — and, for
    the whole acknowledgement and liveness stages, the first two. *)

From S2P Require Import Prelude.
From S2P Require Import NetTypes.
From S2P Require Import TcpTypes.
From S2P Require Import TcpSend.
From S2P Require Import TcpWire.
From S2P Require Import RxRing.
From S2P Require Import OooQueue.
From S2P Require Import Rtx.
From S2P Require Import Receive.

#[local] Open Scope st_scope.

(** What the two ends of a connection agree on. *)
Definition sync_view (s : CS) :=
  let c := fst s in
  (state c, (snd_una c, snd_nxt c, rcv_nxt c), (snd_mss c, sack_ok c, wscale_ok c, snd_wscale c),
   (local_ip c, remote_ip c, local_port c, remote_port c)).

(** The receive side. *)
Definition rx_view (s : CS) :=
  let c := fst s in
  (rcv_nxt c, (rx_ring c, rx_head c, rx_tail c, rx_used c), ooo c, pending_chunk c).

(** The persist timer. *)
Definition persist_view (s : CS) := (persist_deadline_ms (fst s), persist_backoff (fst s)).

Definition conn_view (s : CS) := (sync_view s, rx_view s).
Definition quiet_view (s : CS) := (conn_view s, persist_view s).

Lemma preserves_pair {A T U} (f : CS -> T) (g : CS -> U) (m : St CS A) :
  preserves (fun s => (f s, g s)) m -> preserves f m /\ preserves g m.
Proof. intros H. split; intros s; specialize (H s); cbn in H; by injection H. Qed.

Lemma quiet_conn {A} (m : St CS A) : preserves quiet_view m -> preserves conn_view m.
Proof. intros H. exact (proj1 (preserves_pair conn_view persist_view m H)). Qed.

Lemma conn_rx {A} (m : St CS A) : preserves conn_view m -> preserves rx_view m.
Proof. intros H. exact (proj2 (preserves_pair sync_view rx_view m H)). Qed.

Lemma conn_sync {A} (m : St CS A) : preserves conn_view m -> preserves sync_view m.
Proof. intros H. exact (proj1 (preserves_pair sync_view rx_view m H)). Qed.

Lemma quiet_persist {A} (m : St CS A) : preserves quiet_view m -> preserves persist_view m.
Proof. intros H. exact (proj2 (preserves_pair conn_view persist_view m H)). Qed.

#[export] Hint Resolve quiet_conn : preserves.

(* ------------------------------------------------------------------ *)
(** ** Recovery *)

Lemma wake_recv_quiet : preserves quiet_view wake_recv.
Proof. intros [c x]. unfold exec, wake_recv. cbn. by destruct (recv_waker c). Qed.

Lemma wake_send_quiet : preserves quiet_view wake_send.
Proof. intros [c x]. unfold exec, wake_send. cbn. by destruct (send_waker c). Qed.

Lemma emit_rtx_quiet i : preserves quiet_view (emit_rtx_entry i).
Proof. unfold emit_rtx_entry. preserve_cs. Qed.

Lemma arm_rtx_quiet : preserves quiet_view arm_rtx.
Proof. unfold arm_rtx, arm_tlp. preserve_cs. Qed.

Lemma rtx_ack_quiet k : preserves quiet_view (rtx_ack k).
Proof.
  intros [c x]. unfold exec, rtx_ack. cbn [fst snd]. by destruct (rtx_ack_loop _ _ _ _) as [? [? ?]].
Qed.

Lemma cwnd_quiet n : preserves quiet_view (cwnd_on_ack n).
Proof. unfold cwnd_on_ack. preserve_cs. Qed.
#[export] Hint Resolve wake_recv_quiet wake_send_quiet emit_rtx_quiet arm_rtx_quiet rtx_ack_quiet cwnd_quiet
  : preserves.

Lemma rtx_on_ack_quiet una : preserves quiet_view (rtx_on_ack una).
Proof.
  unfold rtx_on_ack. preserve_cs. apply preserves_setc. intros s.
  unfold quiet_view, conn_view, sync_view, rx_view, persist_view, sample_rtt. cbn [fst]. by destruct (negb _).
Qed.

Lemma for_each_quiet {A} (l : list A) f :
  (forall a, preserves quiet_view (f a)) -> preserves quiet_view (for_each l f).
Proof. intros Hf. induction l as [|a l IH]; cbn [for_each]; preserve_cs; auto. Qed.

Lemma holes_quiet : preserves quiet_view sack_retransmit_holes.
Proof. unfold sack_retransmit_holes. preserve_cs. apply for_each_quiet. intros i. preserve_cs. Qed.

Lemma resend_quiet base idxs : forall lost, preserves quiet_view (rack_resend base idxs lost).
Proof. induction idxs as [|i idxs IH]; intros [|l lost]; cbn [rack_resend]; preserve_cs; auto. Qed.
#[export] Hint Resolve rtx_on_ack_quiet holes_quiet resend_quiet : preserves.

Lemma rack_quiet now : preserves quiet_view (rack_detect now).
Proof. unfold rack_detect. preserve_cs. Qed.

Lemma rto_quiet now : preserves quiet_view (retransmit_oldest now).
Proof. unfold retransmit_oldest, congestion_on_rto, retransmit_oldest_segment. preserve_cs. Qed.

Lemma tlp_quiet now : preserves quiet_view (send_tlp_probe now).
Proof. unfold send_tlp_probe, arm_tlp. preserve_cs. Qed.
#[export] Hint Resolve rack_quiet rto_quiet tlp_quiet : preserves.

(* ------------------------------------------------------------------ *)
(** ** Whole stages *)

Lemma probe_conn now : preserves conn_view (send_window_probe now).
Proof. unfold send_window_probe, arm_persist. preserve_cs. Qed.

(** The acknowledgement stage past its state transition. *)
Lemma recovery_conn r una dup : preserves conn_view (ack_recovery r una dup).
Proof.
  unfold ack_recovery, apply_sack, on_dup_ack, fast_retransmit, retransmit_oldest_segment,
    on_new_data_ack, wake_sender_if_open. preserve_cs.
Qed.

Lemma window_update_conn_view : preserves conn_view maybe_send_window_update.
Proof. unfold maybe_send_window_update. preserve_cs. Qed.
#[export] Hint Resolve probe_conn recovery_conn window_update_conn_view : preserves.

Lemma liveness_conn : preserves conn_view rx_liveness.
Proof. unfold rx_liveness. preserve_cs. Qed.

Lemma bare_ack_conn r : preserves conn_view (bare_ack r).
Proof. unfold bare_ack. preserve_cs. Qed.

Lemma emit_ack_conn r : preserves conn_view (emit_ack r).
Proof. unfold emit_ack. preserve_cs. Qed.
#[export] Hint Resolve liveness_conn bare_ack_conn emit_ack_conn : preserves.
