(* ===== verification/Lifecycle.v ===== *)
(** * Timer tick, active open, and the socket API
    (crates/net/tcp/src/retransmit.rs, connect.rs, ephemeral.rs, listener.rs,
    send.rs)

    The entry points of one core other than segment arrival.  A handle carries
    its core and slot; [Machine] is the list of cores and [at_handle] the
    decode-and-check-generation prologue every socket call opens with. *)

From S2P Require Import Prelude.
From S2P Require Import NetTypes.
From S2P Require Import Wire.
From S2P Require Import TcpTypes.
From S2P Require Import TcpSend.
From S2P Require Import RxRing.
From S2P Require Import Rtx.
From S2P Require Import HashTable.
From S2P Require Import Pool.
From S2P Require Import Receive.

#[local] Open Scope st_scope.

(* ------------------------------------------------------------------ *)
(** ** Active open *)

Definition send_syn : St CS unit :=
  c <- getc id;;
  on_ctx (send_segment_opts
    (mkMeta (local_ip c) (remote_ip c) (local_port c) (remote_port c) (snd_una c) 0 TCP_SYN
       (w16 RX_RING_BYTES)) []
    (syn_option_blob (w16 (mss_for (local_ip c))) true true)).

Definition retransmit_syn (now : Z) : St CS unit :=
  send_syn;;
  setc (set_rtt_anchor_active false);;
  setc (fun c => set_fin_retx_count (sat_add8 (fin_retx_count c) 1) c);;
  arm_fin_timer now.

Abbreviation EPHEMERAL_LO := 49152%Z (only parsing).
Abbreviation EPHEMERAL_COUNT := 16384%Z (only parsing).

Definition tuple_in_use (remote_ip : IpAddr) (remote_port port : Z) (p : Core) : bool :=
  match tcp_hash_find (tcp_hash_key remote_ip remote_port port) (hash p) with
  | Some s =>
      let c := conn_at s p in
      negb (state_eqb (state c) Closed) && tuple_matches remote_ip remote_port port c
  | None => false
  end.

(** The first of [n] candidate offsets from [i] on that [ok] accepts. *)
Fixpoint first_offset (ok : Z -> bool) (i : Z) (n : nat) : option Z :=
  match n with
  | O => None
  | S n => if ok i then Some i else first_offset ok (i + 1) n
  end.

Definition alloc_ephemeral_port (local_ip remote_ip : IpAddr) (remote_port : Z)
    : St Core (option Z) := fun p =>
  let cursor := if cpu_id p <? MAX_CORES then next_offset p else 0 in
  let port_of i := EPHEMERAL_LO + w16 (w32 (cursor + i) mod EPHEMERAL_COUNT) in
  match first_offset (fun i =>
          negb (tuple_in_use remote_ip remote_port (port_of i) p) &&
          (Classify.flow_owner remote_ip local_ip remote_port (port_of i) (num_cores p) =? cpu_id p))
          0 (Z.to_nat EPHEMERAL_COUNT) with
  | Some i =>
      let off := w32 (cursor + i) mod EPHEMERAL_COUNT in
      (Some (port_of i),
       if cpu_id p <? MAX_CORES then set_next_offset (w16 ((off + 1) mod EPHEMERAL_COUNT)) p else p)
  | None =>
      let slice := EPHEMERAL_COUNT / Z.max (num_cores p) 1 in
      let base := cpu_id p mod Z.max (num_cores p) 1 * slice in
      let port_of i := w16 (EPHEMERAL_LO + w16 (base + i)) in
      match first_offset (fun i => negb (tuple_in_use remote_ip remote_port (port_of i) p))
              0 (Z.to_nat slice) with
      | Some i => (Some (port_of i), p)
      | None => (None, p)
      end
  end.

(** The embryo's fields. *)
Definition syn_sent (local_ip remote_ip : IpAddr) (local_port remote_port iss now : Z)
    (c : TcpConnection) : TcpConnection :=
  c |> set_state SynSent |> set_remote_ip remote_ip |> set_local_ip local_ip
    |> set_local_port local_port |> set_remote_port remote_port
    |> set_snd_una iss |> set_snd_nxt (w32 (iss + 1))
    |> set_listener_port 0 |> set_accepted true
    |> set_rtt_anchor_ms now |> set_rtt_anchor_seq (w32 (iss + 1)) |> set_rtt_anchor_active true.

(** The embryo connection on the chosen port: its handle and generation. *)
Definition open_connection (local_ip remote_ip : IpAddr) (local_port remote_port : Z)
    : St Core (option (Z * Z)) :=
  slot <- alloc_connection;;
  match slot with
  | None => sret None
  | Some slot =>
      ring <- on_slot slot ensure_rx_ring;;
      if negb ring then free_connection slot;; sret None
      else
        iss <- on_env next_seq;;
        now <- gets (fun p => now_ms (ctx p));;
        on_slot slot (setc (syn_sent local_ip remote_ip local_port remote_port iss now));;
        modify (fun p => set_hash
          (tcp_hash_insert (tcp_hash_key remote_ip remote_port local_port) slot (hash p)) p);;
        on_slot slot (send_syn;; arm_fin_timer now);;
        p <- gets id;;
        sret (Some (encode_handle (cpu_id p) slot, generation (conn_at slot p)))
  end.

Definition connect_on_core (local_ip remote_ip : IpAddr) (remote_port : Z)
    : St Core (option (Z * Z)) :=
  port <- alloc_ephemeral_port local_ip remote_ip remote_port;;
  match port with
  | None => sret None
  | Some local_port => open_connection local_ip remote_ip local_port remote_port
  end.

(* ------------------------------------------------------------------ *)
(** ** Timer tick *)

Definition still_armed (c : TcpConnection) : bool :=
  negb (rtx_deadline_ms c =? 0) || negb (tlp_deadline_ms c =? 0) ||
  negb (rack_deadline_ms c =? 0) || negb (persist_deadline_ms c =? 0) ||
  negb (lifecycle_deadline_ms c =? 0).

Definition due (deadline now : Z) : bool := negb (deadline =? 0) && (deadline <=? now).

(** The retransmission, tail-loss and RACK timers of the slot; [true] when the
    retry budget is spent. *)
Definition tick_rtx (slot now : Z) : St Core bool :=
  c <- gets (conn_at slot);;
  if due (rtx_deadline_ms c) now && (RTX_MAX_RETRIES <=? rtx_backoff c) then sret true
  else
    on_slot slot (
      (if due (rtx_deadline_ms c) now then retransmit_oldest now
       else swhen (due (tlp_deadline_ms c) now)
         (if state_eqb (state c) Established then send_tlp_probe now
          else setc (set_tlp_deadline_ms 0)));;
      c <- getc id;;
      swhen (due (rack_deadline_ms c) now) (rack_detect now));;
    sret false.

(** The persist timer; [true] when the probe budget is spent. *)
Definition tick_persist (slot now : Z) : St Core bool :=
  c <- gets (conn_at slot);;
  if due (persist_deadline_ms c) now then
    if state_eqb (state c) Established then
      if PERSIST_MAX_PROBES <=? persist_backoff c then sret true
      else on_slot slot (send_window_probe now);; sret false
    else on_slot slot (setc (set_persist_deadline_ms 0));; sret false
  else sret false.

(** FIN and SYN retransmission, and the TimeWait hold. *)
Definition tick_lifecycle (slot now : Z) : St Core unit :=
  c <- gets (conn_at slot);;
  if due (lifecycle_deadline_ms c) now then
    match state c with
    | FinWait1 | LastAck =>
        if FIN_RETX_MAX <=? fin_retx_count c then free_connection slot
        else on_slot slot (retransmit_fin now)
    | TimeWait => free_connection slot
    | SynSent =>
        if SYN_RETX_MAX <=? fin_retx_count c then fail_connect slot TimedOut
        else on_slot slot (retransmit_syn now)
    | _ => on_slot slot (setc (set_lifecycle_deadline_ms 0))
    end
  else sret tt.

(** Re-link the slot in front of [new_head], or drop it from the list. *)
Definition tick_relink (slot new_head : Z) : St Core Z :=
  c <- gets (conn_at slot);;
  if still_armed c then on_slot slot (setc (set_tick_next new_head));; sret slot
  else on_slot slot (setc (set_tick_in_list false));; sret new_head.

(** One iteration of the walk: the next [walker] and [new_head].  The two
    give-up arms [continue] without advancing [walker]. *)
Definition tick_slot (now walker new_head : Z) : St Core (Z * Z) :=
  next <- gets (fun p => tick_next (conn_at walker p));;
  giveup <- tick_rtx walker now;;
  if giveup : bool then free_connection walker;; sret (walker, new_head)
  else
    giveup <- tick_persist walker now;;
    if giveup : bool then free_connection walker;; sret (walker, new_head)
    else
      tick_lifecycle walker now;;
      new_head <- tick_relink walker new_head;;
      sret (next, new_head).

(** [while walker != NULL_SLOT].  A slot is visited once, or twice when it gave
    up, so twice the pool's size bounds the walk. *)
Fixpoint tick_walk (fuel : nat) (now walker new_head : Z) : St Core Z :=
  match fuel with
  | O => sret new_head
  | S fuel =>
      if walker =? NULL_SLOT then sret new_head
      else
        r <- tick_slot now walker new_head;;
        tick_walk fuel now (fst r) (snd r)
  end.

Definition on_tcp_tick : St Core unit :=
  now <- gets (fun p => now_ms (ctx p));;
  old_head <- tick_head_take;;
  n <- gets (fun p => length (conns p));;
  new_head <- tick_walk (2 * n + 1) now old_head NULL_SLOT;;
  tick_head_publish new_head.

Definition has_armed_timers (p : Core) : bool := negb (tick_head_get p =? NULL_SLOT).

(* ------------------------------------------------------------------ *)
(** ** Listening and accepting *)

(** The handle, null (0) when the pool is exhausted. *)
Definition listen_on_core (port : Z) : St Core Z :=
  slot <- alloc_connection;;
  match slot with
  | None => sret 0
  | Some slot =>
      on_slot slot (setc (fun c => c |> set_state Listen |> set_local_port port));;
      modify (fun p => set_listeners (listener_register port (w16 slot) (listeners p)) p);;
      core <- gets cpu_id;;
      sret (encode_handle core slot)
  end.

Definition acceptable (port : Z) (c : TcpConnection) : bool :=
  state_eqb (state c) Established && (listener_port c =? port) && negb (accepted c).

(** The stream handed out: its handle and generation. *)
Definition take_accept (i : Z) : St Core (option (Z * Z)) :=
  on_slot i (setc (set_accepted true));;
  p <- gets id;;
  sret (Some (encode_handle (cpu_id p) i, generation (conn_at i p))).

(** [while let Some(slot) = accept_ring_pop(..)]: each iteration empties one
    entry, so the ring's capacity bounds the loop. *)
Fixpoint accept_loop (fuel : nat) (port : Z) : St Core (option (Z * Z)) :=
  match fuel with
  | O => sret None
  | S fuel =>
      slot <- on_rings (accept_ring_pop port);;
      match slot with
      | None => sret None
      | Some i =>
          c <- gets (conn_at i);;
          if acceptable port c then take_accept i else accept_loop fuel port
      end
  end.

Definition accept_fuel : nat := Z.to_nat (ACCEPT_RING_CAPACITY + 1).

Definition accept_on_port (port : Z) : St Core (option (Z * Z)) :=
  fast <- accept_loop accept_fuel port;;
  match fast with
  | Some h => sret (Some h)
  | None =>
      found <- gets (find_slot (acceptable port));;
      match found with
      | Some i => take_accept i
      | None => sret None
      end
  end.

(* ------------------------------------------------------------------ *)
(** ** Socket calls *)

Definition Machine : Type := list Core.

(** [init]: one fresh core per CPU. *)
Definition init (envs : list Ctx) : Machine :=
  imap (fun i x => core_init (Z.of_nat i) (zlen envs) x) envs.

Definition machine_cap (M : Machine) (core : Z) : Z :=
  match M !! Z.to_nat core with Some p => pool_capacity p | None => 0 end.

Definition decode (M : Machine) (handle : Z) : option (Z * Z) :=
  decode_handle (zlen M) (machine_cap M) handle.

(** Code of the given core. *)
Definition at_core {A} (core : Z) (dflt : A) (m : St Core A) : St Machine A := fun M =>
  match M !! Z.to_nat core with
  | Some p => let (a, p') := m p in (a, <[Z.to_nat core := p']> M)
  | None => (dflt, M)
  end.

(** The prologue of a socket call: a handle that does not decode, or whose
    generation is not the slot's, is [stale]. *)
Definition at_handle {A} (handle gen : Z) (dflt : A) (stale : St Machine A)
    (m : Z -> St Core A) : St Machine A := fun M =>
  match decode M handle with
  | None => stale M
  | Some (core, slot) =>
      match M !! Z.to_nat core with
      | None => stale M
      | Some p =>
          if generation (conn_at slot p) =? gen then at_core core dflt (m slot) M else stale M
      end
  end.

Inductive TcpConnectStatus := CInProgress | CEstablished | CRefused | CTimedOut.

Definition connect_status (handle gen : Z) : St Machine TcpConnectStatus :=
  at_handle handle gen CTimedOut (sret CTimedOut) (fun slot =>
    c <- gets (conn_at slot);;
    sret (match state c with
          | SynSent => CInProgress
          | Closed => match connect_failure c with Refused => CRefused | _ => CTimedOut end
          | _ => CEstablished
          end)).

Definition closing_state (st : TcpState) : bool :=
  state_eqb st Closed || state_eqb st CloseWait || state_eqb st LastAck || state_eqb st TimeWait.

Definition is_readable_or_closed (handle gen : Z) : St Machine bool :=
  at_handle handle gen true (sret true) (fun slot =>
    c <- gets (conn_at slot);;
    sret ((0 <? rx_used c) || bool_decide (is_Some (pending_chunk c)) || closing_state (state c))).

(** The FIN of [close], moving to [next]. *)
Definition send_fin (next : TcpState) : St CS unit :=
  c <- getc id;;
  on_ctx (send_segment (conn_meta c (snd_nxt c) (Z.lor TCP_FIN TCP_ACK) (w16 (rx_free c))) []);;
  setc (fun c => c |> set_snd_nxt (w32 (snd_nxt c + 1)) |> set_state next);;
  now <- now;;
  arm_fin_timer now.

Definition close_slot (slot : Z) : St Core unit :=
  c <- gets (conn_at slot);;
  match state c with
  | Established => on_slot slot (send_fin FinWait1)
  | CloseWait => on_slot slot (send_fin LastAck)
  | _ => free_connection slot
  end.

Definition close (handle gen : Z) : St Machine unit :=
  at_handle handle gen tt (sret tt) close_slot.

(** One slot of [shutdown_all]. *)
Definition shutdown_slot (slot : Z) : St Core unit :=
  c <- gets (conn_at slot);;
  swhen (is_live c) (
    on_env (send_rst (local_ip c) (remote_ip c) (local_port c) (remote_port c)
              (snd_nxt c) (rcv_nxt c));;
    free_connection slot);;
  on_slot slot (setc (fun c => c |> set_rx_ring None |> set_rtx_queue []
                                 |> set_rtx_bytes_in_flight 0)).

Fixpoint shutdown_from (slot : Z) (n : nat) : St Core unit :=
  match n with
  | O => sret tt
  | S n => shutdown_slot slot;; shutdown_from (slot + 1) n
  end.

Definition shutdown_core : St Core unit :=
  cap <- gets pool_capacity;;
  shutdown_from 0 (Z.to_nat cap).

Definition shutdown_all : St Machine unit := fun M => (tt, exec shutdown_core <$> M).

Definition async_recv (handle gen len : Z) : St Machine (list Z) :=
  at_handle handle gen [] (sret []) (fun slot => on_slot slot (rx_pop len)).

(** Fires the caller's waker, on the calling core. *)
Definition wake_caller (cpu w : Z) : St Machine unit := at_core cpu tt (on_env (wake w)).

(** [Some(w) if w.will_wake(waker) => {}]: an equal waker is kept. *)
Definition register_recv_waker (cpu handle gen w : Z) : St Machine unit :=
  at_handle handle gen tt (wake_caller cpu w) (fun slot =>
    on_slot slot (setc (set_recv_waker (Some w)))).

Definition clear_recv_waker (handle gen : Z) : St Machine unit :=
  at_handle handle gen tt (sret tt) (fun slot => on_slot slot (setc (set_recv_waker None))).

Definition register_send_waker (cpu handle gen w : Z) : St Machine unit :=
  at_handle handle gen tt (wake_caller cpu w) (fun slot =>
    on_slot slot (setc (set_send_waker (Some w)))).

Definition clear_send_waker (handle gen : Z) : St Machine unit :=
  at_handle handle gen tt (sret tt) (fun slot => on_slot slot (setc (set_send_waker None))).

Definition set_chunk_buf_slot (handle gen : Z) : St Machine unit :=
  at_handle handle gen tt (sret tt) (fun slot => on_slot slot (setc (set_chunk_wanted true))).

Definition clear_chunk_buf_slot (handle gen : Z) : St Machine unit :=
  at_handle handle gen tt (sret tt) (fun slot => on_slot slot (setc (set_chunk_wanted false))).

(** The stashed chunk, else the ring's bytes; [None] is end of stream. *)
Definition recv_chunk : St CS (option (list Z)) :=
  c <- getc id;;
  match pending_chunk c with
  | Some iobuf => setc (set_pending_chunk None);; sret (Some iobuf)
  | None =>
      let n := rx_used c in
      if n =? 0 then sret None
      else
        ok <- on_ctx try_reserve;;
        if negb ok then sret None
        else bytes <- rx_pop n;; sret (Some bytes)
  end.

Definition do_recv_chunk (handle gen : Z) : St Machine (option (list Z)) :=
  at_handle handle gen None (sret None) (fun slot => on_slot slot recv_chunk).

(* ------------------------------------------------------------------ *)
(** ** Sending *)

(** [nic::tso_available()] and the fit of the super-segment choose the path. *)
Definition send_bytes (meta : SegmentMeta) (bytes : list Z) (sendable mss : Z) : St Ctx Z :=
  tso <- gets tso_available;;
  if tso && (mss <? sendable) &&
     (payload_offset (sm_local_ip meta) + sendable <=? TSO_FRAME_BUF_LEN)
  then send_super_segment_from_cursor meta bytes sendable mss
  else send_per_mss_fallback meta bytes sendable mss.

(** The established-connection part of [async_try_send_chain]: the bytes sent
    and the chain left. *)
Definition send_chain (chain : list (list Z)) : St CS (Z * list (list Z)) :=
  c <- getc id;;
  let total := total_len chain in
  if total =? 0 then sret (0, chain)
  else
    let sendable := Z.min total (usable_window c) in
    if sendable =? 0 then
      now <- now;;
      swhen ((snd_wnd c =? 0) && (persist_deadline_ms c =? 0)) (arm_persist now);;
      sret (0, chain)
    else
      let meta := conn_meta c (snd_nxt c) (Z.lor TCP_ACK TCP_PSH) (w16 (rx_free c)) in
      sent <- on_ctx (send_bytes meta (concat chain) sendable (snd_mss c));;
      setc (fun c => set_snd_nxt (w32 (snd_nxt c + w32 sent)) c);;
      rest <- rtx_on_data_sent chain sent;;
      sret (sent, rest).

(** [None] is [Err(Closed)], with the chain untouched. *)
Definition async_try_send_chain (handle gen : Z) (chain : list (list Z))
    : St Machine (option Z * list (list Z)) :=
  at_handle handle gen (None, chain) (sret (None, chain)) (fun slot =>
    c <- gets (conn_at slot);;
    if negb (state_eqb (state c) Established) then sret (None, chain)
    else r <- on_slot slot (send_chain chain);; sret (Some (fst r), snd r)).

(** [try_send_tso]: [fill cap] is what the closure writes into a region of [cap]
    bytes, [None] its error; a closure cannot write past the region. *)
Inductive TsoResult := TsoDeclined | TsoFailed | TsoSent (n : Z).

Definition send_tso (min_payload : Z) (fill : Z -> option (list Z)) : St CS TsoResult :=
  c <- getc id;;
  let mss := snd_mss c in
  if negb (state_eqb (state c) Established) || (min_payload <=? mss) ||
     (usable_window c <? min_payload) then sret TsoDeclined
  else
    mac <- on_ctx (gets (fun x => mac_resolve x (remote_ip c)));;
    match mac with
    | None => sret TsoDeclined
    | Some dst_mac =>
        slot <- on_ctx acquire_tx_tso_buf;;
        if negb slot then sret TsoDeclined
        else
          cap <- on_ctx (gets tso_cap);;
          let max_payload := sat_sub cap (payload_offset (local_ip c)) in
          match fill max_payload with
          | None => sret TsoFailed
          | Some payload =>
              let payload_len := zlen payload in
              if payload_len =? 0 then sret (TsoSent 0)
              else if max_payload <? payload_len then sret TsoDeclined
              else
                setc (fun c => set_snd_nxt (w32 (snd_nxt c + w32 payload_len)) c);;
                rtx_on_data_sent_slice payload;;
                on_ctx (submit (fun id =>
                  mkSegment (conn_meta c (snd_nxt c) (Z.lor TCP_ACK TCP_PSH) (w16 (rx_free c)))
                    dst_mac id [] payload (Some (w16 mss))));;
                sret (TsoSent payload_len)
          end
    end.

Definition try_send_tso (handle gen min_payload : Z) (fill : Z -> option (list Z))
    : St Machine TsoResult :=
  at_handle handle gen TsoDeclined (sret TsoDeclined)
    (fun slot => on_slot slot (send_tso min_payload fill)).
