(* ===== verification/SlotMethods.v ===== *)
(** * What a connection method may touch

    Every method the engine runs on a slot leaves the slot's identity alone (its
    index, generation, free-list link and 4-tuple), moves it only between live
    states, and reaches the armed-timer list only by pushing the slot itself once
    ([slot_rel]); and a deadline it sets is on a slot that is on the list
    ([armed_ok]).  The pool's invariants (PoolInv.v) need nothing else. *)

From S2P Require Import Prelude.
From S2P Require Import NetTypes.
From S2P Require Import TcpTypes.
From S2P Require Import TcpSend.
From S2P Require Import TcpWire.
From S2P Require Import RxRing.
From S2P Require Import OooQueue.
From S2P Require Import Rtx.
From S2P Require Import HashTable.
From S2P Require Import Pool.
From S2P Require Import Receive.
From S2P Require Import Lifecycle.

#[local] Open Scope st_scope.

(* ------------------------------------------------------------------ *)
(** ** Environment code keeps the list head *)

Lemma try_reserve_tick : preserves tick_head try_reserve.
Proof. intros x. unfold exec, try_reserve. by destruct (allocs x). Qed.

Lemma wake_tick w : preserves tick_head (wake w).
Proof. done. Qed.

Lemma submit_tick fill : preserves tick_head (submit fill).
Proof. intros x. unfold exec, submit. cbn [snd]. by destruct (is_v4 _). Qed.

Lemma acquire_tick : preserves tick_head acquire_tx_buf.
Proof. intros x. unfold exec, acquire_tx_buf. by destruct (tx_grants x). Qed.

Lemma acquire_tso_tick : preserves tick_head acquire_tx_tso_buf.
Proof. intros x. unfold exec, acquire_tx_tso_buf. by destruct (tso_grants x). Qed.

#[export] Hint Resolve try_reserve_tick wake_tick submit_tick acquire_tick acquire_tso_tick
  : preserves.

Lemma build_tick fill : preserves tick_head (build_and_send_frame fill).
Proof. unfold build_and_send_frame. preserve. Qed.
#[export] Hint Resolve build_tick : preserves.

Lemma send_opts_tick meta payload opts : preserves tick_head (send_segment_opts meta payload opts).
Proof. unfold send_segment_opts. preserve. Qed.
#[export] Hint Resolve send_opts_tick : preserves.

Lemma send_tick meta payload : preserves tick_head (send_segment meta payload).
Proof. apply send_opts_tick. Qed.
#[export] Hint Resolve send_tick : preserves.

Lemma send_rst_tick a b c d e f : preserves tick_head (send_rst a b c d e f).
Proof. apply send_tick. Qed.

Lemma cursor_tick meta cursor n : preserves tick_head (send_segment_from_cursor meta cursor n).
Proof. unfold send_segment_from_cursor. preserve. Qed.
#[export] Hint Resolve send_rst_tick cursor_tick : preserves.

Lemma per_mss_tick fuel : forall meta cursor sent n mss,
  preserves tick_head (per_mss_loop fuel meta cursor sent n mss).
Proof. induction fuel as [|fuel IH]; intros; cbn [per_mss_loop]; preserve. Qed.
#[export] Hint Resolve per_mss_tick : preserves.

Lemma send_bytes_tick meta bytes n mss : preserves tick_head (send_bytes meta bytes n mss).
Proof.
  unfold send_bytes, send_super_segment_from_cursor, send_per_mss_fallback. preserve.
Qed.

Lemma next_seq_tick : preserves tick_head next_seq.
Proof. intros x. unfold exec, next_seq. by destruct (rng x). Qed.

Lemma deliver_ready_tick port : preserves tick_head (deliver_tcp_ready port).
Proof. done. Qed.
#[export] Hint Resolve send_bytes_tick next_seq_tick deliver_ready_tick : preserves.

(* ------------------------------------------------------------------ *)
(** ** The relation *)

(** What identifies a slot and its connection. *)
Definition slot_id (c : TcpConnection) : Z * Z * Z * (IpAddr * Z * Z) :=
  (next_free c, slot_index c, generation c, (remote_ip c, remote_port c, local_port c)).

(** The slot stays where it is on the armed-timer list, or is pushed. *)
Definition tick_rel (s s' : CS) : Prop :=
  (tick_next (fst s') = tick_next (fst s) /\ tick_in_list (fst s') = tick_in_list (fst s) /\
   tick_head (snd s') = tick_head (snd s)) \/
  (tick_in_list (fst s) = false /\ tick_in_list (fst s') = true /\
   tick_next (fst s') = tick_head (snd s) /\ tick_head (snd s') = slot_index (fst s)).

Definition state_rel (c c' : TcpConnection) : Prop :=
  state c' = state c \/ (is_live c = true /\ is_live c' = true).

Record slot_rel (s s' : CS) : Prop := {
  sr_id : slot_id (fst s') = slot_id (fst s);
  sr_state : state_rel (fst s) (fst s');
  sr_tick : tick_rel s s'
}.

Lemma is_live_state c c' : state c' = state c -> is_live c' = is_live c.
Proof. unfold is_live. by intros ->. Qed.

Lemma slot_rel_refl s : slot_rel s s.
Proof. split; [done|by left|by left]. Qed.

Lemma slot_rel_trans s1 s2 s3 : slot_rel s1 s2 -> slot_rel s2 s3 -> slot_rel s1 s3.
Proof.
  intros [I1 S1 T1] [I2 S2 T2]. split; [congruence| |].
  - destruct S1 as [E1|[L1 L1']], S2 as [E2|[L2 L2']].
    + left. congruence.
    + right. split; [|done]. by rewrite <-(is_live_state _ _ E1).
    + right. split; [done|]. by rewrite (is_live_state _ _ E2).
    + by right.
  - assert (slot_index (fst s2) = slot_index (fst s1)) by (unfold slot_id in *; congruence).
    destruct T1 as [(A1 & A2 & A3)|(A1 & A2 & A3 & A4)],
      T2 as [(B1 & B2 & B3)|(B1 & B2 & B3 & B4)]; unfold tick_rel.
    + left. repeat split; congruence.
    + right. repeat split; congruence.
    + right. repeat split; congruence.
    + congruence.
Qed.

(** [m] is a slot method. *)
Definition method {A} (m : St CS A) : Prop := forall s, slot_rel s (exec m s).

Lemma method_ret {A} (a : A) : method (sret a).
Proof. intros s. apply slot_rel_refl. Qed.

Lemma method_getc {A} (f : TcpConnection -> A) : method (getc f).
Proof. intros s. apply slot_rel_refl. Qed.

Lemma method_now : method now.
Proof. intros s. rewrite exec_now. apply slot_rel_refl. Qed.

Lemma method_bind {A B} (m : St CS A) (k : A -> St CS B) :
  method m -> (forall a, method (k a)) -> method (sbind m k).
Proof. intros Hm Hk s. rewrite exec_bind. eapply slot_rel_trans; [apply Hm|apply Hk]. Qed.

Lemma method_when b (m : St CS unit) : method m -> method (swhen b m).
Proof. destruct b; [done|]. intros _. apply method_ret. Qed.

(** The fields a method's assignments leave alone. *)
Definition slot_view (c : TcpConnection) :=
  (slot_id c, state c, tick_next c, tick_in_list c).

Lemma slot_rel_view c c' x : slot_view c' = slot_view c -> slot_rel (c, x) (c', x).
Proof.
  unfold slot_view. rewrite !pair_equal_spec. intros [[[E1 E2] E3] E4].
  split; cbn [fst snd]; [done|by left|by left].
Qed.

Lemma method_setc f : (forall c, slot_view (f c) = slot_view c) -> method (setc f).
Proof. intros H [c x]. apply slot_rel_view, H. Qed.

Lemma method_on_ctx {A} (m : St Ctx A) : preserves tick_head m -> method (on_ctx m).
Proof.
  intros H [c x]. rewrite exec_on_ctx. split; cbn [fst snd]; [done|by left|left].
  split; [done|]. split; [done|]. apply H.
Qed.

Lemma method_on_conn {A} (m : St TcpConnection A) :
  preserves slot_view m -> method (on_conn m).
Proof.
  intros H [c x]. rewrite exec_on_conn. apply slot_rel_view, H.
Qed.

Lemma method_arm : method arm_for_tick.
Proof.
  intros [c x]. unfold exec, arm_for_tick, register_armed_slot.
  destruct (tick_in_list c) eqn:E; [apply slot_rel_refl|].
  split; cbn [fst snd]; [done|by left|by right].
Qed.

Create HintDb method.
#[export] Hint Resolve method_ret method_getc method_now method_arm : method.

(** Walks a program, leaving the assignments that are not frames. *)
Ltac method_step :=
  match goal with
  | |- method (sbind _ _) => apply method_bind; [|intros ?]
  | |- method (swhen _ _) => apply method_when
  | |- method (setc _) => apply method_setc; intros ?; reflexivity
  | |- method (on_ctx _) => apply method_on_ctx; solve [preserve]
  | |- method (if ?b then _ else _) => destruct b
  | |- method (match ?x with _ => _ end) => destruct x
  | |- method _ => solve [auto with method nocore]
  end.
Ltac method := repeat method_step.

(* ------------------------------------------------------------------ *)
(** ** Every method *)

Lemma method_wake_recv : method wake_recv.
Proof.
  intros [c x]. unfold exec, wake_recv. cbn [fst]. destruct (recv_waker c); [|apply slot_rel_refl].
  split; cbn; [done|by left|by left].
Qed.

Lemma method_wake_send : method wake_send.
Proof.
  intros [c x]. unfold exec, wake_send. cbn [fst]. destruct (send_waker c); [|apply slot_rel_refl].
  split; cbn; [done|by left|by left].
Qed.
#[export] Hint Resolve method_wake_recv method_wake_send : method.

Lemma method_for_each {A} (l : list A) f : (forall a, method (f a)) -> method (for_each l f).
Proof. intros Hf. induction l as [|a l IH]; cbn [for_each]; method; auto. Qed.

Lemma method_emit_rtx i : method (emit_rtx_entry i).
Proof. unfold emit_rtx_entry. method. Qed.
#[export] Hint Resolve method_emit_rtx : method.

Lemma method_arm_rtx : method arm_rtx.
Proof. unfold arm_rtx, arm_tlp. method. Qed.

Lemma method_arm_fin now : method (arm_fin_timer now).
Proof. unfold arm_fin_timer. method. Qed.

Lemma method_arm_time_wait now : method (arm_time_wait now).
Proof. unfold arm_time_wait. method. Qed.

Lemma method_arm_persist now : method (arm_persist now).
Proof. unfold arm_persist. method. Qed.
#[export] Hint Resolve method_arm_rtx method_arm_fin method_arm_time_wait method_arm_persist
  : method.

Lemma method_holes : method sack_retransmit_holes.
Proof.
  unfold sack_retransmit_holes. method. apply method_for_each. intros i. method.
Qed.
#[export] Hint Resolve method_holes : method.

Lemma method_fast : method fast_retransmit.
Proof. unfold fast_retransmit, retransmit_oldest_segment. method. Qed.
#[export] Hint Resolve method_fast : method.

Lemma method_dup : method on_dup_ack.
Proof. unfold on_dup_ack. method. Qed.

Lemma method_new_data : method on_new_data_ack.
Proof. unfold on_new_data_ack. method. Qed.

Lemma method_rack_resend base idxs : forall lost, method (rack_resend base idxs lost).
Proof.
  induction idxs as [|i idxs IH]; intros [|l lost]; cbn [rack_resend]; method; auto.
Qed.
#[export] Hint Resolve method_dup method_new_data method_rack_resend : method.

Lemma method_rack now : method (rack_detect now).
Proof. unfold rack_detect. method. Qed.

Lemma method_sack blocks : method (apply_sack blocks).
Proof. unfold apply_sack. method. Qed.

Lemma sample_rtt_view r c : slot_view (sample_rtt r c) = slot_view c.
Proof. unfold sample_rtt. by destruct (negb (rtt_seeded c)). Qed.

Lemma method_rtx_ack k : method (rtx_ack k).
Proof.
  intros [c x]. unfold exec, rtx_ack. cbn [fst snd].
  destruct (rtx_ack_loop _ _ _ _) as [? [? ?]]. split; cbn [fst snd]; [done|by left|by left].
Qed.
#[export] Hint Resolve method_rack method_sack method_rtx_ack : method.

Lemma method_cwnd_on_ack n : method (cwnd_on_ack n).
Proof. unfold cwnd_on_ack. method. Qed.
#[export] Hint Resolve method_cwnd_on_ack : method.

Lemma method_rtx_on_ack una : method (rtx_on_ack una).
Proof.
  unfold rtx_on_ack. method. apply method_setc. intros c. apply (sample_rtt_view _ c).
Qed.

Lemma method_rtx_push buf seq n now : method (rtx_push buf seq n now).
Proof. unfold rtx_push. method. Qed.
#[export] Hint Resolve method_rtx_on_ack method_rtx_push : method.

Lemma method_retain now chain : forall total seq, method (rtx_retain chain total seq now).
Proof.
  induction chain as [|front chain IH]; intros; cbn [rtx_retain];
    unfold handle_rtx_push_oom; method; auto.
Qed.
#[export] Hint Resolve method_retain : method.

Lemma method_data_sent chain total : method (rtx_on_data_sent chain total).
Proof. unfold rtx_on_data_sent. method. Qed.

Lemma method_data_sent_slice bytes : method (rtx_on_data_sent_slice bytes).
Proof. unfold rtx_on_data_sent_slice, handle_rtx_push_oom. method. Qed.

Lemma method_congestion_init : method congestion_init.
Proof. unfold congestion_init. method. Qed.
#[export] Hint Resolve method_data_sent method_data_sent_slice method_congestion_init : method.

Lemma method_rto now : method (retransmit_oldest now).
Proof. unfold retransmit_oldest, congestion_on_rto, retransmit_oldest_segment. method. Qed.

Lemma method_tlp now : method (send_tlp_probe now).
Proof. unfold send_tlp_probe, arm_tlp. method. Qed.

Lemma method_fin now : method (retransmit_fin now).
Proof. unfold retransmit_fin. method. Qed.

Lemma method_probe now : method (send_window_probe now).
Proof. unfold send_window_probe. method. Qed.

Lemma method_send_syn : method send_syn.
Proof. unfold send_syn. method. Qed.
#[export] Hint Resolve method_rto method_tlp method_fin method_probe method_send_syn : method.

Lemma method_retransmit_syn now : method (retransmit_syn now).
Proof. unfold retransmit_syn. method. Qed.

Lemma method_window_update : method maybe_send_window_update.
Proof. unfold maybe_send_window_update. method. Qed.
#[export] Hint Resolve method_retransmit_syn method_window_update : method.

Lemma method_rx_pop n : method (rx_pop n).
Proof. unfold rx_pop. method. Qed.

Lemma method_ensure_ring : method ensure_rx_ring.
Proof. unfold ensure_rx_ring. method. Qed.
#[export] Hint Resolve method_rx_pop method_ensure_ring : method.

Lemma method_recv_chunk : method recv_chunk.
Proof. unfold recv_chunk. method. Qed.
#[export] Hint Resolve method_recv_chunk : method.

Lemma method_send_chain chain : method (send_chain chain).
Proof. unfold send_chain. method. Qed.

Lemma method_send_tso n fill : method (send_tso n fill).
Proof. unfold send_tso. method. Qed.

Lemma method_emit_ack r : method (emit_ack r).
Proof. unfold emit_ack. method. Qed.

Lemma method_bare_ack r : method (bare_ack r).
Proof. unfold bare_ack. method. Qed.

Lemma method_syn_ack r : method (syn_ack r).
Proof. unfold syn_ack. method. Qed.
#[export] Hint Resolve method_send_chain method_send_tso method_emit_ack method_bare_ack
  method_syn_ack : method.

Lemma method_refresh h : method (setc (refresh_window h)).
Proof. apply method_setc. intros c. unfold refresh_window. by destruct (_ || _)%bool. Qed.

Lemma method_recovery r una dup : method (ack_recovery r una dup).
Proof. unfold ack_recovery, wake_sender_if_open. method. Qed.

(** The five deadlines and the list flag. *)
Definition timers (c : TcpConnection) :=
  (rtx_deadline_ms c, tlp_deadline_ms c, rack_deadline_ms c, persist_deadline_ms c,
   lifecycle_deadline_ms c, tick_in_list c).

(** Everything the stages of in-order delivery leave alone. *)
Definition delivery_frame (c : TcpConnection) := (slot_view c, timers c).

Lemma push_view payload : preserves delivery_frame (rx_ring_push payload).
Proof.
  intros c. unfold exec, rx_ring_push. destruct (zlen payload =? 0); [done|].
  destruct (rx_free c =? 0); [done|]. by destruct (rx_ring c).
Qed.

Lemma drain_loop_view fuel : forall d, preserves delivery_frame (drain_loop fuel d).
Proof.
  induction fuel as [|fuel IH]; intros d c; unfold exec; cbn [drain_loop]; [done|].
  destruct (ooo_take_at _ _) as [[seg|] q]; [|done].
  destruct (rx_ring_push _ _) as [n c2] eqn:E. cbv beta zeta iota.
  assert (delivery_frame c2 = delivery_frame c) as Hv.
  { pose proof (push_view (zdrop (w32 (rcv_nxt c - ooo_seq seg)) (ooo_bytes seg)) (set_ooo q c)) as H.
    unfold exec in H. change (rcv_nxt (set_ooo q c)) with (rcv_nxt c) in E. rewrite E in H. exact H. }
  destruct (_ <? _); [exact Hv|].
  rewrite <-Hv. exact (IH (d + n) (set_rcv_nxt (w32 (rcv_nxt c2 + w32 n)) c2)).
Qed.

Lemma drain_ooo_view : preserves delivery_frame drain_ooo.
Proof. intros c. apply drain_loop_view. Qed.

Lemma deliver_parts_view parts : forall n, preserves delivery_frame (deliver_parts parts n).
Proof.
  induction parts as [|p parts IH]; intros n; cbn [deliver_parts]; [done|].
  apply preserves_bind; [apply push_view|auto].
Qed.

Lemma deliver_in_order_view r : preserves delivery_frame (deliver_in_order r).
Proof.
  intros c. unfold exec, deliver_in_order.
  pose proof (deliver_parts_view (payload_parts (h_data_offset (rx_hdr r)) (rx_chain r)) 0 c) as H.
  unfold exec in H.
  destruct (chunk_wanted c), (pending_chunk c), (rx_used c =? 0), (rx_chain r) as [|part [|? ?]];
    try exact H.
  by destruct (_ <=? _).
Qed.

Lemma method_rx_data r : method (rx_data r).
Proof.
  unfold rx_data. method.
  - apply method_on_conn. intros c. exact (f_equal fst (deliver_in_order_view r c)).
  - apply method_on_conn. intros c. exact (f_equal fst (drain_ooo_view c)).
Qed.

Lemma method_time_wait r st : method (rx_time_wait r st).
Proof. unfold rx_time_wait. method. Qed.

Lemma method_liveness : method rx_liveness.
Proof. unfold rx_liveness. method. Qed.
#[export] Hint Resolve method_refresh method_recovery method_rx_data method_time_wait
  method_liveness : method.

(* ------------------------------------------------------------------ *)
(** ** Methods of a live connection *)

(** These also move the state, always between live ones. *)
Definition live_method {A} (m : St CS A) : Prop :=
  forall s, is_live (fst s) = true -> slot_rel s (exec m s).

Lemma live_of_method {A} (m : St CS A) : method m -> live_method m.
Proof. intros H s _. apply H. Qed.

Lemma slot_rel_live s s' : slot_rel s s' -> is_live (fst s) = true -> is_live (fst s') = true.
Proof. intros [_ [E|[_ L]] _] Hl; [by rewrite (is_live_state _ _ E)|done]. Qed.

Lemma live_bind {A B} (m : St CS A) (k : A -> St CS B) :
  live_method m -> (forall a, live_method (k a)) -> live_method (sbind m k).
Proof.
  intros Hm Hk s Hs. rewrite exec_bind. specialize (Hm s Hs).
  eapply slot_rel_trans; [exact Hm|]. apply Hk. by eapply slot_rel_live.
Qed.

Lemma live_when b (m : St CS unit) : live_method m -> live_method (swhen b m).
Proof. destruct b; [done|]. intros _. apply live_of_method, method_ret. Qed.

Definition tick_view (c : TcpConnection) := (slot_id c, tick_next c, tick_in_list c).

Lemma live_setc f :
  (forall c, tick_view (f c) = tick_view c /\ is_live (f c) = true) -> live_method (setc f).
Proof.
  intros H [c x] Hc. rewrite exec_setc. destruct (H c) as [E L]. unfold tick_view in E.
  rewrite !pair_equal_spec in E. destruct E as [[E1 E2] E3].
  split; cbn [fst snd] in *; [done|by right|by left].
Qed.

Ltac live_method :=
  repeat first
  [ match goal with
    | |- live_method (sbind _ _) => apply live_bind; [|intros ?]
    | |- live_method (swhen _ _) => apply live_when
    | |- live_method (setc _) => apply live_setc; intros ?; split; reflexivity
    | |- live_method (if ?b then _ else _) => destruct b
    | |- live_method (match ?x with _ => _ end) => destruct x
    end
  | apply live_of_method; solve [method] ].

Lemma live_handle_syn_sent r : live_method (handle_syn_sent r).
Proof.
  unfold handle_syn_sent. live_method. apply live_of_method, method_setc. intros c.
  apply (sample_rtt_view _ c).
Qed.

Lemma live_fin r : live_method (rx_fin r).
Proof. unfold rx_fin. live_method. Qed.

Lemma live_send_fin st : is_live (set_state st new_conn) = true -> live_method (send_fin st).
Proof.
  intros H. unfold send_fin. live_method. apply live_setc. intros c. split; [done|exact H].
Qed.

Lemma live_stages r st : live_method (rx_data r;; rx_fin r;; rx_time_wait r st;; rx_liveness).
Proof.
  apply live_bind; [apply live_of_method, method_rx_data|intros _].
  apply live_bind; [apply live_fin|intros _].
  apply live_of_method. method.
Qed.

(* ------------------------------------------------------------------ *)
(** ** Deadlines are armed *)

(** A pending deadline is on the armed-timer list. *)
Definition armed_ok (c : TcpConnection) : Prop := still_armed c = true -> tick_in_list c = true.

Definition keeps_armed {A} (m : St CS A) : Prop :=
  forall s, armed_ok (fst s) -> armed_ok (fst (exec m s)).

Lemma armed_ok_timers c c' : timers c' = timers c -> armed_ok c -> armed_ok c'.
Proof.
  unfold timers, armed_ok, still_armed. rewrite !pair_equal_spec.
  intros [[[[[-> ->] ->] ->] ->] ->]. done.
Qed.

Lemma keeps_frame {A} (m : St CS A) :
  preserves (fun s => timers (fst s)) m -> keeps_armed m.
Proof. intros H s. apply armed_ok_timers, H. Qed.

Lemma keeps_ret {A} (a : A) : keeps_armed (sret a).
Proof. intros s H. exact H. Qed.

Lemma keeps_getc {A} (f : TcpConnection -> A) : keeps_armed (getc f).
Proof. intros s H. exact H. Qed.

Lemma keeps_now : keeps_armed now.
Proof. intros s. by rewrite exec_now. Qed.

Lemma keeps_bind {A B} (m : St CS A) (k : A -> St CS B) :
  keeps_armed m -> (forall a, keeps_armed (k a)) -> keeps_armed (sbind m k).
Proof. intros Hm Hk s Hs. rewrite exec_bind. apply Hk, Hm, Hs. Qed.

Lemma keeps_when b (m : St CS unit) : keeps_armed m -> keeps_armed (swhen b m).
Proof. destruct b; [done|]. intros _. apply keeps_ret. Qed.

Lemma keeps_on_ctx {A} (m : St Ctx A) : keeps_armed (on_ctx m).
Proof. intros s. by rewrite exec_on_ctx. Qed.

Lemma keeps_setc f : (forall c, armed_ok c -> armed_ok (f c)) -> keeps_armed (setc f).
Proof. intros H s. apply H. Qed.

(** A program that ends by arming. *)
Definition arms {A} (m : St CS A) : Prop := forall s, tick_in_list (fst (exec m s)) = true.

Lemma arms_arm : arms arm_for_tick.
Proof.
  intros [c x]. unfold exec, arm_for_tick, register_armed_slot. by destruct (tick_in_list c) eqn:E.
Qed.

Lemma arms_bind {A B} (m : St CS A) (k : A -> St CS B) :
  (forall a, arms (k a)) -> arms (sbind m k).
Proof. intros H s. rewrite exec_bind. apply H. Qed.

Lemma keeps_arms {A} (m : St CS A) : arms m -> keeps_armed m.
Proof. intros H s _ _. apply H. Qed.

Ltac arms :=
  repeat match goal with |- arms (sbind _ _) => apply arms_bind; intros ? end; apply arms_arm.

Create HintDb armed.
#[export] Hint Resolve keeps_ret keeps_getc keeps_now keeps_on_ctx : armed.

(** An assignment that clears deadlines or touches none. *)
Ltac armed_setc :=
  apply keeps_setc; intros ?; unfold armed_ok, still_armed; cbn;
  rewrite ?orb_true_iff; intuition discriminate.

Ltac keeps_armed :=
  repeat first
  [ solve [auto with armed nocore]
  | match goal with
    | |- keeps_armed (sbind _ _) => solve [apply keeps_arms; arms]
    | |- keeps_armed (sbind _ _) => apply keeps_bind; [|intros ?]
    | |- keeps_armed (swhen _ _) => apply keeps_when
    | |- keeps_armed (setc _) => armed_setc
    | |- keeps_armed (if ?b then _ else _) => destruct b
    | |- keeps_armed (match ?x with _ => _ end) => destruct x
    end ].

Lemma keeps_wake_recv : keeps_armed wake_recv.
Proof. intros [c x]. unfold exec, wake_recv. cbn [fst]. by destruct (recv_waker c). Qed.

Lemma keeps_wake_send : keeps_armed wake_send.
Proof. intros [c x]. unfold exec, wake_send. cbn [fst]. by destruct (send_waker c). Qed.

#[export] Hint Resolve keeps_wake_recv keeps_wake_send : armed.

Lemma keeps_arm_rtx : keeps_armed arm_rtx.
Proof. unfold arm_rtx. keeps_armed. Qed.

Lemma keeps_arm_fin now : keeps_armed (arm_fin_timer now).
Proof. unfold arm_fin_timer. keeps_armed. Qed.

Lemma keeps_arm_time_wait now : keeps_armed (arm_time_wait now).
Proof. unfold arm_time_wait. keeps_armed. Qed.

Lemma keeps_arm_persist now : keeps_armed (arm_persist now).
Proof. unfold arm_persist. keeps_armed. Qed.

Lemma keeps_for_each {A} (l : list A) f :
  (forall a, keeps_armed (f a)) -> keeps_armed (for_each l f).
Proof. intros Hf. induction l as [|a l IH]; cbn [for_each]; keeps_armed; auto. Qed.

Lemma keeps_emit_rtx i : keeps_armed (emit_rtx_entry i).
Proof. unfold emit_rtx_entry. keeps_armed. Qed.
#[export] Hint Resolve keeps_arm_rtx keeps_arm_fin keeps_arm_time_wait keeps_arm_persist
  keeps_emit_rtx : armed.

Lemma keeps_setc_timers f : (forall c, timers (f c) = timers c) -> keeps_armed (setc f).
Proof. intros H s. apply armed_ok_timers, H. Qed.

Lemma keeps_on_conn {A} (m : St TcpConnection A) : preserves timers m -> keeps_armed (on_conn m).
Proof. intros H s. rewrite exec_on_conn. apply armed_ok_timers, H. Qed.

Lemma sample_rtt_timers r c : timers (sample_rtt r c) = timers c.
Proof. unfold sample_rtt. by destruct (negb (rtt_seeded c)). Qed.

Lemma keeps_holes : keeps_armed sack_retransmit_holes.
Proof. unfold sack_retransmit_holes. keeps_armed. apply keeps_for_each. intros i. keeps_armed. Qed.
#[export] Hint Resolve keeps_holes : armed.

Lemma keeps_fast : keeps_armed fast_retransmit.
Proof. unfold fast_retransmit, retransmit_oldest_segment. keeps_armed. Qed.
#[export] Hint Resolve keeps_fast : armed.

Lemma keeps_dup : keeps_armed on_dup_ack.
Proof. unfold on_dup_ack. keeps_armed. Qed.

Lemma keeps_new_data : keeps_armed on_new_data_ack.
Proof. unfold on_new_data_ack. keeps_armed. Qed.

Lemma keeps_rack_resend base idxs : forall lost, keeps_armed (rack_resend base idxs lost).
Proof.
  induction idxs as [|i idxs IH]; intros [|l lost]; cbn [rack_resend]; keeps_armed; auto.
Qed.
#[export] Hint Resolve keeps_dup keeps_new_data keeps_rack_resend : armed.

Lemma keeps_rack now : keeps_armed (rack_detect now).
Proof. unfold rack_detect. keeps_armed. Qed.

Lemma keeps_sack blocks : keeps_armed (apply_sack blocks).
Proof. unfold apply_sack. keeps_armed. Qed.

Lemma keeps_rtx_ack k : keeps_armed (rtx_ack k).
Proof.
  intros [c x]. unfold exec, rtx_ack. cbn [fst snd].
  destruct (rtx_ack_loop _ _ _ _) as [? [? ?]]. exact id.
Qed.

Lemma keeps_cwnd_on_ack n : keeps_armed (cwnd_on_ack n).
Proof. unfold cwnd_on_ack. keeps_armed. Qed.
#[export] Hint Resolve keeps_rack keeps_sack keeps_rtx_ack keeps_cwnd_on_ack : armed.

Lemma keeps_rtx_on_ack una : keeps_armed (rtx_on_ack una).
Proof.
  unfold rtx_on_ack. keeps_armed. apply keeps_setc_timers. intros c. apply (sample_rtt_timers _ c).
Qed.

Lemma keeps_rtx_push buf seq n now : keeps_armed (rtx_push buf seq n now).
Proof. unfold rtx_push. keeps_armed. Qed.
#[export] Hint Resolve keeps_rtx_on_ack keeps_rtx_push : armed.

Lemma keeps_retain now chain : forall total seq, keeps_armed (rtx_retain chain total seq now).
Proof.
  induction chain as [|front chain IH]; intros; cbn [rtx_retain];
    unfold handle_rtx_push_oom; keeps_armed; auto.
Qed.
#[export] Hint Resolve keeps_retain : armed.

Lemma keeps_data_sent chain total : keeps_armed (rtx_on_data_sent chain total).
Proof. unfold rtx_on_data_sent. keeps_armed. Qed.

Lemma keeps_data_sent_slice bytes : keeps_armed (rtx_on_data_sent_slice bytes).
Proof. unfold rtx_on_data_sent_slice, handle_rtx_push_oom. keeps_armed. Qed.

Lemma keeps_congestion_init : keeps_armed congestion_init.
Proof. unfold congestion_init. keeps_armed. Qed.
#[export] Hint Resolve keeps_data_sent keeps_data_sent_slice keeps_congestion_init : armed.

Lemma keeps_rto now : keeps_armed (retransmit_oldest now).
Proof. unfold retransmit_oldest. keeps_armed. Qed.

Lemma keeps_tlp now : keeps_armed (send_tlp_probe now).
Proof. unfold send_tlp_probe. keeps_armed. Qed.

Lemma keeps_fin now : keeps_armed (retransmit_fin now).
Proof. unfold retransmit_fin. keeps_armed. Qed.

Lemma keeps_probe now : keeps_armed (send_window_probe now).
Proof. unfold send_window_probe. keeps_armed. Qed.

Lemma keeps_send_syn : keeps_armed send_syn.
Proof. unfold send_syn. keeps_armed. Qed.
#[export] Hint Resolve keeps_rto keeps_tlp keeps_fin keeps_probe keeps_send_syn : armed.

Lemma keeps_retransmit_syn now : keeps_armed (retransmit_syn now).
Proof. unfold retransmit_syn. keeps_armed. Qed.

Lemma keeps_window_update : keeps_armed maybe_send_window_update.
Proof. unfold maybe_send_window_update. keeps_armed. Qed.
#[export] Hint Resolve keeps_retransmit_syn keeps_window_update : armed.

Lemma keeps_rx_pop n : keeps_armed (rx_pop n).
Proof. unfold rx_pop. keeps_armed. Qed.

Lemma keeps_ensure_ring : keeps_armed ensure_rx_ring.
Proof. unfold ensure_rx_ring. keeps_armed. Qed.
#[export] Hint Resolve keeps_rx_pop keeps_ensure_ring : armed.

Lemma keeps_recv_chunk : keeps_armed recv_chunk.
Proof. unfold recv_chunk. keeps_armed. Qed.

Lemma keeps_send_chain chain : keeps_armed (send_chain chain).
Proof. unfold send_chain. keeps_armed. Qed.

Lemma keeps_send_tso n fill : keeps_armed (send_tso n fill).
Proof. unfold send_tso. keeps_armed. Qed.

Lemma keeps_emit_ack r : keeps_armed (emit_ack r).
Proof. unfold emit_ack. keeps_armed. Qed.

Lemma keeps_bare_ack r : keeps_armed (bare_ack r).
Proof. unfold bare_ack. keeps_armed. Qed.

Lemma keeps_syn_ack r : keeps_armed (syn_ack r).
Proof. unfold syn_ack. keeps_armed. Qed.
#[export] Hint Resolve keeps_recv_chunk keeps_send_chain keeps_send_tso keeps_emit_ack
  keeps_bare_ack keeps_syn_ack : armed.

Lemma keeps_refresh h : keeps_armed (setc (refresh_window h)).
Proof.
  apply keeps_setc_timers. intros c. unfold refresh_window. by destruct (_ || _)%bool.
Qed.

Lemma keeps_recovery r una dup : keeps_armed (ack_recovery r una dup).
Proof. unfold ack_recovery, wake_sender_if_open. keeps_armed. Qed.

Lemma keeps_rx_data r : keeps_armed (rx_data r).
Proof.
  unfold rx_data. keeps_armed; apply keeps_on_conn; intros c.
  - exact (f_equal snd (deliver_in_order_view r c)).
  - exact (f_equal snd (drain_ooo_view c)).
Qed.

Lemma keeps_time_wait r st : keeps_armed (rx_time_wait r st).
Proof. unfold rx_time_wait. keeps_armed. Qed.

Lemma keeps_liveness : keeps_armed rx_liveness.
Proof. unfold rx_liveness. keeps_armed. Qed.

Lemma keeps_rx_fin r : keeps_armed (rx_fin r).
Proof. unfold rx_fin. keeps_armed. Qed.
#[export] Hint Resolve keeps_refresh keeps_recovery keeps_rx_data keeps_time_wait keeps_liveness
  keeps_rx_fin : armed.

Lemma keeps_stages r st : keeps_armed (rx_data r;; rx_fin r;; rx_time_wait r st;; rx_liveness).
Proof. keeps_armed. Qed.

Lemma keeps_handle_syn_sent r : keeps_armed (handle_syn_sent r).
Proof.
  unfold handle_syn_sent. keeps_armed. apply keeps_setc_timers. intros c.
  apply (sample_rtt_timers _ c).
Qed.

Lemma keeps_send_fin st : keeps_armed (send_fin st).
Proof. unfold send_fin. keeps_armed. Qed.
