(* ===== verification/PoolInv.v ===== *)
(** * The pool's invariant

    [pool_ok p fl tl]: the slots of the free list are [fl], those of the
    armed-timer list [tl]; both lists are finite, acyclic and in range, no slot is
    free and armed, every free slot is [Closed], and every entry of the
    connection hash is a live connection with that key.  [armed_all] says the
    armed-timer list is complete.  Allocation, release, the hash updates and
    every slot method preserve them. *)

From S2P Require Import Prelude.
From S2P Require Import NetTypes.
From S2P Require Import TcpTypes.
From S2P Require Import RxRing.
From S2P Require Import HashTable.
From S2P Require Import Pool.
From S2P Require Import Lifecycle.
From S2P Require Import SlotMethods.

#[local] Open Scope st_scope.

(* ------------------------------------------------------------------ *)
(** ** Lists threaded through the slots *)

(** The chain of [nxt] links from [h] visits exactly [l]. *)
Fixpoint linked (nxt : TcpConnection -> Z) (cs : list TcpConnection) (h : Z) (l : list nat) : Prop :=
  match l with
  | [] => h = NULL_SLOT
  | s :: l => h = Z.of_nat s /\ exists c, cs !! s = Some c /\ linked nxt cs (nxt c) l
  end.

Section Linked.
Context (nxt : TcpConnection -> Z).
Implicit Types (cs : list TcpConnection) (l : list nat).

Lemma linked_elem cs h l s : linked nxt cs h l -> s ∈ l -> exists c, cs !! s = Some c.
Proof.
  revert h. induction l as [|t l IH]; intros h Hl Hs; [by apply not_elem_of_nil in Hs|].
  destruct Hl as (_ & c & Hc & Hl). apply elem_of_cons in Hs as [->|Hs]; [eauto|by eapply IH].
Qed.

(** A chain only depends on the links of its own slots. *)
Lemma linked_frame cs cs' h l :
  (forall s c, s ∈ l -> cs !! s = Some c -> exists c', cs' !! s = Some c' /\ nxt c' = nxt c) ->
  linked nxt cs h l -> linked nxt cs' h l.
Proof.
  revert h. induction l as [|t l IH]; intros h Hf Hl; [done|].
  destruct Hl as (-> & c & Hc & Hl). split; [done|].
  destruct (Hf t c) as (c' & Hc' & E); [left|done|]. exists c'. split; [done|]. rewrite E.
  apply IH; [|done]. intros s d Hs. apply Hf. by right.
Qed.

Lemma linked_update cs h l s c' :
  (forall c, s ∈ l -> cs !! s = Some c -> nxt c' = nxt c) ->
  linked nxt cs h l -> linked nxt (<[s := c']> cs) h l.
Proof.
  intros Hs. apply linked_frame. intros t c Ht Hc. destruct (decide (t = s)) as [->|Hne].
  - exists c'. split; [|by apply Hs]. apply list_lookup_insert_eq. by eapply lookup_lt_Some.
  - exists c. by rewrite list_lookup_insert_ne.
Qed.

Lemma linked_grow cs cs2 h l : linked nxt cs h l -> linked nxt (cs ++ cs2) h l.
Proof.
  apply linked_frame. intros s c _ Hc. exists c. split; [|done]. by apply lookup_app_l_Some.
Qed.

(** Unlinking the slot after the head. *)
Lemma linked_skip cs h l s c prev d :
  linked nxt cs h (prev :: s :: l) -> cs !! s = Some c -> cs !! prev = Some d ->
  prev <> s -> prev ∉ l -> forall d', nxt d' = nxt c ->
  linked nxt (<[prev := d']> cs) h (prev :: l).
Proof.
  intros (-> & d0 & Hd0 & Hs) Hc Hd Hne Hnotin d' E. split; [done|]. exists d'.
  split; [apply list_lookup_insert_eq; by eapply lookup_lt_Some|].
  destruct Hs as (_ & c0 & Hc0 & Hl). rewrite E. replace c0 with c in Hl by congruence.
  apply linked_update; [|done]. intros ? Hin. done.
Qed.

(** The list ends where the last link is null; appending there. *)
Lemma linked_app cs h l s c c' h2 l2 :
  linked nxt cs h (l ++ [s]) -> cs !! s = Some c -> nxt c' = h2 ->
  NoDup (l ++ [s]) -> (forall t, t ∈ l ++ [s] -> t ∉ l2) -> linked nxt cs h2 l2 ->
  linked nxt (<[s := c']> cs) h (l ++ s :: l2).
Proof.
  revert h. induction l as [|t l IH]; intros h Hl Hc E Hnd Hdisj Hl2; simpl in *.
  - destruct Hl as (-> & _). split; [done|]. exists c'.
    split; [apply list_lookup_insert_eq; by eapply lookup_lt_Some|]. rewrite E.
    apply linked_update; [|done]. intros ? Hin. destruct (Hdisj s); [by left|done].
  - destruct Hl as (-> & d & Hd & Hl). split; [done|]. apply NoDup_cons in Hnd as [Hn Hnd].
    exists d. split.
    + rewrite list_lookup_insert_ne; [done|]. intros ->. apply Hn. apply elem_of_app. right. by left.
    + apply IH; try done. intros u Hu. apply Hdisj. by right.
Qed.

End Linked.

Lemma NoDup_bound (l : list nat) n : NoDup l -> (forall s, s ∈ l -> (s < n)%nat) -> (length l <= n)%nat.
Proof.
  intros Hnd Hb. replace n with (length (seq 0 n)) by apply length_seq. apply submseteq_length, NoDup_submseteq; [done|].
  intros s Hs. apply elem_of_seq. specialize (Hb s Hs). lia.
Qed.

(* ------------------------------------------------------------------ *)
(** ** Invariant *)

(** Every hash entry is a live connection with that key. *)
Definition hash_sound (cs : list TcpConnection) (m : gmap Z Z) : Prop :=
  forall k v, m !! k = Some v ->
    exists s c, v = Z.of_nat s /\ cs !! s = Some c /\ is_live c = true /\ conn_key c = k.

Record pool_ok (p : Core) (fl tl : list nat) : Prop := {
  po_size : exists n, zlen (conns p) = SEGMENT_SIZE * n /\ 0 <= n <= MAX_SEGMENTS;
  po_index : forall s c, conns p !! s = Some c -> slot_index c = Z.of_nat s;
  po_free : linked next_free (conns p) (free_head p) fl;
  po_free_nodup : NoDup fl;
  po_idle : forall s c, s ∈ fl -> conns p !! s = Some c -> state c = Closed /\ tick_in_list c = false;
  po_used : forall s c, s ∉ fl -> conns p !! s = Some c -> next_free c = NULL_SLOT;
  po_tick : linked tick_next (conns p) (tick_head (ctx p)) tl;
  po_tick_nodup : NoDup tl;
  po_armed : forall s c, s ∈ tl -> conns p !! s = Some c -> tick_in_list c = true;
  po_hash : exists m, repr (hash p) m /\ hash_sound (conns p) m
}.

(** Every slot flagged as listed is on the list, and so is every deadline. *)
Definition armed_all (p : Core) (tl : list nat) : Prop :=
  forall s c, conns p !! s = Some c -> armed_ok c /\ (tick_in_list c = true -> s ∈ tl).

(** The invariant with free list [fl]; [full] adds completeness. *)
Definition pok (full : bool) (fl : list nat) (p : Core) : Prop :=
  exists tl, pool_ok p fl tl /\ (full = true -> armed_all p tl).

(** The map a table stores is the only one. *)
Lemma conn_at_lookup p s c : conns p !! s = Some c -> conn_at (Z.of_nat s) p = c.
Proof. intros H. unfold conn_at. by rewrite Nat2Z.id, H. Qed.

Lemma put_conn_nat p s c : put_conn (Z.of_nat s) c p = set_conns (<[s := c]> (conns p)) p.
Proof. unfold put_conn. by rewrite Nat2Z.id. Qed.

Lemma slots_bound p fl tl s c :
  pool_ok p fl tl -> conns p !! s = Some c -> Z.of_nat s < SEGMENT_SIZE * MAX_SEGMENTS.
Proof.
  intros Hp Hc. apply lookup_lt_Some in Hc. destruct (po_size _ _ _ Hp) as (n & H & ?).
  unfold zlen, SEGMENT_SIZE in *. lia.
Qed.

Lemma null_not_slot p fl tl s c : pool_ok p fl tl -> conns p !! s = Some c -> Z.of_nat s <> NULL_SLOT.
Proof.
  intros Hp Hc. pose proof (slots_bound _ _ _ _ _ Hp Hc).
  unfold SEGMENT_SIZE in *. lia.
Qed.

Lemma conn_key_nonzero c : conn_key c <> 0.
Proof.
  unfold conn_key, tcp_hash_key. intros H. apply Z.lor_eq_0_iff in H as [H _].
  apply Z.lor_eq_0_iff in H as [_ H]. discriminate.
Qed.

(** A head determines its chain. *)
Lemma chain_unique nxt p fl tl h l1 l2 :
  pool_ok p fl tl -> linked nxt (conns p) h l1 -> linked nxt (conns p) h l2 -> l1 = l2.
Proof.
  intros Hp. revert h l2. induction l1 as [|s l1 IH]; intros h [|t l2] H1 H2; try done.
  - destruct H2 as (-> & c & Hc & _). by destruct (null_not_slot _ _ _ _ _ Hp Hc).
  - destruct H1 as (-> & c & Hc & _). by destruct (null_not_slot _ _ _ _ _ Hp Hc).
  - destruct H1 as (-> & c & Hc & H1), H2 as (E & d & Hd & H2). apply Nat2Z.inj in E as <-.
    replace d with c in H2 by congruence. f_equal. by eapply IH.
Qed.

(** Distinct keys designate distinct slots, so the table never fills. *)
Lemma hash_sound_size p fl tl m :
  pool_ok p fl tl -> repr (hash p) m -> hash_sound (conns p) m ->
  Z.of_nat (size m) < TCP_HASH_SIZE.
Proof.
  intros Hp Hr Hs. destruct (po_size _ _ _ Hp) as (n & Hlen & Hn).
  assert (size m <= length (conns p))%nat;
    [|unfold zlen, SEGMENT_SIZE, TCP_HASH_SIZE in *; lia].
  replace (size m) with (length (snd <$> map_to_list m)) by by rewrite length_fmap, length_map_to_list.
  replace (length (conns p)) with (length (Z.of_nat <$> seq 0 (length (conns p))))
    by by rewrite length_fmap, length_seq.
  apply submseteq_length, NoDup_submseteq.
  - apply NoDup_fmap_2_strong; [|apply NoDup_map_to_list].
    intros [k1 v1] [k2 v2] H1 H2 E. simpl in E. subst v2.
    apply elem_of_map_to_list in H1, H2. destruct (Hs _ _ H1) as (s1 & c1 & -> & L1 & _ & <-).
    destruct (Hs _ _ H2) as (s2 & c2 & E & L2 & _ & <-). apply Nat2Z.inj in E. congruence.
  - intros v Hv. apply list_elem_of_fmap in Hv as ([k v'] & -> & Hv).
    apply elem_of_map_to_list in Hv. destruct (Hs _ _ Hv) as (s & c & -> & L & _).
    apply list_elem_of_fmap. exists s. split; [done|]. apply elem_of_seq. apply lookup_lt_Some in L. lia.
Qed.

Lemma hash_sound_update cs m s c c' :
  cs !! s = Some c -> (is_live c = true -> is_live c' = true /\ conn_key c' = conn_key c) ->
  hash_sound cs m -> hash_sound (<[s := c']> cs) m.
Proof.
  intros Hc Hl Hs k v Hk. destruct (Hs k v Hk) as (t & d & -> & Hd & Hlive & <-).
  destruct (decide (t = s)) as [->|Hne].
  - replace d with c in * by congruence. destruct (Hl Hlive) as [L K].
    exists s, c'. rewrite list_lookup_insert_eq; [done|]. by eapply lookup_lt_Some.
  - exists t, d. by rewrite list_lookup_insert_ne.
Qed.

Lemma lookup_update_Some {A} (cs : list A) s t c d :
  <[s := c]> cs !! t = Some d -> (t = s /\ d = c) \/ (t <> s /\ cs !! t = Some d).
Proof.
  destruct (decide (t = s)) as [->|Hne].
  - intros H. apply list_lookup_insert_Some in H as [(_ & -> & _)|[? _]]; [by left|done].
  - rewrite list_lookup_insert_ne by done. by right.
Qed.

Lemma slot_id_key c c' : slot_id c' = slot_id c -> conn_key c' = conn_key c.
Proof. unfold slot_id, conn_key. by intros [= _ _ _ -> -> ->]. Qed.

(** A slot method on a slot in use. *)
Lemma pool_ok_put p fl tl s c c' x' :
  pool_ok p fl tl -> conns p !! s = Some c -> s ∉ fl -> slot_rel (c, ctx p) (c', x') ->
  exists tl', pool_ok (set_ctx x' (put_conn (Z.of_nat s) c' p)) fl tl' /\
    (armed_all p tl -> armed_ok c' -> armed_all (set_ctx x' (put_conn (Z.of_nat s) c' p)) tl').
Proof.
  intros Hp Hc Hfl [Hid Hst Ht]. unfold tick_rel in Ht. cbn [fst snd] in *. rewrite put_conn_nat.
  assert (next_free c' = next_free c /\ slot_index c' = slot_index c) as [Enf Eix]
    by (unfold slot_id in Hid; split; congruence).
  set (cs := <[s := c']> (conns p)).
  assert (forall h tl1, linked tick_next cs h tl1 -> h = tick_head x' -> NoDup tl1 ->
    (forall t d, t ∈ tl1 -> cs !! t = Some d -> tick_in_list d = true) ->
    pool_ok (set_ctx x' (set_conns cs p)) fl tl1) as Hrest.
  { intros h tl1 Hl -> Hnd Harm. split; cbn; try done.
    - destruct (po_size _ _ _ Hp) as (n & E & ?). exists n. split; [|done].
      unfold zlen, cs in *. by rewrite length_insert.
    - intros t d Hd. apply lookup_update_Some in Hd as [[-> ->]|[_ Hd]];
        [|by apply (po_index _ _ _ Hp)]. rewrite Eix. by apply (po_index _ _ _ Hp).
    - apply linked_update; [|apply Hp]. intros ? Hin. done.
    - apply (po_free_nodup _ _ _ Hp).
    - intros t d Ht' Hd. apply lookup_update_Some in Hd as [[-> ->]|[_ Hd]]; [done|].
      by apply (po_idle _ _ _ Hp t).
    - intros t d Ht' Hd. apply lookup_update_Some in Hd as [[-> ->]|[_ Hd]];
        [|by apply (po_used _ _ _ Hp t)]. rewrite Enf. by apply (po_used _ _ _ Hp s).
    - destruct (po_hash _ _ _ Hp) as (m & Hr & Hm). exists m. split; [done|].
      apply (hash_sound_update _ _ _ c); [done| |done]. intros Hlive.
      split; [|by apply slot_id_key]. destruct Hst as [E|[_ ?]]; [|done].
      by rewrite (is_live_state _ _ E). }
  destruct Ht as [(En & El & Eh)|(El & El' & En & Eh)].
  - exists tl. split.
    + apply (Hrest (tick_head x')); [|done|apply Hp|].
      * rewrite Eh. apply linked_update; [|apply Hp]. intros d _ Hd. by simplify_eq.
      * intros t d Ht Hd. apply lookup_update_Some in Hd as [[-> ->]|[_ Hd]];
          [|by apply (po_armed _ _ _ Hp t)]. rewrite El. by apply (po_armed _ _ _ Hp s).
    + intros Hall Hok t d Hd. apply lookup_update_Some in Hd as [[-> ->]|[_ Hd]]; [|by apply Hall].
      split; [done|]. rewrite El. by apply Hall.
  - assert (s ∉ tl) as Hnot by (intros Hin; pose proof (po_armed _ _ _ Hp s c Hin Hc); congruence).
    exists (s :: tl). split.
    + apply (Hrest (tick_head x')); [|done| |].
      * rewrite Eh, (po_index _ _ _ Hp s c Hc). split; [done|]. exists c'.
        split; [apply list_lookup_insert_eq; by eapply lookup_lt_Some|]. rewrite En.
        apply linked_update; [done|apply Hp].
      * apply NoDup_cons. split; [done|apply Hp].
      * intros t d Ht Hd. apply lookup_update_Some in Hd as [[-> ->]|[Hne Hd]]; [done|].
        apply elem_of_cons in Ht as [->|Ht]; [done|]. by apply (po_armed _ _ _ Hp t).
    + intros Hall Hok t d Hd. apply lookup_update_Some in Hd as [[-> ->]|[_ Hd]].
      * split; [done|]. intros _. by left.
      * destruct (Hall t d Hd) as [? Ht]. split; [done|]. intros ?. right. by apply Ht.
Qed.

Lemma exec_on_slot {A} s (m : St CS A) p c :
  conns p !! s = Some c ->
  exec (on_slot (Z.of_nat s) m) p =
    set_ctx (snd (exec m (c, ctx p))) (put_conn (Z.of_nat s) (fst (exec m (c, ctx p))) p) /\
  eval (on_slot (Z.of_nat s) m) p = eval m (c, ctx p).
Proof.
  intros Hc. unfold exec, eval, on_slot. rewrite (conn_at_lookup _ _ _ Hc).
  by destruct (m (c, ctx p)) as [a [c' x']].
Qed.

(** The slot after a method. *)
Lemma on_slot_lookup {A} s (m : St CS A) p c :
  conns p !! s = Some c -> conns (exec (on_slot (Z.of_nat s) m) p) !! s = Some (fst (exec m (c, ctx p))).
Proof.
  intros Hc. rewrite (proj1 (exec_on_slot s m p c Hc)), put_conn_nat. cbn.
  apply list_lookup_insert_eq. by eapply lookup_lt_Some.
Qed.

Lemma pok_on_slot {A} full fl s (m : St CS A) p c :
  pok full fl p -> conns p !! s = Some c -> s ∉ fl ->
  slot_rel (c, ctx p) (exec m (c, ctx p)) -> keeps_armed m ->
  pok full fl (exec (on_slot (Z.of_nat s) m) p).
Proof.
  intros (tl & Hp & Hall) Hc Hfl Hrel Hk. rewrite (proj1 (exec_on_slot s m p c Hc)).
  pose proof (Hk (c, ctx p)) as Hk'. destruct (exec m (c, ctx p)) as [c' x'].
  destruct (pool_ok_put p fl tl s c c' x' Hp Hc Hfl Hrel) as (tl' & Hp' & Hall').
  exists tl'. split; [done|]. intros Hf. specialize (Hall Hf).
  apply Hall'; [done|]. apply Hk'. by destruct (Hall s c Hc).
Qed.

(** Environment code that leaves the list head. *)
Lemma pok_on_env {A} full fl (m : St Ctx A) p :
  preserves tick_head m -> pok full fl p -> pok full fl (exec (on_env m) p).
Proof.
  intros Hm (tl & Hp & Hall). exists tl.
  assert (exec (on_env m) p = set_ctx (exec m (ctx p)) p) as ->
    by (unfold exec, on_env; by destruct (m (ctx p))).
  split; [|done]. destruct Hp. split; cbn; try done. by rewrite Hm.
Qed.

(* ------------------------------------------------------------------ *)
(** ** Slots no hash entry names *)

Lemma repr_unique h m1 m2 : repr h m1 -> repr h m2 -> m1 = m2.
Proof.
  intros [_ H1] [_ H2]. apply map_eq. intros k. apply option_eq. intros v. by rewrite (H1 k v), (H2 k v).
Qed.

Definition unhashed (p : Core) (s : nat) : Prop :=
  forall m, repr (hash p) m -> forall k v, m !! k = Some v -> v <> Z.of_nat s.

Lemma dead_unhashed p fl tl s c :
  pool_ok p fl tl -> conns p !! s = Some c -> is_live c = false -> unhashed p s.
Proof.
  intros Hp Hc Hl m Hr k v Hk ->. destruct (po_hash _ _ _ Hp) as (m' & Hr' & Hs).
  rewrite (repr_unique _ _ _ Hr Hr') in Hk. destruct (Hs _ _ Hk) as (t & d & E & Hd & Hl' & _).
  apply Nat2Z.inj in E as <-. congruence.
Qed.

(** Replacing the connection of a slot no hash entry names. *)
Lemma pool_ok_replace p fl tl s c c' :
  pool_ok p fl tl -> conns p !! s = Some c -> s ∉ fl -> unhashed p s ->
  slot_index c' = slot_index c -> next_free c' = NULL_SLOT ->
  (s ∈ tl -> tick_next c' = tick_next c /\ tick_in_list c' = tick_in_list c) ->
  pool_ok (put_conn (Z.of_nat s) c' p) fl tl.
Proof.
  intros Hp Hc Hfl Hu Eix Enf Et. rewrite put_conn_nat. split; cbn.
  - destruct (po_size _ _ _ Hp) as (n & E & ?). exists n. split; [|done].
    unfold zlen in *. by rewrite length_insert.
  - intros t d Hd. apply lookup_update_Some in Hd as [[-> ->]|[_ Hd]];
      [|by apply (po_index _ _ _ Hp)]. rewrite Eix. by apply (po_index _ _ _ Hp).
  - apply linked_update; [done|apply Hp].
  - apply Hp.
  - intros t d Ht Hd. apply lookup_update_Some in Hd as [[-> ->]|[_ Hd]]; [done|].
    by apply (po_idle _ _ _ Hp t).
  - intros t d Ht Hd. apply lookup_update_Some in Hd as [[-> ->]|[_ Hd]]; [done|].
    by apply (po_used _ _ _ Hp t).
  - apply linked_update; [|apply Hp]. intros d Hin Hd. simplify_eq. by apply Et.
  - apply Hp.
  - intros t d Ht Hd. apply lookup_update_Some in Hd as [[-> ->]|[_ Hd]];
      [|by apply (po_armed _ _ _ Hp t)]. rewrite (proj2 (Et Ht)). by apply (po_armed _ _ _ Hp s).
  - destruct (po_hash _ _ _ Hp) as (m & Hr & Hm). exists m. split; [done|]. intros k v Hk.
    destruct (Hm k v Hk) as (t & d & -> & Hd & Hl & Hkey). exists t, d. repeat split; try done.
    rewrite list_lookup_insert_ne; [done|]. intros ->. by destruct (Hu m Hr k _ Hk).
Qed.

(** Removing the key of a connection leaves its slot unnamed. *)
Lemma pool_ok_unhash p fl tl s c :
  pool_ok p fl tl -> conns p !! s = Some c ->
  pool_ok (set_hash (tcp_hash_remove (conn_key c) (hash p)) p) fl tl /\
  unhashed (set_hash (tcp_hash_remove (conn_key c) (hash p)) p) s.
Proof.
  intros Hp Hc. destruct (po_hash _ _ _ Hp) as (m & Hr & Hm).
  assert (repr (tcp_hash_remove (conn_key c) (hash p)) (delete (conn_key c) m)) as Hr'.
  { apply remove_spec; [done|apply conn_key_nonzero|].
    apply (room_of_size _ m); [done|]. by eapply hash_sound_size. }
  split.
  - destruct Hp. split; cbn; try done. exists (delete (conn_key c) m). split; [done|].
    intros k v Hk. apply lookup_delete_Some in Hk as [_ Hk]. by apply Hm.
  - intros m' Hm' k v Hk ->. cbn in Hm'. rewrite (repr_unique _ _ _ Hm' Hr') in Hk.
    apply lookup_delete_Some in Hk as [Hne Hk].
    destruct (Hm _ _ Hk) as (t & d & E & Hd & _ & <-). apply Nat2Z.inj in E as <-. congruence.
Qed.

(** Publishing a live connection under its key. *)
Lemma pool_ok_hash p fl tl s c :
  pool_ok p fl tl -> conns p !! s = Some c -> is_live c = true ->
  pool_ok (set_hash (tcp_hash_insert (conn_key c) (Z.of_nat s) (hash p)) p) fl tl.
Proof.
  intros Hp Hc Hl. destruct (po_hash _ _ _ Hp) as (m & Hr & Hm).
  pose proof (room_of_size _ _ Hr (hash_sound_size _ _ _ _ Hp Hr Hm)) as Hroom.
  pose proof (slots_bound _ _ _ _ _ Hp Hc) as Hb.
  destruct Hp. split; cbn; try done.
  destruct (insert_spec (hash p) m (conn_key c) (Z.of_nat s) Hr (conn_key_nonzero c))
    as [Hr'|(_ & Hno & _)]; [|done].
  rewrite w16_small in Hr' by (unfold SEGMENT_SIZE in *; int_lia).
  eexists. split; [exact Hr'|]. intros k v Hk.
  apply lookup_insert_Some in Hk as [[<- <-]|[_ Hk]]; [by exists s, c|by apply Hm].
Qed.

(* ------------------------------------------------------------------ *)
(** ** Unlinking from the armed-timer list *)

Lemma linked_remove cs h l1 q s l2 c d d' :
  linked tick_next cs h (l1 ++ q :: s :: l2) -> NoDup (l1 ++ q :: s :: l2) ->
  cs !! s = Some c -> cs !! q = Some d -> tick_next d' = tick_next c ->
  linked tick_next (<[q := d']> cs) h (l1 ++ q :: l2).
Proof.
  revert h. induction l1 as [|t l1 IH]; intros h Hl Hnd Hc Hd E; simpl in *.
  - apply NoDup_cons in Hnd as [Hq _]. apply not_elem_of_cons in Hq as [? ?].
    by apply (linked_skip tick_next cs h l2 s c q d).
  - destruct Hl as (-> & e & He & Hl). apply NoDup_cons in Hnd as [Ht Hnd]. split; [done|].
    exists e. split; [|by apply IH].
    rewrite list_lookup_insert_ne; [done|]. intros ->. apply Ht, elem_of_app. right. by left.
Qed.

Lemma unlink_after_spec fuel p s c : forall prev l,
  linked tick_next (conns p) (Z.of_nat prev) (prev :: l) -> prev <> s ->
  (forall t d, conns p !! t = Some d -> Z.of_nat t <> NULL_SLOT) -> conns p !! s = Some c ->
  (length l < fuel)%nat ->
  ((s ∉ prev :: l) /\ unlink_after fuel (Z.of_nat prev) (Z.of_nat s) (tick_next c) p = p) \/
  (exists l1 q d l2, prev :: l = l1 ++ q :: s :: l2 /\ conns p !! q = Some d /\
    unlink_after fuel (Z.of_nat prev) (Z.of_nat s) (tick_next c) p =
      put_conn (Z.of_nat q) (set_tick_next (tick_next c) d) p).
Proof.
  induction fuel as [|fuel IH]; intros prev l Hl Hne Hnull Hc Hlen; [lia|].
  destruct Hl as (_ & d & Hd & Hl). cbn [unlink_after]. rewrite (conn_at_lookup _ _ _ Hd).
  destruct l as [|t l].
  - simpl in Hl. left. split; [apply not_elem_of_cons; split; [congruence|apply not_elem_of_nil]|]. rewrite Hl.
    destruct (NULL_SLOT =? Z.of_nat s) eqn:E; bool_to_prop; [by destruct (Hnull s c Hc)|].
    by rewrite Z.eqb_refl.
  - pose proof Hl as (Et & e & He & _). rewrite Et.
    destruct (Z.of_nat t =? Z.of_nat s) eqn:E; bool_to_prop.
    + right. apply Nat2Z.inj in E as ->. by exists [], prev, d, l.
    + destruct (Z.of_nat t =? NULL_SLOT) eqn:E2; bool_to_prop; [by destruct (Hnull t e He)|].
      rewrite Et in Hl. cbn [length] in Hlen.
      destruct (IH t l Hl ltac:(congruence) Hnull Hc ltac:(lia))
        as [[Hnot Hp]|(l1 & q & f & l2 & -> & Hq & Hp)].
      * left. split; [|exact Hp]. apply not_elem_of_cons. split; [congruence|done].
      * right. by exists (prev :: l1), q, f, l2.
Qed.

(** The slots agree up to their armed-timer links. *)
Definition relinked (p p' : Core) : Prop :=
  length (conns p') = length (conns p) /\
  forall t d, conns p !! t = Some d -> exists n, conns p' !! t = Some (set_tick_next n d).

Lemma set_tick_next_id c : set_tick_next (tick_next c) c = c.
Proof. by destruct c. Qed.

Lemma relinked_refl p : relinked p p.
Proof. split; [done|]. intros t d Hd. exists (tick_next d). by rewrite set_tick_next_id. Qed.

(** The slot is off the list and nothing else changed. *)
Record unlinked (p p' : Core) (s : nat) (c : TcpConnection) (fl tl tl' : list nat) : Prop := {
  ul_ok : pool_ok p' fl tl';
  ul_out : s ∉ tl';
  ul_rest : forall t, t <> s -> t ∈ tl -> t ∈ tl';
  ul_hash : hash p' = hash p;
  ul_conns : relinked p p';
  ul_self : conns p' !! s = Some c
}.

Lemma unlinked_same p s c fl tl :
  pool_ok p fl tl -> conns p !! s = Some c -> s ∉ tl -> unlinked p p s c fl tl tl.
Proof. intros Hp Hc Hs. split; try done. apply relinked_refl. Qed.

Lemma unlinked_head p s c fl l :
  pool_ok p fl (s :: l) -> conns p !! s = Some c ->
  unlinked p (put_tick_head (tick_next c) p) s c fl (s :: l) l.
Proof.
  intros Hp Hc. pose proof (po_tick_nodup _ _ _ Hp) as Hnd. apply NoDup_cons in Hnd as [Hn Hnd].
  pose proof (po_tick _ _ _ Hp) as (_ & c' & Hc' & Hl). replace c' with c in * by congruence.
  split; try done.
  - pose proof (po_armed _ _ _ Hp) as Ha. destruct Hp. split; cbn; try done.
    intros t d Ht. apply Ha. by right.
  - intros t Ht Hin. by apply elem_of_cons in Hin as [?|?].
  - apply (relinked_refl p).
Qed.

Lemma unlinked_middle p s c fl l1 q d l2 :
  pool_ok p fl (l1 ++ q :: s :: l2) -> conns p !! s = Some c -> conns p !! q = Some d ->
  unlinked p (put_conn (Z.of_nat q) (set_tick_next (tick_next c) d) p) s c fl
    (l1 ++ q :: s :: l2) (l1 ++ q :: l2).
Proof.
  intros Hp Hc Hd. pose proof (po_tick_nodup _ _ _ Hp) as Hnd.
  assert (NoDup (s :: l1 ++ q :: l2)) as Hnd'.
  { change (l1 ++ q :: s :: l2) with (l1 ++ [q] ++ s :: l2) in Hnd.
    rewrite (assoc_L (++)), <-Permutation_middle, <-(assoc_L (++)) in Hnd. exact Hnd. }
  apply NoDup_cons in Hnd' as [Hout Hnd'].
  assert (q <> s) as Hqs by (intros ->; apply Hout, elem_of_app; right; by left).
  rewrite put_conn_nat. split; try done.
  - destruct Hp. split; cbn; try done.
    + destruct po_size0 as (n & E & ?). exists n. split; [|done].
      unfold zlen in *. by rewrite length_insert.
    + intros t e He. apply lookup_update_Some in He as [[-> ->]|[_ He]]; [|by apply po_index0].
      exact (po_index0 q d Hd).
    + apply linked_update; [|done]. intros e _ He. by simplify_eq.
    + intros t e Ht He. apply lookup_update_Some in He as [[-> ->]|[_ He]]; [|by apply (po_idle0 t)].
      exact (po_idle0 q d Ht Hd).
    + intros t e Ht He. apply lookup_update_Some in He as [[-> ->]|[_ He]]; [|by apply (po_used0 t)].
      exact (po_used0 q d Ht Hd).
    + by apply (linked_remove _ _ _ _ s _ c d).
    + intros t e Ht He. apply lookup_update_Some in He as [[-> ->]|[_ He]].
      * apply (po_armed0 q d); [|done]. apply elem_of_app. right. by left.
      * apply (po_armed0 t e); [|done].
        apply elem_of_app in Ht as [Ht|Ht]; apply elem_of_app; [by left|right].
        apply elem_of_cons in Ht as [->|Ht]; [by left|]. right. by right.
    + destruct po_hash0 as (m & ? & ?). exists m. split; [done|].
      by apply (hash_sound_update _ _ _ d).
  - intros t Ht. rewrite !elem_of_app, !elem_of_cons. intuition.
  - split; [apply length_insert|]. intros t e He. cbn. destruct (decide (t = q)) as [->|Hne].
    + simplify_eq. exists (tick_next c). apply list_lookup_insert_eq. by eapply lookup_lt_Some.
    + exists (tick_next e). by rewrite set_tick_next_id, list_lookup_insert_ne.
  - cbn. by rewrite list_lookup_insert_ne.
Qed.

(** [tick_unlink] takes the slot off the list. *)
Lemma tick_unlink_spec p fl tl s c :
  pool_ok p fl tl -> conns p !! s = Some c ->
  exists tl', unlinked p (tick_unlink (Z.of_nat s) p) s c fl tl tl'.
Proof.
  intros Hp Hc.
  assert (forall t d, conns p !! t = Some d -> Z.of_nat t <> NULL_SLOT) as Hnull
    by (intros t d; by eapply null_not_slot).
  unfold tick_unlink. rewrite (conn_at_lookup _ _ _ Hc). destruct (tick_in_list c) eqn:El.
  2:{ exists tl. apply unlinked_same; [done|done|]. intros Hin.
      pose proof (po_armed _ _ _ Hp s c Hin Hc). congruence. }
  pose proof (po_tick _ _ _ Hp) as Hl. pose proof (po_tick_nodup _ _ _ Hp) as Hnd.
  destruct tl as [|h l].
  { simpl in Hl. rewrite Hl. destruct (NULL_SLOT =? Z.of_nat s) eqn:E; bool_to_prop;
      [by destruct (Hnull s c Hc)|]. rewrite Z.eqb_refl.
    exists []. apply unlinked_same; [done|done|apply not_elem_of_nil]. }
  pose proof Hl as (Eh & e & He & _). rewrite Eh in *.
  destruct (Z.of_nat h =? Z.of_nat s) eqn:E; bool_to_prop.
  { apply Nat2Z.inj in E as ->. exists l. by apply unlinked_head. }
  destruct (Z.of_nat h =? NULL_SLOT) eqn:E2; bool_to_prop; [by destruct (Hnull h e He)|].
  assert (length (h :: l) <= length (conns p))%nat as Hlen.
  { apply NoDup_bound; [done|].
    intros t Ht. destruct (linked_elem _ _ _ _ t Hl Ht) as [d Hd]. by eapply lookup_lt_Some. }
  destruct (unlink_after_spec _ p s c h l Hl ltac:(congruence) Hnull Hc Hlen)
    as [[Hnot ->]|(l1 & q & d & l2 & Eq & Hq & ->)].
  - exists (h :: l). by apply unlinked_same.
  - exists (l1 ++ q :: l2). rewrite Eq in *. by apply unlinked_middle.
Qed.

(** Inside the tick's walk the list is detached and there is nothing to splice. *)
Lemma tick_unlink_detached p fl tl s c :
  pool_ok p fl tl -> conns p !! s = Some c -> tick_head (ctx p) = NULL_SLOT ->
  tick_unlink (Z.of_nat s) p = p.
Proof.
  intros Hp Hc E. unfold tick_unlink. rewrite E. destruct (tick_in_list _); [|done].
  destruct (NULL_SLOT =? Z.of_nat s) eqn:En; bool_to_prop; [|done].
  by destruct (null_not_slot _ _ _ _ _ Hp Hc).
Qed.

(* ------------------------------------------------------------------ *)
(** ** Releasing a slot *)

Lemma free_slot_spec p fl tl s c :
  pool_ok p fl tl -> conns p !! s = Some c -> s ∉ fl -> state c = Closed -> tick_in_list c = false ->
  pool_ok (exec (free_slot (Z.of_nat s)) p) (s :: fl) tl /\
  conns (exec (free_slot (Z.of_nat s)) p) = <[s := set_next_free (free_head p) c]> (conns p).
Proof.
  intros Hp Hc Hfl Hst Htick. unfold exec, free_slot. cbn [snd].
  rewrite (conn_at_lookup _ _ _ Hc), put_conn_nat. split; [|done]. destruct Hp. split; cbn; try done.
  - destruct po_size0 as (n & E & ?). exists n. split; [|done].
    unfold zlen in *. by rewrite length_insert.
  - intros t d Hd. apply lookup_update_Some in Hd as [[-> ->]|[_ Hd]]; [|by apply po_index0].
    exact (po_index0 s c Hc).
  - split; [done|]. eexists. split; [apply list_lookup_insert_eq; by eapply lookup_lt_Some|].
    apply linked_update; [done|done].
  - by apply NoDup_cons.
  - intros t d Ht Hd. apply lookup_update_Some in Hd as [[-> ->]|[Hne Hd]]; [done|].
    apply elem_of_cons in Ht as [?|Ht]; [done|]. by apply (po_idle0 t).
  - intros t d Ht Hd. apply not_elem_of_cons in Ht as [? ?].
    apply lookup_update_Some in Hd as [[-> ->]|[_ Hd]]; [done|]. by apply (po_used0 t).
  - apply linked_update; [|done]. intros d _ Hd. by simplify_eq.
  - intros t d Ht Hd. apply lookup_update_Some in Hd as [[-> ->]|[_ Hd]]; [|by apply (po_armed0 t)].
    exact (po_armed0 s c Ht Hc).
  - destruct po_hash0 as (m & Hr & Hm). exists m. split; [done|].
    by apply (hash_sound_update _ _ _ c).
Qed.

(** The effect on the slots: [s] is reset under the next generation, the others
    keep everything but list links. *)
Record freed (p p' : Core) (s : nat) (c : TcpConnection) : Prop := {
  fd_len : length (conns p') = length (conns p);
  fd_slot : exists n, conns p' !! s =
    Some (set_next_free n (reset_preserving (w16 (generation c + 1)) c));
  fd_rest : forall t d, t <> s -> conns p !! t = Some d ->
    exists n, conns p' !! t = Some (set_tick_next n d);
  fd_detached : tick_head (ctx p) = NULL_SLOT ->
    tick_head (ctx p') = NULL_SLOT /\ forall t, t <> s -> conns p' !! t = conns p !! t
}.

Lemma pool_ok_ctx p fl tl x :
  tick_head x = tick_head (ctx p) -> pool_ok p fl tl -> pool_ok (set_ctx x p) fl tl.
Proof. intros E []. split; cbn; try done. by rewrite E. Qed.

Definition kept_on_reset (c : TcpConnection) := (rx_ring c, slot_index c, generation c).

Lemma wakes_effect s :
  kept_on_reset (fst (exec (wake_recv;; wake_send) s)) = kept_on_reset (fst s) /\
  tick_head (snd (exec (wake_recv;; wake_send) s)) = tick_head (snd s).
Proof.
  destruct s as [c x]. unfold exec, sbind, wake_recv, wake_send. cbn.
  destruct (recv_waker c); cbn; by destruct (send_waker c).
Qed.

Lemma unhash_live p fl tl s c :
  pool_ok p fl tl -> conns p !! s = Some c ->
  let p' := exec (swhen (is_live c)
    (modify (fun p => set_hash (tcp_hash_remove (conn_key c) (hash p)) p))) p in
  pool_ok p' fl tl /\ unhashed p' s /\ conns p' = conns p.
Proof.
  intros Hp Hc. rewrite exec_when, exec_modify. destruct (is_live c) eqn:E.
  - destruct (pool_ok_unhash p fl tl s c Hp Hc). done.
  - split; [done|]. split; [|done]. by eapply dead_unhashed.
Qed.

(** Waking the parked tasks and resetting an unlinked, unhashed slot. *)
Lemma reset_slot_spec p fl tl s c :
  pool_ok p fl tl -> conns p !! s = Some c -> s ∉ fl -> s ∉ tl -> unhashed p s ->
  let c' := reset_preserving (w16 (generation c + 1)) c in
  let p' := exec (on_slot (Z.of_nat s) (wake_recv;; wake_send);;
                  on_slot (Z.of_nat s) (setc (fun c => reset_preserving (w16 (generation c + 1)) c))) p in
  pool_ok p' fl tl /\ conns p' = <[s := c']> (conns p) /\ tick_head (ctx p') = tick_head (ctx p).
Proof.
  intros Hp Hc Hfl Htl Hu c' p'. subst p'. rewrite exec_bind.
  destruct (wakes_effect (c, ctx p)) as [E1 E2]. cbn [fst snd] in *.
  rewrite (proj1 (exec_on_slot s _ p c Hc)).
  destruct (exec (wake_recv;; wake_send) (c, ctx p)) as [c1 x1]. cbn [fst snd] in *.
  set (p1 := set_ctx x1 (put_conn (Z.of_nat s) c1 p)).
  assert (conns p1 !! s = Some c1) as Hc1.
  { unfold p1. rewrite put_conn_nat. cbn. apply list_lookup_insert_eq. by eapply lookup_lt_Some. }
  rewrite (proj1 (exec_on_slot s _ p1 c1 Hc1)), exec_setc. cbn [fst snd].
  replace (reset_preserving (w16 (generation c1 + 1)) c1) with c'
    by (subst c'; unfold kept_on_reset in E1; unfold reset_preserving; congruence).
  assert (set_ctx (ctx p1) (put_conn (Z.of_nat s) c' p1) = set_ctx x1 (put_conn (Z.of_nat s) c' p)) as ->.
  { unfold p1. rewrite !put_conn_nat. unfold set_conns, set_ctx. cbn. by rewrite list_insert_insert_eq. }
  split; [|by rewrite put_conn_nat].
  apply pool_ok_ctx; [by rewrite put_conn_nat|]. by apply (pool_ok_replace p fl tl s c).
Qed.

Lemma free_connection_spec full fl p s c :
  pok full fl p -> conns p !! s = Some c -> s ∉ fl ->
  pok full (s :: fl) (exec (free_connection (Z.of_nat s)) p) /\
  freed p (exec (free_connection (Z.of_nat s)) p) s c.
Proof.
  intros (tl & Hp & Hall) Hc Hfl. unfold free_connection.
  rewrite exec_bind, exec_gets, eval_gets, (conn_at_lookup _ _ _ Hc).
  rewrite (po_used _ _ _ Hp s c Hfl Hc), Z.eqb_refl, andb_false_r.
  rewrite exec_bind. destruct (unhash_live p fl tl s c Hp Hc) as (Hp1 & Hu1 & Ec1).
  set (p1 := exec (swhen _ _) p) in *. rewrite <-Ec1 in Hc.
  rewrite exec_bind, exec_modify.
  destruct (tick_unlink_spec p1 fl tl s c Hp1 Hc) as (tl' & [Hp2 Hout Hrest Eh [Elen Hlinks] Hc2]).
  set (p2 := tick_unlink (Z.of_nat s) p1) in *.
  assert (unhashed p2 s) as Hu2 by (intros m Hm; rewrite Eh in Hm; by apply Hu1).
  destruct (reset_slot_spec p2 fl tl' s c Hp2 Hc2 Hfl Hout Hu2) as (Hp3 & Ec3 & Et3).
  rewrite !exec_bind. rewrite exec_bind in Hp3, Ec3, Et3. set (p3 := exec _ (exec _ p2)) in *.
  set (c' := reset_preserving (w16 (generation c + 1)) c) in *.
  assert (conns p3 !! s = Some c') as Hc3
    by (rewrite Ec3; apply list_lookup_insert_eq; by eapply lookup_lt_Some).
  destruct (free_slot_spec p3 fl tl' s c' Hp3 Hc3 Hfl eq_refl eq_refl) as [Hp4 Ec4].
  assert (conns (exec (free_slot (Z.of_nat s)) p3) =
    <[s := set_next_free (free_head p3) c']> (conns p2)) as Ec
    by (by rewrite Ec4, Ec3, list_insert_insert_eq).
  split.
  - exists tl'. split; [done|]. intros Hf t d Hd. rewrite Ec in Hd.
    apply lookup_update_Some in Hd as [[-> ->]|[Hne Hd]]; [done|].
    destruct (lookup_lt_is_Some_2 (conns p1) t) as [e He];
      [rewrite <-Elen; by eapply lookup_lt_Some|].
    destruct (Hlinks t e He) as [n Hn]. assert (d = set_tick_next n e) as -> by congruence.
    rewrite Ec1 in He. destruct (Hall Hf t e He) as [Hok Hin]. split; [exact Hok|].
    intros Ht. apply Hrest; [done|]. by apply Hin.
  - split.
    + by rewrite Ec, length_insert, Elen, Ec1.
    + exists (free_head p3). rewrite Ec. apply list_lookup_insert_eq. by eapply lookup_lt_Some.
    + intros t d Hne Hd. rewrite Ec, list_lookup_insert_ne by done. apply Hlinks. by rewrite Ec1.
    + intros Hnull. assert (tick_head (ctx p1) = NULL_SLOT) as Hnull1
        by (unfold p1; rewrite exec_when; by destruct (is_live c)).
      assert (p2 = p1) as Ep2 by (eapply tick_unlink_detached; [exact Hp1|done..]).
      split; [by rewrite <-Hnull1, <-Ep2, <-Et3|].
      intros t Ht. by rewrite Ec, list_lookup_insert_ne, Ep2, Ec1.
Qed.

(* ------------------------------------------------------------------ *)
(** ** Allocating a slot *)

Lemma lookup_new_segment base i c :
  new_segment base !! i = Some c -> c = set_slot_index (w16 (base + Z.of_nat i)) new_conn /\ (i < 64)%nat.
Proof.
  unfold new_segment. rewrite list_lookup_fmap. intros H.
  apply fmap_Some in H as (j & Hj & ->). apply lookup_seq in Hj as [-> Hi]. done.
Qed.

(** The pool with a fresh segment, before its slots are linked. *)
Lemma append_segment_spec p tl n :
  pool_ok p [] tl -> zlen (conns p) = SEGMENT_SIZE * n -> 0 <= n < MAX_SEGMENTS ->
  pool_ok (set_conns (conns p ++ new_segment (SEGMENT_SIZE * n)) p) [] tl.
Proof.
  intros Hp Hlen Hn. pose proof (po_tick _ _ _ Hp) as Htick.
  assert (forall s c, (conns p ++ new_segment (SEGMENT_SIZE * n)) !! s = Some c ->
    conns p !! s = Some c \/ c = set_slot_index (Z.of_nat s) new_conn) as Hsplit.
  { intros s c Hc. apply lookup_app_Some in Hc as [Hc|[Hge Hc]]; [by left|right].
    apply lookup_new_segment in Hc as [-> Hi]. f_equal. rewrite w16_small;
      unfold zlen, SEGMENT_SIZE in *; int_lia. }
  destruct Hp. split; cbn; try done.
  - exists (n + 1). rewrite zlen_app, Hlen. split; [|lia].
    unfold new_segment, zlen. rewrite length_fmap, length_seq. unfold SEGMENT_SIZE. lia.
  - intros s c Hc. apply Hsplit in Hc as [Hc| ->]; [by apply po_index0|done].
  - intros s c Hs. by apply elem_of_nil in Hs.
  - intros s c Hs Hc. apply Hsplit in Hc as [Hc| ->]; [by apply (po_used0 s)|done].
  - by apply linked_grow.
  - intros s c Hs Hc. destruct (linked_elem _ _ _ _ s Htick Hs) as [d Hd].
    rewrite (lookup_app_l_Some _ _ _ _ Hd) in Hc. simplify_eq. by apply (po_armed0 s).
  - destruct po_hash0 as (m & Hr & Hm). exists m. split; [done|]. intros k v Hk.
    destruct (Hm k v Hk) as (s & c & -> & Hc & Hl & Hkey). exists s, c. repeat split; try done.
    by apply lookup_app_l_Some.
Qed.

(** Linking [n] fresh slots from [base] on. *)
Lemma free_slots_spec n : forall p fl tl base,
  pool_ok p fl tl ->
  (forall i, (i < n)%nat -> conns p !! (base + i)%nat =
     Some (set_slot_index (Z.of_nat (base + i)) new_conn) /\ (base + i)%nat ∉ fl) ->
  pool_ok (exec (free_slots (Z.of_nat base) n) p) (seq base n ++ fl) tl /\
  (forall s, (s < base)%nat \/ (base + n <= s)%nat ->
     conns (exec (free_slots (Z.of_nat base) n) p) !! s = conns p !! s) /\
  (forall i, (i < n)%nat -> exists v, conns (exec (free_slots (Z.of_nat base) n) p) !! (base + i)%nat =
     Some (set_next_free v (set_slot_index (Z.of_nat (base + i)) new_conn))).
Proof.
  induction n as [|n IH]; intros p fl tl base Hp Hfresh; cbn [free_slots].
  { split; [done|]. split; [done|]. intros i Hi. lia. }
  rewrite exec_bind. destruct (Hfresh n) as [Hc Hn]; [lia|].
  assert (w16 (Z.of_nat base + Z.of_nat n) = Z.of_nat (base + n)) as ->.
  { pose proof (slots_bound _ _ _ _ _ Hp Hc). unfold SEGMENT_SIZE in *. int_lia. }
  destruct (free_slot_spec p fl tl (base + n) _ Hp Hc Hn eq_refl eq_refl) as [Hp1 Ec1].
  set (p1 := exec (free_slot _) p) in *.
  destruct (IH p1 ((base + n)%nat :: fl) tl base Hp1) as (Hp2 & Hout & Hin).
  { intros i Hi. destruct (Hfresh i) as [Hci Hni]; [lia|]. rewrite Ec1. split.
    - rewrite list_lookup_insert_ne by lia. done.
    - apply not_elem_of_cons. split; [lia|done]. }
  split; [rewrite seq_S, <-(assoc_L (++)); exact Hp2|]. split.
  - intros s Hs. rewrite Hout, Ec1, list_lookup_insert_ne by lia. done.
  - intros i Hi. destruct (decide (i = n)) as [->|Hne]; [|apply Hin; lia].
    exists (free_head p). rewrite Hout, Ec1 by lia. apply list_lookup_insert_eq. by eapply lookup_lt_Some.
Qed.

Lemma armed_all_fresh p p' tl :
  armed_all p tl ->
  (forall s c, conns p' !! s = Some c -> conns p !! s = Some c \/
     (still_armed c = false /\ tick_in_list c = false)) -> armed_all p' tl.
Proof.
  intros Hall Hsub s c Hc. destruct (Hsub s c Hc) as [Hc'|[E1 E2]]; [by apply Hall|].
  unfold armed_ok. rewrite E1, E2. done.
Qed.

(** Growth: nothing changes, or 64 fresh slots are linked. *)
Lemma grow_segment_spec full p :
  pok full [] p ->
  if eval grow_segment p then
    exists s fl, pok full (s :: fl) (exec grow_segment p) /\ conns p !! s = None /\
      (forall t c, conns p !! t = Some c -> conns (exec grow_segment p) !! t = Some c)
  else pok full [] (exec grow_segment p) /\ conns (exec grow_segment p) = conns p.
Proof.
  intros Hpok. unfold grow_segment. rewrite exec_bind, eval_bind, exec_gets, eval_gets.
  destruct (_ <=? _) eqn:Emax; [by rewrite eval_ret, exec_ret|]. bool_to_prop.
  rewrite exec_bind, eval_bind. pose proof (pok_on_env full [] try_reserve p try_reserve_tick Hpok) as Hpok1.
  assert (conns (exec (on_env try_reserve) p) = conns p) as Ec
    by (unfold exec, on_env; by destruct (try_reserve (ctx p))).
  destruct (eval (on_env try_reserve) p); cbn [negb]; [|by rewrite eval_ret, exec_ret].
  set (p1 := exec (on_env try_reserve) p) in *. clear Hpok. destruct Hpok1 as (tl & Hp & Hall).
  destruct (po_size _ _ _ Hp) as (n & Hlen & Hn). rewrite <-Ec in Emax |- *.
  assert (zlen (conns p1) / SEGMENT_SIZE = n) as En
    by (rewrite Hlen, Z.mul_comm; apply Z.div_mul; unfold SEGMENT_SIZE; lia).
  rewrite En in *.
  assert (Z.min U16_MAX (w16 n * SEGMENT_SIZE) = Z.of_nat (length (conns p1))) as Eb.
  { unfold zlen, SEGMENT_SIZE in *. int_lia. }
  rewrite Eb. rewrite !exec_bind, !eval_bind, eval_ret, exec_modify.
  pose proof (append_segment_spec p1 tl n Hp Hlen ltac:(lia)) as Hp2.
  rewrite <-Hlen in Hp2. fold (zlen (conns p1)) in *. set (p2 := set_conns _ p1) in *.
  destruct (free_slots_spec (Z.to_nat SEGMENT_SIZE) p2 [] tl (length (conns p1)) Hp2) as (Hp3 & Hout & Hin).
  { intros i Hi. split; [|apply not_elem_of_nil]. unfold p2. cbn [conns set_conns].
    rewrite lookup_app_r by lia. replace (length (conns p1) + i - length (conns p1))%nat with i by lia.
    unfold new_segment. rewrite list_lookup_fmap, lookup_seq_lt by done. cbn. do 2 f_equal.
    unfold zlen, SEGMENT_SIZE in *. int_lia. }
  rewrite app_nil_r in Hp3. rewrite exec_ret. fold (zlen (conns p1)) in *.
  set (p3 := exec (free_slots _ _) p2) in *.
  exists (length (conns p1)), (seq (S (length (conns p1))) 63). split; [|split].
  - exists tl. split; [exact Hp3|]. intros Hf. apply (armed_all_fresh p1); [by apply Hall|].
    intros s c Hc. destruct (decide (s < length (conns p1))%nat) as [Hlt|Hge].
    + left. rewrite Hout in Hc by (left; done). unfold p2 in Hc. cbn [conns set_conns] in Hc.
      by rewrite lookup_app_l in Hc.
    + right. destruct (decide (s < length (conns p1) + 64)%nat) as [Hlt2|Hge2].
      * destruct (Hin (s - length (conns p1))%nat) as [v Hv]; [unfold SEGMENT_SIZE; lia|].
        replace (length (conns p1) + (s - length (conns p1)))%nat with s in Hv by lia.
        rewrite Hv in Hc. by simplify_eq.
      * exfalso. rewrite Hout in Hc by (right; unfold SEGMENT_SIZE; lia). apply lookup_lt_Some in Hc.
        unfold p2 in Hc. cbn [conns set_conns] in Hc. rewrite length_app in Hc.
        unfold new_segment in Hc. rewrite length_fmap, length_seq in Hc. unfold SEGMENT_SIZE in Hc. lia.
  - by apply lookup_ge_None_2.
  - intros t c Hc. rewrite Hout by (left; by eapply lookup_lt_Some). unfold p2. cbn [conns set_conns].
    by apply lookup_app_l_Some.
Qed.

Lemma find_from_Some i f l j :
  find_from i f l = Some j ->
  exists s c, j = i + Z.of_nat s /\ l !! s = Some c /\ f c = true /\
    forall t d, (t < s)%nat -> l !! t = Some d -> f d = false.
Proof.
  revert i. induction l as [|c l IH]; intros i; cbn [find_from]; [done|].
  destruct (f c) eqn:E.
  - intros [= <-]. exists O, c. split; [lia|]. split; [done|]. split; [done|]. intros t d Ht. lia.
  - intros H. apply IH in H as (s & d & -> & Hl & Hf & Hmin). exists (S s), d.
    split; [lia|]. split; [done|]. split; [done|]. intros [|t] e Ht He; [by simplify_eq/=|].
    apply (Hmin t); [lia|done].
Qed.

Lemma find_from_None i f l : find_from i f l = None -> forall s c, l !! s = Some c -> f c = false.
Proof.
  revert i. induction l as [|c l IH]; intros i; cbn [find_from]; [done|].
  destruct (f c) eqn:E; [done|]. intros H [|s] d Hd; [by simplify_eq/=|]. by eapply IH.
Qed.

Lemma pool_capacity_ok p fl tl : pool_ok p fl tl -> pool_capacity p = zlen (conns p).
Proof.
  intros Hp. destruct (po_size _ _ _ Hp) as (n & Hlen & Hn). unfold pool_capacity.
  rewrite Hlen. unfold SEGMENT_SIZE in *.
  replace (64 * n / 64) with n by int_lia. int_lia.
Qed.

Lemma find_slot_Some full fl f p i :
  pok full fl p -> find_slot f p = Some i ->
  exists s c, i = Z.of_nat s /\ conns p !! s = Some c /\ f c = true.
Proof.
  intros (tl & Hp & _). unfold find_slot. rewrite (pool_capacity_ok _ _ _ Hp), ztake_ge by lia.
  intros H. apply find_from_Some in H as (s & c & -> & Hc & Hf & _). by exists s, c.
Qed.

Lemma find_slot_None full fl f p :
  pok full fl p -> find_slot f p = None -> forall s c, conns p !! s = Some c -> f c = false.
Proof.
  intros (tl & Hp & _). unfold find_slot. rewrite (pool_capacity_ok _ _ _ Hp), ztake_ge by lia.
  apply find_from_None.
Qed.

Lemma pool_pop_nil full p : pok full [] p -> pool_pop p = (None, p).
Proof.
  intros (tl & Hp & _). unfold pool_pop. pose proof (po_free _ _ _ Hp) as E. simpl in E.
  by rewrite E, Z.eqb_refl.
Qed.

Lemma pool_pop_cons full p s fl :
  pok full (s :: fl) p ->
  exists c, conns p !! s = Some c /\ linked next_free (conns p) (next_free c) fl /\
    pool_pop p = (Some (Z.of_nat s), set_free_head (next_free c) p).
Proof.
  intros (tl & Hp & _). pose proof (po_free _ _ _ Hp) as (E & c & Hc & Hl). exists c.
  split; [done|]. split; [done|]. unfold pool_pop. rewrite E.
  destruct (Z.of_nat s =? NULL_SLOT) eqn:En; bool_to_prop; [by destruct (null_not_slot _ _ _ _ _ Hp Hc)|].
  by rewrite (conn_at_lookup _ _ _ Hc).
Qed.

(** Taking the head off the free list and replacing its connection. *)
Lemma pool_take_spec full p s fl c c' :
  pok full (s :: fl) p -> conns p !! s = Some c ->
  slot_index c' = slot_index c -> next_free c' = NULL_SLOT -> is_live c' = false ->
  still_armed c' = false -> tick_in_list c' = false ->
  pok full fl (put_conn (Z.of_nat s) c' (set_free_head (next_free c) p)).
Proof.
  intros (tl & Hp & Hall) Hc Eix Enf Hdead Harm Htick. pose proof (po_free_nodup _ _ _ Hp) as Hnd.
  apply NoDup_cons in Hnd as [Hs Hnd]. pose proof (po_free _ _ _ Hp) as (_ & c0 & Hc0 & Hl).
  replace c0 with c in * by congruence.
  assert (s ∈ s :: fl) as Hin by left. destruct (po_idle _ _ _ Hp s c Hin Hc) as [Hst Ht].
  assert (s ∉ tl) as Hnt by (intros H; pose proof (po_armed _ _ _ Hp s c H Hc); congruence).
  assert (is_live c = false) as Hlive by (unfold is_live; by rewrite Hst).
  rewrite put_conn_nat. exists tl. split.
  - destruct Hp. split; cbn; try done.
    + destruct po_size0 as (n & E & ?). exists n. split; [|done].
      unfold zlen in *. by rewrite length_insert.
    + intros t d Hd. apply lookup_update_Some in Hd as [[-> ->]|[_ Hd]]; [|by apply po_index0].
      rewrite Eix. by apply po_index0.
    + by apply linked_update.
    + intros t d Ht' Hd. apply lookup_update_Some in Hd as [[-> ->]|[_ Hd]]; [done|].
      apply (po_idle0 t); [by right|done].
    + intros t d Ht' Hd. apply lookup_update_Some in Hd as [[-> ->]|[Hne Hd]]; [done|].
      apply (po_used0 t); [by apply not_elem_of_cons|done].
    + by apply linked_update.
    + intros t d Ht' Hd. apply lookup_update_Some in Hd as [[-> ->]|[_ Hd]]; [done|by apply (po_armed0 t)].
    + destruct po_hash0 as (m & Hr & Hm). exists m. split; [done|].
      apply (hash_sound_update _ _ _ c); [done| |done]. congruence.
  - intros Hf t d Hd. cbn in Hd. apply lookup_update_Some in Hd as [[-> ->]|[_ Hd]]; [|by apply Hall].
    unfold armed_ok. rewrite Harm, Htick. done.
Qed.

(** A slot fit for a new connection. *)
Definition fresh_slot (p : Core) (fl : list nat) (s : nat) : Prop :=
  (s ∉ fl) /\ exists g c, conns p !! s = Some (reset_preserving g c).

(** The slots other than [s] keep everything but list links. *)
Definition others_kept (p p' : Core) (s : nat) : Prop :=
  forall t d, t <> s -> conns p !! t = Some d -> exists n, conns p' !! t = Some (set_tick_next n d).

(** What the slot held before: nothing yet, a free slot, or the connection in a
    closing state that the full pool gave up. *)
Definition was_available (p : Core) (fl : list nat) (s : nat) : Prop :=
  forall c, conns p !! s = Some c ->
    s ∈ fl \/ state c = FinWait1 \/ state c = FinWait2 \/ state c = LastAck \/
    state c = TimeWait \/ state c = CloseWait.

Definition alloc_post (full : bool) (p : Core) (fl : list nat) (r : option Z) (p' : Core) : Prop :=
  match r with
  | Some i => exists s fl', i = Z.of_nat s /\ pok full fl' p' /\ fresh_slot p' fl' s /\
      others_kept p p' s /\ was_available p fl s /\
      forall c, s ∉ fl -> conns p !! s = Some c ->
        conns p' !! s = Some (reset_preserving (w16 (generation c + 1)) c)
  | None => pok full fl p' /\ conns p' = conns p
  end.

Lemma exec_on_slot_setc s f p c :
  conns p !! s = Some c -> exec (on_slot (Z.of_nat s) (setc f)) p = put_conn (Z.of_nat s) (f c) p.
Proof. intros Hc. rewrite (proj1 (exec_on_slot s _ p c Hc)), exec_setc. by destruct p. Qed.

(** Popping the head of the free list and resetting it. *)
Lemma take_reset_spec full p s fl :
  pok full (s :: fl) p ->
  eval pool_pop p = Some (Z.of_nat s) /\
  let p' := exec (on_slot (Z.of_nat s) (setc (fun c => reset_preserving (generation c) c)))
              (exec pool_pop p) in
  pok full fl p' /\ fresh_slot p' fl s /\
  (forall t d, t <> s -> conns p !! t = Some d -> conns p' !! t = Some d).
Proof.
  intros Hpok. destruct (pool_pop_cons _ _ _ _ Hpok) as (c & Hc & _ & Hpop).
  assert (s ∉ fl) as Hs.
  { destruct Hpok as (tl & Hp & _). pose proof (po_free_nodup _ _ _ Hp) as Hnd.
    by apply NoDup_cons in Hnd as [? _]. }
  unfold exec at 2, eval. rewrite Hpop. cbn [fst snd]. split; [done|].
  rewrite (exec_on_slot_setc s _ _ c) by done. split.
  - by apply (pool_take_spec full p s fl c).
  - rewrite put_conn_nat. split.
    + split; [done|]. exists (generation c), c. cbn. apply list_lookup_insert_eq. by eapply lookup_lt_Some.
    + intros t d Ht Hd. cbn. by rewrite list_lookup_insert_ne.
Qed.

Lemma reclaim_slot_Some full fl p states i :
  pok full fl p -> reclaim_slot states p = Some i ->
  exists s c, i = Z.of_nat s /\ conns p !! s = Some c /\ In (state c) states.
Proof.
  intros Hpok. induction states as [|st states IH]; cbn [reclaim_slot]; [done|].
  destruct (find_slot _ p) as [j|] eqn:E.
  - intros [= <-]. destruct (find_slot_Some _ _ _ _ _ Hpok E) as (s & c & -> & Hc & Hst).
    exists s, c. unfold state_eqb in Hst. bool_to_prop. split; [done|]. split; [done|]. left. done.
  - intros H. destruct (IH H) as (s & c & ? & ? & ?). exists s, c. split; [done|]. split; [done|]. by right.
Qed.

(** The reclaimed slot is the whole free list, and is popped at once. *)
Lemma reclaim_spec full p s c :
  pok full [] p -> conns p !! s = Some c ->
  let r := (free_connection (Z.of_nat s);; pool_alloc) p in
  exists fl', fst r = Some (Z.of_nat s) /\ pok full fl' (snd r) /\ fresh_slot (snd r) fl' s /\
    others_kept p (snd r) s /\ conns (snd r) !! s = Some (reset_preserving (w16 (generation c + 1)) c).
Proof.
  intros Hpok Hc. destruct (free_connection_spec full [] p s c Hpok Hc (not_elem_of_nil _)) as [Hpok1 Hfd].
  rewrite run_eta, exec_bind, eval_bind. cbn [fst snd]. set (p1 := exec (free_connection _) p) in *.
  destruct (pool_pop_cons _ _ _ _ Hpok1) as (c1 & Hc1 & Hnull & Hpop). simpl in Hnull.
  unfold pool_alloc. rewrite exec_bind, eval_bind.
  replace (eval pool_pop p1) with (Some (Z.of_nat s)) by (unfold eval; by rewrite Hpop).
  replace (exec pool_pop p1) with (set_free_head (next_free c1) p1) by (unfold exec; by rewrite Hpop).
  rewrite eval_ret, exec_ret. exists []. split; [done|].
  destruct Hfd as [Hlen [n Hn] Hrest]. replace c1 with (set_next_free n (reset_preserving (w16 (generation c + 1)) c))
    in * by congruence.
  assert (set_next_free n (reset_preserving (w16 (generation c + 1)) c) =
    reset_preserving (w16 (generation c + 1)) c) as Ereset by (simpl in Hnull; by rewrite Hnull).
  split; [|split; [|split]].
  - pose proof (pool_take_spec full p1 s [] _ _ Hpok1 Hc1 eq_refl Hnull eq_refl eq_refl eq_refl) as H.
    rewrite put_conn_nat in H. cbn [conns set_free_head] in H.
    rewrite list_insert_id in H by done. by destruct p1.
  - split; [apply not_elem_of_nil|]. exists (w16 (generation c + 1)), c. cbn. by rewrite Hc1, Ereset.
  - intros t d Ht Hd. cbn. by apply Hrest.
  - cbn. by rewrite Hc1, Ereset.
Qed.

(** [pool_alloc] pops the head of the free list, after growth if it was empty. *)
Lemma pool_alloc_cases full fl p :
  pok full fl p ->
  (exists s fl' p1, pok full (s :: fl') p1 /\ pool_alloc p = pool_pop p1 /\
     (forall t c, conns p !! t = Some c -> conns p1 !! t = Some c) /\
     (forall c, conns p !! s = Some c -> s ∈ fl)) \/
  (fl = [] /\ eval pool_alloc p = None /\ pok full [] (exec pool_alloc p) /\
   conns (exec pool_alloc p) = conns p).
Proof.
  intros Hpok. destruct fl as [|s fl].
  2:{ left. exists s, fl, p. split; [done|]. split; [|split; [done|intros; by left]].
      destruct (pool_pop_cons _ _ _ _ Hpok) as (c & _ & _ & Hpop).
      unfold pool_alloc, sbind. by rewrite Hpop. }
  assert (pool_alloc p = (ok <- grow_segment;; if ok : bool then pool_pop else sret None) p) as Ea
    by (unfold pool_alloc, sbind; by rewrite (pool_pop_nil _ _ Hpok)).
  pose proof (grow_segment_spec _ _ Hpok) as Hgrow. unfold exec, eval in *. rewrite Ea.
  unfold sbind. destruct (grow_segment p) as [[] p1]; cbn [fst snd] in *.
  - left. destruct Hgrow as (s & fl & Hpok1 & Hnone & Hold). exists s, fl, p1.
    split; [done|]. split; [done|]. split; [done|]. intros c Hc. congruence.
  - right. by destruct Hgrow.
Qed.

Lemma alloc_connection_spec full fl p :
  pok full fl p -> alloc_post full p fl (eval alloc_connection p) (exec alloc_connection p).
Proof.
  intros Hpok. unfold alloc_connection. rewrite exec_bind, eval_bind.
  destruct (pool_alloc_cases _ _ _ Hpok)
    as [(s & fl' & p1 & Hpok1 & Ea & Hold & Hwas)|(-> & En & Hpok1 & Ec)].
  - replace (eval pool_alloc p) with (eval pool_pop p1) by (unfold eval; by rewrite Ea).
    replace (exec pool_alloc p) with (exec pool_pop p1) by (unfold exec; by rewrite Ea).
    destruct (take_reset_spec _ _ _ _ Hpok1) as (-> & Hok & Hfresh & Hkept).
    rewrite exec_bind, eval_bind, exec_ret, eval_ret. exists s, fl'. split; [done|].
    split; [done|]. split; [done|]. split; [|split].
    + intros t d Ht Hd. exists (tick_next d). rewrite set_tick_next_id. apply Hkept; [done|]. by apply Hold.
    + intros c Hc. left. by apply (Hwas c).
    + intros c Hs Hc. by destruct Hs; apply (Hwas c).
  - rewrite En. set (p1 := exec pool_alloc p) in *. rewrite exec_bind, eval_bind, exec_gets, eval_gets.
    destruct (reclaim_slot _ p1) as [i|] eqn:Er; [|by rewrite exec_ret, eval_ret].
    destruct (reclaim_slot_Some _ _ _ _ _ Hpok1 Er) as (s & c & -> & Hc & Hst).
    pose proof (reclaim_spec full p1 s c Hpok1 Hc) as (fl' & Hev & Hok & Hfresh & Hkept & Hgen).
    unfold eval, exec. rewrite Hev. exists s, fl'. split; [done|]. split; [done|]. split; [done|].
    split; [by unfold others_kept; rewrite <-Ec|]. split.
    + intros c0 Hc0. rewrite <-Ec in Hc0. replace c0 with c by congruence. right. cbn [In] in Hst. intuition.
    + intros c0 _ Hc0. rewrite <-Ec in Hc0. by replace c0 with c by congruence.
Qed.
