(* ===== verification/EngineInv.v ===== *)
(** * Every entry point keeps the pool consistent

    Segment arrival, the timer tick, the active open and the socket calls of one
    core all preserve the pool's invariant (PoolInv.v), whatever bytes arrive and
    in whatever order the calls come. *)

From S2P Require Import Prelude.
From S2P Require Import NetTypes.
From S2P Require Import TcpTypes.
From S2P Require Import TcpSend.
From S2P Require Import TcpWire.
From S2P Require Import RxRing.
From S2P Require Import Rtx.
From S2P Require Import HashTable.
From S2P Require Import Pool.
From S2P Require Import Receive.
From S2P Require Import Lifecycle.
From S2P Require Import SlotMethods.
From S2P Require Import PoolInv.

#[local] Open Scope st_scope.

(* ------------------------------------------------------------------ *)
(** ** Slots in use *)

Lemma live_not_free full fl p s c :
  pok full fl p -> conns p !! s = Some c -> is_live c = true -> s ∉ fl.
Proof.
  intros (tl & Hp & _) Hc Hl Hin. destruct (po_idle _ _ _ Hp s c Hin Hc) as [E _].
  unfold is_live in Hl. by rewrite E in Hl.
Qed.

Lemma tuple_key_nonzero ip a b : tcp_hash_key ip a b <> 0.
Proof. exact (conn_key_nonzero (new_conn |> set_remote_ip ip |> set_remote_port a |> set_local_port b)). Qed.

(** A hash hit is a live connection with the key. *)
Lemma hash_hit full fl p ip a b i :
  pok full fl p -> tcp_hash_find (tcp_hash_key ip a b) (hash p) = Some i ->
  exists s c, i = Z.of_nat s /\ conns p !! s = Some c /\ is_live c = true /\
    conn_key c = tcp_hash_key ip a b.
Proof.
  intros (tl & Hp & _) Hf. destruct (po_hash _ _ _ Hp) as (m & Hr & Hm).
  rewrite (find_spec _ m _ Hr (tuple_key_nonzero ip a b)) in Hf. by apply Hm.
Qed.

Lemma pok_method {A} full fl s (m : St CS A) p c :
  pok full fl p -> conns p !! s = Some c -> s ∉ fl -> method m -> keeps_armed m ->
  pok full fl (exec (on_slot (Z.of_nat s) m) p).
Proof. intros Hp Hc Hs Hm Hk. by apply (pok_on_slot full fl s m p c). Qed.

Lemma pok_live {A} full fl s (m : St CS A) p c :
  pok full fl p -> conns p !! s = Some c -> is_live c = true -> live_method m -> keeps_armed m ->
  pok full fl (exec (on_slot (Z.of_nat s) m) p).
Proof.
  intros Hp Hc Hl Hm Hk. apply (pok_on_slot full fl s m p c); [done|done| |by apply Hm|done].
  by eapply live_not_free.
Qed.

(** The slot stays live through a method. *)
Lemma live_after {A} s (m : St CS A) p c :
  conns p !! s = Some c -> is_live c = true -> live_method m ->
  exists c', conns (exec (on_slot (Z.of_nat s) m) p) !! s = Some c' /\ is_live c' = true.
Proof.
  intros Hc Hl Hm. exists (fst (exec m (c, ctx p))). split; [by apply on_slot_lookup|].
  eapply slot_rel_live; [by apply Hm|done].
Qed.

(** Replacing the connection of an unhashed slot, list links kept. *)
Lemma pok_replace full fl p s c c' :
  pok full fl p -> conns p !! s = Some c -> s ∉ fl -> unhashed p s ->
  slot_index c' = slot_index c -> next_free c' = next_free c ->
  tick_next c' = tick_next c -> tick_in_list c' = tick_in_list c -> (armed_ok c -> armed_ok c') ->
  pok full fl (put_conn (Z.of_nat s) c' p).
Proof.
  intros (tl & Hp & Hall) Hc Hs Hu E1 E2 E3 E4 Hok. exists tl. split.
  - apply (pool_ok_replace p fl tl s c); try done. rewrite E2. by apply (po_used _ _ _ Hp s).
  - intros Hf t d Hd. rewrite put_conn_nat in Hd. cbn in Hd.
    apply lookup_update_Some in Hd as [[-> ->]|[_ Hd]]; [|by apply Hall].
    destruct (Hall Hf s c Hc) as [Ha Hin]. split; [by apply Hok|]. by rewrite E4.
Qed.

(** Changes outside slots, lists and hash. *)
Definition pool_part (p : Core) := (conns p, free_head p, hash p, tick_head (ctx p)).

Lemma pok_pool_part full fl p p' : pool_part p' = pool_part p -> pok full fl p -> pok full fl p'.
Proof.
  unfold pool_part. intros [= E1 E2 E3 E4] (tl & [] & Hall). exists tl. split.
  - by split; rewrite ?E1, ?E2, ?E3, ?E4.
  - unfold armed_all. by rewrite E1.
Qed.

Lemma on_env_part {A} (m : St Ctx A) : preserves tick_head m -> preserves pool_part (on_env m).
Proof.
  intros Hm p. unfold exec, on_env, pool_part. specialize (Hm (ctx p)). unfold exec in Hm.
  destruct (m (ctx p)). cbn in *. by rewrite Hm.
Qed.

Lemma on_rings_part {A} (m : St AcceptRingTable A) : preserves pool_part (on_rings m).
Proof. intros p. unfold exec, on_rings. by destruct (m (accept_rings p)). Qed.

Lemma allowed_part : preserves pool_part challenge_ack_allowed.
Proof.
  intros p. unfold exec, challenge_ack_allowed. destruct (_ <=? _); [done|].
  destruct (_ && _)%bool; by destruct (0 <? _).
Qed.

Lemma challenge_part a b c d e f g : preserves pool_part (send_challenge_ack a b c d e f g).
Proof.
  unfold send_challenge_ack. apply preserves_bind; [apply allowed_part|intros ok].
  destruct ok; [|done]. apply on_env_part, send_tick.
Qed.

Lemma refuse_part r : preserves pool_part (refuse_syn r).
Proof. apply on_env_part, send_rst_tick. Qed.

(* ------------------------------------------------------------------ *)
(** ** Publishing and retiring connections *)

Lemma pok_hash full fl p s c :
  pok full fl p -> conns p !! s = Some c -> is_live c = true ->
  pok full fl (set_hash (tcp_hash_insert (conn_key c) (Z.of_nat s) (hash p)) p).
Proof. intros (tl & Hp & Hall) Hc Hl. exists tl. split; [by apply pool_ok_hash|done]. Qed.

Lemma pok_free full fl p s c :
  pok full fl p -> conns p !! s = Some c -> is_live c = true ->
  pok full (s :: fl) (exec (free_connection (Z.of_nat s)) p).
Proof.
  intros Hp Hc Hl. apply (free_connection_spec full fl p s c); [done|done|]. by eapply live_not_free.
Qed.

Lemma pok_fail_connect full fl p s c failure :
  pok full fl p -> conns p !! s = Some c -> is_live c = true ->
  pok full fl (exec (fail_connect (Z.of_nat s) failure) p).
Proof.
  intros Hpok Hc Hl. pose proof (live_not_free _ _ _ _ _ Hpok Hc Hl) as Hs.
  unfold fail_connect. rewrite exec_bind, exec_gets, eval_gets, (conn_at_lookup _ _ _ Hc).
  rewrite exec_bind, exec_modify. destruct Hpok as (tl & Hp & Hall).
  destruct (pool_ok_unhash p fl tl s c Hp Hc) as [Hp1 Hu1]. set (p1 := set_hash _ p) in *.
  assert (pok full fl p1) as Hpok1 by by exists tl.
  set (c1 := c |> set_connect_failure failure |> set_state Closed |> set_lifecycle_deadline_ms 0
               |> set_fin_retx_count 0 |> set_rtt_anchor_active false).
  assert (pok full fl (put_conn (Z.of_nat s) c1 p1)) as Hpok2.
  { apply (pok_replace full fl p1 s c); try done. unfold armed_ok, still_armed, c1. cbn.
    rewrite ?orb_true_iff. intuition discriminate. }
  assert (conns (put_conn (Z.of_nat s) c1 p1) !! s = Some c1) as Hc1
    by (rewrite put_conn_nat; apply list_lookup_insert_eq; by eapply lookup_lt_Some).
  replace (exec (on_slot (Z.of_nat s) _) p1)
    with (exec (on_slot (Z.of_nat s) (wake_send;; wake_recv)) (put_conn (Z.of_nat s) c1 p1)).
  - apply (pok_method full fl s _ _ c1); try done.
    + apply method_bind; auto with method.
    + apply keeps_bind; auto with armed.
  - rewrite (proj1 (exec_on_slot s _ _ c1 Hc1)), (proj1 (exec_on_slot s _ p1 c Hc)).
    rewrite (exec_bind (setc _) _ (c, ctx p1)), exec_setc. cbn [fst snd].
    rewrite !put_conn_nat. unfold set_ctx, set_conns. cbn. by rewrite list_insert_insert_eq.
Qed.

(** The pool is consistent for some free list. *)
Definition inv (full : bool) (p : Core) : Prop := exists fl, pok full fl p.

Lemma reset_dead g c : is_live (reset_preserving g c) = false.
Proof. done. Qed.

Lemma ensure_ring_dead c x :
  is_live c = false -> is_live (fst (exec ensure_rx_ring (c, x))) = false.
Proof.
  intros Hd. unfold exec, ensure_rx_ring, sbind, getc, on_ctx. cbn.
  destruct (rx_ring c); [done|]. cbn. unfold try_reserve. destruct (allocs x) as [|[] ?]; done.
Qed.

(** Allocating a connection and its ring: the slot is fresh still. *)
Lemma alloc_ring_spec full fl p s :
  pok full fl p -> fresh_slot p fl s ->
  let p' := exec (on_slot (Z.of_nat s) ensure_rx_ring) p in
  pok full fl p' /\ exists c, conns p' !! s = Some c /\ is_live c = false.
Proof.
  intros Hpok (Hs & g & c & Hc). split.
  - apply (pok_method full fl s _ p _ Hpok Hc Hs); auto with method armed.
  - eexists. split; [by apply on_slot_lookup|]. by apply ensure_ring_dead.
Qed.

(** The fields a new connection keeps of its slot. *)
Definition slot_links (c : TcpConnection) :=
  (slot_index c, next_free c, tick_next c, tick_in_list c, timers c).

(** The passive connection before its SYN-ACK. *)
Definition congestion_start (c : TcpConnection) : TcpConnection := fst (exec congestion_init (c, idle_ctx)).
Definition syn_conn (r : RxSegment) (isn : Z) (c : TcpConnection) : TcpConnection :=
  reset_ring (congestion_start (syn_received r isn c)).

Lemma syn_conn_run r isn c x :
  exec (setc (syn_received r isn);; congestion_init;; setc reset_ring) (c, x) = (syn_conn r isn c, x).
Proof.
  unfold syn_conn, congestion_start, congestion_init.
  rewrite !exec_bind, !exec_setc. cbn [fst snd]. reflexivity.
Qed.

Lemma syn_conn_links r isn c : slot_links (syn_conn r isn c) = slot_links c.
Proof. reflexivity. Qed.

Lemma syn_conn_live r isn c : is_live (syn_conn r isn c) = true.
Proof. reflexivity. Qed.

Lemma syn_conn_key r isn c :
  conn_key (syn_conn r isn c) =
    tcp_hash_key (rx_src_ip r) (h_src_port (rx_hdr r)) (h_dst_port (rx_hdr r)).
Proof. reflexivity. Qed.

(** A fresh slot becomes a live connection and is published. *)
Lemma pok_publish full fl p s c c' (m : St CS unit) :
  pok full fl p -> conns p !! s = Some c -> s ∉ fl -> is_live c = false ->
  exec m (c, ctx p) = (c', ctx p) -> slot_links c' = slot_links c -> is_live c' = true ->
  let p' := exec (modify (fun p =>
      set_hash (tcp_hash_insert (conn_key c') (Z.of_nat s) (hash p)) p))
    (exec (on_slot (Z.of_nat s) m) p) in
  pok full fl p' /\ conns p' !! s = Some c'.
Proof.
  intros Hpok Hc Hs Hdead Em El Hl p'. subst p'. unfold slot_links in El.
  rewrite !pair_equal_spec in El. destruct El as [[[[E1 E2] E3] E4] E5].
  rewrite exec_modify, (proj1 (exec_on_slot s m p c Hc)), Em. cbn [fst snd].
  assert (set_ctx (ctx p) (put_conn (Z.of_nat s) c' p) = put_conn (Z.of_nat s) c' p) as -> by (by destruct p).
  assert (conns (put_conn (Z.of_nat s) c' p) !! s = Some c') as Hc'
    by (rewrite put_conn_nat; apply list_lookup_insert_eq; by eapply lookup_lt_Some).
  split; [|done]. apply pok_hash; [|done|done].
  apply (pok_replace full fl p s c); try done; [|by apply armed_ok_timers].
  destruct Hpok as (tl & Hp & _). by eapply dead_unhashed.
Qed.

Lemma pok_part {A} full fl (m : St Core A) p :
  preserves pool_part m -> pok full fl p ->
  pok full fl (exec m p) /\ conns (exec m p) = conns p.
Proof.
  intros Hm Hp. pose proof (Hm p) as E. split; [by eapply pok_pool_part|].
  unfold pool_part in E. congruence.
Qed.

(** A live slot stays live and in use through slot methods, ring updates and
    environment code. *)
Definition live_at (full : bool) (fl : list nat) (s : nat) (p : Core) : Prop :=
  pok full fl p /\ exists c, conns p !! s = Some c /\ is_live c = true.

Lemma live_at_method {A} full fl s (m : St CS A) p :
  live_at full fl s p -> live_method m -> keeps_armed m ->
  live_at full fl s (exec (on_slot (Z.of_nat s) m) p).
Proof.
  intros (Hp & c & Hc & Hl) Hm Hk. split; [by eapply pok_live|by eapply live_after].
Qed.

Lemma live_at_part {A} full fl s (m : St Core A) p :
  live_at full fl s p -> preserves pool_part m -> live_at full fl s (exec m p).
Proof.
  intros (Hp & c & Hc & Hl) Hm. destruct (pok_part full fl m p Hm Hp) as [Hp' Ec].
  split; [done|]. rewrite Ec. eauto.
Qed.

Lemma live_at_inv full fl s p : live_at full fl s p -> inv full p.
Proof. intros [Hp _]. by exists fl. Qed.

Lemma inv_accept_syn full p r : inv full p -> inv full (exec (accept_syn r) p).
Proof.
  intros [fl Hpok]. unfold accept_syn. rewrite exec_bind.
  pose proof (alloc_connection_spec full fl p Hpok) as Ha.
  destruct (eval alloc_connection p) as [i|]; [|exists fl; apply Ha].
  destruct Ha as (s & fl' & -> & Hpok1 & Hfresh & _). set (p1 := exec alloc_connection p) in *.
  rewrite exec_bind. destruct (alloc_ring_spec _ _ _ _ Hpok1 Hfresh) as (Hpok2 & c2 & Hc2 & Hd2).
  destruct Hfresh as [Hs _]. set (p2 := exec (on_slot _ ensure_rx_ring) p1) in *.
  destruct (eval (on_slot _ ensure_rx_ring) p1); cbn [negb].
  2:{ rewrite exec_bind. exists (s :: fl').
      destruct (pok_part full fl' _ p2 (refuse_part r) Hpok2) as [Hpok3 Ec].
      apply (free_connection_spec full fl' _ s c2); [exact Hpok3|by rewrite Ec|done]. }
  rewrite exec_bind. destruct (pok_part full fl' _ p2 (on_env_part _ next_seq_tick) Hpok2) as [Hpok3 Ec].
  rewrite <-Ec in Hc2. set (isn := eval (on_env next_seq) p2).
  set (p3 := exec (on_env next_seq) p2) in *. rewrite exec_bind, exec_bind, exec_bind.
  destruct (pok_publish full fl' p3 s c2 (syn_conn r isn c2) _ Hpok3 Hc2 Hs Hd2
    (syn_conn_run r isn c2 (ctx p3)) (syn_conn_links r isn c2) (syn_conn_live r isn c2)) as [Hpok4 Hc4].
  rewrite (syn_conn_key r isn c2) in Hpok4, Hc4. set (p4 := exec (modify _) _) in *.
  apply (live_at_inv full fl' s). apply live_at_method; [apply live_at_method|..].
  - split; [done|]. eexists. split; [exact Hc4|]. apply syn_conn_live.
  - apply live_of_method, method_syn_ack.
  - apply keeps_syn_ack.
  - apply live_of_method. method.
  - keeps_armed.
Qed.

(* ------------------------------------------------------------------ *)
(** ** Segment arrival *)

Lemma inv_part {A} full (m : St Core A) p :
  preserves pool_part m -> inv full p -> inv full (exec m p).
Proof. intros Hm [fl Hp]. exists fl. by apply pok_part. Qed.

Lemma inv_rst full p r : inv full p -> inv full (exec (rx_rst r) p).
Proof.
  intros [fl Hpok]. unfold rx_rst. rewrite exec_bind, exec_gets, eval_gets.
  destruct (find_slot _ p) as [i|] eqn:E; [|by exists fl].
  destruct (find_slot_Some _ _ _ _ _ Hpok E) as (s & c & -> & Hc & Hf).
  apply andb_prop in Hf as [Hl _].
  rewrite exec_bind, exec_gets, eval_gets, (conn_at_lookup _ _ _ Hc).
  destruct (state_eqb _ _); rewrite exec_when; destruct (_ && _)%bool || destruct (_ =? _);
    try by exists fl.
  - exists fl. by apply (pok_fail_connect full fl p s c).
  - exists (s :: fl). by apply (pok_free full fl p s c).
Qed.

Lemma verified_hit full fl p ip a b i :
  pok full fl p -> verified_find ip a b p = Some i ->
  exists s c, i = Z.of_nat s /\ conns p !! s = Some c /\ is_live c = true /\
    tuple_matches ip a b c = true.
Proof.
  intros Hpok. unfold verified_find. destruct (tcp_hash_find _ _) as [j|] eqn:E; [|done].
  destruct (hash_hit _ _ _ _ _ _ _ Hpok E) as (s & c & -> & Hc & Hl & _).
  rewrite (conn_at_lookup _ _ _ Hc). destruct (tuple_matches ip a b c) eqn:Et; [|done].
  intros [= <-]. by exists s, c.
Qed.

Lemma inv_bare_syn full p r : inv full p -> inv full (exec (rx_bare_syn r) p).
Proof.
  intros [fl Hpok]. unfold rx_bare_syn.
  rewrite exec_bind, exec_gets, eval_gets, exec_bind, exec_gets, eval_gets.
  assert (forall m, inv full (exec m p) -> inv full (exec (
    listener <- gets (find_listener (h_dst_port (rx_hdr r)));;
    match listener with None => refuse_syn r | Some _ => m end) p)) as Hlisten.
  { intros m Hm. rewrite exec_bind, exec_gets, eval_gets. destruct (find_listener _ p); [done|].
    apply inv_part; [apply refuse_part|by exists fl]. }
  destruct (verified_find _ _ _ p) as [i|] eqn:E; cbn [fmap option_fmap option_map].
  2:{ apply Hlisten, inv_accept_syn. by exists fl. }
  destruct (verified_hit _ _ _ _ _ _ _ Hpok E) as (s & c & -> & Hc & Hl & _).
  rewrite (conn_at_lookup _ _ _ Hc).
  destruct (state_eqb (state c) Established); [apply inv_part; [apply challenge_part|by exists fl]|].
  destruct (state_eqb (state c) SynSent); [by exists fl|].
  apply Hlisten. rewrite exec_bind, exec_when, Hl. apply inv_accept_syn.
  exists (s :: fl). by apply (pok_free full fl p s c).
Qed.

(** The acknowledgement stage: the connection is gone and the segment done with,
    or it is live still. *)
Lemma rx_ack_inv full fl s p r :
  live_at full fl s p ->
  (eval (rx_ack (Z.of_nat s) r) p = true /\ inv full (exec (rx_ack (Z.of_nat s) r) p)) \/
  (eval (rx_ack (Z.of_nat s) r) p = false /\ live_at full fl s (exec (rx_ack (Z.of_nat s) r) p)).
Proof.
  intros Hlive. pose proof Hlive as (Hpok & c & Hc & Hl). unfold rx_ack.
  rewrite exec_bind, eval_bind, exec_gets, eval_gets, (conn_at_lookup _ _ _ Hc).
  destruct (seq_lt (snd_nxt c) _).
  { left. rewrite exec_bind, eval_bind, exec_ret, eval_ret. split; [done|].
    apply inv_part; [apply challenge_part|by exists fl]. }
  rewrite exec_bind, eval_bind.
  pose proof (live_at_method full fl s (setc (refresh_window (rx_hdr r))) p Hlive
    (live_of_method _ (method_refresh _)) (keeps_refresh _)) as Hlive1.
  set (p1 := exec (on_slot _ _) p) in *.
  assert (live_method (ack_recovery r (snd_una c) (is_dup_ack r c))) as Hrec
    by apply live_of_method, method_recovery.
  destruct (state_eqb (state c) SynReceived && _)%bool.
  { right. rewrite !exec_bind, !eval_bind, exec_ret, eval_ret. split; [done|].
    apply live_at_method; [|done|apply keeps_recovery].
    apply live_at_part; [|apply on_env_part, deliver_ready_tick].
    apply live_at_part; [|apply on_rings_part].
    apply live_at_method; [done| |]; [apply live_setc; intros ?; by split|armed_setc]. }
  destruct (state_eqb (state c) LastAck && _)%bool.
  { left. rewrite exec_bind, eval_bind, exec_ret, eval_ret. split; [done|].
    destruct Hlive1 as (Hpok1 & c1 & Hc1 & Hl1). exists (s :: fl). by apply (pok_free full fl p1 s c1). }
  right. rewrite exec_bind, eval_bind, exec_ret, eval_ret. split; [done|].
  apply live_at_method; [done| |].
  - apply live_bind; [|done]. destruct (_ && _)%bool.
    + apply live_setc. intros d. by split.
    + apply live_of_method. method.
  - apply keeps_bind; [|intros; apply keeps_recovery]. keeps_armed.
Qed.

Lemma inv_live full fl s p r : live_at full fl s p -> inv full (exec (rx_live (Z.of_nat s) r) p).
Proof.
  intros Hlive. unfold rx_live. rewrite exec_bind, exec_gets, exec_bind.
  assert (forall p1 st, live_at full fl s p1 -> inv full (exec (on_slot (Z.of_nat s)
    (rx_data r;; rx_fin r;; rx_time_wait r st;; rx_liveness)) p1)) as Hstages.
  { intros p1 st H1. eapply live_at_inv. apply live_at_method; [done|apply live_stages|apply keeps_stages]. }
  destruct (rx_flag r TCP_ACK).
  - destruct (rx_ack_inv full fl s p r Hlive) as [[-> Hinv]|[-> Hlive1]]; [done|by apply Hstages].
  - rewrite exec_ret, eval_ret. by apply Hstages.
Qed.

Lemma lookup_hit full fl p r i :
  pok full fl p -> rx_lookup r p = Some i ->
  exists s c, i = Z.of_nat s /\ conns p !! s = Some c /\ is_live c = true.
Proof.
  intros Hpok. unfold rx_lookup. destruct (tcp_hash_find _ _) as [j|] eqn:E.
  - intros [= <-]. destruct (hash_hit _ _ _ _ _ _ _ Hpok E) as (s & c & ? & ? & ? & _). eauto.
  - intros Hf. destruct (find_slot_Some _ _ _ _ _ Hpok Hf) as (s & c & ? & ? & H).
    apply andb_prop in H as [? _]. eauto.
Qed.

Lemma inv_receive full p src dst seg : inv full p -> inv full (exec (tcp_receive src dst seg) p).
Proof.
  intros Hinv. unfold tcp_receive. destruct (parse_segment src dst seg) as [r|]; [|done].
  unfold rx_segment. destruct (rx_flag r TCP_RST); [by apply inv_rst|].
  destruct (_ && _)%bool; [by apply inv_bare_syn|]. destruct Hinv as [fl Hpok].
  rewrite exec_bind, exec_gets, eval_gets. destruct (rx_lookup r p) as [i|] eqn:E; [|by exists fl].
  destruct (lookup_hit _ _ _ _ _ Hpok E) as (s & c & -> & Hc & Hl).
  rewrite exec_bind, exec_gets, eval_gets, (conn_at_lookup _ _ _ Hc), Hl. cbn [negb].
  assert (live_at full fl s p) as Hlive by (split; eauto).
  destruct (state_eqb _ _); [|by apply (inv_live full fl)].
  eapply live_at_inv. apply live_at_method; [done|apply live_handle_syn_sent|apply keeps_handle_syn_sent].
Qed.

(* ------------------------------------------------------------------ *)
(** ** Opening, listening, accepting *)

(** The active connection before its SYN. *)
Lemma syn_sent_links l r lp rp iss now c : slot_links (syn_sent l r lp rp iss now c) = slot_links c.
Proof. reflexivity. Qed.

Lemma ephemeral_part l r port : preserves pool_part (alloc_ephemeral_port l r port).
Proof.
  intros p. unfold exec, alloc_ephemeral_port. destruct (first_offset _ _ _).
  - cbn [snd]. by destruct (_ <? _).
  - by destruct (first_offset _ _ _).
Qed.

Lemma inv_open full p l r lp port : inv full p -> inv full (exec (open_connection l r lp port) p).
Proof.
  intros [fl Hpok]. unfold open_connection.
  rewrite exec_bind. pose proof (alloc_connection_spec full fl p Hpok) as Ha.
  destruct (eval alloc_connection p) as [i|]; [|exists fl; apply Ha].
  destruct Ha as (s & fl' & -> & Hpok1 & Hfresh & _). set (p1 := exec alloc_connection p) in *.
  rewrite exec_bind. destruct (alloc_ring_spec _ _ _ _ Hpok1 Hfresh) as (Hpok2 & c2 & Hc2 & Hd2).
  destruct Hfresh as [Hs _]. set (p2 := exec (on_slot _ ensure_rx_ring) p1) in *.
  destruct (eval (on_slot _ ensure_rx_ring) p1); cbn [negb].
  2:{ rewrite exec_bind, exec_ret. exists (s :: fl'). by apply (free_connection_spec full fl' _ s c2). }
  rewrite exec_bind. destruct (pok_part full fl' _ p2 (on_env_part _ next_seq_tick) Hpok2) as [Hpok3 Ec].
  rewrite <-Ec in Hc2. set (iss := eval (on_env next_seq) p2).
  set (p3 := exec (on_env next_seq) p2) in *.
  rewrite exec_bind, exec_gets, eval_gets, exec_bind, exec_bind, exec_bind, exec_bind, exec_gets, exec_ret.
  set (c3 := syn_sent l r lp port iss (now_ms (ctx p3)) c2).
  destruct (pok_publish full fl' p3 s c2 c3 (setc (syn_sent l r lp port iss (now_ms (ctx p3))))
    Hpok3 Hc2 Hs Hd2 eq_refl (syn_sent_links _ _ _ _ _ _ _) eq_refl) as [Hpok4 Hc4].
  apply (live_at_inv full fl' s). apply live_at_method.
  - split; [exact Hpok4|]. exists c3. by split.
  - apply live_of_method. method.
  - keeps_armed.
Qed.

Lemma inv_connect full p l r port : inv full p -> inv full (exec (connect_on_core l r port) p).
Proof.
  intros Hinv. unfold connect_on_core. rewrite exec_bind.
  pose proof (inv_part full _ p (ephemeral_part l r port) Hinv) as Hinv1.
  destruct (eval (alloc_ephemeral_port l r port) p) as [lp|]; [by apply inv_open|].
  rewrite exec_ret. exact Hinv1.
Qed.

Lemma inv_listen full p port : inv full p -> inv full (exec (listen_on_core port) p).
Proof.
  intros [fl Hpok]. unfold listen_on_core. rewrite exec_bind.
  pose proof (alloc_connection_spec full fl p Hpok) as Ha.
  destruct (eval alloc_connection p) as [i|]; [|exists fl; apply Ha].
  destruct Ha as (s & fl' & -> & Hpok1 & (Hs & g & c & Hc) & _). exists fl'.
  rewrite exec_bind, exec_bind, exec_modify, exec_bind, exec_gets, exec_ret.
  apply (pok_pool_part _ _ (exec (on_slot (Z.of_nat s)
    (setc (fun c => c |> set_state Listen |> set_local_port port))) (exec alloc_connection p))); [done|].
  rewrite (exec_on_slot_setc s _ _ _ Hc).
  apply (pok_replace full fl' _ s (reset_preserving g c)); try done.
  destruct Hpok1 as (tl & Hp & _). by eapply dead_unhashed.
Qed.

(** Marking a connection accepted. *)
Lemma take_accept_inv full fl s c p :
  pok full fl p -> conns p !! s = Some c -> is_live c = true ->
  inv full (exec (take_accept (Z.of_nat s)) p).
Proof.
  intros Hpok Hc Hl. unfold take_accept. rewrite exec_bind, exec_bind, exec_gets, exec_ret. exists fl.
  eapply pok_live; [done|exact Hc|done| |]; [apply live_of_method; method|keeps_armed].
Qed.

Lemma acceptable_live port c : acceptable port c = true -> is_live c = true.
Proof.
  unfold acceptable, is_live, state_eqb. intros H. apply andb_prop in H as [H _].
  apply andb_prop in H as [H _]. bool_to_prop. by rewrite H.
Qed.

(** The connection a slot index designates, when it designates an acceptable one. *)
Lemma acceptable_slot p port i :
  acceptable port (conn_at i p) = true ->
  exists s, conns p !! s = Some (conn_at i p) /\ Z.to_nat i = s.
Proof.
  unfold conn_at. destruct (conns p !! Z.to_nat i) as [c|] eqn:E; cbn; [eauto|done].
Qed.

Lemma take_accept_nat i p : exec (take_accept i) p = exec (take_accept (Z.of_nat (Z.to_nat i))) p.
Proof.
  unfold take_accept, exec, sbind, gets, sret, on_slot, put_conn, conn_at. by rewrite Nat2Z.id.
Qed.

Lemma inv_accept_loop full port fuel : forall p,
  inv full p -> inv full (exec (accept_loop fuel port) p).
Proof.
  induction fuel as [|fuel IH]; intros p Hp; cbn [accept_loop]; [done|]. rewrite exec_bind.
  pose proof (inv_part full _ p (on_rings_part (accept_ring_pop port)) Hp) as Hp1.
  destruct (eval _ p) as [i|]; [|done]. set (p1 := exec _ p) in *.
  rewrite exec_bind, exec_gets, eval_gets. destruct (acceptable port (conn_at i p1)) eqn:E; [|by apply IH].
  destruct (acceptable_slot _ _ _ E) as (s & Hc & <-). destruct Hp1 as [fl Hpok].
  rewrite take_accept_nat. eapply take_accept_inv; [done|exact Hc|]. by eapply acceptable_live.
Qed.

Lemma inv_accept full p port : inv full p -> inv full (exec (accept_on_port port) p).
Proof.
  intros Hinv. unfold accept_on_port. rewrite exec_bind.
  pose proof (inv_accept_loop full port accept_fuel p Hinv) as Hloop.
  destruct (eval (accept_loop accept_fuel port) p) as [h|]; [done|].
  set (p1 := exec (accept_loop accept_fuel port) p) in *.
  rewrite exec_bind, exec_gets, eval_gets. destruct Hloop as [fl Hpok].
  destruct (find_slot (acceptable port) p1) as [i|] eqn:E; [|by exists fl].
  destruct (find_slot_Some _ _ _ _ _ Hpok E) as (s & c & -> & Hc & Ha).
  eapply take_accept_inv; [done|exact Hc|by eapply acceptable_live].
Qed.

(* ------------------------------------------------------------------ *)
(** ** Socket calls on a slot in use *)

(** The slot exists and is not on the free list. *)
Definition in_use (p : Core) (s : nat) : Prop :=
  (s < length (conns p))%nat /\
  forall fl, linked next_free (conns p) (free_head p) fl -> s ∉ fl.

Lemma in_use_of full fl p s c : pok full fl p -> s ∉ fl -> conns p !! s = Some c -> in_use p s.
Proof.
  intros (tl & Hp & _) Hs Hc. split; [by eapply lookup_lt_Some|]. intros fl' Hl.
  by rewrite (chain_unique _ _ _ _ _ _ _ Hp Hl (po_free _ _ _ Hp)).
Qed.

Lemma in_use_pok full fl p s :
  pok full fl p -> in_use p s -> exists c, conns p !! s = Some c /\ s ∉ fl.
Proof.
  intros (tl & Hp & _) [Hlt Hfl]. destruct (lookup_lt_is_Some_2 _ _ Hlt) as [c Hc].
  exists c. split; [done|]. apply Hfl, Hp.
Qed.

Lemma inv_slot_call {A} full p s (m : St CS A) :
  inv full p -> in_use p s -> method m -> keeps_armed m ->
  inv full (exec (on_slot (Z.of_nat s) m) p).
Proof.
  intros [fl Hpok] Hu Hm Hk. destruct (in_use_pok _ _ _ _ Hpok Hu) as (c & Hc & Hs).
  exists fl. by apply (pok_method full fl s m p c).
Qed.

Lemma inv_close full p s : inv full p -> in_use p s -> inv full (exec (close_slot (Z.of_nat s)) p).
Proof.
  intros [fl Hpok] Hu. destruct (in_use_pok _ _ _ _ Hpok Hu) as (c & Hc & Hs).
  unfold close_slot. rewrite exec_bind, exec_gets, eval_gets, (conn_at_lookup _ _ _ Hc).
  assert (inv full (exec (free_connection (Z.of_nat s)) p)) as Hfree
    by (exists (s :: fl); by apply (free_connection_spec full fl p s c)).
  destruct (state c) eqn:Est; try exact Hfree; exists fl;
    (eapply pok_live; [done|exact Hc| |by apply live_send_fin|apply keeps_send_fin]);
    unfold is_live; by rewrite Est.
Qed.

Lemma inv_path_mtu full p ip rp lp seq mss :
  inv full p -> inv full (exec (note_path_mtu ip rp lp seq mss) p).
Proof.
  intros [fl Hpok]. unfold note_path_mtu. rewrite exec_bind, exec_gets, eval_gets.
  destruct (verified_find ip rp lp p) as [i|] eqn:E; [|by exists fl].
  destruct (verified_hit _ _ _ _ _ _ _ Hpok E) as (s & c & -> & Hc & Hl & _).
  rewrite exec_bind, exec_gets, eval_gets, (conn_at_lookup _ _ _ Hc).
  destruct (_ || _)%bool; [by exists fl|]. destruct (_ <? _); [|by exists fl].
  rewrite exec_bind, exec_ret. exists fl.
  eapply pok_live; [done|exact Hc|done| |]; [apply live_of_method; method|keeps_armed].
Qed.

(** A fresh core. *)
Lemma inv_init full cpu cores x : inv full (core_init cpu cores x).
Proof.
  exists [], []. split; [|intros _ s c Hc; done]. split; cbn; try done; try by apply NoDup_nil.
  - exists 0. done.
  - exists ∅. split; [apply repr_new|]. intros k v Hk. by rewrite lookup_empty in Hk.
Qed.
