(* ===== verification/TickInv.v ===== *)
(** * The armed-timer tick

    [on_tcp_tick] detaches the armed-timer list, walks it slot by slot while it
    rebuilds the list of the slots still armed, and publishes the result.
    [walking] is the invariant of the walk: the slots still to visit and the
    slots re-linked so far are two disjoint chains of flagged slots, and the
    pool is consistent apart from them.

    The walk keeps the pool's invariant whatever fires.  It keeps the list
    complete as long as no connection exhausts its retry budget; the two give-up
    arms end the walk and lose the slots behind them. *)

From S2P Require Import Prelude.
From S2P Require Import NetTypes.
From S2P Require Import TcpTypes.
From S2P Require Import TcpSend.
From S2P Require Import RxRing.
From S2P Require Import Rtx.
From S2P Require Import HashTable.
From S2P Require Import Pool.
From S2P Require Import Receive.
From S2P Require Import Frames.
From S2P Require Import Lifecycle.
From S2P Require Import SlotMethods.
From S2P Require Import PoolInv.
From S2P Require Import EngineInv.

#[local] Open Scope st_scope.

(* ------------------------------------------------------------------ *)
(** ** The walk's invariant *)

(** The slots of [l] carry the list flag. *)
Definition flagged (p : Core) (l : list nat) : Prop :=
  forall s c, s ∈ l -> conns p !! s = Some c -> tick_in_list c = true.

(** [todo] is the chain from [w] still to visit, [dn] the chain from [nh]
    already re-linked. *)
Record walking (full : bool) (fl : list nat) (p : Core) (w : Z) (todo : list nat) (nh : Z)
    (dn : list nat) : Prop := {
  wk_ok : pool_ok p fl [];
  wk_todo : linked tick_next (conns p) w todo;
  wk_done : linked tick_next (conns p) nh dn;
  wk_nodup : NoDup (todo ++ dn);
  wk_flag : flagged p (todo ++ dn);
  wk_armed : forall s c, s ∈ dn -> conns p !! s = Some c -> still_armed c = true;
  wk_full : full = true -> armed_all p (todo ++ dn)
}.

(** Only the slot [s] changed. *)
Definition only_slot (s : nat) (p p' : Core) : Prop :=
  forall t, t <> s -> conns p' !! t = conns p !! t.

Lemma only_slot_refl s p : only_slot s p p.
Proof. done. Qed.

Lemma only_slot_trans s p1 p2 p3 : only_slot s p1 p2 -> only_slot s p2 p3 -> only_slot s p1 p3.
Proof. intros H1 H2 t Ht. by rewrite (H2 t Ht), (H1 t Ht). Qed.

Lemma only_slot_insert s p p' c' : conns p' = <[s := c']> (conns p) -> only_slot s p p'.
Proof. intros E t Ht. by rewrite E, list_lookup_insert_ne. Qed.

Lemma chain_null p fl tl l :
  pool_ok p fl tl -> linked tick_next (conns p) NULL_SLOT l -> l = [].
Proof.
  intros Hp Hl. destruct l as [|t l]; [done|]. destruct Hl as (E & c & Hc & _).
  by destruct (null_not_slot _ _ _ _ _ Hp Hc).
Qed.

(** A slot on one of the two chains is in use. *)
Lemma walking_used full fl p w todo nh dn s c :
  walking full fl p w todo nh dn -> s ∈ todo ++ dn -> conns p !! s = Some c -> s ∉ fl.
Proof.
  intros Hw Hs Hc Hin. pose proof (wk_flag _ _ _ _ _ _ _ Hw s c Hs Hc).
  destruct (po_idle _ _ _ (wk_ok _ _ _ _ _ _ _ Hw) s c Hin Hc). congruence.
Qed.

Lemma walking_head full fl p w s todo nh dn :
  walking full fl p w (s :: todo) nh dn ->
  w = Z.of_nat s /\ exists c, conns p !! s = Some c /\ linked tick_next (conns p) (tick_next c) todo.
Proof. intros Hw. apply (wk_todo _ _ _ _ _ _ _ Hw). Qed.

(** Replacing the connection of a slot still to visit, list fields kept. *)
Lemma walking_replace full fl p p' w todo nh dn s c c' :
  walking full fl p w todo nh dn -> s ∈ todo -> conns p !! s = Some c ->
  pool_ok p' fl [] -> conns p' = <[s := c']> (conns p) ->
  tick_next c' = tick_next c -> tick_in_list c' = tick_in_list c -> (armed_ok c -> armed_ok c') ->
  walking full fl p' w todo nh dn.
Proof.
  intros [Hok Ht Hd Hnd Hf Har Hall] Hs Hc Hp' Ec En El Ha. split; rewrite ?Ec; try done.
  - apply linked_update; [|done]. intros ? _ ?. by simplify_eq.
  - apply linked_update; [|done]. intros ? _ ?. by simplify_eq.
  - intros t d Hin Hd'. rewrite Ec in Hd'. apply lookup_update_Some in Hd' as [[-> ->]|[_ Hd']];
      [|by apply (Hf t)]. rewrite El. by apply (Hf s).
  - intros t d Hin Hd'. rewrite ?Ec in Hd'. apply lookup_update_Some in Hd' as [[-> ->]|[_ Hd']];
      [|by apply (Har t)]. apply NoDup_app in Hnd as (_ & Hdisj & _). by destruct (Hdisj s).
  - intros Hfull t d Hd'. rewrite Ec in Hd'. apply lookup_update_Some in Hd' as [[-> ->]|[_ Hd']];
      [|by apply Hall]. destruct (Hall Hfull s c Hc) as [Hok' Hin]. split; [by apply Ha|]. by rewrite El.
Qed.

(** A method on a slot still to visit. *)
Lemma walking_method {A} full fl p w todo nh dn s c (m : St CS A) :
  walking full fl p w todo nh dn -> s ∈ todo -> conns p !! s = Some c ->
  method m -> keeps_armed m ->
  let p' := exec (on_slot (Z.of_nat s) m) p in
  walking full fl p' w todo nh dn /\ only_slot s p p' /\
  exists c', conns p' !! s = Some c' /\ c' = fst (exec m (c, ctx p)) /\ tick_next c' = tick_next c.
Proof.
  intros Hw Hs Hc Hm Hk p'. pose proof (wk_ok _ _ _ _ _ _ _ Hw) as Hok.
  assert (s ∈ todo ++ dn) as Hs' by (apply elem_of_app; by left).
  pose proof (wk_flag _ _ _ _ _ _ _ Hw s c Hs' Hc) as Hflag.
  pose proof (walking_used _ _ _ _ _ _ _ _ _ Hw Hs' Hc) as Hfl.
  pose proof (on_slot_lookup s m p c Hc) as Hself. fold p' in Hself.
  assert (exec (on_slot (Z.of_nat s) m) p = _) as Ep by apply (exec_on_slot s m p c Hc).
  fold p' in Ep. pose proof (Hm (c, ctx p)) as Hrel. pose proof (Hk (c, ctx p)) as Ha.
  destruct (exec m (c, ctx p)) as [c' x'] eqn:Em. cbn [fst snd] in *.
  destruct (sr_tick _ _ Hrel) as [(En & El & Eh)|(El & _)]; cbn [fst snd] in *; [|congruence].
  destruct (pool_ok_put p fl [] s c c' x' Hok Hc Hfl Hrel) as (tl' & Hp' & _).
  assert (tl' = []) as ->.
  { eapply chain_null; [exact Hp'|]. pose proof (po_tick _ _ _ Hp') as Hl. cbn in Hl.
    pose proof (po_tick _ _ _ Hok) as Hnull. simpl in Hnull. rewrite Eh, Hnull in Hl. exact Hl. }
  rewrite <-Ep in Hp'.
  assert (conns p' = <[s := c']> (conns p)) as Ec by (rewrite Ep, put_conn_nat; done).
  split; [by apply (walking_replace full fl p p' w todo nh dn s c c')|].
  split; [by eapply only_slot_insert|]. exists c'. done.
Qed.

(** Releasing the slot being visited. *)
Lemma walking_free full fl p s todo nh dn c :
  walking full fl p (Z.of_nat s) (s :: todo) nh dn -> conns p !! s = Some c ->
  let p' := exec (free_connection (Z.of_nat s)) p in
  walking full (s :: fl) p' (tick_next c) todo nh dn /\ only_slot s p p' /\
  exists n, conns p' !! s = Some (set_next_free n (reset_preserving (w16 (generation c + 1)) c)).
Proof.
  intros Hw Hc p'. pose proof Hw as [Hok Ht Hd Hnd Hf Har Hall].
  assert (s ∈ (s :: todo) ++ dn) as Hs by left.
  pose proof (walking_used _ _ _ _ _ _ _ _ _ Hw Hs Hc) as Hfl.
  assert (pok false fl p) as Hpok by (by exists []).
  destruct (free_connection_spec false fl p s c Hpok Hc Hfl) as [(tl & Hp' & _) Hfd].
  fold p' in Hp', Hfd. destruct Hfd as [_ [n Hn] _ Hdet].
  destruct (Hdet (po_tick _ _ _ Hok)) as [Hnull Hframe].
  assert (tl = []) as -> by (eapply chain_null; [exact Hp'|]; rewrite <-Hnull; apply Hp').
  apply NoDup_cons in Hnd as [Hout Hnd]. destruct Ht as (_ & c0 & Hc0 & Ht).
  replace c0 with c in * by congruence.
  assert (forall t d, t ∈ todo ++ dn -> conns p !! t = Some d -> conns p' !! t = Some d) as Hkeep.
  { intros t d Hin Hd'. rewrite Hframe; [done|]. by intros ->. }
  split; [|split; [done|by exists n]]. split; try done.
  - revert Ht. apply linked_frame. intros t d Hin Hd'. exists d. split; [|done].
    apply Hkeep; [|done]. apply elem_of_app. by left.
  - revert Hd. apply linked_frame. intros t d Hin Hd'. exists d. split; [|done].
    apply Hkeep; [|done]. apply elem_of_app. by right.
  - intros t d Hin Hd'. rewrite Hframe in Hd' by (by intros ->). apply (Hf t); [by right|done].
  - intros t d Hin Hd'. apply (Har t); [done|]. rewrite <-Hframe; [done|]. intros ->.
    apply Hout, elem_of_app. by right.
  - intros Hfull t d Hd'. destruct (decide (t = s)) as [->|Hne]; [by simplify_eq|].
    rewrite Hframe in Hd' by done. destruct (Hall Hfull t d Hd') as [? Hin]. split; [done|].
    intros Hl. specialize (Hin Hl). apply elem_of_cons in Hin as [?|?]; done.
Qed.

(* ------------------------------------------------------------------ *)
(** ** One slot *)

(** The slot has spent its retransmission or probe budget at [now]. *)
Definition rtx_spent (now : Z) (c : TcpConnection) : bool :=
  due (rtx_deadline_ms c) now && (RTX_MAX_RETRIES <=? rtx_backoff c).
Definition persist_spent (now : Z) (c : TcpConnection) : bool :=
  due (persist_deadline_ms c) now && state_eqb (state c) Established &&
  (PERSIST_MAX_PROBES <=? persist_backoff c).
Definition gives_up (now : Z) (c : TcpConnection) : bool := rtx_spent now c || persist_spent now c.

(** While the list is detached, a slot's list fields are free. *)
Lemma pool_ok_detached p fl s c c' :
  pool_ok p fl [] -> conns p !! s = Some c -> s ∉ fl ->
  slot_id c' = slot_id c -> state c' = state c -> pool_ok (put_conn (Z.of_nat s) c' p) fl [].
Proof.
  intros Hok Hc Hfl Eid Est. pose proof (slot_id_key _ _ Eid) as Ekey.
  assert (slot_index c' = slot_index c /\ next_free c' = next_free c) as [E1 E2]
    by (unfold slot_id in Eid; split; congruence).
  rewrite put_conn_nat. destruct Hok. split; cbn; try done.
  - destruct po_size as (n & E & ?). exists n. split; [|done]. unfold zlen in *. by rewrite length_insert.
  - intros t d Hd'. apply lookup_update_Some in Hd' as [[-> ->]|[_ Hd']]; [|by apply po_index].
    rewrite E1. by apply po_index.
  - by apply linked_update.
  - intros t d Hin Hd'. apply lookup_update_Some in Hd' as [[-> ->]|[_ Hd']]; [done|by apply (po_idle t)].
  - intros t d Hin Hd'. apply lookup_update_Some in Hd' as [[-> ->]|[_ Hd']]; [|by apply (po_used t)].
    rewrite E2. by apply (po_used s).
  - intros t d Hin. by apply not_elem_of_nil in Hin.
  - destruct po_hash as (m & Hr & Hm). exists m. split; [done|].
    apply (hash_sound_update _ _ _ c); [done| |done]. intros Hl. by rewrite (is_live_state c c').
Qed.

Lemma linked_outside cs h l s c' :
  s ∉ l -> linked tick_next cs h l -> linked tick_next (<[s := c']> cs) h l.
Proof. intros Hs. apply linked_update. intros ? Hin. done. Qed.

(** The visited slot goes in front of the rebuilt list. *)
Lemma walking_relink full fl p s todo nh dn c :
  walking full fl p (Z.of_nat s) (s :: todo) nh dn -> conns p !! s = Some c -> still_armed c = true ->
  walking full fl (put_conn (Z.of_nat s) (set_tick_next nh c) p) (tick_next c) todo (Z.of_nat s) (s :: dn).
Proof.
  intros Hw Hc Harm. pose proof Hw as [Hok Ht Hd Hnd Hf Har Hall].
  pose proof (walking_used _ _ _ _ _ _ _ s c Hw ltac:(left) Hc) as Hfl.
  pose proof Hnd as Hnd'. apply NoDup_cons in Hnd' as [Hout _]. rewrite elem_of_app in Hout.
  destruct Ht as (_ & c0 & Hc0 & Ht). replace c0 with c in Ht by congruence.
  split; rewrite ?put_conn_nat; cbn [conns set_conns].
  - rewrite <-put_conn_nat. by apply (pool_ok_detached p fl s c).
  - apply linked_outside; tauto.
  - split; [done|]. eexists. split; [apply list_lookup_insert_eq; by eapply lookup_lt_Some|].
    apply linked_outside; tauto.
  - by rewrite <-Permutation_middle.
  - intros t d Hin Hd'. cbn in Hd'. apply lookup_update_Some in Hd' as [[-> ->]|[Hne Hd']].
    + apply (Hf s c); [left|done].
    + apply (Hf t d); [|done]. by rewrite <-Permutation_middle in Hin.
  - intros t d Hin Hd'. cbn in Hd'. apply lookup_update_Some in Hd' as [[-> ->]|[Hne Hd']]; [exact Harm|].
    apply elem_of_cons in Hin as [?|Hin]; [done|]. by apply (Har t).
  - intros Hfull t d Hd'. cbn in Hd'. rewrite <-Permutation_middle.
    apply lookup_update_Some in Hd' as [[-> ->]|[Hne Hd']]; [exact (Hall Hfull s c Hc)|by apply Hall].
Qed.

(** The visited slot has no deadline left and is dropped. *)
Lemma walking_drop full fl p s todo nh dn c :
  walking full fl p (Z.of_nat s) (s :: todo) nh dn -> conns p !! s = Some c -> still_armed c = false ->
  walking full fl (put_conn (Z.of_nat s) (set_tick_in_list false c) p) (tick_next c) todo nh dn.
Proof.
  intros Hw Hc Harm. pose proof Hw as [Hok Ht Hd Hnd Hf Har Hall].
  pose proof (walking_used _ _ _ _ _ _ _ s c Hw ltac:(left) Hc) as Hfl.
  apply NoDup_cons in Hnd as [Hout Hnd]. rewrite elem_of_app in Hout.
  destruct Ht as (_ & c0 & Hc0 & Ht). replace c0 with c in Ht by congruence.
  split; rewrite ?put_conn_nat; cbn [conns set_conns]; try done.
  - rewrite <-put_conn_nat. by apply (pool_ok_detached p fl s c).
  - apply linked_outside; tauto.
  - apply linked_outside; tauto.
  - intros t d Hin Hd'. cbn in Hd'. apply lookup_update_Some in Hd' as [[-> ->]|[Hne Hd']].
    + rewrite elem_of_app in Hin. tauto.
    + apply (Hf t d); [by right|done].
  - intros t d Hin Hd'. cbn in Hd'. apply lookup_update_Some in Hd' as [[-> ->]|[_ Hd']]; [tauto|].
    by apply (Har t).
  - intros Hfull t d Hd'. cbn in Hd'. apply lookup_update_Some in Hd' as [[-> ->]|[Hne Hd']].
    + split; [|done]. intros E. unfold still_armed in *. cbn in E. congruence.
    + destruct (Hall Hfull t d Hd') as [? Hin]. split; [done|]. intros Hl. specialize (Hin Hl).
      by apply elem_of_cons in Hin as [?|?].
Qed.

(** [fail_connect] assigns its slot only, and none of its list fields. *)
Lemma fail_connect_effect p s c failure :
  conns p !! s = Some c ->
  let p' := exec (fail_connect (Z.of_nat s) failure) p in
  exists c', conns p' = <[s := c']> (conns p) /\ tick_head (ctx p') = tick_head (ctx p) /\
    tick_next c' = tick_next c /\ tick_in_list c' = tick_in_list c /\ (armed_ok c -> armed_ok c').
Proof.
  intros Hc p'. unfold p', fail_connect.
  rewrite exec_bind, exec_gets, eval_gets, exec_bind, exec_modify, (conn_at_lookup _ _ _ Hc).
  match goal with |- context [on_slot _ ?m] => set (body := m) end.
  set (p1 := set_hash _ p). rewrite (proj1 (exec_on_slot s body p1 c Hc)), put_conn_nat. eexists.
  split; [reflexivity|]. cbn [ctx set_ctx set_conns p1 set_hash].
  assert (keeps_armed body) as Hk by (unfold body; keeps_armed).
  assert (tick_rel (c, ctx p) (exec body (c, ctx p)) /\
    tick_in_list (fst (exec body (c, ctx p))) = tick_in_list c) as [Ht El].
  { unfold body. rewrite exec_bind, exec_setc. cbn [fst snd].
    unfold exec, sbind, wake_recv, wake_send. cbn.
    destruct (send_waker c); cbn; destruct (recv_waker c); cbn; split; try done; by left. }
  destruct Ht as [(En & _ & Eh)|(E1 & E2 & _)]; cbn [fst snd] in *; [|congruence].
  repeat split; try done. exact (Hk (c, ctx p)).
Qed.

Section Slot.
Context (full : bool) (now nh : Z) (s : nat) (todo dn : list nat).
Implicit Types (p : Core) (fl : list nat) (c : TcpConnection).

(** The slot being visited holds [c], with its successor [next]. *)
Definition visiting (fl : list nat) (p : Core) (c : TcpConnection) (next : Z) : Prop :=
  walking full fl p (Z.of_nat s) (s :: todo) nh dn /\ conns p !! s = Some c /\ tick_next c = next.

(** The slot was released and the walk goes on behind it. *)
Definition passed (fl : list nat) (p : Core) (next : Z) : Prop :=
  walking full fl p next todo nh dn /\
  exists c, conns p !! s = Some c /\ still_armed c = false /\ tick_in_list c = false /\
    tick_next c = NULL_SLOT.

Lemma visiting_method {A} fl p c next (m : St CS A) :
  visiting fl p c next -> method m -> keeps_armed m ->
  let p' := exec (on_slot (Z.of_nat s) m) p in
  visiting fl p' (fst (exec m (c, ctx p))) next /\ only_slot s p p'.
Proof.
  intros (Hw & Hc & <-) Hm Hk.
  destruct (walking_method _ _ _ _ _ _ _ s c m Hw ltac:(left) Hc Hm Hk) as (Hw' & Ho & c' & Hc' & -> & En).
  done.
Qed.

Lemma visiting_free fl p c next :
  visiting fl p c next ->
  let p' := exec (free_connection (Z.of_nat s)) p in
  passed (s :: fl) p' next /\ only_slot s p p'.
Proof.
  intros (Hw & Hc & <-). destruct (walking_free _ _ _ _ _ _ _ c Hw Hc) as (Hw' & Ho & n & Hn).
  split; [|done]. split; [done|]. eexists. by split.
Qed.

Lemma tick_rtx_spec fl p c next :
  visiting fl p c next ->
  eval (tick_rtx (Z.of_nat s) now) p = rtx_spent now c /\
  exists c', visiting fl (exec (tick_rtx (Z.of_nat s) now) p) c' next /\
    only_slot s p (exec (tick_rtx (Z.of_nat s) now) p) /\ persist_spent now c' = persist_spent now c.
Proof.
  intros Hv. pose proof Hv as (_ & Hc & _). unfold tick_rtx.
  rewrite exec_bind, eval_bind, exec_gets, eval_gets, (conn_at_lookup _ _ _ Hc).
  fold (rtx_spent now c). destruct (rtx_spent now c).
  { rewrite eval_ret, exec_ret. split; [done|]. by exists c. }
  rewrite exec_bind, eval_bind, eval_ret, exec_ret. split; [done|].
  match goal with |- context [on_slot _ ?m] =>
    assert (preserves quiet_view m) as Hpv by preserve_cs;
    destruct (visiting_method fl p c next m Hv) as [Hv' Ho]; [method|keeps_armed|] end.
  eexists. split; [exact Hv'|]. split; [done|]. specialize (Hpv (c, ctx p)).
  unfold quiet_view, conn_view, sync_view, persist_view in Hpv. rewrite !pair_equal_spec in Hpv.
  destruct Hpv as [[[[[E1 _] _] _] _] [E2 E3]]. cbn [fst] in *. unfold persist_spent. by rewrite E1, E2, E3.
Qed.

Lemma tick_persist_spec fl p c next :
  visiting fl p c next ->
  eval (tick_persist (Z.of_nat s) now) p = persist_spent now c /\
  exists c', visiting fl (exec (tick_persist (Z.of_nat s) now) p) c' next /\
    only_slot s p (exec (tick_persist (Z.of_nat s) now) p).
Proof.
  intros Hv. pose proof Hv as (_ & Hc & _). unfold tick_persist, persist_spent.
  rewrite exec_bind, eval_bind, exec_gets, eval_gets, (conn_at_lookup _ _ _ Hc).
  destruct (due _ now); cbn [andb]; [|rewrite eval_ret, exec_ret; split; [done|by exists c]].
  destruct (state_eqb _ _); cbn [andb]; [destruct (_ <=? _)|];
    rewrite ?exec_bind, ?eval_bind, eval_ret, exec_ret; (split; [done|]); [by exists c|..];
    eexists; (eapply visiting_method; [done|method|keeps_armed]).
Qed.

(** A failed active open keeps its slot and its list fields. *)
Lemma visiting_fail fl p c next failure :
  visiting fl p c next -> is_live c = true ->
  let p' := exec (fail_connect (Z.of_nat s) failure) p in
  (exists c', visiting fl p' c' next) /\ only_slot s p p'.
Proof.
  intros (Hw & Hc & <-) Hl p'.
  assert (pok false fl p) as Hpok by (exists []; by split; [apply Hw|]).
  destruct (pok_fail_connect false fl p s c failure Hpok Hc Hl) as (tl & Hp' & _). fold p' in Hp'.
  destruct (fail_connect_effect p s c failure Hc) as (c' & Ec & Eh & En & El & Ha). fold p' in Ec, Eh.
  assert (tl = []) as ->.
  { eapply chain_null; [exact Hp'|]. pose proof (po_tick _ _ _ (wk_ok _ _ _ _ _ _ _ Hw)) as Hnull.
    simpl in Hnull. rewrite <-Hnull, <-Eh. apply Hp'. }
  split; [|by eapply only_slot_insert]. exists c'. split; [|split; [|done]].
  - apply (walking_replace full fl p p' _ _ _ _ s c c'); try done. left.
  - rewrite Ec. apply list_lookup_insert_eq. by eapply lookup_lt_Some.
Qed.

Lemma tick_lifecycle_spec fl p c next :
  visiting fl p c next ->
  let p' := exec (tick_lifecycle (Z.of_nat s) now) p in
  only_slot s p p' /\
  ((exists c', visiting fl p' c' next) \/ passed (s :: fl) p' next).
Proof.
  intros Hv. pose proof Hv as (_ & Hc & _). unfold tick_lifecycle.
  rewrite exec_bind, exec_gets, eval_gets, (conn_at_lookup _ _ _ Hc).
  assert (forall m : St CS unit, method m -> keeps_armed m ->
    let p' := exec (on_slot (Z.of_nat s) m) p in
    only_slot s p p' /\ ((exists c', visiting fl p' c' next) \/ passed (s :: fl) p' next)) as Hm.
  { intros m Hm Hk. destruct (visiting_method fl p c next m Hv Hm Hk) as [Hv' Ho].
    split; [done|]. left. by eexists. }
  destruct (visiting_free fl p c next Hv) as [Hfree Hofree].
  destruct (due _ now); [|split; [done|left; by exists c]].
  destruct (state c) eqn:Est; try (apply Hm; [method|keeps_armed]);
    try (destruct (_ <=? _)); try (apply Hm; [method|keeps_armed]); try by (split; [|right]).
  destruct (visiting_fail fl p c next TimedOut Hv) as [Hv' Ho]; [unfold is_live; by rewrite Est|].
  split; [done|by left].
Qed.

(** Re-linking or dropping the visited slot. *)
Lemma tick_relink_visiting fl p c next :
  visiting fl p c next ->
  let p' := exec (tick_relink (Z.of_nat s) nh) p in
  only_slot s p p' /\
  exists dn', walking full fl p' next todo (eval (tick_relink (Z.of_nat s) nh) p) dn'.
Proof.
  intros (Hw & Hc & <-). unfold tick_relink.
  rewrite exec_bind, eval_bind, exec_gets, eval_gets, (conn_at_lookup _ _ _ Hc).
  destruct (still_armed c) eqn:Earm;
    rewrite exec_bind, eval_bind, eval_ret, exec_ret, (exec_on_slot_setc s _ p c Hc);
    (split; [by rewrite put_conn_nat; eapply only_slot_insert|]).
  - exists (s :: dn). by apply walking_relink.
  - exists dn. by apply walking_drop.
Qed.

(** On a released slot it changes nothing. *)
Lemma tick_relink_passed fl p next :
  passed fl p next ->
  eval (tick_relink (Z.of_nat s) nh) p = nh /\ exec (tick_relink (Z.of_nat s) nh) p = p.
Proof.
  intros (_ & c & Hc & Harm & Hl & _). unfold tick_relink.
  rewrite exec_bind, eval_bind, exec_gets, eval_gets, (conn_at_lookup _ _ _ Hc), Harm.
  rewrite exec_bind, eval_bind, eval_ret, exec_ret. split; [done|].
  rewrite (exec_on_slot_setc s _ p c Hc), put_conn_nat.
  replace (set_tick_in_list false c) with c by (destruct c; cbn in Hl; by rewrite Hl).
  rewrite list_insert_id by done. by destruct p.
Qed.

(** The walk's step on [s]: it goes on behind [s], or [s] gave up, was released
    and is visited again. *)
Lemma tick_slot_spec fl p c next :
  visiting fl p c next ->
  let r := eval (tick_slot now (Z.of_nat s) nh) p in
  let p' := exec (tick_slot now (Z.of_nat s) nh) p in
  only_slot s p p' /\
  if gives_up now c then r = (Z.of_nat s, nh) /\ passed (s :: fl) p' next
  else fst r = next /\ exists fl' dn', walking full fl' p' next todo (snd r) dn'.
Proof.
  intros Hv. pose proof Hv as (_ & Hc & En). unfold tick_slot, gives_up.
  rewrite exec_bind, eval_bind, exec_gets, eval_gets, (conn_at_lookup _ _ _ Hc), En.
  rewrite exec_bind, eval_bind. destruct (tick_rtx_spec fl p c next Hv) as (-> & c1 & Hv1 & Ho1 & Eps).
  set (p1 := exec (tick_rtx _ _) p) in *. destruct (rtx_spent now c); cbn [orb].
  { destruct (visiting_free _ _ _ _ Hv1) as [Hpass Ho].
    rewrite exec_bind, eval_bind, eval_ret, exec_ret. split; [by eapply only_slot_trans|done]. }
  rewrite exec_bind, eval_bind.
  destruct (tick_persist_spec fl p1 c1 next Hv1) as (-> & c2 & Hv2 & Ho2). rewrite Eps.
  set (p2 := exec (tick_persist _ _) p1) in *.
  pose proof (only_slot_trans _ _ _ _ Ho1 Ho2) as Ho12. destruct (persist_spent now c).
  { destruct (visiting_free _ _ _ _ Hv2) as [Hpass Ho].
    rewrite exec_bind, eval_bind, eval_ret, exec_ret. split; [by eapply only_slot_trans|done]. }
  rewrite exec_bind, eval_bind. destruct (tick_lifecycle_spec fl p2 c2 next Hv2) as [Ho3 Hcases].
  set (p3 := exec (tick_lifecycle _ _) p2) in *.
  pose proof (only_slot_trans _ _ _ _ Ho12 Ho3) as Ho13.
  rewrite exec_bind, eval_bind, exec_ret, eval_ret. cbn [fst snd].
  destruct Hcases as [[c3 Hv3]|Hpass].
  - destruct (tick_relink_visiting _ _ _ _ Hv3) as (Ho4 & dn' & Hw').
    split; [by eapply only_slot_trans|]. split; [done|]. eauto.
  - destruct (tick_relink_passed _ _ _ Hpass) as [-> ->]. split; [done|]. split; [done|].
    exists (s :: fl), dn. apply Hpass.
Qed.

(** Visiting the released slot again ends the walk. *)
Lemma tick_slot_again fl p next :
  passed fl p next -> tick_slot now (Z.of_nat s) nh p = ((NULL_SLOT, nh), p).
Proof.
  intros Hpass. pose proof Hpass as (_ & c & Hc & Harm & Hl & En).
  assert (forall d, due 0 d = false) as Hdue by done.
  unfold still_armed in Harm. rewrite !orb_false_iff, !negb_false_iff in Harm.
  destruct Harm as [[[[E1 E2] E3] E4] E5]. bool_to_prop.
  assert (conn_at (Z.of_nat s) p = c) as Hat by by apply conn_at_lookup.
  assert (forall m : St CS unit, m (c, ctx p) = (tt, (c, ctx p)) ->
    on_slot (Z.of_nat s) m p = (tt, p)) as Hnop.
  { intros m Hm. unfold on_slot. rewrite Hat, Hm, put_conn_nat, list_insert_id by done. by destruct p. }
  assert (tick_rtx (Z.of_nat s) now p = (false, p)) as H1.
  { unfold tick_rtx, sbind at 1, gets. rewrite Hat, E1, E2, !Hdue. cbn [andb].
    unfold sbind at 1. rewrite Hnop; [done|].
    unfold sbind, getc, swhen, sret. cbn [fst snd]. unfold id. by rewrite E3, Hdue. }
  assert (tick_persist (Z.of_nat s) now p = (false, p)) as H2
    by (unfold tick_persist, sbind, gets; by rewrite Hat, E4, Hdue).
  assert (tick_lifecycle (Z.of_nat s) now p = (tt, p)) as H3
    by (unfold tick_lifecycle, sbind, gets; by rewrite Hat, E5, Hdue).
  destruct (tick_relink_passed _ _ _ Hpass) as [H4 H5].
  unfold tick_slot, sbind, gets. rewrite H1, H2, H3, (run_eta (tick_relink _ _)), H4, H5, Hat, En. done.
Qed.

End Slot.

(* ------------------------------------------------------------------ *)
(** ** The whole walk *)

(** A slot that gave up ends the walk: its successors are not visited. *)
Lemma tick_walk_gives_up full fl p now nh s todo dn c fuel :
  walking full fl p (Z.of_nat s) (s :: todo) nh dn -> conns p !! s = Some c -> gives_up now c = true ->
  (2 < fuel)%nat ->
  tick_walk fuel now (Z.of_nat s) nh p = (nh, exec (tick_slot now (Z.of_nat s) nh) p) /\
  passed full nh s todo dn (s :: fl) (exec (tick_slot now (Z.of_nat s) nh) p) (tick_next c) /\
  only_slot s p (exec (tick_slot now (Z.of_nat s) nh) p).
Proof.
  intros Hw Hc Hg Hfuel. destruct fuel as [|[|[|fuel]]]; try lia. clear Hfuel.
  pose proof (tick_slot_spec full now nh s todo dn fl p c (tick_next c) ltac:(done)) as [Ho H].
  rewrite Hg in H. destruct H as [Er Hpass]. split; [|done]. set (p' := exec _ p) in *.
  pose proof (null_not_slot _ _ _ _ _ (wk_ok _ _ _ _ _ _ _ Hw) Hc) as Hnull. apply Z.eqb_neq in Hnull.
  cbn [tick_walk]. rewrite Hnull. unfold sbind at 1.
  rewrite run_eta, Er. fold p'. cbn [fst snd]. rewrite Hnull. unfold sbind.
  by rewrite (tick_slot_again _ _ _ _ _ _ _ _ _ Hpass).
Qed.

Lemma tick_walk_spec full now todo : forall fuel fl p w nh dn,
  walking full fl p w todo nh dn -> (2 * length todo < fuel)%nat ->
  (full = true -> forall t c, t ∈ todo -> conns p !! t = Some c -> gives_up now c = false) ->
  exists fl' dn', walking full fl' (exec (tick_walk fuel now w nh) p) NULL_SLOT []
    (eval (tick_walk fuel now w nh) p) dn'.
Proof.
  induction todo as [|s todo IH]; intros fuel fl p w nh dn Hw Hfuel Hno;
    (destruct fuel as [|fuel]; [lia|]); cbn [tick_walk].
  { pose proof (wk_todo _ _ _ _ _ _ _ Hw) as Hnull. simpl in Hnull. subst w.
    rewrite Z.eqb_refl, exec_ret, eval_ret. by exists fl, dn. }
  destruct (walking_head _ _ _ _ _ _ _ _ Hw) as (-> & c & Hc & _).
  destruct (gives_up now c) eqn:Hg.
  - destruct full; [rewrite (Hno eq_refl s c) in Hg by (done || left); done|].
    destruct (tick_walk_gives_up _ _ _ now _ _ _ _ _ (S fuel) Hw Hc Hg) as (Er & (Hw' & _) & _);
      [cbn [length] in Hfuel; lia|].
    cbn [tick_walk] in Er. unfold exec, eval. rewrite Er. cbn [fst snd]. exists (s :: fl), dn.
    destruct Hw' as [Hok Ht Hd Hnd Hf Har Hall]. split; try done.
    + by apply NoDup_app in Hnd as (_ & _ & ?).
    + intros t d Hin. apply Hf. apply elem_of_app. by right.
  - pose proof (null_not_slot _ _ _ _ _ (wk_ok _ _ _ _ _ _ _ Hw) Hc) as Hnull. apply Z.eqb_neq in Hnull.
    rewrite Hnull, exec_bind, eval_bind.
    destruct (tick_slot_spec full now nh s todo dn fl p c (tick_next c) ltac:(done)) as [Ho H].
    rewrite Hg in H. destruct H as (-> & fl' & dn' & Hw').
    apply (IH fuel fl' _ _ _ dn' Hw'); [cbn [length] in Hfuel; lia|].
    intros Hfull t d Ht Hd. apply (Hno Hfull t d); [by right|]. rewrite <-Hd. symmetry. apply Ho.
    intros ->. pose proof (wk_nodup _ _ _ _ _ _ _ Hw) as Hnd. apply NoDup_cons in Hnd as [Hout _].
    apply Hout, elem_of_app. by left.
Qed.

(** Detaching the list starts the walk. *)
Lemma walking_start full fl p tl :
  pool_ok p fl tl -> (full = true -> armed_all p tl) ->
  walking full fl (put_tick_head NULL_SLOT p) (tick_head (ctx p)) tl NULL_SLOT [].
Proof.
  intros [] Hall. split; rewrite ?app_nil_r; try done.
  - split; cbn; try done; [by apply NoDup_nil|]. intros s c Hs. by apply not_elem_of_nil in Hs.
  - intros s c Hs. by apply not_elem_of_nil in Hs.
Qed.

(** Publishing the rebuilt list ends it. *)
Lemma walking_end full fl p nh dn :
  walking full fl p NULL_SLOT [] nh dn -> pok full fl (exec (tick_head_publish nh) p).
Proof.
  intros [Hok _ Hd Hnd Hf _ Hall]. pose proof (po_tick _ _ _ Hok) as Hnull. simpl in Hnull.
  unfold exec, tick_head_publish. rewrite Hnull, Z.eqb_refl. cbn [snd]. exists dn. split; [|done].
  destruct Hok. by split.
Qed.

Lemma armed_length p fl tl : pool_ok p fl tl -> (length tl <= length (conns p))%nat.
Proof.
  intros Hp. apply NoDup_bound; [apply Hp|]. intros t Ht.
  destruct (linked_elem _ _ _ _ t (po_tick _ _ _ Hp) Ht) as [d Hd]. by eapply lookup_lt_Some.
Qed.

(** The tick as its walk. *)
Lemma tick_run full p fl tl :
  pool_ok p fl tl -> (full = true -> armed_all p tl) ->
  (full = true -> forall t c, conns p !! t = Some c -> gives_up (now_ms (ctx p)) c = false) ->
  exists p1 fl' nh dn, walking full fl' p1 NULL_SLOT [] nh dn /\
    exec on_tcp_tick p = exec (tick_head_publish nh) p1.
Proof.
  intros Hok Hall Hno. unfold on_tcp_tick.
  rewrite exec_bind, exec_gets, eval_gets, exec_bind. set (now := now_ms (ctx p)) in *.
  change (exec tick_head_take p) with (put_tick_head NULL_SLOT p).
  change (eval tick_head_take p) with (tick_head (ctx p)).
  rewrite exec_bind, exec_gets, eval_gets, exec_bind.
  pose proof (walking_start full fl p tl Hok Hall) as Hw. pose proof (armed_length _ _ _ Hok) as Hlen.
  destruct (tick_walk_spec full now tl (2 * length (conns p) + 1) _ _ _ _ _ Hw) as (fl' & dn & Hend).
  - lia.
  - intros Hf t c _. by apply Hno.
  - by eexists _, fl', _, dn.
Qed.

Lemma tick_inv full p :
  inv full p ->
  (full = true -> forall t c, conns p !! t = Some c -> gives_up (now_ms (ctx p)) c = false) ->
  inv full (exec on_tcp_tick p).
Proof.
  intros (fl & tl & Hok & Hall) Hno.
  destruct (tick_run full p fl tl Hok Hall Hno) as (p1 & fl' & nh & dn & Hw & ->).
  exists fl'. by eapply walking_end.
Qed.

(** The list after a tick is the set of armed slots. *)
Lemma tick_exact p :
  inv true p ->
  (forall s c, conns p !! s = Some c -> gives_up (now_ms (ctx p)) c = false) ->
  let p' := exec on_tcp_tick p in
  exists fl tl, pool_ok p' fl tl /\
    forall s, s ∈ tl <-> exists c, conns p' !! s = Some c /\ still_armed c = true.
Proof.
  intros (fl & tl & Hok & Hall) Hno p'. unfold p'.
  destruct (tick_run true p fl tl Hok Hall (fun _ => Hno)) as (p1 & fl' & nh & dn & Hw & ->).
  destruct (walking_end _ _ _ _ _ Hw) as (tl' & Hok' & _).
  assert (exec (tick_head_publish nh) p1 = put_tick_head nh p1) as E.
  { pose proof (po_tick _ _ _ (wk_ok _ _ _ _ _ _ _ Hw)) as Hnull. simpl in Hnull.
    unfold exec, tick_head_publish. by rewrite Hnull, Z.eqb_refl. }
  rewrite E in *. exists fl', tl'. split; [done|].
  destruct Hw as [_ _ Hd _ _ Har Hfull].
  replace tl' with dn by (eapply chain_unique; [exact Hok'|exact Hd|apply Hok']). intros s. split.
  - intros Hs. destruct (linked_elem _ _ _ _ s Hd Hs) as [c Hc]. exists c. split; [done|]. by apply (Har s).
  - intros (c & Hc & Ha). destruct (Hfull eq_refl s c Hc) as [Hk Hin]. apply Hin, Hk, Ha.
Qed.

(* ------------------------------------------------------------------ *)
(** ** Properties *)

Lemma has_armed_list p fl tl : pool_ok p fl tl -> has_armed_timers p = true <-> exists s, s ∈ tl.
Proof.
  intros Hp. pose proof (po_tick _ _ _ Hp) as Hl. unfold has_armed_timers, tick_head_get.
  destruct tl as [|s tl].
  - simpl in Hl. rewrite Hl. split; [done|]. intros [s Hs]. by apply not_elem_of_nil in Hs.
  - destruct Hl as (-> & c & Hc & _). pose proof (null_not_slot _ _ _ _ _ Hp Hc) as Hn.
    apply Z.eqb_neq in Hn. rewrite Hn. split; [|done]. intros _. exists s. left.
Qed.

(** The list holds every armed slot before a tick in which no connection gives up:
    then it holds exactly them after it. *)
Lemma tick_list_exact p :
  inv true p ->
  (forall s c, conns p !! s = Some c -> gives_up (now_ms (ctx p)) c = false) ->
  let p' := exec on_tcp_tick p in
  inv true p' /\
  (exists tl, linked tick_next (conns p') (tick_head (ctx p')) tl /\ NoDup tl /\
    forall s, s ∈ tl <-> exists c, conns p' !! s = Some c /\ still_armed c = true) /\
  (has_armed_timers p' = true <-> exists s c, conns p' !! s = Some c /\ still_armed c = true).
Proof.
  intros Hinv Hno p'. split; [by apply tick_inv|].
  destruct (tick_exact p Hinv Hno) as (fl & tl & Hok & Hiff). fold p' in Hok, Hiff.
  split; [exists tl; split; [|split]; by try apply Hok|].
  rewrite (has_armed_list _ _ _ Hok). split.
  - intros [s Hs]. apply Hiff in Hs as [c ?]. by exists s, c.
  - intros (s & c & ? & ?). exists s. apply Hiff. by exists c.
Qed.

(** C29: when the connection at the front of the list has spent its retry budget,
    the tick ends there: every slot behind it keeps its deadlines and its list
    flag but is on no list, the core reports no armed timer, and [arm_for_tick]
    never links such a slot again. *)
Theorem tick_give_up_strands_timers p s todo c t d :
  inv false p -> linked tick_next (conns p) (tick_head (ctx p)) (s :: todo) ->
  conns p !! s = Some c -> gives_up (now_ms (ctx p)) c = true ->
  t ∈ todo -> conns p !! t = Some d ->
  let p' := exec on_tcp_tick p in
  conns p' !! t = Some d /\ tick_in_list d = true /\ has_armed_timers p' = false /\
  forall x, exec arm_for_tick (d, x) = (d, x).
Proof.
  intros (fl & tl & Hok & _) Hl Hc Hg Ht Hd p'.
  replace tl with (s :: todo) in * by (eapply chain_unique; [exact Hok|exact Hl|apply Hok]).
  assert (tick_in_list d = true) as Hflag by (apply (po_armed _ _ _ Hok t); [by right|done]).
  pose proof (walking_start false fl p _ Hok ltac:(done)) as Hw. destruct Hl as (Eh & _).
  rewrite Eh in Hw.
  destruct (tick_walk_gives_up _ _ _ _ _ _ _ _ c (2 * length (conns p) + 1) Hw Hc Hg)
    as (Er & (Hw' & _) & Ho).
  { pose proof (armed_length _ _ _ Hok) as Hlen. cbn [length] in Hlen. lia. }
  set (p1 := exec (tick_slot _ _ _) _) in *.
  assert (p' = put_tick_head NULL_SLOT p1) as ->.
  { unfold p', on_tcp_tick. rewrite exec_bind, exec_gets, eval_gets, exec_bind.
    change (exec tick_head_take p) with (put_tick_head NULL_SLOT p).
    change (eval tick_head_take p) with (tick_head (ctx p)).
    rewrite Eh, exec_bind, exec_gets, eval_gets, exec_bind. cbn [conns put_tick_head set_ctx].
    unfold eval, exec at 2. rewrite Er. cbn [fst snd].
    pose proof (po_tick _ _ _ (wk_ok _ _ _ _ _ _ _ Hw')) as Hnull. simpl in Hnull.
    unfold exec, tick_head_publish. by rewrite Hnull, Z.eqb_refl. }
  split; [|split; [done|split; [reflexivity|]]].
  - cbn. rewrite Ho; [done|]. intros ->. pose proof (po_tick_nodup _ _ _ Hok) as Hnd.
    by apply NoDup_cons in Hnd as [? _].
  - intros x. unfold exec, arm_for_tick, register_armed_slot. by rewrite Hflag.
Qed.

(* ------------------------------------------------------------------ *)
(** ** Witnesses *)

(** A client core with two SYNs in flight, slot 1 listed in front of slot 0. *)
Definition two_clients : Core :=
  exec (connect_on_core (V4 0) (V4 1) 80;; connect_on_core (V4 0) (V4 1) 81) (core_init 0 1 idle_ctx).

Lemma two_clients_inv full : inv full two_clients.
Proof. unfold two_clients. rewrite exec_bind. apply inv_connect, inv_connect, inv_init. Qed.

(** The same core when the first retransmission is due. *)
Definition late_clients : Core := exec (on_env (modify (set_now_ms 1000))) two_clients.

Lemma late_clients_inv full : inv full late_clients.
Proof. apply inv_part; [|apply two_clients_inv]. by apply on_env_part, preserves_modify. Qed.

Lemma forallb_lookup {A} (f : A -> bool) l s a : forallb f l = true -> l !! s = Some a -> f a = true.
Proof. intros Hf Ha. rewrite forallb_forall in Hf. apply Hf, list_elem_of_In, list_elem_of_lookup. by exists s. Qed.

Lemma late_clients_patient s c :
  conns late_clients !! s = Some c -> gives_up (now_ms (ctx late_clients)) c = false.
Proof.
  intros Hc. apply negb_true_iff.
  apply (forallb_lookup (fun c => negb (gives_up (now_ms (ctx late_clients)) c)) (conns late_clients) s);
    [vm_compute; reflexivity|exact Hc].
Qed.

(** Slot 1 with its retransmission budget spent. *)
Definition spent_client : Core :=
  exec (on_slot (Z.of_nat 1) (setc (fun c =>
    if tick_in_list c then c |> set_rtx_deadline_ms 5 |> set_rtx_backoff 8 else c))) late_clients.

Lemma spent_client_inv full : inv full spent_client.
Proof.
  destruct (late_clients_inv full) as [fl Hpok].
  assert (exists c, conns late_clients !! 1%nat = Some c /\ is_live c = true) as (c & Hc & Hl)
    by (eexists; split; vm_compute; reflexivity).
  exists fl. eapply pok_live; [exact Hpok|exact Hc|exact Hl| |].
  - apply live_of_method, method_setc. intros d. by destruct (tick_in_list d).
  - intros [d x] Hok. rewrite exec_setc. cbn [fst]. destruct (tick_in_list d) eqn:E; [|exact Hok].
    intros _. exact E.
Qed.

Lemma tick_give_up_strands_timers_witness :
  exists d, conns (exec on_tcp_tick spent_client) !! 0%nat = Some d /\
    lifecycle_deadline_ms d = 1000 /\ has_armed_timers (exec on_tcp_tick spent_client) = false.
Proof.
  destruct (conns spent_client !! 1%nat) as [c|] eqn:Hc; [|exfalso; vm_compute in Hc; discriminate].
  destruct (conns spent_client !! 0%nat) as [d|] eqn:Hd; [|exfalso; vm_compute in Hd; discriminate].
  destruct (tick_give_up_strands_timers spent_client 1 [0%nat] c 0 d (spent_client_inv false)) as (H1 & _ & H2 & _).
  - vm_compute. split; [reflexivity|]. eexists. split; [reflexivity|]. split; [reflexivity|].
    eexists. split; reflexivity.
  - exact Hc.
  - assert (option_map (gives_up (now_ms (ctx spent_client))) (conns spent_client !! 1%nat) = Some true) as E
      by (vm_compute; reflexivity). rewrite Hc in E. exact (inj Some _ _ E).
  - left.
  - exact Hd.
  - exists d. split; [exact H1|]. split; [|exact H2].
    assert (option_map lifecycle_deadline_ms (conns spent_client !! 0%nat) = Some 1000) as E
      by (vm_compute; reflexivity). rewrite Hd in E. exact (inj Some _ _ E).
Defined.
