(* ===== verification/Engine.v ===== *)
(** * The engine of one core as a transition system

    [step] is the set of things that can happen to a core: a segment arrives
    (any bytes), the timer ticks, the application opens, listens, accepts, reads,
    writes, registers wakers, closes or shuts down, an ICMP message reports a
    path MTU, and the environment moves on (the clock, the allocator, the NIC,
    the random source).  The pool's invariant (PoolInv.v) holds in every state
    reachable from a fresh core; [calm_step] leaves out the ticks in which a
    connection gives up, and along it the armed-timer list is complete. *)

From stdpp Require Import relations.
From S2P Require Import Prelude.
From S2P Require Import NetTypes.
From S2P Require Import TcpTypes.
From S2P Require Import TcpSend.
From S2P Require Import RxRing.
From S2P Require Import Rtx.
From S2P Require Import HashTable.
From S2P Require Import Pool.
From S2P Require Import Receive.
From S2P Require Import Lifecycle.
From S2P Require Import SlotMethods.
From S2P Require Import PoolInv.
From S2P Require Import EngineInv.
From S2P Require Import TickInv.

#[local] Open Scope st_scope.

(* ------------------------------------------------------------------ *)
(** ** Steps *)

(** The socket calls that run one slot's code. *)
Inductive SocketOp :=
  | ORecv (len : Z)
  | ORecvChunk
  | OSend (chain : list (list Z))
  | OSendTso (min_payload : Z) (fill : Z -> option (list Z))
  | ORecvWaker (w : option Z)
  | OSendWaker (w : option Z)
  | OChunkSlot (wanted : bool).

Definition op_run (op : SocketOp) : St CS unit :=
  match op with
  | ORecv len => rx_pop len;; sret tt
  | ORecvChunk => recv_chunk;; sret tt
  | OSend chain =>
      c <- getc id;;
      swhen (state_eqb (state c) Established) (send_chain chain;; sret tt)
  | OSendTso n fill => send_tso n fill;; sret tt
  | ORecvWaker w => setc (set_recv_waker w)
  | OSendWaker w => setc (set_send_waker w)
  | OChunkSlot b => setc (set_chunk_wanted b)
  end.

(** A socket call reaches a slot through a handle of its current generation, so
    the slot is in use. *)
Inductive step : Core -> Core -> Prop :=
  | step_receive p src dst seg : step p (exec (tcp_receive src dst seg) p)
  | step_tick p : step p (exec on_tcp_tick p)
  | step_connect p l r port : step p (exec (connect_on_core l r port) p)
  | step_listen p port : step p (exec (listen_on_core port) p)
  | step_accept p port : step p (exec (accept_on_port port) p)
  | step_path_mtu p ip rp lp seq mss : step p (exec (note_path_mtu ip rp lp seq mss) p)
  | step_socket p s op : in_use p s -> step p (exec (on_slot (Z.of_nat s) (op_run op)) p)
  | step_close p s : in_use p s -> step p (exec (close_slot (Z.of_nat s)) p)
  | step_shutdown p : step p (exec shutdown_core p)
  | step_env p x : tick_head x = tick_head (ctx p) -> step p (set_ctx x p).

(** No connection has spent its retry budget when the tick comes. *)
Definition quiet (p p' : Core) : Prop :=
  p' = exec on_tcp_tick p ->
  forall s c, conns p !! s = Some c -> gives_up (now_ms (ctx p)) c = false.

(* ------------------------------------------------------------------ *)
(** ** Shutdown *)

(** Assigning fields the pool does not look at, of a slot free or in use. *)
Lemma pok_frame full fl p s c c' :
  pok full fl p -> conns p !! s = Some c -> slot_view c' = slot_view c -> timers c' = timers c ->
  pok full fl (put_conn (Z.of_nat s) c' p).
Proof.
  intros (tl & Hp & Hall) Hc Ev Et. pose proof Ev as Ev'. unfold slot_view in Ev'.
  rewrite !pair_equal_spec in Ev'. destruct Ev' as [[[Eid Est] En] El].
  assert (slot_index c' = slot_index c /\ next_free c' = next_free c) as [E1 E2]
    by (unfold slot_id in Eid; split; congruence).
  rewrite put_conn_nat. exists tl. split.
  - destruct Hp. split; cbn; try done.
    + destruct po_size as (n & E & ?). exists n. split; [|done]. unfold zlen in *. by rewrite length_insert.
    + intros t d Hd. apply lookup_update_Some in Hd as [[-> ->]|[_ Hd]]; [rewrite E1|]; by apply po_index.
    + apply linked_update; [|done]. intros ? _ ?. by simplify_eq.
    + intros t d Ht Hd. apply lookup_update_Some in Hd as [[-> ->]|[_ Hd]]; 
        [rewrite Est, El; by apply (po_idle s)|by apply (po_idle t)].
    + intros t d Ht Hd. apply lookup_update_Some in Hd as [[-> ->]|[_ Hd]]; 
        [rewrite E2; by apply (po_used s)|by apply (po_used t)].
    + apply linked_update; [|done]. intros ? _ ?. by simplify_eq.
    + intros t d Ht Hd. apply lookup_update_Some in Hd as [[-> ->]|[_ Hd]]; 
        [rewrite El; by apply (po_armed s)|by apply (po_armed t)].
    + destruct po_hash as (m & Hr & Hm). exists m. split; [done|]. apply (hash_sound_update _ _ _ c); try done.
      intros Hl. rewrite (is_live_state c c' Est). split; [done|]. by apply slot_id_key.
  - intros Hf t d Hd. cbn in Hd. apply lookup_update_Some in Hd as [[-> ->]|[_ Hd]]; [|by apply Hall].
    destruct (Hall Hf s c Hc) as [Hok Hin]. split; [|by rewrite El]. revert Hok. by apply armed_ok_timers.
Qed.

Lemma inv_frame full p s f :
  (forall c, slot_view (f c) = slot_view c /\ timers (f c) = timers c) -> (s < length (conns p))%nat ->
  inv full p -> inv full (exec (on_slot (Z.of_nat s) (setc f)) p).
Proof.
  intros Hf Hlt [fl Hpok]. destruct (lookup_lt_is_Some_2 _ _ Hlt) as [c Hc]. exists fl.
  rewrite (exec_on_slot_setc s f p c Hc). apply (pok_frame full fl p s c); [done|done|apply Hf..].
Qed.

Lemma inv_shutdown_slot full p s :
  inv full p -> (s < length (conns p))%nat ->
  inv full (exec (shutdown_slot (Z.of_nat s)) p) /\
  length (conns (exec (shutdown_slot (Z.of_nat s)) p)) = length (conns p).
Proof.
  intros Hinv Hlt. destruct (lookup_lt_is_Some_2 _ _ Hlt) as [c Hc]. unfold shutdown_slot.
  rewrite exec_bind, exec_gets, eval_gets, (conn_at_lookup _ _ _ Hc), exec_bind.
  match goal with |- context [exec (swhen (is_live c) ?m) p] => set (p1 := exec (swhen (is_live c) m) p) end.
  assert (inv full p1 /\ length (conns p1) = length (conns p)) as [Hinv1 Hlen].
  { unfold p1. rewrite exec_when. destruct (is_live c) eqn:Hl; [|done]. rewrite exec_bind.
    destruct Hinv as [fl Hpok].
    destruct (pok_part full fl _ p (on_env_part _ (send_rst_tick (local_ip c) (remote_ip c) (local_port c)
      (remote_port c) (snd_nxt c) (rcv_nxt c))) Hpok) as [Hpok1 Ec].
    rewrite <-Ec in Hc. pose proof (live_not_free _ _ _ _ _ Hpok1 Hc Hl) as Hs.
    destruct (free_connection_spec full fl _ s c Hpok1 Hc Hs) as [Hpok2 Hfd].
    split; [by exists (s :: fl)|]. by rewrite (fd_len _ _ _ _ Hfd), Ec. }
  split; [apply inv_frame; [done|lia|done]|].
  destruct (lookup_lt_is_Some_2 (conns p1) s ltac:(lia)) as [c1 Hc1].
  rewrite (exec_on_slot_setc s _ p1 c1 Hc1), put_conn_nat. cbn. by rewrite length_insert.
Qed.

Lemma inv_shutdown_from full n : forall s p,
  inv full p -> (s + n <= length (conns p))%nat -> inv full (exec (shutdown_from (Z.of_nat s) n) p).
Proof.
  induction n as [|n IH]; intros s p Hinv Hlen; cbn [shutdown_from]; [done|]. rewrite exec_bind.
  destruct (inv_shutdown_slot full p s Hinv ltac:(lia)) as [Hinv1 E].
  replace (Z.of_nat s + 1) with (Z.of_nat (S s)) by lia. apply IH; [done|lia].
Qed.

Lemma inv_shutdown full p : inv full p -> inv full (exec shutdown_core p).
Proof.
  intros Hinv. unfold shutdown_core. rewrite exec_bind, exec_gets, eval_gets.
  pose proof Hinv as (fl & tl & Hp & _). rewrite (pool_capacity_ok _ _ _ Hp).
  apply (inv_shutdown_from full _ 0); [done|]. unfold zlen. lia.
Qed.

(* ------------------------------------------------------------------ *)
(** ** Every step *)

Lemma op_method op : method (op_run op).
Proof. destruct op; cbn [op_run]; method. Qed.

Lemma op_keeps op : keeps_armed (op_run op).
Proof. destruct op; cbn [op_run]; keeps_armed. Qed.

Lemma step_inv full p p' : step p p' -> (full = true -> quiet p p') -> inv full p -> inv full p'.
Proof.
  intros Hstep Hq Hinv. destruct Hstep.
  - by apply inv_receive.
  - apply tick_inv; [done|]. intros Hf. by apply (Hq Hf).
  - by apply inv_connect.
  - by apply inv_listen.
  - by apply inv_accept.
  - by apply inv_path_mtu.
  - apply inv_slot_call; [done|done|apply op_method|apply op_keeps].
  - by apply inv_close.
  - by apply inv_shutdown.
  - destruct Hinv as [fl Hpok]. exists fl. eapply pok_pool_part; [|exact Hpok].
    unfold pool_part. cbn. by f_equal.
Qed.

Lemma reach_inv p0 p : inv false p0 -> rtc step p0 p -> inv false p.
Proof. intros H0 Hr. induction Hr as [|p1 p2 p3 Hs _ IH]; [done|]. apply IH. by apply (step_inv false p1). Qed.

(** C10: whatever arrives and whatever the application does, in any order and for
    any behaviour of the clock, allocator and NIC, in every reachable state of a
    core the free list and the armed-timer list are finite and acyclic, the slots
    on the free list are closed and on no timer list, every slot knows its own
    index, and every entry of the connection hash names a live connection with
    that key. *)
Theorem engine_keeps_pool cpu cores x p :
  rtc step (core_init cpu cores x) p -> exists fl tl, pool_ok p fl tl.
Proof.
  intros Hr. destruct (reach_inv _ _ (inv_init false cpu cores x) Hr) as (fl & tl & Hp & _). by exists fl, tl.
Qed.

(** C27: in a reachable core [alloc_connection] hands out a fresh slot that was
    not in use, or — the pool full — one whose connection was closing, under the
    next generation so that its handles are stale; every other slot keeps its
    connection but for list links.  When it fails nothing changes. *)
Theorem alloc_never_takes_open_connection cpu cores x p :
  rtc step (core_init cpu cores x) p ->
  let p' := exec alloc_connection p in
  match eval alloc_connection p with
  | None => conns p' = conns p
  | Some i => exists s, i = Z.of_nat s /\
      (exists g c, conns p' !! s = Some (reset_preserving g c)) /\ in_use p' s /\
      (forall c, in_use p s -> conns p !! s = Some c ->
         In (state c) [FinWait1; FinWait2; LastAck; TimeWait; CloseWait] /\
         conns p' !! s = Some (reset_preserving (w16 (generation c + 1)) c)) /\
      forall t d, t <> s -> conns p !! t = Some d -> exists n, conns p' !! t = Some (set_tick_next n d)
  end.
Proof.
  intros Hr p'. destruct (reach_inv _ _ (inv_init false cpu cores x) Hr) as [fl Hpok].
  pose proof (alloc_connection_spec false fl p Hpok) as Ha. fold p' in Ha.
  destruct (eval alloc_connection p) as [i|]; [|by destruct Ha].
  destruct Ha as (s & fl' & -> & Hpok' & (Hs & g & c & Hc) & Hkept & Hav & Hgen). exists s.
  split; [done|]. split; [eauto|]. split; [by eapply in_use_of|]. split; [|done].
  intros d Hu Hd. destruct (in_use_pok _ _ _ _ Hpok Hu) as (_ & _ & Hfl). split; [|by apply Hgen].
  destruct (Hav d Hd) as [?|Hst]; [done|]. cbn [In]. intuition.
Qed.

(** A step that is not a tick in which a connection gives up. *)
Definition calm_step (p p' : Core) : Prop := step p p' /\ quiet p p'.

Lemma calm_inv p0 p : inv true p0 -> rtc calm_step p0 p -> inv true p.
Proof.
  intros H0 Hr. induction Hr as [|p1 p2 p3 [Hs Hq] _ IH]; [done|]. apply IH. by apply (step_inv true p1).
Qed.

Lemma armed_listed p s c : inv true p -> conns p !! s = Some c -> still_armed c = true -> has_armed_timers p = true.
Proof.
  intros (fl & tl & Hp & Hall) Hc Ha. rewrite (has_armed_list p fl tl Hp). exists s.
  destruct (Hall eq_refl s c Hc) as [Hok Hin]. by apply Hin, Hok.
Qed.

(** C23: No deadline is forgotten while no connection gives up.  Take any state
    reached by segment arrivals, ticks, socket calls and changes of the clock,
    allocator and NIC, in which every tick so far found no connection that had
    exhausted its retry budget.  Then a core with a pending deadline reports armed
    timers, so that it never goes fully idle; and a further such tick rebuilds the
    armed-timer list exactly: it holds the slots with a deadline, each once, and
    [has_armed_timers] answers whether there is one. *)
Theorem tick_rebuilds_list cpu cores x p :
  rtc calm_step (core_init cpu cores x) p ->
  (forall s c, conns p !! s = Some c -> still_armed c = true -> has_armed_timers p = true) /\
  ((forall s c, conns p !! s = Some c -> gives_up (now_ms (ctx p)) c = false) ->
   let p' := exec on_tcp_tick p in
   (exists tl, linked tick_next (conns p') (tick_head (ctx p')) tl /\ NoDup tl /\
     forall s, s ∈ tl <-> exists c, conns p' !! s = Some c /\ still_armed c = true) /\
   (has_armed_timers p' = true <-> exists s c, conns p' !! s = Some c /\ still_armed c = true)).
Proof.
  intros Hr. pose proof (calm_inv _ _ (inv_init true cpu cores x) Hr) as Hinv. split.
  - intros s c. by apply armed_listed.
  - intros Hno. by apply tick_list_exact.
Qed.

(* ------------------------------------------------------------------ *)
(** ** Witnesses *)

Lemma two_clients_reached : rtc step (core_init 0 1 idle_ctx) two_clients.
Proof.
  unfold two_clients. rewrite exec_bind.
  eapply rtc_l; [apply step_connect|]. apply rtc_once, step_connect.
Qed.

(** The clock moves. *)
Lemma step_clock t p : step p (exec (on_env (modify (set_now_ms t))) p).
Proof. exact (step_env p (set_now_ms t (ctx p)) eq_refl). Qed.

Lemma calm_patient p p' :
  step p p' -> forallb (fun c => negb (gives_up (now_ms (ctx p)) c)) (conns p) = true -> calm_step p p'.
Proof.
  intros Hs Hno. split; [done|]. intros _ s c Hc. apply negb_true_iff.
  exact (forallb_lookup (fun c => negb (gives_up (now_ms (ctx p)) c)) _ s c Hno Hc).
Qed.

(** Two SYNs leave, then the clock moves. *)
Lemma late_clients_calm : rtc calm_step (core_init 0 1 idle_ctx) late_clients.
Proof.
  unfold late_clients, two_clients. rewrite exec_bind.
  set (p0 := core_init 0 1 idle_ctx). set (p1 := exec (connect_on_core (V4 0) (V4 1) 80) p0).
  set (p2 := exec (connect_on_core (V4 0) (V4 1) 81) p1).
  eapply rtc_l; [apply (calm_patient p0 p1); [apply step_connect|vm_compute; reflexivity]|].
  eapply rtc_l; [apply (calm_patient p1 p2); [apply step_connect|vm_compute; reflexivity]|].
  apply rtc_once, calm_patient; [apply step_clock|vm_compute; reflexivity].
Qed.

Lemma tick_rebuilds_list_witness :
  let p' := exec on_tcp_tick late_clients in
  has_armed_timers late_clients = true /\ has_armed_timers p' = true /\ length (out (ctx p')) = 4%nat.
Proof.
  destruct (tick_rebuilds_list 0 1 idle_ctx late_clients late_clients_calm) as [Hbefore Hafter].
  destruct (Hafter late_clients_patient) as [_ Harm].
  split; [apply (Hbefore 0%nat (conn_at 0 late_clients)); vm_compute; reflexivity|].
  split; [|vm_compute; reflexivity]. apply Harm.
  exists 0%nat. eexists. split; vm_compute; reflexivity.
Defined.

Lemma engine_keeps_pool_witness :
  exists fl tl, pool_ok (exec on_tcp_tick late_clients) fl tl /\
    tick_head (ctx (exec on_tcp_tick late_clients)) = 0.
Proof.
  destruct (engine_keeps_pool 0 1 idle_ctx (exec on_tcp_tick late_clients)) as (fl & tl & Hp).
  - etrans; [apply two_clients_reached|].
    eapply rtc_l; [|apply rtc_once, step_tick]. apply step_clock.
  - exists fl, tl. split; [exact Hp|vm_compute; reflexivity].
Defined.

Lemma alloc_never_takes_open_connection_witness :
  eval alloc_connection two_clients = Some 2 /\ in_use (exec alloc_connection two_clients) 2.
Proof.
  pose proof (alloc_never_takes_open_connection 0 1 idle_ctx two_clients two_clients_reached) as H.
  assert (eval alloc_connection two_clients = Some 2) as E by (vm_compute; reflexivity).
  rewrite E in H. destruct H as (s & Es & _ & Hu & _).
  split; [exact E|]. replace 2%nat with s by lia. exact Hu.
Defined.
