(* ===== verification/Stream.v ===== *)
(** * The received byte stream

    Segment arrival past the acknowledgement ([rx_data]: in-order delivery through
    the zero-copy chunk or the ring, out-of-order reassembly; [rx_fin]) together
    with the two readers ([rx_pop] under [async_recv], [recv_chunk]).  Whatever the
    segments' order, overlap and duplication, the bytes read followed by the bytes
    held are the peer's stream up to [rcv_nxt], the FIN aside.  [async_recv] is
    read while no chunk is stashed: it does not look at the stash. *)

From S2P Require Import Prelude.
From S2P Require Import NetTypes.
From S2P Require Import TcpTypes.
From S2P Require Import TcpSend.
From S2P Require Import TcpWire.
From S2P Require Import SeqNum.
From S2P Require Import RxRing.
From S2P Require Import OooQueue.
From S2P Require Import Rtx.
From S2P Require Import Pool.
From S2P Require Import Receive.
From S2P Require Import Frames.
From S2P Require Import Lifecycle.
From S2P Require Import SlotMethods.

#[local] Open Scope st_scope.

(* ------------------------------------------------------------------ *)
(** ** The payload of a segment *)

(** The bytes after the header, across the chain's parts. *)
Definition payload (r : RxSegment) : list Z :=
  concat (payload_parts (h_data_offset (rx_hdr r)) (rx_chain r)).

Lemma payload_parts_concat skip chain :
  0 <= skip -> concat (payload_parts skip chain) = zdrop skip (concat chain).
Proof.
  revert skip. induction chain as [|part chain IH]; intros skip Hs; cbn [payload_parts concat].
  { unfold zdrop. by rewrite drop_nil. }
  destruct (_ <=? _) eqn:E; bool_to_prop.
  - rewrite IH, zdrop_app_ge by lia. done.
  - cbn [concat]. rewrite IH, zdrop_app_le by lia. done.
Qed.

Lemma total_len_concat chain : total_len chain = zlen (concat chain).
Proof.
  induction chain as [|part chain IH]; cbn [total_len foldr concat]; [done|].
  rewrite zlen_app. unfold total_len in IH. lia.
Qed.

Lemma zlen_payload r : 0 <= h_data_offset (rx_hdr r) -> zlen (payload r) = payload_len r.
Proof.
  intros H. unfold payload, payload_len, sat_sub.
  rewrite payload_parts_concat, zlen_zdrop, total_len_concat by done. done.
Qed.

(** A chain delivered part by part is delivered as one payload: once a part is
    cut short the ring is full. *)
Lemma deliver_parts_spec parts : forall k c,
  ring_ok c -> rx_ring c <> None ->
  let n := Z.min (zlen (concat parts)) (rx_free c) in
  let r := deliver_parts parts k c in
  fst r = k + n /\ ring_ok (snd r) /\ rx_ring (snd r) <> None /\
  ring_view (snd r) = ring_view c ++ ztake n (concat parts) /\ ring_frame c (snd r).
Proof.
  induction parts as [|part parts IH]; intros k c Hok Hr; cbn [deliver_parts concat].
  { pose proof Hok as (_ & _ & Hu & _). rewrite (rx_free_spec c Hu). cbn [fst snd].
    change (zlen []) with 0. replace (Z.min 0 _) with 0 by lia.
    split; [unfold sret; cbn; lia|]. split; [done|]. split; [done|].
    split; [cbn; by rewrite app_nil_r|apply ring_frame_refl]. }
  unfold sbind. destruct (rx_push_spec part c Hok Hr) as (E1 & Hok1 & Hr1 & V1 & F1).
  unfold deliver_payload. destruct (rx_ring_push part c) as [n1 c1]. cbn [fst snd] in *. subst n1.
  destruct (IH (k + Z.min (zlen part) (rx_free c)) c1 Hok1 Hr1) as (E2 & Hok2 & Hr2 & V2 & F2).
  pose proof (zlen_ring_view c Hok) as L. pose proof (zlen_ring_view c1 Hok1) as L1.
  pose proof Hok as (_ & _ & Hu & _). pose proof Hok1 as (_ & _ & Hu1 & _).
  pose proof (zlen_nonneg part). pose proof (zlen_nonneg (concat parts)).
  rewrite V1, zlen_app, L, zlen_ztake in L1 by (rewrite rx_free_spec by done; lia).
  rewrite !rx_free_spec in * by done.
  split; [rewrite E2, zlen_app; lia|]. split; [done|]. split; [done|].
  split; [|by eapply ring_frame_trans].
  rewrite V2, V1, <-app_assoc. f_equal.
  set (m := RX_RING_BYTES - 1 - rx_used c) in *. rewrite zlen_app.
  destruct (Z_le_gt_dec (zlen part) m).
  - rewrite (Z.min_l (zlen part) m), ztake_ge by lia. unfold ztake at 2.
    rewrite take_app_ge by (unfold zlen in *; lia). f_equal. unfold ztake. f_equal. unfold zlen in *. lia.
  - rewrite (Z.min_r (zlen part) m) by lia. replace (Z.min _ _) with 0 by lia.
    replace (Z.min (zlen part + _) m) with m by lia. unfold ztake.
    rewrite take_app_le by (unfold zlen in *; lia). by rewrite app_nil_r.
Qed.

(* ------------------------------------------------------------------ *)
(** ** Invariant *)

(** The bytes held for the application: the stashed chunk, then the ring. *)
Definition held_bytes (c : TcpConnection) : list Z := default [] (pending_chunk c) ++ ring_view c.

Section Stream.
Context (st : Z -> Z).

(** The connection has received the stream up to [R], of which the bytes from
    [A] on are still held, and buffers the segments [ss] above it. *)
Record holding (A R : Z) (ss : list AbsSeg) (c : TcpConnection) : Prop := {
  rv_ring : ring_ok c;
  rv_some : rx_ring c <> None;
  rv_ooo : ooo_ok R ss (ooo c);
  rv_match : Forall (seg_matches st) ss;
  rv_held : held_bytes c = stream_slice st A (R - A);
  rv_le : A <= R
}.

(** Before the peer's FIN, [rcv_nxt] is the end of what was received. *)
Definition receiving (A R : Z) (ss : list AbsSeg) (c : TcpConnection) : Prop :=
  rcv_nxt c = w32 R /\ holding A R ss c.

Lemma holding_view A R ss c c' x x' :
  rx_view (c', x') = rx_view (c, x) -> holding A R ss c -> holding A R ss c'.
Proof.
  unfold rx_view. cbn [fst]. rewrite !pair_equal_spec.
  intros [[[E1 [[[E2 E3] E4] E5]] E6] E7] [Hr Hs Ho Hm Hh Hle].
  unfold held_bytes, ring_ok, ring_view in *.
  split; unfold held_bytes, ring_ok, ring_view; rewrite ?E2, ?E3, ?E4, ?E5, ?E6, ?E7; done.
Qed.

Lemma receiving_view A R ss c c' x x' :
  rx_view (c', x') = rx_view (c, x) -> receiving A R ss c -> receiving A R ss c'.
Proof.
  intros E [Hn Hh]. split; [|by eapply holding_view].
  unfold rx_view in E. cbn [fst] in E. rewrite !pair_equal_spec in E. destruct E as [[[-> _] _] _]. done.
Qed.

(** The segment carries the stream's bytes at its sequence number, which is less
    than 2^31 away from [R]. *)
Definition carries (R : Z) (r : RxSegment) : Prop :=
  0 <= h_data_offset (rx_hdr r) /\ payload_len r <= U16_MAX /\
  exists Q, h_seq (rx_hdr r) = w32 Q /\ -2147483648 < Q - R < 2147483648 /\
    payload r = stream_slice st Q (payload_len r).

Lemma ring_frame_fields c c' :
  ring_frame c c' ->
  rcv_nxt c' = rcv_nxt c /\ ooo c' = ooo c /\ pending_chunk c' = pending_chunk c.
Proof. unfold ring_frame. intros ->. done. Qed.

(** In-order delivery takes a prefix of the payload. *)
Lemma deliver_in_order_spec A R ss c r :
  receiving A R ss c -> 0 <= h_data_offset (rx_hdr r) -> 0 < payload_len r ->
  payload r = stream_slice st R (payload_len r) ->
  exists n c', deliver_in_order r c = (n, c') /\ 0 <= n <= payload_len r /\
    rcv_nxt c' = rcv_nxt c /\ ooo c' = ooo c /\ ring_ok c' /\ rx_ring c' <> None /\
    held_bytes c' = stream_slice st A (R + n - A).
Proof.
  intros [Hn [Hr Hs Ho Hm Hh Hle]] Hoff Hpos Hp. pose proof (zlen_payload r Hoff) as Hlen.
  pose proof Hr as (_ & _ & Hu & _).
  assert (exists n c', deliver_parts (payload_parts (h_data_offset (rx_hdr r)) (rx_chain r)) 0 c = (n, c') /\
    0 <= n <= payload_len r /\ rcv_nxt c' = rcv_nxt c /\ ooo c' = ooo c /\ ring_ok c' /\
    rx_ring c' <> None /\ held_bytes c' = stream_slice st A (R + n - A)) as Hcopy.
  { destruct (deliver_parts_spec (payload_parts (h_data_offset (rx_hdr r)) (rx_chain r)) 0 c Hr Hs)
      as (E & H1 & H2 & H3 & H4). fold (payload r) in *. rewrite Hlen in *.
    destruct (deliver_parts _ 0 c) as [n c']. cbn [fst snd] in *.
    rewrite (rx_free_spec c Hu) in *. set (m := Z.min _ _) in *.
    destruct (ring_frame_fields _ _ H4) as (E1 & E2 & E3). exists n, c'. subst n.
    split; [done|]. split; [lia|]. do 4 (split; [done|]).
    unfold held_bytes. rewrite E3, H3, Hp, stream_ztake by lia.
    rewrite app_assoc. fold (held_bytes c). rewrite Hh.
    replace R with (A + (R - A)) at 2 by lia. rewrite stream_app by lia. f_equal. lia. }
  unfold deliver_in_order.
  destruct (chunk_wanted c), (pending_chunk c) as [chunk|] eqn:Ep, (rx_used c =? 0) eqn:Eu; try exact Hcopy.
  destruct (rx_chain r) as [|part [|? ?]] eqn:Ech; try exact Hcopy. bool_to_prop.
  unfold payload_len, sat_sub, total_len in *. rewrite Ech in *. cbn [foldr] in *.
  destruct (_ <=? _) eqn:E; bool_to_prop; [|lia].
  set (n := Z.max 0 _) in *. eexists n, _. split; [done|]. split; [lia|]. do 4 (split; [done|]).
  unfold held_bytes, ring_view. cbn. rewrite Eu.
  assert (ring_view c = []) as Hempty by (apply zlen_nil_inv; by rewrite zlen_ring_view).
  unfold held_bytes in Hh. rewrite Ep, Hempty in Hh. cbn in Hh.
  assert (R - A = 0) as HRA by (apply (f_equal zlen) in Hh; rewrite zlen_stream in Hh by lia; exact (eq_sym Hh)).
  replace (slice (h_data_offset (rx_hdr r)) n part) with (payload r).
  - rewrite Hp. replace (R + n - A) with n by lia. replace A with R by lia.
    destruct (rx_ring c); cbn; by rewrite app_nil_r.
  - unfold payload. rewrite Ech, payload_parts_concat by done. cbn [concat]. rewrite app_nil_r.
    unfold slice. rewrite ztake_ge; [done|]. rewrite zlen_zdrop by done. lia.
Qed.

(** Advancing [rcv_nxt] over what was delivered and draining the reassembly
    queue behind it. *)
Lemma advance_spec A R ss c c1 n :
  receiving A R ss c -> 0 <= n <= U16_MAX ->
  rcv_nxt c1 = rcv_nxt c -> ooo c1 = ooo c -> ring_ok c1 -> rx_ring c1 <> None ->
  held_bytes c1 = stream_slice st A (R + n - A) ->
  let c2 := set_rcv_nxt (w32 (rcv_nxt c1 + w32 n)) c1 in
  exists d R' ss', 0 <= d < RX_RING_BYTES /\ R' = R + n + d /\
    fst ((if ooo_is_empty (ooo c2) then sret 0 else drain_ooo) c2) = d /\
    receiving A R' ss' (snd ((if ooo_is_empty (ooo c2) then sret 0 else drain_ooo) c2)).
Proof.
  intros [Hn [Hr Hs Ho Hm Hh Hle]] Hn0 E1 E2 Hr1 Hs1 Hh1 c2.
  assert (rcv_nxt c2 = w32 (R + n)) as Hn2
    by (unfold c2; cbn; by rewrite E1, Hn, w32_add_l, w32_add_r).
  pose proof Ho as [Hsegs Htot Hch Hcnt].
  destruct (ooo_is_empty (ooo c2)) eqn:Ee.
  - exists 0, (R + n), []. unfold sret. cbn [fst snd]. do 3 (split; [unfold RX_RING_BYTES; lia|]).
    assert (ss = []) as ->.
    { unfold ooo_is_empty in Ee. cbn in Ee. rewrite E2, Hsegs in Ee. by destruct ss. }
    split; [done|]. split; try done; [|lia]. unfold c2. cbn. rewrite E2. by split.
  - destruct (drain_loop_spec st (S (length (segs (ooo c2)))) (R + n) ss c2 0) as (d & c' & Ed & ss' & Hpost).
    + split; try done; try (unfold c2; cbn; by rewrite E2).
      eapply seg_chain_weaken; [| |exact Hch]; unfold U16_MAX in *; lia.
    + unfold c2. cbn. rewrite E2, Hsegs, length_fmap. lia.
    + unfold drain_ooo. rewrite Ed. cbn [fst snd].
      destruct Hpost as (Hd & Hn' & Hv & Hr' & Hs' & Ho' & Hsuf & _ & Hf).
      assert (d < RX_RING_BYTES).
      { pose proof (zlen_ring_view _ Hr') as Hl. rewrite Hv, zlen_app, zlen_stream in Hl by done.
        pose proof (zlen_nonneg (ring_view c2)). destruct Hr' as (_ & _ & ? & _). lia. }
      exists d, (R + n + d), ss'. split; [lia|]. split; [done|]. split; [lia|].
      split; [done|]. split; try done.
      * destruct Hsuf as [pre ->]. by apply Forall_app in Hm as [_ ?].
      * unfold held_bytes. replace (pending_chunk c') with (pending_chunk c1) by (by rewrite Hf).
        rewrite Hv, app_assoc. change (ring_view c2) with (ring_view c1). fold (held_bytes c1). rewrite Hh1.
        replace (R + n) with (A + (R + n - A)) at 2 by lia. rewrite stream_app by lia. f_equal. lia.
      * lia.
Qed.

#[local] Hint Resolve conn_rx : preserves.

Lemma receiving_frame {B} A R ss (m : St CS B) s :
  preserves rx_view m -> receiving A R ss (fst s) -> receiving A R ss (fst (exec m s)).
Proof.
  intros Hm. specialize (Hm s). destruct s as [c x], (exec m (c, x)) as [c' x']. by apply (receiving_view A R ss c c' x x').
Qed.

(** A segment above [rcv_nxt] is buffered or dropped. *)
Lemma buffer_spec A R ss c r :
  receiving A R ss c -> carries R r -> h_seq (rx_hdr r) <> rcv_nxt c ->
  seq_lt (h_seq (rx_hdr r)) (rcv_nxt c) = false ->
  exists ss', receiving A R ss' (set_ooo (snd (ooo_insert (rcv_nxt c) (h_seq (rx_hdr r)) (payload r) (ooo c))) c).
Proof.
  intros [Hn [Hr Hs Ho Hm Hh Hle]] (Hoff & Hlen & Q & EQ & HQ & Hp) Hne Hlt.
  rewrite Hn, EQ in *. rewrite seq_lt_abs in Hlt by lia. bool_to_prop.
  assert (R < Q) by (assert (Q <> R) by congruence; lia).
  destruct (ooo_insert_spec R ss (ooo c) (w32 Q) (payload r) Ho (w32_range Q))
    as [(_ & _ & ss1 & ss2 & -> & Ho')|(_ & ->)].
  - exists (ss1 ++ clamped R (w32 Q) (payload r) :: ss2). split; [done|]. split; try done.
    apply Forall_app in Hm as [? ?]. apply Forall_app. split; [done|]. apply Forall_cons. split; [|done].
    unfold clamped, seg_matches. cbn [fst snd].
    rewrite (w32_sub_cancel Q R (Q - R)) by int_lia. replace (R + (Q - R)) with Q by lia.
    set (k := OOO_MAX_BYTES - (Q - R)). rewrite Hp. pose proof (zlen_payload r Hoff) as Hl.
    pose proof (zlen_nonneg (payload r)).
    destruct (Z_le_gt_dec k (payload_len r)) as [Hk|Hk].
    + destruct (Z_le_gt_dec 0 k).
      * by rewrite stream_ztake, zlen_stream by lia.
      * unfold ztake. replace (Z.to_nat k) with 0%nat by lia. done.
    + by rewrite !ztake_ge, zlen_stream by (rewrite ?zlen_stream; lia).
  - exists ss. cbn. split; [done|]. by split.
Qed.

(** One data segment: the position advances over delivered stream bytes. *)
Lemma rx_data_spec A R ss s r :
  receiving A R ss (fst s) -> carries R r ->
  exists R' ss', R <= R' < R + 1048576 /\ receiving A R' ss' (fst (exec (rx_data r) s)).
Proof.
  intros Hrv Hc. pose proof Hc as (Hoff & Hlen & Q & EQ & HQ & Hp). unfold rx_data.
  rewrite exec_bind, exec_getc, eval_getc. unfold id.
  destruct (_ && _)%bool eqn:Eg; [|exists R, ss; split; [lia|done]].
  apply andb_prop in Eg as [Hpos _]. bool_to_prop.
  destruct (h_seq (rx_hdr r) =? rcv_nxt (fst s)) eqn:Eseq; bool_to_prop.
  - assert (Q = R) as -> by (apply w32_inj; [rewrite <-EQ, <-(proj1 Hrv); done|lia]).
    destruct (deliver_in_order_spec A R ss (fst s) r Hrv Hoff Hpos Hp)
      as (n & c1 & Ed & Hn & E1 & E2 & Hr1 & Hs1 & Hh1).
    destruct (advance_spec A R ss (fst s) c1 n Hrv ltac:(lia) E1 E2 Hr1 Hs1 Hh1)
      as (d & R' & ss' & Hd & -> & Ef & Hrv').
    rewrite exec_bind, exec_on_conn, eval_on_conn.
    replace (exec (deliver_in_order r) (fst s)) with c1 by (unfold exec; by rewrite Ed).
    replace (eval (deliver_in_order r) (fst s)) with n by (unfold eval; by rewrite Ed).
    rewrite exec_bind, exec_setc, exec_bind, exec_getc, eval_getc. cbn [fst snd]. unfold id.
    set (c2 := set_rcv_nxt _ c1) in *. exists (R + n + d), ss'.
    split; [unfold RX_RING_BYTES, U16_MAX in *; lia|]. rewrite exec_bind.
    apply receiving_frame; [preserve_cs|].
    destruct (ooo_is_empty (ooo c2)).
    + rewrite exec_ret. exact Hrv'.
    + rewrite exec_on_conn. exact Hrv'.
  - destruct (seq_lt _ _) eqn:Elt.
    + exists R, ss. split; [lia|]. by apply receiving_frame; [apply conn_rx, emit_ack_conn|].
    + destruct (buffer_spec A R ss (fst s) r Hrv Hc Eseq Elt) as [ss' Hrv'].
      rewrite exec_bind, exec_on_ctx, eval_on_ctx, exec_bind, exec_when. cbn [fst snd].
      destruct (eval try_reserve (snd s)).
      * exists R, ss'. split; [lia|]. apply receiving_frame; [apply conn_rx, emit_ack_conn|]. exact Hrv'.
      * exists R, ss. split; [lia|]. apply receiving_frame; [apply conn_rx, emit_ack_conn|]. exact Hrv.
Qed.

(* ------------------------------------------------------------------ *)
(** ** Readers *)

Lemma window_updated_held c : held_bytes (window_updated c) = held_bytes c.
Proof. unfold window_updated. by destruct (_ && _)%bool. Qed.

Lemma window_updated_holding A R ss c : holding A R ss c -> holding A R ss (window_updated c).
Proof.
  unfold window_updated. destruct (_ && _)%bool; [|done]. by apply (holding_view A R ss c _ idle_ctx idle_ctx).
Qed.

Lemma read_spec A R ss s n :
  holding A R ss (fst s) -> 0 <= n -> pending_chunk (fst s) = None ->
  let bytes := eval (rx_pop n) s in
  bytes = stream_slice st A (zlen bytes) /\ holding (A + zlen bytes) R ss (fst (exec (rx_pop n) s)).
Proof.
  intros Hrv Hn Hp bytes. pose proof Hrv as [Hr Hs Ho Hm Hh Hle].
  destruct (rx_pop_spec n s Hr Hn) as [Eb Es]. fold bytes in Eb. rewrite Es. clear Es.
  pose proof (zlen_ring_view _ Hr) as Hl. pose proof Hr as (_ & _ & Hu & _).
  unfold held_bytes in Hh. rewrite Hp in Hh. cbn in Hh.
  assert (rx_used (fst s) = R - A) as Eu by (rewrite <-Hl, Hh, zlen_stream by lia; done).
  set (take := Z.min n (rx_used (fst s))) in *.
  assert (zlen bytes = take) as El by (rewrite Eb, zlen_ztake by lia; lia).
  rewrite Hh in Eb. rewrite El. split; [rewrite Eb, stream_ztake by lia; done|].
  destruct (take =? 0) eqn:E; bool_to_prop; [by rewrite E, Z.add_0_r|].
  apply window_updated_holding.
  destruct (ring_popped_spec take (fst s) Hr ltac:(lia)) as (Hr' & Hv & Hf).
  split; try done.
  - unfold held_bytes. destruct (ring_frame_fields _ _ Hf) as (_ & _ & ->).
    rewrite Hp, Hv, Hh, stream_zdrop by lia. cbn. f_equal. lia.
  - lia.
Qed.

Lemma chunk_spec A R ss s :
  holding A R ss (fst s) ->
  let bytes := default [] (eval recv_chunk s) in
  bytes = stream_slice st A (zlen bytes) /\ holding (A + zlen bytes) R ss (fst (exec recv_chunk s)).
Proof.
  intros Hrv bytes. pose proof Hrv as [Hr Hs Ho Hm Hh Hle]. subst bytes. unfold recv_chunk.
  rewrite exec_bind, eval_bind, exec_getc, eval_getc. unfold id.
  destruct (pending_chunk (fst s)) as [chunk|] eqn:Ep.
  - rewrite exec_bind, eval_bind, exec_ret, eval_ret, exec_setc. cbn [fst default].
    unfold held_bytes in Hh. rewrite Ep in Hh. cbn in Hh.
    pose proof (zlen_nonneg chunk). pose proof (zlen_nonneg (ring_view (fst s))).
    pose proof (f_equal zlen Hh) as Hl. rewrite zlen_app, zlen_stream in Hl by lia.
    split; [apply (f_equal (ztake (zlen chunk))) in Hh|split; try done].
    + rewrite stream_ztake in Hh by lia. rewrite <-Hh. unfold ztake, zlen. by rewrite Nat2Z.id, take_app_length.
    + unfold held_bytes. cbn. apply (f_equal (zdrop (zlen chunk))) in Hh.
      rewrite stream_zdrop in Hh by lia. rewrite zdrop_app_ge, Z.sub_diag in Hh by lia.
      change (ring_view (set_pending_chunk None (fst s))) with (ring_view (fst s)).
      change (zdrop 0 (ring_view (fst s))) with (ring_view (fst s)) in Hh. rewrite Hh. f_equal; lia.
    + lia.
  - destruct (_ =? 0); [rewrite exec_ret, eval_ret; split; [done|by rewrite Z.add_0_r]|].
    rewrite exec_bind, eval_bind, exec_on_ctx, eval_on_ctx.
    set (s1 := (fst s, exec try_reserve (snd s))).
    destruct (eval try_reserve (snd s)); cbn [negb];
      [|rewrite exec_ret, eval_ret; split; [done|by rewrite Z.add_0_r]].
    rewrite exec_bind, eval_bind, exec_ret, eval_ret. cbn [default].
    apply (read_spec A R ss s1); [done|apply Hr|done].
Qed.

(* ------------------------------------------------------------------ *)
(** ** Any interleaving *)

(** [RSegment] is everything [rx_live] does with a segment past the
    acknowledgement: data, FIN, TIME-WAIT and liveness stages, [prev_state] the
    state the segment found.  [ROther] is an
    operation that leaves the receive side alone. *)
Inductive rx_op :=
  | RSegment (prev_state : TcpState) (r : RxSegment)
  | RRead (n : Z)
  | RChunk
  | RWant (wanted : bool)
  | ROther (m : St CS unit).

Definition rx_tail_stages (prev_state : TcpState) (r : RxSegment) : St CS unit :=
  rx_data r;; rx_fin r;; rx_time_wait r prev_state;; rx_liveness.

(** The bytes handed to the application. *)
Definition rx_step (op : rx_op) : St CS (list Z) :=
  match op with
  | RSegment prev_state r => rx_tail_stages prev_state r;; sret []
  | RRead n => rx_pop n
  | RChunk => bytes <- recv_chunk;; sret (default [] bytes)
  | RWant b => setc (set_chunk_wanted b);; sret []
  | ROther m => m;; sret []
  end.

Fixpoint rx_run (ops : list rx_op) : St CS (list Z) :=
  match ops with
  | [] => sret []
  | op :: ops => a <- rx_step op;; b <- rx_run ops;; sret (a ++ b)
  end.

(** A state no segment brings back to receiving data. *)
Definition past_data (t : TcpState) : bool := negb (data_state t) && negb (state_eqb t SynReceived).

(** [m] leaves the receive side alone and does not reopen it. *)
Definition rx_aside (m : St CS unit) : Prop :=
  preserves rx_view m /\
  forall s, past_data (state (fst s)) = true -> past_data (state (fst (exec m s))) = true.

Section Interleaving.
(** Where the peer's stream ends: its FIN takes the sequence number [F]. *)
Context (F : Z).

Definition fin_at_end (P : Z) (r : RxSegment) : Prop :=
  rx_flag r TCP_FIN = true ->
  exists Q, h_seq (rx_hdr r) = w32 Q /\ -2147483648 < Q - P < 2147483648 /\ Q + payload_len r = F.

(** [async_recv] looks at the ring only: it must not run past a stashed chunk. *)
Definition rx_op_ok (P : Z) (op : rx_op) (s : CS) : Prop :=
  match op with
  | RSegment _ r => carries P r /\ fin_at_end P r
  | RRead n => 0 <= n /\ pending_chunk (fst s) = None
  | RChunk | RWant _ => True
  | ROther m => rx_aside m
  end.

(** Every operation is legitimate at the position the ones before it reached. *)
Fixpoint rx_trace_ok (P : Z) (ops : list rx_op) (s : CS) : Prop :=
  match ops with
  | [] => True
  | op :: ops =>
      let s' := exec (rx_step op) s in
      rx_op_ok P op s /\ rx_trace_ok (P + w32 (rcv_nxt (fst s') - rcv_nxt (fst s))) ops s'
  end.

(** The stream received up to [R]; with [fin] all of it and the FIN. *)
Record received (A R : Z) (fin : bool) (ss : list AbsSeg) (c : TcpConnection) : Prop := {
  rd_nxt : rcv_nxt c = w32 (R + Z.b2z fin);
  rd_held : holding A R ss c;
  rd_end : fin = true -> R = F /\ past_data (state c) = true
}.

Lemma receiving_received A R ss c : receiving A R ss c <-> received A R false ss c.
Proof.
  split.
  - intros [Hn Hh]. split; [cbn; by rewrite Z.add_0_r|done|done].
  - intros [Hn Hh _]. cbn in Hn. rewrite Z.add_0_r in Hn. by split.
Qed.

Lemma received_aside A R fin ss (m : St CS unit) s :
  rx_aside m -> received A R fin ss (fst s) -> received A R fin ss (fst (exec m s)).
Proof.
  intros [Hm Hc] [Hn Hh He]. specialize (Hm s). specialize (Hc s).
  destruct s as [c x], (exec m (c, x)) as [c' x']. cbn [fst] in *. split.
  - unfold rx_view in Hm. cbn [fst] in Hm. rewrite !pair_equal_spec in Hm. destruct Hm as [[[-> _] _] _]. done.
  - by apply (holding_view A R ss c c' x x').
  - intros E. destruct (He E). auto.
Qed.

Lemma conn_state {B} (m : St CS B) : preserves conn_view m -> forall s, state (fst (exec m s)) = state (fst s).
Proof.
  intros H s. pose proof (conn_sync m H s) as E.
  unfold sync_view in E. rewrite !pair_equal_spec in E. by destruct E as [[[-> _] _] _].
Qed.

Lemma conn_aside (m : St CS unit) : preserves conn_view m -> rx_aside m.
Proof.
  intros H. split; [by apply conn_rx|]. intros s Hs. by rewrite (conn_state m H s).
Qed.

Lemma tail_aside r prev : rx_aside (rx_time_wait r prev;; rx_liveness).
Proof. apply conn_aside. unfold rx_time_wait, arm_time_wait. preserve_cs. Qed.

(** The FIN, in sequence, ends the stream. *)
Lemma rx_fin_spec A R ss s r :
  receiving A R ss (fst s) ->
  (rx_flag r TCP_FIN = true -> exists Q, h_seq (rx_hdr r) = w32 Q /\ Q + payload_len r = F /\
     -4294967296 < F - R < 4294967296) ->
  exists fin, received A R fin ss (fst (exec (rx_fin r) s)).
Proof.
  intros Hrv HF. unfold rx_fin. rewrite exec_bind, exec_getc, eval_getc. unfold id.
  destruct (rx_flag r TCP_FIN) eqn:Ef; cbn [andb]; [|exists false; by apply receiving_received].
  destruct (_ =? _) eqn:E; bool_to_prop; [|exists false; by apply receiving_received].
  destruct (HF eq_refl) as (Q & EQ & EF & Hd). destruct Hrv as [Hn Hh].
  rewrite EQ, w32_add_l, w32_add_r, EF, Hn in E. apply w32_inj in E; [|lia].
  exists true. rewrite exec_bind, exec_setc. set (s1 := (set_rcv_nxt _ (fst s), snd s)).
  match goal with |- received _ _ _ _ (fst (exec ?m s1)) =>
    assert (preserves rx_view m) as Hp by (unfold arm_time_wait; destruct (state (fst s)); preserve_cs);
    assert (past_data (state (fst (exec m s1))) = true) as Hs;
    [|specialize (Hp s1); set (s2 := exec m s1) in *; clearbody s2] end.
  { pose proof (conn_state _ (bare_ack_conn r) s1) as E3. change (state (fst s1)) with (state (fst s)) in E3.
    rewrite !exec_bind, exec_getc, eval_getc, exec_now. set (s3 := exec (bare_ack r) s1) in *. clearbody s3.
    rewrite (conn_state (swhen _ wake_recv)) by preserve_cs. unfold id, arm_time_wait.
    destruct (state (fst s)); rewrite ?exec_ret, ?exec_setc; try (by rewrite E3); try done;
      rewrite exec_bind; rewrite conn_state by preserve_cs; by rewrite exec_setc. }
  destruct s1 as [c1 x1] eqn:E1, s2 as [c2 x2]. injection E1 as Ec1 Ex1. split; cbn [Z.b2z].
  - unfold rx_view in Hp. cbn [fst] in *. rewrite !pair_equal_spec in Hp. destruct Hp as [[[-> _] _] _].
    rewrite <-Ec1. cbn. by rewrite Hn, w32_add_l.
  - apply (holding_view A R ss c1 c2 x1 x2 Hp). rewrite <-Ec1. destruct Hh. by split.
  - done.
Qed.

(** A segment of the live connection. *)
Lemma rx_tail_stages_spec A R fin ss s prev r :
  received A R fin ss (fst s) -> carries (R + Z.b2z fin) r -> fin_at_end (R + Z.b2z fin) r ->
  exists R' fin' ss', R + Z.b2z fin <= R' + Z.b2z fin' < R + Z.b2z fin + 4294967296 /\
    received A R' fin' ss' (fst (exec (rx_tail_stages prev r) s)).
Proof.
  intros Hrd Hc Hf. unfold rx_tail_stages. rewrite exec_bind, exec_bind.
  assert (exists R' fin' ss', R + Z.b2z fin <= R' + Z.b2z fin' < R + Z.b2z fin + 4294967296 /\
    received A R' fin' ss' (fst (exec (rx_fin r) (exec (rx_data r) s)))) as (R' & fin' & ss' & H1 & H2).
  2:{ exists R', fin', ss'. split; [done|]. by apply received_aside; [apply tail_aside|]. }
  destruct fin; cbn [Z.b2z] in *.
  - exists R, true, ss. split; [cbn; lia|]. destruct Hrd as [Hn Hh He]. destruct (He eq_refl) as [-> Hp].
    assert (data_state (state (fst s)) = false) as Hd.
    { unfold past_data in Hp. by destruct (data_state _). }
    assert (exec (rx_data r) s = s) as ->.
    { unfold rx_data. rewrite exec_bind, exec_getc, eval_getc. unfold id. by rewrite Hd, andb_false_r. }
    unfold rx_fin. rewrite exec_bind, exec_getc, eval_getc. unfold id.
    destruct (rx_flag r TCP_FIN && _)%bool eqn:E; [|by rewrite exec_ret]. exfalso.
    apply andb_prop in E as [Ef E]. bool_to_prop. destruct (Hf Ef) as (Q & EQ & _ & EF).
    rewrite EQ, w32_add_l, w32_add_r, EF, Hn in E. apply w32_inj in E; cbn in *; lia.
  - rewrite Z.add_0_r in *. apply receiving_received in Hrd.
    destruct (rx_data_spec A R ss s r Hrd Hc) as (R' & ss' & HR & Hrv).
    destruct (rx_fin_spec A R' ss' _ r Hrv) as (fin' & Hr').
    { intros Ef. destruct (Hf Ef) as (Q & EQ & HQ & EF). destruct Hc as (_ & Hlen & _).
      exists Q. split; [done|]. split; [done|]. assert (0 <= payload_len r) by (unfold payload_len, sat_sub; lia). unfold U16_MAX in *. lia. }
    exists R', fin', ss'. split; [|done]. destruct fin'; cbn [Z.b2z]; lia.
Qed.

(** Reading moves neither [rcv_nxt] nor the state. *)
Definition peer_view (s : CS) := (rcv_nxt (fst s), state (fst s)).

Lemma rx_pop_peer n : preserves peer_view (rx_pop n).
Proof. unfold rx_pop, maybe_send_window_update. preserve_cs. Qed.
#[local] Hint Resolve rx_pop_peer : preserves.

Lemma recv_chunk_peer : preserves peer_view recv_chunk.
Proof. unfold recv_chunk. preserve_cs. Qed.

Lemma received_read {B} A A' R fin ss (m : St CS B) s :
  preserves peer_view m -> received A R fin ss (fst s) -> holding A' R ss (fst (exec m s)) ->
  received A' R fin ss (fst (exec m s)).
Proof.
  intros Hp [Hn _ He] Hh. specialize (Hp s). unfold peer_view in Hp. rewrite !pair_equal_spec in Hp.
  destruct Hp as [E1 E2]. split; [by rewrite E1|done|by rewrite E2].
Qed.

Lemma rx_step_spec A R fin ss s op :
  received A R fin ss (fst s) -> rx_op_ok (R + Z.b2z fin) op s ->
  let bytes := eval (rx_step op) s in
  exists R' fin' ss', R + Z.b2z fin <= R' + Z.b2z fin' < R + Z.b2z fin + 4294967296 /\
    bytes = stream_slice st A (zlen bytes) /\
    received (A + zlen bytes) R' fin' ss' (fst (exec (rx_step op) s)).
Proof.
  intros Hrd Hop. pose proof Hrd as [Hn Hh He].
  destruct op as [prev r|n| |b|m]; cbn [rx_step rx_op_ok] in *;
    rewrite ?exec_bind, ?eval_bind, ?exec_ret, ?eval_ret; change (zlen []) with 0; rewrite ?Z.add_0_r.
  - destruct Hop as [Hc Hf].
    destruct (rx_tail_stages_spec A R fin ss s prev r Hrd Hc Hf) as (R' & fin' & ss' & HR & Hr'). by exists R', fin', ss'.
  - destruct Hop as [Hn0 Hp]. exists R, fin, ss. split; [lia|].
    destruct (read_spec A R ss s n Hh Hn0 Hp) as [E Hh']. split; [done|].
    by apply (received_read A); [apply rx_pop_peer| |].
  - exists R, fin, ss. split; [lia|].
    destruct (chunk_spec A R ss s Hh) as [E Hh']. split; [done|].
    by apply (received_read A); [apply recv_chunk_peer| |].
  - exists R, fin, ss. split; [lia|]. split; [done|].
    split; try done. by apply (holding_view A R ss (fst s) _ (snd s) (snd s)).
  - exists R, fin, ss. split; [lia|]. split; [done|]. by apply received_aside.
Qed.

Lemma rx_run_spec ops : forall A R fin ss s,
  received A R fin ss (fst s) -> rx_trace_ok (R + Z.b2z fin) ops s ->
  let bytes := eval (rx_run ops) s in
  exists R' fin' ss', R + Z.b2z fin <= R' + Z.b2z fin' /\ bytes = stream_slice st A (zlen bytes) /\
    received (A + zlen bytes) R' fin' ss' (fst (exec (rx_run ops) s)).
Proof.
  induction ops as [|op ops IH]; intros A R fin ss s Hrd Hok; cbn [rx_run rx_trace_ok] in *.
  { exists R, fin, ss. rewrite exec_ret, eval_ret. change (zlen []) with 0. rewrite Z.add_0_r.
    split; [lia|done]. }
  destruct Hok as [Hop Hok]. rewrite !exec_bind, !eval_bind, exec_ret, eval_ret.
  destruct (rx_step_spec A R fin ss s op Hrd Hop) as (R1 & fin1 & ss1 & HR1 & Eb & Hrd1).
  set (b1 := eval (rx_step op) s) in *. set (s1 := exec (rx_step op) s) in *.
  replace (R + Z.b2z fin + w32 (rcv_nxt (fst s1) - rcv_nxt (fst s))) with (R1 + Z.b2z fin1) in Hok.
  2:{ rewrite (rd_nxt _ _ _ _ _ Hrd), (rd_nxt _ _ _ _ _ Hrd1).
      set (p := R + _) in *. set (p1 := R1 + _) in *.
      rewrite (w32_sub_cancel p1 p (p1 - p)) by int_lia. lia. }
  destruct (IH _ _ _ _ _ Hrd1 Hok) as (R2 & fin2 & ss2 & HR2 & Eb2 & Hrd2).
  set (b2 := eval (rx_run ops) s1) in *. exists R2, fin2, ss2. rewrite zlen_app, Z.add_assoc.
  split; [lia|]. split; [|done]. rewrite Eb at 1. rewrite Eb2 at 1.
  apply stream_app; apply zlen_nonneg.
Qed.

End Interleaving.

End Stream.

(* ------------------------------------------------------------------ *)
(** ** What else runs on the connection *)

(** The acknowledgement stage past its transitions, and the data timers. *)
Lemma stages_aside r una dup now :
  rx_aside (ack_recovery r una dup) /\ rx_aside (retransmit_oldest now) /\ rx_aside (send_tlp_probe now) /\
  rx_aside (rack_detect now) /\ rx_aside (send_window_probe now).
Proof. repeat match goal with |- _ /\ _ => split end; apply conn_aside; preserve_cs. Qed.

(** The fields a sender moves do not include the receive side. *)
Definition aside_view (s : CS) := (rx_view s, state (fst s)).

Lemma view_aside m : preserves aside_view m -> rx_aside m.
Proof.
  intros H. split; intros s; specialize (H s); unfold aside_view in H; rewrite pair_equal_spec in H;
    destruct H as [E1 E2]; [done|by rewrite E2].
Qed.

Lemma retain_aside now chain : forall total seq, preserves aside_view (rtx_retain chain total seq now).
Proof.
  induction chain as [|front chain IH]; intros; cbn [rtx_retain];
    unfold handle_rtx_push_oom, rtx_push, arm_rtx, arm_tlp; preserve_cs; auto.
Qed.
#[local] Hint Resolve retain_aside : preserves.

(** Sending. *)
Lemma send_aside chain : rx_aside (send_chain chain;; sret tt).
Proof. apply view_aside. unfold send_chain, rtx_on_data_sent, arm_persist. preserve_cs. Qed.

(** Closing: the FIN from ESTABLISHED or CLOSE-WAIT. *)
Lemma close_aside :
  rx_aside (c <- getc id;;
            match state c with
            | Established => send_fin FinWait1
            | CloseWait => send_fin LastAck
            | _ => sret tt
            end).
Proof.
  split.
  - unfold send_fin, arm_fin_timer. preserve_cs.
  - intros s. rewrite exec_bind, exec_getc, eval_getc. unfold id.
    destruct (state (fst s)) eqn:E; rewrite ?exec_ret, ?E; try done. intros _. unfold send_fin, arm_fin_timer.
    rewrite exec_bind, exec_getc, exec_bind, exec_on_ctx, exec_bind, exec_setc.
    match goal with |- past_data (state (fst (exec ?m ?s1))) = true =>
      assert (preserves (fun s => state (fst s)) m) as Hp by preserve_cs;
      exact (f_equal past_data (Hp s1)) end.
Qed.

(* ------------------------------------------------------------------ *)
(** ** Property *)

(** C2: The application receives the peer's stream.  Take a freshly opened
    connection and any interleaving of segments of the peer's stream (in or out
    of order, overlapping, duplicated, split over parts, larger than the room
    left, the FIN at the stream's end [F] included), reads by [recv_chunk], reads
    by [recv] while no zero-copy chunk is stashed, and operations that leave the
    receive side alone, as acknowledgement processing, the timers, sending and
    closing do.  The bytes handed to the application followed by the bytes held
    for it are exactly the peer's stream up to [R], where [rcv_nxt] is [R], or one
    past it once the FIN is consumed, which happens only with the whole stream
    received ([R = F]).  So nothing is lost, repeated, reordered or invented, and
    nothing is acknowledged that is not delivered. *)
Theorem received_is_the_stream st F S0 ops s :
  receiving st S0 S0 [] (fst s) -> rx_trace_ok st F S0 ops s ->
  let bytes := eval (rx_run ops) s in
  let c' := fst (exec (rx_run ops) s) in
  exists R fin, S0 <= R + Z.b2z fin /\ rcv_nxt c' = w32 (R + Z.b2z fin) /\
    (fin = true -> R = F /\ data_state (state c') = false) /\
    bytes ++ held_bytes c' = stream_slice st S0 (R - S0).
Proof.
  intros Hrv Hok bytes c'. apply (receiving_received st F) in Hrv.
  replace S0 with (S0 + Z.b2z false) in Hok by (cbn; lia).
  destruct (rx_run_spec st F ops S0 S0 false [] s Hrv Hok) as (R & fin & ss & HR & Eb & Hrd).
  fold bytes c' in Eb, Hrd. destruct Hrd as [Hn Hh He].
  exists R, fin. cbn [Z.b2z] in HR. split; [lia|]. split; [done|]. split.
  - intros E. destruct (He E) as [-> Hp]. split; [done|]. unfold past_data in Hp. by destruct (data_state _).
  - rewrite (rv_held _ _ _ _ _ Hh), Eb at 1. pose proof (rv_le _ _ _ _ _ Hh).
    pose proof (zlen_nonneg bytes). rewrite stream_app by lia. f_equal. lia.
Qed.

(** A connection opened just below the wrap of the sequence space. *)
Definition open_conn : TcpConnection :=
  new_conn |> set_state Established |> set_rx_ring (Some (replicate (Z.to_nat RX_RING_BYTES) 0))
    |> set_rcv_nxt 4294967294.

Definition data_segment (seq : Z) (parts : list (list Z)) : RxSegment :=
  mkRx (V4 1) (V4 2) (mkHdr 80 5000 seq 0 TCP_ACK 1000 20) no_options parts.

Definition fin_segment (seq : Z) (parts : list (list Z)) : RxSegment :=
  mkRx (V4 1) (V4 2) (mkHdr 80 5000 seq 0 (Z.lor TCP_ACK TCP_FIN) 1000 20) no_options parts.

(** The second half first, then the first half with a duplicate overlap, stashed
    for a parked [recv_chunk]; a late duplicate; a two-part tail; the end of the
    stream with its FIN, and the FIN again. *)
Definition arrivals : list rx_op :=
  [RWant true;
   RSegment Established (data_segment 0 [replicate 20 0 ++ [0; 1]]);
   RSegment Established (data_segment 4294967294 [replicate 20 0 ++ [254; 255; 0]]);
   RChunk;
   RSegment Established (data_segment 4294967294 [replicate 20 0 ++ [254]]);
   RRead 1;
   RSegment Established (data_segment 2 [replicate 20 0 ++ [2]; [3; 4]]);
   RSegment Established (fin_segment 5 [replicate 20 0 ++ [5]]);
   RSegment CloseWait (fin_segment 5 [replicate 20 0 ++ [5]])].

(** Evaluates the position and checks that the segment carries the bytes at [Q],
    and the FIN, if it has one, at the stream's end. *)
Ltac carried Q :=
  match goal with |- carries _ ?R _ /\ _ =>
    let v := eval vm_compute in R in replace R with v by (vm_compute; reflexivity) end;
  split; [split; [vm_compute; congruence|split; [vm_compute; congruence|]];
          exists Q; split; [reflexivity|split; [lia|vm_compute; reflexivity]]
         |intros Hfin; first [discriminate Hfin|exists Q; split; [reflexivity|split; [lia|reflexivity]]]].

Lemma received_is_the_stream_witness :
  let st p := p mod 256 in
  let s' := exec (rx_run arrivals) (open_conn, idle_ctx) in
  exists R fin, rcv_nxt (fst s') = w32 (R + Z.b2z fin) /\
    eval (rx_run arrivals) (open_conn, idle_ctx) = [254; 255; 0; 1] /\
    held_bytes (fst s') = [2; 3; 4; 5] /\ state (fst s') = CloseWait /\ rcv_nxt (fst s') = 7.
Proof.
  intros st s'.
  destruct (received_is_the_stream st 4294967302 4294967294 arrivals (open_conn, idle_ctx)) as (R & fin & HR & En & He & E).
  - split; [reflexivity|]. split.
    + vm_compute. intuition congruence.
    + discriminate.
    + split; [reflexivity|reflexivity|exact I|vm_compute; congruence].
    + constructor.
    + vm_compute. reflexivity.
    + lia.
  - cbn [rx_trace_ok arrivals rx_op_ok]. split; [exact I|]. split; [carried 4294967296|].
    split; [carried 4294967294|]. split; [exact I|]. split; [carried 4294967294|].
    split; [split; [lia|vm_compute; reflexivity]|]. split; [carried 4294967298|].
    split; [carried 4294967301|]. split; [carried 4294967301|exact I].
  - exists R, fin. split; [exact En|]. repeat split; vm_compute; reflexivity.
Defined.
