(* ===== verification/SendStream.v ===== *)
(** * The transmitted byte stream (crates/net/tcp/src/send.rs)

    [send_chain], the established-connection part of [async_try_send_chain]:
    whichever path puts the bytes on the wire — one segment after another, or one
    TSO super-segment — and whenever the driver pushes back, the segments emitted
    are the next bytes of the application's stream, inside the usable window. *)

From S2P Require Import Prelude.
From S2P Require Import NetTypes.
From S2P Require Import TcpTypes.
From S2P Require Import TcpSend.
From S2P Require Import SeqNum.
From S2P Require Import RxRing.
From S2P Require Import OooQueue.
From S2P Require Import Rtx.
From S2P Require Import RtxProps.
From S2P Require Import Receive.
From S2P Require Import Lifecycle.
From S2P Require Import Stream.

#[local] Open Scope st_scope.

(** The segments [segs] carry the stream from [pos] to [pos'], in order and
    without gaps, each within [mss] unless the device is to cut it. *)
Fixpoint emitted (st : Z -> Z) (meta : SegmentMeta) (mss pos : Z) (segs : list Segment) (pos' : Z) : Prop :=
  match segs with
  | [] => pos' = pos
  | sg :: segs =>
      let n := zlen (sg_payload sg) in
      0 < n /\ sg_payload sg = stream_slice st pos n /\ sg_meta sg = with_seq (w32 pos) meta /\
      (n <= mss \/ sg_gso sg = Some (w16 mss)) /\
      emitted st meta mss (pos + n) segs pos'
  end.

Section Send.
Context (st : Z -> Z) (mss : Z).

Lemma emitted_app meta pos segs1 mid segs2 pos' :
  emitted st meta mss pos segs1 mid -> emitted st meta mss mid segs2 pos' ->
  emitted st meta mss pos (segs1 ++ segs2) pos'.
Proof.
  revert pos. induction segs1 as [|sg segs1 IH]; intros pos; cbn [emitted app]; [by intros ->|].
  intros (H1 & H2 & H3 & H4 & H5) H6. do 4 (split; [done|]). by apply IH.
Qed.

(** The frame is on the wire, or the driver pushed back and nothing is. *)
Lemma build_outcome fill x :
  (eval (build_and_send_frame fill) x = true /\
   exists id, out (exec (build_and_send_frame fill) x) = out x ++ [fill id]) \/
  (eval (build_and_send_frame fill) x = false /\
   out (exec (build_and_send_frame fill) x) = out x).
Proof.
  unfold build_and_send_frame, acquire_tx_buf, exec, eval, sbind, gets, submit, sret.
  destruct (tx_grants x) as [|[] grants]; [left|left|destruct (direct_fill _); [by right|left]];
    (split; [done|]); eexists; cbn; by destruct (is_v4 _).
Qed.

Lemma cursor_outcome meta cursor n x :
  n <= MSS_MAX ->
  (eval (send_segment_from_cursor meta cursor n) x = true /\
   exists mac id, out (exec (send_segment_from_cursor meta cursor n) x) =
     out x ++ [mkSegment meta mac id [] (ztake n cursor) None]) \/
  (eval (send_segment_from_cursor meta cursor n) x = false /\
   out (exec (send_segment_from_cursor meta cursor n) x) = out x).
Proof.
  intros Hn. unfold send_segment_from_cursor. autorewrite with st. rewrite Z.min_l by done.
  destruct (mac_resolve x _) as [mac|]; [|by right].
  destruct (build_outcome (fun id => mkSegment meta mac id [] (ztake n cursor) None) x)
    as [[E [id Eo]]|[E Eo]]; [left|by right]. split; [done|]. by exists mac, id.
Qed.

(** The segment loop stops early only when the driver pushes back, between
    segments. *)
Lemma per_mss_spec meta total : 0 < mss <= MSS_MAX -> forall fuel pos sent cursor x,
  0 <= sent <= total -> total - sent <= Z.of_nat fuel ->
  cursor = stream_slice st pos (zlen cursor) -> total - sent <= zlen cursor ->
  let m := per_mss_loop fuel (with_seq (w32 pos) meta) cursor sent total mss in
  exists new, sent <= eval m x <= total /\ out (exec m x) = out x ++ new /\
    emitted st meta mss pos new (pos + (eval m x - sent)).
Proof.
  intros Hmss. induction fuel as [|fuel IH]; intros pos sent cursor x Hs Hf Hc Hl; cbn [per_mss_loop].
  { exists []. rewrite exec_ret, eval_ret, app_nil_r, Z.sub_diag. cbn. split; [lia|split; [done|lia]]. }
  destruct (sent <? total) eqn:E; bool_to_prop.
  2:{ exists []. rewrite exec_ret, eval_ret, app_nil_r, Z.sub_diag. cbn. split; [lia|split; [done|lia]]. }
  set (chunk := Z.min (total - sent) mss). rewrite exec_bind, eval_bind.
  assert (ztake chunk cursor = stream_slice st pos chunk) as Ht
    by (rewrite Hc, stream_ztake by lia; done).
  assert (zlen (stream_slice st pos chunk) = chunk) as Hlen by (apply zlen_stream; lia).
  destruct (cursor_outcome (with_seq (w32 pos) meta) cursor chunk x) as [(-> & mac & id & Eo)|[-> Eo]]; [lia| |].
  - cbn [with_seq sm_seq]. rewrite w32_add_l, w32_add_r, Z.min_l by lia.
    set (x1 := exec _ x) in *.
    destruct (IH (pos + chunk) (sent + chunk) (zdrop chunk cursor) x1) as (new & Hb & Eo' & Hem).
    + lia.
    + lia.
    + rewrite Hc, stream_zdrop, zlen_stream by lia. done.
    + rewrite zlen_zdrop by lia. lia.
    + change (with_seq (w32 (pos + chunk)) (with_seq (w32 pos) meta)) with (with_seq (w32 (pos + chunk)) meta).
      eexists (_ :: new). split; [lia|]. split; [rewrite Eo', Eo, <-app_assoc; reflexivity|].
      cbn [emitted sg_payload sg_meta sg_gso]. rewrite Ht, Hlen.
      split; [lia|]. split; [done|]. split; [done|]. split; [left; lia|].
      match goal with |- emitted _ _ _ _ _ ?p => replace p with (pos + chunk +
        (eval (per_mss_loop fuel (with_seq (w32 (pos + chunk)) meta) (zdrop chunk cursor)
          (sent + chunk) total mss) x1 - (sent + chunk))) by lia end. exact Hem.
  - exists []. rewrite exec_ret, eval_ret, app_nil_r, Z.sub_diag. cbn. split; [lia|]. split; [done|lia].
Qed.

Lemma with_seq_self meta pos : sm_seq meta = w32 pos -> with_seq (w32 pos) meta = meta.
Proof. destruct meta. cbn. by intros ->. Qed.

Lemma fallback_spec meta total pos cursor x :
  0 < mss <= MSS_MAX -> 0 <= total <= zlen cursor -> sm_seq meta = w32 pos ->
  cursor = stream_slice st pos (zlen cursor) ->
  let m := send_per_mss_fallback meta cursor total mss in
  exists new, 0 <= eval m x <= total /\ out (exec m x) = out x ++ new /\
    emitted st meta mss pos new (pos + eval m x).
Proof.
  intros Hm Ht Es Hc m. destruct (per_mss_spec meta total Hm (Z.to_nat total) pos 0 cursor x) as (new & H1 & H2 & H3);
    try done; try lia. rewrite (with_seq_self meta pos Es), Z.sub_0_r in *. by exists new.
Qed.

Lemma send_bytes_spec meta bytes total pos x :
  0 < mss <= MSS_MAX -> 0 < total <= zlen bytes -> sm_seq meta = w32 pos ->
  bytes = stream_slice st pos (zlen bytes) ->
  let m := send_bytes meta bytes total mss in
  exists new, 0 <= eval m x <= total /\ out (exec m x) = out x ++ new /\
    emitted st meta mss pos new (pos + eval m x).
Proof.
  intros Hm Ht Es Hb m. subst m. unfold send_bytes. autorewrite with st.
  destruct (_ && _)%bool; [|by apply fallback_spec; try lia].
  unfold send_super_segment_from_cursor. autorewrite with st.
  destruct (mac_resolve x _) as [mac|].
  2:{ exists []. rewrite exec_ret, eval_ret, app_nil_r. cbn. split; [lia|split; [done|lia]]. }
  autorewrite with st. assert (out (exec acquire_tx_tso_buf x) = out x) as Eo
    by (unfold exec, acquire_tx_tso_buf; by destruct (tso_grants x)).
  destruct (eval acquire_tx_tso_buf x).
  - autorewrite with st. eexists [_]. split; [lia|]. split.
    + unfold exec at 1, submit. cbn. destruct (is_v4 _); cbn; by rewrite Eo.
    + cbn [emitted sg_payload sg_meta sg_gso]. rewrite Hb, stream_ztake, zlen_stream by lia.
      rewrite (with_seq_self meta pos Es). split; [lia|]. do 2 (split; [done|]). split; [by right|lia].
  - rewrite <-Eo. by apply fallback_spec; try lia.
Qed.

End Send.

(* ------------------------------------------------------------------ *)
(** ** Property *)

Lemma snd_ok_view st a b s s' : rtx_view s' = rtx_view s -> snd_ok st a b (fst s) -> snd_ok st a b (fst s').
Proof.
  unfold rtx_view. rewrite !pair_equal_spec. intros [[[[[[E1 E2] E3] E4] E5] E6] _] [H1 H2 H3 H4 H5].
  split; unfold covered in *; rewrite ?E1, ?E2, ?E3, ?E4, ?E5, ?E6; done.
Qed.

Lemma persist_rtx_view b now : preserves rtx_view (swhen b (arm_persist now)).
Proof. unfold arm_persist. preserve_cs. Qed.

Lemma usable_window_spec st a b c :
  snd_ok st a b c -> usable_window c = Z.max 0 (Z.min (cwnd c) (snd_wnd c) - (b - a)).
Proof.
  intros Hs. unfold usable_window, flight, sat_sub.
  rewrite (so_una _ _ _ _ Hs), (so_nxt _ _ _ _ Hs). pose proof (so_win _ _ _ _ Hs).
  by rewrite (w32_sub_cancel b a (b - a)) by int_lia.
Qed.

(** a send on an established connection puts on the wire the next [sent]
    bytes of the application's stream, in order, from the old [snd_nxt], each
    segment within the MSS (or marked for the device to cut), never past the
    smaller of the congestion and the peer's window; it advances [snd_nxt] by
    [sent], keeps the retransmit queue covering all outstanding bytes, and leaves
    the caller exactly the unsent rest — also when the driver pushes back midway
    or the window is closed. *)
Theorem send_chain_transmits_next st a b chain c x :
  snd_ok st a b c -> 0 < snd_mss c <= MSS_MAX -> Forall part_ok chain ->
  concat chain = stream_slice st b (zlen (concat chain)) ->
  Z.min (cwnd c) (snd_wnd c) < 2147483648 ->
  let s' := exec (send_chain chain) (c, x) in
  let sent := fst (eval (send_chain chain) (c, x)) in
  let meta := conn_meta c (snd_nxt c) (Z.lor TCP_ACK TCP_PSH) (w16 (rx_free c)) in
  0 <= sent <= zlen (concat chain) /\
  (0 < sent -> b + sent - a <= Z.min (cwnd c) (snd_wnd c)) /\
  (exists new, out (snd s') = out x ++ new /\ emitted st meta (snd_mss c) b new (b + sent)) /\
  snd_ok st a (b + sent) (fst s') /\
  concat (snd (eval (send_chain chain) (c, x))) = zdrop sent (concat chain).
Proof.
  intros Hs Hm Hparts Hst Hwin. pose proof (so_win _ _ _ _ Hs) as Hw.
  pose proof (usable_window_spec st a b c Hs) as Hu. pose proof (zlen_nonneg (concat chain)) as Hpos.
  unfold send_chain. rewrite exec_bind, eval_bind, exec_getc, eval_getc. unfold id. cbn [fst snd].
  rewrite total_len_concat. destruct (_ =? 0) eqn:E0; bool_to_prop.
  { rewrite exec_ret, eval_ret. cbn [fst snd]. rewrite E0, Z.add_0_r. split; [lia|]. split; [lia|].
    split; [exists []; by rewrite app_nil_r|]. by split. }
  destruct (Z.min _ (usable_window c) =? 0) eqn:E1; bool_to_prop.
  { rewrite !exec_bind, !eval_bind, exec_now, exec_ret, eval_ret. cbn [fst snd]. rewrite Z.add_0_r.
    pose proof (persist_rtx_view ((snd_wnd c =? 0) && (persist_deadline_ms c =? 0)) (eval now (c, x)) (c, x)) as Hv.
    split; [lia|]. split; [lia|]. split.
    - exists []. split; [|done]. rewrite app_nil_r. unfold rtx_view in Hv. rewrite !pair_equal_spec in Hv. apply Hv.
    - split; [by eapply snd_ok_view; [exact Hv|]|done]. }
  rewrite exec_bind, eval_bind, exec_on_ctx, eval_on_ctx. cbn [fst snd].
  set (n := Z.min _ (usable_window c)) in *.
  destruct (send_bytes_spec st (snd_mss c) (conn_meta c (snd_nxt c) (Z.lor TCP_ACK TCP_PSH) (w16 (rx_free c)))
    (concat chain) n b x Hm ltac:(lia) (so_nxt _ _ _ _ Hs) Hst) as (new & Hb & Eo & Hem).
  set (sent := eval (send_bytes _ _ _ _) x) in *. set (x1 := exec (send_bytes _ _ _ _) x) in *.
  destruct (rtx_on_data_sent_ok st a b chain sent (c, x1) Hs Hparts) as (Hok & Eout & Erest).
  - lia.
  - unfold chain_prefix. rewrite Hst, stream_ztake by lia. done.
  - lia.
  - rewrite !exec_bind, !eval_bind, exec_setc in *. cbn [fst snd] in *.
    rewrite w32_add_r. rewrite exec_ret, eval_ret. cbn [fst snd].
    split; [lia|]. split; [lia|]. split; [|by split]. exists new. split; [|done]. by rewrite Eout, Eo.
Qed.

(** 3 of 5 bytes fit the peer's window, as segments of at most two bytes; no TSO
    slot is free. *)
Lemma send_chain_transmits_next_witness :
  let c := sending_conn |> set_snd_mss 2 |> set_cwnd 10 |> set_snd_wnd 3 in
  let x := set_tso_grants [false] idle_ctx in
  eval (send_chain [[1; 2; 3]; [4; 5]]) (c, x) = (3, [[4; 5]]) /\
  (fun sg => (sm_seq (sg_meta sg), sg_payload sg)) <$>
    out (snd (exec (send_chain [[1; 2; 3]; [4; 5]]) (c, x))) = [(4294967295, [1; 2]); (1, [3])] /\
  snd_ok (fun p => p - 4294967294) 4294967295 4294967298
    (fst (exec (send_chain [[1; 2; 3]; [4; 5]]) (c, x))).
Proof.
  intros c x. destruct (send_chain_transmits_next (fun p => p - 4294967294) 4294967295 4294967295
    [[1; 2; 3]; [4; 5]] c x) as (_ & _ & _ & H & _).
  - split; try reflexivity; [lia|vm_compute; split; congruence|split; reflexivity].
  - vm_compute. split; congruence.
  - repeat constructor; vm_compute; congruence.
  - reflexivity.
  - reflexivity.
  - split; [vm_compute; reflexivity|]. split; [vm_compute; reflexivity|exact H].
Defined.
