(* ===== verification/Injection.v ===== *)
(** * Blind segment injection (crates/net/tcp/src/receive.rs, RFC 5961)

    What an attacker who can forge the 4-tuple of a connection but not guess its
    sequence numbers can do: a reset off the exact [rcv_nxt], a SYN on an
    established connection, an acknowledgement of data never sent and, against a
    connection still opening, anything that does not acknowledge its SYN leave every
    connection as it was, and the challenge ACKs they draw are rate-limited. *)

From S2P Require Import Prelude.
From S2P Require Import NetTypes.
From S2P Require Import TcpTypes.
From S2P Require Import TcpSend.
From S2P Require Import TcpWire.
From S2P Require Import RxRing.
From S2P Require Import Rtx.
From S2P Require Import HashTable.
From S2P Require Import Pool.
From S2P Require Import Receive.
From S2P Require Import Lifecycle.
From S2P Require Import SlotMethods.
From S2P Require Import PoolInv.
From S2P Require Import EngineInv.
From S2P Require Import TickInv.

#[local] Open Scope st_scope.

(* ------------------------------------------------------------------ *)
(** ** Forged segments *)

(** RFC 5961 section 3.2: exactly the expected sequence number; for an active
    open, an acknowledgement of the SYN. *)
Definition rst_acceptable (r : RxSegment) (c : TcpConnection) : bool :=
  if state_eqb (state c) SynSent then rx_flag r TCP_ACK && (h_ack (rx_hdr r) =? snd_nxt c)
  else h_seq (rx_hdr r) =? rcv_nxt c.

(** The connection a segment is for. *)
Definition addressed (r : RxSegment) (c : TcpConnection) : bool :=
  is_live c && tuple_matches (rx_src_ip r) (h_src_port (rx_hdr r)) (h_dst_port (rx_hdr r)) c.

Inductive blind (p : Core) (r : RxSegment) : Prop :=
  | blind_rst :
      rx_flag r TCP_RST = true ->
      (forall s c, conns p !! s = Some c -> addressed r c = true -> rst_acceptable r c = false) ->
      blind p r
  | blind_syn s c :
      rx_flag r TCP_RST = false -> rx_flag r TCP_SYN = true -> rx_flag r TCP_ACK = false ->
      verified_find (rx_src_ip r) (h_src_port (rx_hdr r)) (h_dst_port (rx_hdr r)) p = Some (Z.of_nat s) ->
      conns p !! s = Some c -> state c = Established \/ state c = SynSent -> blind p r
  | blind_ack s c :
      rx_flag r TCP_RST = false -> rx_flag r TCP_ACK = true ->
      rx_lookup r p = Some (Z.of_nat s) -> conns p !! s = Some c ->
      is_live c = true -> state c <> SynSent -> seq_lt (snd_nxt c) (h_ack (rx_hdr r)) = true ->
      blind p r
  | blind_opening s c :
      rx_flag r TCP_RST = false -> rx_flag r TCP_SYN && negb (rx_flag r TCP_ACK) = false ->
      rx_lookup r p = Some (Z.of_nat s) -> conns p !! s = Some c -> state c = SynSent ->
      rx_flag r TCP_ACK && (h_ack (rx_hdr r) =? snd_nxt c) = false -> blind p r.

(** What a forged segment may draw: nothing, the challenge ACK of a synchronised
    connection, or the reset of an acknowledgement that is not of our SYN. *)
Definition forged_reply (p : Core) (r : RxSegment) (new : list Segment) : Prop :=
  new = [] \/ exists s c mac id meta, conns p !! s = Some c /\ new = [mkSegment meta mac id [] [] None] /\
    meta = if state_eqb (state c) SynSent then reply_meta r (h_ack (rx_hdr r)) 0 TCP_RST 0
           else reply_meta r (snd_nxt c) (rcv_nxt c) TCP_ACK (w16 (rx_free c)).

(** Everything but the bucket and the environment. *)
Definition engine_part (p : Core) :=
  (conns p, free_head p, hash p, accept_rings p, listeners p, next_offset p, tick_head (ctx p)).

Lemma engine_part_conns p p' : engine_part p' = engine_part p -> conns p' = conns p.
Proof. unfold engine_part. by intros [= -> _ _ _ _ _ _]. Qed.

Lemma allowed_engine : preserves engine_part challenge_ack_allowed.
Proof.
  intros p. unfold exec, challenge_ack_allowed. destruct (_ <=? _); [done|].
  destruct (_ && _)%bool; by destruct (0 <? _).
Qed.

Lemma on_env_engine {A} (m : St Ctx A) : preserves tick_head m -> preserves engine_part (on_env m).
Proof.
  intros Hm p. unfold exec, on_env, engine_part. specialize (Hm (ctx p)). unfold exec in Hm.
  destruct (m (ctx p)). cbn in *. by rewrite Hm.
Qed.

Lemma allowed_out p : out (ctx (exec challenge_ack_allowed p)) = out (ctx p).
Proof.
  unfold exec, challenge_ack_allowed. destruct (_ <=? _); [done|].
  destruct (_ && _)%bool; by destruct (0 <? _).
Qed.

(** A challenge ACK: the connection's own position, and nothing else changes. *)
Lemma challenge_effect l d sp dp seq ack win p :
  let p' := exec (send_challenge_ack l d sp dp seq ack win) p in
  engine_part p' = engine_part p /\
  exists new, out (ctx p') = out (ctx p) ++ new /\
    (new = [] \/ exists mac id, new = [mkSegment (mkMeta l d sp dp seq ack TCP_ACK win) mac id [] [] None]).
Proof.
  unfold send_challenge_ack. cbv zeta. rewrite exec_bind.
  pose proof (allowed_engine p) as E1. pose proof (allowed_out p) as E2.
  set (p1 := exec challenge_ack_allowed p) in *.
  destruct (eval challenge_ack_allowed p); cbn [negb].
  2:{ rewrite exec_ret. split; [done|]. exists []. rewrite app_nil_r. auto. }
  split; [rewrite on_env_engine by apply send_tick; done|].
  destruct (send_segment_out (mkMeta l d sp dp seq ack TCP_ACK win) [] (ctx p1)) as (new & Eo & Hnew).
  exists new. rewrite <-E2, <-Eo. split; [|exact Hnew].
  unfold exec, on_env. by destruct (send_segment _ _ (ctx p1)).
Qed.

(** A segment sent from a connection in [s] leaves the connection as it was. *)
Lemma on_slot_send p s c meta :
  conns p !! s = Some c ->
  let p' := exec (on_slot (Z.of_nat s) (on_ctx (send_segment meta []))) p in
  engine_part p' = engine_part p /\
  exists new, out (ctx p') = out (ctx p) ++ new /\
    (new = [] \/ exists mac id, new = [mkSegment meta mac id [] [] None]).
Proof.
  intros Hc. cbv zeta. rewrite (proj1 (exec_on_slot s _ p c Hc)), exec_on_ctx. cbn [fst snd].
  pose proof (send_tick meta [] (ctx p)) as Et. destruct (send_segment_out meta [] (ctx p)) as (new & Eo & Hn).
  split; [|by exists new]. unfold engine_part, put_conn. cbn. rewrite Et, Nat2Z.id, list_insert_id by done. done.
Qed.

(** In SYN-SENT a segment that does not acknowledge our SYN at most draws a reset. *)
Lemma opening_inert p r s c :
  conns p !! s = Some c -> state c = SynSent ->
  rx_flag r TCP_ACK && (h_ack (rx_hdr r) =? snd_nxt c) = false ->
  let p' := exec (on_slot (Z.of_nat s) (handle_syn_sent r)) p in
  engine_part p' = engine_part p /\
  exists new, out (ctx p') = out (ctx p) ++ new /\ forged_reply p r new.
Proof.
  intros Hc Hst Hna. cbv zeta. rewrite (proj1 (exec_on_slot s _ p c Hc)).
  unfold handle_syn_sent. rewrite exec_bind, exec_getc, eval_getc. unfold id. cbn [fst]. rewrite Hna.
  destruct (rx_flag r TCP_ACK) eqn:Ea; cbn [andb negb].
  - destruct (on_slot_send p s c (reply_meta r (h_ack (rx_hdr r)) 0 TCP_RST 0) Hc) as (E & new & Eo & Hn).
    rewrite (proj1 (exec_on_slot s _ p c Hc)) in E, Eo. split; [done|]. exists new. split; [done|].
    destruct Hn as [?|(mac & id & ->)]; [by left|right]. eexists s, c, mac, id, _. by rewrite Hst.
  - destruct (rx_flag r TCP_SYN); cbn [negb]; rewrite exec_ret; cbn [fst snd]; split.
    all: try (unfold engine_part, put_conn; cbn; by rewrite Nat2Z.id, list_insert_id).
    all: exists []; rewrite app_nil_r; split; [done|by left].
Qed.


(** A forged reset of the first client connection that does not acknowledge its
    SYN. *)
Definition forged_rst : RxSegment :=
  mkRx (V4 1) (V4 0) (mkHdr 80 49152 7 77 (Z.lor TCP_RST TCP_ACK) 0 20) no_options [replicate 20 0].

(** A forged acknowledgement for the same connection: it draws a reset. *)
Definition forged_ack : RxSegment :=
  mkRx (V4 1) (V4 0) (mkHdr 80 49152 7 77 TCP_ACK 0 20) no_options [replicate 20 0].


(* ------------------------------------------------------------------ *)
(** ** The challenge-ACK bucket *)

(** One request for a challenge ACK at time [t]. *)
Definition ask (t : Z) : St Core bool := on_env (modify (set_now_ms t));; challenge_ack_allowed.

(** The number of requests granted. *)
Fixpoint granted (ts : list Z) : St Core Z :=
  match ts with
  | [] => sret 0
  | t :: ts => ok <- ask t;; n <- granted ts;; sret (Z.b2z ok + n)
  end.

Definition bucket_ok (p : Core) : Prop :=
  0 <= cpu_id p < MAX_CORES /\ 0 <= challenge_tokens p <= CHALLENGE_ACK_BURST /\ 0 <= challenge_last_ms p.

(** Ten milliseconds pay for a token. *)
Definition credit (p : Core) : Z := 10 * challenge_tokens p - challenge_last_ms p.

Lemma ask_spec t p T :
  bucket_ok p -> 0 <= t <= T -> challenge_last_ms p <= T ->
  let p' := exec (ask t) p in
  bucket_ok p' /\ challenge_last_ms p' <= T /\
  10 * Z.b2z (eval (ask t) p) + credit p' <= credit p.
Proof.
  intros (Hcpu & Htok & Hlast) Ht HT. unfold ask, credit. rewrite exec_bind, eval_bind.
  change (exec (on_env (modify (set_now_ms t))) p) with (set_ctx (set_now_ms t (ctx p)) p).
  set (p1 := set_ctx _ p). unfold exec, eval, challenge_ack_allowed.
  change (cpu_id p1) with (cpu_id p). destruct (MAX_CORES <=? cpu_id p) eqn:E; bool_to_prop; [lia|].
  change (now_ms (ctx p1)) with t. change (challenge_last_ms p1) with (challenge_last_ms p).
  change (challenge_tokens p1) with (challenge_tokens p).
  set (refill := sat_mul64 _ _ / 1000).
  assert (challenge_last_ms p < t -> 0 <= refill /\ 10 * refill <= t - challenge_last_ms p) as Hr.
  { intros Hlt. unfold refill, sat_mul64, U64_MAX in *.
    pose proof (Z.mul_div_le (Z.min 18446744073709551615 ((t - challenge_last_ms p) * 100)) 1000 ltac:(lia)).
    pose proof (Z.div_pos (Z.min 18446744073709551615 ((t - challenge_last_ms p) * 100)) 1000). lia. }
  unfold bucket_ok in *.
  destruct ((challenge_last_ms p <? t) && (0 <? refill))%bool eqn:Eb.
  - apply andb_prop in Eb as [Eb1 Eb2]. bool_to_prop. destruct (Hr Eb1) as [H1 H2].
    set (tok := w32 (Z.min (challenge_tokens p + refill) 100)).
    assert (tok = Z.min (challenge_tokens p + refill) 100) as Etok by (apply w32_small; int_lia).
    change (challenge_tokens (p1 |> set_challenge_tokens tok |> set_challenge_last_ms t)) with tok.
    destruct (0 <? tok) eqn:E0; bool_to_prop; cbn; lia.
  - change (challenge_tokens p1) with (challenge_tokens p).
    destruct (0 <? challenge_tokens p) eqn:E0; bool_to_prop; cbn; lia.
Qed.

Lemma granted_spec ts : forall p T,
  bucket_ok p -> Forall (fun t => 0 <= t <= T) ts -> challenge_last_ms p <= T ->
  10 * eval (granted ts) p <= T + credit p.
Proof.
  induction ts as [|t ts IH]; intros p T Hp Hts HT; cbn [granted].
  { rewrite eval_ret. unfold credit. destruct Hp as (_ & ? & _). lia. }
  apply Forall_cons in Hts as [Ht Hts]. rewrite !eval_bind, eval_ret.
  destruct (ask_spec t p T Hp Ht HT) as (Hp' & HT' & Hc). specialize (IH _ T Hp' Hts HT'). lia.
Qed.

(** however many forged segments arrive, and however they are spaced, the
    challenge ACKs a core grants by time [T] number at most the burst of 100 plus
    one for every ten milliseconds since the bucket was last refilled. *)
Theorem challenge_acks_rate_limited ts p T :
  bucket_ok p -> Forall (fun t => 0 <= t <= T) ts -> challenge_last_ms p <= T ->
  eval (granted ts) p <= CHALLENGE_ACK_BURST + (T - challenge_last_ms p) / 10.
Proof.
  intros Hp Hts HT. pose proof (granted_spec ts p T Hp Hts HT) as H. unfold credit in H.
  destruct Hp as (_ & Htok & _).
  pose proof (Z.mul_succ_div_gt (T - challenge_last_ms p) 10 ltac:(lia)). lia.
Qed.

Lemma challenge_acks_rate_limited_witness :
  eval (granted (replicate 300 0 ++ replicate 300 20)) (core_init 0 1 idle_ctx) = 102 /\
  eval (granted (replicate 300 0 ++ replicate 300 20)) (core_init 0 1 idle_ctx) <= CHALLENGE_ACK_BURST + 2.
Proof.
  split; [vm_compute; reflexivity|].
  apply (challenge_acks_rate_limited (replicate 300 0 ++ replicate 300 20) (core_init 0 1 idle_ctx) 20).
  - vm_compute. intuition congruence.
  - apply Forall_app. split; apply Forall_replicate; lia.
  - vm_compute. congruence.
Defined.

(* ------------------------------------------------------------------ *)
(** ** A segment from another peer *)

(** C34: a defect of the lookup.  When a connection's peer has an IPv4 address
    below 128.0.0.0, a segment from the address with its top bit set, between the
    same ports, is taken for one of that connection and runs through its receive
    stages: the two addresses share a hash key, and only the path of a bare SYN
    checks the peer of the slot it finds. *)
Theorem colliding_peer_reaches_connection a r p s c :
  is_u32 a -> a mod 256 < 128 ->
  conns p !! s = Some c -> remote_ip c = V4 a ->
  is_live c = true -> state_eqb (state c) SynSent = false ->
  tcp_hash_find (conn_key c) (hash p) = Some (Z.of_nat s) ->
  rx_src_ip r = V4 (a + 128) -> h_src_port (rx_hdr r) = remote_port c -> h_dst_port (rx_hdr r) = local_port c ->
  rx_flag r TCP_RST = false -> rx_flag r TCP_SYN = false ->
  exec (rx_segment r) p = exec (rx_live (Z.of_nat s) r) p /\ rx_src_ip r <> remote_ip c.
Proof.
  intros Ha Ht Hc Er Hl Hst Hf Es E1 E2 Hrst Hsyn. split.
  - unfold rx_segment. rewrite Hrst, Hsyn. cbn [andb]. rewrite exec_bind, exec_gets, eval_gets.
    unfold rx_lookup. rewrite Es, E1, E2, tcp_hash_key_collides by done.
    unfold conn_key in Hf. rewrite Er in Hf. rewrite Hf.
    rewrite exec_bind, exec_gets, eval_gets, (conn_at_lookup _ _ _ Hc), Hl, Hst. done.
  - rewrite Es, Er. intros [= E]. lia.
Qed.

(** Slot 0 of [two_clients], established, and a FIN from 129.0.0.0. *)
Definition open_clients : Core := exec (on_slot 0 (setc (set_state Established))) two_clients.
Definition stranger_fin : RxSegment :=
  mkRx (V4 129) (V4 0) (mkHdr 80 (local_port (conn_at 0 two_clients)) 0 0 TCP_FIN 0 20) no_options [replicate 20 0].

Lemma colliding_peer_reaches_connection_witness :
  exec (rx_segment stranger_fin) open_clients = exec (rx_live 0 stranger_fin) open_clients /\
  state (conn_at 0 (exec (rx_segment stranger_fin) open_clients)) = CloseWait.
Proof.
  split; [|vm_compute; reflexivity].
  assert (exists c, conns open_clients !! 0%nat = Some c) as [c Hc]
    by (destruct (conns open_clients) eqn:E; [vm_compute in E; discriminate|eexists; reflexivity]).
  assert (conn_at 0 open_clients = c) as Ec by exact (conn_at_lookup open_clients 0 c Hc).
  apply (colliding_peer_reaches_connection 1 stranger_fin open_clients 0 c).
  - vm_compute. intuition congruence.
  - vm_compute. reflexivity.
  - exact Hc.
  - rewrite <-Ec. vm_compute. reflexivity.
  - rewrite <-Ec. vm_compute. reflexivity.
  - rewrite <-Ec. vm_compute. reflexivity.
  - rewrite <-Ec. vm_compute. reflexivity.
  - reflexivity.
  - rewrite <-Ec. vm_compute. reflexivity.
  - rewrite <-Ec. vm_compute. reflexivity.
  - reflexivity.
  - reflexivity.
Defined.
