(* ===== verification/Ports.v ===== *)
(** * Ephemeral ports, handles and accepting
    (crates/net/tcp/src/ephemeral.rs, listener.rs, pool.rs)

    The port an active open gets, the handle a socket call decodes, and what
    [accept] hands out. *)

From S2P Require Import Prelude.
From S2P Require Import NetTypes.
From S2P Require Import Wire.
From S2P Require Import TcpTypes.
From S2P Require Import RxRing.
From S2P Require Import HashTable.
From S2P Require Import Pool.
From S2P Require Import Receive.
From S2P Require Import Lifecycle.
From S2P Require Import SlotMethods.
From S2P Require Import PoolInv.
From S2P Require Import EngineInv.
From S2P Require Import TickInv.

#[local] Open Scope st_scope.

(* ------------------------------------------------------------------ *)
(** ** Ephemeral ports *)

Lemma first_offset_Some ok n : forall i j, first_offset ok i n = Some j -> i <= j < i + Z.of_nat n /\ ok j = true.
Proof.
  induction n as [|n IH]; intros i j; cbn [first_offset]; [done|]. destruct (ok i) eqn:E.
  - intros [= <-]. split; [lia|done].
  - intros H. destruct (IH _ _ H). split; [lia|done].
Qed.

Lemma first_offset_None ok n : forall i j,
  first_offset ok i n = None -> i <= j < i + Z.of_nat n -> ok j = false.
Proof.
  induction n as [|n IH]; intros i j; cbn [first_offset]; [lia|]. destruct (ok i) eqn:E; [done|].
  intros H Hj. destruct (decide (j = i)) as [->|Hne]; [done|]. apply (IH (i + 1)); [done|lia].
Qed.

Definition port_range (q : Z) : Prop := EPHEMERAL_LO <= q <= U16_MAX.

(** The scan from any cursor visits every port of the range. *)
Lemma scan_port cursor i :
  0 <= cursor < EPHEMERAL_COUNT -> 0 <= i < EPHEMERAL_COUNT ->
  EPHEMERAL_LO + w16 (w32 (cursor + i) mod EPHEMERAL_COUNT) =
    EPHEMERAL_LO + (cursor + i) mod EPHEMERAL_COUNT.
Proof.
  intros Hc Hi. rewrite (w32_small (cursor + i)) by int_lia.
  pose proof (Z.mod_pos_bound (cursor + i) 16384). rewrite w16_small by int_lia. done.
Qed.

Lemma scan_covers cursor q :
  0 <= cursor < EPHEMERAL_COUNT -> port_range q ->
  exists i, 0 <= i < EPHEMERAL_COUNT /\
    EPHEMERAL_LO + w16 (w32 (cursor + i) mod EPHEMERAL_COUNT) = q.
Proof.
  intros Hc Hq. exists ((q - EPHEMERAL_LO - cursor) mod EPHEMERAL_COUNT).
  pose proof (Z.mod_pos_bound (q - EPHEMERAL_LO - cursor) EPHEMERAL_COUNT ltac:(done)) as Hm.
  split; [done|]. rewrite scan_port, Zplus_mod_idemp_r by done.
  replace (cursor + (q - EPHEMERAL_LO - cursor)) with (q - EPHEMERAL_LO) by lia.
  unfold port_range, U16_MAX in *. rewrite Z.mod_small; lia.
Qed.

(** The flow of the connection hashes to this core. *)
Definition owned (l r : IpAddr) (rp q : Z) (p : Core) : Prop :=
  Classify.flow_owner r l rp q (num_cores p) = cpu_id p.

(** an ephemeral port is in the dynamic range, its 4-tuple has no live
    connection, and its flow hashes to this core unless every such port is taken;
    the allocation fails only when all of them are taken.  The cursor stays in
    range and nothing but the cursor changes. *)
Theorem ephemeral_port_is_free l r rp p :
  0 <= cpu_id p -> 0 <= next_offset p < EPHEMERAL_COUNT ->
  let p' := exec (alloc_ephemeral_port l r rp) p in
  let exhausted := forall q, port_range q -> owned l r rp q p -> tuple_in_use r rp q p = true in
  match eval (alloc_ephemeral_port l r rp) p with
  | Some port => port_range port /\ tuple_in_use r rp port p = false /\ (owned l r rp port p \/ exhausted)
  | None => exhausted
  end /\
  p' = set_next_offset (next_offset p') p /\ 0 <= next_offset p' < EPHEMERAL_COUNT.
Proof.
  intros Hcpu Hcur p' exhausted. unfold p', eval, exec, alloc_ephemeral_port.
  set (cursor := if cpu_id p <? MAX_CORES then next_offset p else 0).
  assert (0 <= cursor < EPHEMERAL_COUNT) as Hc by (unfold cursor; destruct (_ <? _); lia).
  assert (set_next_offset (next_offset p) p = p) as Hid by by destruct p.
  destruct (first_offset _ 0 (Z.to_nat EPHEMERAL_COUNT)) as [i|] eqn:E1.
  - apply first_offset_Some in E1 as [Hi Hok]. rewrite Z2Nat.id in Hi by done.
    apply andb_prop in Hok as [Hfree Hown]. apply negb_true_iff in Hfree. bool_to_prop.
    pose proof (Z.mod_pos_bound (cursor + i) EPHEMERAL_COUNT ltac:(done)) as Hmod. split.
    + split; [|split; [done|left; exact Hown]].
      rewrite scan_port by lia. unfold port_range, U16_MAX in *. lia.
    + cbn [snd]. destruct (_ <? MAX_CORES); [|by rewrite Hid].
      cbn [set_next_offset next_offset]. split; [by destruct p|].
      pose proof (Z.mod_pos_bound (w32 (cursor + i) mod EPHEMERAL_COUNT + 1) EPHEMERAL_COUNT ltac:(done)) as H.
      rewrite w16_small by int_lia. lia.
  - assert exhausted as Hex.
    { intros q Hq Hown. destruct (scan_covers cursor q Hc Hq) as (i & Hi & <-).
      pose proof (first_offset_None _ _ 0 i E1 ltac:(rewrite Z2Nat.id by done; lia)) as Hno.
      cbn beta in Hno. apply andb_false_iff in Hno as [Hno|Hno]; [by apply negb_false_iff in Hno|].
      unfold owned in Hown. bool_to_prop. done. }
    set (n := Z.max (num_cores p) 1).
    destruct (first_offset _ 0 (Z.to_nat (EPHEMERAL_COUNT / n))) as [i|] eqn:E2;
      (split; [|by cbn [snd]; rewrite Hid]); [|done].
    apply first_offset_Some in E2 as [Hi Hok]. apply negb_true_iff in Hok. cbn [fst].
    split; [|split; [done|by right]].
    pose proof (Z.mod_pos_bound (cpu_id p) n ltac:(lia)) as Hm.
    pose proof (Z.mul_div_le EPHEMERAL_COUNT n ltac:(lia)) as Hd.
    pose proof (Z.div_pos EPHEMERAL_COUNT n ltac:(done) ltac:(lia)) as Hp.
    rewrite Z2Nat.id in Hi by done. unfold port_range, U16_MAX in *.
    assert (0 <= cpu_id p mod n * (16384 / n) + i < 16384) by nia.
    rewrite (w16_small (_ + i)), w16_small by int_lia. lia.
Qed.

Lemma ephemeral_port_is_free_witness :
  eval (alloc_ephemeral_port (V4 0) (V4 1) 80) two_clients = Some 49154 /\
  tuple_in_use (V4 1) 80 49152 two_clients = true /\ tuple_in_use (V4 1) 80 49154 two_clients = false.
Proof.
  pose proof (ephemeral_port_is_free (V4 0) (V4 1) 80 two_clients) as H.
  assert (eval (alloc_ephemeral_port (V4 0) (V4 1) 80) two_clients = Some 49154) as E by (vm_compute; reflexivity).
  rewrite E in H. destruct H as ((_ & H & _) & _).
  - vm_compute. congruence.
  - vm_compute. split; congruence.
  - split; [exact E|]. split; [vm_compute; reflexivity|exact H].
Defined.

(* ------------------------------------------------------------------ *)
(** ** Handles *)

Lemma encode_handle_value core slot :
  0 <= core < 4294967296 -> 0 <= slot < 65536 -> encode_handle core slot = core * 65536 + slot + 1.
Proof.
  intros Hc Hs. unfold encode_handle. rewrite (Z.shiftl_mul_pow2 core 16) by lia.
  rewrite (w64_small (core * 2 ^ 16)) by int_lia. rewrite <-(Z.shiftl_mul_pow2 core 16) by lia.
  change 65535 with (Z.ones 16). rewrite Z.land_ones, Z.mod_small by lia.
  rewrite Z.lor_comm, lor_shiftl, w64_small by int_lia. change (2 ^ 16) with 65536. lia.
Qed.

(** A handle designates the core and slot it was made from. *)
Lemma handle_roundtrip cores cap core slot :
  0 <= core < cores -> cores <= 4294967296 -> 0 <= slot < cap core -> cap core <= 65536 ->
  decode_handle cores cap (encode_handle core slot) = Some (core, slot).
Proof.
  intros Hc Hn Hs Hcap. rewrite encode_handle_value by lia. unfold decode_handle.
  replace (core * 65536 + slot + 1 - 1) with (core * 65536 + slot) by lia.
  rewrite (w64_small (core * 65536 + slot)) by int_lia.
  change 65535 with (Z.ones 16). rewrite Z.land_ones, Z.shiftr_div_pow2 by lia. change (2 ^ 16) with 65536.
  replace ((core * 65536 + slot) / 65536) with core by (rewrite Z.div_add_l, Z.div_small by lia; lia).
  replace ((core * 65536 + slot) mod 65536) with slot
    by (rewrite Z.add_comm, Z.mod_add, Z.mod_small by lia; done).
  rewrite w32_small by int_lia.
  destruct (cores <=? core) eqn:E1; bool_to_prop; [lia|].
  destruct (cap core <=? slot) eqn:E2; bool_to_prop; [lia|done].
Qed.

(* ------------------------------------------------------------------ *)
(** ** Accepting *)

(** The stream handed out, and the pool after. *)
Definition accepted_one (p : Core) (port : Z) (p' : Core) (res : option (Z * Z)) : Prop :=
  match res with
  | None => conns p' = conns p /\ forall s c, conns p !! s = Some c -> acceptable port c = false
  | Some (handle, gen) => exists s c, conns p !! s = Some c /\ acceptable port c = true /\
      handle = encode_handle (cpu_id p) (Z.of_nat s) /\ gen = generation c /\
      conns p' = <[s := set_accepted true c]> (conns p)
  end.

Lemma take_accept_spec p s c :
  conns p !! s = Some c ->
  eval (take_accept (Z.of_nat s)) p = Some (encode_handle (cpu_id p) (Z.of_nat s), generation c) /\
  conns (exec (take_accept (Z.of_nat s)) p) = <[s := set_accepted true c]> (conns p).
Proof.
  intros Hc. unfold take_accept. rewrite !exec_bind, !eval_bind, exec_gets, eval_gets, exec_ret, eval_ret.
  rewrite (exec_on_slot_setc s _ p c Hc), put_conn_nat. unfold id. cbn [cpu_id conns set_conns].
  split; [|done]. do 2 f_equal. unfold conn_at. rewrite Nat2Z.id. cbn [conns set_conns].
  by rewrite list_lookup_insert_eq by (by eapply lookup_lt_Some).
Qed.

(** The entries a ring holds; the counters are [u32] and run freely. *)
Definition ar_len (r : AcceptRing) : Z := w32 (ar_head r - ar_tail r).

Record aring_ok (r : AcceptRing) : Prop := {
  ao_head : is_u32 (ar_head r);
  ao_tail : is_u32 (ar_tail r);
  ao_len : ar_len r <= ACCEPT_RING_CAPACITY;
  ao_slots : Forall is_u16 (ar_slots r)
}.

Definition rings_ok (t : AcceptRingTable) : Prop :=
  length (at_rings t) = length (at_ports t) /\ Forall aring_ok (at_rings t).

(** The entries waiting on [port]. *)
Definition waiting (port : Z) (t : AcceptRingTable) : Z :=
  match ring_idx_for_port port t with
  | (Some i, t1) => ar_len (ring_at i t1)
  | (None, _) => 0
  end.

Lemma port_index_lt f l i : port_index f l = Some i -> (i < length l)%nat.
Proof.
  revert i. induction l as [|q l IH]; intros i; cbn [port_index length]; [done|].
  destruct (f q); [intros [= <-]; lia|]. destruct (port_index f l) as [j|]; [|done].
  intros [= <-]. specialize (IH j eq_refl). lia.
Qed.

Lemma port_index_claim f l i v :
  port_index f l = None -> (i < length l)%nat -> f v = true -> port_index f (<[i := v]> l) = Some i.
Proof.
  revert i. induction l as [|q l IH]; intros i; cbn [port_index length]; [lia|].
  destruct (f q) eqn:E; [done|]. destruct (port_index f l) eqn:E2; [done|]. intros _ Hi Hv.
  destruct i as [|i]; cbn; [by rewrite Hv|]. rewrite E, IH by (done || lia). done.
Qed.

(** Claiming an entry is idempotent. *)
Lemma ring_idx_spec port t :
  rings_ok t ->
  let t1 := exec (ring_idx_for_port port) t in
  rings_ok t1 /\
  forall i, eval (ring_idx_for_port port) t = Some i ->
    port_index (fun q => q =? port) (at_ports t1) = Some i /\ (i < length (at_rings t1))%nat.
Proof.
  intros [Hlen Hok]. unfold exec, eval, ring_idx_for_port.
  destruct (port_index (fun q => q =? port) (at_ports t)) as [j|] eqn:E1; cbn [fst snd].
  { split; [done|]. intros i [= <-]. split; [done|]. rewrite Hlen. by eapply port_index_lt. }
  destruct (port_index (fun q => q =? 0) (at_ports t)) as [j|] eqn:E2; cbn [fst snd]; [|done].
  pose proof (port_index_lt _ _ _ E2) as Hj. split.
  - split; [cbn; by rewrite length_insert|done].
  - intros i [= <-]. cbn [at_ports at_rings]. rewrite port_index_claim by (done || apply Z.eqb_refl).
    split; [done|lia].
Qed.

Lemma ring_at_ok i t : rings_ok t -> (i < length (at_rings t))%nat -> aring_ok (ring_at i t).
Proof.
  intros [_ Hok] Hi. unfold ring_at. destruct (lookup_lt_is_Some_2 _ _ Hi) as [r Hr]. rewrite Hr.
  rewrite Forall_lookup in Hok. by apply (Hok i).
Qed.

Lemma put_ring_ok i r t : rings_ok t -> aring_ok r -> rings_ok (put_ring i r t).
Proof.
  intros [Hlen Hok] Hr. split; cbn; [by rewrite length_insert|by apply Forall_insert].
Qed.

Lemma waiting_at port t i :
  port_index (fun q => q =? port) (at_ports t) = Some i -> waiting port t = ar_len (ring_at i t).
Proof. intros E. unfold waiting, ring_idx_for_port. by rewrite E. Qed.

Lemma ring_at_put i r t : (i < length (at_rings t))%nat -> ring_at i (put_ring i r t) = r.
Proof. intros Hi. unfold ring_at, put_ring. cbn. by rewrite list_lookup_insert_eq. Qed.

Lemma cell_u16 l i : Forall is_u16 l -> is_u16 (cell l i).
Proof.
  intros Hl. unfold cell. destruct (l !! Z.to_nat i) as [v|] eqn:E; cbn [default]; [|int_lia].
  rewrite Forall_lookup in Hl. by apply (Hl (Z.to_nat i)).
Qed.

(** A pop takes one of the waiting entries, if there is one. *)
Lemma ring_pop_spec port t :
  rings_ok t ->
  let t' := exec (accept_ring_pop port) t in
  rings_ok t' /\
  match eval (accept_ring_pop port) t with
  | Some i => is_u16 i /\ waiting port t' = waiting port t - 1
  | None => waiting port t = 0
  end.
Proof.
  intros Ht. unfold accept_ring_pop. rewrite exec_bind, eval_bind.
  destruct (ring_idx_spec port t Ht) as [Ht1 Hidx]. unfold waiting at 2 3. rewrite (run_eta _ t).
  destruct (eval (ring_idx_for_port port) t) as [k|]; [|done].
  destruct (Hidx k eq_refl) as [Hk Hlt]. clear Hidx. set (t1 := exec _ t) in *.
  rewrite exec_bind, eval_bind, exec_gets, eval_gets. pose proof (ring_at_ok k t1 Ht1 Hlt) as [Hh Htl Hle Hs].
  destruct (_ =? _) eqn:E; bool_to_prop.
  { rewrite exec_ret, eval_ret. split; [done|]. unfold ar_len. by rewrite E, Z.sub_diag. }
  rewrite exec_bind, eval_bind, exec_ret, eval_ret, exec_modify.
  set (r := mkRing _ _ _).
  assert (ar_len r = ar_len (ring_at k t1) - 1) as El by (unfold ar_len, r in *; cbn; int_lia).
  split.
  - apply put_ring_ok; [done|]. split; [done|cbn; apply w32_range|rewrite El; lia|done].
  - split; [by apply cell_u16|]. rewrite (waiting_at port (put_ring k r t1) k) by done.
    by rewrite ring_at_put.
Qed.

Lemma ring_push_ok port slot t : rings_ok t -> is_u16 slot -> rings_ok (exec (accept_ring_push port slot) t).
Proof.
  intros Ht Hs. unfold accept_ring_push. rewrite exec_bind. destruct (ring_idx_spec port t Ht) as [Ht1 Hidx].
  destruct (eval (ring_idx_for_port port) t) as [k|]; [|done].
  destruct (Hidx k eq_refl) as [Hk Hlt]. set (t1 := exec _ t) in *.
  rewrite exec_bind, exec_gets, eval_gets. pose proof (ring_at_ok k t1 Ht1 Hlt) as [Hh Htl Hle Hsl].
  destruct (_ <=? _) eqn:E; bool_to_prop; [done|]. rewrite exec_modify.
  apply put_ring_ok; [done|]. split; cbn [ar_head ar_tail ar_slots].
  - apply w32_range.
  - done.
  - unfold ar_len in *. cbn. int_lia.
  - unfold set_cell. by apply Forall_insert.
Qed.

Lemma rings_new_ok : rings_ok rings_new.
Proof.
  split; [done|]. apply Forall_replicate. split; cbn; [int_lia|int_lia|done|].
  apply Forall_replicate. int_lia.
Qed.

Lemma waiting_bound port t : rings_ok t -> 0 <= waiting port t <= ACCEPT_RING_CAPACITY.
Proof.
  intros Ht. unfold waiting. destruct (ring_idx_spec port t Ht) as [Ht1 Hidx]. rewrite (run_eta _ t).
  destruct (eval _ t) as [k|]; [|lia]. destruct (Hidx k eq_refl) as [_ Hlt].
  pose proof (ao_len _ (ring_at_ok k _ Ht1 Hlt)). unfold ar_len in *. int_lia.
Qed.

Lemma pop_on_rings port p :
  rings_ok (accept_rings p) ->
  let p1 := exec (on_rings (accept_ring_pop port)) p in
  pool_part p1 = pool_part p /\ cpu_id p1 = cpu_id p /\ rings_ok (accept_rings p1) /\
  match eval (on_rings (accept_ring_pop port)) p with
  | Some i => is_u16 i /\ waiting port (accept_rings p1) = waiting port (accept_rings p) - 1
  | None => waiting port (accept_rings p) = 0
  end.
Proof.
  intros Ht. pose proof (ring_pop_spec port _ Ht) as H. unfold exec, eval, on_rings in *.
  by destruct (accept_ring_pop port (accept_rings p)).
Qed.

(** The loop's fuel is never what ends it: any two amounts above the entries
    waiting agree, and a ring holds at most [ACCEPT_RING_CAPACITY]. *)
Lemma accept_loop_fuel port n : forall m p,
  rings_ok (accept_rings p) -> waiting port (accept_rings p) < Z.of_nat n ->
  waiting port (accept_rings p) < Z.of_nat m -> accept_loop n port p = accept_loop m port p.
Proof.
  induction n as [|n IH]; intros m p Ht Hn Hm; [pose proof (waiting_bound port _ Ht); lia|].
  destruct m as [|m]; [pose proof (waiting_bound port _ Ht); lia|]. cbn [accept_loop]. unfold sbind, gets.
  destruct (pop_on_rings port p Ht) as (_ & _ & Ht1 & Hw). unfold exec, eval in *.
  destruct (on_rings (accept_ring_pop port) p) as [[i|] p1]; [|done]. cbn [fst snd] in *.
  destruct (acceptable port (conn_at i p1)); [done|]. destruct Hw as [_ Hw]. apply IH; [done|lia|lia].
Qed.

(** The ring's entries are hints, re-checked one by one. *)
Lemma accept_loop_spec port fuel : forall p,
  rings_ok (accept_rings p) ->
  match eval (accept_loop fuel port) p with
  | Some h => accepted_one p port (exec (accept_loop fuel port) p) (Some h)
  | None => pool_part (exec (accept_loop fuel port) p) = pool_part p /\
      cpu_id (exec (accept_loop fuel port) p) = cpu_id p
  end.
Proof.
  induction fuel as [|fuel IH]; intros p Ht; cbn [accept_loop]; [by rewrite eval_ret, exec_ret|].
  rewrite exec_bind, eval_bind. destruct (pop_on_rings port p Ht) as (Ep & Ecpu & Ht1 & Hi).
  destruct (eval (on_rings _) p) as [i|]; [|by rewrite eval_ret, exec_ret].
  destruct Hi as [Hi _]. set (p1 := exec _ p) in *.
  assert (conns p1 = conns p) as Ec by (unfold pool_part in Ep; congruence).
  rewrite exec_bind, eval_bind, exec_gets, eval_gets. destruct (acceptable port (conn_at i p1)) eqn:Ea.
  - destruct (acceptable_slot _ _ _ Ea) as (s & Hc & Es).
    replace i with (Z.of_nat s) by int_lia. destruct (take_accept_spec p1 s _ Hc) as [-> E2].
    exists s, (conn_at i p1). by rewrite <-Ec, <-Ecpu.
  - specialize (IH p1 Ht1). destruct (eval (accept_loop fuel port) p1) as [[h g]|]; [|by rewrite Ep, Ecpu in IH].
    unfold accepted_one in *. by rewrite Ec, Ecpu in IH.
Qed.

(** C28: [accept] hands out an established, not yet accepted connection of the
    port, marks it accepted so that no later call hands it out again, and gives
    its handle, which decodes back to its core and slot; every other slot is
    untouched.  It comes back empty only when no such connection exists, whatever
    the accept ring held. *)
Theorem accept_hands_out_once full p port :
  inv full p -> rings_ok (accept_rings p) -> 0 <= cpu_id p < 4294967296 ->
  accepted_one p port (exec (accept_on_port port) p) (eval (accept_on_port port) p) /\
  forall handle gen, eval (accept_on_port port) p = Some (handle, gen) ->
    exists s, forall cores cap, cpu_id p < cores <= 4294967296 ->
      cap (cpu_id p) = pool_capacity p -> decode_handle cores cap handle = Some (cpu_id p, Z.of_nat s).
Proof.
  intros [fl Hpok] Hu Hcpu.
  assert (accepted_one p port (exec (accept_on_port port) p) (eval (accept_on_port port) p)) as Hone.
  { unfold accept_on_port. rewrite exec_bind, eval_bind. pose proof (accept_loop_spec port accept_fuel p Hu) as Hl.
    destruct (eval (accept_loop accept_fuel port) p) as [h|]; [by rewrite exec_ret, eval_ret|].
    destruct Hl as [Ep Ecpu]. pose proof (pok_pool_part full fl _ _ Ep Hpok) as Hpok1.
    set (p1 := exec (accept_loop accept_fuel port) p) in *.
    assert (conns p1 = conns p) as Ec by (unfold pool_part in Ep; congruence).
    rewrite exec_bind, eval_bind, exec_gets, eval_gets.
    destruct (find_slot (acceptable port) p1) as [i|] eqn:E.
    - destruct (find_slot_Some _ _ _ _ _ Hpok1 E) as (s & c & -> & Hc & Ha).
      destruct (take_accept_spec p1 s c Hc) as [-> E2]. exists s, c. by rewrite <-Ec, <-Ecpu.
    - rewrite exec_ret, eval_ret. split; [done|]. rewrite <-Ec. by eapply find_slot_None. }
  split; [done|]. intros handle gen E. rewrite E in Hone.
  destruct Hone as (s & c & Hc & _ & -> & _). exists s. intros cores cap Hcores Hcap.
  destruct Hpok as (tl & Hp & _). pose proof (slots_bound _ _ _ _ _ Hp Hc) as Hb.
  pose proof (lookup_lt_Some _ _ _ Hc) as Hlt. pose proof (pool_capacity_ok _ _ _ Hp) as Ecap.
  destruct (po_size _ _ _ Hp) as (n & Hn & ?).
  apply handle_roundtrip; rewrite ?Hcap, ?Ecap; unfold zlen, SEGMENT_SIZE in *; lia.
Qed.

(** Slot 0 established on port 80 and queued. *)
Definition pending_core : Core :=
  exec (on_rings (accept_ring_push 80 0))
    (exec (on_slot (Z.of_nat 0) (setc (fun c =>
       c |> set_state Established |> set_listener_port 80 |> set_accepted false)))
       two_clients).

Lemma pending_inv : inv false pending_core.
Proof.
  apply inv_part; [apply on_rings_part|]. destruct (two_clients_inv false) as [fl Hpok].
  assert (exists c, conns two_clients !! 0%nat = Some c /\ is_live c = true) as (c & Hc & Hl)
    by (eexists; split; vm_compute; reflexivity).
  exists fl. eapply pok_live; [exact Hpok|exact Hc|exact Hl| |].
  - apply live_setc. intros d. split; reflexivity.
  - apply keeps_setc_timers. reflexivity.
Qed.

Lemma accept_hands_out_once_witness :
  eval (accept_on_port 80) pending_core = Some (1, 0) /\
  accepted_one pending_core 80 (exec (accept_on_port 80) pending_core) (Some (1, 0)).
Proof.
  assert (eval (accept_on_port 80) pending_core = Some (1, 0)) as E by (vm_compute; reflexivity).
  destruct (accept_hands_out_once false pending_core 80 pending_inv) as [H _].
  - assert (accept_rings pending_core = exec (accept_ring_push 80 0) rings_new) as -> by (vm_compute; reflexivity).
    apply ring_push_ok; [apply rings_new_ok|int_lia].
  - vm_compute. split; congruence.
  - rewrite E in H. split; [exact E|exact H].
Defined.
