(* ===== verification/Handshake.v ===== *)
(** * The three-way handshake

    An active opener and a passive one, connected by their own wire format: the
    SYN of [send_syn] read by the listener, the SYN-ACK of [syn_ack] read by
    [handle_syn_sent], the final ACK read by [rx_live].  Both ends reach
    [Established] agreeing on sequence numbers, addresses, MSS and options. *)

From S2P Require Import Prelude.
From S2P Require Import NetTypes.
From S2P Require Import Checksum.
From S2P Require Import TcpTypes.
From S2P Require Import TcpSend.
From S2P Require Import TcpWire.
From S2P Require Import SeqNum.
From S2P Require Import RxRing.
From S2P Require Import Rtx.
From S2P Require Import HashTable.
From S2P Require Import Pool.
From S2P Require Import Receive.
From S2P Require Import Frames.
From S2P Require Import Lifecycle.
From S2P Require Import SlotMethods.
From S2P Require Import PoolInv.
From S2P Require Import EngineInv.
From S2P Require Import Engine.

#[local] Open Scope st_scope.

(* ------------------------------------------------------------------ *)
(** ** The wire between them *)

(** The L4 bytes of an emitted segment (the checksum is the device's). *)
Definition on_wire (sg : Segment) : list Z :=
  tcp_header (sg_meta sg) (zlen (sg_options sg))
    (TCP_HDR_LEN + zlen (sg_options sg) + zlen (sg_payload sg)) ++ sg_options sg ++ sg_payload sg.

(** [m] puts exactly [sg] on the wire; the peer parses it to [r]. *)
Definition transmits {A} (m : St CS A) (s : CS) (sg : Segment) : Prop :=
  out (snd (exec m s)) = out (snd s) ++ [sg].
Definition delivered (sg : Segment) (r : RxSegment) : Prop :=
  parse_segment (sm_local_ip (sg_meta sg)) (sm_dst_ip (sg_meta sg)) [on_wire sg] = Some r.

Lemma option_bytes_wire meta sl options payload :
  option_bytes (20 + zlen options) [tcp_header meta (zlen options) sl ++ options ++ payload] = Some options.
Proof.
  unfold option_bytes, get_slice. replace (20 + zlen options - 20) with (zlen options) by lia.
  pose proof (zlen_nonneg payload). pose proof (zlen_nonneg options).
  rewrite !zlen_app, zlen_tcp_header. destruct (_ <=? _) eqn:E; bool_to_prop; [|lia].
  f_equal. unfold slice, zdrop, ztake.
  rewrite drop_app_length' by done. rewrite take_app_length' by (unfold zlen; lia). done.
Qed.

(** A parsed segment is the sender's metadata, options and bytes. *)
Lemma delivered_spec sg r :
  meta_ok (sg_meta sg) -> options_ok (sg_options sg) -> delivered sg r ->
  let m := sg_meta sg in
  r = mkRx (sm_local_ip m) (sm_dst_ip m)
        (mkHdr (sm_src_port m) (sm_dst_port m) (sm_seq m) (sm_ack m) (sm_flags m) (sm_window m)
           (20 + zlen (sg_options sg)))
        (if has_flag (sm_flags m) TCP_SYN && (20 <? 20 + zlen (sg_options sg))
         then parse_syn_options (sg_options sg) else no_options)
        [on_wire sg].
Proof.
  intros Hm Ho. unfold delivered, parse_segment, on_wire. rewrite parse_tcp_header by done.
  cbn [h_flags h_data_offset]. rewrite option_bytes_wire. by intros [= <-].
Qed.

Lemma opts_out meta payload options x :
  exists new, out (exec (send_segment_opts meta payload options) x) = out x ++ new /\
    (new = [] \/ exists mac id,
       new = [mkSegment meta mac id options (ztake (Z.min (zlen payload) MSS_MAX) payload) None]).
Proof.
  unfold send_segment_opts. autorewrite with st.
  destruct (mac_resolve x _) as [mac|]; autorewrite with st.
  - destruct (build_and_send_out (fun id => mkSegment meta mac id options
      (ztake (Z.min (zlen payload) MSS_MAX) payload) None) x) as (new & -> & H).
    exists new. split; [done|]. destruct H as [?|[id ?]]; eauto.
  - exists []. rewrite app_nil_r. auto.
Qed.

(** The segment an options-carrying control send transmits. *)
Lemma transmits_opts meta options c x sg :
  transmits (on_ctx (send_segment_opts meta [] options)) (c, x) sg ->
  sg_meta sg = meta /\ sg_options sg = options /\ sg_payload sg = [].
Proof.
  unfold transmits. rewrite exec_on_ctx. cbn [snd].
  destruct (opts_out meta [] options x) as (new & -> & Hn). intros E. apply app_inv_head in E.
  destruct Hn as [->|(mac & id & ->)]; [done|]. by injection E as <-.
Qed.

Lemma transmits_skip {A B} (m : St CS A) (k : A -> St CS B) s sg :
  transmits (sbind m k) s sg -> out (snd (exec m s)) = out (snd s) ->
  transmits (k (eval m s)) (exec m s) sg.
Proof. unfold transmits. rewrite exec_bind. by intros -> ->. Qed.

Lemma blob_options mss w k : options_ok (syn_option_blob mss w k) /\ 0 < zlen (syn_option_blob mss w k).
Proof.
  pose proof (length_to_be_bytes 2 mss) as Hl. unfold options_ok, syn_option_blob, zlen.
  destruct w, k; cbn [app length]; rewrite ?length_app, ?Hl; cbn; repeat split; lia.
Qed.

Lemma mss_u16 ip : is_u16 (w16 (mss_for ip)).
Proof. int_lia. Qed.

(** A delivered SYN-shaped segment: metadata and offered options. *)
Lemma delivered_syn sg r mss w k :
  meta_ok (sg_meta sg) -> has_flag (sm_flags (sg_meta sg)) TCP_SYN = true ->
  sg_options sg = syn_option_blob mss w k -> is_u16 mss -> delivered sg r ->
  rx_src_ip r = sm_local_ip (sg_meta sg) /\ rx_dst_ip r = sm_dst_ip (sg_meta sg) /\
  (exists off, rx_hdr r = mkHdr (sm_src_port (sg_meta sg)) (sm_dst_port (sg_meta sg)) (sm_seq (sg_meta sg))
     (sm_ack (sg_meta sg)) (sm_flags (sg_meta sg)) (sm_window (sg_meta sg)) off) /\
  rx_syn r = mkSynOptions (if w then Some 0 else None) (Some mss) k.
Proof.
  intros Hm Hf Eo Hmss Hd. destruct (blob_options mss w k) as [Hok Hpos].
  rewrite (delivered_spec sg r Hm ltac:(by rewrite Eo) Hd). cbn. rewrite Hf, Eo.
  destruct (20 <? _) eqn:E; bool_to_prop; [|lia]. cbn [andb].
  split; [done|]. split; [done|]. split; [by eexists|]. by apply parse_syn_blob.
Qed.

(* ------------------------------------------------------------------ *)
(** ** The three segments *)

Section Handshake.
Context (lip rip : IpAddr) (lp rp iss isn : Z).
Hypothesis Hlip : ip_ok lip.
Hypothesis Hrip : ip_ok rip.
Hypothesis Hfam : same_family lip rip.
Hypothesis Hlp : is_u16 lp.
Hypothesis Hrp : is_u16 rp.
Hypothesis Hiss : is_u32 iss.
Hypothesis Hisn : is_u32 isn.

(** The opener after [connect_on_core]. *)
Definition opening (c : TcpConnection) : Prop :=
  sync_view (c, idle_ctx) =
    (SynSent, (iss, w32 (iss + 1), rcv_nxt c), (snd_mss c, sack_ok c, wscale_ok c, snd_wscale c),
     (lip, rip, lp, rp)).

(** The negotiated MSS: both ends offer their family's default. *)
Definition agreed_mss : Z := negotiated_mss lip (Some (w16 (mss_for rip))).

Definition client_synced (c : TcpConnection) : Prop :=
  sync_view (c, idle_ctx) =
    (Established, (w32 (iss + 1), w32 (iss + 1), w32 (isn + 1)), (agreed_mss, true, true, 0),
     (lip, rip, lp, rp)).

Definition server_synced (st : TcpState) (una nxt : Z) (c : TcpConnection) : Prop :=
  sync_view (c, idle_ctx) =
    (st, (una, nxt, w32 (iss + 1)), (agreed_mss, true, true, 0), (rip, lip, rp, lp)).

Lemma mss_same : mss_for lip = mss_for rip.
Proof. unfold same_family in Hfam. by destruct lip, rip. Qed.

Lemma syn_segment c x syn r :
  opening c -> transmits send_syn (c, x) syn -> delivered syn r ->
  rx_src_ip r = lip /\ rx_dst_ip r = rip /\
  (exists off, rx_hdr r = mkHdr lp rp iss 0 TCP_SYN 16384 off) /\
  rx_syn r = mkSynOptions (Some 0) (Some (w16 (mss_for lip))) true.
Proof.
  intros Hc Ht Hd. unfold opening, sync_view in Hc. cbn [fst] in Hc. rewrite !pair_equal_spec in Hc.
  destruct Hc as [[[_ [[Eu _] _]] _] [[[El Er] Elp] Erp]].
  unfold send_syn in Ht. apply transmits_skip in Ht; [|done].
  rewrite eval_getc, exec_getc in Ht. unfold id in Ht. cbn [fst] in Ht.
  apply transmits_opts in Ht as (Em & Eo & _). rewrite El, Er, Elp, Erp, Eu in Em. rewrite El in Eo.
  destruct (delivered_syn syn r (w16 (mss_for lip)) true true) as (E1 & E2 & (off & E3) & E4); try done.
  - rewrite Em. unfold meta_ok. cbn. repeat split; try done; try int_lia; apply Hiss.
  - by rewrite Em.
  - apply mss_u16.
  - rewrite Em in *. cbn in *. split; [done|]. split; [done|]. split; [|done]. exists off. by rewrite E3.
Qed.

(** The listener's connection before and after its SYN-ACK. *)
Definition passive (r : RxSegment) (s0 : CS) : CS :=
  exec (setc (syn_received r isn);; congestion_init;; setc reset_ring) s0.

Lemma passive_synced r s0 :
  rx_src_ip r = lip -> rx_dst_ip r = rip -> (exists off, rx_hdr r = mkHdr lp rp iss 0 TCP_SYN 16384 off) ->
  rx_syn r = mkSynOptions (Some 0) (Some (w16 (mss_for lip))) true ->
  server_synced SynReceived isn isn (fst (passive r s0)).
Proof.
  intros E1 E2 [off E3] E4. unfold server_synced, passive, congestion_init.
  rewrite !exec_bind, !exec_setc. unfold sync_view. cbn. rewrite E1, E2, E3, E4. cbn.
  unfold agreed_mss. by rewrite mss_same.
Qed.

Lemma syn_ack_segment r1 s synack r :
  rx_src_ip r1 = lip -> rx_dst_ip r1 = rip -> (exists off, rx_hdr r1 = mkHdr lp rp iss 0 TCP_SYN 16384 off) ->
  server_synced SynReceived isn isn (fst s) ->
  transmits (syn_ack r1) s synack -> delivered synack r ->
  rx_src_ip r = rip /\ rx_dst_ip r = lip /\
  (exists off, rx_hdr r = mkHdr rp lp isn (w32 (iss + 1)) (Z.lor TCP_SYN TCP_ACK) 16384 off) /\
  rx_syn r = mkSynOptions (Some 0) (Some (w16 (mss_for rip))) true.
Proof.
  intros E1 E2 [off E3] Hs Ht Hd. unfold server_synced, sync_view in Hs. cbn [fst] in Hs.
  rewrite !pair_equal_spec in Hs.
  destruct Hs as [[[_ [[_ En] Ercv]] [[[_ Esack] Ews] _]] [[[El _] _] _]].
  unfold syn_ack in Ht. apply transmits_skip in Ht; [|done].
  rewrite eval_getc, exec_getc in Ht. unfold id in Ht. destruct s as [s y]. cbn [fst] in *.
  apply transmits_opts in Ht as (Em & Eo & _). unfold reply_meta in Em.
  rewrite E1, E2, E3, En, Ercv in Em. rewrite El, Esack, Ews in Eo. cbn in Em.
  destruct (delivered_syn synack r (w16 (mss_for rip)) true true) as (F1 & F2 & (off' & F3) & F4); try done.
  - rewrite Em. unfold meta_ok. cbn. pose proof (w32_range (iss + 1)).
    repeat split; try done; try int_lia; try apply Hisn.
  - by rewrite Em.
  - apply mss_u16.
  - rewrite Em in *. cbn in *. split; [done|]. split; [done|]. split; [|done]. exists off'. by rewrite F3.
Qed.

(** [handle_syn_sent] past its assignments, up to the reply. *)
Definition sample_handshake : St CS unit :=
  congestion_init;;
  c <- getc id;;
  now <- now;;
  swhen (rtt_anchor_active c && negb (seq_lt (snd_una c) (rtt_anchor_seq c)))
    (setc (fun c =>
       let elapsed := sat_sub now (rtt_anchor_ms c) in
       let c := c |> sample_rtt (w32 (Z.min elapsed U32_MAX)) |> set_rtt_anchor_active false in
       set_rto_ms (estimated_rto c) c)).

Lemma sample_handshake_quiet s :
  sync_view (exec sample_handshake s) = sync_view s /\ out (snd (exec sample_handshake s)) = out (snd s).
Proof.
  assert (preserves (fun s => (sync_view s, out (snd s))) sample_handshake) as H.
  { unfold sample_handshake, congestion_init. preserve_cs. apply preserves_setc. intros t.
    unfold sync_view, sample_rtt. cbn [fst snd]. by destruct (negb _). }
  specialize (H s). cbv beta in H. by rewrite pair_equal_spec in H.
Qed.

Lemma wakes_out s : out (snd (exec (wake_send;; wake_recv) s)) = out (snd s).
Proof.
  destruct s as [c x]. unfold exec, sbind, wake_recv, wake_send. cbn.
  destruct (send_waker c); cbn; by destruct (recv_waker c).
Qed.

(** The reply of [handle_syn_sent]. *)
Lemma bare_ack_segment r s ack :
  client_synced (fst s) -> rx_src_ip r = rip -> rx_dst_ip r = lip ->
  h_src_port (rx_hdr r) = rp -> h_dst_port (rx_hdr r) = lp -> transmits (bare_ack r) s ack ->
  exists w, is_u16 w /\ sg_options ack = [] /\ sg_payload ack = [] /\
    sg_meta ack = mkMeta lip rip lp rp (w32 (iss + 1)) (w32 (isn + 1)) TCP_ACK w.
Proof.
  intros Hs E1 E2 E3 E4 Ht. unfold client_synced, sync_view in Hs. cbn [fst] in Hs.
  rewrite !pair_equal_spec in Hs. destruct Hs as [[[_ [[_ En] Er]] _] _].
  unfold bare_ack in Ht. apply transmits_skip in Ht; [|done].
  rewrite eval_getc, exec_getc in Ht. unfold id in Ht. destruct s as [c x]. cbn [fst] in *.
  apply transmits_opts in Ht as (Em & Eo & Ep). exists (w16 (rx_free c)). split; [int_lia|].
  do 2 (split; [done|]). rewrite Em. unfold reply_meta. by rewrite E1, E2, E3, E4, En, Er.
Qed.

Lemma client_establishes c x r ack :
  opening c -> rx_src_ip r = rip -> rx_dst_ip r = lip ->
  (exists off, rx_hdr r = mkHdr rp lp isn (w32 (iss + 1)) (Z.lor TCP_SYN TCP_ACK) 16384 off) ->
  rx_syn r = mkSynOptions (Some 0) (Some (w16 (mss_for rip))) true ->
  transmits (handle_syn_sent r) (c, x) ack ->
  client_synced (fst (exec (handle_syn_sent r) (c, x))) /\
  exists w, is_u16 w /\ sg_options ack = [] /\ sg_payload ack = [] /\
    sg_meta ack = mkMeta lip rip lp rp (w32 (iss + 1)) (w32 (isn + 1)) TCP_ACK w.
Proof.
  intros Hc E1 E2 [off E3] E4. unfold opening, sync_view in Hc. cbn [fst] in Hc.
  rewrite !pair_equal_spec in Hc. destruct Hc as [[[Est [[Eu En] _]] _] [[[El Er] Elp] Erp]].
  assert (exists c1, client_synced c1 /\ exec (handle_syn_sent r) (c, x) =
    exec (sample_handshake;; bare_ack r;; wake_send;; wake_recv) (c1, x)) as (c1 & Hc1 & Eexec).
  { unfold handle_syn_sent. rewrite exec_bind, exec_getc, eval_getc. unfold id, rx_flag. cbn [fst].
    rewrite E3, E4. cbn [h_flags h_ack h_seq h_window so_wscale so_mss so_sack_permitted].
    rewrite En, Z.eqb_refl.
    change (has_flag (Z.lor TCP_SYN TCP_ACK) TCP_ACK) with true.
    change (has_flag (Z.lor TCP_SYN TCP_ACK) TCP_SYN) with true. cbn [andb negb].
    rewrite exec_bind, exec_setc. cbn [fst snd]. eexists. split; [|unfold sample_handshake; rewrite !exec_bind; reflexivity].
    unfold client_synced, sync_view, agreed_mss. cbn. by rewrite En, El, Er, Elp, Erp. }
  unfold transmits. rewrite Eexec. cbn [snd]. clear Eexec.
  destruct (sample_handshake_quiet (c1, x)) as [Hsync Hout].
  rewrite (exec_bind sample_handshake). set (s2 := exec sample_handshake (c1, x)) in *.
  rewrite (exec_bind (bare_ack r)), wakes_out. change (out x) with (out (snd (c1, x))). rewrite <-Hout. intros Ht.
  assert (client_synced (fst s2)) as Hc2 
    by (unfold client_synced; change (sync_view (fst s2, idle_ctx)) with (sync_view s2);
        rewrite Hsync; exact Hc1).
  split.
  - pose proof (conn_sync _ (bare_ack_conn r) s2) as E1'.
    assert (preserves sync_view (wake_send;; wake_recv)) as E2'
      by (apply conn_sync; preserve_cs).
    specialize (E2' (exec (bare_ack r) s2)). unfold client_synced in *. rewrite <-Hc2.
    change (sync_view (fst s2, idle_ctx)) with (sync_view s2). rewrite <-E1', <-E2'. reflexivity.
  - apply (bare_ack_segment r s2 ack); try done; by rewrite E3.
Qed.

(** The slot after a method that keeps the synchronised part. *)
Lemma slot_sync {A} q slot c (m : St CS A) v :
  conns q !! slot = Some c -> sync_view (c, idle_ctx) = v -> preserves sync_view m ->
  exists c', conns (exec (on_slot (Z.of_nat slot) m) q) !! slot = Some c' /\ sync_view (c', idle_ctx) = v.
Proof.
  intros Hc <- Hm. eexists. split; [by apply on_slot_lookup|]. exact (Hm (c, ctx q)).
Qed.

Lemma stages_sync r prev :
  payload_len r = 0 -> rx_flag r TCP_FIN = false ->
  preserves sync_view (rx_data r;; rx_fin r;; rx_time_wait r prev;; rx_liveness).
Proof.
  intros Hp Hf. unfold rx_data, rx_fin, rx_time_wait. rewrite Hp, Hf, andb_false_r.
  change (0 <? 0) with false. cbn [andb].
  do 3 (apply preserves_bind; [done|intros _]). apply conn_sync, liveness_conn.
Qed.

Lemma refresh_sync h c : sync_view (refresh_window h c, idle_ctx) = sync_view (c, idle_ctx).
Proof. unfold refresh_window. by destruct (_ || _)%bool. Qed.

Lemma on_rings_conns {A} (m : St AcceptRingTable A) q : conns (exec (on_rings m) q) = conns q.
Proof. unfold exec, on_rings. by destruct (m (accept_rings q)). Qed.

Lemma on_env_conns {A} (m : St Ctx A) q : conns (exec (on_env m) q) = conns q.
Proof. unfold exec, on_env. by destruct (m (ctx q)). Qed.

(** The server's ACK stage: the connection is established and queued. *)
Lemma ack_establishes q slot c r :
  conns q !! slot = Some c -> server_synced SynReceived isn (w32 (isn + 1)) c ->
  h_ack (rx_hdr r) = w32 (isn + 1) ->
  eval (rx_ack (Z.of_nat slot) r) q = false /\
  exists c', conns (exec (rx_ack (Z.of_nat slot) r) q) !! slot = Some c' /\
    server_synced Established (w32 (isn + 1)) (w32 (isn + 1)) c'.
Proof.
  intros Hc Hs Ha. pose proof Hs as Hs'.
  unfold server_synced, sync_view in Hs'. cbn [fst] in Hs'.
  rewrite !pair_equal_spec in Hs'. destruct Hs' as [[[Est [[Eu En] Er]] _] _].
  unfold rx_ack. rewrite exec_bind, eval_bind, exec_gets, eval_gets, (conn_at_lookup _ _ _ Hc).
  rewrite Ha, En, seq_lt_self, Est, Eu. change (state_eqb SynReceived SynReceived) with true.
  replace (seq_lt isn (w32 (isn + 1))) with true
    by (rewrite <-(w32_small isn Hisn) at 1; rewrite seq_lt_abs by lia; symmetry; apply Z.ltb_lt; lia).
  cbn [andb]. rewrite !exec_bind, !eval_bind. split; [done|].
  set (q1 := exec (on_slot _ (setc (refresh_window _))) q).
  assert (conns q1 !! slot = Some (refresh_window (rx_hdr r) c)) as H1
    by exact (on_slot_lookup slot (setc (refresh_window (rx_hdr r))) q c Hc).
  set (q2 := exec (on_slot _ (setc _)) q1).
  pose proof (on_slot_lookup slot (setc (fun c => c |> set_state Established |> set_snd_una (w32 (isn + 1)))) q1 _ H1) as H2.
  fold q2 in H2. rewrite exec_setc in H2. cbn [fst] in H2.
  destruct (slot_sync (exec (on_env (deliver_tcp_ready (listener_port c)))
      (exec (on_rings (accept_ring_push (listener_port c) (w16 (Z.of_nat slot)))) q2)) slot _
      (ack_recovery r isn (is_dup_ack r c)) _
      ltac:(rewrite on_env_conns, on_rings_conns; exact H2) eq_refl (conn_sync _ (recovery_conn _ _ _)))
    as (c3 & H3 & Hv).
  exists c3. split; [exact H3|]. unfold server_synced in *. rewrite Hv.
  pose proof (refresh_sync (rx_hdr r) c) as Hr. rewrite Hs in Hr. unfold sync_view in *. cbn in *.
  rewrite !pair_equal_spec in *. intuition.
Qed.

(** The server reads the final ACK. *)
Lemma server_establishes q slot c r off win wire :
  conns q !! slot = Some c -> server_synced SynReceived isn (w32 (isn + 1)) c ->
  r = mkRx lip rip (mkHdr lp rp (w32 (iss + 1)) (w32 (isn + 1)) TCP_ACK win off) no_options [wire] ->
  zlen wire = off ->
  exists c', conns (exec (rx_live (Z.of_nat slot) r) q) !! slot = Some c' /\
    server_synced Established (w32 (isn + 1)) (w32 (isn + 1)) c'.
Proof.
  intros Hc Hs Er Hw. destruct (ack_establishes q slot c r Hc Hs ltac:(by rewrite Er)) as (Ed & c1 & H1 & Hs1).
  unfold rx_live. rewrite exec_bind, exec_gets, exec_bind.
  replace (rx_flag r TCP_ACK) with true by (by rewrite Er). rewrite Ed.
  apply (slot_sync _ _ c1); [done|done|]. apply stages_sync; [|by rewrite Er].
  rewrite Er. unfold payload_len, total_len, sat_sub. cbn. lia.
Qed.

End Handshake.

(* ------------------------------------------------------------------ *)
(** ** The listener's side of the pool *)

(** What the core has put on the wire. *)
Definition core_out (p : Core) : list Segment := out (ctx p).

Lemma on_slot_out {A} i (m : St CS A) :
  preserves (fun s => out (snd s)) m -> preserves core_out (on_slot i m).
Proof.
  intros Hm p. unfold exec, on_slot, core_out. specialize (Hm (conn_at i p, ctx p)). unfold exec in Hm.
  destruct (m _) as [a [c x]]. exact Hm.
Qed.

Lemma on_env_out {A} (m : St Ctx A) : preserves out m -> preserves core_out (on_env m).
Proof.
  intros Hm p. unfold exec, on_env, core_out. specialize (Hm (ctx p)). unfold exec in Hm.
  by destruct (m (ctx p)).
Qed.

Lemma free_slots_out base n : preserves core_out (free_slots base n).
Proof. induction n as [|n IH]; cbn [free_slots]; [done|]. by apply preserves_bind. Qed.

Lemma unlink_out slot p : core_out (tick_unlink slot p) = core_out p.
Proof.
  unfold tick_unlink. destruct (tick_in_list _); [|done]. destruct (_ =? _); [done|].
  destruct (_ =? _); [done|].
  generalize (tick_head (ctx p)) as prev, (tick_next (conn_at slot p)) as next.
  induction (length (conns p)) as [|n IH]; intros prev next; cbn [unlink_after]; [done|].
  destruct (_ =? _); [done|]. destruct (_ =? _); [done|]. apply IH.
Qed.

Lemma reserve_out : preserves out try_reserve.
Proof. intros x. unfold exec, try_reserve. by destruct (allocs x). Qed.

Lemma pool_alloc_out : preserves core_out pool_alloc.
Proof.
  assert (preserves core_out pool_pop) as Hpop
    by (intros p; unfold exec, pool_pop; by destruct (_ =? _)).
  unfold pool_alloc, grow_segment. apply preserves_bind; [done|]. intros [s|]; [done|].
  apply preserves_bind; [|by intros []]. apply preserves_bind; [done|intros segs].
  destruct (_ <=? _); [done|]. apply preserves_bind; [apply on_env_out, reserve_out|intros []]; [|done].
  cbn [negb]. apply preserves_bind; [done|intros _]. apply preserves_bind; [apply free_slots_out|done].
Qed.

Lemma free_connection_out slot : preserves core_out (free_connection slot).
Proof.
  unfold free_connection. apply preserves_bind; [done|intros c]. destruct (_ && _)%bool; [done|].
  apply preserves_bind; [by apply preserves_when|intros _].
  apply preserves_bind; [intros p; apply unlink_out|intros _].
  apply preserves_bind; [|intros _; done].
  apply on_slot_out. intros [d x]. unfold exec, sbind, wake_recv, wake_send. cbn.
  destruct (recv_waker d); cbn; by destruct (send_waker d).
Qed.

Lemma alloc_out : preserves core_out alloc_connection.
Proof.
  unfold alloc_connection. apply preserves_bind; [apply pool_alloc_out|intros [s|]].
  - by apply preserves_bind.
  - apply preserves_bind; [done|intros [v|]; [|done]].
    apply preserves_bind; [apply free_connection_out|intros _; apply pool_alloc_out].
Qed.

Lemma ring_out : preserves (fun s => out (snd s)) ensure_rx_ring.
Proof. unfold ensure_rx_ring. preserve_cs. Qed.

Lemma next_seq_u32 x : is_u32 (eval next_seq x) /\ out (exec next_seq x) = out x.
Proof. unfold eval, exec, next_seq. destruct (rng x); cbn; split; try done; int_lia. Qed.

Lemma refuse_out r p :
  exists new, core_out (exec (refuse_syn r) p) = core_out p ++ new /\
    forall sg, In sg new -> has_flag (sm_flags (sg_meta sg)) TCP_SYN = false.
Proof.
  unfold refuse_syn, send_rst, core_out.
  destruct (send_segment_out (mkMeta (rx_dst_ip r) (rx_src_ip r) (h_dst_port (rx_hdr r)) (h_src_port (rx_hdr r))
    0 (w32 (h_seq (rx_hdr r) + 1)) (Z.lor TCP_RST TCP_ACK) 0) [] (ctx p)) as (new & Eo & Hn).
  exists new. split.
  - rewrite <-Eo. unfold exec, on_env. by destruct (send_segment _ _ (ctx p)).
  - intros sg Hin. destruct Hn as [->|(mac & id & ->)]; [by destruct Hin|].
    by destruct Hin as [<-|[]].
Qed.

Lemma slot_state {A} s (m : St CS A) p c :
  conns p !! s = Some c ->
  let p' := exec (on_slot (Z.of_nat s) m) p in
  exists c', conns p' !! s = Some c' /\ (c', ctx p') = exec m (c, ctx p).
Proof.
  intros Hc p'. exists (fst (exec m (c, ctx p))). split; [by apply on_slot_lookup|].
  unfold p'. rewrite (proj1 (exec_on_slot s m p c Hc)). by destruct (exec m (c, ctx p)).
Qed.

(** The slot's connection through the tail of [accept_syn]. *)
Lemma answer_slot s r isn ins q c :
  conns q !! s = Some c ->
  let p := exec (on_slot (Z.of_nat s) (setc (syn_received r isn);; congestion_init;; setc reset_ring);;
    modify (fun p => set_hash (ins (hash p)) p);; on_slot (Z.of_nat s) (syn_ack r);;
    on_slot (Z.of_nat s) (setc (fun c => set_snd_nxt (w32 (snd_nxt c + 1)) c))) q in
  let s2 := exec (syn_ack r) (passive isn r (c, ctx q)) in
  conns p !! s = Some (set_snd_nxt (w32 (snd_nxt (fst s2) + 1)) (fst s2)) /\ core_out p = out (snd s2).
Proof.
  intros Hc p s2. unfold p. rewrite exec_bind.
  destruct (slot_state s (setc (syn_received r isn);; congestion_init;; setc reset_ring) q c Hc) as (c1 & H1 & E1).
  set (q1 := exec (on_slot _ _) q) in *. rewrite exec_bind.
  set (q2 := exec (modify _) q1). change (conns q2 !! s = Some c1) in H1. change (ctx q1) with (ctx q2) in E1.
  rewrite exec_bind. destruct (slot_state s (syn_ack r) q2 c1 H1) as (c2 & H2 & E2).
  set (q3 := exec (on_slot _ (syn_ack r)) q2) in *. rewrite E1 in E2.
  destruct (slot_state s (setc (fun c => set_snd_nxt (w32 (snd_nxt c + 1)) c)) q3 c2 H2) as (c3 & H3 & E3).
  rewrite exec_setc in E3. cbn [fst snd] in E3. apply pair_equal_spec in E3 as [E3 E4].
  rewrite H3. unfold s2, passive, core_out. rewrite <-E2. cbn [fst snd]. by rewrite E3, E4.
Qed.

(** A listener that answers with a SYN-ACK has allocated and initialised the
    slot the SYN-ACK speaks for. *)
Lemma accept_syn_answers q0 fl r synack :
  pok false fl q0 -> core_out (exec (accept_syn r) q0) = core_out q0 ++ [synack] ->
  has_flag (sm_flags (sg_meta synack)) TCP_SYN = true ->
  exists slot isn s1, is_u32 isn /\ transmits (syn_ack r) (passive isn r s1) synack /\
    let c2 := fst (exec (syn_ack r) (passive isn r s1)) in
    conns (exec (accept_syn r) q0) !! slot = Some (set_snd_nxt (w32 (snd_nxt c2 + 1)) c2).
Proof.
  intros Hpok. unfold accept_syn. cbv zeta. rewrite exec_bind.
  pose proof (alloc_connection_spec false fl q0 Hpok) as Ha. pose proof (alloc_out q0) as Eo.
  set (q1 := exec alloc_connection q0) in *.
  destruct (eval alloc_connection q0) as [i|].
  2:{ rewrite exec_ret, Eo. intros E _. by apply (f_equal length) in E; rewrite length_app in E; cbn in E; lia. }
  destruct Ha as (s & fl' & -> & _ & (_ & g & c & Hc) & _).
  rewrite exec_bind. set (e := on_slot (Z.of_nat s) ensure_rx_ring).
  pose proof (on_slot_lookup s ensure_rx_ring q1 _ Hc) as Hc2.
  pose proof (on_slot_out (Z.of_nat s) _ ring_out q1) as Eo2. fold e in Hc2, Eo2.
  set (q2 := exec e q1) in *. destruct (eval e q1); cbn [negb].
  2:{ rewrite exec_bind, free_connection_out. destruct (refuse_out r q2) as (new & -> & Hn).
      rewrite Eo2, Eo. intros E Hf. apply app_inv_head in E as ->. rewrite Hn in Hf; [done|by left]. }
  rewrite exec_bind. set (q3 := exec (on_env next_seq) q2).
  assert (conns q3 !! s = conns q2 !! s) as E3 by (unfold q3; by rewrite on_env_conns).
  assert (core_out q3 = core_out q0) as Eo3.
  { rewrite <-Eo, <-Eo2. unfold q3. apply on_env_out. intros x. apply next_seq_u32. }
  replace (eval (on_env next_seq) q2) with (eval next_seq (ctx q2))
    by (unfold eval, on_env; by destruct (next_seq (ctx q2))).
  destruct (next_seq_u32 (ctx q2)) as [Hisn _]. set (isn := eval next_seq (ctx q2)) in *.
  rewrite Hc2 in E3. set (c3 := fst _) in E3.
  destruct (answer_slot s r isn (tcp_hash_insert (tcp_hash_key (rx_src_ip r) (h_src_port (rx_hdr r))
    (h_dst_port (rx_hdr r))) (Z.of_nat s)) q3 c3 E3) as [Hs Hout].
  rewrite Hout. intros E _. exists s, isn, (c3, ctx q3). split; [done|]. split; [|exact Hs].
  unfold transmits. rewrite E, <-Eo3. done.
Qed.

(* ------------------------------------------------------------------ *)
(** ** The whole handshake *)

Lemma opening_syn_sent lip rip lp rp iss now c0 c :
  sync_view (c, idle_ctx) = sync_view (syn_sent lip rip lp rp iss now c0, idle_ctx) ->
  opening lip rip lp rp iss c.
Proof. unfold opening, sync_view. cbn. rewrite !pair_equal_spec. intuition congruence. Qed.

Lemma syn_ack_conn r s : fst (exec (syn_ack r) s) = fst s.
Proof. destruct s as [c x]. unfold syn_ack. rewrite exec_bind, exec_getc, exec_on_ctx. done. Qed.

Lemma bump_synced lip rip lp rp iss isn c :
  server_synced lip rip lp rp iss SynReceived isn isn c ->
  server_synced lip rip lp rp iss SynReceived isn (w32 (isn + 1)) (set_snd_nxt (w32 (snd_nxt c + 1)) c).
Proof. unfold server_synced, sync_view. cbn. rewrite !pair_equal_spec. intuition congruence. Qed.

(** C3: a three-way handshake whose three segments are delivered brings both
    ends to [Established] with matching state: each end's [rcv_nxt] is the other's
    [snd_nxt], nothing is unacknowledged, addresses and ports mirror each other,
    and both have the same MSS with window scaling and SACK on.  The opener is as
    [open_connection] leaves it (its timers may have moved since its SYN), the
    listener's core is any reachable one, and every segment goes through the
    wire format. *)
Theorem handshake_synchronises lip rip lp rp iss now c0 c x x' syn r1 cpu cores y q0 synack r2 ack r3 :
  ip_ok lip -> ip_ok rip -> same_family lip rip -> is_u16 lp -> is_u16 rp -> is_u32 iss ->
  transmits send_syn (syn_sent lip rip lp rp iss now c0, x) syn -> delivered syn r1 ->
  rtc step (core_init cpu cores y) q0 ->
  core_out (exec (accept_syn r1) q0) = core_out q0 ++ [synack] ->
  has_flag (sm_flags (sg_meta synack)) TCP_SYN = true -> delivered synack r2 ->
  sync_view (c, idle_ctx) = sync_view (syn_sent lip rip lp rp iss now c0, idle_ctx) ->
  transmits (handle_syn_sent r2) (c, x') ack -> delivered ack r3 ->
  exists isn slot cs, conns (exec (accept_syn r1) q0) !! slot = Some cs /\
    client_synced lip rip lp rp iss isn (fst (exec (handle_syn_sent r2) (c, x'))) /\
    forall q, conns q !! slot = Some cs ->
      exists c', conns (exec (rx_live (Z.of_nat slot) r3) q) !! slot = Some c' /\
        server_synced lip rip lp rp iss Established (w32 (isn + 1)) (w32 (isn + 1)) c'.
Proof.
  intros Hl Hr Hf Hlp Hrp Hiss Ht1 Hd1 Hreach Ht2 Hflag Hd2 Hsync Ht3 Hd3.
  destruct (reach_inv _ _ (inv_init false cpu cores y) Hreach) as [fl Hpok].
  destruct (syn_segment lip rip lp rp iss Hl Hr Hf Hlp Hrp Hiss _ x syn r1
    (opening_syn_sent lip rip lp rp iss now c0 _ eq_refl) Ht1 Hd1) as (A1 & A2 & A3 & A4).
  destruct (accept_syn_answers q0 fl r1 synack Hpok Ht2 Hflag) as (slot & isn & s1 & Hisn & Htr & Hslot).
  pose proof (passive_synced lip rip lp rp iss isn Hl Hr Hf r1 s1 A1 A2 A3 A4) as Hpas.
  destruct (syn_ack_segment lip rip lp rp iss isn Hl Hr Hf Hlp Hrp Hisn r1 _ synack r2 A1 A2 A3 Hpas Htr Hd2)
    as (B1 & B2 & B3 & B4).
  destruct (client_establishes lip rip lp rp iss isn c x' r2 ack
    (opening_syn_sent lip rip lp rp iss now c0 c Hsync) B1 B2 B3 B4 Ht3) as (Hcl & w & Hw & Eo & Ep & Em).
  exists isn, slot. eexists. split; [exact Hslot|]. split; [exact Hcl|]. intros q Hq.
  pose proof (delivered_spec ack r3 ltac:(rewrite Em; unfold meta_ok; cbn;
    pose proof (w32_range (iss + 1)); pose proof (w32_range (isn + 1)); repeat split; try done; try int_lia; apply Hw)
    ltac:(rewrite Eo; by vm_compute) Hd3) as Er3. cbv zeta in Er3. rewrite Em, Eo in Er3.
  apply (server_establishes lip rip lp rp iss isn Hisn q slot _ r3 _ _ _ Hq) in Er3; [exact Er3|..].
  - apply bump_synced. by rewrite syn_ack_conn.
  - unfold on_wire. rewrite Eo, Ep, !zlen_app, zlen_tcp_header. done.
Qed.

(* ------------------------------------------------------------------ *)
(** ** A handshake *)

Definition alice : IpAddr := V4 167772161.
Definition bob : IpAddr := V4 167772162.
Definition opener : TcpConnection := syn_sent alice bob 49152 80 4294967295 5 new_conn.
Definition listening : Core := exec (listen_on_core 80) (core_init 0 1 idle_ctx).

(** The last segment sent, and what the peer reads. *)
Definition last_sent (l : list Segment) : Segment :=
  List.last l (mkSegment (mkMeta alice alice 0 0 0 0 0 0) (mkMac []) 0 [] [] None).
Definition reads (sg : Segment) : RxSegment :=
  default (mkRx alice alice (mkHdr 0 0 0 0 0 0 0) no_options [])
    (parse_segment (sm_local_ip (sg_meta sg)) (sm_dst_ip (sg_meta sg)) [on_wire sg]).

Definition hs_syn : Segment := last_sent (out (snd (exec send_syn (opener, idle_ctx)))).
Definition hs_accepted : Core := exec (accept_syn (reads hs_syn)) listening.
Definition hs_syn_ack : Segment := last_sent (core_out hs_accepted).
Definition hs_opened : CS := exec (handle_syn_sent (reads hs_syn_ack)) (opener, idle_ctx).
Definition hs_ack : Segment := last_sent (out (snd hs_opened)).

Lemma handshake_synchronises_witness :
  exists isn slot c, client_synced alice bob 49152 80 4294967295 isn (fst hs_opened) /\
    conns (exec (rx_live (Z.of_nat slot) (reads hs_ack)) hs_accepted) !! slot = Some c /\
    server_synced alice bob 49152 80 4294967295 Established (w32 (isn + 1)) (w32 (isn + 1)) c.
Proof.
  destruct (handshake_synchronises alice bob 49152 80 4294967295 5 new_conn opener idle_ctx idle_ctx
    hs_syn (reads hs_syn) 0 1 idle_ctx listening hs_syn_ack (reads hs_syn_ack) hs_ack (reads hs_ack))
    as (isn & slot & cs & H1 & H2 & H3).
  - vm_compute. repeat constructor; congruence.
  - vm_compute. repeat constructor; congruence.
  - vm_compute. reflexivity.
  - vm_compute. split; congruence.
  - vm_compute. split; congruence.
  - vm_compute. split; congruence.
  - vm_compute. reflexivity.
  - vm_compute. reflexivity.
  - apply rtc_once, step_listen.
  - vm_compute. reflexivity.
  - vm_compute. reflexivity.
  - vm_compute. reflexivity.
  - reflexivity.
  - vm_compute. reflexivity.
  - vm_compute. reflexivity.
  - destruct (H3 _ H1) as (c & Hc & Hs). exists isn, slot, c. split; [exact H2|]. split; [exact Hc|exact Hs].
Defined.
