(* ===== verification/Huffman.v ===== *)
(** * The HTTP field Huffman code (crates/proto/field-huffman/src/lib.rs)

    The static code of RFC 7541 Appendix B, shared by HPACK and QPACK: the binary
    tree [build_tree] grows from the codebook, and the bit-by-bit decoder that
    walks it.  The decoder accepts exactly the byte strings whose bits are a
    sequence of code words followed by at most seven 1-bits, and returns the
    sequence. *)

From S2P Require Import Prelude.

(* ------------------------------------------------------------------ *)
(** ** The codebook *)

(** [(code, bits, symbol)]; symbol 256 is the end-of-string sentinel. *)
Definition HC : list (Z * Z * Z) :=
  [
    (8184, 13, 0); (8388568, 23, 1); (268435426, 28, 2); (268435427, 28, 3); (268435428, 28, 4);
    (268435429, 28, 5); (268435430, 28, 6); (268435431, 28, 7); (268435432, 28, 8);
    (16777194, 24, 9); (1073741820, 30, 10); (268435433, 28, 11); (268435434, 28, 12);
    (1073741821, 30, 13); (268435435, 28, 14); (268435436, 28, 15); (268435437, 28, 16);
    (268435438, 28, 17); (268435439, 28, 18); (268435440, 28, 19); (268435441, 28, 20);
    (268435442, 28, 21); (1073741822, 30, 22); (268435443, 28, 23); (268435444, 28, 24);
    (268435445, 28, 25); (268435446, 28, 26); (268435447, 28, 27); (268435448, 28, 28);
    (268435449, 28, 29); (268435450, 28, 30); (268435451, 28, 31); (20, 6, 32); (1016, 10, 33);
    (1017, 10, 34); (4090, 12, 35); (8185, 13, 36); (21, 6, 37); (248, 8, 38); (2042, 11, 39);
    (1018, 10, 40); (1019, 10, 41); (249, 8, 42); (2043, 11, 43); (250, 8, 44); (22, 6, 45);
    (23, 6, 46); (24, 6, 47); (0, 5, 48); (1, 5, 49); (2, 5, 50); (25, 6, 51); (26, 6, 52);
    (27, 6, 53); (28, 6, 54); (29, 6, 55); (30, 6, 56); (31, 6, 57); (92, 7, 58); (251, 8, 59);
    (32764, 15, 60); (32, 6, 61); (4091, 12, 62); (1020, 10, 63); (8186, 13, 64); (33, 6, 65);
    (93, 7, 66); (94, 7, 67); (95, 7, 68); (96, 7, 69); (97, 7, 70); (98, 7, 71); (99, 7, 72);
    (100, 7, 73); (101, 7, 74); (102, 7, 75); (103, 7, 76); (104, 7, 77); (105, 7, 78);
    (106, 7, 79); (107, 7, 80); (108, 7, 81); (109, 7, 82); (110, 7, 83); (111, 7, 84);
    (112, 7, 85); (113, 7, 86); (114, 7, 87); (252, 8, 88); (115, 7, 89); (253, 8, 90);
    (8187, 13, 91); (524272, 19, 92); (8188, 13, 93); (16380, 14, 94); (34, 6, 95); (32765, 15, 96);
    (3, 5, 97); (35, 6, 98); (4, 5, 99); (36, 6, 100); (5, 5, 101); (37, 6, 102); (38, 6, 103);
    (39, 6, 104); (6, 5, 105); (116, 7, 106); (117, 7, 107); (40, 6, 108); (41, 6, 109);
    (42, 6, 110); (7, 5, 111); (43, 6, 112); (118, 7, 113); (44, 6, 114); (8, 5, 115); (9, 5, 116);
    (45, 6, 117); (119, 7, 118); (120, 7, 119); (121, 7, 120); (122, 7, 121); (123, 7, 122);
    (32766, 15, 123); (2044, 11, 124); (16381, 14, 125); (8189, 13, 126); (268435452, 28, 127);
    (1048550, 20, 128); (4194258, 22, 129); (1048551, 20, 130); (1048552, 20, 131);
    (4194259, 22, 132); (4194260, 22, 133); (4194261, 22, 134); (8388569, 23, 135);
    (4194262, 22, 136); (8388570, 23, 137); (8388571, 23, 138); (8388572, 23, 139);
    (8388573, 23, 140); (8388574, 23, 141); (16777195, 24, 142); (8388575, 23, 143);
    (16777196, 24, 144); (16777197, 24, 145); (4194263, 22, 146); (8388576, 23, 147);
    (16777198, 24, 148); (8388577, 23, 149); (8388578, 23, 150); (8388579, 23, 151);
    (8388580, 23, 152); (2097116, 21, 153); (4194264, 22, 154); (8388581, 23, 155);
    (4194265, 22, 156); (8388582, 23, 157); (8388583, 23, 158); (16777199, 24, 159);
    (4194266, 22, 160); (2097117, 21, 161); (1048553, 20, 162); (4194267, 22, 163);
    (4194268, 22, 164); (8388584, 23, 165); (8388585, 23, 166); (2097118, 21, 167);
    (8388586, 23, 168); (4194269, 22, 169); (4194270, 22, 170); (16777200, 24, 171);
    (2097119, 21, 172); (4194271, 22, 173); (8388587, 23, 174); (8388588, 23, 175);
    (2097120, 21, 176); (2097121, 21, 177); (4194272, 22, 178); (2097122, 21, 179);
    (8388589, 23, 180); (4194273, 22, 181); (8388590, 23, 182); (8388591, 23, 183);
    (1048554, 20, 184); (4194274, 22, 185); (4194275, 22, 186); (4194276, 22, 187);
    (8388592, 23, 188); (4194277, 22, 189); (4194278, 22, 190); (8388593, 23, 191);
    (67108832, 26, 192); (67108833, 26, 193); (1048555, 20, 194); (524273, 19, 195);
    (4194279, 22, 196); (8388594, 23, 197); (4194280, 22, 198); (33554412, 25, 199);
    (67108834, 26, 200); (67108835, 26, 201); (67108836, 26, 202); (134217694, 27, 203);
    (134217695, 27, 204); (67108837, 26, 205); (16777201, 24, 206); (33554413, 25, 207);
    (524274, 19, 208); (2097123, 21, 209); (67108838, 26, 210); (134217696, 27, 211);
    (134217697, 27, 212); (67108839, 26, 213); (134217698, 27, 214); (16777202, 24, 215);
    (2097124, 21, 216); (2097125, 21, 217); (67108840, 26, 218); (67108841, 26, 219);
    (268435453, 28, 220); (134217699, 27, 221); (134217700, 27, 222); (134217701, 27, 223);
    (1048556, 20, 224); (16777203, 24, 225); (1048557, 20, 226); (2097126, 21, 227);
    (4194281, 22, 228); (2097127, 21, 229); (2097128, 21, 230); (8388595, 23, 231);
    (4194282, 22, 232); (4194283, 22, 233); (33554414, 25, 234); (33554415, 25, 235);
    (16777204, 24, 236); (16777205, 24, 237); (67108842, 26, 238); (8388596, 23, 239);
    (67108843, 26, 240); (134217702, 27, 241); (67108844, 26, 242); (67108845, 26, 243);
    (134217703, 27, 244); (134217704, 27, 245); (134217705, 27, 246); (134217706, 27, 247);
    (134217707, 27, 248); (268435454, 28, 249); (134217708, 27, 250); (134217709, 27, 251);
    (134217710, 27, 252); (134217711, 27, 253); (134217712, 27, 254); (67108846, 26, 255);
    (1073741823, 30, 256)
  ].

(* ------------------------------------------------------------------ *)
(** ** The tree *)

Inductive HuffmanError := BadPadding | EosInString | TrailingTooLong.

Inductive Child :=
  | CNone
  | Inner (next : Z)
  | Leaf (sym : Z).

(** [children[node][bit]]; node 0 is the root. *)
Definition Tree := list (Child * Child).

Definition child_at (tree : Tree) (node : Z) (bit : bool) : Child :=
  match tree !! Z.to_nat node with
  | Some (zero, one) => if bit then one else zero
  | None => CNone
  end.

Definition set_child (tree : Tree) (node : Z) (bit : bool) (v : Child) : Tree :=
  alter (fun '(zero, one) => if bit then (zero, v) else (v, one)) (Z.to_nat node) tree.

(** The loop over the bits of one code, [n] of them left; [None] is the
    [unreachable!] of a code that runs into another one. *)
Fixpoint insert_code (n : nat) (code sym cursor : Z) (children : Tree) : option Tree :=
  match n with
  | O => Some children
  | S n =>
      let bit := Z.testbit code (Z.of_nat n) in
      match child_at children cursor bit with
      | Leaf _ => None
      | Inner next =>
          if (n =? 0)%nat then Some (set_child children cursor bit (Leaf (w8 sym)))
          else insert_code n code sym next children
      | CNone =>
          if (n =? 0)%nat then Some (set_child children cursor bit (Leaf (w8 sym)))
          else
            let new_idx := w16 (zlen children) in
            insert_code n code sym new_idx
              (set_child (children ++ [(CNone, CNone)]) cursor bit (Inner new_idx))
      end
  end.

Fixpoint insert_codes (hc : list (Z * Z * Z)) (children : Tree) : option Tree :=
  match hc with
  | [] => Some children
  | (code, bits, sym) :: hc =>
      if sym =? 256 then insert_codes hc children
      else
        match insert_code (Z.to_nat bits) code sym 0 children with
        | Some children => insert_codes hc children
        | None => None
        end
  end.

Definition build_tree : option Tree := insert_codes HC [(CNone, CNone)].

(** The tree every decode uses; [build_tree] does not panic ([tree_built]). *)
Definition ensure_tree : Tree := Eval vm_compute in default [] build_tree.

(* ------------------------------------------------------------------ *)
(** ** The decoder *)

Record HuffState := mkHuff {
  node : Z;
  bits_since_root : Z;
  last_was_one : bool;
  written : list Z  (** [out[..written]] *)
}.

(** The body of the inner loop; [cap] is [out.len()]. *)
Definition huff_bit (cap : Z) (bit : bool) (s : HuffState) : HuffmanError + HuffState :=
  let last := if node s =? 0 then true else last_was_one s in
  let since := (if node s =? 0 then 0 else bits_since_root s) + 1 in
  let last := if bit then last else false in
  match child_at ensure_tree (node s) bit with
  | Leaf sym =>
      if cap <=? zlen (written s) then inl BadPadding
      else inr (mkHuff 0 0 true (written s ++ [sym]))
  | Inner next => inr (mkHuff next since last (written s))
  | CNone => inl BadPadding
  end.

(** [(byte >> shift) & 1] for [shift] from 7 down to 0. *)
Definition byte_bits (byte : Z) : list bool := Z.testbit byte <$> [7; 6; 5; 4; 3; 2; 1; 0].

Fixpoint huff_bits (cap : Z) (bits : list bool) (s : HuffState) : HuffmanError + HuffState :=
  match bits with
  | [] => inr s
  | bit :: bits =>
      match huff_bit cap bit s with
      | inl e => inl e
      | inr s => huff_bits cap bits s
      end
  end.

Fixpoint huff_bytes (cap : Z) (input : list Z) (s : HuffState) : HuffmanError + HuffState :=
  match input with
  | [] => inr s
  | byte :: input =>
      match huff_bits cap (byte_bits byte) s with
      | inl e => inl e
      | inr s => huff_bytes cap input s
      end
  end.

(** The bytes written, [out[..n]], for an output slice of [cap] bytes. *)
Definition decode_into_slice (input : list Z) (cap : Z) : HuffmanError + list Z :=
  match huff_bytes cap input (mkHuff 0 0 true []) with
  | inl e => inl e
  | inr s =>
      if node s =? 0 then inr (written s)
      else if 7 <? bits_since_root s then inl TrailingTooLong
      else if negb (last_was_one s) then inl BadPadding
      else inr (written s)
  end.

(** The owned-buffer wrapper, through a 16 KiB scratch. *)
Definition decode (input out : list Z) : HuffmanError + list Z :=
  match decode_into_slice input 16384 with
  | inl e => inl e
  | inr bytes => inr (out ++ bytes)
  end.

(* ------------------------------------------------------------------ *)
(** ** The code as bit strings *)

Fixpoint bits_of (n : nat) (code : Z) : list bool :=
  match n with
  | O => []
  | S n => Z.testbit code (Z.of_nat n) :: bits_of n code
  end.

(** The codebook is in symbol order. *)
Definition code_of (sym : Z) : list bool :=
  match HC !! Z.to_nat sym with
  | Some (code, bits, _) => bits_of (Z.to_nat bits) code
  | None => []
  end.

Definition encoding (syms : list Z) : list bool := concat (code_of <$> syms).

(** The bits that lead from the root to each inner node. *)
Definition note_path (tree : Tree) (paths : list (list bool)) (i : nat) : list (list bool) :=
  foldl (fun paths bit =>
    match child_at tree (Z.of_nat i) bit with
    | Inner j => <[Z.to_nat j := (paths !!! i) ++ [bit]]> paths
    | _ => paths
    end) paths [false; true].

Definition path_table : list (list bool) :=
  Eval vm_compute in
    foldl (note_path ensure_tree) (replicate (length ensure_tree) []) (seq 0 (length ensure_tree)).

Definition path (i : Z) : list bool := default [] (path_table !! Z.to_nat i).

Definition is_byte (s : Z) : bool := (0 <=? s) && (s <? 256).

(** One edge of the tree: an inner child extends the path, a leaf completes a
    code word. *)
Definition edge_ok (i : nat) (bit : bool) : bool :=
  let p := path (Z.of_nat i) ++ [bit] in
  match child_at ensure_tree (Z.of_nat i) bit with
  | CNone => true
  | Inner j => (0 <? j) && (j <? zlen ensure_tree) && bool_decide (path j = p)
  | Leaf s => is_byte s && bool_decide (code_of s = p)
  end.

(** [bits] lead from [node] to the leaf of [sym]. *)
Fixpoint leads (node : Z) (bits : list bool) (sym : Z) : bool :=
  match bits with
  | [] => false
  | bit :: rest =>
      match child_at ensure_tree node bit, rest with
      | Leaf s, [] => s =? sym
      | Inner j, _ :: _ => leads j rest sym
      | _, _ => false
      end
  end.

(** The inner node [bits] lead to. *)
Fixpoint inner_node (node : Z) (bits : list bool) : option Z :=
  match bits with
  | [] => Some node
  | bit :: rest =>
      match child_at ensure_tree node bit with
      | Inner j => inner_node j rest
      | _ => None
      end
  end.

Definition ones (k : nat) : list bool := replicate k true.
Definition byte_symbols : list Z := Z.of_nat <$> seq 0 256.

Lemma tree_built : build_tree = Some ensure_tree.
Proof. vm_compute. reflexivity. Qed.

Lemma edges_checked : forallb (fun i => edge_ok i false && edge_ok i true) (seq 0 (length ensure_tree)) = true.
Proof. vm_compute. reflexivity. Qed.

Lemma codes_checked : forallb (fun s => leads 0 (code_of s) s) byte_symbols = true.
Proof. vm_compute. reflexivity. Qed.

Lemma padding_checked : forallb (fun k => bool_decide (is_Some (inner_node 0 (ones k)))) (seq 0 8) = true.
Proof. vm_compute. reflexivity. Qed.

(** An edge out of a node of the tree. *)
Lemma edge_spec i bit :
  match child_at ensure_tree i bit with
  | CNone => True
  | Inner j => 0 < j /\ path j = path i ++ [bit]
  | Leaf s => is_u8 s /\ code_of s = path i ++ [bit]
  end.
Proof.
  destruct (ensure_tree !! Z.to_nat i) as [e|] eqn:E; [|unfold child_at; by rewrite E].
  pose proof edges_checked as H. rewrite forallb_forall in H.
  specialize (H (Z.to_nat i) ltac:(apply in_seq; split; [lia|]; by eapply lookup_lt_Some)).
  apply andb_prop in H as [H0 H1].
  assert (edge_ok (Z.to_nat i) bit = true) as Hb by (by destruct bit). clear H0 H1.
  unfold edge_ok in Hb.
  assert (path (Z.of_nat (Z.to_nat i)) = path i) as Ep by (unfold path; by rewrite Nat2Z.id).
  assert (child_at ensure_tree (Z.of_nat (Z.to_nat i)) bit = child_at ensure_tree i bit) as Ec
    by (unfold child_at; by rewrite Nat2Z.id).
  rewrite Ep, Ec in Hb. destruct (child_at ensure_tree i bit) as [|j|s]; [done|..].
  - apply andb_prop in Hb as [Hj Hp]. apply andb_prop in Hj as [Hj _]. bool_to_prop.
    by split; [lia|].
  - apply andb_prop in Hb as [Hs Hp]. unfold is_byte in Hs. bool_to_prop.
    split; [int_lia|done].
Qed.

(* ------------------------------------------------------------------ *)
(** ** What the decoder has consumed *)

(** The bits read so far are the code words of the output, then the path to the
    current node. *)
Record consumed (cap : Z) (read : list bool) (s : HuffState) : Prop := {
  hs_read : read = encoding (written s) ++ path (node s);
  hs_since : bits_since_root s = Z.of_nat (length (path (node s)));
  hs_ones : last_was_one s = forallb id (path (node s));
  hs_cap : zlen (written s) <= cap;
  hs_syms : Forall is_u8 (written s)
}.

Lemma path_root : path 0 = [].
Proof. reflexivity. Qed.

Lemma consumed_start cap : 0 <= cap -> consumed cap [] (mkHuff 0 0 true []).
Proof. intros H. split; cbn; try done. Qed.

Lemma encoding_snoc l s : encoding (l ++ [s]) = encoding l ++ code_of s.
Proof. unfold encoding. rewrite fmap_app, concat_app. cbn. by rewrite app_nil_r. Qed.

Lemma huff_bit_spec cap read bit s s' :
  consumed cap read s -> huff_bit cap bit s = inr s' -> consumed cap (read ++ [bit]) s'.
Proof.
  intros [Hr Hs Ho Hc Hsy]. unfold huff_bit. pose proof (edge_spec (node s) bit) as He.
  destruct (child_at ensure_tree (node s) bit) as [|j|sym]; [done|..].
  - destruct He as [_ Ep]. intros [= <-]. split; cbn [written node bits_since_root last_was_one];
      rewrite ?Ep; try done.
    + by rewrite Hr, app_assoc.
    + rewrite length_app, Nat2Z.inj_add. change (Z.of_nat (length [bit])) with 1.
      destruct (node s =? 0) eqn:E; bool_to_prop; [rewrite E, path_root; done|by rewrite Hs].
    + rewrite forallb_app. cbn. rewrite andb_true_r.
      replace (if node s =? 0 then true else last_was_one s) with (forallb id (path (node s))).
      { destruct bit; cbn; by rewrite ?andb_true_r, ?andb_false_r. }
      destruct (node s =? 0) eqn:E; bool_to_prop; [by rewrite E|done].
  - destruct He as [Hb Ec]. destruct (cap <=? _) eqn:E; [done|]. bool_to_prop. intros [= <-].
    split; cbn [written node bits_since_root last_was_one]; try done.
    + rewrite encoding_snoc, Ec, path_root, Hr. by rewrite app_nil_r, app_assoc.
    + rewrite zlen_app, zlen_cons, zlen_nil. lia.
    + apply Forall_app. split; [done|]. by constructor.
Qed.

Lemma huff_bits_spec cap bits : forall read s s',
  consumed cap read s -> huff_bits cap bits s = inr s' -> consumed cap (read ++ bits) s'.
Proof.
  induction bits as [|bit bits IH]; intros read s s' Hc; cbn [huff_bits].
  - intros [= <-]. by rewrite app_nil_r.
  - destruct (huff_bit cap bit s) as [e|s1] eqn:E; [done|]. intros H.
    replace (read ++ bit :: bits) with ((read ++ [bit]) ++ bits) by (by rewrite <-app_assoc).
    apply (IH _ s1); [by eapply huff_bit_spec|done].
Qed.

(** The byte loop is the bit loop over the bits of the bytes. *)
Lemma huff_bits_app cap l1 l2 s :
  huff_bits cap (l1 ++ l2) s =
    match huff_bits cap l1 s with inl e => inl e | inr s => huff_bits cap l2 s end.
Proof.
  revert s. induction l1 as [|bit l1 IH]; intros s; cbn; [done|].
  destruct (huff_bit cap bit s); [done|]. apply IH.
Qed.

Definition input_bits (input : list Z) : list bool := concat (byte_bits <$> input).

Lemma huff_bytes_bits cap input s : huff_bytes cap input s = huff_bits cap (input_bits input) s.
Proof.
  revert s. induction input as [|byte input IH]; intros s; [done|].
  change (input_bits (byte :: input)) with (byte_bits byte ++ input_bits input).
  rewrite huff_bits_app. cbn [huff_bytes]. destruct (huff_bits cap (byte_bits byte) s); [done|]. apply IH.
Qed.

(* ------------------------------------------------------------------ *)
(** ** What the decoder accepts *)

Lemma huff_word cap sym rest : forall bits s,
  leads (node s) bits sym = true -> zlen (written s) < cap ->
  huff_bits cap (bits ++ rest) s = huff_bits cap rest (mkHuff 0 0 true (written s ++ [sym])).
Proof.
  induction bits as [|bit bits IH]; intros s; cbn [leads]; [done|]. intros Hl Hc.
  cbn [app huff_bits]. unfold huff_bit at 1. destruct (child_at ensure_tree (node s) bit) as [|j|l]; [done|..].
  - destruct bits as [|b' bits]; [done|]. by rewrite IH.
  - destruct bits; [|done]. bool_to_prop. subst l.
    destruct (cap <=? _) eqn:E; bool_to_prop; [lia|done].
Qed.

Lemma huff_words cap rest : forall syms s,
  Forall is_u8 syms -> node s = 0 -> bits_since_root s = 0 -> last_was_one s = true ->
  zlen (written s) + zlen syms <= cap ->
  huff_bits cap (encoding syms ++ rest) s = huff_bits cap rest (mkHuff 0 0 true (written s ++ syms)).
Proof.
  induction syms as [|sym syms IH]; intros s Hb Hn H0 H1 Hc.
  - cbn. rewrite app_nil_r. destruct s; cbn in *. by subst.
  - apply Forall_cons in Hb as [Hsym Hb]. rewrite zlen_cons in Hc. pose proof (zlen_nonneg syms).
    change (encoding (sym :: syms)) with (code_of sym ++ encoding syms). rewrite <-app_assoc.
    rewrite (huff_word cap sym); [|rewrite Hn|lia].
    + rewrite IH; cbn; try done; [by rewrite <-app_assoc|rewrite zlen_app, zlen_cons, zlen_nil; lia].
    + pose proof codes_checked as H'. rewrite forallb_forall in H'. apply H'.
      apply list_elem_of_In, list_elem_of_fmap. exists (Z.to_nat sym).
      split; [int_lia|]. apply elem_of_seq. int_lia.
Qed.

Lemma huff_inner cap : forall bits s n,
  inner_node (node s) bits = Some n ->
  exists s', huff_bits cap bits s = inr s' /\ written s' = written s /\ node s' = n.
Proof.
  induction bits as [|bit bits IH]; intros s n; cbn [inner_node huff_bits].
  - intros [= <-]. eauto.
  - unfold huff_bit. destruct (child_at ensure_tree (node s) bit) as [|j|l]; [done| |done].
    intros H. by apply (IH (mkHuff j _ _ (written s))).
Qed.

Lemma forallb_ones l : forallb id l = true -> l = ones (length l).
Proof. induction l as [|[] l IH]; cbn; [done| |done]. intros H. unfold ones in *. cbn. f_equal. by apply IH. Qed.

Lemma ones_forallb k : forallb id (ones k) = true.
Proof. by induction k. Qed.

Lemma decode_exact input cap out :
  0 <= cap ->
  decode_into_slice input cap = inr out <->
  Forall is_u8 out /\ zlen out <= cap /\
  exists k, (k <= 7)%nat /\ input_bits input = encoding out ++ ones k.
Proof.
  intros Hcap. unfold decode_into_slice. rewrite huff_bytes_bits. split.
  - destruct (huff_bits cap _ _) as [e|s] eqn:E; [done|].
    apply (huff_bits_spec cap _ []) in E as [Hr Hs Ho Hc Hsy]; [|by apply consumed_start].
    cbn [app] in Hr. destruct (node s =? 0) eqn:En; bool_to_prop.
    { intros [= <-]. split; [done|]. split; [done|]. exists 0%nat. rewrite Hr, En, path_root. split; [lia|done]. }
    destruct (7 <? bits_since_root s) eqn:E7; [done|]. bool_to_prop.
    destruct (last_was_one s) eqn:El; [|done]. cbn. intros [= <-]. split; [done|]. split; [done|].
    exists (length (path (node s))). split; [lia|]. rewrite <-forallb_ones; [done|]. by rewrite <-Ho.
  - intros (Hb & Hc & k & Hk & Er). rewrite Er, huff_words by (cbn; done || lia). cbn [written app].
    pose proof padding_checked as H. rewrite forallb_forall in H.
    specialize (H k ltac:(apply in_seq; lia)). apply bool_decide_eq_true in H as [n Hn].
    destruct (huff_inner cap (ones k) (mkHuff 0 0 true out) n Hn) as (s & Es & Ew & En).
    assert (consumed cap (encoding out) (mkHuff 0 0 true out)) as Hst
      by (split; cbn; rewrite ?path_root, ?app_nil_r; done).
    rewrite Es. apply (huff_bits_spec cap _ _ _ _ Hst) in Es as [Hr Hs Ho _ _].
    rewrite Ew in *. apply app_inv_head in Hr.
    destruct (node s =? 0) eqn:E0; [done|]. rewrite Hs, Ho, <-Hr, ones_forallb. unfold ones.
    rewrite length_replicate. destruct (7 <? _) eqn:E7; bool_to_prop; [lia|done].
Qed.

(** C37: the Huffman decoder accepts exactly the byte strings whose bits are the
    code words of a symbol string that fits the output buffer, followed by at most
    seven 1-bits, and returns that string; every other input is an error. *)
Theorem huffman_decode_exact input cap out :
  0 <= cap ->
  decode_into_slice input cap = inr out <->
  Forall is_u8 out /\ zlen out <= cap /\
  exists k, (k <= 7)%nat /\ input_bits input = encoding out ++ ones k.
Proof. apply decode_exact. Qed.

Lemma huffman_decode_exact_witness :
  decode_into_slice [241; 227; 194; 229; 242; 58; 107; 160; 171; 144; 244; 255] 15 =
    inr [119; 119; 119; 46; 101; 120; 97; 109; 112; 108; 101; 46; 99; 111; 109] /\
  forall out, decode_into_slice [241; 227; 194; 229; 242; 58; 107; 160; 171; 144; 244; 255] 14 <> inr out.
Proof.
  split.
  - apply huffman_decode_exact; [lia|]. split; [|split].
    + repeat constructor; vm_compute; congruence.
    + vm_compute. congruence.
    + exists 7%nat. split; [lia|]. vm_compute. reflexivity.
  - vm_compute. congruence.
Defined.
