(* ===== verification/Hpack.v ===== *)
(** * HPACK header compression (crates/proto/http2/src/hpack.rs, static_table.rs)

    The stateful decoder with its dynamic table, the prefixed integers and string
    literals, the static table and the stateless encoder.  The decoder is shown to
    carry out any well-formed sequence of representations as RFC 7541 prescribes,
    to undo the encoder, and to keep its table within the advertised size whatever
    bytes arrive. *)

From Stdlib Require Import Ascii String.
From S2P Require Import Prelude.
From S2P Require Import Huffman.

#[local] Open Scope st_scope.

Inductive HpackError :=
  | Truncated
  | InvalidIndex
  | IntegerOverflow
  | HuffmanFailed
  | StringTooLong
  | TableSizeExceeded
  | HeaderListTooLarge.

(* ------------------------------------------------------------------ *)
(** ** The static table *)

(** The bytes of a byte-string literal. *)
Definition str (s : string) : list Z := (fun a => Z.of_N (N_of_ascii a)) <$> list_ascii_of_string s.

Abbreviation STATIC_TABLE_LEN := 61%Z (only parsing).

Definition TABLE : list (list Z * list Z) :=
  [
    (str ":authority", []); (str ":method", str "GET"); (str ":method", str "POST");
    (str ":path", str "/"); (str ":path", str "/index.html"); (str ":scheme", str "http");
    (str ":scheme", str "https"); (str ":status", str "200"); (str ":status", str "204");
    (str ":status", str "206"); (str ":status", str "304"); (str ":status", str "400");
    (str ":status", str "404"); (str ":status", str "500"); (str "accept-charset", []);
    (str "accept-encoding", str "gzip, deflate"); (str "accept-language", []);
    (str "accept-ranges", []); (str "accept", []); (str "access-control-allow-origin", []);
    (str "age", []); (str "allow", []); (str "authorization", []); (str "cache-control", []);
    (str "content-disposition", []); (str "content-encoding", []); (str "content-language", []);
    (str "content-length", []); (str "content-location", []); (str "content-range", []);
    (str "content-type", []); (str "cookie", []); (str "date", []); (str "etag", []);
    (str "expect", []); (str "expires", []); (str "from", []); (str "host", []);
    (str "if-match", []); (str "if-modified-since", []); (str "if-none-match", []);
    (str "if-range", []); (str "if-unmodified-since", []); (str "last-modified", []);
    (str "link", []); (str "location", []); (str "max-forwards", []);
    (str "proxy-authenticate", []); (str "proxy-authorization", []); (str "range", []);
    (str "referer", []); (str "refresh", []); (str "retry-after", []); (str "server", []);
    (str "set-cookie", []); (str "strict-transport-security", []); (str "transfer-encoding", []);
    (str "user-agent", []); (str "vary", []); (str "via", []); (str "www-authenticate", [])
  ].

(** By 1-based index. *)
Definition lookup (idx : Z) : option (list Z * list Z) :=
  if idx =? 0 then None else TABLE !! Z.to_nat (idx - 1).

Inductive Match :=
  | Exact (idx : Z)
  | Name (idx : Z)
  | Miss.

(** The single scan: an exact hit ends it, the first name-only hit is kept. *)
Fixpoint find_match (i : Z) (table : list (list Z * list Z)) (name value : list Z)
    (name_idx : option Z) : Match :=
  match table with
  | [] => match name_idx with Some idx => Name idx | None => Miss end
  | (n, v) :: table =>
      if bool_decide (n = name) then
        if bool_decide (v = value) then Exact (i + 1)
        else
          find_match (i + 1) table name value
            (match name_idx with None => Some (i + 1) | Some idx => Some idx end)
      else find_match (i + 1) table name value name_idx
  end.

Definition find (name value : list Z) : Match := find_match 0 TABLE name value None.

(** The two single-purpose scans. *)
Fixpoint index_where (f : list Z * list Z -> bool) (i : Z) (table : list (list Z * list Z)) : option Z :=
  match table with
  | [] => None
  | e :: table => if f e then Some (i + 1) else index_where f (i + 1) table
  end.

Definition find_exact (name value : list Z) : option Z :=
  index_where (fun e => bool_decide (fst e = name) && bool_decide (snd e = value)) 0 TABLE.
Definition find_name (name : list Z) : option Z := index_where (fun e => bool_decide (fst e = name)) 0 TABLE.

(* ------------------------------------------------------------------ *)
(** ** Prefixed integers and strings *)

(** The continuation bytes from [buf[p]] on. *)
Fixpoint read_int_loop (buf : list Z) (value p shift : Z) : HpackError + Z * Z :=
  match buf with
  | [] => inl Truncated
  | b :: buf =>
      let value := value + w64 (Z.shiftl (Z.land b 127) shift) in
      if U64_MAX <? value then inl IntegerOverflow
      else if Z.land b 128 =? 0 then inr (value, p + 1)
      else if 63 <? shift + 7 then inl IntegerOverflow
      else read_int_loop buf value (p + 1) (shift + 7)
  end.

(** The value and the bytes consumed. *)
Definition read_int (buf : list Z) (prefix_bits : Z) : HpackError + Z * Z :=
  match buf with
  | [] => inl Truncated
  | b :: rest =>
      let mask := Z.land (Z.shiftl 1 prefix_bits - 1) 255 in
      let v0 := Z.land b mask in
      if v0 <? mask then inr (v0, 1) else read_int_loop rest mask 1 0
  end.

(** The decoded bytes and the bytes consumed, for an output of [cap] bytes. *)
Definition read_string (buf : list Z) (cap : Z) : HpackError + list Z * Z :=
  match buf with
  | [] => inl Truncated
  | b :: _ =>
      match read_int buf 7 with
      | inl e => inl e
      | inr (len, n) =>
          if zlen buf - n <? len then inl Truncated
          else
            let raw := ztake len (zdrop n buf) in
            if negb (Z.land b 128 =? 0) then
              match decode_into_slice raw cap with
              | inl _ => inl HuffmanFailed
              | inr bytes => inr (bytes, n + len)
              end
            else if cap <? zlen raw then inl StringTooLong
            else inr (raw, n + len)
      end
  end.

(** [while v >= 128]; ten rounds are enough for 64 bits ([read_written_int]). *)
Fixpoint write_int_loop (fuel : nat) (v : Z) : list Z :=
  match fuel with
  | O => []
  | S fuel =>
      if 128 <=? v then Z.lor (Z.land (w8 v) 127) 128 :: write_int_loop fuel (Z.shiftr v 7)
      else [w8 v]
  end.

Definition write_int (value prefix_bits prefix_byte : Z) : list Z :=
  let mask := Z.shiftl 1 prefix_bits - 1 in
  if value <? mask then [Z.lor prefix_byte (w8 value)]
  else Z.lor prefix_byte (w8 mask) :: write_int_loop 10 (value - mask).

Definition write_string (s : list Z) : list Z := write_int (zlen s) 7 0 ++ s.

(* ------------------------------------------------------------------ *)
(** ** The dynamic table *)

Abbreviation ENTRY_OVERHEAD := 32%Z (only parsing).

(** Newest entry first. *)
Record Decoder := mkDecoder {
  dynamic : list (list Z * list Z);
  size : Z;
  max_size : Z;
  hard_max : Z;
  max_header_list_size : Z
}.

Definition new (hard_max max_header_list_size : Z) : Decoder :=
  mkDecoder [] 0 hard_max hard_max max_header_list_size.

Definition entry_size (e : list Z * list Z) : Z := zlen (fst e) + zlen (snd e) + ENTRY_OVERHEAD.

Definition with_table (d : Decoder) (dyn : list (list Z * list Z)) (sz : Z) : Decoder :=
  mkDecoder dyn sz (max_size d) (hard_max d) (max_header_list_size d).

(** [while self.size > target]: [fuel] rounds, one more than the entries. *)
Fixpoint evict_loop (fuel : nat) (target : Z) (d : Decoder) : Decoder :=
  match fuel with
  | O => d
  | S fuel =>
      if target <? size d then
        match last (dynamic d) with
        | Some e => evict_loop fuel target
                      (with_table d (removelast (dynamic d)) (sat_sub (size d) (entry_size e)))
        | None => with_table d (dynamic d) 0
        end
      else d
  end.

Definition evict_to (target : Z) (d : Decoder) : Decoder :=
  evict_loop (S (length (dynamic d))) target d.

Definition insert (name value : list Z) (d : Decoder) : Decoder :=
  let sz := entry_size (name, value) in
  let d := evict_to (sat_sub (max_size d) sz) d in
  if max_size d <? sz then d else with_table d ((name, value) :: dynamic d) (size d + sz).

Definition set_max_size (new_max : Z) (d : Decoder) : (HpackError + unit) * Decoder :=
  if hard_max d <? new_max then (inl TableSizeExceeded, d)
  else
    (inr tt, evict_to new_max
       (mkDecoder (dynamic d) (size d) new_max (hard_max d) (max_header_list_size d))).

(** The entry of an index, static then dynamic. *)
Definition entry_at (idx : Z) (d : Decoder) : option (list Z * list Z) :=
  if idx <=? STATIC_TABLE_LEN then lookup idx
  else dynamic d !! Z.to_nat (idx - STATIC_TABLE_LEN - 1).

Definition name_at (idx : Z) (d : Decoder) : HpackError + list Z :=
  match entry_at idx d with
  | Some e => inr (fst e)
  | None => inl InvalidIndex
  end.

Definition resolve_into (idx ns vs : Z) (d : Decoder) : HpackError + list Z * list Z :=
  match entry_at idx d with
  | None => inl InvalidIndex
  | Some (name, value) =>
      if (ns <? zlen name) || (vs <? zlen value) then inl StringTooLong else inr (name, value)
  end.

(** The name and how far [pos] advances. *)
Definition read_name (idx : Z) (wire : list Z) (ns : Z) (d : Decoder) : HpackError + list Z * Z :=
  if idx =? 0 then read_string wire ns
  else
    match name_at idx d with
    | inl e => inl e
    | inr name => if ns <? zlen name then inl StringTooLong else inr (name, 0)
    end.

Definition account (list_size max name_len value_len : Z) : HpackError + Z :=
  let list_size := list_size + (name_len + value_len + ENTRY_OVERHEAD) in
  if max <? list_size then inl HeaderListTooLarge else inr list_size.

(* ------------------------------------------------------------------ *)
(** ** The decoder *)

(** The decoder and the fields its sink has received. *)
Definition DecSt := (Decoder * list (list Z * list Z))%type.

(** [?] on a fallible computation over the decoder. *)
Definition etry {A B} (m : St DecSt (HpackError + A)) (k : A -> St DecSt (HpackError + B))
    : St DecSt (HpackError + B) :=
  r <- m;;
  match r with
  | inl e => sret (inl e)
  | inr a => k a
  end.

#[local] Notation "x <-? m ;; k" := (etry m (fun x => k))
  (at level 100, m at next level, right associativity) : st_scope.

Definition on_decoder {A} (f : Decoder -> (HpackError + A) * Decoder) : St DecSt (HpackError + A) :=
  fun s => let (r, d) := f (fst s) in (r, (d, snd s)).
Definition ask {A} (f : Decoder -> HpackError + A) : St DecSt (HpackError + A) :=
  gets (fun s => f (fst s)).
Definition on_field (name value : list Z) : St DecSt unit :=
  modify (fun s => (fst s, snd s ++ [(name, value)])).

(** A literal field: name by index or in full, value; [incremental] also enters
    it in the table.  The new position and list size. *)
Definition decode_literal (incremental : bool) (prefix_bits ns vs : Z) (input : list Z)
    (pos list_size : Z) : St DecSt (HpackError + Z * Z) :=
  r <-? sret (read_int (zdrop pos input) prefix_bits);;
  let '(idx, n) := r in
  let pos := pos + n in
  r <-? ask (read_name idx (zdrop pos input) ns);;
  let '(name, nc) := r in
  let pos := pos + nc in
  r <-? sret (read_string (zdrop pos input) vs);;
  let '(value, vc) := r in
  let pos := pos + vc in
  list_size <-? ask (fun d => account list_size (max_header_list_size d) (zlen name) (zlen value));;
  on_field name value;;
  swhen incremental (modify (fun s => (insert name value (fst s), snd s)));;
  sret (inr (pos, list_size)).

(** One round of the loop, at [pos < input.len()]. *)
Definition decode_one (ns vs : Z) (input : list Z) (pos list_size : Z)
    : St DecSt (HpackError + Z * Z) :=
  let b := default 0 (input !! Z.to_nat pos) in
  if negb (Z.land b 128 =? 0) then
    r <-? sret (read_int (zdrop pos input) 7);;
    let '(idx, n) := r in
    let pos := pos + n in
    if idx =? 0 then sret (inl InvalidIndex)
    else
      r <-? ask (resolve_into idx ns vs);;
      let '(name, value) := r in
      list_size <-? ask (fun d => account list_size (max_header_list_size d) (zlen name) (zlen value));;
      on_field name value;;
      sret (inr (pos, list_size))
  else if negb (Z.land b 64 =? 0) then decode_literal true 6 ns vs input pos list_size
  else if negb (Z.land b 32 =? 0) then
    r <-? sret (read_int (zdrop pos input) 5);;
    let '(new_max, n) := r in
    let pos := pos + n in
    _ <-? on_decoder (set_max_size new_max);;
    sret (inr (pos, list_size))
  else decode_literal false 4 ns vs input pos list_size.

(** [while pos < input.len()]: every round consumes a byte. *)
Fixpoint decode_loop (fuel : nat) (ns vs : Z) (input : list Z) (pos list_size : Z)
    : St DecSt (HpackError + unit) :=
  match fuel with
  | O => sret (inr tt)
  | S fuel =>
      if pos <? zlen input then
        r <-? decode_one ns vs input pos list_size;;
        let '(pos, list_size) := r in
        decode_loop fuel ns vs input pos list_size
      else sret (inr tt)
  end.

(** One header block; [ns] and [vs] are the lengths of the scratch buffers. *)
Definition decode (input : list Z) (ns vs : Z) : St DecSt (HpackError + unit) :=
  decode_loop (length input) ns vs input 0 0.

(* ------------------------------------------------------------------ *)
(** ** The encoder *)

(** [u8::to_ascii_lowercase]. *)
Definition to_ascii_lowercase (b : Z) : Z := if (65 <=? b) && (b <=? 90) then b + 32 else b.
Definition lowercase (name : list Z) : list Z := to_ascii_lowercase <$> name.

Definition encode_one (name value : list Z) : list Z :=
  match find name value with
  | Exact idx => write_int idx 7 128
  | Name name_idx => write_int name_idx 4 0 ++ write_string value
  | Miss => write_int 0 4 0 ++ write_string name ++ write_string value
  end.

Fixpoint encode_header_list (headers : list (list Z * list Z)) : list Z :=
  match headers with
  | [] => []
  | (name, value) :: headers => encode_one (lowercase name) value ++ encode_header_list headers
  end.

(* ------------------------------------------------------------------ *)
(** ** Integers *)

Lemma land_low v p : 0 <= v < 2 ^ p -> Z.land v (2 ^ p - 1) = v.
Proof.
  intros H. destruct (Z.lt_ge_cases p 0) as [Hp|Hp]; [rewrite Z.pow_neg_r in H by done; lia|].
  replace (2 ^ p - 1) with (Z.ones p) by (rewrite Z.ones_equiv; lia).
  rewrite Z.land_ones by lia. apply Z.mod_small. lia.
Qed.

(** The first byte of an integer: its low bits are the value, its high bits the
    prefix. *)
Lemma first_low pre v p : 0 <= v < 2 ^ p -> Z.land pre (2 ^ p - 1) = 0 -> Z.land (Z.lor pre v) (2 ^ p - 1) = v.
Proof. intros Hv Hp. rewrite Z.land_lor_distr_l, Hp, Z.lor_0_l. by apply land_low. Qed.

Lemma land_pow2_small v p k : 0 <= v < 2 ^ p -> 0 <= p <= k -> Z.land v (2 ^ k) = 0.
Proof.
  intros Hv Hk. apply Z.bits_inj'. intros n Hn. rewrite Z.land_spec, Z.pow2_bits_eqb, Z.bits_0 by lia.
  destruct (k =? n) eqn:E; [|by rewrite andb_false_r]. bool_to_prop. subst n.
  by rewrite (testbit_small v p) by lia.
Qed.

Lemma first_high pre v p k : 0 <= v < 2 ^ p -> 0 <= p <= k -> Z.land (Z.lor pre v) (2 ^ k) = Z.land pre (2 ^ k).
Proof.
  intros Hv Hk. rewrite Z.land_lor_distr_l, (land_pow2_small v p k) by done. by rewrite Z.lor_0_r.
Qed.

(** A continuation byte. *)
Lemma cont_byte v : 0 <= v ->
  Z.land (Z.lor (Z.land (w8 v) 127) 128) 127 = v mod 128 /\
  Z.land (Z.lor (Z.land (w8 v) 127) 128) 128 = 128.
Proof.
  intros Hv. rewrite !Z.land_lor_distr_l, <-!Z.land_assoc. change (Z.land 127 127) with 127.
  change (Z.land 128 127) with 0. change (Z.land 127 128) with 0. change (Z.land 128 128) with 128.
  rewrite Z.land_0_r, Z.lor_0_r. split; [|done].
  change 127 with (Z.ones 7). rewrite Z.land_ones by lia. unfold w8.
  change (2 ^ 7) with 128. rewrite Z.mod_mod_divide; [done|by exists 2].
Qed.

Lemma shiftl_u64 a shift : 0 <= shift -> 0 <= a -> a * 2 ^ shift <= U64_MAX ->
  w64 (Z.shiftl a shift) = a * 2 ^ shift.
Proof.
  intros Hs Ha Hle. rewrite Z.shiftl_mul_pow2 by done. apply w64_small. split; [|done].
  apply Z.mul_nonneg_nonneg; [done|]. apply Z.pow_nonneg. lia.
Qed.

Lemma read_written_int rest : forall fuel v value p shift,
  0 <= v < 2 ^ (7 * Z.of_nat (S fuel)) -> 0 <= shift -> 0 <= value -> value + v * 2 ^ shift <= U64_MAX ->
  read_int_loop (write_int_loop (S fuel) v ++ rest) value p shift =
    inr (value + v * 2 ^ shift, p + zlen (write_int_loop (S fuel) v)).
Proof.
  assert (forall fuel v, 0 <= v -> v < 2 ^ (7 * Z.of_nat (S fuel)) -> 128 <= v -> exists f, fuel = S f) as Hfuel.
  { intros [|f] v H0 H1 H2; [change (2 ^ (7 * Z.of_nat 1)) with 128 in H1; lia|eauto]. }
  induction fuel as [fuel IH] using lt_wf_ind; intros v value p shift Hv Hs Hval Hle.
  pose proof (Z.pow_pos_nonneg 2 shift ltac:(lia) Hs) as Hpos. change (write_int_loop (S fuel) v) with
    (if 128 <=? v then Z.lor (Z.land (w8 v) 127) 128 :: write_int_loop fuel (Z.shiftr v 7) else [w8 v]).
  destruct (128 <=? v) eqn:E; bool_to_prop.
  - destruct (Hfuel fuel v) as [f ->]; [lia..|]. destruct (cont_byte v ltac:(lia)) as [E1 E2]. cbn [app read_int_loop]. rewrite E1, E2.
    pose proof (Z.div_mod v 128 ltac:(lia)) as Hdm. pose proof (Z.mod_pos_bound v 128 ltac:(lia)).
    assert (1 <= v / 128) as Hd by (apply Z.div_le_lower_bound; lia).
    assert (2 ^ (shift + 7) = 128 * 2 ^ shift) as Hp7 by (rewrite Z.pow_add_r by lia; change (2 ^ 7) with 128; lia).
    rewrite shiftl_u64 by (try lia; nia).
    destruct (U64_MAX <? _) eqn:E3; bool_to_prop; [nia|]. change (128 =? 0) with false. cbv iota.
    destruct (63 <? shift + 7) eqn:E4; bool_to_prop.
    { assert (2 ^ 64 <= 2 ^ (shift + 7)) by (apply Z.pow_le_mono_r; lia). unfold U64_MAX in *. nia. }
    rewrite Z.shiftr_div_pow2 by lia. change (2 ^ 7) with 128. rewrite (IH f ltac:(lia)).
    + f_equal. rewrite zlen_cons. f_equal; [|lia]. rewrite Hp7. nia.
    + split; [lia|]. apply Z.div_lt_upper_bound; [lia|].
      replace (7 * Z.of_nat (S (S f))) with (7 + 7 * Z.of_nat (S f)) in Hv by lia.
      rewrite Z.pow_add_r in Hv by lia. change (2 ^ 7) with 128 in Hv. lia.
    + lia.
    + nia.
    + rewrite Hp7. nia.
  - cbn [app read_int_loop]. rewrite w8_small by int_lia.
    replace (Z.land v 127) with v by (symmetry; apply (land_low v 7); lia).
    rewrite shiftl_u64 by (try lia; nia). replace (Z.land v 128) with 0 by (symmetry; apply (land_pow2_small v 7 7); lia).
    destruct (U64_MAX <? _) eqn:E3; bool_to_prop; [nia|]. done.
Qed.

(** The prefixes the format uses. *)
Definition prefix_ok (p pre : Z) : Prop :=
  1 <= p <= 7 /\ is_u8 pre /\ Z.land pre (2 ^ p - 1) = 0.

Lemma prefix_mask p : 1 <= p <= 7 -> Z.land (Z.shiftl 1 p - 1) 255 = 2 ^ p - 1 /\ 1 <= 2 ^ p - 1 <= 127.
Proof.
  intros Hp. assert (In p [1; 2; 3; 4; 5; 6; 7]) as H by (cbn; lia).
  cbn in H. repeat (destruct H as [<-|H]; [by vm_compute|]). done.
Qed.

Lemma read_write_int v p pre rest :
  prefix_ok p pre -> is_u64 v ->
  read_int (write_int v p pre ++ rest) p = inr (v, zlen (write_int v p pre)).
Proof.
  intros (Hp & Hpre & Hl) Hv. destruct (prefix_mask p Hp) as [Em Hm].
  unfold write_int. rewrite Z.shiftl_1_l. destruct (v <? 2 ^ p - 1) eqn:E; bool_to_prop.
  - cbn [app read_int]. rewrite Em, w8_small by int_lia. rewrite first_low by (try done; int_lia).
    destruct (_ <? _) eqn:E2; bool_to_prop; [done|lia].
  - cbn [app read_int]. rewrite Em, (w8_small (2 ^ p - 1)) by int_lia. rewrite first_low by (try done; lia).
    rewrite Z.ltb_irrefl. rewrite (read_written_int rest 9 (v - (2 ^ p - 1)) (2 ^ p - 1) 1 0).
    + rewrite zlen_cons. f_equal. f_equal; lia.
    + change (2 ^ (7 * Z.of_nat 10)) with 1180591620717411303424. int_lia.
    + lia.
    + lia.
    + int_lia.
Qed.

Lemma first_of_int v p pre k rest :
  prefix_ok p pre -> is_u64 v -> p <= k ->
  exists b, head (write_int v p pre ++ rest) = Some b /\ Z.land b (2 ^ k) = Z.land pre (2 ^ k).
Proof.
  intros (Hp & Hpre & Hl) Hv Hk. destruct (prefix_mask p Hp) as [_ Hm].
  unfold write_int. rewrite Z.shiftl_1_l. destruct (v <? 2 ^ p - 1) eqn:E; bool_to_prop.
  - eexists. split; [done|]. rewrite w8_small by int_lia. apply (first_high pre v p k); int_lia.
  - eexists. split; [done|]. rewrite w8_small by int_lia. apply (first_high pre (2 ^ p - 1) p k); lia.
Qed.

(* ------------------------------------------------------------------ *)
(** ** The dynamic table *)

Definition total_size (l : list (list Z * list Z)) : Z := foldr (fun e n => entry_size e + n) 0 l.

(** RFC 7541 section 4: the entries, newest first, as far as they fit. *)
Fixpoint fit (target : Z) (l : list (list Z * list Z)) : list (list Z * list Z) :=
  match l with
  | [] => []
  | e :: l => if entry_size e <=? target then e :: fit (target - entry_size e) l else []
  end.

(** What the decoder maintains. *)
Record table_ok (d : Decoder) : Prop := {
  tk_size : size d = total_size (dynamic d);
  tk_fits : size d <= max_size d;
  tk_max : 0 <= max_size d <= hard_max d
}.

Lemma entry_pos e : 32 <= entry_size e.
Proof.
  unfold entry_size. pose proof (zlen_nonneg (fst e)). pose proof (zlen_nonneg (snd e)). lia.
Qed.

Lemma total_nonneg l : 0 <= total_size l.
Proof. induction l as [|e l IH]; cbn; [lia|]. pose proof (entry_pos e). fold (total_size l). lia. Qed.

Lemma total_app l1 l2 : total_size (l1 ++ l2) = total_size l1 + total_size l2.
Proof.
  induction l1 as [|e l1 IH]; cbn; [done|]. fold (total_size l1) (total_size (l1 ++ l2)). lia.
Qed.

Lemma fit_total target l : 0 <= target -> total_size (fit target l) <= target.
Proof.
  revert target. induction l as [|e l IH]; intros target Ht; cbn [fit]; [done|].
  destruct (entry_size e <=? target) eqn:E; bool_to_prop; [|done].
  cbn. fold (total_size (fit (target - entry_size e) l)). specialize (IH (target - entry_size e)). lia.
Qed.

Lemma fit_all target l : total_size l <= target -> fit target l = l.
Proof.
  revert target. induction l as [|e l IH]; intros target H; cbn [fit]; [done|]. cbn in H.
  fold (total_size l) in H. pose proof (total_nonneg l).
  destruct (entry_size e <=? target) eqn:E; bool_to_prop; [|lia]. by rewrite IH by lia.
Qed.

Lemma fit_snoc target l e : target < total_size (l ++ [e]) -> fit target (l ++ [e]) = fit target l.
Proof.
  revert target. induction l as [|a l IH]; intros target H; cbn [fit app].
  - cbn in H. destruct (entry_size e <=? target) eqn:E; bool_to_prop; [lia|done].
  - cbn in H. fold (total_size (l ++ [e])) in H.
    destruct (entry_size a <=? target) eqn:E; bool_to_prop; [|done]. by rewrite IH by lia.
Qed.

Lemma evict_loop_spec target : 0 <= target -> forall fuel d,
  (length (dynamic d) < fuel)%nat -> size d = total_size (dynamic d) ->
  evict_loop fuel target d = with_table d (fit target (dynamic d)) (total_size (fit target (dynamic d))).
Proof.
  intros Ht. induction fuel as [|fuel IH]; intros [dyn sz mx hm ml] Hf Hs; [lia|]. cbn [evict_loop dynamic size] in *.
  destruct (target <? sz) eqn:E; bool_to_prop.
  - destruct dyn as [|e l _] using rev_ind; [cbn in Hs; lia|].
    rewrite last_snoc, removelast_last, fit_snoc by lia. rewrite IH.
    + done.
    + cbn. rewrite length_app in Hf. cbn in Hf. lia.
    + cbn [size dynamic with_table]. rewrite Hs, total_app.
      change (total_size [e]) with (entry_size e + 0). unfold sat_sub. pose proof (total_nonneg l). lia.
  - rewrite fit_all by lia. by rewrite <-Hs.
Qed.

Lemma evict_to_spec target d :
  0 <= target -> size d = total_size (dynamic d) ->
  evict_to target d = with_table d (fit target (dynamic d)) (total_size (fit target (dynamic d))).
Proof. intros Ht Hs. apply evict_loop_spec; [done|lia|done]. Qed.

(** An insertion keeps the newest entries that fit. *)
Lemma insert_fits name value d :
  table_ok d ->
  let dyn := fit (max_size d) ((name, value) :: dynamic d) in
  insert name value d = with_table d dyn (total_size dyn) /\ table_ok (insert name value d).
Proof.
  intros [Hs Hf Hm] dyn. pose proof (fit_total (max_size d) ((name, value) :: dynamic d) ltac:(lia)) as Htot.
  assert (insert name value d = with_table d dyn (total_size dyn)) as E.
  { unfold insert, dyn. cbn [fit]. rewrite evict_to_spec by (unfold sat_sub; lia || done).
    cbn [max_size with_table dynamic size].
    pose proof (entry_pos (name, value)).
    destruct (max_size d <? _) eqn:E1, (_ <=? max_size d) eqn:E2; bool_to_prop; try lia.
    - replace (fit _ (dynamic d)) with (@nil (list Z * list Z)); [done|].
      destruct (dynamic d) as [|e l]; [done|]. cbn [fit]. pose proof (entry_pos e). unfold sat_sub.
      destruct (_ <=? _) eqn:E3; bool_to_prop; [lia|done].
    - unfold sat_sub. rewrite Z.max_r by lia. cbn. unfold with_table. cbn. f_equal.
      fold (total_size (fit (max_size d - entry_size (name, value)) (dynamic d))). lia. }
  split; [done|]. rewrite E. fold dyn in Htot. by split.
Qed.

Lemma set_max_spec m d :
  table_ok d -> 0 <= m ->
  if hard_max d <? m then set_max_size m d = (inl TableSizeExceeded, d)
  else exists d', set_max_size m d = (inr tt, d') /\ dynamic d' = fit m (dynamic d) /\ max_size d' = m /\
    hard_max d' = hard_max d /\ max_header_list_size d' = max_header_list_size d /\ table_ok d'.
Proof.
  intros [Hs Hf Hm] H0. unfold set_max_size. destruct (hard_max d <? m) eqn:E; [done|]. bool_to_prop.
  rewrite evict_to_spec by done. eexists. split; [done|]. do 4 (split; [done|]).
  split; cbn; [done|by apply fit_total|lia].
Qed.

(* ------------------------------------------------------------------ *)
(** ** Any input *)

(** From [s] to [s']: the table stays well-formed under the same limits, and the
    fields emitted bring the list size from [l0] to at most the cap. *)
Definition bounded (l0 : Z) (s s' : DecSt) : Prop :=
  table_ok (fst s') /\ hard_max (fst s') = hard_max (fst s) /\
  max_header_list_size (fst s') = max_header_list_size (fst s) /\
  exists new, snd s' = snd s ++ new /\ (new = [] \/ l0 + total_size new <= max_header_list_size (fst s)).

Lemma bounded_refl l0 s : table_ok (fst s) -> bounded l0 s s.
Proof. intros H. split; [done|]. do 2 (split; [done|]). exists []. rewrite app_nil_r. auto. Qed.

(** The continuation bytes are part of the buffer. *)
Lemma read_int_loop_len buf value p shift v n :
  0 <= value -> read_int_loop buf value p shift = inr (v, n) -> p < n <= p + zlen buf /\ 0 <= v.
Proof.
  revert value p shift. induction buf as [|b buf IH]; intros value p shift Hval; cbn [read_int_loop]; [done|].
  assert (0 <= value + w64 (Z.shiftl (Z.land b 127) shift)) as Hv by int_lia.
  rewrite zlen_cons. pose proof (zlen_nonneg buf).
  destruct (U64_MAX <? _); [done|]. destruct (_ =? 0); [intros [= <- <-]; lia|].
  destruct (63 <? _); [done|]. intros E. apply IH in E; [lia|done].
Qed.

Lemma read_int_len buf p v n :
  1 <= p <= 7 -> read_int buf p = inr (v, n) -> 1 <= n <= zlen buf /\ 0 <= v.
Proof.
  intros Hp. destruct (prefix_mask p Hp) as [Em Hm]. destruct buf as [|b buf]; cbn [read_int]; [done|].
  rewrite Em, zlen_cons. pose proof (zlen_nonneg buf).
  destruct (_ <? _) eqn:E; [|intros El; apply read_int_loop_len in El; lia].
  intros [= <- <-]. split; [lia|]. apply Z.land_nonneg. lia.
Qed.

(** The consumed part of a string lies in the buffer: no slice is out of range. *)
Lemma read_string_len buf cap s n : read_string buf cap = inr (s, n) -> 1 <= n <= zlen buf.
Proof.
  unfold read_string. destruct buf as [|b rest]; [done|]. set (buf := b :: rest).
  destruct (read_int buf 7) as [e|[len k]] eqn:E; [done|]. apply read_int_len in E as [Hk Hl]; [|lia].
  destruct (_ <? len) eqn:E2; [done|]. bool_to_prop. destruct (negb _).
  - destruct (decode_into_slice _ _); [done|]. intros [= _ <-]. lia.
  - destruct (cap <? _); [done|]. intros [= _ <-]. lia.
Qed.

Lemma read_name_len idx wire ns d name n :
  read_name idx wire ns d = inr (name, n) -> 0 <= n <= zlen wire.
Proof.
  unfold read_name. destruct (idx =? 0).
  - intros E. apply read_string_len in E. lia.
  - destruct (name_at idx d); [done|]. destruct (ns <? _); [done|]. intros [= _ <-].
    pose proof (zlen_nonneg wire). lia.
Qed.

Lemma account_spec l max a b l' :
  account l max a b = inr l' -> l' = l + (a + b + ENTRY_OVERHEAD) /\ l' <= max.
Proof. unfold account. destruct (max <? _) eqn:E; [done|]. bool_to_prop. intros [= <-]. lia. Qed.

Lemma exec_etry {A B} (m : St DecSt (HpackError + A)) (k : A -> St DecSt (HpackError + B)) s :
  etry m k s =
    match m s with
    | (inl e, s') => (inl e, s')
    | (inr a, s') => k a s'
    end.
Proof. unfold etry, sbind. destruct (m s) as [[e|a] s']; done. Qed.

(** What one round leaves: in bounds, further on, and either an error or a list
    size that accounts for what it emitted. *)
Definition round_ok (input : list Z) (pos l0 : Z) (s : DecSt) (out : (HpackError + Z * Z) * DecSt) : Prop :=
  bounded l0 s (snd out) /\
  match fst out with
  | inl _ => True
  | inr (pos', l') => pos < pos' <= zlen input /\ exists new, snd (snd out) = snd s ++ new /\ l' = l0 + total_size new
  end.

Lemma emitted_bounded l0 s name value d' l' :
  account l0 (max_header_list_size (fst s)) (zlen name) (zlen value) = inr l' ->
  table_ok d' -> hard_max d' = hard_max (fst s) -> max_header_list_size d' = max_header_list_size (fst s) ->
  bounded l0 s (d', snd s ++ [(name, value)]) /\
  exists new, snd s ++ [(name, value)] = snd s ++ new /\ l' = l0 + total_size new.
Proof.
  intros Ea Hd Eh Em. apply account_spec in Ea as [El Hl].
  assert (total_size [(name, value)] = zlen name + zlen value + ENTRY_OVERHEAD) as Et
    by (unfold total_size, entry_size; cbn; lia).
  split.
  - split; [done|]. split; [done|]. split; [done|]. exists [(name, value)]. split; [done|]. right. lia.
  - exists [(name, value)]. split; [done|]. lia.
Qed.

Lemma zlen_zdrop_pos pos (input : list Z) : 0 <= pos <= zlen input -> zlen (zdrop pos input) = zlen input - pos.
Proof. intros H. rewrite zlen_zdrop by lia. lia. Qed.

Lemma literal_round inc p ns vs input pos l0 s :
  1 <= p <= 7 -> 0 <= pos < zlen input -> table_ok (fst s) ->
  round_ok input pos l0 s (decode_literal inc p ns vs input pos l0 s).
Proof.
  intros Hp Hpos Hs. unfold decode_literal. rewrite exec_etry. unfold sret at 1.
  destruct (read_int (zdrop pos input) p) as [e|[idx n]] eqn:E1; [split; [by apply bounded_refl|done]|].
  apply read_int_len in E1 as [Hn _]; [|done]. rewrite zlen_zdrop_pos in Hn by lia.
  rewrite exec_etry. unfold ask, gets.
  destruct (read_name idx (zdrop (pos + n) input) ns (fst s)) as [e|[name nc]] eqn:E2;
    [split; [by apply bounded_refl|done]|].
  apply read_name_len in E2. rewrite zlen_zdrop_pos in E2 by lia.
  rewrite exec_etry. unfold sret at 1.
  destruct (read_string _ vs) as [e|[value vc]] eqn:E3; [split; [by apply bounded_refl|done]|].
  apply read_string_len in E3. rewrite zlen_zdrop_pos in E3 by lia.
  rewrite exec_etry. destruct (account _ _ _ _) as [e|l'] eqn:E4; [split; [by apply bounded_refl|done]|].
  unfold sbind, on_field, modify, swhen, sret. destruct (insert_fits name value (fst s) Hs) as [Ei Hi].
  destruct inc; cbn [fst snd].
  - destruct (emitted_bounded l0 s name value (insert name value (fst s)) l' E4 Hi) as [Hb Hn'];
      [by rewrite Ei..|]. split; [done|]. cbn. split; [lia|done].
  - destruct (emitted_bounded l0 s name value (fst s) l' E4 Hs eq_refl eq_refl) as [Hb Hn'].
    split; [done|]. cbn. split; [lia|done].
Qed.

Lemma decode_one_round ns vs input pos l0 s :
  0 <= pos < zlen input -> table_ok (fst s) -> round_ok input pos l0 s (decode_one ns vs input pos l0 s).
Proof.
  intros Hpos Hs. unfold decode_one. destruct (negb (Z.land _ 128 =? 0)).
  { rewrite exec_etry. unfold sret at 1.
    destruct (read_int (zdrop pos input) 7) as [e|[idx n]] eqn:E1; [split; [by apply bounded_refl|done]|].
    apply read_int_len in E1 as [Hn _]; [|lia]. rewrite zlen_zdrop_pos in Hn by lia.
    destruct (idx =? 0); [split; [by apply bounded_refl|done]|]. rewrite exec_etry. unfold ask, gets.
    destruct (resolve_into idx ns vs (fst s)) as [e|[name value]]; [split; [by apply bounded_refl|done]|].
    rewrite exec_etry. destruct (account _ _ _ _) as [e|l'] eqn:E4; [split; [by apply bounded_refl|done]|].
    destruct (emitted_bounded l0 s name value (fst s) l' E4 Hs eq_refl eq_refl) as [Hb Hn'].
    split; [done|]. cbn. split; [lia|done]. }
  destruct (negb (Z.land _ 64 =? 0)); [apply literal_round; lia || done|].
  destruct (negb (Z.land _ 32 =? 0)); [|apply literal_round; lia || done].
  rewrite exec_etry. unfold sret at 1.
  destruct (read_int (zdrop pos input) 5) as [e|[m n]] eqn:E1; [split; [by apply bounded_refl|done]|].
  apply read_int_len in E1 as [Hn Hm]; [|lia]. rewrite zlen_zdrop_pos in Hn by lia.
  rewrite exec_etry. unfold on_decoder. pose proof (set_max_spec m (fst s) Hs Hm) as Hset.
  destruct (hard_max (fst s) <? m).
  - rewrite Hset. split; [|done]. destruct s. by apply bounded_refl.
  - destruct Hset as (d' & -> & _ & _ & Eh & Em & Hd). cbn. split.
    + split; [done|]. split; [done|]. split; [done|]. exists []. rewrite app_nil_r. auto.
    + split; [lia|]. exists []. rewrite app_nil_r. split; [done|]. cbn. lia.
Qed.

Lemma bounded_trans l0 l1 s s1 s2 new :
  bounded l0 s s1 -> snd s1 = snd s ++ new -> l1 = l0 + total_size new -> bounded l1 s1 s2 -> bounded l0 s s2.
Proof.
  intros (_ & E1 & E2 & n1 & E3 & H1) Es El (Hd & F1 & F2 & n2 & F3 & H2).
  rewrite Es in E3. apply app_inv_head in E3 as <-.
  split; [done|]. split; [congruence|]. split; [congruence|]. exists (new ++ n2).
  rewrite F3, Es, <-app_assoc. split; [done|]. rewrite total_app.
  destruct H2 as [->|H2]; [|right; lia]. destruct H1 as [->|H1]; [by left|]. right. cbn. lia.
Qed.

Lemma decode_loop_bounded ns vs input : forall fuel pos l0 s,
  0 <= pos <= zlen input -> table_ok (fst s) -> bounded l0 s (exec (decode_loop fuel ns vs input pos l0) s).
Proof.
  induction fuel as [|fuel IH]; intros pos l0 s Hpos Hs; cbn [decode_loop]; [by apply bounded_refl|].
  destruct (pos <? zlen input) eqn:E; bool_to_prop; [|by apply bounded_refl].
  unfold exec. rewrite exec_etry. pose proof (decode_one_round ns vs input pos l0 s ltac:(lia) Hs) as [Hb Hr].
  destruct (decode_one ns vs input pos l0 s) as [[e|[pos' l']] s1]; cbn [fst snd] in *; [done|].
  destruct Hr as (Hp & new & Es & El). eapply bounded_trans; [done..|].
  apply IH; [lia|]. apply Hb.
Qed.

(** Every round consumes a byte, so [input.len()] rounds are enough: more change
    nothing. *)
Lemma decode_loop_fuel ns vs input : forall fuel fuel' pos l0 s,
  0 <= pos <= zlen input -> table_ok (fst s) ->
  zlen input - pos <= Z.of_nat fuel -> zlen input - pos <= Z.of_nat fuel' ->
  decode_loop fuel ns vs input pos l0 s = decode_loop fuel' ns vs input pos l0 s.
Proof.
  induction fuel as [|fuel IH]; intros [|fuel'] pos l0 s Hpos Hs H1 H2; cbn [decode_loop];
    try (destruct (pos <? zlen input) eqn:E; bool_to_prop; [lia|done]).
  destruct (pos <? zlen input) eqn:E; bool_to_prop; [|done].
  rewrite !exec_etry. pose proof (decode_one_round ns vs input pos l0 s ltac:(lia) Hs) as [Hb Hr].
  destruct (decode_one ns vs input pos l0 s) as [[e|[pos' l']] s1]; cbn [fst snd] in *; [done|].
  destruct Hr as (Hp & _). apply IH; try lia. apply Hb.
Qed.

(** A connection's header blocks in turn, whatever each one returned. *)
Fixpoint decode_blocks (blocks : list (list Z * Z * Z)) : St DecSt unit :=
  match blocks with
  | [] => sret tt
  | (input, ns, vs) :: blocks => decode input ns vs;; decode_blocks blocks
  end.

Lemma decode_bounded input ns vs s : table_ok (fst s) -> bounded 0 s (exec (decode input ns vs) s).
Proof. intros Hs. apply decode_loop_bounded; [|done]. pose proof (zlen_nonneg input). lia. Qed.

Lemma new_ok h m : 0 <= h -> table_ok (new h m).
Proof. intros H. split; cbn; lia. Qed.

Lemma blocks_ok blocks s :
  table_ok (fst s) ->
  let s' := exec (decode_blocks blocks) s in
  table_ok (fst s') /\ hard_max (fst s') = hard_max (fst s) /\
  max_header_list_size (fst s') = max_header_list_size (fst s).
Proof.
  revert s. induction blocks as [|[[input ns] vs] blocks IH]; intros s Hs; cbn [decode_blocks]; [done|].
  rewrite exec_bind. destruct (decode_bounded input ns vs s Hs) as (Hd & E1 & E2 & _).
  specialize (IH _ Hd). cbv zeta in *. by rewrite <-E1, <-E2.
Qed.

(* ------------------------------------------------------------------ *)
(** ** Representations *)

(** A string on the wire: as it is, or Huffman-coded. *)
Inductive HStr :=
  | Raw (s : list Z)
  | Coded (coded s : list Z).

Definition str_bytes (st : HStr) : list Z := match st with Raw s | Coded _ s => s end.

Definition str_wire (st : HStr) : list Z :=
  match st with
  | Raw s => write_int (zlen s) 7 0 ++ s
  | Coded coded _ => write_int (zlen coded) 7 128 ++ coded
  end.

Definition str_ok (st : HStr) : Prop :=
  match st with
  | Raw s => is_u64 (zlen s)
  | Coded coded s => is_u64 (zlen coded) /\ Forall is_u8 s /\
      exists k, (k <= 7)%nat /\ input_bits coded = encoding s ++ ones k
  end.

Inductive NameRef :=
  | ByIndex (idx : Z)
  | Spelled (s : HStr).

Inductive Indexing := Incremental | WithoutIndexing | NeverIndexed.

(** RFC 7541 section 6. *)
Inductive Rep :=
  | IndexedField (idx : Z)
  | LiteralField (kind : Indexing) (name : NameRef) (value : HStr)
  | SizeUpdate (new_max : Z).

Definition kind_bits (k : Indexing) : Z := match k with Incremental => 6 | _ => 4 end.
Definition kind_byte (k : Indexing) : Z :=
  match k with Incremental => 64 | WithoutIndexing => 0 | NeverIndexed => 16 end.

Definition name_index (n : NameRef) : Z := match n with ByIndex idx => idx | Spelled _ => 0 end.
Definition name_wire (n : NameRef) : list Z := match n with ByIndex _ => [] | Spelled s => str_wire s end.

Definition rep_wire (r : Rep) : list Z :=
  match r with
  | IndexedField idx => write_int idx 7 128
  | LiteralField k name value =>
      write_int (name_index name) (kind_bits k) (kind_byte k) ++ name_wire name ++ str_wire value
  | SizeUpdate m => write_int m 5 32
  end.

(** What a representation means, on the entries of the dynamic table and its
    current limit: the static and the dynamic table are one index space. *)
Definition spec_entry (idx : Z) (entries : list (list Z * list Z)) : option (list Z * list Z) :=
  if idx <=? 0 then None else (TABLE ++ entries) !! Z.to_nat (idx - 1).

Definition spec_name (n : NameRef) (entries : list (list Z * list Z)) : option (list Z) :=
  match n with
  | ByIndex idx => fst <$> spec_entry idx entries
  | Spelled s => Some (str_bytes s)
  end.

Definition rep_run (hard : Z) (r : Rep) (t : list (list Z * list Z) * Z)
    : option (list (list Z * list Z) * Z * list (list Z * list Z)) :=
  let (entries, max) := t in
  match r with
  | IndexedField idx => (fun e => (entries, max, [e])) <$> spec_entry idx entries
  | LiteralField k name value =>
      (fun n =>
         let field := (n, str_bytes value) in
         (match k with Incremental => fit max (field :: entries) | _ => entries end, max, [field]))
        <$> spec_name name entries
  | SizeUpdate m => if (0 <=? m) && (m <=? hard) then Some (fit m entries, m, []) else None
  end.

Fixpoint reps_run (hard : Z) (reps : list Rep) (t : list (list Z * list Z) * Z)
    : option (list (list Z * list Z) * Z * list (list Z * list Z)) :=
  match reps with
  | [] => Some (t, [])
  | r :: reps =>
      match rep_run hard r t with
      | None => None
      | Some (t, fields) => (fun '(t, rest) => (t, fields ++ rest)) <$> reps_run hard reps t
      end
  end.

Definition rep_ok (r : Rep) : Prop :=
  match r with
  | IndexedField idx => is_u64 idx
  | LiteralField _ name value =>
      match name with ByIndex idx => is_u64 idx | Spelled s => str_ok s end /\ str_ok value
  | SizeUpdate m => is_u64 m
  end.

Lemma zdrop_past (a b : list Z) : zdrop (zlen a) (a ++ b) = b.
Proof. rewrite zdrop_app_ge by lia. by rewrite Z.sub_diag. Qed.

Lemma lookup_past (a b : list Z) : (a ++ b) !! Z.to_nat (zlen a) = head b.
Proof.
  unfold zlen. rewrite Nat2Z.id, lookup_app_r, Nat.sub_diag by lia. by destruct b.
Qed.

(** The field of a representation fits the scratch buffers. *)
Definition field_fits (ns vs : Z) (e : list Z * list Z) : Prop := zlen (fst e) <= ns /\ zlen (snd e) <= vs.

Lemma prefix7 : prefix_ok 7 0 /\ prefix_ok 7 128.
Proof. split; vm_compute; intuition congruence. Qed.

Lemma read_string_ok st cap rest :
  str_ok st -> zlen (str_bytes st) <= cap ->
  read_string (str_wire st ++ rest) cap = inr (str_bytes st, zlen (str_wire st)).
Proof.
  destruct prefix7 as [P0 P1]. pose proof (zlen_nonneg rest) as Hr.
  assert (forall len pre body, prefix_ok 7 pre -> is_u64 len -> zlen body = len ->
    exists b l, (write_int len 7 pre ++ body) ++ rest = b :: l /\ Z.land b 128 = Z.land pre 128 /\
    read_int (b :: l) 7 = inr (len, zlen (write_int len 7 pre)) /\
    zlen (b :: l) = zlen (write_int len 7 pre) + len + zlen rest /\
    ztake len (zdrop (zlen (write_int len 7 pre)) (b :: l)) = body) as Hcut.
  { intros len pre body Hp Hlen Hb.
    destruct (first_of_int len 7 pre 7 (body ++ rest) Hp Hlen ltac:(lia)) as (b & Eb & Hbit).
    rewrite <-app_assoc. destruct (write_int len 7 pre ++ body ++ rest) as [|b' l] eqn:E; [done|].
    injection Eb as ->. exists b, l. split; [done|]. split; [exact Hbit|]. rewrite <-E.
    split; [by apply read_write_int|]. split; [rewrite !zlen_app; lia|].
    rewrite zdrop_past. unfold ztake. rewrite take_app_length' by (unfold zlen in Hb; lia). done. }
  destruct st as [s|coded s]; cbn [str_ok str_bytes str_wire].
  - intros Hlen Hcap. destruct (Hcut _ 0 s P0 Hlen eq_refl) as (b & l & -> & Eb & Ei & El & Et).
    unfold read_string. rewrite Ei, El, Et, Eb. change (Z.land 0 128 =? 0) with true. cbn [negb].
    destruct (_ <? zlen s) eqn:E1; bool_to_prop; [lia|]. destruct (cap <? zlen s) eqn:E2; bool_to_prop; [lia|].
    by rewrite zlen_app.
  - intros (Hlen & Hs & Hbits) Hcap. destruct (Hcut _ 128 coded P1 Hlen eq_refl) as (b & l & -> & Eb & Ei & El & Et).
    unfold read_string. rewrite Ei, El, Et, Eb. change (Z.land 128 128 =? 0) with false. cbn [negb].
    destruct (_ <? zlen coded) eqn:E1; bool_to_prop; [lia|].
    rewrite (proj2 (decode_exact coded cap s ltac:(pose proof (zlen_nonneg s); lia))) by done.
    by rewrite zlen_app.
Qed.

Lemma entry_at_spec idx d e : spec_entry idx (dynamic d) = Some e -> entry_at idx d = Some e /\ 1 <= idx.
Proof.
  unfold spec_entry, entry_at, lookup. destruct (idx <=? 0) eqn:E0; [done|]. bool_to_prop. intros He.
  split; [|lia]. destruct (idx <=? STATIC_TABLE_LEN) eqn:E1; bool_to_prop.
  - destruct (idx =? 0) eqn:E2; bool_to_prop; [lia|]. rewrite lookup_app_l in He; [done|].
    change (length TABLE) with 61%nat. lia.
  - rewrite lookup_app_r in He by (change (length TABLE) with 61%nat; lia).
    rewrite <-He. f_equal. change (length TABLE) with 61%nat. lia.
Qed.

Lemma account_ok l max name value :
  l + total_size [(name, value)] <= max ->
  account l max (zlen name) (zlen value) = inr (l + total_size [(name, value)]).
Proof.
  assert (total_size [(name, value)] = zlen name + zlen value + ENTRY_OVERHEAD) as E
    by (unfold total_size, entry_size; cbn; lia).
  intros H. rewrite E in *. unfold account. destruct (max <? _) eqn:E1; bool_to_prop; [lia|done].
Qed.

Lemma kind_prefix k : prefix_ok (kind_bits k) (kind_byte k).
Proof. destruct k; vm_compute; intuition congruence. Qed.

Lemma name_read name ns wire rest d n :
  match name with ByIndex idx => is_u64 idx | Spelled s => str_ok s end ->
  spec_name name (dynamic d) = Some n -> zlen n <= ns -> wire = name_wire name ++ rest ->
  read_name (name_index name) wire ns d = inr (n, zlen (name_wire name)).
Proof.
  intros Hok Hn Hlen ->. unfold read_name. destruct name as [idx|s]; cbn [name_index name_wire spec_name] in *.
  - destruct (spec_entry idx (dynamic d)) as [e|] eqn:E; [|done]. cbn in Hn. injection Hn as <-.
    apply entry_at_spec in E as [E Hidx]. destruct (idx =? 0) eqn:E0; bool_to_prop; [lia|].
    unfold name_at. rewrite E. destruct (ns <? _) eqn:E1; bool_to_prop; [lia|done].
  - injection Hn as <-. cbn [Z.eqb]. by apply read_string_ok.
Qed.

Lemma literal_rep inc p preb name value n ns vs pre rest l0 s :
  prefix_ok p preb -> match name with ByIndex idx => is_u64 idx | Spelled s => str_ok s end ->
  str_ok value -> spec_name name (dynamic (fst s)) = Some n -> field_fits ns vs (n, str_bytes value) ->
  l0 + total_size [(n, str_bytes value)] <= max_header_list_size (fst s) ->
  let wire := write_int (name_index name) p preb ++ name_wire name ++ str_wire value in
  decode_literal inc p ns vs (pre ++ wire ++ rest) (zlen pre) l0 s =
    (inr (zlen pre + zlen wire, l0 + total_size [(n, str_bytes value)]),
     (if inc then insert n (str_bytes value) (fst s) else fst s, snd s ++ [(n, str_bytes value)])).
Proof.
  intros Hp Hname Hval Hn [Hfn Hfv] Hl wire. unfold decode_literal. cbn [fst snd] in Hfn, Hfv.
  assert (is_u64 (name_index name)) as Hidx by (destruct name; [done|vm_compute; intuition congruence]).
  rewrite exec_etry. unfold sret at 1. unfold wire. rewrite <-!app_assoc, zdrop_past.
  rewrite (read_write_int _ _ _ _ Hp Hidx). rewrite exec_etry. unfold ask, gets.
  rewrite <-zlen_app, (app_assoc pre), zdrop_past.
  rewrite (name_read name ns _ (str_wire value ++ rest) (fst s) n Hname Hn Hfn eq_refl).
  rewrite exec_etry. unfold sret at 1. rewrite <-zlen_app, (app_assoc (pre ++ _)), zdrop_past.
  rewrite (read_string_ok value vs rest Hval Hfv). rewrite exec_etry, account_ok by done.
  unfold sbind, on_field, modify, swhen, sret. rewrite !zlen_app, !Z.add_assoc. by destruct inc.
Qed.

(** The leading byte of a representation, as the loop reads it: the bits above
    the prefix are the representation's. *)
Lemma first_byte v p preb pre rest :
  prefix_ok p preb -> is_u64 v ->
  let b := default 0 ((pre ++ write_int v p preb ++ rest) !! Z.to_nat (zlen pre)) in
  Z.land b 128 = Z.land preb 128 /\
  (p <= 6 -> Z.land b 64 = Z.land preb 64) /\ (p <= 5 -> Z.land b 32 = Z.land preb 32).
Proof.
  intros Hp Hv b. unfold b. rewrite lookup_past.
  assert (forall k, p <= k -> Z.land (default 0 (head (write_int v p preb ++ rest))) (2 ^ k) = Z.land preb (2 ^ k)) as H.
  { intros k Hk. destruct (first_of_int v p preb k rest Hp Hv Hk) as (x & -> & Hx). exact Hx. }
  split; [apply (H 7), Hp|]. split; intros Hk; [by apply (H 6)|by apply (H 5)].
Qed.

(** The literal forms are told apart by the bits above the name index. *)
Lemma literal_dispatch k v ns vs pre rest l0 :
  is_u64 v ->
  decode_one ns vs (pre ++ write_int v (kind_bits k) (kind_byte k) ++ rest) (zlen pre) l0 =
    decode_literal (match k with Incremental => true | _ => false end) (kind_bits k) ns vs
      (pre ++ write_int v (kind_bits k) (kind_byte k) ++ rest) (zlen pre) l0.
Proof.
  intros Hv. pose proof (first_byte v _ _ pre rest (kind_prefix k) Hv) as (H7 & H6 & H5).
  unfold decode_one. rewrite H7, H6 by (destruct k; cbn; lia).
  destruct k; [done|rewrite H5 by (cbn; lia)..]; done.
Qed.

Lemma decode_rep r ns vs pre rest l0 s entries max fields :
  table_ok (fst s) -> rep_ok r ->
  rep_run (hard_max (fst s)) r (dynamic (fst s), max_size (fst s)) = Some (entries, max, fields) ->
  Forall (field_fits ns vs) fields -> l0 + total_size fields <= max_header_list_size (fst s) ->
  exists d', decode_one ns vs (pre ++ rep_wire r ++ rest) (zlen pre) l0 s =
      (inr (zlen pre + zlen (rep_wire r), l0 + total_size fields), (d', snd s ++ fields)) /\
    dynamic d' = entries /\ max_size d' = max /\ hard_max d' = hard_max (fst s) /\
    max_header_list_size d' = max_header_list_size (fst s) /\ table_ok d'.
Proof.
  intros Hs Hok Hrun Hfits Hl. destruct r as [idx|k name value|m]; cbn [rep_run rep_ok rep_wire] in *.
  - unfold decode_one. destruct (spec_entry idx _) as [[n v]|] eqn:E; [|done]. cbn in Hrun. injection Hrun as <- <- <-.
    apply entry_at_spec in E as [E Hidx]. apply Forall_cons in Hfits as [[Hn Hv] _]. cbn [fst snd] in *.
    rewrite (proj1 (first_byte idx 7 128 pre rest (proj2 prefix7) Hok)).
    change (Z.land 128 128 =? 0) with false. cbn [negb].
    rewrite exec_etry. unfold sret at 1. rewrite zdrop_past, (read_write_int _ _ _ _ (proj2 prefix7) Hok).
    destruct (idx =? 0) eqn:E0; bool_to_prop; [lia|]. rewrite exec_etry. unfold ask, gets, resolve_into. rewrite E.
    destruct (ns <? zlen n) eqn:E1; bool_to_prop; [lia|]. destruct (vs <? zlen v) eqn:E2; bool_to_prop; [lia|].
    cbn [orb]. rewrite exec_etry, account_ok by done. exists (fst s). done.
  - destruct (spec_name name _) as [n|] eqn:E; [|done]. cbn in Hrun. injection Hrun as <- <- <-.
    destruct Hok as [Hname Hval]. apply Forall_cons in Hfits as [Hfit _].
    assert (is_u64 (name_index name)) as Hidx by (destruct name; [done|vm_compute; intuition congruence]).
    pose proof (literal_rep (match k with Incremental => true | _ => false end) _ _ name value n ns vs pre rest l0 s
      (kind_prefix k) Hname Hval E Hfit Hl) as Hlit. cbv zeta in Hlit. rewrite <-!app_assoc in Hlit.
    destruct (insert_fits n (str_bytes value) (fst s) Hs) as [Ei Hi].
    rewrite <-!app_assoc, literal_dispatch, Hlit by done. eexists. split; [reflexivity|].
    destruct k; [|done..]. split; [by rewrite Ei|]. split; [by rewrite Ei|]. split; [by rewrite Ei|].
    split; [by rewrite Ei|done].
  - unfold decode_one. destruct ((0 <=? m) && (m <=? hard_max (fst s))) eqn:E; [|done]. injection Hrun as <- <- <-.
    bool_to_prop. assert (prefix_ok 5 32) as Hp by (vm_compute; intuition congruence).
    destruct (first_byte m 5 32 pre rest Hp Hok) as (H7 & H6 & H5). rewrite H7, H6, H5 by lia.
    change (Z.land 32 128) with 0. change (Z.land 32 64) with 0. change (Z.land 32 32) with 32.
    cbn [Z.eqb negb]. rewrite exec_etry. unfold sret at 1. rewrite zdrop_past, (read_write_int _ _ _ _ Hp Hok).
    rewrite exec_etry. unfold on_decoder. pose proof (set_max_spec m (fst s) Hs ltac:(lia)) as Hset.
    destruct (hard_max (fst s) <? m) eqn:E2; bool_to_prop; [lia|].
    destruct Hset as (d' & -> & E3 & E4 & E5 & E6 & E7). exists d'. unfold sret. cbn [total_size foldr].
    rewrite app_nil_r, Z.add_0_r. done.
Qed.

Lemma write_int_pos v p preb : 1 <= zlen (write_int v p preb).
Proof.
  unfold write_int. destruct (_ <? _); [done|]. rewrite zlen_cons.
  pose proof (zlen_nonneg (write_int_loop 10 (v - (Z.shiftl 1 p - 1)))). lia.
Qed.

Lemma rep_wire_pos r : 1 <= zlen (rep_wire r).
Proof.
  destruct r as [idx|k name value|m]; cbn [rep_wire]; [apply write_int_pos| |apply write_int_pos].
  rewrite zlen_app. pose proof (write_int_pos (name_index name) (kind_bits k) (kind_byte k)).
  pose proof (zlen_nonneg (name_wire name ++ str_wire value)). lia.
Qed.

(** The wire form of a sequence. *)
Definition reps_wire (reps : list Rep) : list Z := concat (rep_wire <$> reps).

Lemma decode_reps ns vs reps : forall fuel pre l0 s entries max fields,
  table_ok (fst s) -> Forall rep_ok reps ->
  reps_run (hard_max (fst s)) reps (dynamic (fst s), max_size (fst s)) = Some (entries, max, fields) ->
  Forall (field_fits ns vs) fields -> l0 + total_size fields <= max_header_list_size (fst s) ->
  zlen (reps_wire reps) <= Z.of_nat fuel ->
  exists d', decode_loop fuel ns vs (pre ++ reps_wire reps) (zlen pre) l0 s = (inr tt, (d', snd s ++ fields)) /\
    dynamic d' = entries /\ max_size d' = max /\ hard_max d' = hard_max (fst s) /\ table_ok d'.
Proof.
  induction reps as [|r reps IH]; intros fuel pre l0 s entries max fields Hs Hok Hrun Hfits Hl Hf.
  - cbn in Hrun. injection Hrun as <- <- <-. exists (fst s). rewrite app_nil_r.
    split; [|done]. change (reps_wire []) with (@nil Z). rewrite app_nil_r.
    destruct fuel; cbn [decode_loop]; [by destruct s|]. rewrite Z.ltb_irrefl. by destruct s.
  - change (reps_wire (r :: reps)) with (rep_wire r ++ reps_wire reps) in *. rewrite zlen_app in Hf.
    pose proof (rep_wire_pos r). pose proof (zlen_nonneg (reps_wire reps)).
    apply Forall_cons in Hok as [Hr Hok]. cbn [reps_run] in Hrun.
    destruct (rep_run _ r _) as [[[e1 m1] f1]|] eqn:E1; [|done].
    destruct (reps_run _ reps (e1, m1)) as [[[e2 m2] f2]|] eqn:E2; [|done]. cbn in Hrun. injection Hrun as <- <- <-.
    apply Forall_app in Hfits as [Hf1 Hf2]. rewrite total_app in Hl. pose proof (total_nonneg f2).
    destruct (decode_rep r ns vs pre (reps_wire reps) l0 s e1 m1 f1 Hs Hr E1 Hf1 ltac:(lia))
      as (d1 & Ed & G1 & G2 & G3 & G4 & Hd1).
    destruct fuel as [|fuel]; [lia|]. cbn [decode_loop].
    rewrite !zlen_app. destruct (_ <? _) eqn:E; bool_to_prop; [|lia].
    rewrite exec_etry, Ed, <-zlen_app, (app_assoc pre).
    destruct (IH fuel (pre ++ rep_wire r) (l0 + total_size f1) (d1, snd s ++ f1) e2 m2 f2) as (d' & -> & K1 & K2 & K3 & K4);
      cbn [fst snd]; rewrite ?G1, ?G2, ?G3, ?G4; try done; try lia.
    exists d'. rewrite <-app_assoc. split; [done|]. split; [done|]. split; [done|].
    split; [|done]. cbn in K3. by rewrite K3.
Qed.

(* ------------------------------------------------------------------ *)
(** ** The encoder's representations *)

Definition header_rep (name value : list Z) : Rep :=
  match find name value with
  | Exact idx => IndexedField idx
  | Name idx => LiteralField WithoutIndexing (ByIndex idx) (Raw value)
  | Miss => LiteralField WithoutIndexing (Spelled (Raw name)) (Raw value)
  end.

Lemma encode_one_rep name value : encode_one name value = rep_wire (header_rep name value).
Proof. unfold encode_one, header_rep. by destruct (find name value). Qed.

(** What the scan of the static table returns. *)
Lemma find_match_spec name value rest : forall pre name_idx,
  match name_idx with None => True | Some k => 1 <= k <= zlen pre /\ fst <$> (pre ++ rest) !! Z.to_nat (k - 1) = Some name end ->
  match find_match (zlen pre) rest name value name_idx with
  | Exact k => 1 <= k <= zlen (pre ++ rest) /\ (pre ++ rest) !! Z.to_nat (k - 1) = Some (name, value)
  | Name k => 1 <= k <= zlen (pre ++ rest) /\ fst <$> (pre ++ rest) !! Z.to_nat (k - 1) = Some name
  | Miss => True
  end.
Proof.
  induction rest as [|[n v] rest IH]; intros pre name_idx Hni; cbn [find_match].
  { destruct name_idx; [|done]. by rewrite app_nil_r in *. }
  assert (forall idx', match idx' with None => True | Some k => 1 <= k <= zlen pre + 1 /\
      fst <$> (pre ++ (n, v) :: rest) !! Z.to_nat (k - 1) = Some name end ->
    match find_match (zlen pre + 1) rest name value idx' with
    | Exact k => 1 <= k <= zlen (pre ++ (n, v) :: rest) /\ (pre ++ (n, v) :: rest) !! Z.to_nat (k - 1) = Some (name, value)
    | Name k => 1 <= k <= zlen (pre ++ (n, v) :: rest) /\ fst <$> (pre ++ (n, v) :: rest) !! Z.to_nat (k - 1) = Some name
    | Miss => True
    end) as Hstep.
  { intros idx' H. specialize (IH (pre ++ [(n, v)]) idx'). rewrite zlen_app, <-app_assoc in IH. by apply IH. }
  assert ((pre ++ (n, v) :: rest) !! Z.to_nat (zlen pre + 1 - 1) = Some (n, v)) as Hhere.
  { unfold zlen. replace (Z.to_nat _) with (length pre) by lia. by rewrite list_lookup_middle. }
  pose proof (zlen_nonneg pre). pose proof (zlen_nonneg rest).
  destruct (bool_decide (n = name)) eqn:E1; bool_to_prop.
  - destruct (bool_decide (v = value)) eqn:E2; bool_to_prop.
    + subst. split; [rewrite zlen_app, zlen_cons; lia|done].
    + apply Hstep. destruct name_idx as [k|]; [destruct Hni; split; [lia|done]|].
      split; [lia|]. rewrite Hhere. cbn. by subst.
  - apply Hstep. destruct name_idx as [k|]; [|done]. destruct Hni. split; [lia|done].
Qed.

(** The single scan is [find_exact] falling back to [find_name]. *)
Lemma find_is_fallback name value :
  find name value =
    match find_exact name value with
    | Some idx => Exact idx
    | None => match find_name name with Some idx => Name idx | None => Miss end
    end.
Proof.
  unfold find, find_exact, find_name.
  assert (forall table i acc, find_match i table name value acc =
    match index_where (fun e => bool_decide (fst e = name) && bool_decide (snd e = value)) i table with
    | Some idx => Exact idx
    | None => match acc with
        | Some idx => Name idx
        | None => match index_where (fun e => bool_decide (fst e = name)) i table with Some idx => Name idx | None => Miss end
        end
    end) as H.
  { induction table as [|[n v] table IH]; intros i acc; cbn [find_match index_where fst snd]; [by destruct acc|].
    destruct (bool_decide (n = name)); cbn [andb]; [|apply IH].
    destruct (bool_decide (v = value)); [done|]. rewrite IH. by destruct acc. }
  exact (H TABLE 0 None).
Qed.

Lemma spec_entry_static k entries e :
  1 <= k <= 61 -> TABLE !! Z.to_nat (k - 1) = Some e -> spec_entry k entries = Some e.
Proof.
  intros Hk He. unfold spec_entry. destruct (k <=? 0) eqn:E; bool_to_prop; [lia|].
  rewrite lookup_app_l; [done|]. change (length TABLE) with 61%nat. lia.
Qed.

Lemma header_rep_run name value hard t :
  zlen name <= U64_MAX -> zlen value <= U64_MAX ->
  rep_ok (header_rep name value) /\ rep_run hard (header_rep name value) t = Some (t, [(name, value)]).
Proof.
  intros Hn Hv. destruct t as [entries max]. pose proof (zlen_nonneg name). pose proof (zlen_nonneg value).
  assert (is_u64 (zlen name) /\ is_u64 (zlen value)) as [Un Uv] by (split; split; lia).
  pose proof (find_match_spec name value TABLE [] None I) as Hf. unfold header_rep, find. cbn [app] in Hf.
  change (zlen (@nil (list Z * list Z))) with 0 in Hf. change (zlen TABLE) with 61 in Hf.
  destruct (find_match 0 TABLE name value None) as [k|k|]; cbn [rep_ok rep_run str_ok str_bytes spec_name].
  - destruct Hf as [Hk He]. rewrite (spec_entry_static k _ _ Hk He). split; [int_lia|done].
  - destruct Hf as [Hk He]. destruct (TABLE !! _) as [e|] eqn:E; [|done].
    rewrite (spec_entry_static k _ _ Hk E). cbn in *. injection He as <-. split; [split; [int_lia|done]|done].
  - split; [split; done|done].
Qed.

Definition list_reps (headers : list (list Z * list Z)) : list Rep :=
  (fun '(name, value) => header_rep (lowercase name) value) <$> headers.
Definition lowered (headers : list (list Z * list Z)) : list (list Z * list Z) :=
  (fun '(name, value) => (lowercase name, value)) <$> headers.

Lemma encode_list_reps headers : encode_header_list headers = reps_wire (list_reps headers).
Proof.
  induction headers as [|[n v] headers IH]; cbn [encode_header_list]; [done|].
  rewrite IH, encode_one_rep. unfold reps_wire, list_reps. rewrite !fmap_cons, concat_cons. reflexivity.
Qed.

Lemma list_reps_run headers hard t :
  Forall (fun h => zlen (fst h) <= U64_MAX /\ zlen (snd h) <= U64_MAX) headers ->
  Forall rep_ok (list_reps headers) /\ reps_run hard (list_reps headers) t = Some (t, lowered headers).
Proof.
  induction headers as [|[n v] headers IH]; intros H; [done|].
  apply Forall_cons in H as [[Hn Hv] H]. destruct (IH H) as [Hok Hrun]. cbn [fst snd] in *.
  assert (zlen (lowercase n) = zlen n) as El by (unfold zlen, lowercase; by rewrite length_fmap).
  destruct (header_rep_run (lowercase n) v hard t) as [Hr1 Hr2]; [lia|lia|].
  unfold list_reps, lowered in *. rewrite !fmap_cons.
  split; [by apply Forall_cons|]. cbn [reps_run]. by rewrite Hr2, Hrun.
Qed.

(* ------------------------------------------------------------------ *)
(** ** Properties *)

Lemma decode_of_reps reps ns vs s entries max fields :
  table_ok (fst s) -> Forall rep_ok reps ->
  reps_run (hard_max (fst s)) reps (dynamic (fst s), max_size (fst s)) = Some (entries, max, fields) ->
  Forall (field_fits ns vs) fields -> total_size fields <= max_header_list_size (fst s) ->
  exists d', decode (reps_wire reps) ns vs s = (inr tt, (d', snd s ++ fields)) /\
    dynamic d' = entries /\ max_size d' = max /\ hard_max d' = hard_max (fst s) /\ table_ok d'.
Proof.
  intros Hs Hok Hrun Hfits Hl. apply (decode_reps ns vs reps _ [] 0); done.
Qed.

(** C36: the decoder carries out any well-formed header block as RFC 7541 reads it:
    indexed fields of either table, literals with and without indexing, names by
    index or spelled, strings plain or Huffman-coded, and size updates.  It emits
    exactly the fields, in order, and leaves the newest entries that fit in the
    table. *)
Theorem hpack_decodes_representations reps ns vs s entries max fields :
  table_ok (fst s) -> Forall rep_ok reps ->
  reps_run (hard_max (fst s)) reps (dynamic (fst s), max_size (fst s)) = Some (entries, max, fields) ->
  Forall (field_fits ns vs) fields -> total_size fields <= max_header_list_size (fst s) ->
  exists d', decode (reps_wire reps) ns vs s = (inr tt, (d', snd s ++ fields)) /\
    dynamic d' = entries /\ max_size d' = max /\ hard_max d' = hard_max (fst s) /\ table_ok d'.
Proof. apply decode_of_reps. Qed.

(** C40: whatever header list the encoder is given, the decoder returns it, names
    in lower case, and its dynamic table is left alone. *)
Theorem hpack_roundtrip headers ns vs s :
  table_ok (fst s) ->
  Forall (field_fits ns vs) (lowered headers) -> ns <= U64_MAX -> vs <= U64_MAX ->
  total_size (lowered headers) <= max_header_list_size (fst s) ->
  exists d', decode (encode_header_list headers) ns vs s = (inr tt, (d', snd s ++ lowered headers)) /\
    dynamic d' = dynamic (fst s) /\ max_size d' = max_size (fst s).
Proof.
  intros Hs Hfits Hns Hvs Hl. rewrite encode_list_reps.
  destruct (list_reps_run headers (hard_max (fst s)) (dynamic (fst s), max_size (fst s))) as [Hok Hrun].
  { unfold lowered in Hfits. rewrite Forall_fmap in Hfits. eapply Forall_impl; [exact Hfits|]. intros [n v] [Hn Hv]. cbn [fst snd] in *.
    unfold zlen, lowercase in *. rewrite length_fmap in Hn. lia. }
  destruct (decode_of_reps _ ns vs s _ _ _ Hs Hok Hrun Hfits Hl) as (d' & E & E1 & E2 & _). eauto.
Qed.

(** whatever bytes a peer sends, in any number of header blocks and through
    any errors, the dynamic table never outgrows the advertised size, its size
    counter is exact, and no block makes the decoder emit more than the advertised
    header-list size. *)
Theorem hpack_decoder_bounded h m blocks :
  0 <= h ->
  let d := fst (exec (decode_blocks blocks) (new h m, [])) in
  size d = total_size (dynamic d) /\ total_size (dynamic d) <= max_size d <= h /\
  forall input ns vs sink, exists fields,
    snd (exec (decode input ns vs) (d, sink)) = sink ++ fields /\ (fields = [] \/ total_size fields <= m).
Proof.
  intros Hh. destruct (blocks_ok blocks (new h m, []) (new_ok h m Hh)) as (Hok & Eh & Em).
  intros d. fold d in Hok, Eh, Em. destruct Hok as [Hs Hf Hm]. cbn in Eh, Em. split; [done|]. split; [lia|].
  intros input ns vs sink. destruct (decode_bounded input ns vs (d, sink)) as (_ & _ & _ & new & E & H); [by split|].
  exists new. split; [done|]. cbn in H. rewrite Em in H. by rewrite Z.add_0_l in H.
Qed.

(** Ten continuation bytes carry 70 bits: the tenth is shifted by 63 and its bits
    beyond the first are dropped, so that 2^64 + 127 reads as 127. *)
Lemma hpack_integer_wraps : read_int (255 :: replicate 9 128 ++ [2]) 7 = inr (127, 11).
Proof. reflexivity. Qed.

(* ------------------------------------------------------------------ *)
(** ** Witnesses *)

(** RFC 7541 section C.4.1, then a reference to the entry it inserted and a size
    update that evicts it. *)
Definition sample_reps : list Rep :=
  [IndexedField 2;
   LiteralField Incremental (ByIndex 1)
     (Coded [241; 227; 194; 229; 242; 58; 107; 160; 171; 144; 244; 255] (str "www.example.com"));
   LiteralField NeverIndexed (Spelled (Raw (str "x-token"))) (Raw (str "secret"));
   IndexedField 62; SizeUpdate 40].

Lemma hpack_decodes_representations_witness :
  let host := (str ":authority", str "www.example.com") in
  exists d', decode (reps_wire sample_reps) 64 64 (new 4096 1000, []) =
      (inr tt, (d', [(str ":method", str "GET"); host; (str "x-token", str "secret"); host])) /\
    dynamic d' = [].
Proof.
  destruct (hpack_decodes_representations sample_reps 64 64 (new 4096 1000, []) [] 40
    [(str ":method", str "GET"); (str ":authority", str "www.example.com"); (str "x-token", str "secret");
     (str ":authority", str "www.example.com")]) as (d' & E & Ed & _).
  - apply new_ok. lia.
  - repeat constructor; try (vm_compute; congruence).
    exists 7%nat. split; [lia|vm_compute; reflexivity].
  - vm_compute. reflexivity.
  - repeat constructor; vm_compute; congruence.
  - vm_compute. congruence.
  - exists d'. split; [exact E|exact Ed].
Defined.

Lemma hpack_roundtrip_witness :
  encode_header_list [(str ":status", str "200"); (str "Alt-Svc", str "h3")] =
    136 :: 0 :: 7 :: str "alt-svc" ++ 2 :: str "h3" /\
  exists d', decode (encode_header_list [(str ":status", str "200"); (str "Alt-Svc", str "h3")]) 64 64
      (new 4096 1000, []) = (inr tt, (d', [(str ":status", str "200"); (str "alt-svc", str "h3")])).
Proof.
  split; [vm_compute; reflexivity|].
  destruct (hpack_roundtrip [(str ":status", str "200"); (str "Alt-Svc", str "h3")] 64 64 (new 4096 1000, []))
    as (d' & E & _).
  - apply new_ok. lia.
  - repeat constructor; vm_compute; congruence.
  - vm_compute. congruence.
  - vm_compute. congruence.
  - vm_compute. congruence.
  - exists d'. exact E.
Defined.

Lemma hpack_decoder_bounded_witness :
  let d := fst (exec (decode_blocks [([64; 1; 120; 1; 121], 64, 64); ([255; 128], 64, 64); ([190; 32], 64, 64)])
             (new 4096 100, [])) in
  size d = 0 /\ size d = total_size (dynamic d).
Proof.
  split; [vm_compute; reflexivity|].
  exact (proj1 (hpack_decoder_bounded 4096 100
    [([64; 1; 120; 1; 121], 64, 64); ([255; 128], 64, 64); ([190; 32], 64, 64)] ltac:(lia))).
Defined.
