(* ===== verification/H2Frame.v ===== *)
(** * HTTP/2 frame codec (crates/proto/http2/src/frame.rs)

    The 9-byte frame header, the frames the server and client append to their
    output, and the SETTINGS payload.  A frame appended to any output is read back
    with its length, type, flags and stream. *)

From S2P Require Import Prelude.
From S2P Require Import NetTypes.

Abbreviation FRAME_HEADER_LEN := 9%Z (only parsing).
Abbreviation RST_STREAM := 3%Z (only parsing).
Abbreviation SETTINGS := 4%Z (only parsing).
Abbreviation PING := 6%Z (only parsing).
Abbreviation GOAWAY := 7%Z (only parsing).
Abbreviation WINDOW_UPDATE := 8%Z (only parsing).
Abbreviation ACK := 1%Z (only parsing).

Record FrameHeader := mkFrameHeader {
  length : Z;
  ty : Z;
  flags : Z;
  stream_id : Z
}.

(** The byte at [i]; callers pass at least nine. *)
Definition byte (buf : list Z) (i : nat) : Z := default 0 (buf !! i).

Definition parse (buf : list Z) : FrameHeader :=
  mkFrameHeader
    (Z.lor (Z.lor (Z.shiftl (byte buf 0) 16) (Z.shiftl (byte buf 1) 8)) (byte buf 2))
    (byte buf 3) (byte buf 4)
    (Z.land (from_be_bytes [byte buf 5; byte buf 6; byte buf 7; byte buf 8]) 2147483647).

Definition has_flag (h : FrameHeader) (flag : Z) : bool := negb (Z.land (flags h) flag =? 0).

Definition push_frame_header (out : list Z) (length ty flags stream_id : Z) : list Z :=
  out ++ [w8 (Z.shiftr length 16); w8 (Z.shiftr length 8); w8 length; ty; flags]
      ++ to_be_bytes 4 (Z.land stream_id 2147483647).

Definition push_frame (out : list Z) (ty flags stream_id : Z) (payload : list Z) : list Z :=
  push_frame_header out (w32 (zlen payload)) ty flags stream_id ++ payload.

Definition setting_bytes (p : Z * Z) : list Z := to_be_bytes 2 (fst p) ++ to_be_bytes 4 (snd p).

Definition push_settings (out : list Z) (params : list (Z * Z)) : list Z :=
  push_frame_header out (w32 (zlen params * 6)) SETTINGS 0 0 ++ concat (setting_bytes <$> params).

Definition push_settings_ack (out : list Z) : list Z := push_frame_header out 0 SETTINGS ACK 0.

Definition push_window_update (out : list Z) (stream_id increment : Z) : list Z :=
  push_frame_header out 4 WINDOW_UPDATE 0 stream_id ++ to_be_bytes 4 (Z.land increment 2147483647).

Definition push_rst_stream (out : list Z) (stream_id error_code : Z) : list Z :=
  push_frame_header out 4 RST_STREAM 0 stream_id ++ to_be_bytes 4 error_code.

Definition push_goaway (out : list Z) (last_stream_id error_code : Z) : list Z :=
  push_frame_header out 8 GOAWAY 0 0
    ++ to_be_bytes 4 (Z.land last_stream_id 2147483647) ++ to_be_bytes 4 error_code.

Definition push_ping_ack (out opaque : list Z) : list Z :=
  push_frame_header out 8 PING ACK 0 ++ opaque.

(** [chunks_exact(6)]. *)
Fixpoint settings_chunks (payload : list Z) : list (Z * Z) :=
  match payload with
  | a :: b :: c :: d :: e :: f :: rest =>
      (from_be_bytes [a; b], from_be_bytes [c; d; e; f]) :: settings_chunks rest
  | _ => []
  end.

Definition parse_settings (payload : list Z) : option (list (Z * Z)) :=
  if negb (zlen payload mod 6 =? 0) then None else Some (settings_chunks payload).

(* ------------------------------------------------------------------ *)
(** ** The header *)

Lemma be4 x : exists a b c d, to_be_bytes 4 x = [a; b; c; d].
Proof.
  pose proof (length_to_be_bytes 4 x). destruct (to_be_bytes 4 x) as [|a [|b [|c [|d [|]]]]]; try done. eauto.
Qed.

Lemma land_31 x : 0 <= x < 2147483648 -> Z.land x 2147483647 = x.
Proof. intros H. change 2147483647 with (Z.ones 31). rewrite Z.land_ones by lia. by apply Z.mod_small. Qed.

Lemma length_bytes n : 0 <= n < 16777216 ->
  Z.lor (Z.lor (Z.shiftl (w8 (Z.shiftr n 16)) 16) (Z.shiftl (w8 (Z.shiftr n 8)) 8)) (w8 n) = n.
Proof.
  intros H. rewrite !Z.shiftr_div_pow2 by lia. change (2 ^ 16) with 65536. change (2 ^ 8) with 256. unfold w8.
  assert (0 <= n / 65536 < 256) by (split; [apply Z.div_pos; lia|apply Z.div_lt_upper_bound; lia]).
  rewrite (Z.mod_small (n / 65536)) by lia.
  pose proof (Z.mod_pos_bound (n / 256) 256 ltac:(lia)). pose proof (Z.mod_pos_bound n 256 ltac:(lia)).
  rewrite (Z.lor_comm (Z.shiftl (n / 65536) 16)).
  rewrite lor_shiftl by (rewrite ?Z.shiftl_mul_pow2 by lia; change (2 ^ 16) with 65536; change (2 ^ 8) with 256; lia).
  rewrite Z.shiftl_mul_pow2 by lia. change (2 ^ 16) with 65536. change (2 ^ 8) with 256.
  replace (n / 256 mod 256 * 256 + n / 65536 * 65536) with ((n / 256 mod 256 + n / 65536 * 256) * 2 ^ 8)
    by (change (2 ^ 8) with 256; lia).
  rewrite <-Z.shiftl_mul_pow2, Z.lor_comm, lor_shiftl by lia. change (2 ^ 8) with 256.
  pose proof (Z.div_mod n 256 ltac:(lia)). pose proof (Z.div_mod (n / 256) 256 ltac:(lia)).
  rewrite Z.div_div in * by lia. change (256 * 256) with 65536 in *. lia.
Qed.

Lemma parse_bytes x0 x1 x2 t f a b c d rest :
  parse (x0 :: x1 :: x2 :: t :: f :: a :: b :: c :: d :: rest) =
    mkFrameHeader (Z.lor (Z.lor (Z.shiftl x0 16) (Z.shiftl x1 8)) x2) t f
      (Z.land (from_be_bytes [a; b; c; d]) 2147483647).
Proof. reflexivity. Qed.

(** A frame header is read back at the place it was appended. *)
Lemma parse_pushed out n t f sid rest :
  0 <= n < 16777216 -> 0 <= sid < 2147483648 ->
  parse (zdrop (zlen out) (push_frame_header out n t f sid ++ rest)) = mkFrameHeader n t f sid /\
  zdrop (zlen out + FRAME_HEADER_LEN) (push_frame_header out n t f sid ++ rest) = rest.
Proof.
  intros Hn Hs. unfold push_frame_header. rewrite land_31 by done.
  pose proof (from_to_be_bytes 4 sid) as Hb. destruct (be4 sid) as (a & b & c & d & E). rewrite E in *.
  rewrite <-!app_assoc. split.
  - rewrite zdrop_app_ge by lia. rewrite Z.sub_diag. unfold zdrop. change (Z.to_nat 0) with 0%nat. rewrite drop_0. cbn [app].
    rewrite parse_bytes, length_bytes by done. f_equal. rewrite Hb, Z.mod_small by (change (256 ^ Z.of_nat 4) with 4294967296; lia).
    by apply land_31.
  - rewrite zdrop_app_ge by lia. by replace (zlen out + FRAME_HEADER_LEN - zlen out) with 9 by lia.
Qed.

Lemma settings_read params :
  Forall (fun p => is_u16 (fst p) /\ is_u32 (snd p)) params ->
  settings_chunks (concat (setting_bytes <$> params)) = params /\
  zlen (concat (setting_bytes <$> params)) = zlen params * 6.
Proof.
  induction 1 as [|[i v] params [Hi Hv] _ [IH1 IH2]]; [done|]. rewrite fmap_cons, concat_cons. cbn [fst snd] in *.
  pose proof (length_to_be_bytes 2 i) as L2. pose proof (from_to_be_bytes 2 i) as F2.
  pose proof (from_to_be_bytes 4 v) as F4. destruct (be4 v) as (c & d & e & f & E4).
  unfold setting_bytes at 1 3. cbn [fst snd]. rewrite E4 in *.
  destruct (to_be_bytes 2 i) as [|a [|b [|]]]; try done.
  change (256 ^ Z.of_nat 2) with 65536 in F2. change (256 ^ Z.of_nat 4) with 4294967296 in F4.
  rewrite Z.mod_small in F2 by int_lia. rewrite Z.mod_small in F4 by int_lia. split.
  - cbn [app settings_chunks]. by rewrite F2, F4, IH1.
  - rewrite zlen_app, IH2, zlen_cons. change (zlen ([a; b] ++ [c; d; e; f])) with 6. lia.
Qed.

(** A SETTINGS frame appended to any output is read back there, whatever
    follows: its header gives the type, stream 0 and the payload length, and the
    payload yields the parameters in order. *)
Theorem h2_settings_roundtrip out params rest :
  Forall (fun p => is_u16 (fst p) /\ is_u32 (snd p)) params -> zlen params * 6 < 16777216 ->
  let wire := push_settings out params ++ rest in
  let h := parse (zdrop (zlen out) wire) in
  h = mkFrameHeader (zlen params * 6) SETTINGS 0 0 /\
  parse_settings (ztake (length h) (zdrop (zlen out + FRAME_HEADER_LEN) wire)) = Some params /\
  zdrop (zlen out + FRAME_HEADER_LEN + length h) wire = rest.
Proof.
  intros Hp Hlen wire h. destruct (settings_read params Hp) as [Hc Hl]. pose proof (zlen_nonneg params).
  set (body := concat (setting_bytes <$> params)) in *.
  assert (wire = push_frame_header out (zlen params * 6) SETTINGS 0 0 ++ body ++ rest) as Ew.
  { unfold wire, push_settings. rewrite w32_small by int_lia. by rewrite <-app_assoc. }
  destruct (parse_pushed out (zlen params * 6) SETTINGS 0 0 (body ++ rest)) as [E1 E2]; [lia|lia|].
  rewrite <-Ew in E1, E2. unfold h. rewrite E1. cbn [length]. split; [done|]. rewrite E2. split.
  - unfold ztake. rewrite take_app_length' by (unfold zlen in *; lia). unfold parse_settings.
    rewrite Hl, Z.mod_mul by lia. cbn. by rewrite Hc.
  - transitivity (zdrop (zlen params * 6) (zdrop (zlen out + FRAME_HEADER_LEN) wire)).
    + unfold zdrop. rewrite drop_drop. f_equal. pose proof (zlen_nonneg out). lia.
    + rewrite E2, zdrop_app_ge by lia. by rewrite Hl, Z.sub_diag.
Qed.

Lemma h2_settings_roundtrip_witness :
  let wire := push_settings [9; 9] [(3, 100); (4, 65535)] ++ [7] in
  parse (zdrop 2 wire) = mkFrameHeader 12 SETTINGS 0 0 /\
  parse_settings (ztake 12 (zdrop 11 wire)) = Some [(3, 100); (4, 65535)].
Proof.
  destruct (h2_settings_roundtrip [9; 9] [(3, 100); (4, 65535)] [7]) as (E1 & E2 & _).
  - repeat constructor; vm_compute; congruence.
  - vm_compute. reflexivity.
  - split; [exact E1|exact E2].
Defined.
