(* ===== verification/QuicWire.v ===== *)
(** * QUIC wire format (crates/proto/quic/src/wire.rs)

    Variable-length integers, long- and short-header parsing, and the truncation
    and reconstruction of packet numbers. *)

From S2P Require Import Prelude.
From S2P Require Import NetTypes.

Inductive WireError :=
  | Truncated
  | BadLength
  | WrongForm
  | BadFixedBit
  | UnsupportedVersion (v : Z)
  | OutputTooSmall.

Abbreviation QUIC_VERSION_1 := 1%Z (only parsing).
Abbreviation FIXED_BIT := 64%Z (only parsing).
Abbreviation HEADER_FORM_LONG := 128%Z (only parsing).
Abbreviation INITIAL := 0%Z (only parsing).
Abbreviation ZERO_RTT := 1%Z (only parsing).
Abbreviation HANDSHAKE := 2%Z (only parsing).
Abbreviation MAX_CID_LEN := 20%Z (only parsing).
Definition MAX_VARINT : Z := Z.shiftl 1 62 - 1.

(** The byte at [i]; every use is within bounds. *)
Definition byte_at (data : list Z) (i : Z) : Z := default 0 (data !! Z.to_nat i).

(* ------------------------------------------------------------------ *)
(** ** Variable-length integers *)

Definition varint_len_from_first_byte (first_byte : Z) : Z :=
  Z.shiftl 1 (Z.land (Z.shiftr first_byte 6) 3).

(** The value and the bytes consumed. *)
Definition read_varint (data : list Z) : WireError + Z * Z :=
  match data with
  | [] => inl Truncated
  | first :: rest =>
      let len := varint_len_from_first_byte first in
      if zlen data <? len then inl Truncated
      else
        inr (foldl (fun v b => Z.lor (w64 (Z.shiftl v 8)) b) (Z.land first 63) (ztake (len - 1) rest), len)
  end.

(** [out[i] = (value >> (8 * (len - 1 - i))) & 0xff] for [i < len]. *)
Fixpoint be_write (len : nat) (value : Z) : list Z :=
  match len with
  | O => []
  | S len => Z.land (Z.shiftr value (8 * Z.of_nat len)) 255 :: be_write len value
  end.

(** [out[0] |= prefix]. *)
Definition or_first (prefix : Z) (l : list Z) : list Z :=
  match l with
  | [] => []
  | b :: l => Z.lor b prefix :: l
  end.

Definition varint_form (value : Z) : nat * Z :=
  if value <? Z.shiftl 1 6 then (1%nat, 0)
  else if value <? Z.shiftl 1 14 then (2%nat, 64)
  else if value <? Z.shiftl 1 30 then (4%nat, 128)
  else (8%nat, 192).

(** The bytes written, for an output of [cap] bytes. *)
Definition write_varint (value cap : Z) : WireError + list Z :=
  if MAX_VARINT <? value then inl BadLength
  else
    let (len, prefix) := varint_form value in
    if cap <? Z.of_nat len then inl OutputTooSmall
    else inr (or_first prefix (be_write len value)).

(* ------------------------------------------------------------------ *)
(** ** Headers *)

Record LongHeaderPreamble := mkPreamble {
  first_byte : Z;
  long_type : Z;
  version : Z;
  dcid : list Z;
  scid : list Z;
  tail_offset : Z
}.

(** [data[a..b]]. *)
Definition sub_slice (a b : Z) (data : list Z) : list Z := ztake (b - a) (zdrop a data).

Definition parse_long_header_preamble (data : list Z) : WireError + LongHeaderPreamble :=
  match data with
  | [] => inl Truncated
  | first :: _ =>
      if Z.land first HEADER_FORM_LONG =? 0 then inl WrongForm
      else if Z.land first FIXED_BIT =? 0 then inl BadFixedBit
      else
        let long_type := Z.land (Z.shiftr first 4) 3 in
        if zlen data <? 1 + 4 + 1 then inl Truncated
        else
          let version := from_be_bytes (sub_slice 1 5 data) in
          if negb (version =? QUIC_VERSION_1) then inl (UnsupportedVersion version)
          else
            let dcid_len := byte_at data 5 in
            if MAX_CID_LEN <? dcid_len then inl BadLength
            else if zlen data <? 1 + 4 + 1 + dcid_len + 1 then inl Truncated
            else
              let dcid := sub_slice 6 (6 + dcid_len) data in
              let scid_len_offset := 6 + dcid_len in
              let scid_len := byte_at data scid_len_offset in
              if MAX_CID_LEN <? scid_len then inl BadLength
              else
                let scid_start := scid_len_offset + 1 in
                let scid_end := scid_start + scid_len in
                if zlen data <? scid_end then inl Truncated
                else
                  inr (mkPreamble first long_type version dcid (sub_slice scid_start scid_end data) scid_end)
  end.

Record InitialHeader := mkInitial {
  ih_preamble : LongHeaderPreamble;
  token : list Z;
  ih_length : Z;
  ih_pn_offset : Z
}.

Definition parse_initial_header (data : list Z) : WireError + InitialHeader :=
  match parse_long_header_preamble data with
  | inl e => inl e
  | inr preamble =>
      if negb (long_type preamble =? INITIAL) then inl WrongForm
      else
        let p := tail_offset preamble in
        match read_varint (zdrop p data) with
        | inl e => inl e
        | inr (token_len, n) =>
            let p := p + n in
            if zlen data - p <? token_len then inl Truncated
            else
              let token_end := p + token_len in
              let token := sub_slice p token_end data in
              match read_varint (zdrop token_end data) with
              | inl e => inl e
              | inr (length, n) => inr (mkInitial preamble token length (token_end + n))
              end
        end
  end.

Record LongPayloadHeader := mkLongPayload {
  lh_preamble : LongHeaderPreamble;
  lh_length : Z;
  lh_pn_offset : Z
}.

Definition parse_long_payload_header (data : list Z) : WireError + LongPayloadHeader :=
  match parse_long_header_preamble data with
  | inl e => inl e
  | inr preamble =>
      if negb (long_type preamble =? HANDSHAKE) && negb (long_type preamble =? ZERO_RTT) then inl WrongForm
      else
        match read_varint (zdrop (tail_offset preamble) data) with
        | inl e => inl e
        | inr (length, n) => inr (mkLongPayload preamble length (tail_offset preamble + n))
        end
  end.

Record ShortHeader := mkShort {
  sh_first_byte : Z;
  sh_dcid : list Z;
  sh_pn_offset : Z
}.

Definition parse_short_header (data : list Z) (dcid_len : Z) : WireError + ShortHeader :=
  if MAX_CID_LEN <? dcid_len then inl BadLength
  else
    match data with
    | [] => inl Truncated
    | first :: _ =>
        if negb (Z.land first HEADER_FORM_LONG =? 0) then inl WrongForm
        else if Z.land first FIXED_BIT =? 0 then inl BadFixedBit
        else if zlen data <? 1 + dcid_len then inl Truncated
        else inr (mkShort first (sub_slice 1 (1 + dcid_len) data) (1 + dcid_len))
    end.

(* ------------------------------------------------------------------ *)
(** ** Packet numbers *)

Definition decode_packet_number (largest_pn truncated_pn truncated_pn_len : Z) : Z :=
  let pn_nbits := truncated_pn_len * 8 in
  let expected_pn := w64 (largest_pn + 1) in
  let pn_win := Z.shiftl 1 pn_nbits in
  let pn_hwin := pn_win / 2 in
  let pn_mask := pn_win - 1 in
  let candidate := Z.lor (Z.land expected_pn (Z.lxor U64_MAX pn_mask)) truncated_pn in
  if (w64 (candidate + pn_hwin) <=? expected_pn) && (candidate <? Z.shiftl 1 62 - pn_win) then
    w64 (candidate + pn_win)
  else if (w64 (expected_pn + pn_hwin) <? candidate) && (pn_win <=? candidate) then
    w64 (candidate - pn_win)
  else candidate.

(** [64 - x.leading_zeros()]. *)
Definition bit_length (x : Z) : Z := if x =? 0 then 0 else Z.log2 x + 1.

Definition pn_needed_bits (pn : Z) (largest_acked_pn : option Z) : Z :=
  match largest_acked_pn with
  | None => 64
  | Some largest =>
      let num_unacked := Z.max (sat_sub pn largest) 1 in
      bit_length (sat_sub (sat_mul64 num_unacked 2) 1)
  end.

Definition pn_length (needed_bits : Z) : nat :=
  if needed_bits <=? 8 then 1
  else if needed_bits <=? 16 then 2
  else if needed_bits <=? 24 then 3
  else 4.

(** The bytes written, for an output of [cap] bytes. *)
Definition encode_packet_number (pn : Z) (largest_acked_pn : option Z) (cap : Z)
    : WireError + list Z :=
  if cap <? 4 then inl OutputTooSmall
  else
    let len := pn_length (pn_needed_bits pn largest_acked_pn) in
    let mask := if (len =? 4)%nat then U32_MAX else Z.shiftl 1 (Z.of_nat len * 8) - 1 in
    inr (be_write len (Z.land (w32 pn) mask)).

(* ------------------------------------------------------------------ *)
(** ** Big-endian digits *)

Lemma be_digit value n : Z.land (Z.shiftr value (8 * Z.of_nat n)) 255 = value / 256 ^ Z.of_nat n mod 256.
Proof.
  change 255 with (Z.ones 8). rewrite Z.land_ones, Z.shiftr_div_pow2 by lia.
  rewrite Z.pow_mul_r by lia. done.
Qed.

Lemma be_write_ok n value : bytes_ok (be_write n value) /\ length (be_write n value) = n.
Proof.
  induction n as [|n [IH1 IH2]]; cbn [be_write length]; [by split; [constructor|]|].
  split; [|by rewrite IH2]. constructor; [|done]. rewrite be_digit.
  pose proof (Z.mod_pos_bound (value / 256 ^ Z.of_nat n) 256 ltac:(lia)). int_lia.
Qed.

(** The digits read back, after what was read before them. *)
Lemma read_digits n value : forall acc,
  0 <= acc -> (acc + 1) * 256 ^ Z.of_nat n <= U64_MAX + 1 ->
  foldl (fun v b => Z.lor (w64 (Z.shiftl v 8)) b) acc (be_write n value) =
    acc * 256 ^ Z.of_nat n + value mod 256 ^ Z.of_nat n.
Proof.
  induction n as [|n IH]; intros acc Ha Hle; cbn [be_write foldl].
  - change (256 ^ Z.of_nat 0) with 1. rewrite Z.mod_1_r. lia.
  - rewrite be_digit. rewrite Nat2Z.inj_succ, Z.pow_succ_r in * by lia.
    pose proof (Z.pow_pos_nonneg 256 (Z.of_nat n) ltac:(lia) ltac:(lia)) as Hp.
    pose proof (Z.mod_pos_bound (value / 256 ^ Z.of_nat n) 256 ltac:(lia)) as Hd.
    rewrite (Z.mul_comm 256 (256 ^ Z.of_nat n)), Z.rem_mul_r by lia.
    set (d := value / 256 ^ Z.of_nat n mod 256) in *. set (W := 256 ^ Z.of_nat n) in *.
    assert (Z.lor (w64 (Z.shiftl acc 8)) d = acc * 256 + d) as ->.
    { rewrite w64_small; [|rewrite Z.shiftl_mul_pow2 by lia; split; change (2 ^ 8) with 256; nia].
      rewrite Z.lor_comm, lor_shiftl by lia. change (2 ^ 8) with 256. lia. }
    rewrite IH; [|lia|nia]. subst W. nia.
Qed.

(* ------------------------------------------------------------------ *)
(** ** Variable-length integers *)

(** The form of a value: its byte count, the length code in its prefix, and the
    values it covers. *)
Lemma varint_form_spec v :
  0 <= v <= MAX_VARINT ->
  exists c, varint_form v = (Z.to_nat (2 ^ c), 64 * c) /\ 0 <= c <= 3 /\
    v < 64 * 256 ^ (2 ^ c - 1) /\ (0 < c -> 64 * 256 ^ (2 ^ (c - 1) - 1) <= v).
Proof.
  intros Hv. change MAX_VARINT with 4611686018427387903 in Hv. unfold varint_form.
  change (Z.shiftl 1 6) with 64. change (Z.shiftl 1 14) with 16384. change (Z.shiftl 1 30) with 1073741824.
  repeat match goal with |- context [v <? ?k] => destruct (v <? k) eqn:?; bool_to_prop end.
  - exists 0. split; [done|]. split; [lia|]. split; [cbn; lia|lia].
  - exists 1. split; [done|]. split; [lia|]. split; [cbn; lia|intros _; cbn; lia].
  - exists 2. split; [done|]. split; [lia|]. split; [cbn; lia|intros _; cbn; lia].
  - exists 3. split; [done|]. split; [lia|]. split; [cbn; lia|intros _; cbn; lia].
Qed.

(** A first byte: six value bits under a two-bit length code. *)
Lemma first_split d c :
  0 <= d < 64 -> 0 <= c <= 3 ->
  Z.land (Z.lor d (64 * c)) 63 = d /\ varint_len_from_first_byte (Z.lor d (64 * c)) = 2 ^ c.
Proof.
  intros Hd Hc. replace (64 * c) with (Z.shiftl c 6) by (rewrite Z.shiftl_mul_pow2 by lia; change (2 ^ 6) with 64; lia).
  rewrite lor_shiftl by lia. change (2 ^ 6) with 64. split.
  - change 63 with (Z.ones 6). rewrite Z.land_ones by lia. change (2 ^ 6) with 64.
    rewrite Z.mod_add by lia. apply Z.mod_small. lia.
  - unfold varint_len_from_first_byte. rewrite Z.shiftr_div_pow2 by lia. change (2 ^ 6) with 64.
    rewrite Z.div_add, Z.div_small, Z.add_0_l by lia. change 3 with (Z.ones 2). rewrite Z.land_ones by lia.
    rewrite Z.mod_small by (change (2 ^ 2) with 4; lia). apply Z.shiftl_1_l.
Qed.

Lemma pow2_len c : 0 <= c <= 3 -> exists n, Z.to_nat (2 ^ c) = S n /\ 2 ^ c = Z.of_nat n + 1 /\ (n <= 7)%nat.
Proof.
  intros Hc. assert (c = 0 \/ c = 1 \/ c = 2 \/ c = 3) as H by lia.
  destruct H as [->|[->|[->| ->]]]; eexists; split; try reflexivity; split; try reflexivity; lia.
Qed.

Lemma fold_bound l : forall acc,
  bytes_ok l -> 0 <= acc -> (acc + 1) * 256 ^ Z.of_nat (length l) <= U64_MAX + 1 ->
  0 <= foldl (fun v b => Z.lor (w64 (Z.shiftl v 8)) b) acc l < (acc + 1) * 256 ^ Z.of_nat (length l).
Proof.
  induction l as [|b l IH]; intros acc Hb Ha Hle; cbn [foldl length] in *.
  - change (256 ^ Z.of_nat 0) with 1. lia.
  - apply Forall_cons in Hb as [Hb Hl]. unfold is_u8, U8_MAX in Hb.
    rewrite Nat2Z.inj_succ, Z.pow_succ_r in * by lia.
    pose proof (Z.pow_pos_nonneg 256 (Z.of_nat (length l)) ltac:(lia) ltac:(lia)) as Hp.
    assert (Z.lor (w64 (Z.shiftl acc 8)) b = acc * 256 + b) as ->.
    { rewrite w64_small; [|rewrite Z.shiftl_mul_pow2 by lia; split; change (2 ^ 8) with 256; nia].
      rewrite Z.lor_comm, lor_shiftl by lia. change (2 ^ 8) with 256. lia. }
    specialize (IH (acc * 256 + b) Hl ltac:(lia) ltac:(nia)). nia.
Qed.

(** A parsed value fits the form its first byte announces. *)
Lemma read_varint_bound data v n :
  bytes_ok data -> read_varint data = inr (v, n) ->
  exists c, 0 <= c <= 3 /\ n = 2 ^ c /\ 0 <= v < 64 * 256 ^ (n - 1).
Proof.
  destruct data as [|first rest]; [done|]. intros Hb. apply Forall_cons in Hb as [Hf Hr]. cbn [read_varint].
  set (c := Z.land (Z.shiftr first 6) 3).
  assert (0 <= c <= 3) as Hc.
  { unfold c. change (Z.land (Z.shiftr first 6) 3) with (Z.land (Z.shiftr first 6) (Z.ones 2)).
    rewrite Z.land_ones by lia. pose proof (Z.mod_pos_bound (Z.shiftr first 6) (2 ^ 2) ltac:(lia)). change (2 ^ 2) with 4 in *. lia. }
  assert (varint_len_from_first_byte first = 2 ^ c) as ->.
  { unfold varint_len_from_first_byte. fold c. apply Z.shiftl_1_l. }
  destruct (zlen _ <? _) eqn:E; [done|]. bool_to_prop. intros [= <- <-]. exists c. split; [done|]. split; [done|].
  destruct (pow2_len c Hc) as (k & Ek & Ez & Hk). rewrite zlen_cons in E. replace (2 ^ c - 1) with (Z.of_nat k) by lia.
  set (l := ztake (Z.of_nat k) rest).
  assert (length l = k) as Hl by (unfold l, ztake, zlen in *; rewrite length_take; lia).
  assert (bytes_ok l) as Hbl by (unfold l, ztake; by apply Forall_take).
  assert (0 <= Z.land first 63 < 64) as Hfirst.
  { change 63 with (Z.ones 6). rewrite Z.land_ones by lia. apply Z.mod_pos_bound. lia. }
  assert (256 ^ Z.of_nat k <= 256 ^ 7) as H7 by (apply Z.pow_le_mono_r; lia).
  change (256 ^ 7) with 72057594037927936 in H7.
  pose proof (fold_bound l (Z.land first 63) Hbl ltac:(lia)) as H. rewrite Hl in H.
  specialize (H ltac:(unfold U64_MAX; nia)). nia.
Qed.

(** Every value up to 2^62 - 1 is written and read back, whatever follows it,
    and no encoding of it is shorter. *)
Theorem quic_varint_roundtrip v cap rest :
  0 <= v <= MAX_VARINT -> 8 <= cap ->
  exists w, write_varint v cap = inr w /\ read_varint (w ++ rest) = inr (v, zlen w) /\
    forall data n, bytes_ok data -> read_varint data = inr (v, n) -> zlen w <= n.
Proof.
  intros Hv Hcap. destruct (varint_form_spec v Hv) as (c & Ef & Hc & Hlt & Hge).
  destruct (pow2_len c Hc) as (k & Ek & Ez & Hk). unfold write_varint.
  destruct (MAX_VARINT <? v) eqn:E; bool_to_prop; [lia|]. rewrite Ef, Ek.
  destruct (cap <? Z.of_nat (S k)) eqn:E2; bool_to_prop; [lia|].
  assert (zlen (or_first (64 * c) (be_write (S k) v)) = 2 ^ c) as Elen.
  { unfold zlen. cbn [be_write or_first length]. rewrite (proj2 (be_write_ok k v)). lia. }
  eexists. split; [done|]. rewrite Elen. split.
  - replace (2 ^ c - 1) with (Z.of_nat k) in Hlt by lia. cbn [be_write or_first app]. rewrite be_digit.
    pose proof (Z.pow_pos_nonneg 256 (Z.of_nat k) ltac:(lia) ltac:(lia)) as Hp.
    assert (0 <= v / 256 ^ Z.of_nat k < 64) as Hd by (split; [apply Z.div_pos; lia|apply Z.div_lt_upper_bound; lia]).
    rewrite (Z.mod_small (v / _)) by lia. destruct (first_split _ c Hd Hc) as [E3 E4].
    cbn [read_varint]. rewrite E3, E4. rewrite zlen_cons, zlen_app.
    pose proof (zlen_nonneg rest). unfold zlen at 1. rewrite (proj2 (be_write_ok k v)).
    destruct (_ <? 2 ^ c) eqn:E5; bool_to_prop; [lia|].
    replace (ztake (2 ^ c - 1) (be_write k v ++ rest)) with (be_write k v).
    2:{ unfold ztake. rewrite take_app_length'; [done|]. rewrite (proj2 (be_write_ok k v)). lia. }
    assert (256 ^ Z.of_nat k <= 256 ^ 7) as H7 by (apply Z.pow_le_mono_r; lia).
    change (256 ^ 7) with 72057594037927936 in H7.
    rewrite read_digits by (unfold U64_MAX; nia). f_equal. f_equal.
    pose proof (Z.div_mod v (256 ^ Z.of_nat k)). lia.
  - intros data n Hb Hr. apply read_varint_bound in Hr as (c' & Hc' & -> & Hv'); [|done].
    destruct (Z.lt_ge_cases c' c) as [Hlt'|]; [|by apply Z.pow_le_mono_r].
    assert (2 ^ c' - 1 <= 2 ^ (c - 1) - 1) as Hle by (pose proof (Z.pow_le_mono_r 2 c' (c - 1)); lia).
    pose proof (Z.pow_pos_nonneg 2 c'). pose proof (Z.pow_le_mono_r 256 _ _ ltac:(lia) Hle). specialize (Hge ltac:(lia)). lia.
Qed.

(* ------------------------------------------------------------------ *)
(** ** Packet numbers *)

Lemma le_bytes_snoc n x : to_le_bytes (S n) x = to_le_bytes n x ++ [x / 256 ^ Z.of_nat n mod 256].
Proof.
  revert x. induction n as [|n IH]; intros x.
  - cbn. by rewrite Z.div_1_r.
  - change (to_le_bytes (S (S n)) x) with (x mod 256 :: to_le_bytes (S n) (x / 256)). rewrite IH.
    change (to_le_bytes (S n) x) with (x mod 256 :: to_le_bytes n (x / 256)). cbn [app]. do 3 f_equal.
    rewrite Nat2Z.inj_succ, Z.pow_succ_r, Z.div_div by lia. done.
Qed.

Lemma be_write_bytes n x : be_write n x = to_be_bytes n x.
Proof.
  unfold to_be_bytes. induction n as [|n IH]; [done|].
  rewrite le_bytes_snoc, rev_app_distr. cbn [be_write rev app]. by rewrite be_digit, IH.
Qed.

(** The candidate: the expected number with its low digits replaced. *)
Lemma candidate_spec e t n :
  is_u64 e -> 0 <= n <= 64 -> 0 <= t < 2 ^ n ->
  Z.lor (Z.land e (Z.lxor U64_MAX (Z.shiftl 1 n - 1))) t = e - e mod 2 ^ n + t.
Proof.
  intros He Hn Ht. rewrite Z.shiftl_1_l. replace (2 ^ n - 1) with (Z.ones n) by (rewrite Z.ones_equiv; lia).
  assert (Z.land e (Z.lxor U64_MAX (Z.ones n)) = Z.shiftl (e / 2 ^ n) n) as ->.
  { rewrite <-Z.shiftr_div_pow2, <-Z.ldiff_ones_r by lia. apply Z.bits_inj'. intros k Hk.
    rewrite Z.land_spec, Z.lxor_spec, Z.ldiff_spec. change U64_MAX with (Z.ones 64).
    destruct (Z.lt_ge_cases k 64).
    - rewrite (Z.ones_spec_low 64) by lia. by rewrite xorb_true_l.
    - rewrite (testbit_small e 64) by (try lia; unfold is_u64, U64_MAX in He; change (2 ^ 64) with 18446744073709551616; lia).
      done. }
  rewrite Z.lor_comm, lor_shiftl by lia. pose proof (Z.div_mod e (2 ^ n) ltac:(lia)). lia.
Qed.

Lemma nearest_arith e H cand pn :
  128 <= H <= 2147483648 -> 0 <= e <= 4611686018427387904 -> 0 <= pn < 4611686018427387904 ->
  e - H < pn <= e + H -> 0 <= cand -> cand = pn \/ cand = pn - 2 * H \/ cand = pn + 2 * H ->
  (if (w64 (cand + H) <=? e) && (cand <? 4611686018427387904 - 2 * H) then w64 (cand + 2 * H)
   else if (w64 (e + H) <? cand) && (2 * H <=? cand) then w64 (cand - 2 * H)
   else cand) = pn.
Proof.
  intros HH He Hpn Hnear Hc0 Hc.
  assert (forall x, 0 <= x <= 4611686018427387904 + 17179869184 -> w64 x = x) as Hw
    by (intros x Hx; apply w64_small; unfold is_u64, U64_MAX; lia).
  rewrite (Hw (cand + H)), (Hw (e + H)) by lia.
  destruct (cand + H <=? e) eqn:E1, (cand <? _) eqn:E2; bool_to_prop; cbn [andb]; [rewrite Hw; lia|..];
    destruct (e + H <? cand) eqn:E3, (2 * H <=? cand) eqn:E4; bool_to_prop; cbn [andb]; try lia;
    rewrite Hw; lia.
Qed.

(** Reconstruction picks the number with those digits nearest the expected one. *)
Lemma decode_nearest largest pn len :
  1 <= len <= 4 -> 0 <= largest < 2 ^ 62 -> 0 <= pn < 2 ^ 62 ->
  largest + 1 - 2 ^ (8 * len) / 2 < pn <= largest + 1 + 2 ^ (8 * len) / 2 ->
  decode_packet_number largest (pn mod 2 ^ (8 * len)) len = pn.
Proof.
  intros Hlen Hl Hpn Hnear. unfold decode_packet_number. replace (len * 8) with (8 * len) by lia.
  change (2 ^ 62) with 4611686018427387904 in *.
  assert (is_u64 (largest + 1)) as Hu by int_lia. rewrite (w64_small _ Hu).
  assert (exists H, 2 ^ (8 * len) = 2 * H /\ 128 <= H <= 2147483648) as (H & EW & HH).
  { assert (len = 1 \/ len = 2 \/ len = 3 \/ len = 4) as C by lia.
    destruct C as [->|[->|[->| ->]]]; [exists 128|exists 32768|exists 8388608|exists 2147483648]; split; done || lia. }
  assert (0 < 2 ^ (8 * len)) as HW by lia.
  pose proof (Z.mod_pos_bound pn (2 ^ (8 * len)) HW). pose proof (Z.mod_pos_bound (largest + 1) (2 ^ (8 * len)) HW).
  rewrite candidate_spec by (done || lia). rewrite Z.shiftl_1_l.
  pose proof (Z.div_mod pn (2 ^ (8 * len)) ltac:(lia)) as D1.
  pose proof (Z.div_mod (largest + 1) (2 ^ (8 * len)) ltac:(lia)) as D2.
  replace (2 ^ (8 * len) / 2) with H in * by (rewrite EW, Z.mul_comm, Z.div_mul; lia).
  set (q := pn / 2 ^ (8 * len)) in *. set (t := pn mod 2 ^ (8 * len)) in *.
  set (qe := (largest + 1) / 2 ^ (8 * len)) in *. set (r := (largest + 1) mod 2 ^ (8 * len)) in *.
  rewrite EW in *. change (Z.shiftl 1 62) with 4611686018427387904.
  replace (largest + 1 - r + t) with (2 * H * qe + t) by lia.
  assert (q - 1 <= qe <= q + 1) as Hq by nia. assert (0 <= qe) by nia. assert (0 <= q) by nia.
  assert (0 <= 2 * H * qe + t <= 4611686018427387904 + 2 * H) as Hc by nia.
  set (cand := 2 * H * qe + t) in *.
  assert (cand = pn \/ cand = pn - 2 * H \/ cand = pn + 2 * H) as Hcases.
  { assert (qe = q \/ qe = q - 1 \/ qe = q + 1) as C by lia. subst cand. destruct C as [->|[->| ->]]; lia. }
  apply nearest_arith; lia.
Qed.

Lemma bit_length_bound x n : 0 <= x -> 0 <= n -> bit_length x <= n <-> x < 2 ^ n.
Proof.
  intros Hx Hn. unfold bit_length. destruct (x =? 0) eqn:E; bool_to_prop.
  - subst. pose proof (Z.pow_pos_nonneg 2 n). lia.
  - pose proof (Z.log2_lt_pow2 x n ltac:(lia)). pose proof (Z.log2_nonneg x). lia.
Qed.

(** The length chosen covers twice the distance to the acknowledged number. *)
Lemma pn_length_covers pn acked :
  0 <= pn -> 0 <= acked -> pn - acked <= 2147483648 ->
  let len := Z.of_nat (pn_length (pn_needed_bits pn (Some acked))) in
  1 <= len <= 4 /\ pn - acked <= 2 ^ (8 * len) / 2.
Proof.
  intros Hp Ha Hd len. unfold len, pn_needed_bits.
  set (n := Z.max (sat_sub pn acked) 1). assert (1 <= n <= 2147483648 /\ pn - acked <= n) as [Hn Hle] by (unfold n, sat_sub; lia).
  replace (sat_sub (sat_mul64 n 2) 1) with (2 * n - 1)
    by (unfold sat_sub, sat_mul64, U64_MAX; lia).
  pose proof (bit_length_bound (2 * n - 1) 8 ltac:(lia) ltac:(lia)) as B1.
  pose proof (bit_length_bound (2 * n - 1) 16 ltac:(lia) ltac:(lia)) as B2.
  pose proof (bit_length_bound (2 * n - 1) 24 ltac:(lia) ltac:(lia)) as B3.
  change (2 ^ 8) with 256 in B1. change (2 ^ 16) with 65536 in B2. change (2 ^ 24) with 16777216 in B3.
  unfold pn_length.
  destruct (_ <=? 8) eqn:E1; bool_to_prop; [change (2 ^ (8 * Z.of_nat 1) / 2) with 128; lia|].
  destruct (_ <=? 16) eqn:E2; bool_to_prop; [change (2 ^ (8 * Z.of_nat 2) / 2) with 32768; lia|].
  destruct (_ <=? 24) eqn:E3; bool_to_prop; [change (2 ^ (8 * Z.of_nat 3) / 2) with 8388608; lia|].
  change (2 ^ (8 * Z.of_nat 4) / 2) with 2147483648. lia.
Qed.

(** The bytes of a truncated packet number. *)
Lemma encode_pn_bytes pn acked cap :
  4 <= cap ->
  let len := pn_length (pn_needed_bits pn acked) in
  (1 <= len <= 4)%nat -> exists bytes, encode_packet_number pn acked cap = inr bytes /\
    length bytes = len /\ from_be_bytes bytes = pn mod 2 ^ (8 * Z.of_nat len).
Proof.
  intros Hcap len Hlen. unfold encode_packet_number. destruct (cap <? 4) eqn:E; bool_to_prop; [lia|].
  fold len. eexists. split; [done|]. split; [apply be_write_ok|]. rewrite be_write_bytes, from_to_be_bytes.
  replace (256 ^ Z.of_nat len) with (2 ^ (8 * Z.of_nat len)) by (by rewrite Z.pow_mul_r by lia).
  assert (Z.land (w32 pn) (if (len =? 4)%nat then U32_MAX else Z.shiftl 1 (Z.of_nat len * 8) - 1)
    = pn mod 2 ^ (8 * Z.of_nat len)) as ->; [|apply Z.mod_mod; pose proof (Z.pow_pos_nonneg 2 (8 * Z.of_nat len)); lia].
  assert (forall k, 0 <= k <= 32 -> Z.land (w32 pn) (Z.ones k) = pn mod 2 ^ k) as Hm.
  { intros k Hk. rewrite Z.land_ones by lia. unfold w32. change 4294967296 with (2 ^ 32).
    rewrite Z.mod_mod_divide; [done|]. exists (2 ^ (32 - k)). rewrite <-Z.pow_add_r by lia. f_equal. lia. }
  assert (len = 1 \/ len = 2 \/ len = 3 \/ len = 4)%nat as C by lia.
  destruct C as [->|[->|[->| ->]]]; cbn [Nat.eqb];
    [apply (Hm 8)|apply (Hm 16)|apply (Hm 24)|apply (Hm 32)]; lia.
Qed.

(** a packet number written relative to the largest acknowledged one is
    reconstructed by a receiver whose largest received number lies anywhere from
    the acknowledged one up to 126 beyond the packet. *)
Theorem packet_number_roundtrip pn acked largest cap :
  4 <= cap -> 0 <= pn < 2 ^ 62 -> 0 <= acked <= largest -> largest < 2 ^ 62 ->
  pn - acked <= 2147483648 -> largest < pn + 127 ->
  exists bytes, encode_packet_number pn (Some acked) cap = inr bytes /\ (1 <= length bytes <= 4)%nat /\
    decode_packet_number largest (from_be_bytes bytes) (zlen bytes) = pn.
Proof.
  intros Hcap Hpn Ha Hl Hd Hre.
  destruct (pn_length_covers pn acked ltac:(lia) ltac:(lia) Hd) as [Hlen Hcov].
  destruct (encode_pn_bytes pn (Some acked) cap Hcap ltac:(lia)) as (bytes & E & El & Ev).
  exists bytes. split; [done|]. split; [lia|]. rewrite Ev. unfold zlen. rewrite El.
  assert (128 <= 2 ^ (8 * Z.of_nat (pn_length (pn_needed_bits pn (Some acked)))) / 2) as H128.
  { apply Z.div_le_lower_bound; [lia|]. change (2 * 128) with (2 ^ 8). apply Z.pow_le_mono_r; lia. }
  apply decode_nearest; lia.
Qed.

(* ------------------------------------------------------------------ *)
(** ** Headers *)

(** The bytes a preamble stands for. *)
Definition preamble_wire (p : LongHeaderPreamble) : list Z :=
  first_byte p :: to_be_bytes 4 (version p) ++ zlen (dcid p) :: dcid p ++ zlen (scid p) :: scid p.

Definition preamble_ok (p : LongHeaderPreamble) : Prop :=
  Z.land (first_byte p) HEADER_FORM_LONG <> 0 /\ Z.land (first_byte p) FIXED_BIT <> 0 /\
  long_type p = Z.land (Z.shiftr (first_byte p) 4) 3 /\ version p = QUIC_VERSION_1 /\
  zlen (dcid p) <= MAX_CID_LEN /\ zlen (scid p) <= MAX_CID_LEN /\ tail_offset p = zlen (preamble_wire p).

Lemma sub_slice_zdrop a b data : 0 <= a <= b -> zdrop a data = sub_slice a b data ++ zdrop b data.
Proof.
  intros H. unfold sub_slice. rewrite <-(ztake_zdrop (b - a) (zdrop a data)) at 1. f_equal.
  unfold zdrop. rewrite drop_drop. f_equal. lia.
Qed.

Lemma zlen_sub_slice a b data : 0 <= a <= b -> b <= zlen data -> zlen (sub_slice a b data) = b - a.
Proof. intros H1 H2. unfold sub_slice. rewrite zlen_ztake, zlen_zdrop by lia. lia. Qed.

Lemma zdrop_byte i data : 0 <= i < zlen data -> zdrop i data = byte_at data i :: zdrop (i + 1) data.
Proof.
  intros H. unfold zdrop, byte_at, zlen in *. replace (Z.to_nat (i + 1)) with (S (Z.to_nat i)) by lia.
  destruct (lookup_lt_is_Some_2 data (Z.to_nat i) ltac:(lia)) as [b Eb]. rewrite Eb.
  by apply drop_S.
Qed.

Lemma byte_at_ok data i : bytes_ok data -> is_u8 (byte_at data i).
Proof.
  intros H. unfold byte_at. destruct (data !! Z.to_nat i) as [b|] eqn:E; [|vm_compute; intuition congruence].
  by apply (proj1 (Forall_lookup _ _) H _ _ E).
Qed.

Lemma preamble_exact data p :
  bytes_ok data -> parse_long_header_preamble data = inr p ->
  preamble_ok p /\ data = preamble_wire p ++ zdrop (tail_offset p) data.
Proof.
  intros Hb. unfold parse_long_header_preamble. destruct data as [|first rest]; [done|].
  set (data := first :: rest) in *.
  destruct (Z.land first HEADER_FORM_LONG =? 0) eqn:E1; [done|]. destruct (Z.land first FIXED_BIT =? 0) eqn:E2; [done|].
  destruct (zlen data <? 1 + 4 + 1) eqn:E3; [done|].
  destruct (negb _) eqn:E4; [done|]. pose proof (byte_at_ok data 5 Hb) as H5. unfold is_u8, U8_MAX in H5.
  set (dl := byte_at data 5) in *. destruct (MAX_CID_LEN <? dl) eqn:E5; [done|].
  destruct (zlen data <? 1 + 4 + 1 + dl + 1) eqn:E6; [done|].
  pose proof (byte_at_ok data (6 + dl) Hb) as H6. unfold is_u8, U8_MAX in H6.
  set (sl := byte_at data (6 + dl)) in *. destruct (MAX_CID_LEN <? sl) eqn:E7; [done|].
  destruct (zlen data <? 6 + dl + 1 + sl) eqn:E8; [done|]. apply negb_false_iff in E4. bool_to_prop.
  intros [= <-]. cbn [tail_offset].
  assert (zlen (sub_slice 6 (6 + dl) data) = dl) as L1 by (rewrite zlen_sub_slice; lia).
  assert (zlen (sub_slice (6 + dl + 1) (6 + dl + 1 + sl) data) = sl) as L2 by (rewrite zlen_sub_slice; lia).
  assert (length (sub_slice 1 5 data) = 4%nat) as L3
    by (pose proof (zlen_sub_slice 1 5 data ltac:(lia) ltac:(lia)); unfold zlen in *; lia).
  assert (to_be_bytes 4 (from_be_bytes (sub_slice 1 5 data)) = sub_slice 1 5 data) as Ev.
  { rewrite <-L3 at 1. apply to_from_be_bytes. unfold sub_slice, ztake, zdrop. by apply Forall_take, Forall_drop. }
  assert (tail_offset (mkPreamble first (Z.land (Z.shiftr first 4) 3) (from_be_bytes (sub_slice 1 5 data))
    (sub_slice 6 (6 + dl) data) (sub_slice (6 + dl + 1) (6 + dl + 1 + sl) data) (6 + dl + 1 + sl)) =
    6 + dl + 1 + sl) as Et by done.
  unfold preamble_ok, preamble_wire. cbn [first_byte long_type version dcid scid tail_offset].
  rewrite Ev, L1, L2. split.
  - do 6 (split; [done || lia|]). rewrite !zlen_cons, zlen_app, !zlen_cons, zlen_app, zlen_cons, L1, L2. unfold zlen. rewrite L3. lia.
  - change (data = first :: (sub_slice 1 5 data ++ dl :: sub_slice 6 (6 + dl) data ++ sl ::
      sub_slice (6 + dl + 1) (6 + dl + 1 + sl) data) ++ zdrop (6 + dl + 1 + sl) data).
    unfold data at 1. f_equal. rewrite <-app_assoc. cbn [app]. rewrite <-app_assoc. cbn [app].
    change rest with (zdrop 1 data). rewrite (sub_slice_zdrop 1 5 data) by lia. f_equal.
    rewrite (zdrop_byte 5) by lia. fold dl. f_equal. change (5 + 1) with 6.
    rewrite (sub_slice_zdrop 6 (6 + dl)) by lia. f_equal. rewrite (zdrop_byte (6 + dl)) by lia. fold sl. f_equal.
    apply sub_slice_zdrop. lia.
Qed.

Lemma read_varint_consumes data v n : bytes_ok data -> read_varint data = inr (v, n) -> 1 <= n <= zlen data /\ 0 <= v.
Proof.
  intros Hb E. destruct (read_varint_bound data v n Hb E) as (c & Hc & Hn & Hv).
  split; [|lia]. assert (1 <= n) by (subst; pose proof (Z.pow_pos_nonneg 2 c); lia).
  split; [done|]. destruct data as [|first rest]; [done|]. cbn [read_varint] in E.
  destruct (zlen _ <? _) eqn:E2; [done|]. bool_to_prop. injection E as _ <-. lia.
Qed.

(** Only the bytes it consumes matter. *)
Lemma read_varint_local data v n rest :
  bytes_ok data -> read_varint data = inr (v, n) ->
  read_varint (ztake n data ++ rest) = inr (v, n) /\ zlen (ztake n data) = n.
Proof.
  intros Hb E. destruct (read_varint_consumes data v n Hb E) as [Hn _].
  assert (zlen (ztake n data) = n) as El by (rewrite zlen_ztake; lia). split; [|done].
  destruct data as [|first r]; [done|]. cbn [read_varint] in E.
  destruct (zlen (first :: r) <? _) eqn:E2; [done|]. bool_to_prop. injection E as Ev En.
  rewrite En in *. rewrite zlen_cons in Hn.
  assert (ztake n (first :: r) = first :: ztake (n - 1) r) as Et.
  { unfold ztake. by replace (Z.to_nat n) with (S (Z.to_nat (n - 1))) by lia. }
  pose proof (zlen_nonneg rest). rewrite Et in *. cbn [app read_varint]. rewrite En.
  rewrite zlen_cons, zlen_app. rewrite zlen_cons in El.
  destruct (_ <? n) eqn:E3; bool_to_prop; [lia|]. f_equal. f_equal.
  rewrite <-Ev. f_equal. unfold ztake in *. rewrite take_app_le, take_take; [f_equal; lia|]. unfold zlen in El. lia.
Qed.

(** An Initial packet that parses is exactly what its fields say: the
    preamble, a variable-length integer that counts the token, the token, and the
    payload length, ending at the packet-number offset inside the datagram.  No
    slice is ever out of range. *)
Theorem quic_initial_header_exact data h :
  bytes_ok data -> parse_initial_header data = inr h ->
  preamble_ok (ih_preamble h) /\ long_type (ih_preamble h) = INITIAL /\ ih_pn_offset h <= zlen data /\
  exists tl pl, data = preamble_wire (ih_preamble h) ++ tl ++ token h ++ pl ++ zdrop (ih_pn_offset h) data /\
    (forall rest, read_varint (tl ++ rest) = inr (zlen (token h), zlen tl)) /\
    (forall rest, read_varint (pl ++ rest) = inr (ih_length h, zlen pl)).
Proof.
  intros Hb. unfold parse_initial_header.
  destruct (parse_long_header_preamble data) as [e|p] eqn:Ep; [done|].
  destruct (preamble_exact data p Hb Ep) as [Hok Hdata].
  destruct (negb _) eqn:Et; [done|]. apply negb_false_iff in Et. bool_to_prop.
  assert (bytes_ok (zdrop (tail_offset p) data)) as Hb1 by (by apply Forall_drop).
  assert (0 <= tail_offset p <= zlen data) as Htail.
  { destruct Hok as (_ & _ & _ & _ & _ & _ & E). apply (f_equal zlen) in Hdata. rewrite zlen_app, <-E in Hdata.
    pose proof (zlen_nonneg (zdrop (tail_offset p) data)). pose proof (zlen_nonneg (preamble_wire p)). lia. }
  destruct (read_varint (zdrop (tail_offset p) data)) as [e|[tl n1]] eqn:E1; [done|].
  pose proof (read_varint_consumes _ _ _ Hb1 E1) as [Hn1 Htl]. rewrite zlen_zdrop in Hn1 by lia.
  destruct (_ <? tl) eqn:E2; [done|]. bool_to_prop. set (te := tail_offset p + n1 + tl) in *.
  assert (bytes_ok (zdrop te data)) as Hb2 by (by apply Forall_drop).
  destruct (read_varint (zdrop te data)) as [e|[len n2]] eqn:E3; [done|].
  pose proof (read_varint_consumes _ _ _ Hb2 E3) as [Hn2 _]. rewrite zlen_zdrop in Hn2 by lia.
  intros [= <-]. cbn [ih_preamble token ih_length ih_pn_offset].
  split; [done|]. split; [done|]. split; [lia|].
  exists (sub_slice (tail_offset p) (tail_offset p + n1) data), (sub_slice te (te + n2) data).
  rewrite zlen_sub_slice by lia. split; [|split].
  - rewrite Hdata at 1. f_equal. rewrite (sub_slice_zdrop _ (tail_offset p + n1)) by lia. f_equal.
    rewrite (sub_slice_zdrop _ te) by lia. f_equal. apply sub_slice_zdrop. lia.
  - intros rest. unfold sub_slice. replace (tail_offset p + n1 - tail_offset p) with n1 by lia.
    destruct (read_varint_local _ _ _ rest Hb1 E1) as [-> ->]. do 2 f_equal. lia.
  - intros rest. unfold sub_slice. replace (te + n2 - te) with n2 by lia.
    destruct (read_varint_local _ _ _ rest Hb2 E3) as [-> ->]. done.
Qed.

(* ------------------------------------------------------------------ *)
(** ** Witnesses *)

Lemma quic_varint_roundtrip_witness :
  write_varint 15293 8 = inr [123; 189] /\ read_varint [123; 189; 7] = inr (15293, 2).
Proof.
  destruct (quic_varint_roundtrip 15293 8 [7]) as (w & Ew & Er & _).
  - vm_compute. intuition congruence.
  - lia.
  - assert (write_varint 15293 8 = inr [123; 189]) as E by (vm_compute; reflexivity).
    rewrite E in Ew. injection Ew as <-. split; [exact E|exact Er].
Defined.

(** The example of RFC 9000 section A.3. *)
Lemma packet_number_roundtrip_witness :
  exists bytes, encode_packet_number 2831784754 (Some 2831773228) 4 = inr bytes /\
    decode_packet_number 2831773230 (from_be_bytes bytes) (zlen bytes) = 2831784754.
Proof.
  destruct (packet_number_roundtrip 2831784754 2831773228 2831773230 4) as (bytes & E & _ & Ed); [lia..|].
  exists bytes. split; [exact E|exact Ed].
Defined.

Definition sample_initial : list Z := [192; 0; 0; 0; 1; 2; 17; 18; 0; 1; 171; 64; 100; 7].

Lemma quic_initial_header_exact_witness :
  exists h, parse_initial_header sample_initial = inr h /\ dcid (ih_preamble h) = [17; 18] /\ token h = [171] /\
    ih_length h = 100 /\ ih_pn_offset h <= 14.
Proof.
  destruct (parse_initial_header sample_initial) as [e|h] eqn:E; [vm_compute in E; discriminate|].
  pose proof (quic_initial_header_exact sample_initial h) as (_ & _ & Hle & _).
  - repeat constructor; vm_compute; congruence.
  - exact E.
  - exists h. split; [reflexivity|]. vm_compute in E. injection E as <-.
    split; [reflexivity|]. split; [reflexivity|]. split; [reflexivity|exact Hle].
Defined.
