(* ===== verification/QuicFrame.v ===== *)
(** * QUIC frames (crates/proto/quic/src/frame.rs)

    The frame codec over decrypted packet payloads: [parse_frame] with one parser
    per frame type, and the writers of every frame the connection emits.  A slice or
    index out of range is the panic it is in the source ([FramePanic]). *)

From S2P Require Import Prelude.
From S2P Require Import NetTypes.
From S2P Require Import QuicWire.

(* ------------------------------------------------------------------ *)
(** ** Frame types *)

Module ftype.
Abbreviation PADDING := 0%Z (only parsing).
Abbreviation PING := 1%Z (only parsing).
Abbreviation ACK := 2%Z (only parsing).
Abbreviation ACK_ECN := 3%Z (only parsing).
Abbreviation RESET_STREAM := 4%Z (only parsing).
Abbreviation STOP_SENDING := 5%Z (only parsing).
Abbreviation CRYPTO := 6%Z (only parsing).
Abbreviation NEW_TOKEN := 7%Z (only parsing).
Abbreviation STREAM_BASE := 8%Z (only parsing).
Abbreviation STREAM_FLAG_FIN := 1%Z (only parsing).
Abbreviation STREAM_FLAG_LEN := 2%Z (only parsing).
Abbreviation STREAM_FLAG_OFF := 4%Z (only parsing).
Abbreviation STREAM_MAX := 15%Z (only parsing).
Abbreviation MAX_DATA := 16%Z (only parsing).
Abbreviation MAX_STREAM_DATA := 17%Z (only parsing).
Abbreviation MAX_STREAMS_BIDI := 18%Z (only parsing).
Abbreviation MAX_STREAMS_UNI := 19%Z (only parsing).
Abbreviation DATA_BLOCKED := 20%Z (only parsing).
Abbreviation STREAM_DATA_BLOCKED := 21%Z (only parsing).
Abbreviation STREAMS_BLOCKED_BIDI := 22%Z (only parsing).
Abbreviation STREAMS_BLOCKED_UNI := 23%Z (only parsing).
Abbreviation NEW_CONNECTION_ID := 24%Z (only parsing).
Abbreviation RETIRE_CONNECTION_ID := 25%Z (only parsing).
Abbreviation PATH_CHALLENGE := 26%Z (only parsing).
Abbreviation PATH_RESPONSE := 27%Z (only parsing).
Abbreviation CONNECTION_CLOSE_TRANSPORT := 28%Z (only parsing).
Abbreviation CONNECTION_CLOSE_APPLICATION := 29%Z (only parsing).
Abbreviation HANDSHAKE_DONE := 30%Z (only parsing).
End ftype.

(** [FramePanic] is not an error of the source: it stands for the panic of an index
    or a slice out of range. *)
Inductive FrameError :=
  | FrameTruncated
  | FrameBadLength
  | UnknownFrameType (t : Z)
  | BadAckRanges
  | FrameOutputTooSmall
  | FramePanic.

(** [impl From<WireError> for FrameError]. *)
Definition frame_error (e : WireError) : FrameError :=
  match e with
  | Truncated => FrameTruncated
  | BadLength => FrameBadLength
  | OutputTooSmall => FrameOutputTooSmall
  | _ => FrameBadLength
  end.

Record EcnCounts := mkEcnCounts { ect0 : Z; ect1 : Z; ce : Z }.

Record AckRanges := mkAckRanges { ar_bytes : list Z; ar_count : Z }.

Inductive Frame :=
  | Padding
  | Ping
  | Ack (largest_acknowledged ack_delay first_ack_range : Z) (ack_ranges : AckRanges)
      (ecn : option EcnCounts)
  | Crypto (offset : Z) (data : list Z)
  | Stream (stream_id offset : Z) (data : list Z) (fin : bool)
  | ConnectionCloseTransport (error_code frame_type : Z) (reason : list Z)
  | ConnectionCloseApplication (error_code : Z) (reason : list Z)
  | HandshakeDone
  | PathChallenge (data : list Z)
  | MaxData (maximum : Z)
  | MaxStreamData (stream_id maximum : Z)
  | ResetStream (stream_id app_error_code final_size : Z)
  | StopSending (stream_id app_error_code : Z)
  | Skipped (kind : Z).

(** [AckRanges::next]: the next (gap, length) pair and the iterator after it. *)
Definition ack_ranges_next (r : AckRanges) : option ((Z * Z) * AckRanges) :=
  if ar_count r =? 0 then None
  else
    match read_varint (ar_bytes r) with
    | inl _ => None
    | inr (gap, n) =>
        match read_varint (zdrop n (ar_bytes r)) with
        | inl _ => None
        | inr (length, m) =>
            Some ((gap, length), mkAckRanges (zdrop (n + m) (ar_bytes r)) (ar_count r - 1))
        end
    end.

(** The items a [for] loop over the ranges sees; each consumes two bytes or more. *)
Fixpoint ack_items_from (fuel : nat) (r : AckRanges) : list (Z * Z) :=
  match fuel with
  | O => []
  | S fuel =>
      match ack_ranges_next r with
      | None => []
      | Some (p, r) => p :: ack_items_from fuel r
      end
  end.
Definition ack_items (r : AckRanges) : list (Z * Z) := ack_items_from (length (ar_bytes r)) r.

(* ------------------------------------------------------------------ *)
(** ** Reading

    A parser reads [body] from a position [p] that it advances; [?] returns the
    first error. *)

Definition Rd (A : Type) : Type := Z -> FrameError + A * Z.

Definition rd_ret {A} (a : A) : Rd A := fun p => inr (a, p).
Definition rd_fail {A} (e : FrameError) : Rd A := fun _ => inl e.
Definition rd_bind {A B} (m : Rd A) (k : A -> Rd B) : Rd B :=
  fun p => match m p with inl e => inl e | inr (a, p) => k a p end.

Declare Scope rd_scope.
Delimit Scope rd_scope with rd.
Notation "x <- m ;; k" := (rd_bind m (fun x => k))
  (at level 100, m at next level, right associativity) : rd_scope.
Notation "m ;; k" := (rd_bind m (fun _ => k))
  (at level 100, right associativity) : rd_scope.
#[local] Open Scope rd_scope.

(** [&l[p..]] and [&l[a..b]], which panic out of range. *)
Definition slice_from (p : Z) (l : list Z) : option (list Z) :=
  if (0 <=? p) && (p <=? zlen l) then Some (zdrop p l) else None.
Definition slice_range (a b : Z) (l : list Z) : option (list Z) :=
  if (0 <=? a) && (a <=? b) && (b <=? zlen l) then Some (sub_slice a b l) else None.

(** [let (v, n) = read_varint(&body[p..])?; p += n]. *)
Definition rd_varint (body : list Z) : Rd Z := fun p =>
  match slice_from p body with
  | None => inl FramePanic
  | Some rest =>
      match read_varint rest with
      | inl e => inl (frame_error e)
      | inr (v, n) => inr (v, p + n)
      end
  end.

(** [if len > body.len() - p { return Err(e) }]; the subtraction overflows beyond the
    end. *)
Definition rd_need (e : FrameError) (body : list Z) (len : Z) : Rd unit := fun p =>
  if zlen body <? p then inl FramePanic
  else if zlen body - p <? len then inl e else inr (tt, p).

(** [&body[p..p + len]; p += len], and [p += len] alone. *)
Definition rd_take (body : list Z) (len : Z) : Rd (list Z) := fun p =>
  match slice_range p (p + len) body with None => inl FramePanic | Some d => inr (d, p + len) end.
Definition rd_skip (len : Z) : Rd unit := fun p => inr (tt, p + len).

(** [&body[start..p]] and [&body[p..]], the latter to the end. *)
Definition rd_range (body : list Z) (start : Z) : Rd (list Z) := fun p =>
  match slice_range start p body with None => inl FramePanic | Some d => inr (d, p) end.
Definition rd_rest (body : list Z) : Rd (list Z) := fun p =>
  match slice_from p body with None => inl FramePanic | Some d => inr (d, p + zlen d) end.

Definition rd_slice (e : FrameError) (body : list Z) (len : Z) : Rd (list Z) :=
  rd_need e body len;;
  rd_take body len.

(** [Ok((frame, header + p))] of a parser started at [p = 0]. *)
Definition run_rd {A} (m : Rd A) (header : Z) : FrameError + A * Z :=
  match m 0 with inl e => inl e | inr (a, p) => inr (a, header + p) end.

Definition parse_max_data (body : list Z) : Rd Frame :=
  maximum <- rd_varint body;;
  rd_ret (MaxData maximum).

Definition parse_max_stream_data (body : list Z) : Rd Frame :=
  stream_id <- rd_varint body;;
  maximum <- rd_varint body;;
  rd_ret (MaxStreamData stream_id maximum).

Definition parse_reset_stream (body : list Z) : Rd Frame :=
  stream_id <- rd_varint body;;
  app_error_code <- rd_varint body;;
  final_size <- rd_varint body;;
  rd_ret (ResetStream stream_id app_error_code final_size).

Definition parse_stop_sending (body : list Z) : Rd Frame :=
  stream_id <- rd_varint body;;
  app_error_code <- rd_varint body;;
  rd_ret (StopSending stream_id app_error_code).

Definition skip_one_varint (body : list Z) (kind : Z) : Rd Frame :=
  rd_varint body;;
  rd_ret (Skipped kind).

Definition skip_two_varints (body : list Z) (kind : Z) : Rd Frame :=
  rd_varint body;;
  rd_varint body;;
  rd_ret (Skipped kind).

Definition skip_var_len_field (body : list Z) (kind : Z) : Rd Frame :=
  token_len <- rd_varint body;;
  rd_need FrameBadLength body token_len;;
  rd_skip token_len;;
  rd_ret (Skipped kind).

Definition skip_new_connection_id (body : list Z) (kind : Z) : Rd Frame :=
  rd_varint body;;
  rd_varint body;;
  fun after_varints =>
    if zlen body <? after_varints + 1 then inl FrameBadLength
    else
      match body !! Z.to_nat after_varints with
      | None => inl FramePanic
      | Some cid_len =>
          let total_after_header := after_varints + 1 + cid_len + 16 in
          if zlen body <? total_after_header then inl FrameBadLength
          else inr (Skipped kind, total_after_header)
      end.

Definition skip_fixed (body : list Z) (kind n : Z) : Rd Frame :=
  rd_need FrameTruncated body n;;
  rd_skip n;;
  rd_ret (Skipped kind).

Definition parse_path_challenge (body : list Z) : Rd Frame :=
  data <- rd_slice FrameTruncated body 8;;
  rd_ret (PathChallenge data).

(** [for _ in 0..range_count]: the pairs are read and dropped.  Every pair
    takes two bytes, so the body's length bounds the iterations that succeed; the
    loop ends at the count or at the first error. *)
Fixpoint skip_pairs (fuel : nat) (body : list Z) (range_count : Z) : Rd unit :=
  if range_count <=? 0 then rd_ret tt
  else
    match fuel with
    | O => rd_fail FrameTruncated
    | S fuel =>
        rd_varint body;;
        rd_varint body;;
        skip_pairs fuel body (range_count - 1)
    end.

Definition rd_pos : Rd Z := fun p => inr (p, p).

Definition parse_ack (body : list Z) (is_ecn : bool) : Rd Frame :=
  largest <- rd_varint body;;
  ack_delay <- rd_varint body;;
  range_count <- rd_varint body;;
  first_ack_range <- rd_varint body;;
  ranges_start <- rd_pos;;
  skip_pairs (length body) body range_count;;
  ranges_bytes <- rd_range body ranges_start;;
  let ranges := mkAckRanges ranges_bytes range_count in
  if is_ecn then
    e0 <- rd_varint body;;
    e1 <- rd_varint body;;
    c <- rd_varint body;;
    rd_ret (Ack largest ack_delay first_ack_range ranges (Some (mkEcnCounts e0 e1 c)))
  else rd_ret (Ack largest ack_delay first_ack_range ranges None).

Definition parse_crypto (body : list Z) : Rd Frame :=
  offset <- rd_varint body;;
  length <- rd_varint body;;
  data <- rd_slice FrameTruncated body length;;
  rd_ret (Crypto offset data).

Definition parse_stream (body : list Z) (type_byte : Z) : Rd Frame :=
  let has_off := negb (Z.land type_byte ftype.STREAM_FLAG_OFF =? 0) in
  let has_len := negb (Z.land type_byte ftype.STREAM_FLAG_LEN =? 0) in
  let fin := negb (Z.land type_byte ftype.STREAM_FLAG_FIN =? 0) in
  stream_id <- rd_varint body;;
  offset <- (if has_off then rd_varint body else rd_ret 0);;
  data <- (if has_len then
             length <- rd_varint body;;
             rd_slice FrameTruncated body length
           else rd_rest body);;
  rd_ret (Stream stream_id offset data fin).

Definition parse_close_transport (body : list Z) : Rd Frame :=
  error_code <- rd_varint body;;
  frame_type <- rd_varint body;;
  reason_len <- rd_varint body;;
  reason <- rd_slice FrameTruncated body reason_len;;
  rd_ret (ConnectionCloseTransport error_code frame_type reason).

Definition parse_close_application (body : list Z) : Rd Frame :=
  error_code <- rd_varint body;;
  reason_len <- rd_varint body;;
  reason <- rd_slice FrameTruncated body reason_len;;
  rd_ret (ConnectionCloseApplication error_code reason).

(** The parser of the frame's body, by its type byte. *)
Definition parse_body (t : Z) (rest : list Z) : Rd Frame :=
  if t =? ftype.PADDING then rd_ret Padding
  else if t =? ftype.PING then rd_ret Ping
  else if (t =? ftype.ACK) || (t =? ftype.ACK_ECN) then parse_ack rest (t =? ftype.ACK_ECN)
  else if t =? ftype.CRYPTO then parse_crypto rest
  else if (ftype.STREAM_BASE <=? t) && (t <=? ftype.STREAM_MAX) then parse_stream rest t
  else if t =? ftype.CONNECTION_CLOSE_TRANSPORT then parse_close_transport rest
  else if t =? ftype.CONNECTION_CLOSE_APPLICATION then parse_close_application rest
  else if t =? ftype.HANDSHAKE_DONE then rd_ret HandshakeDone
  else if t =? ftype.NEW_TOKEN then skip_var_len_field rest t
  else if t =? ftype.RESET_STREAM then parse_reset_stream rest
  else if t =? ftype.STOP_SENDING then parse_stop_sending rest
  else if t =? ftype.MAX_DATA then parse_max_data rest
  else if t =? ftype.MAX_STREAM_DATA then parse_max_stream_data rest
  else if (t =? ftype.MAX_STREAMS_BIDI) || (t =? ftype.MAX_STREAMS_UNI)
       || (t =? ftype.DATA_BLOCKED) || (t =? ftype.STREAMS_BLOCKED_BIDI)
       || (t =? ftype.STREAMS_BLOCKED_UNI) || (t =? ftype.RETIRE_CONNECTION_ID)
    then skip_one_varint rest t
  else if t =? ftype.STREAM_DATA_BLOCKED then skip_two_varints rest t
  else if t =? ftype.NEW_CONNECTION_ID then skip_new_connection_id rest t
  else if t =? ftype.PATH_CHALLENGE then parse_path_challenge rest
  else if t =? ftype.PATH_RESPONSE then skip_fixed rest t 8
  else rd_fail (UnknownFrameType t).

Definition parse_frame (data : list Z) : FrameError + Frame * Z :=
  match data with
  | [] => inl FrameTruncated
  | t :: rest => run_rd (parse_body t rest) 1
  end.

(* ------------------------------------------------------------------ *)
(** ** Writing

    A writer fills the front of an output of [cap] bytes; its state is what it
    has written so far ([out[..p]]). *)

Definition Wr : Type := list Z -> FrameError + list Z.

Definition wr_seq (m k : Wr) : Wr :=
  fun w => match m w with inl e => inl e | inr w => k w end.
#[local] Notation "m >> k" := (wr_seq m k) (at level 60, right associativity).

(** [out[p..p + data.len()].copy_from_slice(data)], which panics beyond the end. *)
Definition wr_copy (cap : Z) (data : list Z) : Wr := fun w =>
  if cap <? zlen w + zlen data then inl FramePanic else inr (w ++ data).

(** [if out.is_empty() { return Err(OutputTooSmall) } out[0] = t]. *)
Definition wr_type (cap t : Z) : Wr := fun w =>
  if cap <=? 0 then inl FrameOutputTooSmall else wr_copy cap [t] w.

(** [p += write_varint(v, &mut out[p..])?]. *)
Definition wr_varint (cap v : Z) : Wr := fun w =>
  if cap <? zlen w then inl FramePanic
  else
    match write_varint v (cap - zlen w) with
    | inl e => inl (frame_error e)
    | inr b => inr (w ++ b)
    end.

(** [if out.len() - p < data.len() { return Err(OutputTooSmall) }] and the copy. *)
Definition wr_bytes (cap : Z) (data : list Z) : Wr := fun w =>
  if cap - zlen w <? zlen data then inl FrameOutputTooSmall else wr_copy cap data w.

Definition write_crypto (offset : Z) (data : list Z) (cap : Z) : FrameError + list Z :=
  (wr_type cap ftype.CRYPTO >> wr_varint cap offset >> wr_varint cap (zlen data)
    >> wr_bytes cap data) [].

(** OFF and LEN are always set. *)
Definition stream_type (fin : bool) : Z :=
  let t := Z.lor (Z.lor ftype.STREAM_BASE ftype.STREAM_FLAG_OFF) ftype.STREAM_FLAG_LEN in
  if fin then Z.lor t ftype.STREAM_FLAG_FIN else t.

Definition write_stream (stream_id offset : Z) (fin : bool) (data : list Z) (cap : Z)
    : FrameError + list Z :=
  (wr_type cap (stream_type fin) >> wr_varint cap stream_id >> wr_varint cap offset
    >> wr_varint cap (zlen data) >> wr_bytes cap data) [].

(** [write_varint] into the eight bytes of [tmp], appended to the vector. *)
Definition push_varint (v : Z) : Wr := fun w =>
  match write_varint v 8 with
  | inl e => inl (frame_error e)
  | inr b => inr (w ++ b)
  end.

Definition append_stream_header (stream_id offset : Z) (fin : bool) (body_len : Z) : Wr :=
  fun out =>
    (push_varint stream_id >> push_varint offset >> push_varint body_len)
      (out ++ [stream_type fin]).

Fixpoint wr_pairs (cap : Z) (l : list (Z * Z)) : Wr :=
  match l with
  | [] => fun w => inr w
  | (gap, length) :: l => wr_varint cap gap >> wr_varint cap length >> wr_pairs cap l
  end.

Definition write_ack (largest_acknowledged ack_delay first_ack_range : Z)
    (additional_ranges : list (Z * Z)) (cap : Z) : FrameError + list Z :=
  (wr_type cap ftype.ACK >> wr_varint cap largest_acknowledged >> wr_varint cap ack_delay
    >> wr_varint cap (zlen additional_ranges) >> wr_varint cap first_ack_range
    >> wr_pairs cap additional_ranges) [].

Definition write_close_transport (error_code frame_type : Z) (reason : list Z) (cap : Z)
    : FrameError + list Z :=
  (wr_type cap ftype.CONNECTION_CLOSE_TRANSPORT >> wr_varint cap error_code
    >> wr_varint cap frame_type >> wr_varint cap (zlen reason) >> wr_bytes cap reason) [].

Definition write_padding (cap : Z) : FrameError + list Z := wr_type cap ftype.PADDING [].
Definition write_ping (cap : Z) : FrameError + list Z := wr_type cap ftype.PING [].
Definition write_handshake_done (cap : Z) : FrameError + list Z :=
  wr_type cap ftype.HANDSHAKE_DONE [].

Definition write_max_streams_bidi (max_streams cap : Z) : FrameError + list Z :=
  (wr_type cap ftype.MAX_STREAMS_BIDI >> wr_varint cap max_streams) [].

Definition write_max_streams_uni (max_streams cap : Z) : FrameError + list Z :=
  (wr_type cap ftype.MAX_STREAMS_UNI >> wr_varint cap max_streams) [].

Definition write_max_data (max cap : Z) : FrameError + list Z :=
  (wr_type cap ftype.MAX_DATA >> wr_varint cap max) [].

Definition write_reset_stream (stream_id app_error_code final_size cap : Z)
    : FrameError + list Z :=
  (wr_type cap ftype.RESET_STREAM >> wr_varint cap stream_id >> wr_varint cap app_error_code
    >> wr_varint cap final_size) [].

Definition write_stop_sending (stream_id app_error_code cap : Z) : FrameError + list Z :=
  (wr_type cap ftype.STOP_SENDING >> wr_varint cap stream_id
    >> wr_varint cap app_error_code) [].

Definition write_max_stream_data (stream_id max cap : Z) : FrameError + list Z :=
  (wr_type cap ftype.MAX_STREAM_DATA >> wr_varint cap stream_id >> wr_varint cap max) [].

(* ------------------------------------------------------------------ *)
(** ** What is written is read back *)

(** The bytes of a variable-length integer. *)
Definition varint_wire (v : Z) : list Z :=
  let (len, prefix) := varint_form v in or_first prefix (be_write len v).

Lemma write_varint_wire v cap b :
  write_varint v cap = inr b -> b = varint_wire v /\ v <= MAX_VARINT.
Proof.
  unfold write_varint, varint_wire. destruct (MAX_VARINT <? v) eqn:E; [done|]. bool_to_prop.
  destruct (varint_form v) as [len prefix]. case_match; [done|]. by intros [= <-].
Qed.

Lemma read_varint_wire v rest :
  0 <= v <= MAX_VARINT ->
  read_varint (varint_wire v ++ rest) = inr (v, zlen (varint_wire v)).
Proof.
  intros Hv. destruct (quic_varint_roundtrip v 8 rest Hv ltac:(lia)) as (w & Hw & Hr & _).
  apply write_varint_wire in Hw as [-> _]. done.
Qed.

(** The rest of the body at a position. *)
Definition at_pos (body : list Z) (p : Z) (r : list Z) : Prop :=
  0 <= p <= zlen body /\ zdrop p body = r.

Lemma at_pos_len body p r : at_pos body p r -> zlen body = p + zlen r.
Proof. intros [H1 <-]. rewrite zlen_zdrop by lia. lia. Qed.

Lemma at_pos_app body p a r : at_pos body p (a ++ r) -> at_pos body (p + zlen a) r.
Proof.
  intros H. pose proof (at_pos_len _ _ _ H) as Hl. rewrite zlen_app in Hl. destruct H as [H1 H2].
  pose proof (zlen_nonneg a). pose proof (zlen_nonneg r). split; [lia|].
  unfold zdrop, zlen in *. rewrite Z2Nat.inj_add, Nat2Z.id by lia.
  rewrite <-drop_drop, H2. apply drop_app_length.
Qed.

Lemma at_pos_start body : at_pos body 0 body.
Proof. split; [pose proof (zlen_nonneg body); lia|done]. Qed.

Lemma slice_from_at body p r : at_pos body p r -> slice_from p body = Some r.
Proof.
  intros [H <-]. unfold slice_from. destruct (_ && _) eqn:E; [done|].
  apply andb_false_iff in E as [E|E]; bool_to_prop; lia.
Qed.

Lemma slice_range_in a b l : 0 <= a <= b -> b <= zlen l -> slice_range a b l = Some (sub_slice a b l).
Proof.
  intros Ha Hb. unfold slice_range. destruct (_ && _) eqn:E; [done|].
  apply andb_false_iff in E as [E|E]; [apply andb_false_iff in E as [E|E]|]; bool_to_prop; lia.
Qed.

Lemma rd_varint_at body p v r :
  at_pos body p (varint_wire v ++ r) -> 0 <= v <= MAX_VARINT ->
  rd_varint body p = inr (v, p + zlen (varint_wire v)).
Proof. intros H Hv. unfold rd_varint. rewrite (slice_from_at _ _ _ H). by rewrite read_varint_wire. Qed.

Lemma rd_slice_at e body p d r :
  at_pos body p (d ++ r) -> rd_slice e body (zlen d) p = inr (d, p + zlen d).
Proof.
  intros H. pose proof (at_pos_len _ _ _ H) as Hl. rewrite zlen_app in Hl. destruct H as [H1 H2].
  pose proof (zlen_nonneg r). pose proof (zlen_nonneg d). unfold rd_slice, rd_bind, rd_need.
  destruct (zlen body <? p) eqn:E0; bool_to_prop; [lia|].
  destruct (_ <? zlen d) eqn:E; bool_to_prop; [lia|].
  unfold rd_take. rewrite slice_range_in by lia. unfold sub_slice. rewrite H2. f_equal. f_equal.
  unfold ztake. replace (Z.to_nat (p + zlen d - p)) with (length d) by (unfold zlen; lia).
  apply take_app_length.
Qed.

(** [reads body m r a r']: at a position where the rest is [r], [m] returns [a]
    and leaves the rest [r']. *)
Definition reads {A} (body : list Z) (m : Rd A) (r : list Z) (a : A) (r' : list Z) : Prop :=
  forall p, at_pos body p r -> exists p', m p = inr (a, p') /\ at_pos body p' r'.

Section Reads.
Context (body : list Z).

Lemma reads_ret {A} (a : A) r : reads body (rd_ret a) r a r.
Proof. intros p H. by exists p. Qed.

Lemma reads_varint v r : 0 <= v <= MAX_VARINT -> reads body (rd_varint body) (varint_wire v ++ r) v r.
Proof. intros Hv p H. eexists. split; [by eapply rd_varint_at|by apply at_pos_app]. Qed.

Lemma reads_slice e d r : reads body (rd_slice e body (zlen d)) (d ++ r) d r.
Proof. intros p H. eexists. split; [by eapply rd_slice_at|by apply at_pos_app]. Qed.

Lemma reads_need e d r : reads body (rd_need e body (zlen d)) (d ++ r) tt (d ++ r).
Proof.
  intros p H. exists p. split; [|done]. pose proof (at_pos_len _ _ _ H) as Hl. rewrite zlen_app in Hl.
  pose proof (zlen_nonneg r). pose proof (zlen_nonneg d). unfold rd_need.
  destruct (zlen body <? p) eqn:E0; bool_to_prop; [lia|]. destruct (_ <? zlen d) eqn:E; bool_to_prop; [lia|done].
Qed.

Lemma reads_skip d r : reads body (rd_skip (zlen d)) (d ++ r) tt r.
Proof. intros p H. exists (p + zlen d). split; [done|by apply at_pos_app]. Qed.

Lemma reads_bind {A B} (m : Rd A) (k : A -> Rd B) r a r1 b r2 :
  reads body m r a r1 -> reads body (k a) r1 b r2 -> reads body (rd_bind m k) r b r2.
Proof.
  intros H1 H2 p Hp. destruct (H1 p Hp) as (p1 & E1 & Hp1). destruct (H2 p1 Hp1) as (p2 & E2 & Hp2).
  exists p2. unfold rd_bind. by rewrite E1.
Qed.

End Reads.

(** A frame parses when its body does. *)
Lemma parse_frame_reads t enc r f :
  reads (enc ++ r) (parse_body t (enc ++ r)) (enc ++ r) f r ->
  parse_frame (t :: enc ++ r) = inr (f, 1 + zlen enc).
Proof.
  intros H. destruct (H 0) as (p & E & Hp).
  { split; [pose proof (zlen_nonneg (enc ++ r)); lia|done]. }
  cbn [parse_frame]. unfold run_rd. rewrite E. do 2 f_equal.
  apply at_pos_len in Hp. rewrite zlen_app in Hp. lia.
Qed.

Definition pair_wire (e : Z * Z) : list Z := varint_wire e.1 ++ varint_wire e.2.
Definition pairs_wire (l : list (Z * Z)) : list Z := concat (map pair_wire l).
Definition pairs_ok (l : list (Z * Z)) : Prop :=
  Forall (fun e => 0 <= e.1 <= MAX_VARINT /\ 0 <= e.2 <= MAX_VARINT) l.

Lemma varint_wire_pos v : 0 <= v <= MAX_VARINT -> 1 <= zlen (varint_wire v).
Proof.
  intros Hv. pose proof (read_varint_wire v [] Hv) as H. rewrite app_nil_r in H.
  destruct (varint_wire v); [done|]. rewrite zlen_cons. pose proof (zlen_nonneg l). lia.
Qed.

Lemma pairs_wire_len l : pairs_ok l -> (length l <= length (pairs_wire l))%nat.
Proof.
  induction 1 as [|[g n] l [Hg Hn] Hl IH]; [done|].
  change (pairs_wire _) with (pair_wire (g, n) ++ pairs_wire l). unfold pair_wire. cbn [fst snd] in *.
  rewrite !length_app. pose proof (varint_wire_pos g Hg). unfold zlen in *. cbn [length]. lia.
Qed.

Lemma reads_pairs body l r fuel :
  pairs_ok l -> (length l <= fuel)%nat ->
  reads body (skip_pairs fuel body (zlen l)) (pairs_wire l ++ r) tt r.
Proof.
  intros Hl. revert fuel. induction Hl as [|[g n] l [Hg Hn] Hl IH]; intros fuel Hf.
  - destruct fuel; apply reads_ret.
  - destruct fuel as [|fuel]; [cbn in Hf; lia|]. cbn [skip_pairs]. rewrite zlen_cons.
    pose proof (zlen_nonneg l). destruct (_ <=? 0) eqn:E; bool_to_prop; [lia|].
    cbn [pairs_wire map concat]. unfold pair_wire. cbn [fst snd]. rewrite <-!app_assoc.
    eapply reads_bind; [by apply reads_varint|]. eapply reads_bind; [by apply reads_varint|].
    replace (zlen l + 1 - 1) with (zlen l) by lia. apply IH. cbn [length] in Hf. lia.
Qed.

(** The iterator returns the pairs of the ranges it was cut from. *)
Lemma ack_items_wire_from l fuel :
  pairs_ok l -> (length l <= fuel)%nat ->
  ack_items_from fuel (mkAckRanges (pairs_wire l) (zlen l)) = l.
Proof.
  intros Hl. revert fuel. induction Hl as [|[g n] l [Hg Hn] Hl IH]; intros fuel Hf.
  - by destruct fuel.
  - destruct fuel as [|fuel]; [cbn in Hf; lia|]. cbn [ack_items_from].
    unfold ack_ranges_next. cbn [ar_count ar_bytes]. rewrite zlen_cons. pose proof (zlen_nonneg l).
    destruct (_ =? 0) eqn:E; bool_to_prop; [lia|].
    cbn [pairs_wire map concat]. fold (pairs_wire l). unfold pair_wire. cbn [fst snd] in *. rewrite <-app_assoc.
    rewrite read_varint_wire by done.
    rewrite zdrop_app_ge, Z.sub_diag by lia. change (zdrop 0 ?l) with l.
    rewrite read_varint_wire by done. f_equal.
    rewrite zdrop_app_ge by (pose proof (zlen_nonneg (varint_wire n)); lia).
    rewrite zdrop_app_ge by lia. replace (_ - _ - _) with 0 by lia. change (zdrop 0 ?l) with l.
    replace (zlen l + 1 - 1) with (zlen l) by lia. apply IH. cbn [length] in Hf. lia.
Qed.

Lemma ack_items_wire l : pairs_ok l -> ack_items (mkAckRanges (pairs_wire l) (zlen l)) = l.
Proof. intros Hl. apply ack_items_wire_from; [done|]. by apply pairs_wire_len. Qed.

(** [emits cap m bs]: [m] appends [bs] when the output holds them, and is refused
    for want of room otherwise. *)
Definition emits (cap : Z) (m : Wr) (bs : list Z) : Prop :=
  forall w, zlen w <= cap ->
    m w = if cap <? zlen w + zlen bs then inl FrameOutputTooSmall else inr (w ++ bs).

Lemma write_varint_cap v cap :
  0 <= v <= MAX_VARINT ->
  write_varint v cap = if cap <? zlen (varint_wire v) then inl OutputTooSmall else inr (varint_wire v).
Proof.
  intros Hv. unfold write_varint, varint_wire. destruct (_ <? v) eqn:E; bool_to_prop; [lia|].
  destruct (varint_form_spec v Hv) as (c & -> & Hc & _). destruct (pow2_len c Hc) as (k & -> & _).
  replace (zlen (or_first _ _)) with (Z.of_nat (S k)); [done|].
  unfold zlen. cbn [be_write or_first length]. by rewrite (proj2 (be_write_ok k v)).
Qed.

Section Emits.
Context (cap : Z).

Lemma emits_varint v : 0 <= v <= MAX_VARINT -> emits cap (wr_varint cap v) (varint_wire v).
Proof.
  intros Hv w Hw. unfold wr_varint. destruct (cap <? zlen w) eqn:E0; bool_to_prop; [lia|].
  rewrite write_varint_cap by done.
  destruct (_ <? zlen (varint_wire v)) eqn:E1; destruct (cap <? _) eqn:E2; bool_to_prop; done || lia.
Qed.

Lemma emits_bytes d : emits cap (wr_bytes cap d) d.
Proof.
  intros w Hw. unfold wr_bytes, wr_copy.
  destruct (_ - _ <? zlen d) eqn:E1; destruct (cap <? _) eqn:E2; bool_to_prop; done || lia.
Qed.

Lemma emits_none : emits cap (fun w => inr w) [].
Proof.
  intros w Hw. rewrite zlen_nil, app_nil_r. destruct (_ <? _) eqn:E; bool_to_prop; [lia|done].
Qed.

Lemma emits_seq m k a b : emits cap m a -> emits cap k b -> emits cap (wr_seq m k) (a ++ b).
Proof.
  intros Hm Hk w Hw. unfold wr_seq. rewrite (Hm w Hw). rewrite zlen_app.
  pose proof (zlen_nonneg b). destruct (cap <? zlen w + zlen a) eqn:E; bool_to_prop.
  - destruct (cap <? _) eqn:E2; bool_to_prop; [done|lia].
  - rewrite Hk by (rewrite zlen_app; lia). by rewrite zlen_app, <-!app_assoc, Z.add_assoc.
Qed.

Lemma emits_pairs l : pairs_ok l -> emits cap (wr_pairs cap l) (pairs_wire l).
Proof.
  induction 1 as [|[g n] l [Hg Hn] Hl IH]; [apply emits_none|].
  change (pairs_wire _) with (pair_wire (g, n) ++ pairs_wire l). unfold pair_wire. cbn [fst snd] in *.
  cbn [wr_pairs]. rewrite <-app_assoc. apply emits_seq; [by apply emits_varint|].
  apply emits_seq; [by apply emits_varint|done].
Qed.

Lemma emits_typed t k bs :
  emits cap k bs ->
  (wr_seq (wr_type cap t) k) [] = if cap <? 1 + zlen bs then inl FrameOutputTooSmall else inr (t :: bs).
Proof.
  intros Hk. unfold wr_seq, wr_type. pose proof (zlen_nonneg bs).
  destruct (cap <=? 0) eqn:E; bool_to_prop.
  - destruct (_ <? _) eqn:E2; bool_to_prop; [done|lia].
  - unfold wr_copy. change (zlen [] + zlen [t]) with 1. destruct (cap <? 1) eqn:E1; bool_to_prop; [lia|].
    cbn [app]. rewrite Hk by (unfold zlen; cbn; lia). done.
Qed.

End Emits.

Lemma push_varint_wire v w : 0 <= v <= MAX_VARINT -> push_varint v w = inr (w ++ varint_wire v).
Proof.
  intros Hv. unfold push_varint. rewrite write_varint_cap by done.
  destruct (8 <? _) eqn:E; [|done]. bool_to_prop. exfalso.
  destruct (quic_varint_roundtrip v 8 [] Hv ltac:(lia)) as (b & Hb & _).
  rewrite write_varint_cap in Hb by done. destruct (8 <? _) eqn:E2; [done|]. bool_to_prop. lia.
Qed.

(** The calls of the connection's encoders, the bytes each is for, and the frame
    the peer is meant to see. *)
Inductive Call :=
  | CallPadding
  | CallPing
  | CallHandshakeDone
  | CallCrypto (offset : Z) (data : list Z)
  | CallStream (stream_id offset : Z) (fin : bool) (data : list Z)
  | CallStreamParts (stream_id offset : Z) (fin : bool) (data : list Z)
  | CallAck (largest delay first : Z) (additional : list (Z * Z))
  | CallClose (error_code frame_type : Z) (reason : list Z)
  | CallMaxStreamsBidi (n : Z)
  | CallMaxStreamsUni (n : Z)
  | CallMaxData (max : Z)
  | CallResetStream (stream_id code final_size : Z)
  | CallStopSending (stream_id code : Z)
  | CallMaxStreamData (stream_id max : Z)
  | CallPathResponse (data : list Z).

(** [append_path_response_into], of [conn/mod.rs]. *)
Definition append_path_response_into (out data : list Z) : list Z := out ++ [ftype.PATH_RESPONSE] ++ data.

(** [CallStreamParts]: [append_stream_header], then the body by
    [extend_from_slice]; the vector grows, so it has no bound. *)
Definition run_call (c : Call) (cap : Z) : FrameError + list Z :=
  match c with
  | CallPadding => write_padding cap
  | CallPing => write_ping cap
  | CallHandshakeDone => write_handshake_done cap
  | CallCrypto o d => write_crypto o d cap
  | CallStream s o f d => write_stream s o f d cap
  | CallStreamParts s o f d =>
      match append_stream_header s o f (zlen d) [] with inl e => inl e | inr w => inr (w ++ d) end
  | CallAck l d f a => write_ack l d f a cap
  | CallClose e t r => write_close_transport e t r cap
  | CallMaxStreamsBidi n => write_max_streams_bidi n cap
  | CallMaxStreamsUni n => write_max_streams_uni n cap
  | CallMaxData m => write_max_data m cap
  | CallResetStream s c f => write_reset_stream s c f cap
  | CallStopSending s c => write_stop_sending s c cap
  | CallMaxStreamData s m => write_max_stream_data s m cap
  | CallPathResponse d => inr (append_path_response_into [] d)
  end.

Definition call_frame (c : Call) : Frame :=
  match c with
  | CallPadding => Padding
  | CallPing => Ping
  | CallHandshakeDone => HandshakeDone
  | CallCrypto o d => Crypto o d
  | CallStream s o f d | CallStreamParts s o f d => Stream s o d f
  | CallAck l d f a => Ack l d f (mkAckRanges (pairs_wire a) (zlen a)) None
  | CallClose e t r => ConnectionCloseTransport e t r
  | CallMaxStreamsBidi _ => Skipped ftype.MAX_STREAMS_BIDI
  | CallMaxStreamsUni _ => Skipped ftype.MAX_STREAMS_UNI
  | CallMaxData m => MaxData m
  | CallResetStream s c f => ResetStream s c f
  | CallStopSending s c => StopSending s c
  | CallMaxStreamData s m => MaxStreamData s m
  | CallPathResponse _ => Skipped ftype.PATH_RESPONSE
  end.

Definition is_varint (v : Z) : Prop := 0 <= v <= MAX_VARINT.

Definition call_ok (c : Call) : Prop :=
  match c with
  | CallPadding | CallPing | CallHandshakeDone => True
  | CallCrypto o d => is_varint o /\ is_varint (zlen d)
  | CallStream s o _ d | CallStreamParts s o _ d => is_varint s /\ is_varint o /\ is_varint (zlen d)
  | CallAck l d f a => is_varint l /\ is_varint d /\ is_varint f /\ pairs_ok a /\ is_varint (zlen a)
  | CallClose e t r => is_varint e /\ is_varint t /\ is_varint (zlen r)
  | CallMaxStreamsBidi n | CallMaxStreamsUni n | CallMaxData n => is_varint n
  | CallResetStream s c f => is_varint s /\ is_varint c /\ is_varint f
  | CallStopSending s c => is_varint s /\ is_varint c
  | CallMaxStreamData s m => is_varint s /\ is_varint m
  | CallPathResponse d => zlen d = 8
  end.

(** The layout of RFC 9000, section 19. *)
Definition call_layout (c : Call) : Z * list (list Z) :=
  match c with
  | CallPadding => (0, [])
  | CallPing => (1, [])
  | CallHandshakeDone => (30, [])
  | CallCrypto o d => (6, [varint_wire o; varint_wire (zlen d); d])
  | CallStream s o f d | CallStreamParts s o f d =>
      (if f then 15 else 14, [varint_wire s; varint_wire o; varint_wire (zlen d); d])
  | CallAck l d f a =>
      (2, [varint_wire l; varint_wire d; varint_wire (zlen a); varint_wire f; pairs_wire a])
  | CallClose e t r => (28, [varint_wire e; varint_wire t; varint_wire (zlen r); r])
  | CallMaxStreamsBidi n => (18, [varint_wire n])
  | CallMaxStreamsUni n => (19, [varint_wire n])
  | CallMaxData m => (16, [varint_wire m])
  | CallResetStream s c f => (4, [varint_wire s; varint_wire c; varint_wire f])
  | CallStopSending s c => (5, [varint_wire s; varint_wire c])
  | CallMaxStreamData s m => (17, [varint_wire s; varint_wire m])
  | CallPathResponse d => (27, [d])
  end.
Definition call_wire (c : Call) : list Z := (call_layout c).1 :: concat (call_layout c).2.

Create HintDb frames.
#[local] Hint Resolve emits_varint emits_bytes emits_pairs : frames.

(** Walks a chain of writers. *)
Ltac emit_chain :=
  lazymatch goal with
  | |- emits _ (wr_seq _ _) _ => apply emits_seq; [solve [auto with frames]|emit_chain]
  | |- emits _ _ (_ ++ []) => rewrite app_nil_r; solve [auto with frames]
  end.

(** The calls that append to a growing vector. *)
Definition into_vec (c : Call) : bool :=
  match c with CallStreamParts _ _ _ _ | CallPathResponse _ => true | _ => false end.

(** What a call answers for a buffer of [cap] bytes, when [w] is its frame. *)
Definition call_answer (c : Call) (w : list Z) (cap : Z) : FrameError + list Z :=
  if into_vec c || (zlen w <=? cap) then inr w else inl FrameOutputTooSmall.

Lemma run_call_wire c cap : call_ok c -> run_call c cap = call_answer c (call_wire c) cap.
Proof.
  assert (forall t k bs, emits cap k bs ->
    (wr_seq (wr_type cap t) k) [] = if zlen (t :: bs) <=? cap then inr (t :: bs) else inl FrameOutputTooSmall) as Hgen.
  { intros t k bs Hk. rewrite (emits_typed _ _ _ _ Hk), zlen_cons.
    destruct (_ <? _) eqn:E, (_ <=? _) eqn:E2; bool_to_prop; done || lia. }
  assert (forall t, wr_type cap t [] = if zlen [t] <=? cap then inr [t] else inl FrameOutputTooSmall) as Hone.
  { intros t. unfold wr_type, wr_copy. change (zlen [] + zlen [t]) with 1. change (zlen [t]) with 1.
    destruct (_ <=? 0) eqn:E, (cap <? 1) eqn:E1, (1 <=? cap) eqn:E2; bool_to_prop; done || lia. }
  unfold call_answer. destruct c; cbn [call_ok into_vec orb]; intros Hok; destruct_and?; try apply Hone;
    unfold call_wire; cbn [call_layout fst snd concat]; try (apply Hgen; emit_chain).
  2:{ by rewrite app_nil_r. }
  cbn [run_call]. unfold append_stream_header, wr_seq.
  rewrite !push_varint_wire by done. rewrite app_nil_r, <-!app_assoc. by destruct fin.
Qed.

(** Walks a chain of reads over its wire. *)
Ltac read_chain :=
  repeat match goal with
  | |- reads _ (rd_ret _) _ _ _ => apply reads_ret
  | |- reads _ (rd_bind _ _) _ _ _ => eapply reads_bind
  | |- reads _ (rd_varint _) _ _ _ => by apply reads_varint
  | |- reads _ (rd_slice _ _ (zlen _)) _ _ _ => apply reads_slice
  | |- reads _ (rd_need _ _ (zlen _)) _ _ _ => apply reads_need
  | |- reads _ (rd_skip (zlen _)) _ _ _ => apply reads_skip
  end.

(** The ACK body reads back: the ranges are the slice between two positions. *)
Lemma reads_ack body l d f a r :
  is_varint l -> is_varint d -> is_varint f -> pairs_ok a -> is_varint (zlen a) ->
  (length a <= length body)%nat ->
  reads body (parse_ack body false)
    (varint_wire l ++ varint_wire d ++ varint_wire (zlen a) ++ varint_wire f ++ pairs_wire a ++ r)
    (Ack l d f (mkAckRanges (pairs_wire a) (zlen a)) None) r.
Proof.
  intros Hl Hd Hf Ha Hn Hlen. unfold parse_ack.
  do 4 (eapply reads_bind; [by apply reads_varint|]). intros p Hp.
  destruct (reads_pairs body a r (length body) Ha Hlen p Hp) as (p' & E & Hp').
  pose proof (at_pos_len _ _ _ Hp) as L1. pose proof (at_pos_len _ _ _ Hp') as L2. rewrite zlen_app in L1.
  exists p'. unfold rd_bind, rd_pos, rd_range. rewrite E.
  destruct Hp as [Hp0 Hp], Hp' as [Hp0' Hp']. pose proof (zlen_nonneg (pairs_wire a)).
  rewrite slice_range_in by lia. split; [|done]. unfold rd_ret. do 5 f_equal. unfold sub_slice. rewrite Hp. unfold ztake.
  replace (Z.to_nat (p' - p)) with (length (pairs_wire a)) by (unfold zlen in *; lia).
  apply take_app_length.
Qed.

Lemma parse_call c rest :
  call_ok c -> parse_frame (call_wire c ++ rest) = inr (call_frame c, zlen (call_wire c)).
Proof.
  intros Hok. unfold call_wire. cbn [app]. rewrite zlen_cons, Z.add_comm. apply parse_frame_reads.
  destruct c; cbn [call_ok call_layout call_frame fst snd concat] in *; destruct_and?;
    rewrite ?app_nil_r, <-?app_assoc; try destruct fin;
    cbv [parse_body Z.eqb Pos.eqb Z.leb Z.compare Pos.compare Pos.compare_cont orb andb
         parse_stream Z.land Pos.land Pos.Ndouble Pos.Nsucc_double Z.of_N negb];
    lazymatch goal with
    | |- reads _ (parse_ack _ _) _ _ _ => idtac
    | |- reads _ (skip_fixed _ _ _) _ _ _ =>
        match goal with H : zlen _ = 8 |- _ => unfold skip_fixed; rewrite <-H; solve [read_chain] end
    | |- _ => unfold parse_crypto, parse_close_transport, parse_max_data, parse_max_stream_data,
                parse_reset_stream, parse_stop_sending, skip_one_varint; try solve [read_chain]
    end.
  apply reads_ack; try done. rewrite !length_app.
  match goal with H : pairs_ok _ |- _ => pose proof (pairs_wire_len _ H) end. lia.
Qed.

(* ------------------------------------------------------------------ *)
(** ** Whatever bytes arrive *)

(** [rd_post body Q m]: started inside the body, [m] does not panic, stays inside,
    never moves back, and what it returns satisfies [Q]. *)
Definition rd_post {A} (body : list Z) (Q : A -> Prop) (m : Rd A) : Prop :=
  forall p, 0 <= p <= zlen body ->
    match m p with
    | inl e => e <> FramePanic
    | inr (a, p') => p <= p' <= zlen body /\ Q a
    end.

Section Post.
Context (body : list Z) (Hb : bytes_ok body).

Lemma rd_post_ret {A} (Q : A -> Prop) a : Q a -> rd_post body Q (rd_ret a).
Proof. intros HQ p Hp. cbn. split; [lia|done]. Qed.

Lemma rd_post_fail {A} (Q : A -> Prop) e : e <> FramePanic -> rd_post body Q (rd_fail e).
Proof. by intros He p Hp. Qed.

Lemma rd_post_bind {A B} (P : A -> Prop) (Q : B -> Prop) (m : Rd A) (k : A -> Rd B) :
  rd_post body P m -> (forall a, P a -> rd_post body Q (k a)) -> rd_post body Q (rd_bind m k).
Proof.
  intros Hm Hk p Hp. unfold rd_bind. specialize (Hm p Hp). destruct (m p) as [|[a p1]]; [done|].
  destruct Hm as [H1 H2]. specialize (Hk a H2 p1 ltac:(lia)). destruct (k a p1) as [|[b p2]]; [done|].
  destruct Hk. split; [lia|done].
Qed.

Lemma rd_varint_inv p v p' :
  0 <= p <= zlen body -> rd_varint body p = inr (v, p') ->
  is_varint v /\ p + 1 <= p' <= zlen body /\ read_varint (zdrop p body) = inr (v, p' - p).
Proof.
  intros Hp. unfold rd_varint. rewrite (slice_from_at body p (zdrop p body)) by done. destruct (read_varint _) as [|[v' n]] eqn:E; [done|]. intros [= <- <-].
  assert (bytes_ok (zdrop p body)) as Hd by (by apply Forall_drop).
  destruct (read_varint_consumes _ _ _ Hd E) as [Hn _].
  destruct (read_varint_bound _ _ _ Hd E) as (c & Hc & -> & Hv).
  rewrite zlen_zdrop in Hn by lia. replace (p + 2 ^ c - p) with (2 ^ c) by lia. split; [|split; [lia|done]].
  assert (2 ^ c <= 2 ^ 3) as H8 by (apply Z.pow_le_mono_r; lia). change (2 ^ 3) with 8 in H8.
  assert (256 ^ (2 ^ c - 1) <= 256 ^ 7) as H7 by (apply Z.pow_le_mono_r; lia).
  change (256 ^ 7) with 72057594037927936 in H7. unfold is_varint, MAX_VARINT. change (Z.shiftl 1 62 - 1) with 4611686018427387903. lia.
Qed.

Lemma rd_post_varint : rd_post body is_varint (rd_varint body).
Proof.
  intros p Hp. destruct (rd_varint body p) as [e|[v p']] eqn:E.
  - unfold rd_varint in E. rewrite (slice_from_at body p (zdrop p body)) in E by done.
    destruct (read_varint _) as [w|[]]; [|done]. injection E as <-. by destruct w.
  - destruct (rd_varint_inv _ _ _ Hp E) as (H1 & H2 & _). split; [lia|done].
Qed.

(** A contiguous piece of the body. *)
Definition slice_of (d : list Z) : Prop := exists a b, body = a ++ d ++ b.

Lemma slice_of_sub a b : 0 <= a <= b -> slice_of (sub_slice a b body).
Proof.
  intros H. exists (ztake a body), (zdrop b body).
  rewrite <-sub_slice_zdrop by done. by rewrite ztake_zdrop.
Qed.

Lemma rd_post_need e n : e <> FramePanic -> rd_post body (fun _ => True) (rd_need e body n).
Proof.
  intros He p Hp. unfold rd_need. destruct (zlen body <? p) eqn:E0; bool_to_prop; [lia|].
  destruct (_ <? n) eqn:E; [done|]. split; [lia|done].
Qed.

Lemma rd_post_slice e n : e <> FramePanic -> 0 <= n -> rd_post body (fun d => slice_of d /\ zlen d = n) (rd_slice e body n).
Proof.
  intros He Hn p Hp. unfold rd_slice, rd_bind. pose proof (rd_post_need e n He p Hp) as Hx.
  unfold rd_need in *. destruct (zlen body <? p) eqn:E0; [done|]. destruct (_ <? n) eqn:E; [done|]. bool_to_prop.
  unfold rd_take. rewrite slice_range_in by lia.
  split; [lia|]. split; [apply slice_of_sub; lia|]. rewrite zlen_sub_slice; lia.
Qed.

Lemma rd_post_need_skip {A} (Q : A -> Prop) e n (m : Rd A) :
  e <> FramePanic -> 0 <= n -> rd_post body Q m -> rd_post body Q (rd_need e body n;; rd_skip n;; m).
Proof.
  intros He Hn Hm p Hp. unfold rd_bind, rd_need, rd_skip. destruct (zlen body <? p) eqn:E0; bool_to_prop; [lia|].
  destruct (_ <? n) eqn:E; bool_to_prop; [done|]. specialize (Hm (p + n) ltac:(lia)).
  destruct (m _) as [|[a p']]; [done|]. destruct Hm. split; [lia|done].
Qed.

Lemma rd_post_rest : rd_post body slice_of (rd_rest body).
Proof.
  intros p Hp. unfold rd_rest. rewrite (slice_from_at body p (zdrop p body)) by done.
  rewrite zlen_zdrop by lia. split; [lia|]. exists (ztake p body), []. by rewrite app_nil_r, ztake_zdrop.
Qed.

Lemma rd_post_if {A} (Q : A -> Prop) (b : bool) (m k : Rd A) :
  rd_post body Q m -> rd_post body Q k -> rd_post body Q (if b then m else k).
Proof. by destruct b. Qed.

(** Enough fuel is as good as any: a pair takes two bytes. *)
Lemma skip_pairs_fuel fuel fuel' n p :
  0 <= p <= zlen body -> zlen body - p <= Z.of_nat fuel -> (fuel <= fuel')%nat ->
  skip_pairs fuel' body n p = skip_pairs fuel body n p.
Proof.
  revert fuel' n p. induction fuel as [|fuel IH]; intros fuel' n p Hp Hf Hle.
  - destruct fuel' as [|fuel']; [done|]. cbn [skip_pairs]. destruct (n <=? 0); [done|].
    assert (p = zlen body) as -> by lia. unfold rd_bind, rd_varint.
    rewrite (slice_from_at body _ []); [done|]. split; [lia|]. unfold zdrop, zlen. by rewrite Nat2Z.id, drop_all.
  - destruct fuel' as [|fuel']; [lia|]. cbn [skip_pairs]. destruct (n <=? 0); [done|].
    unfold rd_bind. destruct (rd_varint body p) as [|[v1 p1]] eqn:E1; [done|].
    apply rd_varint_inv in E1 as (_ & H1 & _); [|done].
    destruct (rd_varint body p1) as [|[v2 p2]] eqn:E2; [done|].
    apply rd_varint_inv in E2 as (_ & H2 & _); [|lia]. apply IH; lia.
Qed.

(** The piece between two positions, after reading one integer of it. *)
Lemma sub_slice_read p q n v :
  0 <= p -> 0 <= n -> p + n <= q <= zlen body -> read_varint (zdrop p body) = inr (v, n) ->
  read_varint (sub_slice p q body) = inr (v, n) /\ zdrop n (sub_slice p q body) = sub_slice (p + n) q body.
Proof.
  intros Hp Hn Hq E.
  assert (bytes_ok (zdrop p body)) as Hd by (by apply Forall_drop).
  assert (sub_slice p q body = ztake n (zdrop p body) ++ sub_slice (p + n) q body) as Es.
  { unfold sub_slice. unfold ztake, zdrop. rewrite <-(take_drop (Z.to_nat n) (drop (Z.to_nat p) body)) at 1.
    rewrite drop_drop, take_app_ge by (rewrite length_take; lia). f_equal.
    replace (Z.to_nat p + Z.to_nat n)%nat with (Z.to_nat (p + n)) by lia.
    rewrite length_take, length_drop. f_equal. unfold zlen in *. lia. }
  destruct (read_varint_local _ _ _ (sub_slice (p + n) q body) Hd E) as [H1 H2].
  rewrite Es. split; [done|]. rewrite zdrop_app_ge by lia. rewrite H2, Z.sub_diag. done.
Qed.

Lemma skip_pairs_no_panic fuel n p :
  0 <= p <= zlen body -> match skip_pairs fuel body n p with inl e => e <> FramePanic | inr _ => True end.
Proof.
  revert n p. induction fuel as [|fuel IH]; intros n p Hp; cbn [skip_pairs]; (destruct (n <=? 0); [done|]); [done|].
  unfold rd_bind. pose proof (rd_post_varint p Hp) as H1. destruct (rd_varint body p) as [|[v1 p1]]; [done|].
  destruct H1 as [H1 _]. pose proof (rd_post_varint p1 ltac:(lia)) as H2.
  destruct (rd_varint body p1) as [|[v2 p2]]; [done|]. destruct H2 as [H2 _]. apply IH. lia.
Qed.

Lemma skip_pairs_items fuel n p p' fuel' :
  0 <= p <= zlen body -> 0 <= n -> skip_pairs fuel body n p = inr (tt, p') ->
  p + 2 * n <= p' <= zlen body /\
  (n <= Z.of_nat fuel' ->
   pairs_ok (ack_items_from fuel' (mkAckRanges (sub_slice p p' body) n)) /\
   zlen (ack_items_from fuel' (mkAckRanges (sub_slice p p' body) n)) = n).
Proof.
  revert n p fuel'. induction fuel as [|fuel IH]; intros n p fuel' Hp Hn E; cbn [skip_pairs] in E;
    (destruct (n <=? 0) eqn:E0; bool_to_prop;
     [injection E as <-; split; [lia|]; intros _; assert (n = 0) as -> by lia;
      destruct fuel'; (split; [apply Forall_nil_2|done])|]); [done|].
  unfold rd_bind in E. destruct (rd_varint body p) as [|[v1 p1]] eqn:E1; [done|].
  apply rd_varint_inv in E1 as (V1 & H1 & R1); [|done].
  destruct (rd_varint body p1) as [|[v2 p2]] eqn:E2; [done|].
  apply rd_varint_inv in E2 as (V2 & H2 & R2); [|lia].
  destruct (IH (n - 1) p2 (fuel' - 1)%nat ltac:(lia) ltac:(lia) E) as [H3 H4]. split; [lia|].
  intros Hf. destruct fuel' as [|fuel']; [lia|]. cbn [ack_items_from]. unfold ack_ranges_next. cbn [ar_count ar_bytes].
  destruct (n =? 0) eqn:E3; bool_to_prop; [lia|].
  destruct (sub_slice_read p p' (p1 - p) v1 ltac:(lia) ltac:(lia) ltac:(lia) R1) as [Q1 D1].
  replace (p + (p1 - p)) with p1 in D1 by lia.
  destruct (sub_slice_read p1 p' (p2 - p1) v2 ltac:(lia) ltac:(lia) ltac:(lia) R2) as [Q2 D2].
  replace (p1 + (p2 - p1)) with p2 in D2 by lia.
  rewrite Q1, D1, Q2.
  assert (zdrop (p1 - p + (p2 - p1)) (sub_slice p p' body) = sub_slice p2 p' body) as ->.
  { rewrite <-D2, <-D1. unfold zdrop. rewrite drop_drop. f_equal. lia. }
  replace (S fuel' - 1)%nat with fuel' in H4 by lia. destruct H4 as [H5 H6]; [lia|].
  split; [by apply Forall_cons|rewrite zlen_cons; lia].
Qed.

End Post.

(** What a parsed frame guarantees its handler: integers below 2^62, slices inside
    the payload [body], exactly the announced number of ACK ranges. *)
Definition frame_typed (body : list Z) (f : Frame) : Prop :=
  match f with
  | Padding | Ping | HandshakeDone | Skipped _ => True
  | Ack l d fr r e =>
      is_varint l /\ is_varint d /\ is_varint fr /\ is_varint (ar_count r) /\ slice_of body (ar_bytes r) /\
      pairs_ok (ack_items r) /\ zlen (ack_items r) = ar_count r /\
      match e with
      | None => True
      | Some c => is_varint (ect0 c) /\ is_varint (ect1 c) /\ is_varint (ce c)
      end
  | Crypto o d => is_varint o /\ slice_of body d
  | Stream s o d _ => is_varint s /\ is_varint o /\ slice_of body d
  | ConnectionCloseTransport e t r => is_varint e /\ is_varint t /\ slice_of body r
  | ConnectionCloseApplication e r => is_varint e /\ slice_of body r
  | PathChallenge d => slice_of body d /\ zlen d = 8
  | MaxData m => is_varint m
  | MaxStreamData s m => is_varint s /\ is_varint m
  | ResetStream s c f => is_varint s /\ is_varint c /\ is_varint f
  | StopSending s c => is_varint s /\ is_varint c
  end.

Lemma is_varint_0 : is_varint 0.
Proof. by split. Qed.

(** Walks a parser. *)
Ltac post_chain :=
  repeat match goal with
  | |- rd_post _ _ (rd_bind (rd_varint _) _) =>
      eapply rd_post_bind; [by apply rd_post_varint|intros ? ?; cbv beta]
  | H : is_varint ?n |- rd_post _ _ (rd_bind (rd_slice _ _ ?n) _) =>
      eapply rd_post_bind; [apply rd_post_slice; [done|apply H]|intros ? [? ?]; cbv beta]
  | |- rd_post _ _ (rd_bind (rd_slice _ _ 8) _) =>
      eapply rd_post_bind; [apply rd_post_slice; [done|lia]|intros ? [? ?]; cbv beta]
  | |- rd_post _ _ (rd_bind (rd_need _ _ _) _) =>
      apply rd_post_need_skip; [done|first [lia | by match goal with H : is_varint _ |- _ => apply H end]|]
  | |- rd_post _ _ (rd_ret _) => apply rd_post_ret; cbn [frame_typed]; repeat (split; [done|]); done
  end.

Section Typed.
Context (body : list Z) (Hb : bytes_ok body).

Lemma parse_ack_post is_ecn : rd_post body (frame_typed body) (parse_ack body is_ecn).
Proof.
  unfold parse_ack. do 4 (eapply rd_post_bind; [by apply rd_post_varint|intros ? ?; cbv beta]).
  intros p Hp. unfold rd_bind at 1 2 3, rd_pos.
  rename a1 into n. assert (0 <= n) as Hn by (destruct H1; lia).
  pose proof (skip_pairs_no_panic body Hb (length body) n p Hp) as Hs.
  destruct (skip_pairs _ _ _ p) as [|[[] q]] eqn:E; [done|].
  destruct (skip_pairs_items body Hb _ n p q (length (sub_slice p q body)) Hp Hn E) as [H3 H4].
  assert (zlen (sub_slice p q body) = q - p) as Hl by (apply zlen_sub_slice; lia).
  destruct H4 as [H5 H6]; [unfold zlen in Hl; lia|].
  unfold rd_range. rewrite slice_range_in by lia.
  set (r := mkAckRanges (sub_slice p q body) n) in *.
  assert (forall e, match e with None => True | Some c => is_varint (ect0 c) /\ is_varint (ect1 c) /\ is_varint (ce c) end ->
    frame_typed body (Ack a a0 a2 r e)) as Ht.
  { intros e He. cbn [frame_typed]. repeat (split; [done || (apply slice_of_sub; lia)|]). done. }
  assert (rd_post body (frame_typed body)
    (if is_ecn then rd_bind (rd_varint body) (fun e0 => rd_bind (rd_varint body) (fun e1 =>
       rd_bind (rd_varint body) (fun c => rd_ret (Ack a a0 a2 r (Some (mkEcnCounts e0 e1 c))))))
     else rd_ret (Ack a a0 a2 r None))) as Hend.
  { apply rd_post_if; [|by apply rd_post_ret, Ht].
    do 3 (eapply rd_post_bind; [by apply rd_post_varint|intros ? ?; cbv beta]). by apply rd_post_ret, Ht. }
  specialize (Hend q ltac:(lia)). cbv zeta. fold r.
  match type of Hend with match ?t with _ => _ end => destruct t as [|[f p']] end; [done|].
  destruct Hend. split; [lia|done].
Qed.

Lemma parse_stream_post t : rd_post body (frame_typed body) (parse_stream body t).
Proof.
  unfold parse_stream. post_chain.
  eapply rd_post_bind; [apply rd_post_if; [by apply rd_post_varint|apply rd_post_ret, is_varint_0]|].
  intros o Ho. cbv beta.
  eapply (rd_post_bind _ (slice_of body)); [apply rd_post_if; [|apply rd_post_rest]|intros d Hd; cbv beta; post_chain].
  eapply rd_post_bind; [by apply rd_post_varint|intros n Hn; cbv beta].
  intros p Hp. pose proof (rd_post_slice body FrameTruncated n ltac:(done) ltac:(apply Hn) p Hp) as Hx.
  destruct (rd_slice _ _ _ p) as [|[d p']]; [done|]. by destruct Hx as (? & ? & _).
Qed.

Lemma skip_new_connection_id_post t : rd_post body (frame_typed body) (skip_new_connection_id body t).
Proof.
  unfold skip_new_connection_id. post_chain. intros p Hp. destruct (_ <? p + 1) eqn:E; [done|]. bool_to_prop.
  destruct (body !! Z.to_nat p) as [b|] eqn:Eb.
  - destruct (_ <? p + 1 + _ + 16) eqn:E2; [done|]. bool_to_prop.
    assert (is_u8 b) as [Hlo _] by (by eapply Forall_lookup_1 in Eb; [|exact Hb]). split; [lia|done].
  - apply lookup_ge_None in Eb. unfold zlen in *. lia.
Qed.

Lemma parse_body_post t : rd_post body (frame_typed body) (parse_body t body).
Proof.
  unfold parse_body.
  repeat (apply rd_post_if;
    [first [apply parse_ack_post | apply parse_stream_post | apply skip_new_connection_id_post
           | apply rd_post_ret; exact I
           | unfold parse_crypto, parse_close_transport, parse_close_application, skip_var_len_field,
               parse_reset_stream, parse_stop_sending, parse_max_data, parse_max_stream_data,
               skip_one_varint, skip_two_varints, parse_path_challenge, skip_fixed; post_chain]|]).
  by apply rd_post_fail.
Qed.

End Typed.

(** The frames of a payload, as the loop of [dispatch_frames] meets them;
    [payload = &payload[consumed..]] after each. *)
Fixpoint frames_from (fuel : nat) (payload : list Z) : list Frame * option FrameError :=
  match payload with
  | [] => ([], None)
  | _ =>
      match fuel with
      | O => ([], Some FrameTruncated)
      | S fuel =>
          match parse_frame payload with
          | inl e => ([], Some e)
          | inr (f, consumed) =>
              match slice_from consumed payload with
              | None => ([f], Some FramePanic)
              | Some rest => let (fs, e) := frames_from fuel rest in (f :: fs, e)
              end
          end
      end
  end.
Definition payload_frames (payload : list Z) : list Frame * option FrameError :=
  frames_from (length payload) payload.

Lemma slice_of_trans a b d : slice_of a b -> slice_of b d -> slice_of a d.
Proof.
  intros (x & y & ->) (x' & y' & ->). exists (x ++ x'), (y' ++ y). by rewrite <-!app_assoc.
Qed.

Lemma frame_typed_mono a b f : slice_of a b -> frame_typed b f -> frame_typed a f.
Proof.
  intros H. destruct f; cbn [frame_typed]; intuition eauto using slice_of_trans.
Qed.

Lemma parse_frame_safe data :
  bytes_ok data ->
  match parse_frame data with
  | inl e => e <> FramePanic
  | inr (f, n) => 1 <= n <= zlen data /\ frame_typed data f
  end.
Proof.
  intros Hb. destruct data as [|t rest]; [done|]. apply Forall_cons in Hb as [_ Hb].
  cbn [parse_frame]. unfold run_rd. pose proof (zlen_nonneg rest).
  pose proof (parse_body_post rest Hb t 0 ltac:(lia)) as Hp.
  destruct (parse_body t rest 0) as [|[f p]]; [done|]. destruct Hp as [H1 H2].
  rewrite zlen_cons. split; [lia|]. eapply frame_typed_mono; [|exact H2].
  exists [t], []. by rewrite app_nil_r.
Qed.

Lemma parse_frame_post data f n :
  bytes_ok data -> parse_frame data = inr (f, n) -> 1 <= n <= zlen data /\ frame_typed data f.
Proof. intros Hb E. pose proof (parse_frame_safe data Hb) as H. by rewrite E in H. Qed.

(** What the parser consumed lies inside the payload, so the loop goes on. *)
Lemma parse_frame_rest data f n :
  bytes_ok data -> parse_frame data = inr (f, n) -> slice_from n data = Some (zdrop n data).
Proof. intros Hb E. apply (parse_frame_post data f n Hb) in E as [H _]. apply slice_from_at. split; [lia|done]. Qed.

Lemma frames_from_typed fuel payload :
  bytes_ok payload -> (length payload <= fuel)%nat ->
  frames_from fuel payload = payload_frames payload /\
  Forall (frame_typed payload) (payload_frames payload).1 /\
  zlen (payload_frames payload).1 <= zlen payload.
Proof.
  remember (length payload) as n eqn:En. revert fuel payload En.
  induction n as [n IH] using lt_wf_ind; intros fuel payload En Hb Hf.
  destruct payload as [|t rest].
  { destruct fuel; (split; [done|split; [apply Forall_nil_2|done]]). }
  set (data := t :: rest) in *. assert (length data = S (length rest)) as El by done.
  destruct fuel as [|fuel]; [lia|]. unfold payload_frames. rewrite El. cbn [frames_from].
  change (t :: rest) with data. destruct (parse_frame data) as [e|[f k]] eqn:E.
  { split; [done|]. split; [apply Forall_nil_2|apply zlen_nonneg]. }
  destruct (parse_frame_post data f k Hb E) as [Hk Ht]. rewrite (parse_frame_rest data f k Hb E).
  assert (length (zdrop k data) < n)%nat as Hlt by (unfold zdrop, zlen in *; rewrite length_drop; lia).
  assert (bytes_ok (zdrop k data)) as Hb' by (by apply Forall_drop).
  destruct (IH _ Hlt fuel (zdrop k data) eq_refl Hb' ltac:(lia)) as (H1 & H2 & H3).
  destruct (IH _ Hlt (length rest) (zdrop k data) eq_refl Hb' ltac:(lia)) as (H1' & _ & _).
  rewrite H1, H1'. destruct (payload_frames (zdrop k data)) as [fs e]. cbn [fst] in *.
  split; [done|]. change (match data with [] => _ | _ :: _ => ?x end) with x. cbn [fst]. rewrite zlen_zdrop in H3 by lia. rewrite zlen_cons. split; [|lia].
  apply Forall_cons_2; [done|]. eapply Forall_impl; [exact H2|]. intros g.
  apply frame_typed_mono. exists (ztake k data), []. by rewrite app_nil_r, ztake_zdrop.
Qed.

(** An error of the loop is the parser's, on what was left of the payload. *)
Lemma frames_from_error fuel payload e :
  bytes_ok payload -> (length payload <= fuel)%nat -> (frames_from fuel payload).2 = Some e ->
  exists a b, payload = a ++ b /\ b <> [] /\ parse_frame b = inl e.
Proof.
  revert payload. induction fuel as [|fuel IH]; intros payload Hb Hf He.
  { destruct payload; [done|cbn in Hf; lia]. }
  destruct payload as [|t rest]; [done|]. cbn [frames_from] in He.
  set (data := t :: rest) in *. destruct (parse_frame data) as [e'|[f k]] eqn:E.
  { injection He as ->. by exists [], data. }
  destruct (parse_frame_post data f k Hb E) as [Hk _]. rewrite (parse_frame_rest data f k Hb E) in He.
  destruct (frames_from fuel (zdrop k data)) as [fs e'] eqn:E2. cbn [snd] in He.
  destruct (IH (zdrop k data)) as (a & b & H1 & H2); [by apply Forall_drop| |by rewrite E2|].
  { unfold zdrop, zlen in *. rewrite length_drop. cbn [length] in *. lia. }
  exists (ztake k data ++ a), b. split; [|done]. by rewrite <-app_assoc, <-H1, ztake_zdrop.
Qed.

Lemma payload_frames_calls cs :
  Forall call_ok cs -> payload_frames (concat (map call_wire cs)) = (map call_frame cs, None).
Proof.
  assert (forall cs, Forall call_ok cs -> forall fuel, (length (concat (map call_wire cs)) <= fuel)%nat ->
    frames_from fuel (concat (map call_wire cs)) = (map call_frame cs, None)) as H.
  { clear. induction 1 as [|c cs Hc Hcs IH]; intros fuel Hf; [by destruct fuel|].
    cbn [map concat] in *. rewrite length_app in Hf.
    pose proof (parse_call c (concat (map call_wire cs)) Hc) as Hp.
    assert (1 <= length (call_wire c))%nat as Hl by (unfold call_wire; cbn [length]; lia).
    destruct (call_wire c ++ concat (map call_wire cs)) as [|t rest] eqn:Ew.
    { apply (f_equal length) in Ew. rewrite length_app in Ew. cbn [length] in Ew. lia. }
    destruct fuel as [|fuel]; [lia|]. cbn [frames_from]. rewrite Hp, <-Ew.
    rewrite (slice_from_at _ _ (concat (map call_wire cs))) by (by apply (at_pos_app _ 0), at_pos_start).
    rewrite IH by lia. done. }
  intros Hcs. by apply H.
Qed.

(** C12: QUIC frames round-trip through whole packet payloads.  For any sequence of
    frames the connection emits, with integers below 2^62, a writer into a buffer
    succeeds exactly when the buffer holds its frame and reports OutputTooSmall in
    any smaller one, without writing past the end; a writer that appends to a vector
    always succeeds.  A peer that parses the concatenated payload sees exactly
    those frames in order with no error, and the ranges it iterates over are those
    an ACK was written with. *)
Theorem quic_payload_roundtrip cs :
  Forall call_ok cs ->
  exists ws,
    Forall2 (fun c w => forall cap,
      run_call c cap = if into_vec c || (zlen w <=? cap) then inr w else inl FrameOutputTooSmall) cs ws /\
    payload_frames (concat ws) = (map call_frame cs, None) /\
    forall l d f a, CallAck l d f a ∈ cs -> ack_items (mkAckRanges (pairs_wire a) (zlen a)) = a.
Proof.
  intros Hcs. exists (map call_wire cs). split; [|split].
  - clear -Hcs. induction Hcs as [|c cs Hc Hcs IH]; constructor; [|done]. intros cap. by apply run_call_wire.
  - by apply payload_frames_calls.
  - intros l d f a Hin. rewrite Forall_forall in Hcs. specialize (Hcs _ Hin). cbn [call_ok] in Hcs.
    apply ack_items_wire, Hcs.
Qed.

(** C13: Whatever bytes a decrypted payload holds, the frame loop is safe: it ends
    after at most one frame per byte whatever fuel it is given, no index or slice
    of the parsers or of the loop is out of range (none of them panics), and every
    frame handed to a handler is well typed (integers below 2^62, data slices of
    the payload itself, exactly as many ACK ranges as announced, eight bytes of
    path challenge).  The loop stops early only where the parser refuses what is
    left. *)
Theorem quic_payload_typed payload fuel :
  bytes_ok payload -> (length payload <= fuel)%nat ->
  frames_from fuel payload = payload_frames payload /\
  Forall (frame_typed payload) (payload_frames payload).1 /\
  zlen (payload_frames payload).1 <= zlen payload /\
  (payload_frames payload).2 <> Some FramePanic /\
  forall e, (payload_frames payload).2 = Some e ->
    exists a b, payload = a ++ b /\ b <> [] /\ parse_frame b = inl e.
Proof.
  intros Hb Hf. destruct (frames_from_typed fuel payload Hb Hf) as (H1 & H2 & H3).
  split; [done|]. split; [done|]. split; [done|].
  assert (forall e, (payload_frames payload).2 = Some e ->
    exists a b, payload = a ++ b /\ b <> [] /\ parse_frame b = inl e) as He by (intros e; by apply frames_from_error).
  split; [|done]. intros (a & b & -> & _ & E)%He. apply Forall_app in Hb as [_ Hb].
  pose proof (parse_frame_safe b Hb) as Hs. by rewrite E in Hs.
Qed.

Definition sample_calls : list Call :=
  [CallAck 900 25 3 [(1, 2); (0, 70)]; CallStreamParts 4 100 true [1; 2; 3]; CallMaxStreamData 4 100000;
   CallCrypto 0 [9; 9]; CallPing].

Lemma quic_payload_roundtrip_witness :
  exists ws, payload_frames (concat ws) = (map call_frame sample_calls, None).
Proof.
  destruct (quic_payload_roundtrip sample_calls) as (ws & _ & H & _).
  - unfold sample_calls.
    repeat (apply Forall_cons_2;
      [cbn [call_ok]; unfold is_varint, pairs_ok;
       repeat first [split | apply Forall_cons_2 | apply Forall_nil_2]; by vm_compute|]).
    apply Forall_nil_2.
  - by exists ws.
Defined.

Definition sample_payload : list Z := [2; 64; 100; 0; 1; 5; 3; 2; 14; 4; 10; 2; 77; 78; 0; 0; 255].

Lemma quic_payload_typed_witness :
  Forall (frame_typed sample_payload) (payload_frames sample_payload).1 /\
  length (payload_frames sample_payload).1 = 4%nat /\ (payload_frames sample_payload).2 = Some (UnknownFrameType 255).
Proof.
  split; [|by split].
  apply (quic_payload_typed sample_payload 17); [|cbn; lia].
  unfold sample_payload, bytes_ok. repeat (apply Forall_cons_2; [unfold is_u8, U8_MAX; lia|]). apply Forall_nil_2.
Defined.
