(* ===== verification/Treiber.v ===== *)
(** * The tagged Treiber stack (crates/util/tagged-treiber/src/lib.rs)

    A lock-free LIFO of slot indices: one 64-bit head word packing an index and
    a version, and [next] links the consuming pool owns.  [push] and [pop] are
    loops of a load, a link access and a compare-and-swap; each is modelled as a
    machine that performs one shared access per step, so that any number of them
    can be interleaved.  The lemmas say what each access does to the list the
    head word roots, and when a compare-and-swap of a pop that was overtaken can
    still succeed. *)

From S2P Require Import Prelude.

Definition NULL_INDEX : Z := U32_MAX.

Definition pack (index version : Z) : Z := Z.lor (Z.shiftl index 32) version.

Definition unpack (word : Z) : Z * Z := (w32 (Z.shiftr word 32), w32 word).

(** What a pool lends to the stack: the link of a slot, [None] where the slot
    lookup is out of bounds (and the code panics). *)
Class TreiberLinks (L : Type) := {
  next_load : L -> Z -> option Z;
  next_store : L -> Z -> Z -> option L;
}.

(** The laws a pool's links obey: they are independent cells. *)
Class TreiberLinksLaws (L : Type) `{TreiberLinks L} : Prop := {
  next_store_Some l i v : is_Some (next_load l i) -> is_Some (next_store l i v);
  next_load_store l i v l' : next_store l i v = Some l' -> next_load l' i = Some v;
  next_load_store_ne l i j v l' : next_store l i v = Some l' -> j <> i -> next_load l' j = next_load l j;
}.

(** The access [push] performs next. *)
Inductive PushPc :=
  | PushLoad
  | PushLink (head : Z)
  | PushCas (head : Z).

(** The access [pop] performs next. *)
Inductive PopPc :=
  | PopLoad
  | PopNext (head : Z)
  | PopCas (head next : Z).

Definition stack_new (head : Z) : Z := pack head 0.

Section ops.
  Context {L : Type} `{TreiberLinks L}.

(** The stack is its head word; [weak] is whether a weak compare-and-swap is
    allowed to succeed (it may fail although the words are equal). *)
Definition stack_push (weak : bool) (idx : Z) (pc : PushPc) (head : Z) (links : L)
    : Outcome PushPc unit * (Z * L) :=
  match pc with
  | PushLoad => (Continue (PushLink head), (head, links))
  | PushLink h =>
      match next_store links idx (fst (unpack h)) with
      | Some links' => (Continue (PushCas h), (head, links'))
      | None => (Panic, (head, links))
      end
  | PushCas h =>
      if weak && (head =? h) then (Return tt, (pack idx (w32 (snd (unpack h) + 1)), links))
      else (Continue PushLoad, (head, links))
  end.

Definition stack_pop (weak : bool) (pc : PopPc) (head : Z) (links : L)
    : Outcome PopPc (option Z) * (Z * L) :=
  match pc with
  | PopLoad =>
      if fst (unpack head) =? NULL_INDEX then (Return None, (head, links))
      else (Continue (PopNext head), (head, links))
  | PopNext h =>
      match next_load links (fst (unpack h)) with
      | Some n => (Continue (PopCas h n), (head, links))
      | None => (Panic, (head, links))
      end
  | PopCas h n =>
      if weak && (head =? h) then (Return (Some (fst (unpack h))), (pack n (snd (unpack h)), links))
      else (Continue PopLoad, (head, links))
  end.

(** [chain links h js]: following the links from [h] visits exactly [js]. *)
Fixpoint chain (links : L) (h : Z) (js : list Z) : Prop :=
  match js with
  | [] => h = NULL_INDEX
  | i :: js' => h = i /\ 0 <= i < NULL_INDEX /\ exists n, next_load links i = Some n /\ chain links n js'
  end.

(** The first index of a list, as a head or link stores it. *)
Definition first_of (js : list Z) : Z := default NULL_INDEX (head js).

(** A pop that has read the head word when [seen] pushes had been made
    ([cap] is the number of slots): until
    another push, its index either left the stack or is still its head. *)
Definition pop_pending (cap : Z) (free : list Z) (pushes seen : Z) (pc : PopPc) : Prop :=
  match pc with
  | PopLoad => True
  | PopNext h =>
      exists idx, h = pack idx (w32 seen) /\ 0 <= idx < cap /\ 0 <= seen <= pushes /\
        (pushes = seen -> idx ∉ free \/ exists free', free = idx :: free')
  | PopCas h n =>
      exists idx, h = pack idx (w32 seen) /\ 0 <= idx < cap /\ 0 <= seen <= pushes /\
        (pushes = seen -> idx ∉ free \/ exists free', free = idx :: free' /\ n = first_of free')
  end.

End ops.

(* ------------------------------------------------------------------ *)
(** ** The head word *)

Lemma pack_add i v : is_u32 v -> pack i v = v + i * 4294967296.
Proof.
  intros Hv. unfold pack. rewrite Z.lor_comm, lor_shiftl; [reflexivity|lia|].
  unfold is_u32, U32_MAX in Hv. lia.
Qed.

Lemma unpack_pack i v : is_u32 i -> is_u32 v -> unpack (pack i v) = (i, v).
Proof.
  intros Hi Hv. unfold unpack. rewrite pack_add, Z.shiftr_div_pow2 by done || lia.
  change (2 ^ 32) with 4294967296. f_equal; int_lia.
Qed.

Lemma pack_inj i v i' v' :
  is_u32 i -> is_u32 v -> is_u32 i' -> is_u32 v' -> pack i v = pack i' v' -> i = i' /\ v = v'.
Proof. intros ???? E. apply (f_equal unpack) in E. rewrite !unpack_pack in E by done. by injection E. Qed.

(* ------------------------------------------------------------------ *)
(** ** Chains *)

Section chains.
  Context {L : Type} `{TreiberLinksLaws L}.
  Implicit Types (l : L) (js : list Z).

Lemma chain_first l h js : chain l h js -> h = first_of js.
Proof. destruct js; [done|]. by intros (-> & _). Qed.

Lemma chain_bounds l h js : chain l h js -> Forall (fun i => 0 <= i < NULL_INDEX) js.
Proof.
  revert h. induction js as [|i js IH]; intros h; [constructor|]. intros (_ & Hi & n & _ & Hc).
  constructor; eauto.
Qed.

Lemma chain_first_u32 l h js : chain l h js -> is_u32 h.
Proof. destruct js; [intros ->|intros (-> & Hi & _)]; unfold NULL_INDEX in *; int_lia. Qed.

(** A chain depends on the links of its own slots only. *)
Lemma chain_frame l l' h js :
  (forall i, i ∈ js -> next_load l' i = next_load l i) -> chain l h js -> chain l' h js.
Proof.
  revert h. induction js as [|i js IH]; intros h Hl; [done|]. intros (-> & Hi & n & Hn & Hc).
  split_and!; [done|lia|lia|]. exists n. rewrite Hl by set_solver. split; [done|].
  apply IH; [|done]. set_solver.
Qed.

Lemma chain_store l l' i v h js : next_store l i v = Some l' -> i ∉ js -> chain l h js -> chain l' h js.
Proof.
  intros Hs Hi. apply chain_frame. intros j Hj. apply (next_load_store_ne _ _ _ _ _ Hs). set_solver.
Qed.

Lemma chain_at_null l js : chain l NULL_INDEX js -> js = [].
Proof. destruct js as [|i js]; [done|]. intros (<- & Hi & _). lia. Qed.

Lemma chain_cons l h js : chain l h js -> h <> NULL_INDEX ->
  exists n js', js = h :: js' /\ next_load l h = Some n /\ chain l n js'.
Proof. destruct js as [|i js]; [done|]. intros (<- & _ & n & Hn & Hc) _. eauto. Qed.

(** Storing the head of a chain in a fresh slot's link extends the chain. *)
Lemma chain_link l l' i h js :
  next_store l i h = Some l' -> 0 <= i < NULL_INDEX -> i ∉ js -> chain l h js -> chain l' i (i :: js).
Proof.
  intros Hs Hi Hni Hc. split_and!; [done|lia|lia|]. exists h. split; [by eapply next_load_store|].
  by eapply chain_store.
Qed.

End chains.

(* ------------------------------------------------------------------ *)
(** ** Overtaken pops *)

(** Another thread's pop does not disturb a pending one. *)
Lemma pop_pending_pop cap i free pushes seen pc :
  NoDup (i :: free) -> pop_pending cap (i :: free) pushes seen pc -> pop_pending cap free pushes seen pc.
Proof.
  intros [Hi _]%NoDup_cons. destruct pc as [|h|h n]; [done| |];
    intros (idx & -> & Hidx & Hs & Hp); exists idx; split_and!; try done; try lia;
    intros Hv; left; destruct (Hp Hv) as [Hn|(free' & Hf)]; try set_solver.
Qed.

(** A push makes every pop that read the head before it obsolete. *)
Lemma pop_pending_push cap free free' pushes seen pc :
  pop_pending cap free pushes seen pc -> pop_pending cap free' (pushes + 1) seen pc.
Proof.
  destruct pc as [|h|h n]; [done| |]; intros (idx & -> & Hidx & Hs & _); exists idx;
    (split_and!; [done|lia..]).
Qed.

(** The ABA defence: if fewer than [2^32] pushes were made since the pop read
    the head word and the word is still the same, then no push was made at all
    and the link the pop read is the current one. *)
Lemma pop_cas_current cap free pushes seen h n head_idx :
  pop_pending cap free pushes seen (PopCas h n) -> cap <= NULL_INDEX ->
  pushes - seen < 4294967296 -> head_idx = first_of free -> is_u32 head_idx ->
  pack head_idx (w32 pushes) = h ->
  exists free', free = fst (unpack h) :: free' /\ n = first_of free' /\ pushes = seen.
Proof.
  intros (idx & -> & Hidx & Hle & Hp) Hcap Hfresh -> Hu Heq.
  assert (is_u32 idx) by (unfold NULL_INDEX, is_u32 in *; lia).
  rewrite unpack_pack by (done || apply w32_range). cbn [fst].
  apply pack_inj in Heq as [Hi Hv]; [|done|apply w32_range|done|apply w32_range].
  assert (pushes = seen) as Hps by int_lia. destruct (Hp Hps) as [Hn|(free' & -> & ->)]; [|eauto].
  exfalso. destruct free as [|j free]; cbn in Hi; [|set_solver].
  unfold NULL_INDEX in *. subst idx. lia.
Qed.
