(* ===== verification/RxInbox.v ===== *)
(** * The cross-core hand-off inbox (crates/kernel/core/src/rx_inbox.rs)

    A fixed pool of nodes with a lock-free free list (the tagged Treiber stack)
    and, per core, a lock-free list of parked payloads.  [distribute] takes a
    free node, moves a payload into it and publishes it on the target core's
    inbox; [drain_each] detaches the owning core's inbox, reverses it to arrival
    order, recycles each node and hands the payload on.

    Every shared access is one step of a thread, one thread per core, and the
    steps of the threads interleave in any order (sequentially consistent
    interleaving; the acquire/release pairs the code documents are what makes
    that view the right one).  A thread also carries how many pushes the free
    list had seen when its pending pop read the head word, and each core what was
    published to it and what it delivered: no operation reads these. *)

From S2P Require Import Prelude.
From S2P Require Import Treiber.

Definition NULL : Z := NULL_INDEX.

Record RxNode (T : Type) := mkRxNode { next : Z; payload : option T }.
Arguments mkRxNode {_} _ _.
Arguments next {_} _.
Arguments payload {_} _.

Record RxNodePool (T : Type) := mkRxNodePool {
  nodes : list (RxNode T);
  free_list : Z;
  free_count : Z;
}.
Arguments mkRxNodePool {_} _ _ _.
Arguments nodes {_} _.
Arguments free_list {_} _.
Arguments free_count {_} _.

(** The access [RxInbox::push] performs next. *)
Inductive InboxPc :=
  | InboxLoad
  | InboxLink (head : Z)
  | InboxCas (head : Z).

(** The access a core performs next.  [Publish] keeps the payload it has parked
    in the node, which the code no longer holds. *)
Inductive Pc (T : Type) :=
  | Idle
  | Alloc (target : nat) (value : T) (pop : PopPc)
  | AllocCount (target : nat) (value : T) (idx : Z)
  | Store (target : nat) (value : T) (idx : Z)
  | Publish (target : nat) (value : T) (idx : Z) (push : InboxPc)
  | Swap
  | Reverse (fifo node : Z)
  | ReverseLink (fifo node nxt : Z)
  | WalkNext (count node : Z)
  | Take (count node nxt : Z)
  | Free (count node nxt : Z) (value : option T) (push : PushPc)
  | FreeCount (count nxt : Z) (value : option T)
  | Deliver (count nxt : Z) (value : option T)
  | Panicked.
Arguments Idle {_}.
Arguments Alloc {_} _ _ _.
Arguments AllocCount {_} _ _ _.
Arguments Store {_} _ _ _.
Arguments Publish {_} _ _ _ _.
Arguments Swap {_}.
Arguments Reverse {_} _ _.
Arguments ReverseLink {_} _ _ _.
Arguments WalkNext {_} _ _.
Arguments Take {_} _ _ _.
Arguments Free {_} _ _ _ _ _.
Arguments FreeCount {_} _ _ _.
Arguments Deliver {_} _ _ _.
Arguments Panicked {_}.

(** What a step shows: a call returned, or the drain handed a payload on. *)
Inductive Event (T : Type) :=
  | Silent
  | Sent (target : nat) (value : T)
  | Refused (value : T)
  | Got (value : T)
  | Drained (count : Z).
Arguments Silent {_}.
Arguments Sent {_} _ _.
Arguments Refused {_} _.
Arguments Got {_} _.
Arguments Drained {_} _.

Section ops.
  Context {T : Type}.
  Implicit Types (pool : RxNodePool T).

Definition node_new : RxNode T := mkRxNode NULL None.

Definition node_at pool (idx : Z) : option (RxNode T) :=
  if 0 <=? idx then nodes pool !! Z.to_nat idx else None.

Definition node_set pool (idx : Z) (n : RxNode T) : RxNodePool T :=
  mkRxNodePool (<[Z.to_nat idx := n]> (nodes pool)) (free_list pool) (free_count pool).

(** [RxNode::store]: [None] where the index is out of bounds. *)
Definition node_store pool (idx : Z) (value : T) : option (RxNodePool T) :=
  n ← node_at pool idx; Some (node_set pool idx (mkRxNode (next n) (Some value))).

(** [RxNode::take]. *)
Definition node_take pool (idx : Z) : option (option T * RxNodePool T) :=
  n ← node_at pool idx; Some (payload n, node_set pool idx (mkRxNode (next n) None)).

Global Instance pool_links : TreiberLinks (RxNodePool T) := {
  next_load pool idx := next <$> node_at pool idx;
  next_store pool idx v := n ← node_at pool idx; Some (node_set pool idx (mkRxNode v (payload n)));
}.

Definition set_free_list (head : Z) pool : RxNodePool T := mkRxNodePool (nodes pool) head (free_count pool).
Definition set_free_count (c : Z) pool : RxNodePool T := mkRxNodePool (nodes pool) (free_list pool) c.

Definition pool_new (N : nat) : RxNodePool T := mkRxNodePool (replicate N node_new) (stack_new NULL) 0.

Definition init_links (N : nat) : list (RxNode T) -> list (RxNode T) :=
  imap (fun i n => mkRxNode (if Z.of_nat i + 1 <? Z.of_nat N then w32 (Z.of_nat i + 1) else NULL) (payload n)).

Definition pool_init pool : RxNodePool T :=
  let N := length (nodes pool) in
  mkRxNodePool (init_links N (nodes pool)) (pack (if Z.of_nat N =? 0 then NULL else 0) 0) (Z.of_nat N).

Definition alloc_access (weak : bool) (pc : PopPc) pool : Outcome PopPc (option Z) * RxNodePool T :=
  let '(o, (head, pool')) := stack_pop weak pc (free_list pool) pool in (o, set_free_list head pool').

Definition free_access (weak : bool) (idx : Z) (pc : PushPc) pool : Outcome PushPc unit * RxNodePool T :=
  let '(o, (head, pool')) := stack_push weak idx pc (free_list pool) pool in (o, set_free_list head pool').

(** [RxInbox::push] on the inbox whose head is [head]. *)
Definition inbox_push (weak : bool) (idx : Z) (pc : InboxPc) (head : Z) pool
    : Outcome InboxPc unit * Z * RxNodePool T :=
  match pc with
  | InboxLoad => (Continue (InboxLink head), head, pool)
  | InboxLink h =>
      match next_store pool idx h with
      | Some pool' => (Continue (InboxCas h), head, pool')
      | None => (Panic, head, pool)
      end
  | InboxCas h =>
      if weak && (head =? h) then (Return tt, idx, pool) else (Continue InboxLoad, head, pool)
  end.

Definition inbox_is_empty (head : Z) : bool := head =? NULL.

(** The result of a step: the next access, the pool, the core's or the target's
    inbox, the event. *)
Definition Result : Type := Pc T * RxNodePool T * Z * Event T.

(** [RxNodePool::distribute]; [head] is the target inbox. *)
Definition distribute (weak : bool) (pc : Pc T) (head : Z) pool : Result :=
  match pc with
  | Alloc k v pop =>
      let '(o, pool') := alloc_access weak pop pool in
      match o with
      | Continue pop' => (Alloc k v pop', pool', head, Silent)
      | Return None => (Idle, pool', head, Refused v)
      | Return (Some idx) => (AllocCount k v idx, pool', head, Silent)
      | Panic => (Panicked, pool', head, Silent)
      end
  | AllocCount k v idx => (Store k v idx, set_free_count (w64 (free_count pool - 1)) pool, head, Silent)
  | Store k v idx =>
      match node_store pool idx v with
      | Some pool' => (Publish k v idx InboxLoad, pool', head, Silent)
      | None => (Panicked, pool, head, Silent)
      end
  | Publish k v idx push =>
      let '(o, head', pool') := inbox_push weak idx push head pool in
      match o with
      | Continue push' => (Publish k v idx push', pool', head', Silent)
      | Return tt => (Idle, pool', head', Sent k v)
      | Panic => (Panicked, pool', head', Silent)
      end
  | _ => (pc, pool, head, Silent)
  end.

(** [RxInbox::drain_each]; [head] is the core's own inbox. *)
Definition drain_each (weak : bool) (pc : Pc T) (head : Z) pool : Result :=
  match pc with
  | Swap => (Reverse NULL head, pool, NULL, Silent)
  | Reverse fifo node =>
      if node =? NULL then (WalkNext 0 fifo, pool, head, Silent)
      else match next_load pool node with
           | Some n => (ReverseLink fifo node n, pool, head, Silent)
           | None => (Panicked, pool, head, Silent)
           end
  | ReverseLink fifo node n =>
      match next_store pool node fifo with
      | Some pool' => (Reverse node n, pool', head, Silent)
      | None => (Panicked, pool, head, Silent)
      end
  | WalkNext count node =>
      if node =? NULL then (Idle, pool, head, Drained count)
      else match next_load pool node with
           | Some n => (Take count node n, pool, head, Silent)
           | None => (Panicked, pool, head, Silent)
           end
  | Take count node n =>
      match node_take pool node with
      | Some (v, pool') => (Free count node n v PushLoad, pool', head, Silent)
      | None => (Panicked, pool, head, Silent)
      end
  | Free count node n v push =>
      let '(o, pool') := free_access weak node push pool in
      match o with
      | Continue push' => (Free count node n v push', pool', head, Silent)
      | Return tt => (FreeCount count n v, pool', head, Silent)
      | Panic => (Panicked, pool', head, Silent)
      end
  | FreeCount count n v => (Deliver count n v, set_free_count (w64 (free_count pool + 1)) pool, head, Silent)
  | Deliver count n v => (WalkNext (w64 (count + 1)) n, pool, head, default Silent (Got <$> v))
  | _ => (pc, pool, head, Silent)
  end.

(* ------------------------------------------------------------------ *)
(** ** The cores *)

Record Core := mkCore {
  inbox : Z;
  pc : Pc T;
  seen : Z;
  sent : list T;
  got : list T;
}.

Record System := mkSystem {
  pool : RxNodePool T;
  cores : list Core;
  pushes : Z;
}.

(** Whether the core is inside [distribute], and the inbox its step concerns. *)
Definition distributing (p : Pc T) : option nat :=
  match p with
  | Alloc k _ _ | AllocCount k _ _ | Store k _ _ | Publish k _ _ _ => Some k
  | _ => None
  end.

Definition access (weak : bool) (p : Pc T) (head : Z) (pl : RxNodePool T) : Result :=
  match distributing p with
  | Some _ => distribute weak p head pl
  | None => drain_each weak p head pl
  end.

Definition log_sent (ev : Event T) : list T := match ev with Sent _ v => [v] | _ => [] end.
Definition log_got (ev : Event T) : list T := match ev with Got v => [v] | _ => [] end.

Definition set_inbox (head : Z) (ev : Event T) (c : Core) : Core :=
  mkCore head (pc c) (seen c) (sent c ++ log_sent ev) (got c).
Definition set_thread (p : Pc T) (n : Z) (ev : Event T) (c : Core) : Core :=
  mkCore (inbox c) p n (sent c) (got c ++ log_got ev).

Definition seen_after (s : System) (c : Core) : Z :=
  match pc c with Alloc _ _ PopLoad => pushes s | _ => seen c end.
Definition pushes_after (s : System) (p p' : Pc T) : Z :=
  match p, p' with Free _ _ _ _ _, FreeCount _ _ _ => pushes s + 1 | _, _ => pushes s end.

(** Core [k] performs its next access. *)
Definition run (k : nat) (weak : bool) (s : System) : option (System * Event T) :=
  c ← cores s !! k;
  let j := default k (distributing (pc c)) in
  d ← cores s !! j;
  let '(p, pl, head, ev) := access weak (pc c) (inbox d) (pool s) in
  Some (mkSystem pl (alter (set_thread p (seen_after s c) ev) k (alter (set_inbox head ev) j (cores s)))
                 (pushes_after s (pc c) p), ev).

(** An idle core calls [distribute] or [drain_each]. *)
Definition call (k : nat) (p : Pc T) (s : System) : System :=
  mkSystem (pool s) (alter (fun c => mkCore (inbox c) p (seen c) (sent c) (got c)) k (cores s)) (pushes s).

Definition system_init (N ncores : nat) : System :=
  mkSystem (pool_init (pool_new N)) (replicate ncores (mkCore NULL Idle 0 [] [])) 0.

(** Fewer than [2^32] pushes are made between a pop's read of the head word and
    its compare-and-swap (the version tag is 32 bits wide). *)
Definition fresh (s : System) (k : nat) : Prop :=
  forall c t v h n, cores s !! k = Some c -> pc c = Alloc t v (PopCas h n) ->
    pushes s - seen c < 4294967296.

Inductive step (s : System) : Event T -> System -> Prop :=
  | step_distribute k c target v :
      cores s !! k = Some c -> pc c = Idle -> (target < length (cores s))%nat ->
      step s Silent (call k (Alloc target v PopLoad) s)
  | step_drain k c :
      cores s !! k = Some c -> pc c = Idle -> step s Silent (call k Swap s)
  | step_run k weak s' ev :
      fresh s k -> run k weak s = Some (s', ev) -> step s ev s'.

Inductive reachable (s0 : System) : System -> Prop :=
  | reachable_init : reachable s0 s0
  | reachable_step s ev s' : reachable s0 s -> step s ev s' -> reachable s0 s'.

(* ------------------------------------------------------------------ *)
(** ** The invariant *)

Definition payloads (pl : RxNodePool T) : list Z -> list T -> Prop :=
  Forall2 (fun i v => exists n, node_at pl i = Some n /\ payload n = Some v).

Definition empties (pl : RxNodePool T) : list Z -> Prop :=
  Forall (fun i => exists n, node_at pl i = Some n /\ payload n = None).

(** What a core owns: the nodes of its inbox and their payloads in arrival
    order, the nodes its thread holds and the payloads it has detached and not
    yet delivered, in the order in which it will deliver them. *)
Record Ghost := mkGhost { g_inbox : list Z; g_queue : list T; g_held : list Z; g_todo : list T }.

Definition nodes_of (g : Ghost) : list Z := g_inbox g ++ g_held g.

(** The node a [free] is returning, once its link has been written. *)
Definition free_linked (pl : RxNodePool T) (node : Z) (push : PushPc) : Prop :=
  match push with PushCas h => next_load pl node = Some (fst (unpack h)) | _ => True end.

Definition thread_ok (pl : RxNodePool T) (free : list Z) (npush : Z) (ncores : nat)
    (p : Pc T) (at_load : Z) (held : list Z) (todo : list T) : Prop :=
  match p with
  | Idle | Swap => held = [] /\ todo = []
  | Alloc k _ pop =>
      held = [] /\ todo = [] /\ (k < ncores)%nat /\
      pop_pending (Z.of_nat (length (nodes pl))) free npush at_load pop
  | AllocCount k _ idx | Store k _ idx =>
      held = [idx] /\ todo = [] /\ (k < ncores)%nat /\ empties pl [idx]
  | Publish k v idx push =>
      held = [idx] /\ todo = [] /\ (k < ncores)%nat /\ payloads pl [idx] [v] /\
      match push with InboxCas h => next_load pl idx = Some h | _ => True end
  | Reverse fifo node =>
      exists done rest, held = done ++ rest /\ chain pl fifo done /\ chain pl node rest /\
        payloads pl (reverse rest ++ done) todo
  | ReverseLink fifo node n =>
      exists done rest, held = done ++ node :: rest /\ chain pl fifo done /\ chain pl n rest /\
        payloads pl (reverse (node :: rest) ++ done) todo
  | WalkNext _ node => chain pl node held /\ payloads pl held todo
  | Take _ node n => exists rest, held = node :: rest /\ chain pl n rest /\ payloads pl held todo
  | Free _ node n v push =>
      exists rest w todo', held = node :: rest /\ todo = w :: todo' /\ v = Some w /\
        chain pl n rest /\ payloads pl rest todo' /\ empties pl [node] /\ free_linked pl node push
  | FreeCount _ n v | Deliver _ n v =>
      exists w todo', todo = w :: todo' /\ v = Some w /\ chain pl n held /\ payloads pl held todo'
  | Panicked => False
  end.

Definition inbox_ok (pl : RxNodePool T) (head : Z) (js : list Z) (queue : list T) : Prop :=
  chain pl head js /\ payloads pl (reverse js) queue.

Record core_ok (pl : RxNodePool T) (free : list Z) (npush : Z) (ncores : nat) (c : Core) (g : Ghost) : Prop := {
  core_inbox : inbox_ok pl (inbox c) (g_inbox g) (g_queue g);
  core_thread : thread_ok pl free npush ncores (pc c) (seen c) (g_held g) (g_todo g);
  core_log : sent c = got c ++ g_todo g ++ g_queue g;
}.

Record inv (N : nat) (s : System) (free : list Z) (gs : list Ghost) : Prop := {
  inv_size : Z.of_nat N < NULL;
  inv_len : length (nodes (pool s)) = N;
  inv_pushes : 0 <= pushes s;
  inv_perm : free ++ concat (nodes_of <$> gs) ≡ₚ seqZ 0 (Z.of_nat N);
  inv_head : free_list (pool s) = pack (first_of free) (w32 (pushes s));
  inv_chain : chain (pool s) (first_of free) free;
  inv_empty : empties (pool s) free;
  inv_ghosts : length gs = length (cores s);
  inv_cores : forall k c g, cores s !! k = Some c -> gs !! k = Some g ->
    core_ok (pool s) free (pushes s) (length (cores s)) c g;
}.

End ops.

Arguments Core : clear implicits.
Arguments System : clear implicits.
Arguments Ghost : clear implicits.
