(* ===== verification/RxInboxInv.v ===== *)
(** * The inbox invariant holds in every interleaving

    Each access of [RxInbox] preserves the partition of the nodes among the free
    list, the inboxes and the threads, and the account of every payload. *)

From S2P Require Import Prelude.
From S2P Require Import Treiber.
From S2P Require Import RxInbox.

Section proofs.
  Context {T : Type}.
  Implicit Types (pl : RxNodePool T) (s : System T) (c : Core T) (g : Ghost T).

(* ------------------------------------------------------------------ *)
(** ** Nodes *)

Lemma node_at_set pl i n0 n j :
  node_at pl i = Some n0 -> node_at (node_set pl i n) j = if decide (j = i) then Some n else node_at pl j.
Proof.
  unfold node_at. cbn [nodes node_set]. destruct (0 <=? i) eqn:Ei; [|done]. bool_to_prop. intros Hi.
  case_decide as Hji.
  - subst j. rewrite (proj2 (Z.leb_le 0 i)) by done. apply list_lookup_insert_eq. by eapply lookup_lt_Some.
  - destruct (0 <=? j) eqn:Ej; [|done]. bool_to_prop. apply list_lookup_insert_ne. lia.
Qed.

Lemma node_set_length pl i n : length (nodes (node_set pl i n)) = length (nodes pl).
Proof. apply length_insert. Qed.

Global Instance pool_links_laws : TreiberLinksLaws (RxNodePool T).
Proof.
  split; unfold next_load, next_store; cbn.
  - intros pl i v [x Hx]. destruct (node_at pl i) as [n|]; [|done]. eauto.
  - intros pl i v pl' H. destruct (node_at pl i) as [n|] eqn:E; [|done]. injection H as <-.
    rewrite (node_at_set _ _ _ _ _ E), decide_True by done. done.
  - intros pl i j v pl' H Hj. destruct (node_at pl i) as [n|] eqn:E; [|done]. injection H as <-.
    rewrite (node_at_set _ _ _ _ _ E), decide_False by done. done.
Qed.

(** [pl'] differs from [pl] at the nodes [held] at most. *)
Definition same_off (held : list Z) pl pl' : Prop :=
  length (nodes pl') = length (nodes pl) /\ forall i, i ∉ held -> node_at pl' i = node_at pl i.

Lemma same_off_nodes held pl pl' : nodes pl' = nodes pl -> same_off held pl pl'.
Proof. intros E. unfold same_off, node_at. by rewrite E. Qed.

Lemma same_off_node_set held pl i n0 n :
  node_at pl i = Some n0 -> i ∈ held -> same_off held pl (node_set pl i n).
Proof.
  intros Hi Hin. split; [apply node_set_length|]. intros j Hj.
  rewrite (node_at_set _ _ _ _ _ Hi), decide_False; [done|]. set_solver.
Qed.

Section frame.
  Context (held : list Z) (pl pl' : RxNodePool T) (Hsame : same_off held pl pl').

Lemma chain_same h js : js ## held -> chain pl h js -> chain pl' h js.
Proof.
  intros Hd. apply chain_frame. intros i Hi. unfold next_load; cbn. destruct Hsame as [_ ->]; [done|set_solver].
Qed.

Lemma payloads_same js vs : js ## held -> payloads pl js vs -> payloads pl' js vs.
Proof.
  intros Hd H. induction H as [|i v js vs (n & Hn & Hv) H IH]; constructor.
  - exists n. destruct Hsame as [_ ->]; [done|set_solver].
  - apply IH. set_solver.
Qed.

Lemma empties_same js : js ## held -> empties pl js -> empties pl' js.
Proof.
  unfold empties. rewrite !Forall_forall. intros Hd H i Hi. destruct (H i Hi) as (n & Hn & Hv). exists n.
  destruct Hsame as [_ ->]; [done|set_solver].
Qed.

Lemma next_load_same i : i ∉ held -> next_load pl' i = next_load pl i.
Proof. intros Hi. unfold next_load; cbn. by destruct Hsame as [_ ->]. Qed.

(** Carries each part of a thread's state over to [pl']. *)
Ltac off_frame :=
  repeat match goal with
  | H : exists _, _ |- _ => destruct H
  | H : _ /\ _ |- _ => destruct H
  | H : match ?push with _ => _ end |- _ => destruct push
  | H : free_linked _ _ ?push |- _ => unfold free_linked in H |- *; destruct push
  end; subst; repeat eexists;
  first [done | eapply chain_same; [set_solver|done] | eapply payloads_same; [set_solver|done]
        | eapply empties_same; [set_solver|done] | rewrite next_load_same; [done|set_solver] | idtac].

Lemma thread_ok_same free npush ncores p m js todo :
  js ## held -> thread_ok pl free npush ncores p m js todo -> thread_ok pl' free npush ncores p m js todo.
Proof.
  intros Hd. unfold thread_ok. rewrite (proj1 Hsame). destruct p; try done; intros H; off_frame.
Qed.

Lemma inbox_ok_same h js vs : js ## held -> inbox_ok pl h js vs -> inbox_ok pl' h js vs.
Proof.
  intros Hd [H1 H2]. split; [by apply chain_same|]. apply payloads_same; [|done]. intros i Hi.
  apply (Hd i). by apply elem_of_reverse.
Qed.

End frame.

Lemma chain_nodes pl pl' h js : nodes pl' = nodes pl -> chain pl h js -> chain pl' h js.
Proof. intros E. apply (chain_same []); [by apply same_off_nodes|set_solver]. Qed.

Lemma thread_ok_nodes pl pl' free npush ncores p m held todo :
  nodes pl' = nodes pl -> thread_ok pl free npush ncores p m held todo -> thread_ok pl' free npush ncores p m held todo.
Proof. intros E. apply (thread_ok_same []); [by apply same_off_nodes|set_solver]. Qed.

(** Writing a link moves no payload. *)
Lemma node_at_link pl i v pl' j n :
  next_store pl i v = Some pl' -> node_at pl j = Some n ->
  exists n', node_at pl' j = Some n' /\ payload n' = payload n.
Proof.
  unfold next_store; cbn. destruct (node_at pl i) as [n0|] eqn:E; [|done]. intros [= <-] Hj.
  rewrite (node_at_set _ _ _ _ _ E). case_decide as Hji; [|eauto]. subst j. rewrite E in Hj. injection Hj as <-. eauto.
Qed.

Lemma payloads_link pl i v pl' js vs :
  next_store pl i v = Some pl' -> payloads pl js vs -> payloads pl' js vs.
Proof.
  intros Hs H. eapply Forall2_impl; [exact H|]. intros j w (n & Hn & Hw).
  destruct (node_at_link _ _ _ _ _ _ Hs Hn) as (n' & Hn' & E). exists n'. by rewrite E.
Qed.

Lemma empties_link pl i v pl' js : next_store pl i v = Some pl' -> empties pl js -> empties pl' js.
Proof.
  intros Hs H. eapply Forall_impl; [exact H|]. intros j (n & Hn & Hw).
  destruct (node_at_link _ _ _ _ _ _ Hs Hn) as (n' & Hn' & E). exists n'. by rewrite E.
Qed.

Lemma same_off_link held pl i v pl' : next_store pl i v = Some pl' -> i ∈ held -> same_off held pl pl'.
Proof.
  unfold next_store; cbn. destruct (node_at pl i) as [n0|] eqn:E; [|done]. intros [= <-] Hi.
  by eapply same_off_node_set.
Qed.

Lemma free_list_link pl i v pl' : next_store pl i v = Some pl' -> free_list pl' = free_list pl.
Proof. unfold next_store; cbn. destruct (node_at pl i) as [n0|]; [|done]. by intros [= <-]. Qed.

(* ------------------------------------------------------------------ *)
(** ** The partition *)

Lemma nodes_of_update gs k g :
  gs !! k = Some g ->
  exists rest, concat (nodes_of <$> gs) ≡ₚ nodes_of g ++ rest /\
    (forall j g', j <> k -> gs !! j = Some g' -> nodes_of g' ⊆ rest) /\
    forall g', concat (nodes_of <$> <[k := g']> gs) ≡ₚ nodes_of g' ++ rest.
Proof.
  revert k. induction gs as [|g0 gs IH]; intros [|k] H; [done..| |].
  - injection H as <-. exists (concat (nodes_of <$> gs)). split_and!; [done| |done].
    intros [|j] g' Hj Hg; [done|]. cbn in Hg. intros i Hi. apply list_elem_of_In, in_concat.
    exists (nodes_of g'). split; [|by apply list_elem_of_In].
    apply list_elem_of_In, list_elem_of_fmap. exists g'. split; [done|]. by eapply list_elem_of_lookup_2.
  - destruct (IH _ H) as (rest & H1 & H2 & H3). exists (nodes_of g0 ++ rest). split_and!.
    + cbn. rewrite H1. solve_Permutation.
    + intros [|j] g' Hj Hg; [injection Hg as <-; set_solver|]. specialize (H2 j g' ltac:(lia) Hg). set_solver.
    + intros g'. cbn. rewrite (H3 g'). solve_Permutation.
Qed.

Lemma inv_NoDup N s free gs : inv N s free gs -> NoDup (free ++ concat (nodes_of <$> gs)).
Proof. intros H. rewrite (inv_perm _ _ _ _ H). apply NoDup_seqZ. Qed.

(** The nodes a thread holds are on no other list. *)
Lemma held_disjoint N s free gs k g :
  inv N s free gs -> gs !! k = Some g ->
  NoDup (g_held g) /\ free ## g_held g /\ g_inbox g ## g_held g /\
  forall j g', j <> k -> gs !! j = Some g' -> nodes_of g' ## g_held g.
Proof.
  intros H Hg. destruct (nodes_of_update gs k g Hg) as (rest & Hp & Hr & _).
  pose proof (inv_NoDup _ _ _ _ H) as Hnd. rewrite Hp in Hnd. unfold nodes_of at 1 in Hnd.
  rewrite !NoDup_app in Hnd. destruct Hnd as (_ & H1 & (_ & H2 & H3) & H4 & _).
  split_and!; [done|set_solver..|]. intros j g' Hj Hg' i Hi Hi'. apply (H4 i); [set_solver|].
  by apply (Hr j g').
Qed.

Lemma inv_node_at N s free gs i :
  inv N s free gs -> i ∈ free ++ concat (nodes_of <$> gs) -> 0 <= i < NULL /\ is_Some (node_at (pool s) i).
Proof.
  intros H Hi. rewrite (inv_perm _ _ _ _ H) in Hi. apply elem_of_seqZ in Hi.
  pose proof (inv_size _ _ _ _ H). split; [lia|]. unfold node_at.
  rewrite (proj2 (Z.leb_le 0 i)) by lia. apply lookup_lt_is_Some. rewrite (inv_len _ _ _ _ H). lia.
Qed.

Lemma held_node_at N s free gs k g i :
  inv N s free gs -> gs !! k = Some g -> i ∈ g_held g -> 0 <= i < NULL /\ is_Some (node_at (pool s) i).
Proof.
  intros H Hg Hi. eapply inv_node_at; [done|]. destruct (nodes_of_update gs k g Hg) as (rest & Hp & _).
  rewrite Hp. unfold nodes_of. set_solver.
Qed.

Lemma inv_lookup N s free gs k c :
  inv N s free gs -> cores s !! k = Some c ->
  exists g, gs !! k = Some g /\ core_ok (pool s) free (pushes s) (length (cores s)) c g.
Proof.
  intros H Hc. destruct (lookup_lt_is_Some_2 gs k) as [g Hg].
  { rewrite (inv_ghosts _ _ _ _ H). by eapply lookup_lt_Some. }
  exists g. split; [done|]. by eapply inv_cores.
Qed.

(** A thread's facts other than its pending pop do not mention the free list. *)
Lemma thread_ok_free pl free free' npush npush' ncores p m held todo :
  (forall pop, pop_pending (Z.of_nat (length (nodes pl))) free npush m pop ->
    pop_pending (Z.of_nat (length (nodes pl))) free' npush' m pop) ->
  thread_ok pl free npush ncores p m held todo -> thread_ok pl free' npush' ncores p m held todo.
Proof. intros Hpop. destruct p; try done. cbn. intros (? & ? & ? & ?). split_and!; auto. Qed.

(* ------------------------------------------------------------------ *)
(** ** Steps that leave the inboxes alone *)

Lemma inv_thread N s free gs k c g pl' free' npush' p m ev held' todo' :
  inv N s free gs -> cores s !! k = Some c -> gs !! k = Some g ->
  same_off (g_held g) (pool s) pl' -> free' ++ held' ≡ₚ free ++ g_held g ->
  0 <= npush' -> free_list pl' = pack (first_of free') (w32 npush') ->
  chain pl' (first_of free') free' -> empties pl' free' ->
  (forall n pop, pop_pending (Z.of_nat N) free (pushes s) n pop -> pop_pending (Z.of_nat N) free' npush' n pop) ->
  thread_ok pl' free' npush' (length (cores s)) p m held' todo' -> g_todo g = log_got ev ++ todo' ->
  inv N (mkSystem pl' (alter (set_thread p m ev) k (cores s)) npush') free'
    (<[k := mkGhost (g_inbox g) (g_queue g) held' todo']> gs).
Proof.
  intros H Hc Hg Hsame Hperm Hnp Hhead Hch Hem Hpop Hth Htodo.
  destruct (held_disjoint _ _ _ _ _ _ H Hg) as (_ & _ & Hdi & Hdo).
  destruct (nodes_of_update gs k g Hg) as (rest & Hp & _ & Hup).
  split; cbn [pool cores pushes]; try done.
  - apply H.
  - destruct Hsame as [-> _]. apply H.
  - rewrite <-(inv_perm _ _ _ _ H), Hup, Hp. unfold nodes_of; cbn.
    transitivity (free' ++ held' ++ g_inbox g ++ rest); [solve_Permutation|].
    rewrite (assoc_L _ free'), Hperm. solve_Permutation.
  - rewrite length_insert, length_alter. apply H.
  - rewrite length_alter. intros j c' g' Hc' Hg'. destruct (decide (j = k)) as [->|Hj].
    + rewrite list_lookup_alter_eq, Hc in Hc'. injection Hc' as <-.
      rewrite list_lookup_insert_eq in Hg' by (by eapply lookup_lt_Some). injection Hg' as <-.
      destruct (inv_cores _ _ _ _ H k c g Hc Hg) as [Hi _ Hl]. split; cbn; [|done|].
      * eapply inbox_ok_same; [done|set_solver|done].
      * rewrite Hl, Htodo. by rewrite <-!(assoc_L _).
    + rewrite list_lookup_alter_ne in Hc' by done. rewrite list_lookup_insert_ne in Hg' by done.
      destruct (inv_cores _ _ _ _ H j c' g' Hc' Hg') as [Hi Ht Hl]. specialize (Hdo j g' Hj Hg').
      unfold nodes_of in Hdo. split; [| |done].
      * eapply inbox_ok_same; [done|set_solver|done].
      * eapply thread_ok_same; [done|set_solver|]. eapply thread_ok_free; [|done].
        rewrite (inv_len _ _ _ _ H). auto.
Qed.

(** A step that keeps the free list, and changes the thread's own nodes only. *)
Lemma inv_local N s free gs k c g pl' p m ev held' todo' :
  inv N s free gs -> cores s !! k = Some c -> gs !! k = Some g ->
  same_off (g_held g) (pool s) pl' -> free_list pl' = free_list (pool s) -> held' ≡ₚ g_held g ->
  thread_ok pl' free (pushes s) (length (cores s)) p m held' todo' -> g_todo g = log_got ev ++ todo' ->
  exists gs', inv N (mkSystem pl' (alter (set_thread p m ev) k (cores s)) (pushes s)) free gs'.
Proof.
  intros H Hc Hg Hsame Hfl Hperm Hth Htodo. exists (<[k := mkGhost (g_inbox g) (g_queue g) held' todo']> gs).
  destruct (held_disjoint _ _ _ _ _ _ H Hg) as (_ & Hdf & _).
  eapply inv_thread; eauto; [by rewrite Hperm|apply H|rewrite Hfl; apply H| |].
  - eapply chain_same; [done|done|]. apply H.
  - eapply empties_same; [done|done|]. apply H.
Qed.

(** A step that changes neither the inboxes nor what they have received. *)
Lemma set_inbox_id s j d ev :
  cores s !! j = Some d -> log_sent ev = [] -> alter (set_inbox (inbox d) ev) j (cores s) = cores s.
Proof.
  intros Hd Hev. apply list_eq. intros i. destruct (decide (i = j)) as [->|Hi].
  - rewrite list_lookup_alter_eq, Hd. cbn. unfold set_inbox. rewrite Hev, app_nil_r. by destruct d.
  - by rewrite list_lookup_alter_ne.
Qed.

(* ------------------------------------------------------------------ *)
(** ** Taking a node off the free list and returning one *)

Lemma inv_alloc N s free gs k c g t v idx h n :
  inv N s free gs -> cores s !! k = Some c -> gs !! k = Some g -> fresh s k ->
  pc c = Alloc t v (PopCas h n) -> free_list (pool s) = h -> idx = fst (unpack h) ->
  exists free' gs', inv N (mkSystem (set_free_list (pack n (snd (unpack h))) (pool s))
    (alter (set_thread (AllocCount t v idx) (seen c) Silent) k (cores s)) (pushes s)) free' gs'.
Proof.
  intros H Hc Hg Hfr Hpc Hh ->. specialize (Hfr _ _ _ _ _ Hc Hpc).
  destruct (inv_cores _ _ _ _ H k c g Hc Hg) as [_ Ht _]. rewrite Hpc in Ht. cbn in Ht.
  destruct Ht as (Hheld & Htodo & Hk & Hpend). rewrite (inv_len _ _ _ _ H) in Hpend.
  pose proof (inv_size _ _ _ _ H) as Hsize.
  rewrite (inv_head _ _ _ _ H) in Hh.
  destruct (pop_cas_current _ _ _ _ _ _ _ Hpend ltac:(unfold NULL in *; lia) Hfr eq_refl (chain_first_u32 _ _ _ (inv_chain _ _ _ _ H)) Hh)
    as (free' & Hf & -> & Hps).
  pose proof (inv_chain _ _ _ _ H) as Hch. pose proof (inv_empty _ _ _ _ H) as Hem.
  pose proof (inv_NoDup _ _ _ _ H) as Hnd. subst h. rewrite unpack_pack in * by
    (apply w32_range || eapply chain_first_u32, Hch). cbn [fst snd] in *.
  remember (first_of free) as i eqn:Hfirst. subst free. apply NoDup_app in Hnd as [Hnd _].
  destruct Hch as (_ & Hi & n & Hn & Hch). apply Forall_cons in Hem as [Hei Hem].
  assert (n = first_of free') as -> by (by eapply chain_first).
  exists free', (<[k := mkGhost (g_inbox g) (g_queue g) [i] []]> gs). eapply inv_thread; eauto.
  - by apply same_off_nodes.
  - rewrite Hheld, app_nil_r. apply (Permutation_app_comm free' [i]).
  - apply H.
  - by apply (chain_nodes (pool s)).
  - intros m pop. by apply pop_pending_pop.
  - cbn. split_and!; [done..|]. by constructor.
Qed.

Lemma inv_free N s free gs k c g count node nxt v h m :
  inv N s free gs -> cores s !! k = Some c -> gs !! k = Some g ->
  pc c = Free count node nxt v (PushCas h) -> free_list (pool s) = h ->
  exists free' gs', inv N (mkSystem (set_free_list (pack node (w32 (snd (unpack h) + 1))) (pool s))
    (alter (set_thread (FreeCount count nxt v) m Silent) k (cores s)) (pushes s + 1)) free' gs'.
Proof.
  intros H Hc Hg Hpc Hh. destruct (held_disjoint _ _ _ _ _ _ H Hg) as (Hnd & Hdf & _).
  destruct (inv_cores _ _ _ _ H k c g Hc Hg) as [_ Ht _]. rewrite Hpc in Ht. cbn [thread_ok] in Ht.
  destruct Ht as (rest & w & todo' & Hheld & Htodo & -> & Hch & Hpay & Hem & Hlink). cbn [free_linked] in Hlink.
  destruct (held_node_at _ _ _ _ _ _ node H Hg) as [Hb _]; [rewrite Hheld; left|].
  pose proof (inv_chain _ _ _ _ H) as Hcf. rewrite (inv_head _ _ _ _ H) in Hh. subst h.
  rewrite unpack_pack in * by (apply w32_range || eapply chain_first_u32, Hcf). cbn [fst snd] in *.
  exists (node :: free), (<[k := mkGhost (g_inbox g) (g_queue g) rest (w :: todo')]> gs). eapply inv_thread; eauto.
  - by apply same_off_nodes.
  - rewrite Hheld. apply Permutation_middle.
  - pose proof (inv_pushes _ _ _ _ H). lia.
  - cbn. f_equal. autorewrite with ints. done.
  - cbn. split_and!; [done|lia|unfold NULL in *; lia|]. exists (first_of free). split; [done|].
    by apply (chain_nodes (pool s)).
  - constructor; [by apply Forall_cons in Hem as [? _]|]. apply (inv_empty _ _ _ _ H).
  - intros n pop. apply pop_pending_push.
  - apply (thread_ok_nodes (pool s)); [done|]. cbn. eauto 10.
Qed.

(* ------------------------------------------------------------------ *)
(** ** Publishing on an inbox and detaching it *)

Lemma lookup_alter_at {A} (f : A -> A) (k : nat) (l : list A) j :
  alter f k l !! j = (if decide (j = k) then f else id) <$> l !! j.
Proof.
  case_decide as H; [subst; apply list_lookup_alter_eq|]. rewrite list_lookup_alter_ne by done.
  by destruct (l !! j).
Qed.

Lemma alter_as_insert {A} (f : A -> A) (k : nat) (l : list A) x :
  l !! k = Some x -> alter f k l = <[k := f x]> l.
Proof.
  intros Hx. apply list_eq. intros j. rewrite lookup_alter_at. case_decide as H.
  - subst j. by rewrite Hx, list_lookup_insert_eq by (by eapply lookup_lt_Some).
  - by rewrite list_lookup_insert_ne, option_fmap_id by done.
Qed.

Lemma inv_swap N s free gs k c g m :
  inv N s free gs -> cores s !! k = Some c -> gs !! k = Some g -> pc c = Swap ->
  exists gs', inv N (mkSystem (pool s)
    (alter (set_thread (Reverse NULL (inbox c)) m Silent) k (alter (set_inbox NULL Silent) k (cores s))) (pushes s))
    free gs'.
Proof.
  intros H Hc Hg Hpc. exists (<[k := mkGhost [] [] (g_inbox g) (g_queue g)]> gs).
  destruct (nodes_of_update gs k g Hg) as (rest & Hp & _ & Hup).
  destruct (inv_cores _ _ _ _ H k c g Hc Hg) as [[Hch Hpay] Ht Hl]. rewrite Hpc in Ht.
  destruct Ht as [Hheld Htodo].
  split; cbn [pool cores pushes]; try apply H.
  - rewrite <-(inv_perm _ _ _ _ H), Hup, Hp. unfold nodes_of; cbn. by rewrite Hheld, app_nil_r.
  - rewrite length_insert, !length_alter. apply H.
  - rewrite !length_alter. intros j c' g' Hc' Hg'. rewrite !lookup_alter_at in Hc'.
    destruct (decide (j = k)) as [->|Hj].
    + rewrite Hc in Hc'. injection Hc' as <-. rewrite list_lookup_insert_eq in Hg' by (by eapply lookup_lt_Some).
      injection Hg' as <-. split; cbn; [by split; [|constructor]| |].
      * exists [], (g_inbox g). by rewrite app_nil_r.
      * by rewrite !app_nil_r, Hl, Htodo.
    + rewrite list_lookup_insert_ne in Hg' by done. rewrite !option_fmap_id in Hc'. by eapply inv_cores.
Qed.

Lemma inv_publish N s free gs k c g t d idx h v m :
  inv N s free gs -> cores s !! k = Some c -> gs !! k = Some g -> cores s !! t = Some d ->
  pc c = Publish t v idx (InboxCas h) -> inbox d = h ->
  exists gs', inv N (mkSystem (pool s)
    (alter (set_thread Idle m (Sent t v)) k (alter (set_inbox idx (Sent t v)) t (cores s))) (pushes s)) free gs'.
Proof.
  intros H Hc Hg Hd Hpc Hh.
  set (g1 := mkGhost (g_inbox g) (g_queue g) [] []).
  set (add := fun g : Ghost T => mkGhost (idx :: g_inbox g) (g_queue g ++ [v]) (g_held g) (g_todo g)).
  exists (alter add t (<[k := g1]> gs)).
  destruct (inv_cores _ _ _ _ H k c g Hc Hg) as [_ Ht _]. rewrite Hpc in Ht. cbn [thread_ok] in Ht.
  destruct Ht as (Hheld & Htodo & _ & Hv & Hnext).
  destruct (held_node_at _ _ _ _ _ _ idx H Hg) as [Hb _]; [rewrite Hheld; left|].
  split; cbn [pool cores pushes]; try apply H.
  - rewrite <-(inv_perm _ _ _ _ H). f_equiv.
    destruct (nodes_of_update gs k g Hg) as (rest & -> & _ & Hup). specialize (Hup g1).
    destruct (lookup_lt_is_Some_2 (<[k := g1]> gs) t) as [gt Hgt].
    { rewrite length_insert, (inv_ghosts _ _ _ _ H). by eapply lookup_lt_Some. }
    destruct (nodes_of_update _ _ _ Hgt) as (rest' & Hp & _ & Hup').
    rewrite (alter_as_insert _ _ _ _ Hgt).
    rewrite (Hup' (add gt)). unfold nodes_of at 1. cbn [add g_inbox g_held].
    change ((idx :: g_inbox gt) ++ g_held gt) with (idx :: nodes_of gt). cbn. rewrite <-Hp, Hup.
    unfold nodes_of. cbn. rewrite Hheld. solve_Permutation.
  - rewrite !length_alter, length_insert. apply H.
  - rewrite !length_alter. intros j c' g' Hc' Hg'. rewrite !lookup_alter_at in Hc'. rewrite lookup_alter_at in Hg'.
    destruct (cores s !! j) as [c0|] eqn:Hc0; [|done]. injection Hc' as <-.
    destruct (inv_lookup _ _ _ _ _ _ H Hc0) as (g0 & Hg0 & [Hi0 Ht0 Hl0]).
    assert (j = t -> inbox_ok (pool s) idx (idx :: g_inbox g0) (g_queue g0 ++ [v])) as Hnew.
    { intros ->. rewrite Hd in Hc0. injection Hc0 as ->. destruct Hi0 as [Hch Hpay]. split.
      - cbn. split_and!; [done|lia|unfold NULL in *; lia|]. exists (inbox c0). split; [by rewrite Hh|done].
      - rewrite reverse_cons. by apply Forall2_app. }
    destruct (decide (j = k)) as [->|Hj].
    + rewrite list_lookup_insert_eq in Hg' by (by eapply lookup_lt_Some). injection Hg' as <-.
      rewrite Hg in Hg0. injection Hg0 as <-. rewrite Htodo in Hl0.
      case_decide as Hkt; split; cbn; rewrite ?app_nil_r; try done; [by apply Hnew|by rewrite Hl0, <-!(assoc_L _)].
    + rewrite list_lookup_insert_ne, Hg0 in Hg' by done. injection Hg' as <-.
      case_decide as Hkt; split; cbn; rewrite ?app_nil_r; try done; [by apply Hnew|by rewrite Hl0, <-!(assoc_L _)].
Qed.

(* ------------------------------------------------------------------ *)
(** ** Every access *)

Section access.
  Context (N : nat) (s : System T) (free : list Z) (gs : list (Ghost T)) (Hinv : inv N s free gs).
  Context (k : nat) (c : Core T) (g : Ghost T) (Hc : cores s !! k = Some c) (Hg : gs !! k = Some g).

(** The state after core [k] left the inboxes as they are. *)
Lemma inv_local_step j d pl' p m ev held' todo' :
  cores s !! j = Some d -> log_sent ev = [] ->
  same_off (g_held g) (pool s) pl' -> free_list pl' = free_list (pool s) -> held' ≡ₚ g_held g ->
  thread_ok pl' free (pushes s) (length (cores s)) p m held' todo' -> g_todo g = log_got ev ++ todo' ->
  exists free' gs', inv N (mkSystem pl' (alter (set_thread p m ev) k (alter (set_inbox (inbox d) ev) j (cores s)))
    (pushes s)) free' gs'.
Proof.
  intros Hd Hev Hsame Hfl Hperm Hth Htodo. rewrite (set_inbox_id _ _ _ _ Hd Hev). exists free.
  by eapply inv_local.
Qed.

(** ... and changed no node. *)
Lemma inv_quiet_step j d pl' p m ev held' todo' :
  cores s !! j = Some d -> log_sent ev = [] -> nodes pl' = nodes (pool s) ->
  free_list pl' = free_list (pool s) -> held' ≡ₚ g_held g ->
  thread_ok (pool s) free (pushes s) (length (cores s)) p m held' todo' -> g_todo g = log_got ev ++ todo' ->
  exists free' gs', inv N (mkSystem pl' (alter (set_thread p m ev) k (alter (set_inbox (inbox d) ev) j (cores s)))
    (pushes s)) free' gs'.
Proof.
  intros Hd Hev Hn Hfl Hperm Hth. eapply inv_local_step; eauto; [by apply same_off_nodes|].
  by apply (thread_ok_nodes (pool s)).
Qed.

Lemma held_load i : i ∈ g_held g -> exists n, node_at (pool s) i = Some n.
Proof. intros Hi. by destruct (held_node_at _ _ _ _ _ _ _ Hinv Hg Hi) as [_ [n Hn]]; eauto. Qed.

Lemma held_store i v : i ∈ g_held g -> exists pl', next_store (pool s) i v = Some pl'.
Proof. intros Hi. destruct (held_load i Hi) as [n Hn]. unfold next_store; cbn. rewrite Hn. eauto. Qed.

Lemma held_bounds i : i ∈ g_held g -> 0 <= i < NULL_INDEX.
Proof. intros Hi. by destruct (held_node_at _ _ _ _ _ _ _ Hinv Hg Hi). Qed.

(** The pending pop after its load of the head word. *)
Lemma pop_pending_load :
  fst (unpack (free_list (pool s))) <> NULL_INDEX ->
  pop_pending (Z.of_nat N) free (pushes s) (pushes s) (PopNext (free_list (pool s))).
Proof.
  pose proof (inv_chain _ _ _ _ Hinv) as Hch. rewrite (inv_head _ _ _ _ Hinv), unpack_pack
    by (apply w32_range || by eapply chain_first_u32). cbn [fst]. intros Hne.
  destruct free as [|i free0] eqn:Hf; [done|]. cbn in *. exists i. pose proof (inv_pushes _ _ _ _ Hinv).
  split_and!; [done| | |lia|lia|eauto];
    (assert (i ∈ seqZ 0 (Z.of_nat N)) as Hi%elem_of_seqZ by (rewrite <-(inv_perm _ _ _ _ Hinv); set_solver); lia).
Qed.

Lemma free_empty : fst (unpack (free_list (pool s))) = NULL_INDEX -> free = [].
Proof.
  pose proof (inv_chain _ _ _ _ Hinv) as Hch. rewrite (inv_head _ _ _ _ Hinv), unpack_pack
    by (apply w32_range || by eapply chain_first_u32). cbn [fst]. intros Hn. rewrite Hn in Hch.
  by eapply chain_at_null.
Qed.

(** ... and after its load of the link. *)
Lemma pop_pending_next m h :
  pop_pending (Z.of_nat N) free (pushes s) m (PopNext h) ->
  exists n, next_load (pool s) (fst (unpack h)) = Some n /\
    pop_pending (Z.of_nat N) free (pushes s) m (PopCas h n).
Proof.
  intros (idx & -> & Hidx & Hm & Hp). pose proof (inv_size _ _ _ _ Hinv) as Hsz. unfold NULL, NULL_INDEX in Hsz.
  rewrite unpack_pack by (apply w32_range || (unfold is_u32; lia)). cbn [fst].
  destruct (inv_node_at _ _ _ _ idx Hinv) as (_ & n & Hn).
  { rewrite (inv_perm _ _ _ _ Hinv). apply elem_of_seqZ. lia. }
  exists (next n). split; [unfold next_load; cbn; by rewrite Hn|]. exists idx. split_and!; try done; try lia.
  intros Hv. destruct (Hp Hv) as [|[free' Hf]]; [by left|]. right. exists free'. split; [done|].
  pose proof (inv_chain _ _ _ _ Hinv) as Hch. rewrite Hf in Hch. destruct Hch as (_ & _ & n' & Hn' & Hch).
  unfold next_load in Hn'; cbn in Hn'. rewrite Hn in Hn'. injection Hn' as ->. by eapply chain_first.
Qed.

Lemma inv_distribute t d weak p pl head ev :
  fresh s k -> distributing (pc c) = Some t -> cores s !! t = Some d ->
  distribute weak (pc c) (inbox d) (pool s) = (p, pl, head, ev) ->
  exists free' gs', inv N (mkSystem pl (alter (set_thread p (seen_after s c) ev) k
    (alter (set_inbox head ev) t (cores s))) (pushes_after s (pc c) p)) free' gs'.
Proof.
  intros Hfr Ht Hd Hrun. destruct (inv_cores _ _ _ _ Hinv k c g Hc Hg) as [_ Hth _].
  unfold seen_after. destruct (pc c) as [|t' v pop|t' v idx|t' v idx|t' v idx push| | | | | | | | |] eqn:Hpc; try done;
    injection Ht as ->; cbn [thread_ok pushes_after] in *.
  - destruct Hth as (Hh & Htd & Hk & Hpop). rewrite (inv_len _ _ _ _ Hinv) in Hpop.
    unfold distribute, alloc_access, stack_pop in Hrun. destruct pop as [|h|h n].
    + destruct (fst (unpack (free_list (pool s))) =? NULL_INDEX) eqn:En; bool_to_prop; injection Hrun as <- <- <- <-.
      * apply (inv_quiet_step _ _ _ _ _ _ [] []); by rewrite ?Hh, ?Htd.
      * apply (inv_quiet_step _ _ _ _ _ _ [] []); rewrite ?Hh, ?Htd; try done. cbn.
        rewrite (inv_len _ _ _ _ Hinv). split_and!; try done. by apply pop_pending_load.
    + destruct (pop_pending_next _ _ Hpop) as (n & Hn & Hpop'). rewrite Hn in Hrun. injection Hrun as <- <- <- <-.
      apply (inv_quiet_step _ _ _ _ _ _ [] []); rewrite ?Hh, ?Htd; try done. cbn [thread_ok].
      by rewrite (inv_len _ _ _ _ Hinv).
    + destruct (weak && (free_list (pool s) =? h)) eqn:Ew; injection Hrun as <- <- <- <-; bool_to_prop.
      * rewrite set_inbox_id by done. by eapply inv_alloc.
      * apply (inv_quiet_step _ _ _ _ _ _ [] []); by rewrite ?Hh, ?Htd.
  - destruct Hth as (Hh & Htd & Hk & He). injection Hrun as <- <- <- <-.
    apply (inv_quiet_step _ _ _ _ _ _ [idx] []); by rewrite ?Hh, ?Htd.
  - destruct Hth as (Hh & Htd & Hk & He). destruct (held_load idx) as [n Hn]; [rewrite Hh; left|].
    cbn in Hrun. unfold node_store in Hrun. rewrite Hn in Hrun. injection Hrun as <- <- <- <-.
    apply (inv_local_step _ _ _ _ _ _ [idx] []); rewrite ?Hh, ?Htd; try done.
    + eapply same_off_node_set; [done|left].
    + cbn. split_and!; try done. constructor; [|constructor]. eexists.
      by rewrite (node_at_set _ _ _ _ _ Hn), decide_True.
  - destruct Hth as (Hh & Htd & Hk & Hv & Hn). destruct (held_load idx) as [n Hat]; [rewrite Hh; left|].
    cbn [distribute] in Hrun. unfold inbox_push in Hrun. destruct push as [|h|h].
    + injection Hrun as <- <- <- <-. apply (inv_quiet_step _ _ _ _ _ _ [idx] []); rewrite ?Hh, ?Htd; try done.
    + unfold next_store in Hrun; cbn in Hrun. rewrite Hat in Hrun. injection Hrun as <- <- <- <-.
      apply (inv_local_step _ _ _ _ _ _ [idx] []); rewrite ?Hh, ?Htd; try done.
      * eapply same_off_node_set; [done|left].
      * apply Forall2_cons_1 in Hv as [(n' & Hn' & Hv) _]. rewrite Hat in Hn'. injection Hn' as <-.
        cbn. rewrite (node_at_set _ _ _ _ _ Hat), decide_True by done. split_and!; try done.
        constructor; [|constructor]. eexists. by rewrite (node_at_set _ _ _ _ _ Hat), decide_True.
    + destruct (weak && (inbox d =? h)) eqn:Ew; injection Hrun as <- <- <- <-; bool_to_prop.
      * exists free. by eapply inv_publish.
      * apply (inv_quiet_step _ _ _ _ _ _ [idx] []); rewrite ?Hh, ?Htd; done.
Qed.

Lemma inv_reverse weak fifo node p pl head ev :
  pc c = Reverse fifo node -> drain_each weak (pc c) (inbox c) (pool s) = (p, pl, head, ev) ->
  exists free' gs', inv N (mkSystem pl (alter (set_thread p (seen c) ev) k
    (alter (set_inbox head ev) k (cores s))) (pushes s)) free' gs'.
Proof.
  intros Hpc Hrun. destruct (inv_cores _ _ _ _ Hinv k c g Hc Hg) as [_ Hth _]. rewrite Hpc in *.
  cbn [thread_ok drain_each] in *. destruct Hth as (dn & rest & Hh & H1 & H2 & H3).
  destruct (node =? NULL) eqn:En; bool_to_prop.
  - injection Hrun as <- <- <- <-. subst node. apply chain_at_null in H2. subst rest.
    eapply (inv_quiet_step _ _ _ _ _ _ dn (g_todo g)); try done. by rewrite Hh, app_nil_r.
  - destruct (chain_cons _ _ _ H2 En) as (n & rest' & -> & Hn & H2'). rewrite Hn in Hrun.
    injection Hrun as <- <- <- <-. eapply (inv_quiet_step _ _ _ _ _ _ (g_held g) (g_todo g)); try done.
    cbn. exists dn, rest'. split_and!; done.
Qed.

Lemma inv_reverse_link weak fifo node n p pl head ev :
  pc c = ReverseLink fifo node n -> drain_each weak (pc c) (inbox c) (pool s) = (p, pl, head, ev) ->
  exists free' gs', inv N (mkSystem pl (alter (set_thread p (seen c) ev) k
    (alter (set_inbox head ev) k (cores s))) (pushes s)) free' gs'.
Proof.
  intros Hpc Hrun. destruct (inv_cores _ _ _ _ Hinv k c g Hc Hg) as [_ Hth _]. rewrite Hpc in *.
  cbn [thread_ok drain_each] in *. destruct Hth as (dn & rest & Hh & H1 & H2 & H3).
  destruct (held_disjoint _ _ _ _ _ _ Hinv Hg) as (Hnd & _). rewrite Hh in Hnd.
  apply NoDup_app in Hnd as (_ & Hnd1 & [Hnd2 _]%NoDup_cons).
  assert (node ∈ g_held g) as Hin by (rewrite Hh; set_solver).
  destruct (held_store node fifo Hin) as [pl' Hs]. rewrite Hs in Hrun. injection Hrun as <- <- <- <-.
  eapply (inv_local_step _ _ _ _ _ _ (node :: dn ++ rest) (g_todo g)); try done;
    [by eapply same_off_link|by eapply free_list_link|by rewrite Hh, Permutation_middle|].
  cbn [thread_ok]. exists (node :: dn), rest. split_and!; [done| | |].
  - eapply chain_link; [done|by apply held_bounds|set_solver|done].
  - by eapply chain_store.
  - eapply payloads_link; [done|]. by rewrite reverse_cons, <-(assoc_L _) in H3.
Qed.

Lemma inv_walk weak count node p pl head ev :
  pc c = WalkNext count node -> drain_each weak (pc c) (inbox c) (pool s) = (p, pl, head, ev) ->
  exists free' gs', inv N (mkSystem pl (alter (set_thread p (seen c) ev) k
    (alter (set_inbox head ev) k (cores s))) (pushes s)) free' gs'.
Proof.
  intros Hpc Hrun. destruct (inv_cores _ _ _ _ Hinv k c g Hc Hg) as [_ Hth _]. rewrite Hpc in *.
  cbn [thread_ok drain_each] in *. destruct Hth as (H1 & H2). destruct (node =? NULL) eqn:En; bool_to_prop.
  - injection Hrun as <- <- <- <-. subst node. apply chain_at_null in H1. rewrite H1 in H2. inversion H2.
    apply (inv_quiet_step _ _ _ _ _ _ [] []); by rewrite ?H1.
  - destruct (chain_cons _ _ _ H1 En) as (n & rest' & Hh & Hn & H1'). rewrite Hn in Hrun.
    injection Hrun as <- <- <- <-. apply (inv_quiet_step _ _ _ _ _ _ (g_held g) (g_todo g)); try done.
    cbn. eauto.
Qed.

Lemma inv_take weak count node n p pl head ev :
  pc c = Take count node n -> drain_each weak (pc c) (inbox c) (pool s) = (p, pl, head, ev) ->
  exists free' gs', inv N (mkSystem pl (alter (set_thread p (seen c) ev) k
    (alter (set_inbox head ev) k (cores s))) (pushes s)) free' gs'.
Proof.
  intros Hpc Hrun. destruct (inv_cores _ _ _ _ Hinv k c g Hc Hg) as [_ Hth _]. rewrite Hpc in *.
  cbn [thread_ok drain_each] in *. destruct Hth as (rest & Hh & H1 & H2). rewrite Hh in H2.
  destruct (held_disjoint _ _ _ _ _ _ Hinv Hg) as (Hnd & _). rewrite Hh in Hnd. apply NoDup_cons in Hnd as [Hni _].
  apply Forall2_cons_inv_l in H2 as (w & todo' & (n0 & Hn0 & Hw) & H2 & Htd).
  unfold node_take in Hrun. rewrite Hn0 in Hrun. injection Hrun as <- <- <- <-.
  assert (same_off [node] (pool s) (node_set (pool s) node (mkRxNode (next n0) None))) as Hso
    by (eapply same_off_node_set; [done|left]).
  apply (inv_local_step _ _ _ _ _ _ (node :: rest) (w :: todo')); try done; [|by rewrite Hh|].
  - eapply same_off_node_set; [done|]. rewrite Hh. left.
  - cbn [thread_ok]. exists rest, w, todo'. split_and!; try done.
    + eapply chain_same; [done|set_solver|done].
    + eapply payloads_same; [done|set_solver|done].
    + constructor; [|constructor]. eexists. by rewrite (node_at_set _ _ _ _ _ Hn0), decide_True.
Qed.

Lemma inv_free_access weak count node n v push p pl head ev :
  pc c = Free count node n v push -> drain_each weak (pc c) (inbox c) (pool s) = (p, pl, head, ev) ->
  exists free' gs', inv N (mkSystem pl (alter (set_thread p (seen c) ev) k
    (alter (set_inbox head ev) k (cores s))) (pushes_after s (pc c) p)) free' gs'.
Proof.
  intros Hpc Hrun. destruct (inv_cores _ _ _ _ Hinv k c g Hc Hg) as [_ Hth _].
  unfold drain_each, free_access, stack_push in Hrun. rewrite Hpc in Hth, Hrun.
  pose proof Hth as (rest & w & todo' & Hh & Htd & -> & H1 & H2 & H3 & H4).
  destruct (held_disjoint _ _ _ _ _ _ Hinv Hg) as (Hnd & _). rewrite Hh in Hnd. apply NoDup_cons in Hnd as [Hni _].
  destruct push as [|h|h].
  - injection Hrun as <- <- <- <-. rewrite Hpc.
    apply (inv_quiet_step _ _ _ _ _ _ (g_held g) (g_todo g)); try done; cbn; eauto 10.
  - destruct (held_store node (fst (unpack h))) as [pl' Hs]; [rewrite Hh; left|]. rewrite Hs in Hrun.
    injection Hrun as <- <- <- <-. rewrite Hpc.
    apply (inv_local_step _ _ _ _ _ _ (g_held g) (g_todo g)); try done.
    + apply (same_off_link _ _ _ _ _ Hs). rewrite Hh. left.
    + apply (thread_ok_nodes pl'); [done|]. cbn [thread_ok]. exists rest, w, todo'. split_and!; try done.
      * by eapply chain_store.
      * by eapply payloads_link.
      * by eapply empties_link.
      * cbn [free_linked]. by eapply next_load_store.
  - destruct (weak && (free_list (pool s) =? h)) eqn:Ew; injection Hrun as <- <- <- <-; bool_to_prop;
      rewrite Hpc; cbn [pushes_after].
    + rewrite set_inbox_id by done. by eapply inv_free.
    + apply (inv_quiet_step _ _ _ _ _ _ (g_held g) (g_todo g)); try done. cbn. eauto 10.
Qed.

Lemma inv_drain weak p pl head ev :
  distributing (pc c) = None -> drain_each weak (pc c) (inbox c) (pool s) = (p, pl, head, ev) ->
  exists free' gs', inv N (mkSystem pl (alter (set_thread p (seen_after s c) ev) k
    (alter (set_inbox head ev) k (cores s))) (pushes_after s (pc c) p)) free' gs'.
Proof.
  intros Hdist Hrun. pose proof (inv_cores _ _ _ _ Hinv k c g Hc Hg) as [_ Hth _].
  unfold seen_after. destruct (pc c) eqn:Hpc; try done; rewrite <-Hpc in Hrun;
    try first [by eapply inv_reverse | by eapply inv_reverse_link | by eapply inv_walk | by eapply inv_take].
  - rewrite Hpc in Hrun. injection Hrun as <- <- <- <-.
    destruct Hth as [Hh Htd]. apply (inv_quiet_step _ _ _ _ _ _ [] []); by rewrite ?Hh, ?Htd.
  - rewrite Hpc in Hrun. injection Hrun as <- <- <- <-. exists free. by eapply inv_swap.
  - pose proof (inv_free_access _ _ _ _ _ _ _ _ _ _ Hpc Hrun) as H. by rewrite Hpc in H.
  - rewrite Hpc in Hrun. injection Hrun as <- <- <- <-. destruct Hth as (w & todo' & Htd & -> & H1 & H2).
    apply (inv_quiet_step _ _ _ _ _ _ (g_held g) (g_todo g)); try done. cbn. eauto 10.
  - rewrite Hpc in Hrun. injection Hrun as <- <- <- <-. destruct Hth as (w & todo' & Htd & -> & H1 & H2).
    by apply (inv_quiet_step _ _ _ _ _ _ (g_held g) todo').
Qed.

End access.

(* ------------------------------------------------------------------ *)
(** ** Every execution *)

Lemma inv_run N s free gs k weak s' ev :
  inv N s free gs -> fresh s k -> run k weak s = Some (s', ev) -> exists free' gs', inv N s' free' gs'.
Proof.
  intros H Hfr. unfold run. destruct (cores s !! k) as [c|] eqn:Hc; [|done].
  destruct (inv_lookup _ _ _ _ _ _ H Hc) as (g & Hg & _). cbn. unfold access.
  destruct (distributing (pc c)) as [t|] eqn:Ht; cbn.
  - destruct (cores s !! t) as [d|] eqn:Hd; [|done]. cbn.
    destruct (distribute weak (pc c) (inbox d) (pool s)) as [[[p pl] head] ev'] eqn:E. intros [= <- <-].
    by eapply inv_distribute.
  - rewrite Hc. cbn. destruct (drain_each weak (pc c) (inbox c) (pool s)) as [[[p pl] head] ev'] eqn:E.
    intros [= <- <-]. by eapply inv_drain.
Qed.

Lemma inv_call N s free gs k c p :
  inv N s free gs -> cores s !! k = Some c -> pc c = Idle ->
  p = Swap \/ (exists t v, p = Alloc t v PopLoad /\ (t < length (cores s))%nat) ->
  exists free' gs', inv N (call k p s) free' gs'.
Proof.
  intros H Hc Hpc Hp. destruct (inv_lookup _ _ _ _ _ _ H Hc) as (g & Hg & [_ Hth _]). rewrite Hpc in Hth.
  destruct Hth as [Hh Htd].
  assert (call k p s = mkSystem (pool s) (alter (set_thread p (seen c) Silent) k
    (alter (set_inbox (inbox c) Silent) k (cores s))) (pushes s)) as ->.
  { unfold call. rewrite set_inbox_id by done. rewrite !(alter_as_insert _ _ _ _ Hc). unfold set_thread.
    by rewrite app_nil_r. }
  apply (inv_quiet_step _ _ _ _ H _ _ _ Hc Hg _ _ _ _ _ _ [] []); rewrite ?Hh, ?Htd; try done.
  destruct Hp as [->|(t & v & -> & Ht)]; by cbn.
Qed.

Lemma inv_step N s free gs ev s' : inv N s free gs -> step s ev s' -> exists free' gs', inv N s' free' gs'.
Proof. intros H [k c t v Hc Hpc Ht|k c Hc Hpc|k weak s'' ev' Hfr Hrun]; eauto using inv_call, inv_run. eapply inv_call; eauto 10. Qed.

Lemma init_node N i : (i < N)%nat ->
  nodes (pool_init (pool_new (T:=T) N)) !! i = Some (mkRxNode (if Z.of_nat i + 1 <? Z.of_nat N then w32 (Z.of_nat i + 1) else NULL) None).
Proof.
  intros Hi. unfold pool_init, init_links. cbn [nodes pool_new]. rewrite list_lookup_imap, lookup_replicate_2 by done.
  cbn. by rewrite length_replicate.
Qed.

Lemma init_chain N i : Z.of_nat N < NULL -> (i <= N)%nat ->
  chain (pool_init (pool_new (T:=T) N)) (if Z.of_nat i <? Z.of_nat N then Z.of_nat i else NULL) (seqZ (Z.of_nat i) (Z.of_nat N - Z.of_nat i)).
Proof.
  intros HN. remember (N - i)%nat as m eqn:Hm. revert i Hm. induction m as [|m IH]; intros i Hm Hi.
  - rewrite (proj2 (Z.ltb_ge _ _)) by lia. by rewrite seqZ_nil by lia.
  - rewrite (proj2 (Z.ltb_lt _ _)) by lia. rewrite seqZ_cons by lia. unfold NULL in *. cbn [chain].
    split_and!; [done|lia|lia|]. eexists. split.
    + unfold next_load; cbn. unfold node_at. rewrite (proj2 (Z.leb_le _ _)), Nat2Z.id, init_node by lia. done.
    + cbn [next]. specialize (IH (S i) ltac:(lia) ltac:(lia)).
      replace (Z.of_nat (S i)) with (Z.of_nat i + 1) in IH by lia.
      rewrite w32_small by (unfold NULL_INDEX in *; int_lia).
      by replace (Z.pred (Z.of_nat N - Z.of_nat i)) with (Z.of_nat N - (Z.of_nat i + 1)) by lia.
Qed.

Lemma system_init_inv N n : Z.of_nat N < NULL ->
  inv N (system_init (T:=T) N n) (seqZ 0 (Z.of_nat N)) (replicate n (mkGhost [] [] [] [])).
Proof.
  intros HN. pose proof (init_chain N 0 HN ltac:(lia)) as Hch. rewrite Z.sub_0_r in Hch. change (Z.of_nat 0) with 0 in Hch.
  assert (length (nodes (pool_init (pool_new (T:=T) N))) = N) as Hlen.
  { unfold pool_init, init_links. cbn [nodes pool_new]. by rewrite length_imap, length_replicate. }
  split; cbn [system_init pool cores pushes]; try done.
  - rewrite fmap_replicate. cbn. assert (concat (replicate n (@nil Z)) = []) as ->; [|by rewrite app_nil_r].
    induction n; done.
  - rewrite <-(chain_first _ _ _ Hch). cbn. rewrite length_replicate. do 2 f_equal. f_equal.
    destruct N; done.
  - by rewrite <-(chain_first _ _ _ Hch).
  - apply Forall_forall. intros i Hi%elem_of_seqZ. eexists. unfold node_at.
    rewrite (proj2 (Z.leb_le _ _)), init_node by lia. done.
  - by rewrite !length_replicate.
  - intros k c g Hc Hg. apply lookup_replicate in Hc as [-> _], Hg as [-> _]. split; cbn; [|done|done].
    split; [done|constructor].
Qed.

Lemma inv_reachable N n s :
  Z.of_nat N < NULL -> reachable (system_init N n) s -> exists free gs, inv N s free gs.
Proof.
  intros HN. induction 1 as [|s ev s' _ (free & gs & IH) Hs]; [eauto using system_init_inv|]. by eapply inv_step.
Qed.

End proofs.
