(* ===== verification/RxInboxProps.v ===== *)
(** * What the hand-off inbox guarantees

    Delivery is exactly once and in publication order, the pool runs dry only
    when more payloads are in flight than it has nodes, and a core that is left
    alone completes its call. *)

From S2P Require Import Prelude.
From S2P Require Import Treiber.
From S2P Require Import RxInbox.
From S2P Require Import RxInboxInv.

(* ------------------------------------------------------------------ *)
(** ** Schedules *)

(** One decision of a schedule. *)
Inductive Command (T : Type) :=
  | Distribute (k target : nat) (v : T)
  | Drain (k : nat)
  | Run (k : nat) (weak : bool).
Arguments Distribute {_} _ _ _.
Arguments Drain {_} _.
Arguments Run {_} _ _.

Section schedules.
  Context {T : Type}.

Definition is_idle (p : Pc T) : bool := match p with Idle => true | _ => false end.

Definition fresh_dec (s : System T) (k : nat) : bool :=
  match cores s !! k with
  | Some c => match pc c with Alloc _ _ (PopCas _ _) => pushes s - seen c <? 4294967296 | _ => true end
  | None => true
  end.

Definition command (cmd : Command T) (s : System T) : option (System T) :=
  match cmd with
  | Distribute k t v =>
      c ← cores s !! k;
      if is_idle (pc c) && (t <? length (cores s))%nat then Some (call k (Alloc t v PopLoad) s) else None
  | Drain k => c ← cores s !! k; if is_idle (pc c) then Some (call k Swap s) else None
  | Run k weak => if fresh_dec s k then fst <$> run k weak s else None
  end.

Fixpoint schedule (cmds : list (Command T)) (s : System T) : option (System T) :=
  match cmds with
  | [] => Some s
  | cmd :: cmds => s' ← command cmd s; schedule cmds s'
  end.

Lemma fresh_dec_spec (s : System T) k : fresh_dec s k = true -> fresh s k.
Proof. unfold fresh_dec, fresh. intros H c t v h n Hc Hpc. rewrite Hc, Hpc in H. by bool_to_prop. Qed.

Lemma command_step cmd (s s' : System T) : command cmd s = Some s' -> exists ev, step s ev s'.
Proof.
  destruct cmd as [k t v|k|k weak]; cbn.
  - destruct (cores s !! k) as [c|] eqn:Hc; [|done]. cbn. destruct (pc c) eqn:Hpc; try done. cbn.
    case_match eqn:Et; [|done]. intros [= <-]. apply Nat.ltb_lt in Et. eexists. by eapply step_distribute.
  - destruct (cores s !! k) as [c|] eqn:Hc; [|done]. cbn. destruct (pc c) eqn:Hpc; try done. cbn.
    intros [= <-]. eexists. by eapply step_drain.
  - destruct (fresh_dec s k) eqn:Hf; [|done]. destruct (run k weak s) as [[s1 ev]|] eqn:Hr; [|done].
    intros [= <-]. exists ev. eapply step_run; [by apply fresh_dec_spec|done].
Qed.

Lemma schedule_reachable cmds (s0 s s' : System T) :
  reachable s0 s -> schedule cmds s = Some s' -> reachable s0 s'.
Proof.
  revert s. induction cmds as [|cmd cmds IH]; intros s Hs; cbn; [by intros [= <-]|].
  destruct (command cmd s) as [s1|] eqn:E; [|done]. destruct (command_step _ _ _ E) as [ev Hev].
  apply IH. by econstructor.
Qed.

(** Core [k] performs [n] accesses. *)
Definition runs (k n : nat) : list (Command T) := replicate n (Run k true).

End schedules.

(* ------------------------------------------------------------------ *)
(** ** Exactly once, in order *)

(** C16: in every interleaving of any number of cores distributing payloads to
    each other and draining their inboxes, no access is out of bounds, what a core
    has delivered is a prefix of what was published to it (each payload once, in
    publication order, none lost and none invented), and when the core is idle
    with an empty inbox it has delivered everything.  The one assumption is that
    fewer than [2^32] pushes fall into the window of a single pop of the free
    list. *)
Theorem inbox_fifo_exactly_once {T : Type} (N n : nat) (s : System T) k c :
  Z.of_nat N < NULL -> reachable (system_init N n) s -> cores s !! k = Some c ->
  pc c <> Panicked /\ got c `prefix_of` sent c /\
  (pc c = Idle -> inbox_is_empty (inbox c) = true -> got c = sent c).
Proof.
  intros HN Hr Hc. destruct (inv_reachable _ _ _ HN Hr) as (free & gs & H).
  destruct (inv_lookup _ _ _ _ _ _ H Hc) as (g & Hg & [[Hch Hpay] Hth Hlog]). split_and!.
  - intros E. by rewrite E in Hth.
  - rewrite Hlog. by exists (g_todo g ++ g_queue g).
  - intros E He. rewrite E in Hth. destruct Hth as [_ Htodo]. unfold inbox_is_empty in He. bool_to_prop.
    rewrite He in Hch. apply chain_at_null in Hch. rewrite Hch, reverse_nil in Hpay.
    apply Forall2_nil_inv_l in Hpay. by rewrite Hlog, Htodo, Hpay, app_nil_r.
Qed.

(** Cores 0 and 2 race to publish on core 1 from a pool of three nodes while core
    1 drains: core 1 has detached the first payload before the others arrive. *)
Definition race : list (Command Z) :=
  [Distribute 0 1 10] ++ runs 0 8 ++ [Distribute 0 1 11; Distribute 2 1 12; Drain 1] ++
  runs 0 2 ++ runs 2 3 ++ runs 1 4 ++ runs 0 1 ++ runs 2 5 ++ runs 0 8 ++ runs 1 20 ++ [Drain 1] ++ runs 1 40.

Lemma inbox_fifo_exactly_once_witness :
  exists s c, schedule race (system_init 3 3) = Some s /\ cores s !! 1%nat = Some c /\
    sent c = [10; 12; 11] /\ got c `prefix_of` sent c.
Proof.
  destruct (schedule race (system_init 3 3)) as [s|] eqn:E; [|by vm_compute in E].
  destruct (cores s !! 1%nat) as [c|] eqn:Hc; [|by vm_compute in E; injection E as <-; vm_compute in Hc].
  exists s, c. split_and!; [done..| |].
  - vm_compute in E. injection E as <-. vm_compute in Hc. by injection Hc as <-.
  - apply (inbox_fifo_exactly_once 3 3 s 1 c); [done| |done].
    eapply schedule_reachable; [constructor|exact E].
Defined.

(* ------------------------------------------------------------------ *)
(** ** The pool never runs dry *)

(** The payloads a core accounts for: published to it and not delivered, and the
    one it is distributing. *)
Definition core_flight {T : Type} (c : Core T) : nat :=
  length (sent c) - length (got c) + match distributing (pc c) with Some _ => 1 | None => 0 end.

Definition in_flight {T : Type} (s : System T) : nat := sum_list (core_flight <$> cores s).

Section exhaustion.
  Context {T : Type}.

(** Every node in use carries a payload, or waits for the one being distributed. *)
Lemma held_le_todo pl free npush ncores (p : Pc T) m held todo :
  thread_ok pl free npush ncores p m held todo ->
  (length held <= length todo + match distributing p with Some _ => 1 | None => 0 end)%nat.
Proof.
  destruct p; cbn [thread_ok distributing]; intros H; repeat match goal with
    | H : exists _, _ |- _ => destruct H
    | H : _ /\ _ |- _ => destruct H
    | H : payloads _ _ _ |- _ => apply Forall2_length in H
    end; subst; rewrite ?length_app, ?length_reverse in *; cbn in *; try done; try lia.
Qed.

Lemma nodes_le_flight pl free npush ncores (c : Core T) g :
  core_ok pl free npush ncores c g ->
  (length (nodes_of g) <= core_flight c)%nat /\
  ((exists t v pop, pc c = Alloc t v pop) -> length (nodes_of g) < core_flight c)%nat.
Proof.
  intros [[_ Hpay] Hth Hlog]. apply Forall2_length in Hpay. rewrite length_reverse in Hpay.
  unfold core_flight, nodes_of. rewrite Hlog, !length_app. pose proof (held_le_todo _ _ _ _ _ _ _ _ Hth).
  split; [lia|]. intros (t & v & pop & E). rewrite E in *. cbn in Hth. destruct Hth as (-> & -> & _). cbn. lia.
Qed.

Lemma nodes_le_in_flight (cs : list (Core T)) (gs : list (Ghost T)) k :
  Forall2 (fun c g => length (nodes_of g) <= core_flight c)%nat cs gs ->
  (length (concat (nodes_of <$> gs)) <= sum_list (core_flight <$> cs))%nat /\
  ((exists c g, cs !! k = Some c /\ gs !! k = Some g /\ length (nodes_of g) < core_flight c)%nat ->
   length (concat (nodes_of <$> gs)) < sum_list (core_flight <$> cs))%nat.
Proof.
  intros H. revert k. induction H as [|c g cs gs Hcg H IH]; intros k; [split; [done|]; by intros (? & ? & ? & _)|].
  cbn. rewrite length_app. destruct k as [|k].
  - destruct (IH 0%nat) as [IH1 _]. split; [lia|]. intros (? & ? & [= <-] & [= <-] & ?). lia.
  - destruct (IH k) as [IH1 IH2]. split; [lia|]. intros Hk. specialize (IH2 Hk). lia.
Qed.

Lemma access_refused weak (p p' : Pc T) head head' pl pl' v :
  access weak p head pl = (p', pl', head', Refused v) ->
  (exists t, p = Alloc t v PopLoad) /\ fst (unpack (free_list pl)) = NULL_INDEX.
Proof.
  unfold access. destruct p as [|t v0 pop|t v0 idx|t v0 idx|t v0 idx push| |f n|f n x|ct n|ct n x|ct n x w push| |ct n [w|]|];
    cbn [distributing]; unfold distribute, drain_each, alloc_access, stack_pop; try done.
  - destruct pop; repeat case_match; intros; simplify_eq. bool_to_prop. eauto.
  - repeat case_match; intros; simplify_eq/=.
  - destruct push; cbn; repeat case_match; intros; simplify_eq/=.
  - repeat case_match; intros; simplify_eq/=.
  - repeat case_match; intros; simplify_eq/=.
  - repeat case_match; intros; simplify_eq/=.
  - repeat case_match; intros; simplify_eq/=.
  - destruct push; cbn; repeat case_match; intros; simplify_eq/=.
Qed.

Lemma refused_at k weak (s s' : System T) v :
  run k weak s = Some (s', Refused v) ->
  exists c t, cores s !! k = Some c /\ pc c = Alloc t v PopLoad /\
    fst (unpack (free_list (pool s))) = NULL_INDEX.
Proof.
  unfold run. destruct (cores s !! k) as [c|] eqn:Hc; [|done]. cbn.
  destruct (cores s !! default k (distributing (pc c))) as [d|]; [|done]. cbn.
  destruct (access weak (pc c) (inbox d) (pool s)) as [[[p pl] head] ev] eqn:E. intros [= _ ->].
  destruct (access_refused _ _ _ _ _ _ _ _ E) as [[t Ht] Hn]. eauto.
Qed.

End exhaustion.

(** the pool-sizing argument of the module: [distribute] hands a payload
    back only if, at that moment, more payloads are in flight (being distributed,
    parked on an inbox, or detached and not yet delivered, this one included) than
    the pool has nodes. *)
Theorem distribute_refuses_only_when_exhausted {T : Type} (N n : nat) (s s' : System T) k weak v :
  Z.of_nat N < NULL -> reachable (system_init N n) s -> run k weak s = Some (s', Refused v) ->
  (N < in_flight s)%nat.
Proof.
  intros HN Hr Hrun. destruct (inv_reachable _ _ _ HN Hr) as (free & gs & H).
  destruct (refused_at _ _ _ _ _ Hrun) as (c & t & Hc & Hpc & Hnull).
  apply (free_empty _ _ _ _ H) in Hnull. subst free. destruct (inv_lookup _ _ _ _ _ _ H Hc) as (g & Hg & Hok).
  destruct (nodes_le_in_flight (cores s) gs k) as [_ Hlt].
  - apply Forall2_same_length_lookup_2; [symmetry; apply H|]. intros j c' g' Hc' Hg'.
    by eapply nodes_le_flight, (inv_cores _ _ _ _ H j).
  - pose proof (inv_perm _ _ _ _ H) as Hp%Permutation_length. rewrite length_seqZ in Hp. cbn in Hp.
    enough (length (concat (nodes_of <$> gs)) < in_flight s)%nat by lia. apply Hlt. exists c, g.
    split_and!; [done..|]. eapply nodes_le_flight; eauto.
Qed.

(** One node, parked on core 1: the second [distribute] is refused. *)
Definition exhaust : list (Command Z) := [Distribute 0 1 7] ++ runs 0 8 ++ [Distribute 0 1 8].

Lemma distribute_refuses_only_when_exhausted_witness :
  exists s s', schedule exhaust (system_init 1 2) = Some s /\ run 0 true s = Some (s', Refused 8) /\
    (1 < in_flight s)%nat.
Proof.
  destruct (schedule exhaust (system_init 1 2)) as [s|] eqn:E; [|by vm_compute in E].
  destruct (run 0 true s) as [[s' ev]|] eqn:Hrun; [|by vm_compute in E; injection E as <-; vm_compute in Hrun].
  exists s, s'. assert (ev = Refused 8) as ->.
  { vm_compute in E. injection E as <-. vm_compute in Hrun. by injection Hrun as <- <-. }
  split_and!; [done..|]. apply (distribute_refuses_only_when_exhausted 1 2 s s' 0 true 8); [done| |done].
  eapply schedule_reachable; [constructor|exact E].
Defined.

(* ------------------------------------------------------------------ *)
(** ** A core left alone completes its call *)

Section alone.
  Context {T : Type}.
  Implicit Types (p : Pc T) (pl : RxNodePool T).

(** [completes m p head pl]: [m] accesses of the core, with no other core in
    between and no spurious failure, take it from [p] back to [Idle]. *)
Inductive completes : nat -> Pc T -> Z -> RxNodePool T -> Prop :=
  | completes_idle head pl : completes 0 Idle head pl
  | completes_step m p head pl p' pl' head' ev :
      p <> Idle -> access true p head pl = (p', pl', head', ev) -> completes m p' head' pl' ->
      completes (S m) p head pl.

Definition within (m : nat) p (head : Z) pl : Prop := exists m', (m' <= m)%nat /\ completes m' p head pl.

Lemma within_idle m head pl : within m Idle head pl.
Proof. exists 0%nat. split; [lia|constructor]. Qed.

Lemma within_step m p head pl p' pl' head' ev :
  p <> Idle -> access true p head pl = (p', pl', head', ev) -> within m p' head' pl' -> within (S m) p head pl.
Proof. intros Hp Ha (m' & Hm & Hc). exists (S m'). split; [lia|]. by econstructor. Qed.

Lemma within_le m m' p head pl : within m p head pl -> (m <= m')%nat -> within m' p head pl.
Proof. intros (m0 & ? & ?) ?. exists m0. split; [lia|done]. Qed.

Definition defined pl (js : list Z) : Prop := Forall (fun i => is_Some (node_at pl i)) js.

Lemma defined_same held pl pl' js : same_off held pl pl' -> js ## held -> defined pl js -> defined pl' js.
Proof.
  intros [_ Hs] Hd. unfold defined. rewrite !Forall_forall. intros H i Hi. rewrite Hs; [by apply H|set_solver].
Qed.

Lemma same_off_trans held pl1 pl2 pl3 :
  same_off held pl1 pl2 -> same_off held pl2 pl3 -> same_off held pl1 pl3.
Proof. intros [L1 H1] [L2 H2]. split; [congruence|]. intros i Hi. by rewrite H2, H1. Qed.

(** Performs one access, which [tac] evaluates. *)
Ltac next_access m tac :=
  apply (within_le (S m)); [|lia];
  eapply within_step; [done | unfold access; cbn [distributing drain_each distribute]; tac; reflexivity|].

(** The nodes outside [node] are untouched and [node] exists. *)
Definition only (node : Z) pl pl' : Prop := same_off [node] pl pl' /\ is_Some (node_at pl' node).

Lemma only_nodes node pl pl' pl'' : only node pl pl' -> nodes pl'' = nodes pl' -> only node pl pl''.
Proof.
  intros [Hs Hn] E. split; [by eapply same_off_trans, same_off_nodes|]. unfold node_at in *. by rewrite E.
Qed.

Lemma only_set node pl pl' n n' : only node pl pl' -> node_at pl' node = Some n -> only node pl (node_set pl' node n').
Proof.
  intros [Hs _] Hn. split; [eapply same_off_trans, same_off_node_set; [done..|left]|].
  by rewrite (node_at_set _ _ _ _ _ Hn), decide_True.
Qed.

(** Returning a node, from any stage of the push. *)
Lemma free_within m count node n v push head pl :
  is_Some (node_at pl node) ->
  (forall pl', same_off [node] pl pl' -> within m (WalkNext (w64 (count + 1)) n) head pl') ->
  within (m + 7) (Free count node n v push) head pl.
Proof.
  intros Hn0 Hk.
  assert (forall h pl', only node pl pl' -> free_list pl' = h ->
    within (m + 3) (Free count node n v (PushCas h)) head pl') as Hcas.
  { intros h pl' Ho <-.
    next_access (m + 2)%nat ltac:(unfold free_access; cbn [stack_push]; rewrite Z.eqb_refl).
    next_access (m + 1)%nat idtac. next_access m idtac. apply Hk. by eapply (only_nodes _ _ pl'). }
  assert (forall h pl', only node pl pl' -> free_list pl' = h ->
    within (m + 4) (Free count node n v (PushLink h)) head pl') as Hlink.
  { intros h pl' Ho Hh. pose proof Ho as [_ [n1 Hn1]].
    next_access (m + 3)%nat ltac:(unfold free_access; cbn [stack_push next_store pool_links]; rewrite Hn1; cbn).
    apply Hcas; [|done]. eapply only_nodes; [by eapply only_set|done]. }
  assert (forall pl', only node pl pl' -> within (m + 5) (Free count node n v PushLoad) head pl') as Hload.
  { intros pl' Ho. next_access (m + 4)%nat ltac:(unfold free_access; cbn [stack_push]).
    apply Hlink; [by eapply only_nodes|done]. }
  assert (forall h pl', only node pl pl' -> within (m + 6) (Free count node n v (PushCas h)) head pl') as Hcas'.
  { intros h pl' Ho. destruct (free_list pl' =? h) eqn:E.
    - bool_to_prop. eapply within_le; [by apply Hcas|lia].
    - next_access (m + 5)%nat ltac:(unfold free_access; cbn [stack_push andb]; rewrite E).
      apply Hload. by eapply only_nodes. }
  assert (only node pl pl) as Ho by (split; [by apply same_off_nodes|done]).
  destruct push as [|h|h]; [eapply within_le; [by apply Hload|lia]| |eapply within_le; [by apply Hcas'|lia]].
  destruct Hn0 as [n1 Hn1].
  next_access (m + 6)%nat ltac:(unfold free_access; cbn [stack_push next_store pool_links]; rewrite Hn1; cbn).
  apply Hcas'. eapply only_nodes; [by eapply only_set|done].
Qed.

(** The walk that delivers the payloads. *)
Lemma walk_within held : forall count node head pl,
  chain pl node held -> NoDup held -> defined pl held ->
  within (9 * length held + 1) (WalkNext count node) head pl.
Proof.
  induction held as [|i held IH]; intros count node head pl Hch Hnd Hdef.
  - cbn in Hch. subst node. next_access 0%nat idtac. apply within_idle.
  - destruct Hch as (-> & Hi & n & Hn & Hch). apply NoDup_cons in Hnd as [Hni Hnd].
    apply Forall_cons in Hdef as [[n0 Hn0] Hdef]. assert (i <> NULL) by (unfold NULL; lia). cbn [length].
    next_access (9 * length held + 9)%nat ltac:(rewrite (proj2 (Z.eqb_neq i NULL)), Hn by done).
    next_access (9 * length held + 1 + 7)%nat ltac:(unfold node_take; rewrite Hn0; cbn).
    apply free_within; [by rewrite (node_at_set _ _ _ _ _ Hn0), decide_True|].
    intros pl' Hs. assert (same_off [i] pl pl') as Hs'.
    { eapply same_off_trans; [eapply same_off_node_set; [done|left]|done]. }
    apply IH; [eapply chain_same; [done|set_solver|done]|done|eapply defined_same; [done|set_solver|done]].
Qed.

Lemma chain_defined pl h js : chain pl h js -> defined pl js.
Proof.
  revert h. induction js as [|i js IH]; intros h; [constructor|]. intros (_ & _ & n & Hn & Hch).
  unfold next_load in Hn. cbn in Hn. constructor; [destruct (node_at pl i); done|by eapply IH].
Qed.

Lemma take_within count node n rest head pl :
  chain pl n rest -> NoDup (node :: rest) -> is_Some (node_at pl node) ->
  within (9 * length rest + 9) (Take count node n) head pl.
Proof.
  intros Hch [Hni Hnd]%NoDup_cons [n0 Hn0].
  next_access (9 * length rest + 1 + 7)%nat ltac:(unfold node_take; rewrite Hn0; cbn).
  apply free_within; [by rewrite (node_at_set _ _ _ _ _ Hn0), decide_True|].
  intros pl' Hs. assert (same_off [node] pl pl') as Hs'.
  { eapply same_off_trans; [eapply same_off_node_set; [done|left]|done]. }
  apply walk_within; [eapply chain_same; [done|set_solver|done]|done|].
  eapply defined_same; [done|set_solver|by eapply chain_defined].
Qed.

(** The reversal of the detached list, and the walk after it. *)
Lemma reverse_within rest : forall dn fifo node head pl,
  chain pl fifo dn -> chain pl node rest -> NoDup (dn ++ rest) ->
  within (11 * length rest + 9 * length dn + 2) (Reverse fifo node) head pl.
Proof.
  induction rest as [|i rest IH]; intros dn fifo node head pl H1 H2 Hnd.
  - cbn in H2. subst node. rewrite app_nil_r in Hnd. next_access (9 * length dn + 1)%nat idtac.
    apply walk_within; [done..|by eapply chain_defined].
  - pose proof (chain_defined _ _ _ H2) as [[n0 Hn0] _]%Forall_cons.
    destruct H2 as (-> & Hi & n & Hn & H2). assert (i <> NULL) by (unfold NULL; lia). cbn [length].
    next_access (11 * length rest + 9 * length dn + 12)%nat ltac:(rewrite (proj2 (Z.eqb_neq i NULL)), Hn by done).
    assert (exists pl', next_store pl i fifo = Some pl') as [pl' Hs]
      by (unfold next_store; cbn; rewrite Hn0; eauto).
    next_access (11 * length rest + 9 * S (length dn) + 2)%nat ltac:(rewrite Hs).
    apply NoDup_app in Hnd as (Hnd1 & Hnd2 & [Hnd3 Hnd4]%NoDup_cons). apply (IH (i :: dn)).
    + eapply chain_link; [done|lia|set_solver|done].
    + by eapply chain_store.
    + apply NoDup_app. split_and!; [constructor; [set_solver|done]| |done]. set_solver.
Qed.

Lemma publish_within k v idx push head pl :
  is_Some (node_at pl idx) -> within 5 (Publish k v idx push) head pl.
Proof.
  intros Hn.
  assert (forall pl', within 1 (Publish k v idx (InboxCas head)) head pl') as Hcas.
  { intros pl'. next_access 0%nat ltac:(cbn [inbox_push]; rewrite Z.eqb_refl). apply within_idle. }
  assert (forall pl', is_Some (node_at pl' idx) -> within 2 (Publish k v idx (InboxLink head)) head pl') as Hlink.
  { intros pl' [n Hn']. next_access 1%nat ltac:(cbn [inbox_push next_store pool_links]; rewrite Hn'; cbn). apply Hcas. }
  assert (forall pl', is_Some (node_at pl' idx) -> within 3 (Publish k v idx InboxLoad) head pl') as Hload.
  { intros pl' Hn'. next_access 2%nat ltac:(cbn [inbox_push]). by apply Hlink. }
  assert (forall h pl', is_Some (node_at pl' idx) -> within 4 (Publish k v idx (InboxCas h)) head pl') as Hcas'.
  { intros h pl' Hn'. destruct (head =? h) eqn:E.
    - bool_to_prop. subst h. eapply within_le; [apply Hcas|lia].
    - next_access 3%nat ltac:(cbn [inbox_push andb]; rewrite E). by apply Hload. }
  destruct push as [|h|h]; [eapply within_le; [by apply Hload|lia]| |eapply within_le; [by apply Hcas'|lia]].
  destruct Hn as [n Hn]. next_access 4%nat ltac:(cbn [inbox_push next_store pool_links]; rewrite Hn; cbn).
  apply Hcas'. by rewrite (node_at_set _ _ _ _ _ Hn), decide_True.
Qed.

Lemma store_within k v idx head pl : is_Some (node_at pl idx) -> within 6 (Store k v idx) head pl.
Proof.
  intros [n Hn]. next_access 5%nat ltac:(unfold node_store; rewrite Hn; cbn). apply publish_within.
  by rewrite (node_at_set _ _ _ _ _ Hn), decide_True.
Qed.

Lemma count_within k v idx head pl : is_Some (node_at pl idx) -> within 7 (AllocCount k v idx) head pl.
Proof. intros Hn. next_access 6%nat idtac. by apply store_within. Qed.

(** What a pop needs to complete: the index of the head word it read, and of the
    current one, is a slot. *)
Lemma alloc_within k v pop head pl :
  (fst (unpack (free_list pl)) = NULL_INDEX \/ is_Some (node_at pl (fst (unpack (free_list pl))))) ->
  match pop with PopLoad => True | PopNext h | PopCas h _ => is_Some (node_at pl (fst (unpack h))) end ->
  within 12 (Alloc k v pop) head pl.
Proof.
  intros Hf Hp.
  assert (forall h n pl', nodes pl' = nodes pl -> free_list pl' = h -> is_Some (node_at pl (fst (unpack h))) ->
    within 8 (Alloc k v (PopCas h n)) head pl') as Hcas.
  { intros h n pl' Hn <- Hs. next_access 7%nat ltac:(unfold alloc_access; cbn [stack_pop]; rewrite Z.eqb_refl; cbn [andb]).
    apply count_within. unfold node_at in *. cbn [set_free_list nodes]. by rewrite Hn. }
  assert (forall h pl' m, nodes pl' = nodes pl -> is_Some (node_at pl (fst (unpack h))) ->
    (forall n pl'', nodes pl'' = nodes pl -> free_list pl'' = free_list pl' -> within m (Alloc k v (PopCas h n)) head pl'') ->
    within (S m) (Alloc k v (PopNext h)) head pl') as Hnext.
  { intros h pl' m Hn [n0 Hn0] Hk. assert (node_at pl' (fst (unpack h)) = Some n0) as Hn1
      by (unfold node_at in *; by rewrite Hn).
    next_access m ltac:(unfold alloc_access; cbn [stack_pop next_load pool_links]; rewrite Hn1; cbn [fmap option_fmap option_map]).
    by apply Hk. }
  assert (forall pl', nodes pl' = nodes pl -> free_list pl' = free_list pl -> within 10 (Alloc k v PopLoad) head pl') as Hload.
  { intros pl' Hn Hl. destruct (fst (unpack (free_list pl')) =? NULL_INDEX) eqn:E.
    - next_access 9%nat ltac:(unfold alloc_access; cbn [stack_pop]; rewrite E). apply within_idle.
    - next_access 9%nat ltac:(unfold alloc_access; cbn [stack_pop]; rewrite E). bool_to_prop. rewrite Hl in *.
      destruct Hf as [|Hs]; [done|]. apply Hnext; [done|done|]. intros n pl'' ??. by apply Hcas. }
  assert (forall h n pl', nodes pl' = nodes pl -> free_list pl' = free_list pl -> is_Some (node_at pl (fst (unpack h))) ->
    within 11 (Alloc k v (PopCas h n)) head pl') as Hcas'.
  { intros h n pl' Hn Hl Hs. destruct (free_list pl' =? h) eqn:E.
    - bool_to_prop. eapply within_le; [by apply Hcas|lia].
    - next_access 10%nat ltac:(unfold alloc_access; cbn [stack_pop andb]; rewrite E). by apply Hload. }
  destruct pop as [|h|h n]; [eapply within_le; [by apply Hload|lia]| |eapply within_le; [by apply Hcas'|lia]].
  apply Hnext; [done..|]. intros n pl'' ??. by apply Hcas'.
Qed.

(** The core performs [m] accesses in a row, no weak compare-exchange failing
    spuriously. *)
Fixpoint alone (k m : nat) (s : System T) : option (System T) :=
  match m with
  | O => Some s
  | S m => '(s', _) ← run k true s; alone k m s'
  end.

Lemma access_target weak p head pl p' pl' head' ev :
  access weak p head pl = (p', pl', head', ev) ->
  p' = Idle \/ p' = Panicked \/ distributing p' = distributing p.
Proof.
  unfold access. destruct p; cbn [distributing]; unfold distribute, drain_each;
    intros; repeat case_match; simplify_eq; auto.
Qed.

Lemma completes_panicked m head pl : ~ completes m Panicked head pl.
Proof.
  revert head pl. induction m as [|m IH]; intros head pl H; inversion H as [|? ? ? ? ? ? ? ? _ Ha Hc]; subst.
  cbn in Ha. injection Ha as <- <- <- <-. by eapply IH.
Qed.

Lemma completes_alone m : forall p head pl k (s : System T) c d,
  completes m p head pl -> cores s !! k = Some c -> pc c = p ->
  cores s !! default k (distributing p) = Some d -> inbox d = head -> pool s = pl ->
  exists s' c', alone k m s = Some s' /\ cores s' !! k = Some c' /\ pc c' = Idle.
Proof.
  induction m as [|m IH]; intros p head pl k s c d Hm Hc Hpc Hd Hh Hpl;
    inversion Hm as [|? ? ? ? p' pl' head' ev Hp Ha Hm']; subst; cbn [alone].
  - eauto.
  - unfold run. rewrite Hc. cbn. rewrite Hd. cbn. rewrite Ha. cbn.
    set (s1 := mkSystem pl' _ _).
    destruct (access_target _ _ _ _ _ _ _ _ Ha) as [->|[->|Ht]]; [|by apply completes_panicked in Hm'|].
    { assert (m = 0%nat) as -> by (inversion Hm'; congruence). exists s1. cbn.
      rewrite lookup_alter_at, decide_True, lookup_alter_at, Hc by done. eauto. }
    rewrite <-Ht in *.
    assert (exists d', cores s1 !! default k (distributing p') = Some d' /\ inbox d' = head') as (d' & Hd' & Hh').
    { cbn. rewrite !lookup_alter_at, Hd. eexists. split; [reflexivity|].
      repeat case_decide; done || congruence. }
    assert (exists c', cores s1 !! k = Some c' /\ pc c' = p') as (c' & Hc' & Hpc').
    { cbn. rewrite !lookup_alter_at, Hc, decide_True by done. by eexists. }
    by apply (IH p' head' pl' k s1 c' d').
Qed.

Lemma core_within N (s : System T) free gs k c d :
  inv N s free gs -> cores s !! k = Some c -> cores s !! default k (distributing (pc c)) = Some d ->
  within (11 * N + 12) (pc c) (inbox d) (pool s).
Proof.
  intros H Hc Hd. destruct (inv_lookup _ _ _ _ _ _ H Hc) as (g & Hg & [[Hch _] Hth _]).
  destruct (held_disjoint _ _ _ _ _ _ H Hg) as (Hnd & _).
  destruct (nodes_of_update gs k g Hg) as (rest0 & Hp & _).
  assert (NoDup (g_inbox g)) as Hndi.
  { pose proof (inv_NoDup _ _ _ _ H) as Hn. rewrite Hp in Hn. unfold nodes_of in Hn. rewrite !NoDup_app in Hn. tauto. }
  assert (length (g_inbox g) + length (g_held g) <= N)%nat as Hle.
  { pose proof (inv_perm _ _ _ _ H) as Hl%Permutation_length. rewrite length_app, length_seqZ, Hp in Hl.
    unfold nodes_of in Hl. rewrite !length_app in Hl. lia. }
  assert (forall i, i ∈ g_held g -> is_Some (node_at (pool s) i)) as Hat
    by (intros i Hi; by destruct (held_node_at _ _ _ _ _ _ _ H Hg Hi)).
  destruct (pc c) as [|t v pop|t v idx|t v idx|t v idx push| |fifo node|fifo node n|ct node|ct node n|ct node n v push|ct n v|ct n v|] eqn:Hpc;
    cbn [thread_ok distributing default] in *.
  - apply within_idle.
  - destruct Hth as (_ & _ & _ & Hpop). eapply within_le; [apply alloc_within|lia].
    + destruct (decide (fst (unpack (free_list (pool s))) = NULL_INDEX)) as [|Hne]; [by left|right].
      pose proof (pop_pending_load _ _ _ _ H _ _ _ Hc Hg Hne) as Hl.
      destruct (pop_pending_next _ _ _ _ H _ _ Hl) as (n & Hn & _). unfold next_load in Hn. cbn in Hn.
      by destruct (node_at (pool s) _).
    + rewrite (inv_len _ _ _ _ H) in Hpop. pose proof (inv_size _ _ _ _ H) as Hsz. unfold NULL, NULL_INDEX in Hsz.
      destruct pop as [|h|h n]; [done| |]; destruct Hpop as (idx & -> & Hidx & _);
        rewrite unpack_pack by (apply w32_range || (unfold is_u32; lia)); cbn [fst];
        (eapply (inv_node_at N s free gs); [done|]); rewrite (inv_perm _ _ _ _ H); apply elem_of_seqZ; lia.
  - destruct Hth as (Hh & _). eapply within_le; [apply count_within, Hat; rewrite Hh; left|lia].
  - destruct Hth as (Hh & _). eapply within_le; [apply store_within, Hat; rewrite Hh; left|lia].
  - destruct Hth as (Hh & _). eapply within_le; [apply publish_within, Hat; rewrite Hh; left|lia].
  - rewrite Hc in Hd. injection Hd as <-. next_access (11 * length (g_inbox g) + 9 * 0 + 2)%nat idtac.
    by apply (reverse_within _ []).
  - destruct Hth as (dn & rest & Hh & H1 & H2 & _). rewrite Hh in Hnd, Hle. rewrite length_app in Hle.
    eapply within_le; [by apply reverse_within|lia].
  - destruct Hth as (dn & rest & Hh & H1 & H2 & _). rewrite Hh in Hnd, Hle. rewrite length_app in Hle. cbn in Hle.
    destruct (held_store _ _ _ _ H _ _ Hg node fifo) as [pl' Hs]; [rewrite Hh; set_solver|].
    destruct (held_node_at _ _ _ _ _ _ node H Hg) as [Hb _]; [rewrite Hh; set_solver|].
    next_access (11 * length rest + 9 * S (length dn) + 2)%nat ltac:(rewrite Hs).
    apply NoDup_app in Hnd as (Hnd1 & Hnd2 & [Hnd3 Hnd4]%NoDup_cons). apply (reverse_within rest (node :: dn)).
    + eapply chain_link; [done|done|set_solver|done].
    + by eapply chain_store.
    + apply NoDup_app. split_and!; [constructor; [set_solver|done]| |done]. set_solver.
  - destruct Hth as [H1 _]. eapply within_le; [apply walk_within; [done..|by eapply chain_defined]|lia].
  - destruct Hth as (rest & Hh & H1 & _). rewrite Hh in Hnd, Hle. cbn in Hle.
    eapply within_le; [apply take_within; [done..|apply Hat; rewrite Hh; left]|lia].
  - destruct Hth as (rest & w & todo' & Hh & _ & _ & H1 & _). rewrite Hh in Hnd, Hle. cbn in Hle.
    apply NoDup_cons in Hnd as [Hni Hnd].
    apply (within_le (9 * length rest + 1 + 7)); [|lia]. apply free_within; [apply Hat; rewrite Hh; left|].
    intros pl' Hs. apply walk_within; [eapply chain_same; [done|set_solver|done]|done|].
    eapply defined_same; [done|set_solver|by eapply chain_defined].
  - destruct Hth as (w & todo' & _ & _ & H1 & _). next_access (9 * length (g_held g) + 2)%nat idtac.
    next_access (9 * length (g_held g) + 1)%nat idtac. apply (chain_nodes _ (set_free_count (w64 (free_count (pool s) + 1)) (pool s))) in H1; [|done].
    apply walk_within; [done..|by eapply chain_defined].
  - destruct Hth as (w & todo' & _ & _ & H1 & _). next_access (9 * length (g_held g) + 1)%nat idtac.
    apply walk_within; [done..|by eapply chain_defined].
  - done.
Qed.

End alone.

(** C18: progress.  In any reachable state, whatever the other cores were in the
    middle of, a core that runs alone, its weak compare-exchanges not failing
    spuriously, returns from the call it is in within [11 * N + 12] accesses: no
    core waits for another one. *)
Theorem core_alone_completes {T : Type} (N n : nat) (s : System T) k c :
  Z.of_nat N < NULL -> reachable (system_init N n) s -> cores s !! k = Some c ->
  exists m s' c', (m <= 11 * N + 12)%nat /\ alone k m s = Some s' /\ cores s' !! k = Some c' /\ pc c' = Idle.
Proof.
  intros HN Hr Hc. destruct (inv_reachable _ _ _ HN Hr) as (free & gs & H).
  assert (exists d, cores s !! default k (distributing (pc c)) = Some d) as [d Hd].
  { destruct (inv_lookup _ _ _ _ _ _ H Hc) as (g & _ & [_ Hth _]).
    destruct (pc c); cbn in *; eauto; destruct_and?; by apply lookup_lt_is_Some_2. }
  destruct (core_within _ _ _ _ _ _ _ H Hc Hd) as (m & Hm & Hcomp).
  destruct (completes_alone _ _ _ _ _ _ _ _ Hcomp Hc eq_refl Hd eq_refl eq_refl) as (s' & c' & ? & ? & ?).
  exists m, s', c'. done.
Qed.

(** Core 0 is stopped in the middle of a publication on core 1's inbox while core
    1 is about to recycle a node. *)
Definition stopped : list (Command Z) :=
  [Distribute 0 1 5] ++ runs 0 8 ++ [Distribute 0 1 6] ++ runs 0 7 ++ [Drain 1] ++ runs 1 8.

Lemma core_alone_completes_witness :
  exists s c m s' c', schedule stopped (system_init 2 2) = Some s /\ cores s !! 1%nat = Some c /\
    is_idle (pc c) = false /\
    (m <= 34)%nat /\ alone 1 m s = Some s' /\ cores s' !! 1%nat = Some c' /\ pc c' = Idle.
Proof.
  destruct (schedule stopped (system_init 2 2)) as [s|] eqn:E; [|by vm_compute in E].
  destruct (cores s !! 1%nat) as [c|] eqn:Hc; [|by vm_compute in E; injection E as <-; vm_compute in Hc].
  destruct (core_alone_completes 2 2 s 1 c) as (m & s' & c' & Hm & H); [done| |done|].
  { eapply schedule_reachable; [constructor|exact E]. }
  exists s, c, m, s', c'. refine (conj eq_refl (conj Hc (conj _ (conj Hm H)))).
  vm_compute in E. injection E as <-. vm_compute in Hc. by injection Hc as <-.
Defined.
