(* ===== verification/Spsc.v ===== *)
(** * The single-producer single-consumer ring and TX staging
    (crates/kernel/core/src/spsc.rs, percpu.rs)

    [push] and [pop] are machines that perform one shared access per step; the
    producer's and the consumer's steps interleave in any order.  [TxStaging]
    keeps packets in a small pool and passes their indices through such a ring. *)

From S2P Require Import Prelude.

Definition CAPACITY : Z := 256.
Abbreviation MASK := (CAPACITY - 1)%Z (only parsing).

Record Ring (T : Type) := mkRing { buffer : list T; head : Z; tail : Z }.
Arguments mkRing {_} _ _ _.
Arguments buffer {_} _.
Arguments head {_} _.
Arguments tail {_} _.

(** The access [push] performs next. *)
Inductive PushAt (T : Type) :=
  | PushTail (item : T)
  | PushHead (item : T) (tail : Z)
  | PushWrite (item : T) (tail : Z)
  | PushStore (item : T) (tail : Z).
Arguments PushTail {_} _.
Arguments PushHead {_} _ _.
Arguments PushWrite {_} _ _.
Arguments PushStore {_} _ _.

(** The access [pop] performs next. *)
Inductive PopAt (T : Type) :=
  | PopHead
  | PopTail (head : Z)
  | PopRead (head : Z)
  | PopStore (head : Z) (item : T).
Arguments PopHead {_}.
Arguments PopTail {_} _.
Arguments PopRead {_} _.
Arguments PopStore {_} _ _.

Section ring.
  Context {T : Type}.
  Implicit Types (r : Ring T).

Definition ring_new (zero : T) : Ring T := mkRing (replicate (Z.to_nat CAPACITY) zero) 0 0.

Definition ring_slot (i : Z) : nat := Z.to_nat (Z.land i MASK).

Definition ring_push (pc : PushAt T) r : Outcome (PushAt T) bool * Ring T :=
  match pc with
  | PushTail item => (Continue (PushHead item (tail r)), r)
  | PushHead item t =>
      if CAPACITY <=? w64 (t - head r) then (Return false, r) else (Continue (PushWrite item t), r)
  | PushWrite item t =>
      (Continue (PushStore item t), mkRing (<[ring_slot t := item]> (buffer r)) (head r) (tail r))
  | PushStore item t => (Return true, mkRing (buffer r) (head r) (w64 (t + 1)))
  end.

Definition ring_pop (pc : PopAt T) r : Outcome (PopAt T) (option T) * Ring T :=
  match pc with
  | PopHead => (Continue (PopTail (head r)), r)
  | PopTail h => if tail r <=? h then (Return None, r) else (Continue (PopRead h), r)
  | PopRead h =>
      match buffer r !! ring_slot h with
      | Some item => (Continue (PopStore h item), r)
      | None => (Panic, r)
      end
  | PopStore h item => (Return (Some item), mkRing (buffer r) (w64 (h + 1)) (tail r))
  end.

(** Two loads: the tail as of [r], then the head as of [r'], which the other side
    may have moved meanwhile. *)
Definition ring_len r r' : Z := sat_sub (tail r) (head r').

Definition ring_is_empty r r' : bool := ring_len r r' =? 0.

(* ------------------------------------------------------------------ *)
(** ** The two sides *)

(** The ring, what each side is in the middle of, and what was pushed and
    popped so far. *)
Record Pair := mkPair {
  ring : Ring T;
  producer : option (PushAt T);
  consumer : option (PopAt T);
  pushed : list T;
  popped : list T;
}.

Definition pair_init (zero : T) : Pair := mkPair (ring_new zero) None None [] [].

(** The item a push that just stored [tail] has published. *)
Definition published (pc : PushAt T) : list T :=
  match pc with PushStore item _ => [item] | _ => [] end.

Inductive pair_step (s : Pair) : option bool -> option (option T) -> Pair -> Prop :=
  | step_call_push item :
      producer s = None ->
      pair_step s None None (mkPair (ring s) (Some (PushTail item)) (consumer s) (pushed s) (popped s))
  | step_call_pop :
      consumer s = None ->
      pair_step s None None (mkPair (ring s) (producer s) (Some PopHead) (pushed s) (popped s))
  | step_push pc pc' r' :
      producer s = Some pc -> ring_push pc (ring s) = (Continue pc', r') ->
      pair_step s None None (mkPair r' (Some pc') (consumer s) (pushed s) (popped s))
  | step_push_return pc b r' :
      producer s = Some pc -> ring_push pc (ring s) = (Return b, r') ->
      pair_step s (Some b) None (mkPair r' None (consumer s) (pushed s ++ published pc) (popped s))
  | step_pop pc pc' r' :
      consumer s = Some pc -> ring_pop pc (ring s) = (Continue pc', r') ->
      pair_step s None None (mkPair r' (producer s) (Some pc') (pushed s) (popped s))
  | step_pop_return pc o r' :
      consumer s = Some pc -> ring_pop pc (ring s) = (Return o, r') ->
      pair_step s None (Some o) (mkPair r' (producer s) None (pushed s) (popped s ++ option_list o)).

Inductive pair_reachable (zero : T) : Pair -> Prop :=
  | pair_reachable_init : pair_reachable zero (pair_init zero)
  | pair_reachable_step s b o s' :
      pair_reachable zero s -> pair_step s b o s' -> pair_reachable zero s'.

(* ------------------------------------------------------------------ *)
(** ** The invariant *)

Definition count (l : list T) : Z := Z.of_nat (length l).

Record pair_inv (s : Pair) : Prop := {
  pair_buffer : length (buffer (ring s)) = Z.to_nat CAPACITY;
  pair_tail : tail (ring s) = count (pushed s);
  pair_head : head (ring s) = count (popped s);
  pair_bounds : count (popped s) <= count (pushed s) <= count (popped s) + CAPACITY;
  pair_popped : popped s = take (length (popped s)) (pushed s);
  pair_slots : forall i, count (popped s) <= i < count (pushed s) ->
    buffer (ring s) !! ring_slot i = pushed s !! Z.to_nat i;
  pair_producer : match producer s with
    | None | Some (PushTail _) => True
    | Some (PushHead _ t) => t = count (pushed s)
    | Some (PushWrite _ t) => t = count (pushed s) /\ t < count (popped s) + CAPACITY
    | Some (PushStore item t) => t = count (pushed s) /\ t < count (popped s) + CAPACITY /\
        buffer (ring s) !! ring_slot t = Some item
    end;
  pair_consumer : match consumer s with
    | None | Some PopHead => True
    | Some (PopTail h) => h = count (popped s)
    | Some (PopRead h) => h = count (popped s) /\ h < count (pushed s)
    | Some (PopStore h item) => h = count (popped s) /\ pushed s !! Z.to_nat h = Some item
    end;
}.

(* ------------------------------------------------------------------ *)
(** ** Every interleaving *)

Lemma ring_slot_inj i j : i <> j -> -CAPACITY < i - j < CAPACITY -> ring_slot i <> ring_slot j.
Proof. intros Hne Hd. by apply (ring_index_ne i j 8). Qed.

Lemma ring_slot_lt i : (ring_slot i < Z.to_nat CAPACITY)%nat.
Proof. by apply (ring_index_lt i 8). Qed.

Lemma count_app l1 l2 : count (l1 ++ l2) = count l1 + count l2.
Proof. unfold count. rewrite length_app. lia. Qed.

Lemma pair_inv_push s pc o r' :
  pair_inv s -> producer s = Some pc -> ring_push pc (ring s) = (o, r') ->
  count (pushed s ++ published pc) <= U64_MAX ->
  match o with
  | Continue pc' => pair_inv (mkPair r' (Some pc') (consumer s) (pushed s) (popped s))
  | Return b => pair_inv (mkPair r' None (consumer s) (pushed s ++ published pc) (popped s)) /\
      (b = false -> count (pushed s) = count (popped s) + CAPACITY)
  | Panic => False
  end.
Proof.
  intros [Hbuf Htail Hhead Hb Hpop Hs Hp Hc] Hpc Hrun Hmax. rewrite Hpc in Hp. rewrite count_app in Hmax.
  pose proof (Zle_0_nat (length (popped s))) as H0. fold (count (popped s)) in H0.
  destruct pc as [item|item t|item t|item t]; cbn in Hrun; cbn [published] in *.
  - injection Hrun as <- <-. split; cbn; try done.
  - cbn in Hp. subst t. rewrite Hhead in Hrun. change (count []) with 0 in Hmax.
    rewrite w64_small in Hrun by int_lia. destruct (CAPACITY <=? _) eqn:E; injection Hrun as <- <-; bool_to_prop.
    + split; [|lia]. rewrite app_nil_r. by split.
    + split; cbn; try done. lia.
  - destruct Hp as [-> Hlt]. injection Hrun as <- <-. split; cbn; try done.
    + by rewrite length_insert.
    + intros i Hi. rewrite list_lookup_insert_ne; [by apply Hs|]. apply ring_slot_inj; unfold CAPACITY in *; lia.
    + split_and!; [done..|]. apply list_lookup_insert_eq. rewrite Hbuf. apply ring_slot_lt.
  - destruct Hp as (-> & Hlt & Hit). injection Hrun as <- <-. split; [|done].
    change (count [item]) with 1 in Hmax. split; cbn; rewrite ?count_app; try done.
    + rewrite w64_small by int_lia. done.
    + change (count [item]) with 1. lia.
    + rewrite take_app_le; [done|]. unfold count in Hb. lia.
    + intros i Hi. change (count [item]) with 1 in Hi. destruct (decide (i = count (pushed s))) as [->|Hne].
      * rewrite Hit. unfold count. by rewrite Nat2Z.id, lookup_app_r, Nat.sub_diag.
      * rewrite lookup_app_l by (unfold count in *; lia). apply Hs. lia.
    + change (count [item]) with 1. destruct (consumer s) as [[|h|h|h it]|]; try done; [lia|]. destruct Hc as [-> Hc]. split; [done|].
      rewrite lookup_app_l; [done|]. by eapply lookup_lt_Some.
Qed.

Lemma pair_inv_pop s pc o r' :
  pair_inv s -> consumer s = Some pc -> ring_pop pc (ring s) = (o, r') -> count (pushed s) <= U64_MAX ->
  match o with
  | Continue pc' => pair_inv (mkPair r' (producer s) (Some pc') (pushed s) (popped s))
  | Return v => pair_inv (mkPair r' (producer s) None (pushed s) (popped s ++ option_list v)) /\
      (v = None -> popped s = pushed s)
  | Panic => False
  end.
Proof.
  intros [Hbuf Htail Hhead Hb Hpop Hs Hp Hc] Hpc Hrun Hmax. rewrite Hpc in Hc.
  pose proof (Zle_0_nat (length (popped s))) as H0. fold (count (popped s)) in H0.
  destruct pc as [|h|h|h item]; cbn in Hrun.
  - injection Hrun as <- <-. by split.
  - cbn in Hc. subst h. rewrite Htail in Hrun. destruct (count (pushed s) <=? _) eqn:E; injection Hrun as <- <-; bool_to_prop.
    + split; [cbn; rewrite app_nil_r; by split|]. intros _. rewrite Hpop. apply take_ge. unfold count in *. lia.
    + split; cbn; try done.
  - destruct Hc as [-> Hlt]. rewrite Hs in Hrun by lia.
    destruct (lookup_lt_is_Some_2 (pushed s) (Z.to_nat (count (popped s)))) as [x Hx]; [unfold count in *; lia|].
    rewrite Hx in Hrun. injection Hrun as <- <-. by split.
  - destruct Hc as [-> Hit]. injection Hrun as <- <-. split; [|done].
    assert (count (popped s) < count (pushed s)) by (apply lookup_lt_Some in Hit; unfold count in *; lia).
    change (option_list (Some item)) with [item].
    split; cbn [ring producer consumer pushed popped buffer head tail]; rewrite ?count_app;
      change (count [item]) with 1; try done; try lia.
    + rewrite w64_small by int_lia. done.
    + rewrite length_app, Hpop at 1. cbn. rewrite Nat.add_1_r. symmetry. apply take_S_r.
      by rewrite <-Hit; unfold count; rewrite Nat2Z.id.
    + intros i Hi. apply Hs. lia.
    + destruct (producer s) as [[|? t|? t|? t]|]; try done; [lia|]. destruct Hp as (? & ? & ?). split_and!; [done|lia|done].
Qed.

Lemma pushed_grows s b o s' : pair_step s b o s' -> count (pushed s) <= count (pushed s').
Proof. destruct 1; cbn; rewrite ?count_app; unfold count; lia. Qed.

Lemma pair_reachable_inv zero s : pair_reachable zero s -> count (pushed s) <= U64_MAX -> pair_inv s.
Proof.
  induction 1 as [|s b o s' _ IH Hstep]; intros Hmax.
  - split; cbn; try done. intros i Hi. unfold count in Hi. cbn in Hi. lia.
  - pose proof (pushed_grows _ _ _ _ Hstep) as Hg. specialize (IH ltac:(lia)).
    destruct Hstep as [item Hn|Hn|pc pc' r' Hpc Hr|pc b r' Hpc Hr|pc pc' r' Hpc Hr|pc v r' Hpc Hr]; cbn [pushed] in *.
    + by destruct IH; split.
    + by destruct IH; split.
    + apply (pair_inv_push _ _ _ _ IH Hpc Hr). destruct pc; cbn in *; try (rewrite app_nil_r; done). done.
    + by apply (pair_inv_push _ _ _ _ IH Hpc Hr).
    + by apply (pair_inv_pop _ _ _ _ IH Hpc Hr).
    + by apply (pair_inv_pop _ _ _ _ IH Hpc Hr).
Qed.

End ring.

Arguments Pair : clear implicits.

(** One decision of a schedule. *)
Inductive Move (T : Type) := CallPush (item : T) | CallPop | Producer | Consumer.
Arguments CallPush {_} _.
Arguments CallPop {_}.
Arguments Producer {_}.
Arguments Consumer {_}.

Section moves.
  Context {T : Type}.

Definition move (m : Move T) (s : Pair T) : option (Pair T) :=
  match m with
  | CallPush item =>
      match producer s with
      | None => Some (mkPair (ring s) (Some (PushTail item)) (consumer s) (pushed s) (popped s))
      | Some _ => None
      end
  | CallPop =>
      match consumer s with
      | None => Some (mkPair (ring s) (producer s) (Some PopHead) (pushed s) (popped s))
      | Some _ => None
      end
  | Producer =>
      pc ← producer s;
      match ring_push pc (ring s) with
      | (Continue pc', r') => Some (mkPair r' (Some pc') (consumer s) (pushed s) (popped s))
      | (Return b, r') => Some (mkPair r' None (consumer s) (pushed s ++ published pc) (popped s))
      | (Panic, _) => None
      end
  | Consumer =>
      pc ← consumer s;
      match ring_pop pc (ring s) with
      | (Continue pc', r') => Some (mkPair r' (producer s) (Some pc') (pushed s) (popped s))
      | (Return o, r') => Some (mkPair r' (producer s) None (pushed s) (popped s ++ option_list o))
      | (Panic, _) => None
      end
  end.

Fixpoint moves (ms : list (Move T)) (s : Pair T) : option (Pair T) :=
  match ms with
  | [] => Some s
  | m :: ms => s' ← move m s; moves ms s'
  end.

Lemma move_step m (s s' : Pair T) : move m s = Some s' -> exists b o, pair_step s b o s'.
Proof.
  destruct m; cbn.
  - destruct (producer s) eqn:E; [done|]. intros [= <-]. do 2 eexists. by constructor.
  - destruct (consumer s) eqn:E; [done|]. intros [= <-]. do 2 eexists. by constructor.
  - destruct (producer s) as [pc|] eqn:E; [|done]. cbn. destruct (ring_push pc (ring s)) as [[|b|] r'] eqn:Er; [| |done];
      intros [= <-]; do 2 eexists; by econstructor.
  - destruct (consumer s) as [pc|] eqn:E; [|done]. cbn. destruct (ring_pop pc (ring s)) as [[|b|] r'] eqn:Er; [| |done];
      intros [= <-]; do 2 eexists; by econstructor.
Qed.

Lemma moves_reachable zero ms : forall s s' : Pair T,
  pair_reachable zero s -> moves ms s = Some s' -> pair_reachable zero s'.
Proof.
  induction ms as [|m ms IH]; intros s s' Hs; cbn; [by intros [= <-]|].
  destruct (move m s) as [s1|] eqn:E; [|done]. destruct (move_step _ _ _ E) as (b & o & Hst).
  apply IH. by econstructor.
Qed.

End moves.

(** C30: in every interleaving of the producer's and the consumer's accesses
    (fewer than [2^64] pushes), what was popped is a prefix of what was pushed, the
    ring never holds more than its capacity, [push] refuses an item only when the
    ring is full at that moment, and [pop] reports empty only when everything
    pushed has been popped. *)
Theorem spsc_fifo {T : Type} (zero : T) s :
  pair_reachable zero s -> count (pushed s) <= U64_MAX ->
  popped s `prefix_of` pushed s /\ ring_len (ring s) (ring s) = count (pushed s) - count (popped s) /\
  ring_len (ring s) (ring s) <= CAPACITY /\
  forall b o s', pair_step s b o s' ->
    (b = Some false -> ring_len (ring s) (ring s) = CAPACITY) /\ (o = Some None -> popped s = pushed s).
Proof.
  intros Hr Hmax. pose proof (pair_reachable_inv _ _ Hr Hmax) as H. pose proof H as [_ Ht Hh Hb Hp _ _ _].
  assert (ring_len (ring s) (ring s) = count (pushed s) - count (popped s)) as Hl
    by (unfold ring_len, sat_sub; rewrite Ht, Hh; lia).
  split_and!; [rewrite Hp; apply prefix_take|done|lia|].
  intros b o s' [| | | pc b' r' Hpc Hrun| |pc v r' Hpc Hrun]; split; try done.
  - intros [= ->]. destruct pc; cbn in Hrun; try done.
    destruct (pair_inv_push _ _ _ _ H Hpc Hrun) as [_ Hfull]; [by rewrite app_nil_r|]. rewrite Hl, Hfull by done. lia.
  - intros [= ->]. by destruct (pair_inv_pop _ _ _ _ H Hpc Hrun Hmax) as [_ He]; apply He.
Qed.

(** The consumer starts a pop while the producer is about to publish. *)
Definition overlap : list (Move Z) :=
  [CallPush 4; Producer; Producer; Producer; CallPop; Consumer; Producer; Consumer; CallPush 5; Producer;
   Consumer; Consumer; Producer; Producer; Producer].

Lemma spsc_fifo_witness :
  exists s, moves overlap (pair_init 0) = Some s /\ pushed s = [4; 5] /\ popped s = [4] /\
    popped s `prefix_of` pushed s.
Proof.
  destruct (moves overlap (pair_init 0)) as [s|] eqn:E; [|by vm_compute in E].
  exists s. assert (pushed s = [4; 5] /\ popped s = [4]) as [Hpu Hpo]
    by (vm_compute in E; injection E as <-; done).
  refine (conj eq_refl (conj Hpu (conj Hpo _))). apply (spsc_fifo 0 s).
  - eapply moves_reachable; [constructor|exact E].
  - by rewrite Hpu.
Defined.
