(* ===== verification/TxStaging.v ===== *)
(** * TX staging (crates/kernel/core/src/percpu.rs)

    Each core stages packets in a pool of eight buffers and passes the buffer
    indices to core 0 through a ring of 256 entries. *)

From S2P Require Import Prelude.
From S2P Require Import Spsc.

Abbreviation TX_BUF_SIZE := 1514%Z (only parsing).
Abbreviation TX_POOL_SIZE := 8%Z (only parsing).

Record TxPacket := mkTxPacket { pkt_len : Z; pkt_data : list Z }.

Record TxStaging := mkTxStaging {
  pool : list TxPacket;
  ready : Ring Z;
  next_slot : Z;
}.

Definition staging_new : TxStaging :=
  mkTxStaging (replicate (Z.to_nat TX_POOL_SIZE) (mkTxPacket 0 (replicate (Z.to_nat TX_BUF_SIZE) 0))) (ring_new 0) 0.

(** [Ring::push] and [Ring::pop] run to completion in at most four accesses. *)
Definition push_ready (item : Z) (r : Ring Z) : bool * Ring Z :=
  default (false, r) (run_accesses ring_push 4 (PushTail item) r).
Definition pop_ready (r : Ring Z) : option Z * Ring Z :=
  default (None, r) (run_accesses ring_pop 4 PopHead r).

(** [pkt.data[..data.len()].copy_from_slice(data); pkt.len = data.len()]. *)
Definition pkt_write (data : list Z) (pkt : TxPacket) : TxPacket :=
  mkTxPacket (zlen data) (data ++ zdrop (zlen data) (pkt_data pkt)).

Definition staging_push (data : list Z) (st : TxStaging) : bool * TxStaging :=
  if TX_BUF_SIZE <? zlen data then (false, st)
  else
    let slot := next_slot st in
    if TX_POOL_SIZE <=? slot then (false, st)
    else
      let pool' := alter (pkt_write data) (Z.to_nat slot) (pool st) in
      match push_ready (w32 slot) (ready st) with
      | (false, ready') => (false, mkTxStaging pool' ready' slot)
      | (true, ready') =>
          (true, mkTxStaging pool' ready' (if TX_POOL_SIZE <=? slot + 1 then 0 else slot + 1))
      end.

(** The returned length with the caller's buffer after the copy. *)
Definition pop_into (out : list Z) (st : TxStaging) : option Z * list Z * TxStaging :=
  match pop_ready (ready st) with
  | (None, ready') => (None, out, mkTxStaging (pool st) ready' (next_slot st))
  | (Some idx, ready') =>
      let st' := mkTxStaging (pool st) ready' (next_slot st) in
      match pool st !! Z.to_nat idx with
      | Some pkt =>
          let n := Z.min (pkt_len pkt) (zlen out) in
          (Some n, ztake n (pkt_data pkt) ++ zdrop n out, st')
      | None => (None, out, st')
      end
  end.

(** A burst of packets staged before core 0 flushes. *)
Fixpoint stage_all (pkts : list (list Z)) (st : TxStaging) : list bool * TxStaging :=
  match pkts with
  | [] => ([], st)
  | p :: pkts =>
      let '(b, st') := staging_push p st in
      let '(bs, st'') := stage_all pkts st' in (b :: bs, st'')
  end.

(* ------------------------------------------------------------------ *)
(** ** The ring without interference *)

Lemma push_ready_room item r :
  0 <= head r <= tail r -> tail r < head r + CAPACITY -> tail r < U64_MAX ->
  push_ready item r = (true, mkRing (<[ring_slot (tail r) := item]> (buffer r)) (head r) (tail r + 1)).
Proof.
  intros H1 H2 H3. unfold push_ready. cbn [run_accesses ring_push].
  rewrite (w64_small (tail r - head r)) by int_lia. rewrite (proj2 (Z.leb_gt _ _)) by lia.
  cbn [ring_push]. rewrite (w64_small (tail r + 1)) by int_lia. done.
Qed.

Lemma pop_ready_first r item :
  0 <= head r < tail r -> tail r <= U64_MAX -> buffer r !! ring_slot (head r) = Some item ->
  pop_ready r = (Some item, mkRing (buffer r) (head r + 1) (tail r)).
Proof.
  intros H1 H2 H3. unfold pop_ready. cbn [run_accesses ring_pop].
  rewrite (proj2 (Z.leb_gt _ _)) by lia. cbn [ring_pop]. rewrite H3. cbn [ring_pop].
  rewrite (w64_small (head r + 1)) by int_lia. done.
Qed.

Lemma stage_all_app ps qs st :
  stage_all (ps ++ qs) st =
    let '(bs, st') := stage_all ps st in let '(bs', st'') := stage_all qs st' in (bs ++ bs', st'').
Proof.
  revert st. induction ps as [|p ps IH]; intros st; cbn; [by destruct (stage_all qs st)|].
  destruct (staging_push p st) as [b st1]. rewrite IH. destruct (stage_all ps st1) as [bs st2].
  by destruct (stage_all qs st2).
Qed.

(* ------------------------------------------------------------------ *)
(** ** Bursts *)

(** After a burst of [pkts]: every push was accepted, the ring lists the slots in
    order, and the first buffer holds the last packet whose position in the burst
    is a multiple of eight. *)
Definition burst_state (pkts : list (list Z)) (bs : list bool) (st : TxStaging) : Prop :=
  bs = replicate (length pkts) true /\ length (pool st) = 8%nat /\ length (buffer (ready st)) = 256%nat /\
  head (ready st) = 0 /\ tail (ready st) = zlen pkts /\ next_slot st = zlen pkts mod 8 /\
  (pkts <> [] -> buffer (ready st) !! 0%nat = Some 0 /\
    exists p pkt, pkts !! Z.to_nat (8 * ((zlen pkts - 1) / 8)) = Some p /\ pool st !! 0%nat = Some pkt /\
      pkt_len pkt = zlen p /\ exists rest, pkt_data pkt = p ++ rest).

Lemma staging_push_accepts data st :
  zlen data <= TX_BUF_SIZE -> 0 <= next_slot st < 8 -> head (ready st) = 0 -> 0 <= tail (ready st) < 256 ->
  staging_push data st = (true, mkTxStaging (alter (pkt_write data) (Z.to_nat (next_slot st)) (pool st))
    (mkRing (<[ring_slot (tail (ready st)) := next_slot st]> (buffer (ready st))) 0 (tail (ready st) + 1))
    (if TX_POOL_SIZE <=? next_slot st + 1 then 0 else next_slot st + 1)).
Proof.
  intros Hd Hs Hh Ht. unfold staging_push. rewrite (proj2 (Z.ltb_ge _ _)) by done.
  rewrite (proj2 (Z.leb_gt _ _)) by lia.
  rewrite push_ready_room by (rewrite ?Hh; unfold CAPACITY, U64_MAX; lia).
  rewrite Hh, (w32_small (next_slot st)) by int_lia. done.
Qed.

(** The first ring entry is the first slot, whatever is pushed behind it. *)
Lemma burst_ring_first (pkts : list (list Z)) (buf : list Z) :
  zlen pkts < 256 -> length buf = 256%nat -> (pkts <> [] -> buf !! 0%nat = Some 0) ->
  <[ring_slot (zlen pkts) := zlen pkts mod 8]> buf !! 0%nat = Some 0.
Proof.
  intros Hlen Hbuf Hf. pose proof (zlen_nonneg pkts) as H0.
  destruct pkts as [|q pkts]; [change (<[0%nat := 0]> buf !! 0%nat = Some 0); apply list_lookup_insert_eq; lia|].
  rewrite list_lookup_insert_ne; [by apply Hf|]. change 0%nat with (ring_slot 0).
  rewrite zlen_cons in *. apply ring_slot_inj; unfold CAPACITY; pose proof (zlen_nonneg pkts); lia.
Qed.

Lemma burst pkts :
  zlen pkts <= 256 -> Forall (fun p => zlen p <= TX_BUF_SIZE) pkts ->
  let '(bs, st) := stage_all pkts staging_new in burst_state pkts bs st.
Proof.
  induction pkts as [|data pkts IH] using rev_ind; intros Hlen Hall; [by vm_compute|].
  rewrite zlen_app in Hlen. change (zlen [data]) with 1 in Hlen.
  apply Forall_app in Hall as [Hall [Hd _]%Forall_cons]. specialize (IH ltac:(lia) Hall).
  rewrite stage_all_app. destruct (stage_all pkts staging_new) as [bs st].
  destruct IH as (-> & Hpool & Hbuf & Hh & Ht & Hn & Hfirst). pose proof (zlen_nonneg pkts) as H0.
  pose proof (Z.mod_pos_bound (zlen pkts) 8 ltac:(done)) as Hm. cbn [stage_all].
  rewrite staging_push_accepts by (rewrite ?Hn, ?Ht; lia). rewrite Hn, Ht.
  unfold burst_state. cbn [pool ready next_slot buffer head tail]. rewrite zlen_app, length_app. change (zlen [data]) with 1.
  split_and!.
  - by rewrite replicate_add.
  - by rewrite length_alter.
  - by rewrite length_insert.
  - done.
  - done.
  - case_match; bool_to_prop; int_lia.
  - intros _. replace (zlen pkts + 1 - 1) with (zlen pkts) by lia. split; [apply burst_ring_first; [lia|done|]; intros Hne; by apply Hfirst|].
    destruct (decide (zlen pkts mod 8 = 0)) as [Hz|Hz].
    + destruct (lookup_lt_is_Some_2 (pool st) 0) as [pkt0 Hp0]; [lia|].
      exists data, (pkt_write data pkt0). rewrite Hz. change (Z.to_nat 0) with 0%nat. split_and!; [|by rewrite list_lookup_alter_eq, Hp0|done|by eexists].
      replace (Z.to_nat (8 * (zlen pkts / 8))) with (length pkts) by (unfold zlen in *; int_lia).
      by rewrite lookup_app_r, Nat.sub_diag.
    + destruct Hfirst as [_ (p & pkt & Hp & Hpk & Hl & Hr)]; [by intros ->|]. exists p, pkt.
      split_and!; [|rewrite list_lookup_alter_ne by lia; done|done|done].
      replace (zlen pkts / 8) with ((zlen pkts - 1) / 8) by int_lia.
      rewrite lookup_app_l; [done|]. by eapply lookup_lt_Some.
Qed.

(** a burst of nine packets or more that core 0 has not flushed is accepted
    in full, but the pool has eight buffers and the staging cursor wraps without
    looking at the ring: the first packet flushed is a later one of the burst (the
    ninth, for nine packets), and the packet staged first is lost. *)
Theorem tx_staging_overwrites pkts out :
  8 < zlen pkts <= 256 -> Forall (fun p => zlen p <= TX_BUF_SIZE) pkts -> TX_BUF_SIZE <= zlen out ->
  let '(bs, st) := stage_all pkts staging_new in
  bs = replicate (length pkts) true /\
  exists p rest st', pkts !! Z.to_nat (8 * ((zlen pkts - 1) / 8)) = Some p /\ 8 <= 8 * ((zlen pkts - 1) / 8) /\
    pop_into out st = (Some (zlen p), p ++ rest, st').
Proof.
  intros Hlen Hall Hout. pose proof (burst pkts ltac:(lia) Hall) as Hb.
  destruct (stage_all pkts staging_new) as [bs st].
  destruct Hb as (-> & _ & _ & Hh & Ht & _ & Hfirst). split; [done|].
  destruct Hfirst as [Hr (p & pkt & Hp & Hpk & Hl & rest & Hd)]; [intros ->; rewrite zlen_nil in Hlen; lia|].
  assert (zlen p <= TX_BUF_SIZE) as Hlp by (eapply Forall_lookup_1 in Hall; [|exact Hp]; done).
  unfold pop_into. rewrite (pop_ready_first _ 0) by (rewrite ?Hh, ?Ht; unfold U64_MAX; (done || lia)).
  change (Z.to_nat 0) with 0%nat. rewrite Hpk, Hl, Hd, Z.min_l by lia.
  do 3 eexists. split_and!; [done|int_lia|]. rewrite ztake_app_ge, Z.sub_diag by lia.
  by rewrite app_nil_r.
Qed.

(** Nine one-byte packets: the ninth is flushed first. *)
Lemma tx_staging_overwrites_witness :
  exists bs st rest st', stage_all [[1]; [2]; [3]; [4]; [5]; [6]; [7]; [8]; [9]] staging_new = (bs, st) /\
    bs = replicate 9 true /\ pop_into (replicate 1514 0) st = (Some 1, 9 :: rest, st').
Proof.
  pose proof (tx_staging_overwrites [[1]; [2]; [3]; [4]; [5]; [6]; [7]; [8]; [9]] (replicate 1514 0)
    ltac:(split; vm_compute; congruence) ltac:(repeat constructor; vm_compute; congruence)
    ltac:(vm_compute; congruence)) as H.
  destruct (stage_all _ staging_new) as [bs st]. destruct H as (Hb & p & rest & st' & Hp & _ & Hpop).
  exists bs, st, rest, st'. split; [done|]. split; [exact Hb|]. injection Hp as <-. exact Hpop.
Defined.
