(* ===== verification/Deque.v ===== *)
(** * The work-stealing deque (crates/kernel/core/src/deque.rs)

    The Chase-Lev deque of a fixed ring: the owner pushes and pops at the bottom,
    any number of thieves steal at the top.  Each operation is a machine that
    performs one shared access per step and the steps of the owner and of the
    thieves interleave in any order.  Reading a slot that was never written is
    undefined behaviour ([Panic]). *)

From S2P Require Import Prelude.

Definition CAPACITY : Z := 256.
Abbreviation MASK := (CAPACITY - 1)%Z (only parsing).

(** A function pointer and its argument. *)
Record Task := mkTask { func : Z; arg : Z }.

Record Deque := mkDeque { buffer : list (option Task); bottom : Z; top : Z }.

Definition deque_new : Deque := mkDeque (replicate (Z.to_nat CAPACITY) None) 0 0.

Definition slot (i : Z) : nat := Z.to_nat (Z.land i MASK).

Inductive PushPc :=
  | PushBottom (task : Task)
  | PushTop (task : Task) (b : Z)
  | PushWrite (task : Task) (b : Z)
  | PushStore (task : Task) (b : Z).

Inductive PopPc :=
  | PopBottom
  | PopStore (b : Z)
  | PopTop (b : Z)
  | PopRestore (t : Z)
  | PopRead (b t : Z)
  | PopCas (t : Z) (task : Task)
  | PopFinish (t : Z) (r : option Task).

Inductive StealPc :=
  | StealTop
  | StealBottom (t : Z)
  | StealRead (t : Z)
  | StealCas (t : Z) (task : Task).

Definition deque_push (pc : PushPc) (d : Deque) : Outcome PushPc bool * Deque :=
  match pc with
  | PushBottom task => (Continue (PushTop task (bottom d)), d)
  | PushTop task b =>
      if CAPACITY <=? w64 (b - top d) then (Return false, d) else (Continue (PushWrite task b), d)
  | PushWrite task b =>
      (Continue (PushStore task b), mkDeque (<[slot b := Some task]> (buffer d)) (bottom d) (top d))
  | PushStore task b => (Return true, mkDeque (buffer d) (w64 (b + 1)) (top d))
  end.

Definition deque_pop (pc : PopPc) (d : Deque) : Outcome PopPc (option Task) * Deque :=
  match pc with
  | PopBottom => if bottom d =? 0 then (Return None, d) else (Continue (PopStore (bottom d - 1)), d)
  | PopStore b => (Continue (PopTop b), mkDeque (buffer d) b (top d))
  | PopTop b => if b <? top d then (Continue (PopRestore (top d)), d) else (Continue (PopRead b (top d)), d)
  | PopRestore t => (Return None, mkDeque (buffer d) t (top d))
  | PopRead b t =>
      match buffer d !! slot b with
      | Some (Some task) => if t <? b then (Return (Some task), d) else (Continue (PopCas t task), d)
      | _ => (Panic, d)
      end
  | PopCas t task =>
      if top d =? t then (Continue (PopFinish t (Some task)), mkDeque (buffer d) (bottom d) (w64 (t + 1)))
      else (Continue (PopFinish t None), d)
  | PopFinish t r => (Return r, mkDeque (buffer d) (w64 (t + 1)) (top d))
  end.

Definition deque_steal (pc : StealPc) (d : Deque) : Outcome StealPc (option Task) * Deque :=
  match pc with
  | StealTop => (Continue (StealBottom (top d)), d)
  | StealBottom t => if bottom d <=? t then (Return None, d) else (Continue (StealRead t), d)
  | StealRead t =>
      match buffer d !! slot t with
      | Some (Some task) => (Continue (StealCas t task), d)
      | _ => (Panic, d)
      end
  | StealCas t task =>
      if top d =? t then (Return (Some task), mkDeque (buffer d) (bottom d) (w64 (t + 1))) else (Return None, d)
  end.

(** Two loads, a best-effort snapshot: [bottom] as of [d], then [top] as of [d']. *)
Definition deque_len (d d' : Deque) : Z := sat_sub (bottom d) (top d').

Definition deque_is_empty (d d' : Deque) : bool := deque_len d d' =? 0.

(** The tasks between [top] and [bottom], oldest first. *)
Definition contents (d : Deque) : list Task :=
  omap (fun i => mjoin (buffer d !! slot i)) (seqZ (top d) (bottom d - top d)).

(* ------------------------------------------------------------------ *)
(** ** The owner and the thieves *)

Inductive OwnerPc :=
  | Free
  | Pushing (pc : PushPc)
  | Popping (pc : PopPc).

(** The deque, what the owner and each thief are in the middle of, every task
    pushed, and every task handed to the owner or a thief. *)
Record World := mkWorld {
  deque : Deque;
  owner : OwnerPc;
  thieves : list (option StealPc);
  pushed : list Task;
  taken : list Task;
}.

Definition world_init (n : nat) : World := mkWorld deque_new Free (replicate n None) [] [].

Definition published (pc : PushPc) : list Task := match pc with PushStore task _ => [task] | _ => [] end.

Inductive world_step (w : World) : World -> Prop :=
  | step_push task : owner w = Free ->
      world_step w (mkWorld (deque w) (Pushing (PushBottom task)) (thieves w) (pushed w) (taken w))
  | step_pop : owner w = Free ->
      world_step w (mkWorld (deque w) (Popping PopBottom) (thieves w) (pushed w) (taken w))
  | step_steal k : thieves w !! k = Some None ->
      world_step w (mkWorld (deque w) (owner w) (<[k := Some StealTop]> (thieves w)) (pushed w) (taken w))
  | step_pushing pc pc' d : owner w = Pushing pc -> deque_push pc (deque w) = (Continue pc', d) ->
      world_step w (mkWorld d (Pushing pc') (thieves w) (pushed w) (taken w))
  | step_pushed pc b d : owner w = Pushing pc -> deque_push pc (deque w) = (Return b, d) ->
      world_step w (mkWorld d Free (thieves w) (pushed w ++ published pc) (taken w))
  | step_popping pc pc' d : owner w = Popping pc -> deque_pop pc (deque w) = (Continue pc', d) ->
      world_step w (mkWorld d (Popping pc') (thieves w) (pushed w) (taken w))
  | step_popped pc r d : owner w = Popping pc -> deque_pop pc (deque w) = (Return r, d) ->
      world_step w (mkWorld d Free (thieves w) (pushed w) (taken w ++ option_list r))
  | step_stealing k pc pc' d : thieves w !! k = Some (Some pc) -> deque_steal pc (deque w) = (Continue pc', d) ->
      world_step w (mkWorld d (owner w) (<[k := Some pc']> (thieves w)) (pushed w) (taken w))
  | step_stolen k pc r d : thieves w !! k = Some (Some pc) -> deque_steal pc (deque w) = (Return r, d) ->
      world_step w (mkWorld d (owner w) (<[k := None]> (thieves w)) (pushed w) (taken w ++ option_list r)).

Inductive world_reachable (n : nat) : World -> Prop :=
  | world_reachable_init : world_reachable n (world_init n)
  | world_reachable_step w w' : world_reachable n w -> world_step w w' -> world_reachable n w'.

(* ------------------------------------------------------------------ *)
(** ** The invariant *)

(** One past the last index that can still be taken, and the task the owner has
    taken but not returned yet. *)
Definition live_end (w : World) : Z :=
  match owner w with
  | Popping (PopTop b) => b + 1
  | Popping (PopRestore t) => t
  | Popping (PopRead b t) => if t <? b then b else b + 1
  | Popping (PopCas t _) | Popping (PopFinish t _) => t + 1
  | _ => bottom (deque w)
  end.

Definition in_hand (w : World) : list Task :=
  match owner w with
  | Popping (PopRead b t) =>
      if t <? b then option_list (mjoin (buffer (deque w) !! slot b)) else []
  | Popping (PopFinish _ r) => option_list r
  | _ => []
  end.

Definition owner_ok (w : World) (l : list Task) : Prop :=
  let d := deque w in
  match owner w with
  | Free | Pushing (PushBottom _) | Popping PopBottom => True
  | Pushing (PushTop _ b) => b = bottom d
  | Pushing (PushWrite _ b) => b = bottom d /\ b < top d + CAPACITY
  | Pushing (PushStore task b) => b = bottom d /\ b < top d + CAPACITY /\ buffer d !! slot b = Some (Some task)
  | Popping (PopStore b) => 0 <= b /\ b + 1 = bottom d
  | Popping (PopTop b) => b = bottom d
  | Popping (PopRestore t) => t = bottom d + 1 /\ l = []
  | Popping (PopRead b t) => b = bottom d /\ t <= b /\ t <= top d /\
      (t < b -> exists task, buffer d !! slot b = Some (Some task))
  | Popping (PopCas t task) => t = bottom d /\ t <= top d /\ (top d = t -> l = [task])
  | Popping (PopFinish t _) => t = bottom d /\ l = []
  end.

Definition thief_ok (d : Deque) (l : list Task) (th : option StealPc) : Prop :=
  match th with
  | None | Some StealTop => True
  | Some (StealBottom t) => 0 <= t <= top d
  | Some (StealRead t) => 0 <= t <= top d /\ (t = top d -> l <> [])
  | Some (StealCas t task) => 0 <= t <= top d /\ (t = top d -> exists l', l = task :: l')
  end.

Record world_inv (w : World) (l : list Task) : Prop := {
  w_buffer : length (buffer (deque w)) = Z.to_nat CAPACITY;
  w_top : 0 <= top (deque w);
  w_end : top (deque w) + zlen l = live_end w;
  w_bottom : 0 <= bottom (deque w) <= live_end w;
  w_pushes : live_end w <= zlen (pushed w);
  w_capacity : zlen l <= CAPACITY;
  w_slots : forall i x, l !! i = Some x -> buffer (deque w) !! slot (top (deque w) + Z.of_nat i) = Some (Some x);
  w_written : forall i, 0 <= i < live_end w -> exists x, buffer (deque w) !! slot i = Some (Some x);
  w_owner : owner_ok w l;
  w_thieves : Forall (thief_ok (deque w) l) (thieves w);
  w_tasks : pushed w ≡ₚ taken w ++ in_hand w ++ l;
}.

(* ------------------------------------------------------------------ *)
(** ** Every interleaving *)

Lemma slot_ne i j : i <> j -> -CAPACITY < i - j < CAPACITY -> slot i <> slot j.
Proof. intros Hne Hd. by apply (ring_index_ne i j 8). Qed.

Lemma slot_lt i : (slot i < Z.to_nat CAPACITY)%nat.
Proof. by apply (ring_index_lt i 8). Qed.

(** A thief's facts survive anything that leaves the top and the head of the
    live tasks alone. *)
Lemma thief_ok_mono d d' l l' th :
  top d' = top d -> (l <> [] -> l' <> []) -> (forall x k, l = x :: k -> exists k', l' = x :: k') ->
  thief_ok d l th -> thief_ok d' l' th.
Proof.
  intros Ht Hl Hx. destruct th as [[|t|t|t task]|]; cbn; rewrite ?Ht; try done.
  - intros [? H]. auto.
  - intros [? H]. split; [done|]. intros E. destruct (H E) as [k Hk]. eauto.
Qed.

(** ... and, when the top moves, they become void. *)
Lemma thief_ok_top d d' l l' th : top d' = top d + 1 -> thief_ok d l th -> thief_ok d' l' th.
Proof.
  intros Ht. destruct th as [[|t|t|t task]|]; cbn; rewrite ?Ht; try done; [lia|..]; intros [? _]; split; lia.
Qed.

Lemma thieves_mono d d' l l' ths :
  top d' = top d -> (l <> [] -> l' <> []) -> (forall x k, l = x :: k -> exists k', l' = x :: k') ->
  Forall (thief_ok d l) ths -> Forall (thief_ok d' l') ths.
Proof. intros Ht Hl Hx H. eapply Forall_impl; [exact H|]. intros th. by apply thief_ok_mono. Qed.

Lemma thieves_top d d' l l' ths :
  top d' = top d + 1 -> Forall (thief_ok d l) ths -> Forall (thief_ok d' l') ths.
Proof. intros Ht H. eapply Forall_impl; [exact H|]. intros th. by apply thief_ok_top. Qed.

Lemma inv_push w l pc o d :
  world_inv w l -> owner w = Pushing pc -> deque_push pc (deque w) = (o, d) ->
  zlen (pushed w ++ published pc) <= U64_MAX ->
  match o with
  | Continue pc' => world_inv (mkWorld d (Pushing pc') (thieves w) (pushed w) (taken w)) l
  | Return b => (b = false -> zlen l = CAPACITY) /\
      exists l', world_inv (mkWorld d Free (thieves w) (pushed w ++ published pc) (taken w)) l'
  | Panic => False
  end.
Proof.
  intros [Hbuf Htop Hend Hbot Hpu Hcap Hsl Hwr How Hth Hta] Hpc Hrun Hmax.
  unfold owner_ok, live_end, in_hand in *. rewrite Hpc in *. cbn in Hta. pose proof (zlen_nonneg l) as Hl0.
  destruct pc as [task|task b|task b|task b]; cbn in Hrun; cbn [published] in *; rewrite ?app_nil_r in Hmax.
  - injection Hrun as <- <-. by split.
  - subst b. rewrite w64_small in Hrun by int_lia.
    destruct (CAPACITY <=? _) eqn:E; injection Hrun as <- <-; bool_to_prop.
    + rewrite app_nil_r. split; [lia|]. exists l. by split.
    + split; try done. cbn. lia.
  - destruct How as [-> Hlt]. injection Hrun as <- <-. split; try done; cbn.
    + by rewrite length_insert.
    + intros i x Hi. pose proof (lookup_lt_Some _ _ _ Hi). unfold zlen in *.
      rewrite list_lookup_insert_ne; [by apply Hsl|]. apply slot_ne; unfold CAPACITY in *; lia.
    + intros i Hi. destruct (decide (slot i = slot (bottom (deque w)))) as [->|Hne].
      * eexists. apply list_lookup_insert_eq. rewrite Hbuf. apply slot_lt.
      * rewrite list_lookup_insert_ne by done. by apply Hwr.
    + split_and!; [done..|]. apply list_lookup_insert_eq. rewrite Hbuf. apply slot_lt.
  - destruct How as (-> & Hlt & Hit). injection Hrun as <- <-. rewrite zlen_app in Hmax.
    change (zlen [task]) with 1 in Hmax. split; [done|]. exists (l ++ [task]).
    assert (w64 (bottom (deque w) + 1) = bottom (deque w) + 1) as Hw by (apply w64_small; int_lia).
    split; try done; cbn; rewrite ?Hw, ?zlen_app; change (zlen [task]) with 1; try lia.
    + intros i x [Hi|(Hi & Hx)]%lookup_app_Some; [by apply Hsl|]. apply list_lookup_singleton_Some in Hx as [Hi' <-].
      rewrite <-Hit. do 2 f_equal. unfold zlen in *. lia.
    + intros i Hi. destruct (decide (i = bottom (deque w))) as [->|Hne]; [eauto|]. apply Hwr. lia.
    + apply (thieves_mono (deque w) _ l); [done|by destruct l|by intros x k ->; eauto|done].
    + rewrite Hta. by rewrite (assoc_L _).
Qed.

(** Splits the invariant of a new state and decides its arithmetic parts. *)
Ltac world_goal :=
  split; try done; unfold live_end, owner_ok, in_hand; cbn; rewrite ?zlen_nil, ?app_nil_r; try done; try lia.

(** The owner's load of [top] after it has reserved index [b]. *)
Lemma inv_pop_top w l b d pc' :
  world_inv w l -> owner w = Popping (PopTop b) -> deque_pop (PopTop b) (deque w) = (Continue pc', d) ->
  exists l', world_inv (mkWorld d (Popping pc') (thieves w) (pushed w) (taken w)) l'.
Proof.
  intros [Hbuf Htop Hend Hbot Hpu Hcap Hsl Hwr How Hth Hta] Hpc Hrun.
  unfold owner_ok, live_end, in_hand in *. rewrite Hpc in *. cbn in Hta, Hrun. subst b.
  pose proof (zlen_nonneg l) as Hl0.
  destruct (bottom (deque w) <? top (deque w)) eqn:E; injection Hrun as <- <-; bool_to_prop.
  { assert (l = []) as -> by (apply zlen_nil_inv; lia). rewrite zlen_nil in *. exists [].
    split; try done; unfold live_end; cbn; rewrite ?zlen_nil; try lia; [|split; [lia|done]]. intros i Hi. apply Hwr. lia. }
  destruct (top (deque w) <? bottom (deque w)) eqn:Et; bool_to_prop.
  - destruct l as [|x l _] using rev_ind; [rewrite zlen_nil in *; lia|]. exists l.
    rewrite zlen_app in *. change (zlen [x]) with 1 in *.
    assert (buffer (deque w) !! slot (bottom (deque w)) = Some (Some x)) as Hx.
    { rewrite <-(Hsl (length l) x); [|by rewrite lookup_app_r, Nat.sub_diag]. do 2 f_equal. unfold zlen in *. lia. }
    assert (l <> []) as Hne by (intros ->; rewrite zlen_nil in *; lia).
    split; try done; unfold live_end; cbn; rewrite ?(proj2 (Z.ltb_lt _ _) Et); rewrite ?zlen_nil; try lia.
    + intros i y Hi. apply Hsl. by apply lookup_app_l_Some.
    + intros i Hi. apply Hwr. lia.
    + unfold owner_ok. cbn. split_and!; try done; rewrite ?zlen_nil; try lia. eauto.
    + apply (thieves_mono (deque w) _ (l ++ [x])); [done..| |done]. intros y k Hy. destruct l as [|z l]; [done|].
      injection Hy as <- <-. eauto.
    + unfold in_hand. cbn. rewrite Hx, Hta. cbn. f_equiv. symmetry. apply Permutation_cons_append.
  - exists l. split; try done; unfold live_end; cbn; rewrite ?(proj2 (Z.ltb_ge _ _) Et); rewrite ?zlen_nil; try lia.
    + intros i Hi. apply Hwr. lia.
    + unfold in_hand. cbn. done.
Qed.

Lemma inv_pop w l pc o d :
  world_inv w l -> owner w = Popping pc -> deque_pop pc (deque w) = (o, d) -> zlen (pushed w) <= U64_MAX ->
  match o with
  | Continue pc' => exists l', world_inv (mkWorld d (Popping pc') (thieves w) (pushed w) (taken w)) l'
  | Return r => exists l', world_inv (mkWorld d Free (thieves w) (pushed w) (taken w ++ option_list r)) l'
  | Panic => False
  end.
Proof.
  intros Hinv Hpc Hrun Hmax. pose proof Hinv as [Hbuf Htop Hend Hbot Hpu Hcap Hsl Hwr How Hth Hta].
  destruct pc as [|b|b|t|b t|t task|t r].
  3: { pose proof Hrun as Hrun'. cbn in Hrun'. destruct (b <? top (deque w)); injection Hrun' as <- _; by eapply inv_pop_top. }
  all: unfold owner_ok, live_end, in_hand in *; rewrite Hpc in *; cbn in Hta, Hrun; pose proof (zlen_nonneg l) as Hl0.
  - destruct (bottom (deque w) =? 0) eqn:E; injection Hrun as <- <-; bool_to_prop; exists l; world_goal.
  - destruct How as [Hb0 Hb1]. injection Hrun as <- <-. exists l. world_goal. intros i Hi. apply Hwr. lia.
  - destruct How as [-> ->]. injection Hrun as <- <-. rewrite zlen_nil in *. exists []. world_goal.
    by rewrite app_nil_r in Hta.
  - destruct How as (-> & Htb & Htt & Hx). destruct (t <? bottom (deque w)) eqn:E; bool_to_prop.
    + destruct (Hx E) as [task Htask]. rewrite Htask in *. injection Hrun as <- <-. exists l. cbn in Hta.
      world_goal. by rewrite <-(assoc_L _).
    + destruct (Hwr (bottom (deque w))) as [x Hbx]; [lia|]. rewrite Hbx in Hrun. injection Hrun as <- <-. exists l.
      assert (t = bottom (deque w)) as -> by lia. world_goal. split_and!; try done.
      intros Hteq. destruct l as [|y l]; [rewrite zlen_nil in *; lia|]. rewrite zlen_cons in *.
      assert (l = []) as -> by (apply zlen_nil_inv; pose proof (zlen_nonneg l); lia).
      specialize (Hsl 0%nat y eq_refl). rewrite Z.add_0_r, Hteq, Hbx in Hsl. by injection Hsl as ->.
  - destruct How as (-> & Htt & Hl). destruct (top (deque w) =? bottom (deque w)) eqn:E; injection Hrun as <- <-; bool_to_prop.
    + specialize (Hl E). subst l. exists []. change (zlen [task]) with 1 in *.
      assert (w64 (bottom (deque w) + 1) = bottom (deque w) + 1) as Hw by (apply w64_small; int_lia).
      world_goal; rewrite ?Hw; try done; try lia.
      apply (thieves_top (deque w) _ [task]); cbn; [lia|done].
    + assert (l = []) as -> by (apply zlen_nil_inv; lia). exists []. world_goal.
  - destruct How as [-> ->]. injection Hrun as <- <-. exists []. rewrite zlen_nil in *.
    assert (w64 (bottom (deque w) + 1) = bottom (deque w) + 1) as Hw by (apply w64_small; int_lia).
    world_goal; rewrite ?Hw; try done; try lia. by rewrite app_nil_r in Hta.
Qed.

Lemma inv_steal w l k pc o d :
  world_inv w l -> thieves w !! k = Some (Some pc) -> deque_steal pc (deque w) = (o, d) -> zlen (pushed w) <= U64_MAX ->
  match o with
  | Continue pc' => world_inv (mkWorld d (owner w) (<[k := Some pc']> (thieves w)) (pushed w) (taken w)) l
  | Return r => exists l', l = option_list r ++ l' /\
      world_inv (mkWorld d (owner w) (<[k := None]> (thieves w)) (pushed w) (taken w ++ option_list r)) l'
  | Panic => False
  end.
Proof.
  intros [Hbuf Htop Hend Hbot Hpu Hcap Hsl Hwr How Hth Hta] Hk Hrun Hmax. pose proof (zlen_nonneg l) as Hl0.
  pose proof (Forall_lookup_1 _ _ _ _ Hth Hk) as Hpc. destruct pc as [|t|t|t task]; cbn in Hrun, Hpc.
  - injection Hrun as <- <-. split; try done. cbn. apply Forall_insert; [done|]. cbn. lia.
  - destruct (bottom (deque w) <=? t) eqn:E; injection Hrun as <- <-; bool_to_prop.
    + exists l. split; [done|]. split; try done; cbn; [by apply Forall_insert|by rewrite app_nil_r].
    + split; try done. cbn. apply Forall_insert; [done|]. cbn. split; [done|]. intros -> ->.
      rewrite zlen_nil in *. lia.
  - destruct Hpc as [Ht Hne]. assert (t < live_end w) as Hlt.
    { destruct (decide (t = top (deque w))) as [->|]; [|lia]. destruct l as [|y l]; [by destruct (Hne eq_refl)|].
      rewrite zlen_cons in *. pose proof (zlen_nonneg l). lia. }
    destruct (Hwr t) as [x Hx]; [lia|]. rewrite Hx in Hrun. injection Hrun as <- <-. split; try done. cbn.
    apply Forall_insert; [done|]. cbn. split; [done|]. intros ->. destruct l as [|y l]; [by destruct (Hne eq_refl)|].
    specialize (Hsl 0%nat y eq_refl). rewrite Z.add_0_r, Hx in Hsl. injection Hsl as ->. eauto.
  - destruct Hpc as [Ht Hhd]. destruct (top (deque w) =? t) eqn:E; injection Hrun as <- <-; bool_to_prop.
    + destruct (Hhd ltac:(done)) as [l' ->]. exists l'. split; [done|]. rewrite zlen_cons in *. subst t.
      pose proof (zlen_nonneg l') as Hl'.
      assert (w64 (top (deque w) + 1) = top (deque w) + 1) as Hw by (apply w64_small; int_lia).
      split; try done; change (live_end (mkWorld _ (owner w) _ _ _)) with (live_end w); cbn; rewrite ?Hw; try lia.
      * intros i x Hi. rewrite <-(Hsl (S i) x Hi). do 2 f_equal. lia.
      * unfold owner_ok in *. cbn. rewrite ?Hw. destruct (owner w) as [|[]|[]]; try done; try lia; destruct_and?; try done.
        all: split_and!; try done; lia.
      * apply Forall_insert; [|done]. apply (thieves_top (deque w) _ (task :: l')); [by cbn|done].
      * change (pushed w ≡ₚ (taken w ++ [task]) ++ in_hand w ++ l'). rewrite Hta. solve_Permutation.
    + exists l. split; [done|]. split; try done; cbn; [by apply Forall_insert|by rewrite app_nil_r].
Qed.

Lemma pushes_grow w w' : world_step w w' -> zlen (pushed w) <= zlen (pushed w').
Proof. destruct 1; cbn; rewrite ?zlen_app; pose proof (zlen_nonneg (pushed w)); try lia. pose proof (zlen_nonneg (published pc)). lia. Qed.

Lemma world_inv_step w l w' :
  world_inv w l -> world_step w w' -> zlen (pushed w') <= U64_MAX -> exists l', world_inv w' l'.
Proof.
  intros H Hst Hmax. pose proof (pushes_grow _ _ Hst) as Hg.
  destruct Hst as [task Ho|Ho|k Hk|pc pc' d Ho Hr|pc b d Ho Hr|pc pc' d Ho Hr|pc r d Ho Hr|k pc pc' d Hk Hr|k pc r d Hk Hr];
    cbn [pushed] in *.
  - exists l. destruct H. unfold live_end, in_hand, owner_ok in *. rewrite Ho in *. by split.
  - exists l. destruct H. unfold live_end, in_hand, owner_ok in *. rewrite Ho in *. by split.
  - exists l. destruct H. split; try done. cbn. by apply Forall_insert.
  - exists l. apply (inv_push _ _ _ _ _ H Ho Hr). destruct pc; cbn in *; try done; by rewrite app_nil_r.
  - by destruct (inv_push _ _ _ _ _ H Ho Hr Hmax) as [_ ?].
  - by apply (inv_pop _ _ _ _ _ H Ho Hr).
  - by apply (inv_pop _ _ _ _ _ H Ho Hr).
  - exists l. by apply (inv_steal _ _ _ _ _ _ H Hk Hr).
  - destruct (inv_steal _ _ _ _ _ _ H Hk Hr) as (l' & _ & Hl'); [done|]. eauto.
Qed.

Lemma world_reachable_inv n w : world_reachable n w -> zlen (pushed w) <= U64_MAX -> exists l, world_inv w l.
Proof.
  induction 1 as [|w w' _ IH Hst]; intros Hmax.
  - exists []. split; try done; cbn; try lia; try (intros; lia). by apply Forall_replicate.
  - destruct IH as [l Hl]; [pose proof (pushes_grow _ _ Hst); lia|]. by eapply world_inv_step.
Qed.

(** Between calls of the owner, the live tasks are the deque's contents. *)
Lemma contents_live w l : world_inv w l -> owner w = Free -> contents (deque w) = l.
Proof.
  intros [_ _ Hend _ _ _ Hsl _ _ _ _] Ho. unfold live_end in Hend. rewrite Ho in Hend. unfold contents.
  replace (bottom (deque w) - top (deque w)) with (zlen l) by lia. clear Hend Ho.
  revert Hsl. generalize (top (deque w)) as t. induction l as [|x l IH]; intros t Hsl; [done|].
  rewrite zlen_cons, seqZ_cons by (pose proof (zlen_nonneg l); lia).
  replace (Z.pred (zlen l + 1)) with (zlen l) by lia. cbn [omap list_omap].
  pose proof (Hsl 0%nat x eq_refl) as H0. rewrite Z.add_0_r in H0. rewrite H0. cbn. f_equal.
  apply IH. intros i y Hi. rewrite <-(Hsl (S i) y Hi). do 2 f_equal. lia.
Qed.

(* ------------------------------------------------------------------ *)
(** ** Schedules *)

Inductive Act := DoPush (task : Task) | DoPop | DoSteal (k : nat) | Owner | Thief (k : nat).

Definition act (a : Act) (w : World) : option World :=
  let upd d o ths ps ts := Some (mkWorld d o ths ps ts) in
  match a with
  | DoPush task =>
      match owner w with
      | Free => upd (deque w) (Pushing (PushBottom task)) (thieves w) (pushed w) (taken w)
      | _ => None
      end
  | DoPop =>
      match owner w with
      | Free => upd (deque w) (Popping PopBottom) (thieves w) (pushed w) (taken w)
      | _ => None
      end
  | DoSteal k =>
      match thieves w !! k with
      | Some None => upd (deque w) (owner w) (<[k := Some StealTop]> (thieves w)) (pushed w) (taken w)
      | _ => None
      end
  | Owner =>
      match owner w with
      | Free => None
      | Pushing pc =>
          match deque_push pc (deque w) with
          | (Continue pc', d) => upd d (Pushing pc') (thieves w) (pushed w) (taken w)
          | (Return _, d) => upd d Free (thieves w) (pushed w ++ published pc) (taken w)
          | (Panic, _) => None
          end
      | Popping pc =>
          match deque_pop pc (deque w) with
          | (Continue pc', d) => upd d (Popping pc') (thieves w) (pushed w) (taken w)
          | (Return r, d) => upd d Free (thieves w) (pushed w) (taken w ++ option_list r)
          | (Panic, _) => None
          end
      end
  | Thief k =>
      match thieves w !! k with
      | Some (Some pc) =>
          match deque_steal pc (deque w) with
          | (Continue pc', d) => upd d (owner w) (<[k := Some pc']> (thieves w)) (pushed w) (taken w)
          | (Return r, d) => upd d (owner w) (<[k := None]> (thieves w)) (pushed w) (taken w ++ option_list r)
          | (Panic, _) => None
          end
      | _ => None
      end
  end.

Fixpoint acts (l : list Act) (w : World) : option World :=
  match l with
  | [] => Some w
  | a :: l => w' ← act a w; acts l w'
  end.

Lemma act_step a w w' : act a w = Some w' -> world_step w w'.
Proof.
  destruct a as [task| |k| |k]; cbn.
  - destruct (owner w) eqn:E; try done. intros [= <-]. by constructor.
  - destruct (owner w) eqn:E; try done. intros [= <-]. by constructor.
  - destruct (thieves w !! k) as [[?|]|] eqn:E; try done. intros [= <-]. by constructor.
  - destruct (owner w) as [|pc|pc] eqn:E; [done|..].
    + destruct (deque_push pc (deque w)) as [[]?] eqn:Er; try done; intros [= <-]; by econstructor.
    + destruct (deque_pop pc (deque w)) as [[]?] eqn:Er; try done; intros [= <-]; by econstructor.
  - destruct (thieves w !! k) as [[pc|]|] eqn:E; try done.
    destruct (deque_steal pc (deque w)) as [[]?] eqn:Er; try done; intros [= <-]; by econstructor.
Qed.

Lemma acts_reachable n l : forall w w', world_reachable n w -> acts l w = Some w' -> world_reachable n w'.
Proof.
  induction l as [|a l IH]; intros w w' Hw; cbn; [by intros [= <-]|].
  destruct (act a w) as [w1|] eqn:E; [|done]. apply IH. econstructor; [done|]. by eapply act_step.
Qed.

(** C17: in every interleaving of the owner's pushes and pops with any number of
    concurrent steals (fewer than [2^64] pushes), every task handed out was pushed
    and is handed out at most once; between the owner's calls, what was pushed is
    exactly what was handed out and what the deque still holds, and a steal that
    succeeds then takes the oldest task; and no slot is read before it was
    written. *)
Theorem deque_exactly_once n w :
  world_reachable n w -> zlen (pushed w) <= U64_MAX ->
  taken w ⊆+ pushed w /\
  (owner w = Free -> pushed w ≡ₚ taken w ++ contents (deque w)) /\
  (forall k pc, thieves w !! k = Some (Some pc) -> fst (deque_steal pc (deque w)) <> Panic /\
    forall x d, owner w = Free -> deque_steal pc (deque w) = (Return (Some x), d) ->
      contents (deque w) = x :: contents d) /\
  (forall pc, owner w = Popping pc -> fst (deque_pop pc (deque w)) <> Panic).
Proof.
  intros Hr Hmax. destruct (world_reachable_inv _ _ Hr Hmax) as [l H]. pose proof (w_tasks _ _ H) as Hta. split_and!.
  - rewrite Hta. apply submseteq_inserts_r. done.
  - intros Ho. rewrite (contents_live _ _ H Ho), Hta. unfold in_hand. by rewrite Ho.
  - intros k pc Hk. destruct (deque_steal pc (deque w)) as [o d] eqn:Er.
    pose proof (inv_steal _ _ _ _ _ _ H Hk Er Hmax) as Hs. split; [by destruct o|].
    intros x d' Ho [= -> ->]. destruct Hs as (l' & Hl & Hl'). rewrite (contents_live _ _ H Ho), Hl. cbn. f_equal.
    symmetry. by apply (contents_live _ _ Hl').
  - intros pc Ho E. destruct (deque_pop pc (deque w)) as [o d] eqn:Er. cbn in E. subst o.
    by pose proof (inv_pop _ _ _ _ _ H Ho Er Hmax).
Qed.

(** One task, the owner's pop and a steal both past their reads: the thief's
    compare-and-swap wins, the owner gets nothing. *)
Definition contended : list Act :=
  [DoPush (mkTask 1 7); Owner; Owner; Owner; Owner; DoSteal 0; Thief 0; Thief 0; Thief 0;
   DoPop; Owner; Owner; Owner; Owner; Thief 0; Owner; Owner].

Lemma deque_exactly_once_witness :
  exists w, acts contended (world_init 1) = Some w /\ pushed w = [mkTask 1 7] /\ taken w = [mkTask 1 7] /\
    owner w = Free /\ taken w ⊆+ pushed w /\ pushed w ≡ₚ taken w ++ contents (deque w).
Proof.
  destruct (acts contended (world_init 1)) as [w|] eqn:E; [|by vm_compute in E].
  exists w. assert (pushed w = [mkTask 1 7] /\ taken w = [mkTask 1 7] /\ owner w = Free) as (Hpu & Hta & Ho)
    by (vm_compute in E; injection E as <-; done).
  destruct (deque_exactly_once 1 w) as (H1 & H2 & _).
  - eapply acts_reachable; [constructor|exact E].
  - by rewrite Hpu.
  - exact (conj eq_refl (conj Hpu (conj Hta (conj Ho (conj H1 (H2 Ho)))))).
Defined.

(* ------------------------------------------------------------------ *)
(** ** A thief that was overtaken *)

(** A thief stalls before reading the slot it saw at the top, another thief takes
    that task, and the owner pushes round the ring. *)
Definition overtaken : list Act :=
  [DoPush (mkTask 1 0); Owner; Owner; Owner; Owner; DoSteal 0; Thief 0; Thief 0;
   DoSteal 1; Thief 1; Thief 1; Thief 1; Thief 1] ++
  concat (replicate 255 [DoPush (mkTask 1 1); Owner; Owner; Owner; Owner]) ++ [DoPush (mkTask 1 2); Owner; Owner].

(** The compare-and-swap discards what such a thief reads, but the read itself
    races: the thief is about to read the very slot the owner is about to write. *)
Lemma stale_steal_races_push :
  exists w b t task, world_reachable 2 w /\ owner w = Pushing (PushWrite task b) /\
    thieves w !! 0%nat = Some (Some (StealRead t)) /\ slot t = slot b.
Proof.
  destruct (acts overtaken (world_init 2)) as [w|] eqn:E; [|by vm_compute in E].
  exists w, 256, 0, (mkTask 1 2). split; [eapply acts_reachable; [constructor|exact E]|].
  vm_compute in E. injection E as <-. done.
Qed.
