(* ===== verification/Drr.v ===== *)
(** * The deficit-round-robin scheduler (crates/proto/quic/src/drr.rs)

    A fair queue over [N] flows: a ring of scheduled flow ids, and per flow its
    weight, its unspent credit, whether it wants service and whether it has a
    slot in the ring.  [deactivate] leaves the slot behind and [next_flow] drops
    it when it surfaces. *)

From S2P Require Import Prelude.

Record DeficitRoundRobin := mkDrr {
  quantum : list Z;
  deficit : list Z;
  active : list bool;
  scheduled : list bool;
  ring : list Z;
  rhead : Z;
  len : Z;
}.

Section ops.
  Context (N : Z).

Definition drr_new : DeficitRoundRobin :=
  let n := Z.to_nat N in
  mkDrr (replicate n 0) (replicate n 0) (replicate n false) (replicate n false) (replicate n 0) 0 0.

Definition set_flow {A} (flow : Z) (x : A) (l : list A) : list A := <[Z.to_nat flow := x]> l.
Definition get_flow (flow : Z) (l : list Z) : Z := default 0 (l !! Z.to_nat flow).
Definition is_set (flow : Z) (l : list bool) : bool := default false (l !! Z.to_nat flow).

Definition push_tail (flow : Z) (s : DeficitRoundRobin) : DeficitRoundRobin :=
  mkDrr (quantum s) (deficit s) (active s) (scheduled s)
    (set_flow ((rhead s + len s) mod N) flow (ring s)) (rhead s) (len s + 1).

Definition pop_head (s : DeficitRoundRobin) : Z * DeficitRoundRobin :=
  (get_flow (rhead s) (ring s),
   mkDrr (quantum s) (deficit s) (active s) (scheduled s) (ring s) ((rhead s + 1) mod N) (len s - 1)).

Definition activate (flow q : Z) (s : DeficitRoundRobin) : DeficitRoundRobin :=
  if N <=? flow then s
  else
    let s1 := mkDrr (set_flow flow (Z.max q 1) (quantum s)) (deficit s) (set_flow flow true (active s))
                (scheduled s) (ring s) (rhead s) (len s) in
    if is_set flow (scheduled s) then s1
    else push_tail (w16 flow)
      (mkDrr (quantum s1) (set_flow flow 0 (deficit s1)) (active s1) (set_flow flow true (scheduled s1))
         (ring s1) (rhead s1) (len s1)).

Definition deactivate (flow : Z) (s : DeficitRoundRobin) : DeficitRoundRobin :=
  if N <=? flow then s
  else mkDrr (quantum s) (set_flow flow 0 (deficit s)) (set_flow flow false (active s)) (scheduled s)
         (ring s) (rhead s) (len s).

(** [fuel] bounds the turns of the loop; each turn removes a ring entry or
    returns. *)
Fixpoint next_flow_loop (fuel : nat) (s : DeficitRoundRobin) : option (option Z * DeficitRoundRobin) :=
  match fuel with
  | O => None
  | S fuel =>
      if len s =? 0 then Some (None, s)
      else
        let '(f, s1) := pop_head s in
        if negb (is_set f (active s1)) then
          next_flow_loop fuel (mkDrr (quantum s1) (deficit s1) (active s1) (set_flow f false (scheduled s1))
            (ring s1) (rhead s1) (len s1))
        else
          Some (Some f, push_tail f (mkDrr (quantum s1)
            (set_flow f (sat_add32 (get_flow f (deficit s1)) (get_flow f (quantum s1))) (deficit s1))
            (active s1) (scheduled s1) (ring s1) (rhead s1) (len s1)))
  end.

Definition next_flow (s : DeficitRoundRobin) : option Z * DeficitRoundRobin :=
  default (None, s) (next_flow_loop (S (Z.to_nat (len s))) s).

Definition grant (flow : Z) (s : DeficitRoundRobin) : Z :=
  if N <=? flow then 0 else get_flow flow (deficit s).

Definition charge (flow bytes : Z) (s : DeficitRoundRobin) : DeficitRoundRobin :=
  if N <=? flow then s
  else mkDrr (quantum s) (set_flow flow (sat_sub (get_flow flow (deficit s)) bytes) (deficit s)) (active s)
         (scheduled s) (ring s) (rhead s) (len s).

Definition is_active (flow : Z) (s : DeficitRoundRobin) : bool := (flow <? N) && is_set flow (active s).

Definition has_work (s : DeficitRoundRobin) : bool := negb (len s =? 0).

(* ------------------------------------------------------------------ *)
(** ** The queue *)

(** [drr_inv s q]: the ring holds the flows [q], front first, each once. *)
Record drr_inv (s : DeficitRoundRobin) (q : list Z) : Prop := {
  drr_quantum : length (quantum s) = Z.to_nat N;
  drr_deficit : length (deficit s) = Z.to_nat N;
  drr_active : length (active s) = Z.to_nat N;
  drr_scheduled : length (scheduled s) = Z.to_nat N;
  drr_ring : length (ring s) = Z.to_nat N;
  drr_head : 0 <= rhead s < N;
  drr_len : len s = zlen q;
  drr_slots : forall i f, q !! i = Some f -> ring s !! Z.to_nat ((rhead s + Z.of_nat i) mod N) = Some f;
  drr_nodup : NoDup q;
  drr_bounds : Forall (fun f => 0 <= f < N) q;
  drr_listed : forall f, 0 <= f < N -> (is_set f (scheduled s) = true <-> f ∈ q);
  drr_wants : forall f, 0 <= f < N -> is_set f (active s) = true -> f ∈ q;
}.

End ops.

(** One call of the scheduler's client. *)
Inductive Op := Activate (flow q : Z) | Deactivate (flow : Z) | NextFlow | Charge (flow bytes : Z).

Definition op_run (N : Z) (o : Op) (s : DeficitRoundRobin) : list Z * DeficitRoundRobin :=
  match o with
  | Activate f q => ([], activate N f q s)
  | Deactivate f => ([], deactivate N f s)
  | NextFlow => let '(r, s') := next_flow N s in (option_list r, s')
  | Charge f b => ([], charge N f b s)
  end.

(** The flows served by a sequence of calls, and the final state. *)
Fixpoint ops_run (N : Z) (os : list Op) (s : DeficitRoundRobin) : list Z * DeficitRoundRobin :=
  match os with
  | [] => ([], s)
  | o :: os => let '(r, s1) := op_run N o s in let '(rs, s2) := ops_run N os s1 in (r ++ rs, s2)
  end.

(** Flow ids are array indices. *)
Definition op_ok (N : Z) (o : Op) : Prop :=
  match o with
  | Activate f _ | Deactivate f | Charge f _ => 0 <= f
  | NextFlow => True
  end.

Definition is_next (o : Op) : bool := match o with NextFlow => true | _ => false end.

(* ------------------------------------------------------------------ *)
(** ** Per-flow arrays and the ring *)

Lemma set_flow_length {A} f (x : A) l : length (set_flow f x l) = length l.
Proof. apply length_insert. Qed.

Lemma is_set_set_flow f g b l :
  0 <= f -> 0 <= g < Z.of_nat (length l) -> is_set f (set_flow g b l) = if decide (f = g) then b else is_set f l.
Proof.
  intros Hf Hg. unfold is_set, set_flow. case_decide as H.
  - subst f. rewrite list_lookup_insert_eq by lia. done.
  - rewrite list_lookup_insert_ne by lia. done.
Qed.

Lemma get_flow_set_flow f g x l :
  0 <= f -> 0 <= g < Z.of_nat (length l) -> get_flow f (set_flow g x l) = if decide (f = g) then x else get_flow f l.
Proof.
  intros Hf Hg. unfold get_flow, set_flow. case_decide as H.
  - subst f. rewrite list_lookup_insert_eq by lia. done.
  - rewrite list_lookup_insert_ne by lia. done.
Qed.

Section queue.
  Context (N : Z) (HN : 0 < N <= 65536).
  Implicit Types (s : DeficitRoundRobin) (q : list Z).

Lemma queue_room q f :
  NoDup q -> Forall (fun f => 0 <= f < N) q -> 0 <= f < N -> f ∉ q -> zlen q < N.
Proof.
  intros Hnd Hb Hf Hni. assert (f :: q ⊆+ seqZ 0 N) as Hs%submseteq_length.
  { apply NoDup_submseteq; [by constructor|]. intros g [->|Hg]%elem_of_cons; apply elem_of_seqZ; [lia|].
    rewrite Forall_forall in Hb. specialize (Hb g Hg). lia. }
  rewrite length_seqZ in Hs. cbn in Hs. unfold zlen. lia.
Qed.

Lemma ring_index_bounds h i : 0 <= (h + i) mod N < N.
Proof. apply Z.mod_pos_bound. lia. Qed.

(** Positions of a queue that fits the ring do not wrap onto each other. *)
Lemma ring_positions_ne h i j :
  0 <= i < N -> 0 <= j < N -> i <> j -> (h + i) mod N <> (h + j) mod N.
Proof.
  intros Hi Hj Hne E. apply Hne. pose proof (Z.div_mod (h + i) N ltac:(lia)) as H1.
  pose proof (Z.div_mod (h + j) N ltac:(lia)) as H2. rewrite E in H1.
  destruct (Z.lt_trichotomy ((h + i) / N) ((h + j) / N)) as [Hq|[Hq|Hq]]; [nia|lia|nia].
Qed.

(** The ring part of the invariant. *)
Definition holds (r : list Z) (h : Z) q : Prop :=
  forall i f, q !! i = Some f -> r !! Z.to_nat ((h + Z.of_nat i) mod N) = Some f.

Lemma holds_push r h q f :
  holds r h q -> length r = Z.to_nat N -> zlen q < N -> holds (set_flow ((h + zlen q) mod N) f r) h (q ++ [f]).
Proof.
  intros Hr Hlen Hq i g Hi. unfold set_flow. pose proof (ring_index_bounds h (zlen q)) as Hb.
  apply lookup_app_Some in Hi as [Hi|[Hle Hi]].
  - pose proof (lookup_lt_Some _ _ _ Hi) as Hlt. rewrite list_lookup_insert_ne; [by apply Hr|].
    pose proof (ring_index_bounds h (Z.of_nat i)). intros E.
    apply (ring_positions_ne h (zlen q) (Z.of_nat i)); unfold zlen in *; lia.
  - apply list_lookup_singleton_Some in Hi as [Hi <-]. assert (Z.of_nat i = zlen q) as -> by (unfold zlen; lia).
    apply list_lookup_insert_eq. lia.
Qed.

Lemma holds_pop r h q f : holds r h (f :: q) -> holds r ((h + 1) mod N) q.
Proof.
  intros Hr i g Hi. rewrite <-(Hr (S i) g Hi). do 2 f_equal. rewrite Zplus_mod_idemp_l. f_equal. lia.
Qed.

Lemma holds_head r h q f : 0 <= h < N -> holds r h (f :: q) -> get_flow h r = f.
Proof.
  intros Hh Hr. specialize (Hr 0%nat f eq_refl). rewrite Z.add_0_r, Z.mod_small in Hr by done.
  unfold get_flow. by rewrite Hr.
Qed.

(* ------------------------------------------------------------------ *)
(** ** Every call keeps the queue *)

Lemma drr_new_inv : drr_inv N (drr_new N) [].
Proof.
  split; cbn; try (by rewrite length_replicate); try done; try lia; [by apply NoDup_nil| |].
  - intros f Hf. unfold is_set. rewrite lookup_replicate_2 by lia. cbn. split; [done|set_solver].
  - intros f Hf. unfold is_set. by rewrite lookup_replicate_2 by lia.
Qed.

Lemma activate_inv s q f x :
  0 <= f -> drr_inv N s q ->
  drr_inv N (activate N f x s) (if decide (N <= f \/ f ∈ q) then q else q ++ [f]).
Proof.
  intros Hf H. unfold activate. destruct (N <=? f) eqn:E; bool_to_prop.
  { rewrite decide_True by (by left). done. }
  destruct H as [Hq Hd Ha Hs Hr Hh Hl Hsl Hnd Hb Hli Hw].
  assert (forall g, 0 <= g -> is_set g (set_flow f true (active s)) = if decide (g = f) then true else is_set g (active s))
    as Hact by (intros g Hg; apply is_set_set_flow; lia).
  destruct (is_set f (scheduled s)) eqn:Esch.
  - assert (f ∈ q) as Hin by (by apply Hli). rewrite decide_True by (by right).
    split; cbn; rewrite ?set_flow_length; try done. intros g Hg. rewrite Hact by lia.
    case_decide as Hgf; [by subst|]. by apply Hw.
  - assert (f ∉ q) as Hni by (rewrite <-Hli by lia; by rewrite Esch). rewrite decide_False by (intros [?|?]; [lia|done]).
    rewrite w16_small by int_lia. pose proof (queue_room q f Hnd Hb ltac:(lia) Hni) as Hroom.
    assert (forall g, 0 <= g -> is_set g (set_flow f true (scheduled s)) = if decide (g = f) then true else is_set g (scheduled s))
      as Hsch by (intros g Hg; apply is_set_set_flow; lia).
    split; cbn; rewrite ?set_flow_length; try done.
    + rewrite zlen_app, Hl. done.
    + rewrite Hl. by apply holds_push.
    + apply NoDup_app. split_and!; [done|set_solver|apply NoDup_singleton].
    + apply Forall_app. split; [done|]. repeat constructor; lia.
    + intros g Hg. rewrite Hsch by lia. case_decide as Hgf; [subst; set_solver|]. rewrite Hli by done. set_solver.
    + intros g Hg. rewrite Hact by lia. case_decide as Hgf; [subst; set_solver|]. intros Hga. specialize (Hw g Hg Hga). set_solver.
Qed.

Lemma deactivate_inv s q f : 0 <= f -> drr_inv N s q -> drr_inv N (deactivate N f s) q.
Proof.
  intros Hf H. unfold deactivate. destruct (N <=? f) eqn:E; bool_to_prop; [done|].
  destruct H as [Hq Hd Ha Hs Hr Hh Hl Hsl Hnd Hb Hli Hw]. split; cbn; rewrite ?set_flow_length; try done.
  intros g Hg. rewrite is_set_set_flow by lia. case_decide; [done|]. by apply Hw.
Qed.

Lemma charge_inv s q f b : drr_inv N s q -> drr_inv N (charge N f b s) q.
Proof.
  intros H. unfold charge. destruct (N <=? f) eqn:E; [done|]. by destruct H; split; cbn; rewrite ?set_flow_length.
Qed.

(** Dropping a stale entry. *)
Lemma drop_stale_inv s q f :
  drr_inv N s (f :: q) -> is_set f (active s) = false ->
  drr_inv N (mkDrr (quantum s) (deficit s) (active s) (set_flow f false (scheduled s)) (ring s)
    ((rhead s + 1) mod N) (len s - 1)) q.
Proof.
  intros [Hq Hd Ha Hs Hr Hh Hl Hsl Hnd Hb Hli Hw] Hf.
  apply NoDup_cons in Hnd as [Hni Hnd]. apply Forall_cons in Hb as [Hfb Hb].
  split; cbn; rewrite ?set_flow_length; try done.
  - apply Z.mod_pos_bound. lia.
  - rewrite Hl, zlen_cons. lia.
  - by eapply holds_pop.
  - intros g Hg. rewrite is_set_set_flow by lia. case_decide as Hgf; [subst; by split|].
    rewrite Hli by done. set_solver.
  - intros g Hg Hga. specialize (Hw g Hg Hga). apply elem_of_cons in Hw as [->|]; [congruence|done].
Qed.

(** Serving the flow at the head. *)
Lemma serve_inv s q f :
  drr_inv N s (f :: q) ->
  drr_inv N (push_tail N f (mkDrr (quantum s)
    (set_flow f (sat_add32 (get_flow f (deficit s)) (get_flow f (quantum s))) (deficit s)) (active s) (scheduled s)
    (ring s) ((rhead s + 1) mod N) (len s - 1))) (q ++ [f]).
Proof.
  intros [Hq Hd Ha Hs Hr Hh Hl Hsl Hnd Hb Hli Hw].
  apply NoDup_cons in Hnd as [Hni Hnd]. apply Forall_cons in Hb as [Hfb Hb].
  pose proof (queue_room q f Hnd Hb Hfb Hni) as Hroom. rewrite zlen_cons in Hl.
  assert (len s - 1 = zlen q) as Hl' by lia.
  split; cbn; rewrite ?set_flow_length; try done.
  - apply Z.mod_pos_bound. lia.
  - rewrite zlen_app, Hl'. done.
  - rewrite Hl'. apply holds_push; [by eapply holds_pop|done|done].
  - apply NoDup_app. split_and!; [done|set_solver|apply NoDup_singleton].
  - apply Forall_app. split; [done|]. by apply Forall_singleton.
  - intros g Hg. rewrite Hli by done. set_solver.
  - intros g Hg Hga. specialize (Hw g Hg Hga). set_solver.
Qed.

(** What a turn does: it serves the first active flow of the queue and moves it
    to the back, dropping the stale entries before it; it finds none exactly when
    no queued flow is active. *)
Definition turn (s : DeficitRoundRobin) (q : list Z) (r : option Z) (s' : DeficitRoundRobin) : Prop :=
  active s' = active s /\ quantum s' = quantum s /\
  match r with
  | Some f => is_set f (active s) = true /\
      deficit s' = set_flow f (sat_add32 (get_flow f (deficit s)) (get_flow f (quantum s))) (deficit s) /\
      exists stale rest, q = stale ++ f :: rest /\ Forall (fun g => is_set g (active s) = false) stale /\
        drr_inv N s' (rest ++ [f])
  | None => Forall (fun g => is_set g (active s) = false) q /\ drr_inv N s' []
  end.

Lemma next_flow_loop_turn q : forall s fuel, drr_inv N s q -> (length q < fuel)%nat ->
  exists r s', next_flow_loop N fuel s = Some (r, s') /\ turn s q r s'.
Proof.
  induction q as [|f q IH]; intros s fuel H Hfuel; (destruct fuel as [|fuel]; [lia|]); cbn [next_flow_loop];
    rewrite (drr_len _ _ _ H).
  - exists None, s. by rewrite zlen_nil.
  - rewrite zlen_cons, (proj2 (Z.eqb_neq _ _)) by (pose proof (zlen_nonneg q); lia).
    unfold pop_head. rewrite (holds_head _ _ q f (drr_head _ _ _ H) (drr_slots _ _ _ H)). cbn [active].
    destruct (is_set f (active s)) eqn:Ef; cbn [negb quantum deficit scheduled ring rhead len].
    + do 2 eexists. split; [reflexivity|]. split_and!; try done. exists [], q. split_and!; try done. by apply serve_inv.
    + pose proof (drop_stale_inv _ _ _ H Ef) as H'. destruct (IH _ fuel H') as (r & s' & -> & Hact & Hqu & Ht); [cbn in *; lia|].
      exists r, s'. split; [done|]. cbn in Hact, Hqu, Ht. split_and!; [done..|]. destruct r as [g|].
      * destruct Ht as (Hg & Hd & stale & rest & -> & Hst & Hinv). split_and!; [done..|].
        exists (f :: stale), rest. split_and!; [done|by constructor|done].
      * destruct Ht as [Hst Hinv]. split; [by constructor|done].
Qed.

Lemma next_flow_turn s q : drr_inv N s q -> exists r s', next_flow N s = (r, s') /\ turn s q r s'.
Proof.
  intros H. unfold next_flow. rewrite (drr_len _ _ _ H).
  destruct (next_flow_loop_turn q s (S (Z.to_nat (zlen q))) H) as (r & s' & -> & Ht); [unfold zlen; lia|]. eauto.
Qed.

(** The queue after any call. *)
Lemma op_inv o s q : op_ok N o -> drr_inv N s q -> exists q', drr_inv N (snd (op_run N o s)) q'.
Proof.
  intros Ho H. destruct o as [f x|f| |f b]; cbn [op_run snd fst op_ok] in *.
  - eexists. by apply activate_inv.
  - eexists. by apply deactivate_inv.
  - destruct (next_flow_turn _ _ H) as (r & s' & -> & _ & _ & Ht). cbn [snd fst]. destruct r as [f|].
    + destruct Ht as (_ & _ & stale & rest & _ & _ & Hinv). eauto.
    + destruct Ht as [_ Hinv]. eauto.
  - eexists. by apply charge_inv.
Qed.

Lemma ops_inv os : forall s q, Forall (op_ok N) os -> drr_inv N s q -> exists q', drr_inv N (snd (ops_run N os s)) q'.
Proof.
  induction os as [|o os IH]; intros s q Hos H; [eauto|]. apply Forall_cons in Hos as [Ho Hos]. cbn.
  destruct (op_inv o s q Ho H) as [q1 H1]. destruct (op_run N o s) as [r s1]. cbn in H1.
  destruct (IH s1 q1 Hos H1) as [q2 H2]. destruct (ops_run N os s1) as [rs s2]. eauto.
Qed.

(* ------------------------------------------------------------------ *)
(** ** No flow starves *)

(** The ops that leave flow [f] alone. *)
Definition spares (f : Z) (o : Op) : Prop := match o with Deactivate g => g <> f | _ => True end.

Lemma is_set_active_op f o s :
  0 <= f < N -> op_ok N o -> spares f o -> (exists q, drr_inv N s q) -> is_set f (active s) = true ->
  is_set f (active (snd (op_run N o s))) = true.
Proof.
  intros Hf Ho Hsp [q H] Hact. pose proof (drr_active _ _ _ H) as Hlen. destruct o as [g x|g| |g b]; cbn [op_run snd fst op_ok spares is_next] in *.
  - unfold activate. destruct (N <=? g) eqn:E; [done|]. bool_to_prop.
    destruct (is_set g (scheduled s)); cbn; rewrite is_set_set_flow by lia; by case_decide.
  - unfold deactivate. destruct (N <=? g) eqn:E; [done|]. bool_to_prop. cbn.
    rewrite is_set_set_flow by lia. by rewrite decide_False by congruence.
  - destruct (next_flow_turn _ _ H) as (r & s' & -> & Ha & _). cbn. by rewrite Ha.
  - unfold charge. by destruct (N <=? g).
Qed.

(** While [f] is in the queue at position [i], a call other than [next_flow]
    keeps its position and [next_flow] serves it or moves it forward. *)
Lemma op_position f o s q i :
  op_ok N o -> drr_inv N s q -> is_set f (active s) = true -> q !! i = Some f ->
  exists q', drr_inv N (snd (op_run N o s)) q' /\
    (f ∈ fst (op_run N o s) \/ exists j, q' !! j = Some f /\ (j + (if is_next o then 1 else 0) <= i)%nat).
Proof.
  intros Ho H Hact Hi. destruct o as [g x|g| |g b]; cbn [op_run snd fst op_ok spares is_next] in *.
  - eexists. split; [by apply activate_inv|]. right. exists i. split; [|lia]. case_decide; [done|].
    rewrite lookup_app_l; [done|]. by eapply lookup_lt_Some.
  - eexists. split; [by apply deactivate_inv|]. right. exists i. split; [done|lia].
  - destruct (next_flow_turn _ _ H) as (r & s' & -> & _ & _ & Ht). cbn [snd fst]. destruct r as [g|].
    + destruct Ht as (Hg & _ & stale & rest & -> & Hst & Hinv). exists (rest ++ [g]). split; [done|].
      destruct (decide (f = g)) as [->|Hne]; [left; set_solver|right].
      apply lookup_app_Some in Hi as [Hi|[Hle Hi]].
      { rewrite Forall_lookup in Hst. specialize (Hst _ _ Hi). cbn in Hst. congruence. }
      destruct (i - length stale)%nat as [|j] eqn:Ej; [by injection Hi as ->|]. cbn in Hi.
      exists j. split; [|lia]. rewrite lookup_app_l; [done|]. by eapply lookup_lt_Some.
    + destruct Ht as [Hst _]. rewrite Forall_lookup in Hst. specialize (Hst _ _ Hi). cbn in Hst. congruence.
  - eexists. split; [by apply charge_inv|]. right. exists i. split; [done|lia].
Qed.

Lemma ops_serve f os : forall s q i,
  0 <= f < N -> Forall (op_ok N) os -> Forall (spares f) os -> drr_inv N s q -> is_set f (active s) = true ->
  q !! i = Some f -> (i < length (filter (fun o => is_next o = true) os))%nat -> f ∈ fst (ops_run N os s).
Proof.
  induction os as [|o os IH]; intros s q i Hf Hos Hsp H Hact Hi Hn; [cbn in Hn; lia|].
  apply Forall_cons in Hos as [Ho Hos], Hsp as [Hspo Hsp]. cbn [ops_run].
  pose proof (is_set_active_op f o s Hf Ho Hspo ltac:(eauto) Hact) as Hact'.
  destruct (op_position f o s q i Ho H Hact Hi) as (q' & H' & Hpos).
  destruct (op_run N o s) as [r s1]. cbn [fst snd] in *.
  destruct (ops_run N os s1) as [rs s2] eqn:Er. cbn. apply elem_of_app.
  destruct Hpos as [Hr|(j & Hj & Hji)]; [by left|right].
  replace rs with (fst (ops_run N os s1)) by (by rewrite Er). apply (IH s1 q' j); try done.
  rewrite filter_cons in Hn. case_decide as Hd; [rewrite Hd in Hji; cbn in Hn; lia|lia].
Qed.

End queue.

(** C19: no flow starves.  From any state the scheduler can be in, a flow that is
    active and is not deactivated is served by at least one of any [N] calls of
    [next_flow], whatever activations, deactivations of other flows and charges are
    interleaved with them. *)
Theorem drr_no_starvation N past os f s :
  0 < N <= 65536 -> Forall (op_ok N) past -> s = snd (ops_run N past (drr_new N)) ->
  is_active N f s = true -> 0 <= f -> Forall (op_ok N) os -> Forall (spares f) os ->
  N <= zlen (filter (fun o => is_next o = true) os) -> f ∈ fst (ops_run N os s).
Proof.
  intros HN Hpast -> Hact Hf Hos Hsp Hn. destruct (ops_inv N HN past _ [] Hpast (drr_new_inv N HN)) as [q H].
  unfold is_active in Hact. bool_to_prop.
  assert (f ∈ q) as [i Hi]%list_elem_of_lookup by (by apply (drr_wants _ _ _ H)).
  apply (ops_serve N HN f os _ q i); try done.
  pose proof (lookup_lt_Some _ _ _ Hi) as Hlt.
  assert (zlen q <= N); [|unfold zlen in *; lia].
  assert (q ⊆+ seqZ 0 N) as Hs%submseteq_length.
  { apply NoDup_submseteq; [apply (drr_nodup _ _ _ H)|]. intros g Hg. apply elem_of_seqZ.
    pose proof (drr_bounds _ _ _ H) as Hb. rewrite Forall_forall in Hb. specialize (Hb g Hg). lia. }
  rewrite length_seqZ in Hs. unfold zlen. lia.
Qed.

(** Three flows of a four-flow scheduler, one of them draining: the other two and
    a newcomer are served in turn. *)
Lemma drr_no_starvation_witness :
  exists s, s = snd (ops_run 4 [Activate 2 1500; Activate 0 1500; Activate 1 1500; Deactivate 2] (drr_new 4)) /\
    1 ∈ fst (ops_run 4 [NextFlow; Activate 3 100; Charge 0 900; NextFlow; NextFlow; NextFlow] s).
Proof.
  eexists. split; [reflexivity|].
  apply (drr_no_starvation 4 [Activate 2 1500; Activate 0 1500; Activate 1 1500; Deactivate 2]);
    [done| |reflexivity|reflexivity|done| | |done]; repeat (constructor; [done|]); constructor.
Defined.

(** [has_work] counts ring entries, stale ones included: it can be true when no
    flow is active. *)
Lemma has_work_counts_stale N q : 0 < N ->
  let s := deactivate N 0 (activate N 0 q (drr_new N)) in
  has_work s = true /\ (forall f, 0 <= f -> is_active N f s = false) /\ fst (next_flow N s) = None.
Proof.
  intros HN s. assert (s = mkDrr (set_flow 0 (Z.max q 1) (replicate (Z.to_nat N) 0)) (set_flow 0 0 (set_flow 0 0 (replicate (Z.to_nat N) 0)))
    (set_flow 0 false (set_flow 0 true (replicate (Z.to_nat N) false))) (set_flow 0 true (replicate (Z.to_nat N) false))
    (set_flow 0 0 (replicate (Z.to_nat N) 0)) 0 1) as ->.
  { unfold s, activate. rewrite (proj2 (Z.leb_gt _ _)) by done. cbn [drr_new scheduled].
    assert (is_set 0 (replicate (Z.to_nat N) false) = false) as ->
      by (unfold is_set; rewrite lookup_replicate_2; [done|lia]).
    unfold deactivate, push_tail. rewrite (proj2 (Z.leb_gt _ _)) by done. cbn. by rewrite Zmod_0_l. }
  assert (forall f, 0 <= f -> is_set f (set_flow 0 false (set_flow 0 true (replicate (Z.to_nat N) false))) = false) as Hoff.
  { intros f Hf. rewrite !is_set_set_flow by (rewrite ?set_flow_length, ?length_replicate; lia).
    case_decide as H; [done|]. unfold is_set.
    destruct (replicate (Z.to_nat N) false !! Z.to_nat f) as [b|] eqn:E; [|done].
    by apply lookup_replicate in E as [-> _]. }
  split_and!; [done| |].
  - intros f Hf. unfold is_active. cbn [active]. rewrite Hoff by done. apply andb_false_r.
  - unfold next_flow. cbn [len]. change (Z.to_nat 1) with 1%nat. cbn [next_flow_loop]. cbn [len Z.eqb].
    unfold pop_head. cbn [rhead ring active quantum deficit scheduled].
    rewrite get_flow_set_flow by (rewrite ?length_replicate; lia). rewrite decide_True by done.
    rewrite Hoff by done. cbn [negb len]. done.
Qed.
