(* ===== verification/QuicParams.v ===== *)
(** * QUIC transport parameters (crates/proto/quic/src/transport_params.rs)

    Both roles' encoders and the parser of the peer's parameters: a stream of
    (id, length, value) triples of variable-length integers, parsed into a record
    that starts from the defaults of RFC 9000. *)

From S2P Require Import Prelude.
From S2P Require Import NetTypes.
From S2P Require Import QuicWire.

Abbreviation ORIGINAL_DESTINATION_CONNECTION_ID := 0 (only parsing).
Abbreviation MAX_IDLE_TIMEOUT := 1 (only parsing).
Abbreviation MAX_UDP_PAYLOAD_SIZE := 3 (only parsing).
Abbreviation INITIAL_MAX_DATA_ID := 4 (only parsing).
Abbreviation INITIAL_MAX_STREAM_DATA_BIDI_LOCAL := 5 (only parsing).
Abbreviation INITIAL_MAX_STREAM_DATA_BIDI_REMOTE := 6 (only parsing).
Abbreviation INITIAL_MAX_STREAM_DATA_UNI := 7 (only parsing).
Abbreviation INITIAL_MAX_STREAMS_BIDI := 8 (only parsing).
Abbreviation INITIAL_MAX_STREAMS_UNI := 9 (only parsing).
Abbreviation ACK_DELAY_EXPONENT := 10 (only parsing).
Abbreviation MAX_ACK_DELAY := 11 (only parsing).
Abbreviation ACTIVE_CONNECTION_ID_LIMIT := 14 (only parsing).
Abbreviation INITIAL_SOURCE_CONNECTION_ID := 15 (only parsing).
Abbreviation RETRY_SOURCE_CONNECTION_ID := 16 (only parsing).

(** [crate::streams]: 2 MiB per stream, 8 MiB per connection. *)
Definition INITIAL_MAX_STREAM_DATA : Z := Z.shiftl 2 20.
Definition INITIAL_MAX_DATA : Z := Z.shiftl 8 20.

Record ServerParams := mkServerParams {
  sp_original_destination_connection_id : list Z;
  sp_initial_source_connection_id : list Z;
  sp_initial_max_data : Z;
  sp_initial_max_stream_data_bidi_local : Z;
  sp_initial_max_stream_data_bidi_remote : Z;
  sp_initial_max_stream_data_uni : Z;
  sp_initial_max_streams_bidi : Z;
  sp_initial_max_streams_uni : Z;
  sp_max_idle_timeout_ms : Z;
  sp_retry_source_connection_id : option (list Z);
}.

Definition server_defaults (odcid iscid : list Z) : ServerParams :=
  mkServerParams odcid iscid INITIAL_MAX_DATA INITIAL_MAX_STREAM_DATA INITIAL_MAX_STREAM_DATA
    INITIAL_MAX_STREAM_DATA 1024 1024 30000 None.

(** A varint in an eight-byte scratch buffer; [None] where [expect] panics. *)
Definition varint_bytes (v : Z) : option (list Z) :=
  match write_varint v 8 with inr w => Some w | inl _ => None end.

Definition write_varint_param (out : list Z) (id value : Z) : option (list Z) :=
  idb ← varint_bytes id; vb ← varint_bytes value; lb ← varint_bytes (zlen vb); Some (out ++ idb ++ lb ++ vb).

Definition write_bytes_param (out : list Z) (id : Z) (value : list Z) : option (list Z) :=
  idb ← varint_bytes id; lb ← varint_bytes (zlen value); Some (out ++ idb ++ lb ++ value).

Definition server_encode (p : ServerParams) (out : list Z) : option (list Z) :=
  out ← write_bytes_param out ORIGINAL_DESTINATION_CONNECTION_ID (sp_original_destination_connection_id p);
  out ← write_bytes_param out INITIAL_SOURCE_CONNECTION_ID (sp_initial_source_connection_id p);
  out ← write_varint_param out INITIAL_MAX_DATA_ID (sp_initial_max_data p);
  out ← write_varint_param out INITIAL_MAX_STREAM_DATA_BIDI_LOCAL (sp_initial_max_stream_data_bidi_local p);
  out ← write_varint_param out INITIAL_MAX_STREAM_DATA_BIDI_REMOTE (sp_initial_max_stream_data_bidi_remote p);
  out ← write_varint_param out INITIAL_MAX_STREAM_DATA_UNI (sp_initial_max_stream_data_uni p);
  out ← write_varint_param out INITIAL_MAX_STREAMS_BIDI (sp_initial_max_streams_bidi p);
  out ← write_varint_param out INITIAL_MAX_STREAMS_UNI (sp_initial_max_streams_uni p);
  out ← write_varint_param out MAX_IDLE_TIMEOUT (sp_max_idle_timeout_ms p);
  match sp_retry_source_connection_id p with
  | Some rscid => write_bytes_param out RETRY_SOURCE_CONNECTION_ID rscid
  | None => Some out
  end.

Definition encode_client_params (out iscid : list Z) : option (list Z) :=
  out ← write_bytes_param out INITIAL_SOURCE_CONNECTION_ID iscid;
  out ← write_varint_param out MAX_UDP_PAYLOAD_SIZE 1452;
  out ← write_varint_param out INITIAL_MAX_DATA_ID INITIAL_MAX_DATA;
  out ← write_varint_param out INITIAL_MAX_STREAM_DATA_BIDI_LOCAL INITIAL_MAX_STREAM_DATA;
  out ← write_varint_param out INITIAL_MAX_STREAM_DATA_BIDI_REMOTE INITIAL_MAX_STREAM_DATA;
  out ← write_varint_param out INITIAL_MAX_STREAM_DATA_UNI INITIAL_MAX_STREAM_DATA;
  out ← write_varint_param out INITIAL_MAX_STREAMS_BIDI 1024;
  out ← write_varint_param out INITIAL_MAX_STREAMS_UNI 1024;
  out ← write_varint_param out ACK_DELAY_EXPONENT 3;
  out ← write_varint_param out MAX_ACK_DELAY 25;
  out ← write_varint_param out ACTIVE_CONNECTION_ID_LIMIT 2;
  write_varint_param out MAX_IDLE_TIMEOUT 30000.

Record ClientParams := mkClientParams {
  initial_source_connection_id : option (list Z);
  original_destination_connection_id : option (list Z);
  retry_source_connection_id : option (list Z);
  initial_max_data : Z;
  initial_max_stream_data_bidi_local : Z;
  initial_max_stream_data_bidi_remote : Z;
  initial_max_stream_data_uni : Z;
  initial_max_streams_bidi : Z;
  initial_max_streams_uni : Z;
  max_idle_timeout_ms : Z;
  ack_delay_exponent : Z;
  max_ack_delay_ms : Z;
}.

Definition client_default : ClientParams := mkClientParams None None None 0 0 0 0 0 0 0 3 25.

Inductive ParamsError := ParamsWire.

Definition decode_varint_payload (v : list Z) : ParamsError + Z :=
  match read_varint v with
  | inr (n, consumed) => if consumed =? zlen v then inr n else inl ParamsWire
  | inl _ => inl ParamsWire
  end.

(** The arms of the parser's [match id]. *)
Definition apply_param (id : Z) (value : list Z) (p : ClientParams) : ParamsError + ClientParams :=
  let '(mkClientParams iscid odcid rscid md bl br u sb su idle exp delay) := p in
  let num (f : Z -> ClientParams) :=
    match decode_varint_payload value with inr v => inr (f v) | inl e => inl e end in
  if id =? INITIAL_SOURCE_CONNECTION_ID then inr (mkClientParams (Some value) odcid rscid md bl br u sb su idle exp delay)
  else if id =? ORIGINAL_DESTINATION_CONNECTION_ID then
    inr (mkClientParams iscid (Some value) rscid md bl br u sb su idle exp delay)
  else if id =? RETRY_SOURCE_CONNECTION_ID then
    inr (mkClientParams iscid odcid (Some value) md bl br u sb su idle exp delay)
  else if id =? INITIAL_MAX_DATA_ID then num (fun v => mkClientParams iscid odcid rscid v bl br u sb su idle exp delay)
  else if id =? INITIAL_MAX_STREAM_DATA_BIDI_LOCAL then
    num (fun v => mkClientParams iscid odcid rscid md v br u sb su idle exp delay)
  else if id =? INITIAL_MAX_STREAM_DATA_BIDI_REMOTE then
    num (fun v => mkClientParams iscid odcid rscid md bl v u sb su idle exp delay)
  else if id =? INITIAL_MAX_STREAM_DATA_UNI then
    num (fun v => mkClientParams iscid odcid rscid md bl br v sb su idle exp delay)
  else if id =? INITIAL_MAX_STREAMS_BIDI then
    num (fun v => mkClientParams iscid odcid rscid md bl br u v su idle exp delay)
  else if id =? INITIAL_MAX_STREAMS_UNI then
    num (fun v => mkClientParams iscid odcid rscid md bl br u sb v idle exp delay)
  else if id =? MAX_IDLE_TIMEOUT then num (fun v => mkClientParams iscid odcid rscid md bl br u sb su v exp delay)
  else if id =? ACK_DELAY_EXPONENT then
    match decode_varint_payload value with
    | inr v => if 20 <? v then inl ParamsWire
               else inr (mkClientParams iscid odcid rscid md bl br u sb su idle (w8 v) delay)
    | inl e => inl e
    end
  else if id =? MAX_ACK_DELAY then
    match decode_varint_payload value with
    | inr v => if Z.shiftl 1 14 <=? v then inl ParamsWire
               else inr (mkClientParams iscid odcid rscid md bl br u sb su idle exp v)
    | inl e => inl e
    end
  else inr p.

(** One turn of the parser's loop: a triple off the front, and the rest. *)
Definition parse_param (bytes : list Z) (p : ClientParams) : ParamsError + ClientParams * list Z :=
  match read_varint bytes with
  | inl _ => inl ParamsWire
  | inr (id, n) =>
      let bytes := zdrop n bytes in
      match read_varint bytes with
      | inl _ => inl ParamsWire
      | inr (len, n) =>
          let bytes := zdrop n bytes in
          if zlen bytes <? len then inl ParamsWire
          else
            match apply_param id (ztake len bytes) p with
            | inl e => inl e
            | inr p' => inr (p', zdrop len bytes)
            end
      end
  end.

(** [fuel] bounds the turns; each one consumes at least two bytes. *)
Fixpoint parse_params (fuel : nat) (bytes : list Z) (p : ClientParams) : ParamsError + ClientParams :=
  match bytes, fuel with
  | [], _ => inr p
  | _ :: _, O => inl ParamsWire
  | _ :: _, S fuel =>
      match parse_param bytes p with
      | inl e => inl e
      | inr (p', rest) => parse_params fuel rest p'
      end
  end.

Definition parse_client_params (bytes : list Z) : ParamsError + ClientParams :=
  parse_params (length bytes) bytes client_default.

(* ------------------------------------------------------------------ *)
(** ** Triples *)

Definition is_varint (v : Z) : Prop := 0 <= v <= MAX_VARINT.

Lemma varint_bytes_read v : is_varint v ->
  exists w, varint_bytes v = Some w /\ (0 < length w)%nat /\ is_varint (zlen w) /\
    forall rest, read_varint (w ++ rest) = inr (v, zlen w).
Proof.
  intros Hv. assert (forall rest, exists w, varint_bytes v = Some w /\ read_varint (w ++ rest) = inr (v, zlen w)) as H.
  { intros rest. destruct (quic_varint_roundtrip v 8 rest Hv ltac:(lia)) as (w & Ew & Er & _). exists w.
    unfold varint_bytes. by rewrite Ew. }
  destruct (H []) as (w & Ew & _). exists w. split; [done|].
  assert (zlen w <= 8 /\ 0 < zlen w) as [H8 H0].
  { destruct (varint_form_spec v Hv) as (c & Ef & Hc & _). destruct (pow2_len c Hc) as (k & Ek & Ez & Hk).
    unfold varint_bytes, write_varint in Ew. rewrite Ef, Ek in Ew. repeat case_match; simplify_eq.
    unfold zlen. cbn [be_write or_first length]. rewrite (proj2 (be_write_ok k v)). lia. }
  split; [unfold zlen in *; lia|]. split; [unfold is_varint; change MAX_VARINT with 4611686018427387903; lia|].
  intros rest. destruct (H rest) as (w' & Ew' & Er). rewrite Ew in Ew'. by injection Ew' as <-.
Qed.

(** [w] is the triple of [id] and [value]. *)
Definition is_triple (id : Z) (value w : list Z) : Prop :=
  (1 < length w)%nat /\ forall rest p,
    parse_param (w ++ rest) p = match apply_param id value p with inl e => inl e | inr p' => inr (p', rest) end.

Lemma triple_intro id value idb lb :
  is_varint id -> is_varint (zlen value) -> varint_bytes id = Some idb -> varint_bytes (zlen value) = Some lb ->
  is_triple id value (idb ++ lb ++ value).
Proof.
  intros Hid Hlen Ei El. destruct (varint_bytes_read id Hid) as (w & Ew & Hw & _ & Hr).
  destruct (varint_bytes_read _ Hlen) as (w' & Ew' & Hw' & _ & Hr').
  assert (w = idb) as -> by congruence. assert (w' = lb) as -> by congruence. split; [rewrite !length_app; lia|].
  intros rest p. unfold parse_param. rewrite <-!(assoc_L _), Hr. rewrite zdrop_app_ge, Z.sub_diag by lia.
  change (zdrop 0 (lb ++ value ++ rest)) with (lb ++ value ++ rest). rewrite Hr'.
  rewrite zdrop_app_ge, Z.sub_diag by lia. change (zdrop 0 (value ++ rest)) with (value ++ rest).
  rewrite zlen_app, (proj2 (Z.ltb_ge _ _)) by (pose proof (zlen_nonneg rest); lia).
  rewrite ztake_app_ge, Z.sub_diag by lia. rewrite zdrop_app_ge, Z.sub_diag by lia.
  change (ztake 0 rest) with (@nil Z). rewrite app_nil_r. done.
Qed.

Lemma write_bytes_param_triple out id value :
  is_varint id -> is_varint (zlen value) ->
  exists w, write_bytes_param out id value = Some (out ++ w) /\ is_triple id value w.
Proof.
  intros Hid Hlen. unfold write_bytes_param. destruct (varint_bytes_read id Hid) as (idb & Ei & _).
  destruct (varint_bytes_read _ Hlen) as (lb & El & _). rewrite Ei. cbn. rewrite El. cbn.
  eexists. split; [done|]. by apply triple_intro.
Qed.

Lemma write_varint_param_triple out id v :
  is_varint id -> is_varint v ->
  exists w vb, write_varint_param out id v = Some (out ++ w) /\ is_triple id vb w /\ decode_varint_payload vb = inr v.
Proof.
  intros Hid Hv. unfold write_varint_param. destruct (varint_bytes_read id Hid) as (idb & Ei & _).
  destruct (varint_bytes_read v Hv) as (vb & Ev & _ & Hlen & Hr). destruct (varint_bytes_read _ Hlen) as (lb & El & _).
  rewrite Ei. cbn. rewrite Ev. cbn. rewrite El. cbn. eexists _, vb. split; [done|]. split; [by apply triple_intro|].
  unfold decode_varint_payload. specialize (Hr []). rewrite app_nil_r in Hr. rewrite Hr. by rewrite Z.eqb_refl.
Qed.

Lemma parse_params_triple fuel id value w rest p p' :
  is_triple id value w -> apply_param id value p = inr p' ->
  parse_params (S fuel) (w ++ rest) p = parse_params fuel rest p'.
Proof.
  intros [Hl Hw] Ha. destruct w as [|b w]; [cbn in Hl; lia|]. cbn [app parse_params].
  change (b :: w ++ rest) with ((b :: w) ++ rest). by rewrite Hw, Ha.
Qed.

(** More fuel than a successful parse used changes nothing. *)
Lemma parse_params_more fuel : forall fuel' bytes p r,
  parse_params fuel bytes p = inr r -> (fuel <= fuel')%nat -> parse_params fuel' bytes p = inr r.
Proof.
  induction fuel as [|fuel IH]; intros fuel' bytes p r H Hle; destruct bytes as [|b bytes]; try done.
  - by destruct fuel'.
  - by destruct fuel'.
  - destruct fuel' as [|fuel']; [lia|]. cbn [parse_params] in *.
    destruct (parse_param (b :: bytes) p) as [e|[p' rest]]; [done|]. apply (IH fuel'); [done|lia].
Qed.

(* ------------------------------------------------------------------ *)
(** ** Round trip *)

Definition server_ok (p : ServerParams) : Prop :=
  is_varint (zlen (sp_original_destination_connection_id p)) /\ is_varint (zlen (sp_initial_source_connection_id p)) /\
  Forall is_varint [sp_initial_max_data p; sp_initial_max_stream_data_bidi_local p;
    sp_initial_max_stream_data_bidi_remote p; sp_initial_max_stream_data_uni p; sp_initial_max_streams_bidi p;
    sp_initial_max_streams_uni p; sp_max_idle_timeout_ms p] /\
  (forall r, sp_retry_source_connection_id p = Some r -> is_varint (zlen r)).

(** What the peer of a server with parameters [p] learns. *)
Definition as_parsed (p : ServerParams) : ClientParams :=
  mkClientParams (Some (sp_initial_source_connection_id p)) (Some (sp_original_destination_connection_id p))
    (sp_retry_source_connection_id p) (sp_initial_max_data p) (sp_initial_max_stream_data_bidi_local p)
    (sp_initial_max_stream_data_bidi_remote p) (sp_initial_max_stream_data_uni p) (sp_initial_max_streams_bidi p)
    (sp_initial_max_streams_uni p) (sp_max_idle_timeout_ms p) 3 25.

(** A parameter as the encoders write it. *)
Inductive Param := PBytes (id : Z) (value : list Z) | PNum (id v : Z).

Definition write_param (q : Param) (out : list Z) : option (list Z) :=
  match q with
  | PBytes id value => write_bytes_param out id value
  | PNum id v => write_varint_param out id v
  end.

Fixpoint write_all (qs : list Param) (out : list Z) : option (list Z) :=
  match qs with
  | [] => Some out
  | q :: qs => out ← write_param q out; write_all qs out
  end.

Definition param_ok (q : Param) : Prop :=
  match q with
  | PBytes id value => is_varint id /\ is_varint (zlen value)
  | PNum id v => is_varint id /\ is_varint v
  end.

(** What parsing it does to the record. *)
Definition applies (q : Param) (p p' : ClientParams) : Prop :=
  match q with
  | PBytes id value => apply_param id value p = inr p'
  | PNum id v => forall vb, decode_varint_payload vb = inr v -> apply_param id vb p = inr p'
  end.

Inductive applies_all : list Param -> ClientParams -> ClientParams -> Prop :=
  | applies_nil p : applies_all [] p p
  | applies_cons q qs p p' p'' : applies q p p' -> applies_all qs p' p'' -> applies_all (q :: qs) p p''.

Lemma write_all_parse qs : forall out, Forall param_ok qs ->
  exists w, write_all qs out = Some (out ++ w) /\ (length qs <= length w)%nat /\
    forall p p', applies_all qs p p' -> parse_params (length qs) w p = inr p'.
Proof.
  induction qs as [|q qs IH]; intros out Hok.
  - exists []. rewrite app_nil_r. split_and!; [done..|]. intros p p' H. by inversion H.
  - apply Forall_cons in Hok as [Hq Hok].
    assert (exists w, write_param q out = Some (out ++ w) /\ (0 < length w)%nat /\ forall p p' rest fuel,
      applies q p p' -> parse_params (S fuel) (w ++ rest) p = parse_params fuel rest p') as (w & Ew & Hlw & Hp).
    { destruct q as [id value|id v]; cbn in Hq; destruct Hq as [Hid Hv]; cbn [write_param].
      - destruct (write_bytes_param_triple out id value Hid Hv) as (w & Ew & Ht). exists w. pose proof Ht as [Hl _].
        split_and!; [done|lia|]. intros p p' rest fuel Ha. by eapply parse_params_triple.
      - destruct (write_varint_param_triple out id v Hid Hv) as (w & vb & Ew & Ht & Hd). exists w. pose proof Ht as [Hl _].
        split_and!; [done|lia|]. intros p p' rest fuel Ha. by eapply parse_params_triple; [|apply Ha]. }
    destruct (IH (out ++ w) Hok) as (w' & Ew' & Hlen & Hp'). exists (w ++ w').
    cbn [write_all]. rewrite Ew. cbn [mbind option_bind]. rewrite Ew'. cbn [length].
    split_and!; [by rewrite (assoc_L _)|rewrite length_app; lia|].
    intros p p'' H. inversion H as [|? ? ? p' ? Ha Hall]; subst. rewrite (Hp p p' w' (length qs) Ha). by apply Hp'.
Qed.

Lemma written_parses qs p' :
  Forall param_ok qs -> applies_all qs client_default p' ->
  exists out, write_all qs [] = Some out /\ parse_client_params out = inr p'.
Proof.
  intros Hok Ha. destruct (write_all_parse qs [] Hok) as (w & Ew & Hlen & Hp). exists w. split; [done|].
  unfold parse_client_params. eapply parse_params_more; [by apply Hp|done].
Qed.

Definition server_list (p : ServerParams) : list Param :=
  [PBytes ORIGINAL_DESTINATION_CONNECTION_ID (sp_original_destination_connection_id p);
   PBytes INITIAL_SOURCE_CONNECTION_ID (sp_initial_source_connection_id p);
   PNum INITIAL_MAX_DATA_ID (sp_initial_max_data p);
   PNum INITIAL_MAX_STREAM_DATA_BIDI_LOCAL (sp_initial_max_stream_data_bidi_local p);
   PNum INITIAL_MAX_STREAM_DATA_BIDI_REMOTE (sp_initial_max_stream_data_bidi_remote p);
   PNum INITIAL_MAX_STREAM_DATA_UNI (sp_initial_max_stream_data_uni p);
   PNum INITIAL_MAX_STREAMS_BIDI (sp_initial_max_streams_bidi p);
   PNum INITIAL_MAX_STREAMS_UNI (sp_initial_max_streams_uni p);
   PNum MAX_IDLE_TIMEOUT (sp_max_idle_timeout_ms p)] ++
  match sp_retry_source_connection_id p with Some r => [PBytes RETRY_SOURCE_CONNECTION_ID r] | None => [] end.

Lemma option_bind_ret {A} (x : option A) : (y ← x; Some y) = x.
Proof. by destruct x. Qed.

Lemma server_encode_list p out : server_encode p out = write_all (server_list p) out.
Proof.
  unfold server_encode, server_list. cbn [app write_all write_param].
  repeat (apply option_bind_ext; [|done]; intros ?). destruct (sp_retry_source_connection_id p) as [r|]; [|done].
  cbn [write_all write_param]. by rewrite option_bind_ret.
Qed.

Ltac all_params :=
  repeat (apply Forall_cons_2; [split; [by vm_compute|try assumption]|]); try apply Forall_nil_2.

Ltac apply_params := repeat (eapply applies_cons; [first [reflexivity | cbn; intros ? Hdec; rewrite ?Hdec; reflexivity]|]); apply applies_nil.

(** C35: whatever a server advertises, its peer's parser recovers exactly: every
    limit, both connection ids, the Retry id when there is one, and the defaults
    for the two parameters the server leaves out. *)
Theorem transport_params_roundtrip p :
  server_ok p -> exists out, server_encode p [] = Some out /\ parse_client_params out = inr (as_parsed p).
Proof.
  intros (Ho & Hi & Hn & Hr). rewrite server_encode_list. apply written_parses.
  - unfold server_list. apply Forall_app. split.
    + repeat (apply Forall_cons in Hn as [? Hn]). all_params.
    + destruct (sp_retry_source_connection_id p) as [r|]; all_params. by apply Hr.
  - unfold server_list, as_parsed. destruct p as [? ? ? ? ? ? ? ? ? [r|]]; cbn; apply_params.
Qed.

Definition sample_server : ServerParams :=
  mkServerParams [1; 2; 3; 4] [9; 8] INITIAL_MAX_DATA 70000 INITIAL_MAX_STREAM_DATA 5 1024 1024 30000 (Some [7]).

Lemma transport_params_roundtrip_witness :
  exists out, server_encode sample_server [] = Some out /\ zlen out = 48 /\
    parse_client_params out = inr (as_parsed sample_server).
Proof.
  destruct (transport_params_roundtrip sample_server) as (out & Eo & Ep).
  - split; [by vm_compute|]. split; [by vm_compute|]. split; [|intros r [= <-]; by vm_compute].
    repeat (apply Forall_cons_2; [by vm_compute|]). apply Forall_nil_2.
  - exists out. split; [exact Eo|]. split; [|exact Ep]. vm_compute in Eo. by injection Eo as <-.
Defined.

(** The client's parameters are read back the same way; the two it sends that the
    record has no field for are skipped. *)
Lemma client_params_roundtrip iscid : is_varint (zlen iscid) ->
  exists out, encode_client_params [] iscid = Some out /\
    parse_client_params out = inr (mkClientParams (Some iscid) None None INITIAL_MAX_DATA INITIAL_MAX_STREAM_DATA
      INITIAL_MAX_STREAM_DATA INITIAL_MAX_STREAM_DATA 1024 1024 30000 3 25).
Proof.
  intros Hi. set (qs := [PBytes INITIAL_SOURCE_CONNECTION_ID iscid; PNum MAX_UDP_PAYLOAD_SIZE 1452;
    PNum INITIAL_MAX_DATA_ID INITIAL_MAX_DATA; PNum INITIAL_MAX_STREAM_DATA_BIDI_LOCAL INITIAL_MAX_STREAM_DATA;
    PNum INITIAL_MAX_STREAM_DATA_BIDI_REMOTE INITIAL_MAX_STREAM_DATA; PNum INITIAL_MAX_STREAM_DATA_UNI INITIAL_MAX_STREAM_DATA;
    PNum INITIAL_MAX_STREAMS_BIDI 1024; PNum INITIAL_MAX_STREAMS_UNI 1024; PNum ACK_DELAY_EXPONENT 3;
    PNum MAX_ACK_DELAY 25; PNum ACTIVE_CONNECTION_ID_LIMIT 2; PNum MAX_IDLE_TIMEOUT 30000]).
  destruct (written_parses qs (mkClientParams (Some iscid) None None INITIAL_MAX_DATA INITIAL_MAX_STREAM_DATA
      INITIAL_MAX_STREAM_DATA INITIAL_MAX_STREAM_DATA 1024 1024 30000 3 25)) as (out & Eo & Ep).
  - unfold qs. all_params; by vm_compute.
  - unfold qs, client_default. apply_params.
  - exists out. split; [|done]. rewrite <-Eo. unfold qs, encode_client_params. cbn [write_all write_param].
    repeat (apply option_bind_ext; [|done]; intros ?). by rewrite option_bind_ret.
Qed.

(* ------------------------------------------------------------------ *)
(** ** What the parser promises *)

(** The ranges the rest of the connection relies on: an exponent it can shift by,
    a delay in microseconds that fits, limits that are varints. *)
Definition typed (bytes : list Z) (p : ClientParams) : Prop :=
  0 <= ack_delay_exponent p <= 20 /\ 0 <= max_ack_delay_ms p < 16384 /\
  Forall is_varint [initial_max_data p; initial_max_stream_data_bidi_local p; initial_max_stream_data_bidi_remote p;
    initial_max_stream_data_uni p; initial_max_streams_bidi p; initial_max_streams_uni p; max_idle_timeout_ms p] /\
  Forall (fun cid => forall b, cid = Some b -> bytes_ok b /\ zlen b <= zlen bytes)
    [initial_source_connection_id p; original_destination_connection_id p; retry_source_connection_id p].

Lemma decode_varint_payload_typed v n : bytes_ok v -> decode_varint_payload v = inr n -> is_varint n.
Proof.
  intros Hb. unfold decode_varint_payload. destruct (read_varint v) as [e|[x c]] eqn:E; [done|].
  destruct (c =? zlen v); [|done]. intros [= ->]. destruct (read_varint_bound _ _ _ Hb E) as (k & Hk & -> & Hn).
  unfold is_varint. change MAX_VARINT with 4611686018427387903.
  assert (2 ^ k <= 8) by (change 8 with (2 ^ 3); apply Z.pow_le_mono_r; lia).
  assert (256 ^ (2 ^ k - 1) <= 256 ^ 7) by (apply Z.pow_le_mono_r; lia).
  change (256 ^ 7) with 72057594037927936 in *. lia.
Qed.

Ltac typed_fields := repeat (apply Forall_cons_2; [assumption|]); apply Forall_nil_2.

Lemma apply_param_typed bytes id value p p' :
  typed bytes p -> bytes_ok value -> zlen value <= zlen bytes -> apply_param id value p = inr p' -> typed bytes p'.
Proof.
  destruct p. intros (Hexp & Hdel & Hlim & Hcid) Hb Hl.
  pose proof (decode_varint_payload_typed value) as Hd. cbn in Hexp, Hdel, Hlim, Hcid.
  repeat (apply Forall_cons in Hlim as [? Hlim]). repeat (apply Forall_cons in Hcid as [? Hcid]).
  assert (forall b, Some value = Some b -> bytes_ok b /\ zlen b <= zlen bytes) as Hval by (by intros b [= <-]).
  unfold apply_param.
  destruct (decode_varint_payload value) as [e|v] eqn:Ev; [|specialize (Hd v Hb eq_refl)];
    repeat case_match; intros; simplify_eq; try done; bool_to_prop;
    (split; [|split; [|split]]); cbn; try done; try (by typed_fields).
  - rewrite w8_small by (unfold is_u8, U8_MAX, is_varint in *; lia). unfold is_varint in *. lia.
  - change (Z.shiftl 1 14) with 16384 in *. unfold is_varint in *. lia.
Qed.

Lemma bytes_ok_zdrop n l : bytes_ok l -> bytes_ok (zdrop n l).
Proof. intros H. unfold zdrop. by apply Forall_drop. Qed.

(** A turn consumes input and keeps the record typed. *)
Lemma parse_param_typed all bytes p p' rest :
  typed all p -> bytes_ok bytes -> zlen bytes <= zlen all -> parse_param bytes p = inr (p', rest) ->
  typed all p' /\ bytes_ok rest /\ (length rest < length bytes)%nat.
Proof.
  intros Ht Hb Hl. unfold parse_param. destruct (read_varint bytes) as [e|[id n]] eqn:E1; [done|].
  destruct (read_varint_consumes _ _ _ Hb E1) as [Hn _]. pose proof (bytes_ok_zdrop n _ Hb) as Hb1.
  destruct (read_varint (zdrop n bytes)) as [e|[len m]] eqn:E2; [done|].
  destruct (read_varint_consumes _ _ _ Hb1 E2) as [Hm Hlen]. pose proof (bytes_ok_zdrop m _ Hb1) as Hb2.
  rewrite zlen_zdrop in Hm by lia. destruct (_ <? len) eqn:E3; [done|]. bool_to_prop.
  rewrite !zlen_zdrop in E3 by lia.
  destruct (apply_param id _ p) as [e|p1] eqn:Ea; [done|]. intros [= <- <-]. split_and!.
  - eapply apply_param_typed; [done| | |done].
    + unfold ztake. by apply Forall_take.
    + rewrite zlen_ztake, !zlen_zdrop by lia. lia.
  - by apply bytes_ok_zdrop.
  - assert (zlen (zdrop len (zdrop m (zdrop n bytes))) < zlen bytes); [|unfold zlen in *; lia].
    rewrite !zlen_zdrop by lia. lia.
Qed.

Lemma parse_params_typed all fuel : forall bytes p p',
  typed all p -> bytes_ok bytes -> zlen bytes <= zlen all -> parse_params fuel bytes p = inr p' -> typed all p'.
Proof.
  induction fuel as [|fuel IH]; intros bytes p p' Ht Hb Hl; destruct bytes as [|b bytes]; cbn [parse_params]; try done;
    try (by intros [= <-]).
  destruct (parse_param (b :: bytes) p) as [e|[p1 rest]] eqn:E; [done|].
  destruct (parse_param_typed _ _ _ _ _ Ht Hb Hl E) as (Ht1 & Hb1 & Hlt). apply IH; try done. unfold zlen in *. lia.
Qed.

(** The parser's loop ends: its fuel is never what stops it. *)
Lemma parse_params_fuel fuel : forall bytes p, bytes_ok bytes -> typed bytes p -> (length bytes <= fuel)%nat ->
  parse_params fuel bytes p = parse_params (length bytes) bytes p.
Proof.
  intros bytes p Hb Ht. assert (forall all f1 f2 bytes p, bytes_ok bytes -> typed all p -> zlen bytes <= zlen all ->
    (length bytes <= f1)%nat -> (length bytes <= f2)%nat -> parse_params f1 bytes p = parse_params f2 bytes p) as H.
  { clear. intros all. induction f1 as [|f1 IH]; intros f2 bytes p Hb Ht Hl H1 H2; destruct bytes as [|b bytes];
      [by destruct f2|cbn in H1; lia|by destruct f2|]. destruct f2 as [|f2]; [cbn in H2; lia|]. cbn [parse_params].
    destruct (parse_param (b :: bytes) p) as [e|[p1 rest]] eqn:E; [done|].
    destruct (parse_param_typed _ _ _ _ _ Ht Hb Hl E) as (Ht1 & Hb1 & Hlt). apply IH; try done; cbn in *; try lia.
    unfold zlen in *. cbn in *. lia. }
  intros Hf. by apply (H bytes).
Qed.

Lemma parse_client_params_typed bytes p :
  bytes_ok bytes -> parse_client_params bytes = inr p -> typed bytes p.
Proof.
  intros Hb. apply parse_params_typed; [|done|done]. split; [cbn; lia|]. split; [cbn; lia|].
  split; repeat (apply Forall_cons_2; [done|]); apply Forall_nil_2.
Qed.

(** whatever bytes a peer sends, parameters that parse are in the ranges the
    connection relies on: the ACK-delay exponent is at most 20 (so the shift by it
    stays in range), the maximum ACK delay is below [2^14] milliseconds, every
    limit is a varint, and the connection ids are bytes of the input. *)
Theorem parsed_params_typed bytes p :
  bytes_ok bytes -> parse_client_params bytes = inr p -> typed bytes p.
Proof. apply parse_client_params_typed. Qed.

Lemma parsed_params_typed_witness :
  exists p, parse_client_params [10; 1; 20; 11; 2; 127; 255; 4; 1; 63; 33; 1; 5] = inr p /\
    ack_delay_exponent p = 20 /\ max_ack_delay_ms p = 16383 /\
    typed [10; 1; 20; 11; 2; 127; 255; 4; 1; 63; 33; 1; 5] p.
Proof.
  eexists. split; [reflexivity|]. split; [reflexivity|]. split; [reflexivity|].
  apply parsed_params_typed; [|reflexivity]. by repeat (apply Forall_cons_2; [done|]).
Defined.
