(* ===== verification/QuicStreams.v ===== *)
(** * QUIC streams (crates/proto/quic/src/streams.rs)

    The receive half of a stream (reassembly of STREAM frames that arrive out of
    order, overlapping and repeated, with the FIN), its send half (the chain of
    queued chunks cut into STREAM frames), and the two joined: what the reader of
    one end obtains from the frames the other end emitted. *)

From S2P Require Import Prelude.
From S2P Require Import NetTypes.
From S2P Require Import QuicParams.

(* ------------------------------------------------------------------ *)
(** ** Ordered maps

    A [BTreeMap] with [u64] keys as the list of its entries in key order, the order
    of its iterator: the first entry is the head. *)

Fixpoint btree_get {V} (k : Z) (m : list (Z * V)) : option V :=
  match m with
  | [] => None
  | (k', v) :: m' => if k =? k' then Some v else btree_get k m'
  end.

Fixpoint btree_insert {V} (k : Z) (v : V) (m : list (Z * V)) : list (Z * V) :=
  match m with
  | [] => [(k, v)]
  | (k', v') :: m' =>
      if k <? k' then (k, v) :: m
      else if k =? k' then (k, v) :: m'
      else (k', v') :: btree_insert k v m'
  end.

Fixpoint btree_remove {V} (k : Z) (m : list (Z * V)) : list (Z * V) :=
  match m with
  | [] => []
  | (k', v) :: m' => if k =? k' then m' else (k', v) :: btree_remove k m'
  end.

(** The sum of a measure of the values. *)
Definition sum_by {V} (f : V -> Z) (m : list (Z * V)) : Z := foldr (fun e n => f e.2 + n) 0 m.

Definition keys_sorted {V} (g : list (Z * V)) : Prop := StronglySorted Z.lt (map fst g).

Section OrderedMaps.
Context {V : Type}.
Implicit Types (v : V) (g : list (Z * V)).

Lemma keys_sorted_cons o v g :
  keys_sorted ((o, v) :: g) <-> keys_sorted g /\ Forall (fun e => o < e.1) g.
Proof.
  unfold keys_sorted. cbn [map fst]. split.
  - intros H. inversion H; subst. split; [done|]. by apply Forall_map.
  - intros [H1 H2]. constructor; [done|]. by apply Forall_map.
Qed.

Lemma btree_insert_forall (P : Z * V -> Prop) k v g :
  P (k, v) -> Forall P g -> Forall P (btree_insert k v g).
Proof.
  intros Hk. induction 1 as [|[k' v'] g H Hg IH]; cbn [btree_insert].
  { by apply Forall_singleton. }
  repeat case_match; by repeat apply Forall_cons_2.
Qed.

Lemma btree_insert_sorted k v g : keys_sorted g -> keys_sorted (btree_insert k v g).
Proof.
  induction g as [|[k' v'] g IH]; cbn [btree_insert]; intros H.
  { apply keys_sorted_cons. split; [constructor|apply Forall_nil_2]. }
  apply keys_sorted_cons in H as [H1 H2].
  destruct (k <? k') eqn:E1; [|destruct (k =? k') eqn:E2]; bool_to_prop;
    apply keys_sorted_cons.
  - split; [by apply keys_sorted_cons|]. apply Forall_cons_2; [done|].
    eapply Forall_impl; [exact H2|]. intros [a b]; cbn; lia.
  - subst. auto.
  - split; [by apply IH|]. apply btree_insert_forall; [cbn; lia|done].
Qed.

Lemma btree_get_in k g v : btree_get k g = Some v -> (k, v) ∈ g.
Proof.
  induction g as [|[k' v'] g IH]; cbn [btree_get]; [done|]. intros H. apply elem_of_cons.
  destruct (k =? k') eqn:E; bool_to_prop; [left; by simplify_eq|right; auto].
Qed.

Lemma btree_insert_last k v g :
  Forall (fun e => e.1 < k) g -> btree_insert k v g = g ++ [(k, v)].
Proof.
  induction 1 as [|[k' v'] g H _ IH]; [done|]. cbn [btree_insert app]. cbn in H.
  rewrite (proj2 (Z.ltb_ge _ _)), (proj2 (Z.eqb_neq _ _)), IH by lia. done.
Qed.

Lemma btree_get_last k g : Forall (fun e => e.1 < k) g -> btree_get k g = None.
Proof.
  induction 1 as [|[k' v'] g H _ IH]; [done|]. cbn [btree_get]. cbn in H.
  by rewrite (proj2 (Z.eqb_neq _ _)) by lia.
Qed.

Lemma btree_get_below k g : Forall (fun e => k < e.1) g -> btree_get k g = None.
Proof.
  induction 1 as [|[k' v'] g H _ IH]; [done|]. cbn [btree_get]. cbn in H.
  by rewrite (proj2 (Z.eqb_neq _ _)) by lia.
Qed.

Lemma sum_by_snoc f g k v : sum_by f (g ++ [(k, v)]) = sum_by f g + f v.
Proof.
  unfold sum_by. induction g as [|e g IH]; cbn [foldr app]; cbn [snd]; [lia|].
  rewrite IH. lia.
Qed.

Lemma sum_by_insert f k v g :
  keys_sorted g ->
  sum_by f (btree_insert k v g) =
  sum_by f g + f v - match btree_get k g with Some w => f w | None => 0 end.
Proof.
  unfold sum_by. induction g as [|[k' v'] g IH]; intros Hs; cbn [btree_insert btree_get foldr snd].
  { lia. }
  apply keys_sorted_cons in Hs as [Hs1 Hs2].
  destruct (k <? k') eqn:E1; [|destruct (k =? k') eqn:E2]; bool_to_prop; cbn [foldr snd].
  - rewrite (proj2 (Z.eqb_neq _ _)) by lia. rewrite btree_get_below; [lia|].
    eapply Forall_impl; [exact Hs2|]. cbn beta. lia.
  - lia.
  - rewrite IH by done. lia.
Qed.

Lemma btree_remove_forall (P : Z * V -> Prop) k g : Forall P g -> Forall P (btree_remove k g).
Proof.
  induction 1 as [|[k' v'] g H Hg IH]; cbn [btree_remove]; [apply Forall_nil_2|].
  case_match; [done|by apply Forall_cons_2].
Qed.

Lemma btree_remove_sorted k g : keys_sorted g -> keys_sorted (btree_remove k g).
Proof.
  induction g as [|[k' v'] g IH]; cbn [btree_remove]; intros H; [done|].
  apply keys_sorted_cons in H as [H1 H2]. case_match; [done|].
  apply keys_sorted_cons. split; [by apply IH|]. by apply btree_remove_forall.
Qed.

Lemma sum_by_remove f k g :
  sum_by f (btree_remove k g) =
  sum_by f g - match btree_get k g with Some w => f w | None => 0 end.
Proof.
  unfold sum_by. induction g as [|[k' v'] g IH]; cbn [btree_remove btree_get foldr]; [lia|].
  destruct (k =? k'); cbn [foldr snd]; lia.
Qed.

End OrderedMaps.

(** Bytes that wait for a gap to fill, keyed by their offset. *)
Definition Gaps : Type := list (Z * list Z).

Definition gap_bytes : Gaps -> Z := sum_by zlen.

(* ------------------------------------------------------------------ *)
(** ** [RecvStream] *)

Inductive RecvState :=
| RecvOpen
| FinSeen (fin_offset : Z)
| RecvClosed (fin_offset : Z).

Record RecvStream := mkRecvStream {
  rs_buffer : list Z;
  rs_offset : Z;
  rs_gap_buffer : Gaps;
  rs_state : RecvState;
  rs_rx_us : Z;
  rs_recv_max : Z;
  rs_recv_high : Z;
}.

Definition set_rs_data (b : list Z) (o : Z) (g : Gaps) (s : RecvStream) : RecvStream :=
  mkRecvStream b o g (rs_state s) (rs_rx_us s) (rs_recv_max s) (rs_recv_high s).
Definition set_rs_state (x : RecvState) (s : RecvStream) : RecvStream :=
  mkRecvStream (rs_buffer s) (rs_offset s) (rs_gap_buffer s) x (rs_rx_us s) (rs_recv_max s)
    (rs_recv_high s).
Definition set_rs_recv_max (x : Z) (s : RecvStream) : RecvStream :=
  mkRecvStream (rs_buffer s) (rs_offset s) (rs_gap_buffer s) (rs_state s) (rs_rx_us s) x
    (rs_recv_high s).
Definition set_rs_recv_high (x : Z) (s : RecvStream) : RecvStream :=
  mkRecvStream (rs_buffer s) (rs_offset s) (rs_gap_buffer s) (rs_state s) (rs_rx_us s)
    (rs_recv_max s) x.
Definition set_rs_rx_us (x : Z) (s : RecvStream) : RecvStream :=
  mkRecvStream (rs_buffer s) (rs_offset s) (rs_gap_buffer s) (rs_state s) x
    (rs_recv_max s) (rs_recv_high s).

Definition recv_default : RecvStream :=
  mkRecvStream [] 0 [] RecvOpen 0 INITIAL_MAX_STREAM_DATA 0.

Definition recv_reset_for_reuse (s : RecvStream) : RecvStream :=
  s |> set_rs_data [] 0 [] |> set_rs_state RecvOpen |> set_rs_rx_us 0
    |> set_rs_recv_max INITIAL_MAX_STREAM_DATA |> set_rs_recv_high 0.

Definition rs_fin_offset (s : RecvStream) : option Z :=
  match rs_state s with
  | RecvOpen => None
  | FinSeen f | RecvClosed f => Some f
  end.

Definition rs_is_closed (s : RecvStream) : bool :=
  match rs_state s with RecvClosed _ => true | _ => false end.

Definition rs_consumed (s : RecvStream) : Z := w64 (rs_offset s - zlen (rs_buffer s)).

Definition record_fin (end_ : Z) (s : RecvStream) : RecvStream :=
  let fin_offset :=
    match rs_state s with
    | RecvOpen => end_
    | FinSeen f | RecvClosed f => Z.max f end_
    end in
  set_rs_state (if fin_offset <=? rs_offset s then RecvClosed fin_offset else FinSeen fin_offset) s.

Definition maybe_close (s : RecvStream) : RecvStream :=
  match rs_state s with
  | FinSeen f => if f <=? rs_offset s then set_rs_state (RecvClosed f) s else s
  | _ => s
  end.

(** The loop that folds the waiting entries in, lowest offset first. *)
Fixpoint fold_gaps (buf : list Z) (off : Z) (produced : bool) (gaps : Gaps)
    : list Z * Z * Gaps * bool :=
  match gaps with
  | [] => (buf, off, [], produced)
  | (next_off, v) :: rest =>
      if off <? next_off then (buf, off, gaps, produced)
      else
        let skip := sat_sub off next_off in
        if skip <? zlen v then
          let tail := zdrop skip v in
          fold_gaps (buf ++ tail) (w64 (off + zlen tail)) true rest
        else fold_gaps buf off produced rest
  end.

(** A frame that leaves a gap, kept unless a longer one starts at the same offset. *)
Definition stash (frame_offset : Z) (data : list Z) (gaps : Gaps) : Gaps :=
  let keep :=
    match btree_get frame_offset gaps with
    | Some existing => zlen existing <? zlen data
    | None => true
    end in
  if keep then btree_insert frame_offset data gaps else gaps.

(** [ingest]: the flag tells whether the frame made new bytes readable. *)
Definition ingest (frame_offset : Z) (data : list Z) (fin : bool) (s : RecvStream)
    : bool * RecvStream :=
  if w64 (frame_offset + zlen data) <=? rs_offset s then
    (false, if fin then record_fin (w64 (frame_offset + zlen data)) s else s)
  else
    let skip := sat_sub (rs_offset s) frame_offset in
    let frame_offset := w64 (frame_offset + skip) in
    let data := zdrop skip data in
    let '(produced, s) :=
      if frame_offset =? rs_offset s then
        let '(buf, off, gaps, produced) :=
          fold_gaps (rs_buffer s ++ data) (w64 (rs_offset s + zlen data)) (0 <? zlen data)
            (rs_gap_buffer s) in
        (produced, set_rs_data buf off gaps s)
      else if 0 <? zlen data then
        (false, set_rs_data (rs_buffer s) (rs_offset s)
                  (stash frame_offset data (rs_gap_buffer s)) s)
      else (false, s) in
    (produced,
     if fin then record_fin (w64 (frame_offset + zlen data)) s else maybe_close s).

Definition apply_reset (final_size : Z) (s : RecvStream) : RecvStream :=
  s |> set_rs_data [] final_size [] |> set_rs_recv_high final_size
    |> set_rs_state (RecvClosed final_size).

(** [drain] into a buffer of [cap] bytes: the bytes copied and the end-of-stream
    flag. *)
Definition drain (cap : Z) (s : RecvStream) : (list Z * bool) * RecvStream :=
  let n := Z.min cap (zlen (rs_buffer s)) in
  let out := ztake n (rs_buffer s) in
  let s := set_rs_data (zdrop n (rs_buffer s)) (rs_offset s) (rs_gap_buffer s) s in
  ((out, rs_is_closed s && (zlen (rs_buffer s) =? 0)), s).

Definition has_buffered (s : RecvStream) : bool := negb (zlen (rs_buffer s) =? 0).

Record RecvStreamState := mkRecvStreamState {
  st_offset : Z;
  st_fin_offset : option Z;
  st_closed : bool;
  st_buffer_len : Z;
  st_gap_entries : Z;
}.

Definition debug_state (s : RecvStream) : RecvStreamState :=
  mkRecvStreamState (rs_offset s) (rs_fin_offset s) (rs_is_closed s)
    (zlen (rs_buffer s)) (zlen (rs_gap_buffer s)).

(* ------------------------------------------------------------------ *)
(** ** [SendStream]

    A queued [IOBuf] is its visible bytes; sharing its storage ([share],
    [clone_shared]) leaves them as they are. *)

Definition iobuf_consume (n : Z) (b : list Z) : option (list Z) :=
  if zlen b <? n then None else Some (zdrop n b).

Definition iobuf_trim_end (n : Z) (b : list Z) : option (list Z) :=
  if zlen b <? n then None else Some (ztake (zlen b - n) b).

Definition iobuf_narrow (offset len : Z) (b : list Z) : option (list Z) :=
  match iobuf_consume offset b with
  | None => None
  | Some b =>
      let visible := zlen b in
      if len <? visible then iobuf_trim_end (visible - len) b else Some b
  end.

Inductive SendState := SendOpen | Closing | FinSent | ResetSent.

Record SendStream := mkSendStream {
  ss_outbound : list (list Z);
  ss_head_consumed : Z;
  ss_send_offset : Z;
  ss_state : SendState;
  ss_rx_us : Z;
  ss_peer_max_stream_data : Z;
}.

Definition set_ss_queue (q : list (list Z)) (h : Z) (s : SendStream) : SendStream :=
  mkSendStream q h (ss_send_offset s) (ss_state s) (ss_rx_us s) (ss_peer_max_stream_data s).
Definition set_ss_send_offset (x : Z) (s : SendStream) : SendStream :=
  mkSendStream (ss_outbound s) (ss_head_consumed s) x (ss_state s) (ss_rx_us s)
    (ss_peer_max_stream_data s).
Definition set_ss_state (x : SendState) (s : SendStream) : SendStream :=
  mkSendStream (ss_outbound s) (ss_head_consumed s) (ss_send_offset s) x (ss_rx_us s)
    (ss_peer_max_stream_data s).
Definition set_ss_rx_us (x : Z) (s : SendStream) : SendStream :=
  mkSendStream (ss_outbound s) (ss_head_consumed s) (ss_send_offset s) (ss_state s) x
    (ss_peer_max_stream_data s).
Definition set_ss_peer_max (x : Z) (s : SendStream) : SendStream :=
  mkSendStream (ss_outbound s) (ss_head_consumed s) (ss_send_offset s) (ss_state s) (ss_rx_us s) x.

Definition send_default : SendStream := mkSendStream [] 0 0 SendOpen 0 0.

Definition send_reset_for_reuse (s : SendStream) : SendStream :=
  s |> set_ss_queue [] 0 |> set_ss_send_offset 0 |> set_ss_state SendOpen |> set_ss_rx_us 0
    |> set_ss_peer_max 0.

Definition ss_fin_sent (s : SendStream) : bool :=
  match ss_state s with FinSent | ResetSent => true | _ => false end.

(** [abort]: the final size is what went out on the wire. *)
Definition abort (s : SendStream) : Z * SendStream :=
  (ss_send_offset s,
   s |> set_ss_queue [] 0 |> set_ss_state ResetSent |> set_ss_rx_us 0).

(** [enter_fin_sent] at time [now]: the latency sample it records, if any. *)
Definition enter_fin_sent (now : Z) (s : SendStream) : option Z * SendStream :=
  let s := set_ss_state FinSent s in
  if ss_rx_us s =? 0 then (None, s)
  else (Some (sat_sub now (ss_rx_us s)), set_ss_rx_us 0 s).

Definition write_iobuf (data : list Z) (s : SendStream) : SendStream :=
  if ss_fin_sent s || (zlen data =? 0) then s
  else set_ss_queue (ss_outbound s ++ [data]) (ss_head_consumed s) s.

Definition buffered_len (s : SendStream) : Z :=
  sat_sub (foldr (fun c n => zlen c + n) 0 (ss_outbound s)) (ss_head_consumed s).

Definition send_close (s : SendStream) : SendStream :=
  match ss_state s with
  | SendOpen => set_ss_state Closing s
  | Closing | FinSent | ResetSent => s
  end.

Definition outbound_is_empty (s : SendStream) : bool :=
  match ss_outbound s with [] => true | _ => false end.

Definition head_remaining_len (s : SendStream) : Z :=
  match ss_outbound s with
  | [] => 0
  | b :: _ => w64 (zlen b - ss_head_consumed s)
  end.

Definition advance_head (n : Z) (s : SendStream) : SendStream :=
  let s := set_ss_queue (ss_outbound s) (w64 (ss_head_consumed s + n)) s in
  match ss_outbound s with
  | head :: rest =>
      if ss_head_consumed s =? zlen head then set_ss_queue rest 0 s else s
  | [] => s
  end.

(** A STREAM frame: offset, bytes, FIN. *)
Definition StreamFrame : Type := Z * list Z * bool.

(** [pop_chunk] at time [now]: the frame cut from the chain and the latency sample
    recorded when it carries the FIN. *)
Definition pop_chunk (now max_bytes : Z) (s : SendStream)
    : option StreamFrame * option Z * SendStream :=
  if ss_fin_sent s ||
     (match ss_state s with SendOpen => outbound_is_empty s | _ => false end)
  then (None, None, s)
  else
    let offset := ss_send_offset s in
    match ss_outbound s with
    | [] =>
        let '(lat, s) := enter_fin_sent now s in
        (Some (offset, [], true), lat, s)
    | head :: _ =>
        let n := Z.min (head_remaining_len s) max_bytes in
        match iobuf_narrow (ss_head_consumed s) n head with
        | None => (None, None, s)
        | Some view =>
            let s := advance_head n s in
            let s := set_ss_send_offset (w64 (ss_send_offset s + n)) s in
            let fin :=
              (match ss_state s with Closing => true | _ => false end) && outbound_is_empty s in
            let '(lat, s) := if fin then enter_fin_sent now s else (None, s) in
            (Some (offset, view, fin), lat, s)
        end
    end.

(* ------------------------------------------------------------------ *)
(** ** Slices of a stream *)

Lemma slice_snoc (s : list Z) a n :
  0 <= a -> 0 <= n -> ztake a s ++ slice a n s = ztake (a + n) s.
Proof.
  intros. unfold slice, ztake, zdrop. rewrite Z2Nat.inj_add by lia.
  by rewrite take_take_drop.
Qed.

Lemma zdrop_slice (s : list Z) a n k :
  0 <= a -> 0 <= k <= n -> zdrop k (slice a n s) = slice (a + k) (n - k) s.
Proof.
  intros. unfold slice, ztake, zdrop. rewrite skipn_firstn_comm, drop_drop.
  f_equal; [lia|]. f_equal. lia.
Qed.

Lemma zlen_piece (s : list Z) a n :
  0 <= a -> 0 <= n -> a + n <= zlen s -> zlen (slice a n s) = n.
Proof. intros. unfold slice. rewrite zlen_ztake, zlen_zdrop by lia. lia. Qed.

(** The bytes [d] are those of [s] at [o]. *)
Definition at_offset (s : list Z) (o : Z) (d : list Z) : Prop :=
  0 <= o /\ o + zlen d <= zlen s /\ d = slice o (zlen d) s.

Lemma at_offset_zdrop s o d k :
  at_offset s o d -> 0 <= k <= zlen d -> at_offset s (o + k) (zdrop k d).
Proof.
  intros (H1 & H2 & H3) Hk. unfold at_offset. rewrite zlen_zdrop by lia.
  replace (Z.max 0 (zlen d - k)) with (zlen d - k) by lia.
  split_and!; [lia..|]. rewrite H3 at 1. apply zdrop_slice; lia.
Qed.

Lemma at_offset_snoc s o d : at_offset s o d -> ztake o s ++ d = ztake (o + zlen d) s.
Proof.
  intros (H1 & H2 & H3). rewrite H3 at 1. apply slice_snoc; [done|apply zlen_nonneg].
Qed.

(* ------------------------------------------------------------------ *)
(** ** Reassembly

    The frames received are pieces of one stream [strm]; each covers the offsets
    of its bytes. *)

Definition covers_at (o : Z) (d : list Z) (k : Z) : Prop := o <= k < o + zlen d.

Definition gap_covers (g : Gaps) (k : Z) : Prop := exists o d, (o, d) ∈ g /\ covers_at o d k.

Definition frame_covers (fs : list StreamFrame) (k : Z) : Prop :=
  exists o d fin, (o, d, fin) ∈ fs /\ covers_at o d k.

Definition fin_in (fs : list StreamFrame) : Prop := exists o d, (o, d, true) ∈ fs.

(** A frame of the stream: its bytes are the stream's, and the FIN is on its end. *)
Definition frame_of (strm : list Z) (f : StreamFrame) : Prop :=
  at_offset strm f.1.1 f.1.2 /\ (f.2 = true -> f.1.1 + zlen f.1.2 = zlen strm).

Lemma gap_covers_cons o d g k :
  gap_covers ((o, d) :: g) k <-> covers_at o d k \/ gap_covers g k.
Proof.
  unfold gap_covers. split.
  - intros (o' & d' & [E|H]%elem_of_cons & Hk); [simplify_eq; by left|right; eauto].
  - intros [H|(o' & d' & H & Hk)]; [exists o, d|exists o', d']; rewrite elem_of_cons; auto.
Qed.

Lemma gap_covers_nil k : ~ gap_covers [] k.
Proof. intros (? & ? & H & _). by apply elem_of_nil in H. Qed.

Lemma frame_covers_cons o d fin fs k :
  frame_covers ((o, d, fin) :: fs) k <-> covers_at o d k \/ frame_covers fs k.
Proof.
  unfold frame_covers. split.
  - intros (o' & d' & f' & [E|H]%elem_of_cons & Hk); [simplify_eq; by left|right; eauto].
  - intros [H|(o' & d' & f' & H & Hk)];
      [exists o, d, fin|exists o', d', f']; rewrite elem_of_cons; auto.
Qed.

(** Entries of the stream, all past [off]. *)
Definition gaps_ok (strm : list Z) (off : Z) (g : Gaps) : Prop :=
  keys_sorted g /\ Forall (fun e => off < e.1 /\ at_offset strm e.1 e.2) g.

(** Inserting under a key whose entry is no longer than the new one loses nothing. *)
Lemma btree_insert_covers k v g :
  keys_sorted g ->
  (forall w, btree_get k g = Some w -> zlen w <= zlen v) ->
  forall x, gap_covers (btree_insert k v g) x <-> covers_at k v x \/ gap_covers g x.
Proof.
  induction g as [|[k' v'] g IH]; cbn [btree_insert]; intros Hs Hw x.
  { apply gap_covers_cons. }
  apply keys_sorted_cons in Hs as [H1 H2].
  cbn [btree_get] in Hw.
  destruct (k <? k') eqn:E1; [by rewrite gap_covers_cons|].
  destruct (k =? k') eqn:E2; bool_to_prop.
  - subst. rewrite !gap_covers_cons. specialize (Hw _ eq_refl).
    unfold covers_at. split; [naive_solver|]. intros [?|[?|?]]; [auto|left; lia|auto].
  - rewrite !gap_covers_cons, IH by done. tauto.
Qed.

Lemma stash_covers k v g :
  keys_sorted g ->
  forall x, gap_covers (stash k v g) x <-> covers_at k v x \/ gap_covers g x.
Proof.
  intros Hs x. unfold stash. destruct (btree_get k g) as [w|] eqn:Ew.
  - destruct (zlen w <? zlen v) eqn:El; bool_to_prop.
    + apply btree_insert_covers; [done|]. rewrite Ew. intros ? [= <-]. lia.
    + split; [by right|]. intros [H|H]; [|done].
      exists k, w. split; [by apply btree_get_in|]. unfold covers_at in *. lia.
  - apply btree_insert_covers; [done|]. by rewrite Ew.
Qed.

Lemma stash_ok strm off k v g :
  gaps_ok strm off g -> off < k -> at_offset strm k v -> gaps_ok strm off (stash k v g).
Proof.
  intros [H1 H2] Hk Hv. unfold stash. case_match; [|done]. split.
  - by apply btree_insert_sorted.
  - by apply btree_insert_forall.
Qed.

(** The folding loop: the readable bytes stay a prefix of the stream, nothing
    covered is lost, and what remains waits past a hole. *)
Lemma fold_gaps_spec strm read g : forall buf off p,
  zlen strm <= U64_MAX ->
  read ++ buf = ztake off strm -> 0 <= off <= zlen strm ->
  keys_sorted g -> Forall (fun e => at_offset strm e.1 e.2) g ->
  let '(buf', off', g', p') := fold_gaps buf off p g in
  read ++ buf' = ztake off' strm /\ off <= off' <= zlen strm /\
  gaps_ok strm off' g' /\
  (forall k, 0 <= k -> k < off' \/ gap_covers g' k <-> k < off \/ gap_covers g k) /\
  p' = p || (off <? off').
Proof.
  induction g as [|[o d] g IH]; intros buf off p HL Hpre Hoff Hs Hf; cbn [fold_gaps].
  { split_and!; [done|lia|lia|split; [done|apply Forall_nil_2]|done|].
    by rewrite Z.ltb_irrefl, orb_false_r. }
  pose proof (proj1 (keys_sorted_cons o d g) Hs) as [Hs1 Hs2].
  pose proof (Forall_inv Hf) as Hd. cbn [fst snd] in Hd.
  pose proof (Forall_inv_tail Hf) as Hf'.
  destruct (off <? o) eqn:E1; bool_to_prop.
  { split_and!; [done|lia|lia| |done|by rewrite Z.ltb_irrefl, orb_false_r].
    split; [done|]. apply Forall_cons_2; [by cbn|].
    apply Forall_forall. intros [a b] Hin. rewrite Forall_forall in Hs2, Hf'.
    specialize (Hs2 _ Hin). specialize (Hf' _ Hin). cbn in *. split; [lia|done]. }
  pose proof (zlen_nonneg d) as Hd0. pose proof Hd as (Hd1 & Hd2 & _).
  unfold sat_sub. rewrite Z.max_r by lia.
  destruct (off - o <? zlen d) eqn:E2; bool_to_prop.
  - assert (Ht : at_offset strm off (zdrop (off - o) d)).
    { replace off with (o + (off - o)) at 1 by lia. apply at_offset_zdrop; [done|lia]. }
    assert (Hz : zlen (zdrop (off - o) d) = o + zlen d - off) by (rewrite zlen_zdrop; lia).
    rewrite w64_small by (unfold is_u64; lia).
    specialize (IH (buf ++ zdrop (off - o) d) (off + zlen (zdrop (off - o) d)) true HL).
    destruct (fold_gaps _ _ _ g) as [[[b' o'] g'] p'].
    destruct IH as (I1 & I2 & I3 & I4 & I5); [|lia|done|done|].
    { rewrite app_assoc, Hpre. by apply at_offset_snoc. }
    split_and!; [done|lia|lia|done| |].
    + intros k Hk. rewrite I4, gap_covers_cons by done.
      assert (k < off + zlen (zdrop (off - o) d) <-> k < off \/ covers_at o d k)
        by (unfold covers_at; lia).
      tauto.
    + rewrite I5. cbn. rewrite (proj2 (Z.ltb_lt off o')) by lia. by rewrite orb_true_r.
  - specialize (IH buf off p HL Hpre Hoff Hs1 Hf').
    destruct (fold_gaps _ _ _ g) as [[[b' o'] g'] p'].
    destruct IH as (I1 & I2 & I3 & I4 & I5).
    split_and!; [done|lia|lia|done| |done].
    intros k Hk. rewrite I4, gap_covers_cons by done. unfold covers_at. intuition lia.
Qed.

(** What the lifecycle state records of the FINs received; between the advance of
    the offset and the re-check, [FinSeen] may lag behind. *)
Definition state_lags (strm : list Z) (fs : list StreamFrame) (s : RecvStream) : Prop :=
  match rs_state s with
  | RecvOpen => ~ fin_in fs
  | FinSeen f => fin_in fs /\ f = zlen strm
  | RecvClosed f => fin_in fs /\ f = zlen strm /\ rs_offset s = f
  end.

Definition state_ok (strm : list Z) (fs : list StreamFrame) (s : RecvStream) : Prop :=
  state_lags strm fs s /\ match rs_state s with FinSeen f => rs_offset s < f | _ => True end.

(** The frames [fs] were received and the bytes [read] were read. *)
Record RecvInv (strm : list Z) (fs : list StreamFrame) (read : list Z) (s : RecvStream) : Prop := {
  ri_prefix : read ++ rs_buffer s = ztake (rs_offset s) strm;
  ri_offset : 0 <= rs_offset s <= zlen strm;
  ri_gaps : gaps_ok strm (rs_offset s) (rs_gap_buffer s);
  ri_covers : forall k, 0 <= k ->
    frame_covers fs k <-> k < rs_offset s \/ gap_covers (rs_gap_buffer s) k;
  ri_state : state_ok strm fs s;
}.

Lemma fin_in_cons o d fin fs : fin_in ((o, d, fin) :: fs) <-> fin = true \/ fin_in fs.
Proof.
  unfold fin_in. split.
  - intros (o' & d' & [E|H]%elem_of_cons); [left; by simplify_eq|right; eauto].
  - intros [->|(o' & d' & H)]; [exists o, d|exists o', d']; rewrite elem_of_cons; auto.
Qed.

Lemma maybe_close_ok strm fs o d s :
  rs_offset s <= zlen strm -> state_lags strm fs s ->
  state_ok strm ((o, d, false) :: fs) (maybe_close s).
Proof.
  unfold state_ok, state_lags, maybe_close. intros Ho H.
  assert (Hf : fin_in ((o, d, false) :: fs) <-> fin_in fs) by (rewrite fin_in_cons; naive_solver).
  destruct (rs_state s) as [|f|f] eqn:Es; [rewrite Es, Hf; auto| |rewrite Es, Hf; auto].
  destruct (f <=? rs_offset s) eqn:E; bool_to_prop; cbn [set_rs_state rs_state rs_offset];
    rewrite ?Es, Hf; intuition lia.
Qed.

Lemma record_fin_ok strm fs o d s :
  rs_offset s <= zlen strm -> state_lags strm fs s ->
  state_ok strm ((o, d, true) :: fs) (record_fin (zlen strm) s).
Proof.
  unfold state_ok, state_lags, record_fin. intros Ho H.
  assert (Hf : fin_in ((o, d, true) :: fs)) by (rewrite fin_in_cons; by left).
  assert (Hm : (match rs_state s with RecvOpen => zlen strm
                | FinSeen f | RecvClosed f => Z.max f (zlen strm) end) = zlen strm)
    by (destruct (rs_state s); intuition lia).
  rewrite Hm. cbn [set_rs_state rs_state rs_offset].
  destruct (_ <=? _) eqn:E; bool_to_prop; intuition lia.
Qed.

Lemma lags_data strm fs b o g s :
  rs_offset s <= o <= zlen strm -> state_lags strm fs s ->
  state_lags strm fs (set_rs_data b o g s).
Proof.
  unfold state_lags. cbn [set_rs_data rs_state rs_offset].
  destruct (rs_state s); intuition lia.
Qed.

(** The end of every arm: the FIN is recorded, or the state re-checked. *)
Lemma finish_inv strm fs o d fin read s :
  frame_of strm (o, d, fin) ->
  read ++ rs_buffer s = ztake (rs_offset s) strm -> 0 <= rs_offset s <= zlen strm ->
  gaps_ok strm (rs_offset s) (rs_gap_buffer s) ->
  (forall k, 0 <= k ->
    frame_covers ((o, d, fin) :: fs) k <-> k < rs_offset s \/ gap_covers (rs_gap_buffer s) k) ->
  state_lags strm fs s ->
  RecvInv strm ((o, d, fin) :: fs) read
    (if fin then record_fin (o + zlen d) s else maybe_close s).
Proof.
  intros [_ Hfin] H1 H2 H3 H4 H5. cbn [fst snd] in Hfin.
  destruct fin.
  - rewrite Hfin by done. split; try done. apply record_fin_ok; [lia|done].
  - assert (E : rs_buffer (maybe_close s) = rs_buffer s /\
                rs_offset (maybe_close s) = rs_offset s /\
                rs_gap_buffer (maybe_close s) = rs_gap_buffer s)
      by (unfold maybe_close; repeat case_match; done).
    destruct E as (E1 & E2 & E3).
    split; rewrite ?E1, ?E2, ?E3; try done. apply maybe_close_ok; [lia|done].
Qed.

Lemma stale_covers strm fs read s o d fin k :
  RecvInv strm fs read s -> 0 <= k -> o + zlen d <= rs_offset s ->
  frame_covers ((o, d, fin) :: fs) k <-> k < rs_offset s \/ gap_covers (rs_gap_buffer s) k.
Proof.
  intros HI Hk Ho. rewrite frame_covers_cons, (ri_covers _ _ _ _ HI) by done.
  unfold covers_at. intuition lia.
Qed.

(** A frame at or below the offset joins the readable bytes. *)
Lemma append_inv strm fs read s o d fin :
  zlen strm <= U64_MAX -> frame_of strm (o, d, fin) -> RecvInv strm fs read s ->
  o <= rs_offset s < o + zlen d ->
  let skip := rs_offset s - o in
  let '(buf, off, gaps, p) :=
    fold_gaps (rs_buffer s ++ zdrop skip d) (rs_offset s + zlen (zdrop skip d))
      (0 <? zlen (zdrop skip d)) (rs_gap_buffer s) in
  RecvInv strm ((o, d, fin) :: fs) read
    (if fin then record_fin (o + zlen d) (set_rs_data buf off gaps s)
     else maybe_close (set_rs_data buf off gaps s)) /\
  p = true /\ rs_offset s < off.
Proof.
  intros HL Hf HI Ho skip. pose proof Hf as [(Ha1 & Ha2 & Ha3) _]. cbn [fst snd] in *.
  pose proof (ri_offset _ _ _ _ HI) as Hoff. pose proof (ri_gaps _ _ _ _ HI) as [Hg1 Hg2].
  assert (Ht : at_offset strm (rs_offset s) (zdrop skip d)).
  { replace (rs_offset s) with (o + skip) by lia. apply at_offset_zdrop; [done|lia]. }
  assert (Hz : zlen (zdrop skip d) = o + zlen d - rs_offset s) by (rewrite zlen_zdrop; lia).
  pose proof (fold_gaps_spec strm read (rs_gap_buffer s) (rs_buffer s ++ zdrop skip d)
    (rs_offset s + zlen (zdrop skip d)) (0 <? zlen (zdrop skip d)) HL) as HS.
  destruct (fold_gaps _ _ _ _) as [[[buf off] gaps] p].
  destruct HS as (S1 & S2 & S3 & S4 & S5); [|lia|done| |].
  { rewrite app_assoc, (ri_prefix _ _ _ _ HI). by apply at_offset_snoc. }
  { eapply Forall_impl; [exact Hg2|]. by intros ? [_ ?]. }
  split; [|split; [|lia]].
  - apply finish_inv; cbn [set_rs_data rs_buffer rs_offset rs_gap_buffer]; try done; [lia| |].
    + intros k Hk. rewrite S4, frame_covers_cons, (ri_covers _ _ _ _ HI) by done.
      assert (k < rs_offset s + zlen (zdrop skip d) <-> k < rs_offset s \/ covers_at o d k)
        by (unfold covers_at; lia).
      tauto.
    + apply lags_data; [lia|]. apply (ri_state _ _ _ _ HI).
  - rewrite S5, (proj2 (Z.ltb_lt 0 _)) by lia. done.
Qed.

(** A frame past a hole is set aside. *)
Lemma ahead_inv strm fs read s o d fin :
  frame_of strm (o, d, fin) -> RecvInv strm fs read s -> rs_offset s < o ->
  let s' := if 0 <? zlen d then
              set_rs_data (rs_buffer s) (rs_offset s) (stash o d (rs_gap_buffer s)) s
            else s in
  RecvInv strm ((o, d, fin) :: fs) read
    (if fin then record_fin (o + zlen d) s' else maybe_close s').
Proof.
  intros Hf HI Hgt. pose proof Hf as [Ha _]. cbn [fst snd] in Ha. cbn zeta.
  pose proof (ri_offset _ _ _ _ HI) as Hoff. pose proof (ri_gaps _ _ _ _ HI) as Hg.
  pose proof (ri_state _ _ _ _ HI) as [Hlag _].
  destruct (0 <? zlen d) eqn:E; bool_to_prop.
  - apply finish_inv; cbn [set_rs_data rs_buffer rs_offset rs_gap_buffer];
      [done|apply (ri_prefix _ _ _ _ HI)|done|by apply stash_ok| |by apply lags_data; [lia|]].
    intros k Hk.
    rewrite stash_covers, frame_covers_cons, (ri_covers _ _ _ _ HI) by (done || apply Hg). tauto.
  - apply finish_inv; try done; [apply (ri_prefix _ _ _ _ HI)|].
    intros k Hk. rewrite frame_covers_cons, (ri_covers _ _ _ _ HI) by done.
    unfold covers_at. intuition lia.
Qed.

Lemma ingest_inv strm fs read s o d fin :
  zlen strm <= U64_MAX -> frame_of strm (o, d, fin) -> RecvInv strm fs read s ->
  RecvInv strm ((o, d, fin) :: fs) read (ingest o d fin s).2 /\
  (ingest o d fin s).1 = (rs_offset s <? rs_offset (ingest o d fin s).2).
Proof.
  intros HL Hf HI. pose proof Hf as [(Ha1 & Ha2 & Ha3) Hfin]. cbn [fst snd] in *.
  pose proof (ri_offset _ _ _ _ HI) as Hoff. pose proof (zlen_nonneg d) as Hd.
  pose proof (ri_state _ _ _ _ HI) as [Hlag Hst].
  assert (Hfo : forall e x, rs_offset (record_fin e x) = rs_offset x) by done.
  assert (Hmo : forall x, rs_offset (maybe_close x) = rs_offset x)
    by (intros; unfold maybe_close; repeat case_match; done).
  unfold ingest. rewrite (w64_small (o + zlen d)) by (unfold is_u64; lia).
  destruct (o + zlen d <=? rs_offset s) eqn:E1; bool_to_prop; cbn [fst snd].
  { assert (Hc := fun k Hk => stale_covers strm fs read s o d fin k HI Hk E1).
    pose proof (finish_inv strm fs o d fin read s Hf (ri_prefix _ _ _ _ HI) Hoff
      (ri_gaps _ _ _ _ HI) Hc Hlag) as HF.
    split; [|by destruct fin; rewrite ?Hfo, Z.ltb_irrefl].
    destruct fin; [done|]. unfold maybe_close in HF.
    destruct (rs_state s); try done. by rewrite (proj2 (Z.leb_gt _ _)) in HF by lia. }
  unfold sat_sub. destruct (Z.le_gt_cases o (rs_offset s)) as [Hle|Hgt].
  - rewrite Z.max_r by lia. pose proof (append_inv strm fs read s o d fin HL Hf HI) as HA.
    cbn zeta in HA. specialize (HA ltac:(lia)).
    assert (Hz : zlen (zdrop (rs_offset s - o) d) = o + zlen d - rs_offset s)
      by (rewrite zlen_zdrop; lia).
    rewrite !(w64_small) by (unfold is_u64; lia).
    rewrite (proj2 (Z.eqb_eq _ _)) by lia.
    destruct (fold_gaps _ _ _ _) as [[[buf off] gaps] p].
    replace (o + (rs_offset s - o) + zlen (zdrop (rs_offset s - o) d)) with (o + zlen d) by lia.
    destruct HA as (HA & -> & Hlt). split; [done|].
    cbn [fst snd]. destruct fin; rewrite ?Hfo, ?Hmo; cbn [set_rs_data rs_offset]; symmetry;
      by apply Z.ltb_lt.
  - rewrite Z.max_l by lia. cbn zeta. rewrite Z.add_0_r. change (zdrop 0 d) with d.
    rewrite (w64_small o) by (unfold is_u64; lia).
    rewrite (proj2 (Z.eqb_neq _ _)) by lia. rewrite (w64_small (o + zlen d)) by (unfold is_u64; lia).
    pose proof (ahead_inv strm fs read s o d fin Hf HI Hgt) as HA. cbn zeta in HA.
    destruct (0 <? zlen d); (split; [done|]); cbn [fst snd];
      destruct fin; rewrite ?Hfo, ?Hmo; by rewrite Z.ltb_irrefl.
Qed.

(** Reading: the end of the stream is reported exactly when the FIN was received
    and the whole stream has been read. *)
Lemma drain_inv strm fs read s cap :
  0 <= cap -> RecvInv strm fs read s ->
  let '((out, eof), s') := drain cap s in
  RecvInv strm fs (read ++ out) s' /\ (eof = true <-> fin_in fs /\ read ++ out = strm).
Proof.
  intros Hc HI. unfold drain. pose proof (zlen_nonneg (rs_buffer s)) as Hb.
  set (n := Z.min cap (zlen (rs_buffer s))).
  set (s' := set_rs_data (zdrop n (rs_buffer s)) (rs_offset s) (rs_gap_buffer s) s).
  assert (HI' : RecvInv strm fs (read ++ ztake n (rs_buffer s)) s').
  { destruct HI as [H1 H2 H3 H4 H5]. split; try done. cbn [s' set_rs_data rs_buffer rs_offset].
    by rewrite <- app_assoc, ztake_zdrop. }
  split; [done|]. clearbody s'. clear HI.
  destruct HI' as [H1 H2 _ _ [H4 H5]].
  set (read' := read ++ _) in *. clearbody read'. clear n.
  assert (Hz : zlen read' + zlen (rs_buffer s') = rs_offset s')
    by (rewrite <- zlen_app, H1, zlen_ztake; lia).
  pose proof (zlen_nonneg (rs_buffer s')) as Hb'.
  unfold rs_is_closed. unfold state_lags in H4. rewrite andb_true_iff, Z.eqb_eq. split.
  - intros [Hcl He]. destruct (rs_state s'); try done. destruct H4 as (Hf & -> & Ho).
    split; [done|]. apply zlen_nil_inv in He. rewrite He, app_nil_r, ztake_ge in H1 by lia. done.
  - intros [Hf ->]. destruct (rs_state s'); [done|lia|]. split; [done|lia].
Qed.

(** A run: frames arrive and the application reads, in any interleaving. *)
Inductive RecvOp := OpFrame (f : StreamFrame) | OpDrain (cap : Z).

Fixpoint recv_run (ops : list RecvOp) (read : list Z) (s : RecvStream) : list Z * RecvStream :=
  match ops with
  | [] => (read, s)
  | OpFrame (o, d, fin) :: ops => recv_run ops read (ingest o d fin s).2
  | OpDrain cap :: ops =>
      let '((out, _), s) := drain cap s in recv_run ops (read ++ out) s
  end.

Fixpoint frames_in (ops : list RecvOp) : list StreamFrame :=
  match ops with
  | [] => []
  | OpFrame f :: ops => f :: frames_in ops
  | OpDrain _ :: ops => frames_in ops
  end.

Definition op_ok (strm : list Z) (op : RecvOp) : Prop :=
  match op with OpFrame f => frame_of strm f | OpDrain cap => 0 <= cap end.

Lemma recv_run_inv strm ops : forall fs read s,
  zlen strm <= U64_MAX -> Forall (op_ok strm) ops -> RecvInv strm fs read s ->
  RecvInv strm (reverse (frames_in ops) ++ fs) (recv_run ops read s).1 (recv_run ops read s).2.
Proof.
  induction ops as [|[[[o d] fin]|cap] ops IH]; intros fs read s HL Hops HI; [done| |];
    cbn [recv_run frames_in]; pose proof (Forall_inv Hops) as Hop;
    apply Forall_inv_tail in Hops; cbn [op_ok] in Hop.
  - rewrite reverse_cons, <- app_assoc. apply IH; [done..|]. by apply ingest_inv.
  - pose proof (drain_inv strm fs read s cap Hop HI) as HD.
    destruct (drain cap s) as [[out eof] s']. apply IH; [done..|]. apply HD.
Qed.

Lemma recv_default_inv strm : RecvInv strm [] [] recv_default.
Proof.
  assert (Hn : forall f : StreamFrame, f ∉ []) by (intros f; apply not_elem_of_nil).
  split; cbn [recv_default rs_buffer rs_offset rs_gap_buffer].
  - done.
  - pose proof (zlen_nonneg strm). lia.
  - split; [constructor|apply Forall_nil_2].
  - intros k Hk. split; [by intros (? & ? & ? & []%Hn & _)|].
    intros [?|[]%gap_covers_nil]. lia.
  - split; [|done]. by intros (? & ? & []%Hn).
Qed.

Lemma RecvInv_frames strm fs fs' read s :
  (forall f, f ∈ fs <-> f ∈ fs') -> RecvInv strm fs read s -> RecvInv strm fs' read s.
Proof.
  intros He [H1 H2 H3 H4 [H5 H6]].
  assert (Hf : fin_in fs' <-> fin_in fs) by (unfold fin_in; split; intros (o & d & H); exists o, d; by apply He).
  split; try done.
  - intros k Hk. rewrite <- H4 by done.
    split; intros (o & d & fin & H & Hc); exists o, d, fin; (split; [by apply He|done]).
  - split; [|done]. unfold state_lags in *. destruct (rs_state s); by rewrite Hf.
Qed.

Lemma recv_run_default strm ops :
  zlen strm <= U64_MAX -> Forall (op_ok strm) ops ->
  RecvInv strm (frames_in ops) (recv_run ops [] recv_default).1 (recv_run ops [] recv_default).2.
Proof.
  intros HL Ho. eapply RecvInv_frames; [|apply (recv_run_inv strm ops [])]; [|done..|].
  - intros f. by rewrite app_nil_r, elem_of_reverse.
  - apply recv_default_inv.
Qed.

(** The offset is the first byte not received. *)
Lemma uncovered_offset strm fs read s :
  RecvInv strm fs read s -> ~ frame_covers fs (rs_offset s).
Proof.
  intros HI Hc. pose proof (ri_offset _ _ _ _ HI) as Ho.
  apply (ri_covers _ _ _ _ HI) in Hc as [Hc|(o & d & Hin & Hk)]; [lia| |lia].
  destruct (ri_gaps _ _ _ _ HI) as [_ Hg]. rewrite Forall_forall in Hg.
  destruct (Hg _ Hin) as [Hlt _]. unfold covers_at in Hk. cbn in Hlt. lia.
Qed.

(** The whole stream has become readable once its bytes are all covered. *)
Lemma covered_offset strm fs read s :
  RecvInv strm fs read s -> (forall k, 0 <= k < zlen strm -> frame_covers fs k) ->
  rs_offset s = zlen strm.
Proof.
  intros HI Hc. pose proof (ri_offset _ _ _ _ HI) as Ho.
  destruct (Z.eq_dec (rs_offset s) (zlen strm)) as [|Hne]; [done|].
  destruct (uncovered_offset _ _ _ _ HI). apply Hc. lia.
Qed.

(* ------------------------------------------------------------------ *)
(** ** Cutting the chain into frames *)

(** Bytes queued and not yet emitted. *)
Definition ss_pending (s : SendStream) : list Z :=
  zdrop (ss_head_consumed s) (concat (ss_outbound s)).

Definition head_ok (s : SendStream) : Prop :=
  Forall (fun c : list Z => 0 < zlen c) (ss_outbound s) /\
  match ss_outbound s with
  | [] => ss_head_consumed s = 0
  | h :: _ => 0 <= ss_head_consumed s < zlen h
  end.

(** [w]: the bytes written and not dropped by an abort; [fs]: the frames emitted. *)
Record SendInv (w : list Z) (fs : list StreamFrame) (s : SendStream) : Prop := {
  si_head : head_ok s;
  si_offset : 0 <= ss_send_offset s;
  si_cursor : ss_head_consumed s <= ss_send_offset s;
  si_bytes : ztake (ss_send_offset s) w ++ ss_pending s = w;
  si_sent : ss_send_offset s + zlen (ss_pending s) = zlen w;
  si_frames : Forall (frame_of w) fs;
  si_within : Forall (fun f => f.1.1 + zlen f.1.2 <= ss_send_offset s) fs;
  si_covers : forall k, 0 <= k < ss_send_offset s -> frame_covers fs k;
  si_fin : fin_in fs -> ss_fin_sent s = true /\ ss_pending s = [];
  si_finished : ss_state s = FinSent -> fin_in fs;
}.

Lemma iobuf_narrow_slice o n b :
  0 <= o -> 0 <= n -> o + n <= zlen b -> iobuf_narrow o n b = Some (slice o n b).
Proof.
  intros. unfold iobuf_narrow, iobuf_consume, iobuf_trim_end, slice.
  rewrite (proj2 (Z.ltb_ge _ _)) by lia. rewrite zlen_zdrop, Z.max_r by lia.
  destruct (n <? zlen b - o) eqn:E; bool_to_prop.
  - rewrite (proj2 (Z.ltb_ge _ _)) by lia. do 2 f_equal. lia.
  - rewrite ztake_ge; [done|]. rewrite zlen_zdrop; lia.
Qed.

Lemma pending_cons s h rest :
  head_ok s -> ss_outbound s = h :: rest ->
  ss_pending s = zdrop (ss_head_consumed s) h ++ concat rest.
Proof.
  intros [_ H] E. unfold ss_pending. rewrite E in *. cbn [concat]. apply zdrop_app_le. lia.
Qed.

(** Advancing within the head chunk drops that many pending bytes. *)
Lemma advance_head_spec n s h rest :
  head_ok s -> ss_outbound s = h :: rest -> zlen h <= U64_MAX ->
  0 <= n <= zlen h - ss_head_consumed s ->
  head_ok (advance_head n s) /\ ss_pending (advance_head n s) = zdrop n (ss_pending s).
Proof.
  intros Hh E HU Hn. pose proof Hh as [Hf Hc]. rewrite E in Hf, Hc.
  pose proof (Forall_inv_tail Hf) as Hf'.
  rewrite (pending_cons s h rest Hh E), zdrop_app_le by (rewrite zlen_zdrop; lia).
  unfold advance_head. cbn [set_ss_queue ss_outbound ss_head_consumed]. rewrite E.
  rewrite w64_small by (unfold is_u64; lia).
  assert (Hd : zdrop n (zdrop (ss_head_consumed s) h) = zdrop (ss_head_consumed s + n) h).
  { unfold zdrop. rewrite drop_drop. f_equal. lia. }
  rewrite Hd. destruct (_ =? _) eqn:Ee; bool_to_prop;
    unfold head_ok, ss_pending; cbn [set_ss_queue ss_outbound ss_head_consumed].
  - split; [split; [done|]|].
    + destruct rest; [done|]. apply Forall_inv in Hf'. lia.
    + rewrite Ee. unfold zdrop at 2. rewrite drop_ge by (unfold zlen in *; lia). done.
  - split; [split; [done|lia]|]. cbn [concat]. apply zdrop_app_le. lia.
Qed.

Lemma at_offset_app w x o d : at_offset w o d -> at_offset (w ++ x) o d.
Proof.
  intros (H1 & H2 & H3). pose proof (zlen_nonneg d). pose proof (zlen_nonneg x).
  split_and!; [done|rewrite zlen_app; lia|]. rewrite H3 at 1. symmetry. apply slice_app_l; lia.
Qed.

Lemma no_fin_frames w x fs :
  ~ fin_in fs -> Forall (frame_of w) fs -> Forall (frame_of (w ++ x)) fs.
Proof.
  intros Hn Hf. apply Forall_forall. intros [[o d] fin] Hin. rewrite Forall_forall in Hf.
  destruct (Hf _ Hin) as [H1 H2]. split; [by apply at_offset_app|].
  cbn. intros ->. destruct Hn. by exists o, d.
Qed.

Lemma write_inv w fs s d :
  SendInv w fs s -> SendInv (if ss_fin_sent s then w else w ++ d) fs (write_iobuf d s).
Proof.
  intros HI. pose proof HI as [[H1 H1'] H2 HC H3 H4 H5 H6 H7 H8 H9]. unfold write_iobuf.
  destruct (ss_fin_sent s) eqn:Ef; [done|]. cbn [orb].
  destruct (zlen d =? 0) eqn:Ed; bool_to_prop.
  { apply zlen_nil_inv in Ed as ->. by rewrite app_nil_r. }
  assert (Hd : 0 < zlen d) by (pose proof (zlen_nonneg d); lia).
  assert (Hp : ss_pending (set_ss_queue (ss_outbound s ++ [d]) (ss_head_consumed s) s) =
               ss_pending s ++ d).
  { unfold ss_pending. cbn [set_ss_queue ss_outbound ss_head_consumed].
    rewrite concat_app. cbn [concat]. rewrite app_nil_r.
    destruct (ss_outbound s) as [|h q]; [by rewrite H1'|]. apply zdrop_app_le.
    cbn [concat]. rewrite zlen_app. pose proof (zlen_nonneg (concat q)). lia. }
  split; cbn [set_ss_queue ss_outbound ss_head_consumed ss_send_offset ss_state].
  - split; cbn [set_ss_queue ss_outbound ss_head_consumed].
    + by apply Forall_app_2; [|apply Forall_singleton].
    + destruct (ss_outbound s) as [|h q]; cbn [app]; [lia|done].
  - done.
  - done.
  - rewrite Hp, app_assoc. f_equal. rewrite <- H3 at 2. f_equal.
    unfold ztake. rewrite take_app_le; [done|]. unfold zlen in *. lia.
  - rewrite Hp, !zlen_app. lia.
  - apply no_fin_frames; [|done]. intros [? _]%H8. done.
  - done.
  - done.
  - intros [? _]%H8. done.
  - done.
Qed.

Lemma send_close_inv w fs s : SendInv w fs s -> SendInv w fs (send_close s).
Proof.
  intros HI. unfold send_close. destruct (ss_state s) eqn:Es; try done.
  destruct HI as [H1 H2 HC H3 H4 H5 H6 H7 H8 H9]. split; try done.
  unfold ss_fin_sent in H8. rewrite Es in H8. by intros [? _]%H8.
Qed.

(** The final size an abort announces is the count of bytes emitted. *)
Lemma abort_inv w fs s :
  SendInv w fs s -> SendInv (ztake (ss_send_offset s) w) fs (abort s).2.
Proof.
  intros [H1 H2 HC H3 H4 H5 H6 H7 H8 H9]. pose proof (zlen_nonneg (ss_pending s)) as Hp.
  assert (Hw : zlen (ztake (ss_send_offset s) w) = ss_send_offset s) by (rewrite zlen_ztake; lia).
  split; try done.
  - cbn. unfold ss_pending. cbn. rewrite app_nil_r. apply ztake_ge. lia.
  - unfold ss_pending. cbn [abort snd set_ss_queue set_ss_state set_ss_rx_us ss_send_offset
      ss_head_consumed ss_outbound concat]. rewrite Hw. change (zlen (zdrop 0 (@nil Z))) with 0. lia.
  - apply Forall_forall. intros [[o d] fin] Hin. rewrite Forall_forall in H5, H6.
    destruct (H5 _ Hin) as [(A1 & A2 & A3) A4]. specialize (H6 _ Hin). cbn [fst snd] in *.
    pose proof (zlen_nonneg d). split; cbn [fst snd].
    + split_and!; [done|lia|]. rewrite A3 at 1. rewrite <- (ztake_zdrop (ss_send_offset s) w) at 1.
      apply slice_app_l; lia.
    + intros ->. rewrite Hw. assert (fin_in fs) as [_ E]%H8 by by exists o, d.
      rewrite E, zlen_nil in *. lia.
Qed.

(** Emitting the next [n] pending bytes, with the FIN when they are the last. *)
Lemma emit_inv w fs s s' n (fin : bool) :
  SendInv w fs s -> ss_fin_sent s = false ->
  0 <= n <= zlen (ss_pending s) ->
  head_ok s' -> ss_head_consumed s' <= ss_send_offset s' -> ss_pending s' = zdrop n (ss_pending s) ->
  ss_send_offset s' = ss_send_offset s + n ->
  (if fin then ss_state s' = FinSent /\ ss_pending s' = [] else ss_state s' = ss_state s) ->
  SendInv w ((ss_send_offset s, ztake n (ss_pending s), fin) :: fs) s'.
Proof.
  intros [H1 H2 HC H3 H4 H5 H6 H7 H8 H9] Hnf Hn Hh Hcs Hp Ho Hfin.
  assert (Hno : ~ fin_in fs) by (intros [? _]%H8; congruence).
  assert (Hz : zlen (ztake n (ss_pending s)) = n) by (rewrite zlen_ztake; lia).
  assert (Hpw : ss_pending s = zdrop (ss_send_offset s) w).
  { rewrite <- H3 at 1. pose proof (zlen_nonneg (ss_pending s)).
    rewrite zdrop_app_ge by (rewrite zlen_ztake; lia). rewrite zlen_ztake by lia.
    by replace (ss_send_offset s - Z.min (ss_send_offset s) (zlen w)) with 0 by lia. }
  assert (Hat : at_offset w (ss_send_offset s) (ztake n (ss_pending s))).
  { split_and!; [done|lia|]. rewrite Hz, Hpw. done. }
  assert (Hends : fin = true -> ss_send_offset s + n = zlen w).
  { intros ->. destruct Hfin as [_ E]. rewrite Hp in E.
    assert (E0 : zlen (zdrop n (ss_pending s)) = 0) by by rewrite E.
    rewrite zlen_zdrop in E0 by lia. lia. }
  split; rewrite ?Ho, ?Hp; try done.
  - lia.
  - lia.
  - rewrite <- (slice_snoc w (ss_send_offset s) n) by lia.
    unfold slice. rewrite <- Hpw, <- app_assoc, ztake_zdrop. done.
  - rewrite zlen_zdrop by lia. lia.
  - apply Forall_cons_2; [|done]. split; [done|]. cbn [fst snd]. rewrite Hz. auto.
  - apply Forall_cons_2; [cbn [fst snd]; lia|].
    eapply Forall_impl; [exact H6|]. cbn beta. intros; lia.
  - intros k Hk. apply frame_covers_cons. destruct (Z_lt_ge_dec k (ss_send_offset s)).
    + right. apply H7. lia.
    + left. unfold covers_at. lia.
  - rewrite fin_in_cons. intros [->|?]; [|done]. destruct Hfin as [E1 E2].
    rewrite <- Hp. unfold ss_fin_sent. by rewrite E1.
  - intros E. apply fin_in_cons. destruct fin; [by left|]. right. apply H9. congruence.
Qed.

Lemma enter_fin_sent_fields now s :
  ss_outbound (enter_fin_sent now s).2 = ss_outbound s /\
  ss_head_consumed (enter_fin_sent now s).2 = ss_head_consumed s /\
  ss_send_offset (enter_fin_sent now s).2 = ss_send_offset s /\
  ss_state (enter_fin_sent now s).2 = FinSent.
Proof. unfold enter_fin_sent. by case_match. Qed.

(** The chain and the offset after a cut of [n] bytes from the head chunk. *)
Definition cut (n : Z) (s : SendStream) : SendStream :=
  set_ss_send_offset (w64 (ss_send_offset (advance_head n s) + n)) (advance_head n s).

Lemma cut_spec w fs s h rest n :
  zlen w <= U64_MAX -> SendInv w fs s -> ss_outbound s = h :: rest ->
  0 <= n <= zlen h - ss_head_consumed s ->
  zlen h - ss_head_consumed s <= zlen (ss_pending s) /\
  slice (ss_head_consumed s) n h = ztake n (ss_pending s) /\
  head_ok (cut n s) /\ ss_pending (cut n s) = zdrop n (ss_pending s) /\
  ss_send_offset (cut n s) = ss_send_offset s + n /\ ss_state (cut n s) = ss_state s /\
  ss_head_consumed (cut n s) <= ss_send_offset (cut n s).
Proof.
  intros HL HI Eo Hn. pose proof (si_head _ _ _ HI) as Hh. pose proof (si_sent _ _ _ HI) as Hs.
  pose proof (si_offset _ _ _ HI) as Hof. pose proof (si_cursor _ _ _ HI) as Hcu.
  pose proof (pending_cons s h rest Hh Eo) as Hpc. pose proof Hh as [_ Hc]. rewrite Eo in Hc. pose proof (zlen_nonneg (concat rest)) as Hr.
  assert (Hpl : zlen (ss_pending s) = zlen h - ss_head_consumed s + zlen (concat rest))
    by (rewrite Hpc, zlen_app, zlen_zdrop; lia).
  destruct (advance_head_spec n s h rest Hh Eo) as [Ha1 Ha2]; [lia..|].
  assert (Ho : ss_send_offset (advance_head n s) = ss_send_offset s /\
               ss_state (advance_head n s) = ss_state s /\
               ss_head_consumed (advance_head n s) <= ss_head_consumed s + n)
    by (unfold advance_head; cbn [set_ss_queue ss_outbound ss_head_consumed];
        rewrite Eo, w64_small by (unfold is_u64; lia);
        case_match; cbn [set_ss_queue ss_head_consumed ss_send_offset ss_state];
        (split_and!; [done|done|lia])).
  destruct Ho as (Ho1 & Ho2 & Ho3). split_and!; try done; [lia| | |].
  - rewrite Hpc. unfold slice, ztake. rewrite take_app_le; [done|].
    pose proof (zlen_zdrop (ss_head_consumed s) h). unfold zlen in *. lia.
  - unfold cut. cbn [set_ss_send_offset ss_send_offset]. rewrite Ho1.
    apply w64_small. unfold is_u64. lia.
  - unfold cut. cbn [set_ss_send_offset ss_send_offset ss_head_consumed]. rewrite Ho1, w64_small; [lia|].
    unfold is_u64. lia.
Qed.

Lemma pop_inv w fs s now max_bytes :
  zlen w <= U64_MAX -> 0 <= max_bytes -> SendInv w fs s ->
  let '(fr, _, s') := pop_chunk now max_bytes s in
  SendInv w (match fr with Some f => f :: fs | None => fs end) s'.
Proof.
  intros HL Hm HI. unfold pop_chunk. destruct (ss_fin_sent s) eqn:Ef; cbn [orb]; [done|].
  pose proof (si_head _ _ _ HI) as Hh. pose proof (si_sent _ _ _ HI) as Hs.
  pose proof (si_offset _ _ _ HI) as Hof.
  destruct (match ss_state s with SendOpen => outbound_is_empty s | _ => false end); [done|].
  destruct (ss_outbound s) as [|h rest] eqn:Eo.
  - pose proof (enter_fin_sent_fields now s) as (E1 & E2 & E3 & E4).
    destruct (enter_fin_sent now s) as [lat s']. cbn [snd] in *.
    assert (Hp : ss_pending s = []) by (unfold ss_pending; rewrite Eo; unfold zdrop; apply drop_nil).
    assert (Hp' : ss_pending s' = []) by (unfold ss_pending in *; by rewrite E1, E2).
    pose proof (emit_inv w fs s s' 0 true HI Ef) as HE. rewrite Hp in HE. apply HE.
    + done.
    + unfold head_ok in *. by rewrite E1, E2.
    + rewrite E2, E3. apply (si_cursor _ _ _ HI).
    + by rewrite Hp'.
    + lia.
    + done.
  - pose proof Hh as [_ Hc]. rewrite Eo in Hc.
    destruct (cut_spec w fs s h rest 0) as (Hpl & _); [done..|lia|].
    unfold head_remaining_len. rewrite Eo, w64_small by (unfold is_u64; lia).
    set (n := Z.min (zlen h - ss_head_consumed s) max_bytes).
    destruct (cut_spec w fs s h rest n) as (_ & Hv & Ha1 & Ha2 & Hs1 & Hs1' & Hcu); [done..|lia|].
    rewrite iobuf_narrow_slice, Hv by lia. cbn zeta.
    change (set_ss_send_offset _ _) with (cut n s). set (s1 := cut n s) in *. clearbody s1.
    destruct (_ && outbound_is_empty s1) eqn:Efin.
    + pose proof (enter_fin_sent_fields now s1) as (E1 & E2 & E3 & E4).
      destruct (enter_fin_sent now s1) as [lat s']. cbn [snd] in *.
      assert (Hp' : ss_pending s' = ss_pending s1) by (unfold ss_pending; by rewrite E1, E2).
      apply (emit_inv w fs s s' n true); [done|done|lia| |lia|congruence|lia|split; [done|]].
      * unfold head_ok in *. by rewrite E1, E2.
      * rewrite Hp'. unfold outbound_is_empty in Efin. unfold ss_pending.
        destruct (ss_outbound s1); [|by rewrite andb_false_r in Efin]. apply drop_nil.
    + apply (emit_inv w fs s s1 n false); [done|done|lia|done..].
Qed.

(** A run of the send half: writes, cuts at the sizes the packet builder asks for,
    the close, an abort.  [w] gathers the bytes accepted and not dropped. *)
Inductive SendOp := OpWrite (d : list Z) | OpClose | OpPop (now max_bytes : Z) | OpAbort.

Fixpoint send_run (ops : list SendOp) (w : list Z) (fs : list StreamFrame) (s : SendStream)
    : list Z * list StreamFrame * SendStream :=
  match ops with
  | [] => (w, fs, s)
  | OpWrite d :: ops => send_run ops (if ss_fin_sent s then w else w ++ d) fs (write_iobuf d s)
  | OpClose :: ops => send_run ops w fs (send_close s)
  | OpPop now m :: ops =>
      let '(fr, _, s) := pop_chunk now m s in
      send_run ops w (match fr with Some f => f :: fs | None => fs end) s
  | OpAbort :: ops => send_run ops (ztake (ss_send_offset s) w) fs (abort s).2
  end.

Definition written (ops : list SendOp) : Z :=
  foldr (fun op n => match op with OpWrite d => zlen d + n | _ => n end) 0 ops.

Definition sop_ok (op : SendOp) : Prop :=
  match op with OpPop _ m => 0 <= m | _ => True end.

Lemma written_nonneg ops : 0 <= written ops.
Proof.
  induction ops as [|[d| | |] ops IH]; cbn [written foldr]; try done.
  pose proof (zlen_nonneg d). fold (written ops). lia.
Qed.

Lemma send_run_inv ops : forall w fs s,
  zlen w + written ops <= U64_MAX -> Forall sop_ok ops -> SendInv w fs s ->
  let '(w', fs', s') := send_run ops w fs s in SendInv w' fs' s' /\ zlen w' <= U64_MAX.
Proof.
  induction ops as [|op ops IH]; intros w fs s HW Hops HI; cbn [send_run].
  { split; [done|]. cbn [written foldr] in HW. lia. }
  pose proof (Forall_inv Hops) as Hop. apply Forall_inv_tail in Hops.
  pose proof (written_nonneg ops). pose proof (zlen_nonneg w).
  destruct op as [d| |now m|]; cbn [written foldr] in HW; fold (written ops) in HW.
  - apply IH; [|done|by apply write_inv].
    pose proof (zlen_nonneg d). destruct (ss_fin_sent s); rewrite ?zlen_app; lia.
  - apply IH; [lia|done|by apply send_close_inv].
  - pose proof (pop_inv w fs s now m ltac:(lia) Hop HI) as HP.
    destruct (pop_chunk now m s) as [[fr lat] s']. by apply IH.
  - apply IH; [|done|by apply abort_inv].
    rewrite zlen_ztake by apply (si_offset _ _ _ HI). lia.
Qed.

Lemma send_default_inv : SendInv [] [] send_default.
Proof.
  assert (Hn : forall f : StreamFrame, f ∉ []) by (intros f; apply not_elem_of_nil).
  split; try done.
  - intros k Hk. cbn [send_default ss_send_offset] in Hk. lia.
  - by intros (? & ? & []%Hn).
Qed.

(** Everything the sender emitted arrived: every byte up to its offset is covered. *)
Lemma delivered_all w fs s rcvd :
  SendInv w fs s -> fin_in fs -> (forall f, f ∈ fs -> f ∈ rcvd) ->
  fin_in rcvd /\ forall k, 0 <= k < zlen w -> frame_covers rcvd k.
Proof.
  intros HI Hf Hall. destruct (si_fin _ _ _ HI Hf) as [_ Hp].
  pose proof (si_sent _ _ _ HI) as Hs. rewrite Hp in Hs. change (zlen (@nil Z)) with 0 in Hs.
  split.
  - destruct Hf as (o & d & Hin). exists o, d. auto.
  - intros k Hk. destruct (si_covers _ _ _ HI k) as (o & d & fin & Hin & Hc); [lia|].
    exists o, d, fin. auto.
Qed.

(** The network delivers frames the sender emitted, in any order, any number of
    times, or not at all. *)
Definition delivers (fs : list StreamFrame) (op : RecvOp) : Prop :=
  match op with OpFrame f => f ∈ fs | OpDrain cap => 0 <= cap end.

Lemma delivers_ok w fs s rops :
  SendInv w fs s -> Forall (delivers fs) rops -> Forall (op_ok w) rops.
Proof.
  intros HI HD. eapply Forall_impl; [exact HD|]. intros [f|cap] H; [|done].
  pose proof (si_frames _ _ _ HI) as Hf. rewrite Forall_forall in Hf. by apply Hf.
Qed.

(** The pieces [strm[k..k+len]] for [k = 1..n]: no two start together, and each
    but the first repeats most of the one before it. *)
Definition overlapping (strm : list Z) (len : Z) (n : nat) : list StreamFrame :=
  map (fun k => (Z.of_nat k, slice (Z.of_nat k) len strm, false)) (seq 1 n).

Definition ingest_all (fs : list StreamFrame) (s : RecvStream) : RecvStream :=
  foldl (fun s f => (ingest f.1.1 f.1.2 f.2 s).2) s fs.

(** A piece that starts past the offset and after every waiting one is kept whole. *)
Lemma ingest_last s k d :
  rs_offset s = 0 -> rs_buffer s = [] -> rs_state s = RecvOpen ->
  Forall (fun e => e.1 < k) (rs_gap_buffer s) ->
  0 < k -> 0 < zlen d -> k + zlen d <= U64_MAX ->
  (ingest k d false s).2 = set_rs_data [] 0 (rs_gap_buffer s ++ [(k, d)]) s.
Proof.
  intros H1 H2 H3 H4 Hk Hd HU. unfold ingest. rewrite H1, H2. unfold sat_sub.
  rewrite (Z.max_l 0) by lia. change (zdrop 0 d) with d. rewrite Z.add_0_r.
  rewrite !w64_small by (unfold is_u64; lia).
  rewrite (proj2 (Z.leb_gt _ _)), (proj2 (Z.eqb_neq _ _)), (proj2 (Z.ltb_lt _ _)) by lia.
  unfold stash. rewrite btree_get_last, btree_insert_last by done.
  unfold maybe_close. cbn [snd set_rs_data rs_state]. by rewrite H3.
Qed.
