(* ===== verification/QuicStreamProps.v ===== *)
(** * What a QUIC stream delivers

    The receive half against the stream its frames were cut from, and the two
    halves joined by a network that reorders, repeats and loses frames. *)

From S2P Require Import Prelude.
From S2P Require Import NetTypes.
From S2P Require Import QuicParams.
From S2P Require Import QuicStreams.

(** Reassembly is exact.  Let frames of one stream arrive in any order, with
    any overlap, fragmentation and repetition, interleaved with reads of any size.
    The bytes read followed by the bytes readable are the stream's prefix up to
    the receive offset; that offset is exactly the first byte no received frame
    covers, so nothing received is lost and nothing is made up; a frame reports
    new bytes exactly when it moves the offset; and a read reports the end of the
    stream exactly when the FIN was received and the whole stream has been read. *)
Theorem recv_stream_exact (strm : list Z) (ops : list RecvOp) :
  zlen strm <= U64_MAX -> Forall (op_ok strm) ops ->
  let '(read, s) := recv_run ops [] recv_default in
  read ++ rs_buffer s = ztake (rs_offset s) strm /\
  (forall k, 0 <= k < rs_offset s -> frame_covers (frames_in ops) k) /\
  ~ frame_covers (frames_in ops) (rs_offset s) /\
  (forall o d fin, frame_of strm (o, d, fin) ->
     (ingest o d fin s).1 = (rs_offset s <? rs_offset (ingest o d fin s).2)) /\
  (forall cap, 0 <= cap ->
     let '((out, eof), _) := drain cap s in
     eof = true <-> fin_in (frames_in ops) /\ read ++ out = strm).
Proof.
  intros HL Hops. pose proof (recv_run_default strm ops HL Hops) as HI.
  destruct (recv_run ops [] recv_default) as [read s]. cbn [fst snd] in HI.
  pose proof (ri_offset _ _ _ _ HI) as Ho. split_and!.
  - apply (ri_prefix _ _ _ _ HI).
  - intros k Hk. apply (ri_covers _ _ _ _ HI); [lia|]. left. lia.
  - apply (uncovered_offset _ _ _ _ HI).
  - intros o d fin Hf. by apply (ingest_inv strm (frames_in ops) read).
  - intros cap Hc. pose proof (drain_inv strm _ read s cap Hc HI) as HD.
    destruct (drain cap s) as [[out eof] s']. apply HD.
Qed.

(** C8: A QUIC stream is a reliable byte stream.  The sender writes, closes and
    cuts its queue at whatever sizes the packet builder asks for, and may abort;
    the network delivers the frames it emitted in any order, repeated or not at
    all; the receiver reads at its own pace.  The bytes read are always a prefix
    of the bytes written (up to what had been emitted, if the sender aborts); the end of the stream is reported only when all of them
    were read; and once every emitted frame has arrived and the sender's FIN was
    among them, reading what is buffered completes the written bytes and reports
    the end. *)
Theorem quic_stream_transfer (sops : list SendOp) (rops : list RecvOp)
    (w : list Z) (fs : list StreamFrame) (s : SendStream) :
  send_run sops [] [] send_default = (w, fs, s) ->
  written sops <= U64_MAX -> Forall sop_ok sops -> Forall (delivers fs) rops ->
  let '(read, r) := recv_run rops [] recv_default in
  (exists rest, w = read ++ rest) /\
  (forall cap, 0 <= cap ->
     let '((out, eof), _) := drain cap r in eof = true -> read ++ out = w) /\
  (fin_in fs -> (forall f, f ∈ fs -> f ∈ frames_in rops) ->
   forall cap, zlen (rs_buffer r) <= cap ->
     let '((out, eof), _) := drain cap r in read ++ out = w /\ eof = true).
Proof.
  intros Es HW Hs Hd. pose proof (send_run_inv sops [] [] send_default) as HS.
  rewrite Es in HS. destruct HS as [HI HL]; [by rewrite zlen_nil|done|apply send_default_inv|].
  pose proof (recv_run_default w rops HL (delivers_ok _ _ _ _ HI Hd)) as HR.
  destruct (recv_run rops [] recv_default) as [read r]. cbn [fst snd] in HR.
  pose proof (ri_prefix _ _ _ _ HR) as Hp. split_and!.
  - exists (rs_buffer r ++ zdrop (rs_offset r) w).
    by rewrite app_assoc, Hp, ztake_zdrop.
  - intros cap Hc. pose proof (drain_inv w _ read r cap Hc HR) as HD.
    destruct (drain cap r) as [[out eof] r']. intros He. by apply HD.
  - intros Hf Hall cap Hcap. pose proof (zlen_nonneg (rs_buffer r)) as Hb.
    destruct (delivered_all _ _ _ (frames_in rops) HI Hf Hall) as [Hfin Hcov].
    pose proof (covered_offset _ _ _ _ HR Hcov) as Ho.
    pose proof (drain_inv w _ read r cap ltac:(lia) HR) as HD.
    assert (Hout : (drain cap r).1.1 = rs_buffer r)
      by (cbn; apply ztake_ge; lia).
    destruct (drain cap r) as [[out eof] r']. cbn [fst] in Hout. destruct HD as [_ HD].
    assert (Hw : read ++ out = w) by (rewrite Hout, Hp, Ho; by apply ztake_ge).
    split; [done|]. by apply HD.
Qed.

(* ------------------------------------------------------------------ *)
(** ** Examples *)

(** The tail with the FIN first, then the head, then an overlapping middle. *)
Definition example_strm : list Z := [1; 2; 3; 4; 5; 6].
Definition example_ops : list RecvOp :=
  [OpFrame (4, [5; 6], true); OpDrain 10; OpFrame (0, [1; 2; 3], false); OpDrain 2;
   OpFrame (2, [3; 4; 5], false); OpFrame (0, [1], false); OpDrain 10].

Lemma example_ops_ok : Forall (op_ok example_strm) example_ops.
Proof.
  repeat apply Forall_cons_2; try apply Forall_nil_2; try (by vm_compute);
    (split; [split_and!; [done|by vm_compute|reflexivity]|done]).
Qed.

Lemma recv_stream_exact_witness :
  (recv_run example_ops [] recv_default).1 = [1; 2; 3; 4; 5; 6] /\
  ~ frame_covers (frames_in example_ops) 6.
Proof.
  split; [reflexivity|].
  pose proof (recv_stream_exact example_strm example_ops ltac:(by vm_compute) example_ops_ok)
    as (_ & _ & H & _).
  exact H.
Defined.

(** Two writes, cut into three frames, delivered last to first with a repeat. *)
Definition example_sends : list SendOp :=
  [OpWrite [1; 2; 3]; OpPop 0 2; OpWrite [4; 5]; OpClose; OpPop 0 100; OpPop 0 100].
Definition example_delivery : list RecvOp :=
  [OpFrame (3, [4; 5], true); OpFrame (0, [1; 2], false); OpFrame (3, [4; 5], true); OpDrain 1;
   OpFrame (2, [3], false)].

Lemma quic_stream_transfer_witness :
  let '(read, r) := recv_run example_delivery [] recv_default in
  let '((out, eof), _) := drain 64 r in read ++ out = [1; 2; 3; 4; 5] /\ eof = true.
Proof.
  assert (Hin : forall f, f ∈ [(3, [4; 5], true); (2, [3], false); (0, [1; 2], false)] ->
                          f ∈ frames_in example_delivery) by (cbn [frames_in example_delivery]; set_solver).
  destruct (quic_stream_transfer example_sends example_delivery [1; 2; 3; 4; 5]
    [(3, [4; 5], true); (2, [3], false); (0, [1; 2], false)]
    (mkSendStream [] 0 5 FinSent 0 0) eq_refl ltac:(by vm_compute)
    ltac:(repeat (apply Forall_cons_2; [done|]); apply Forall_nil_2)
    ltac:(repeat (apply Forall_cons_2; [cbn; set_solver || done|]); apply Forall_nil_2))
    as (_ & _ & H).
  apply H; [exists 3, [4; 5]; set_solver|exact Hin|by vm_compute].
Defined.
