(* ===== verification/QuicCrypto.v ===== *)
(** * Reassembly of the CRYPTO stream (crates/proto/quic/src/tls.rs, [RxBuf])

    The handshake bytes of one encryption level, gathered from CRYPTO frames that
    may arrive in any order.  Unlike a data stream the level has no flow control:
    what waits for a gap is bounded in bytes and in entries. *)

From S2P Require Import Prelude.
From S2P Require Import NetTypes.
From S2P Require Import QuicParams.
From S2P Require Import QuicStreams.

Abbreviation PENDING_BYTE_CAP := (64 * 1024)%Z (only parsing).
Abbreviation PENDING_ENTRY_CAP := 256%Z (only parsing).

Record RxBuf := mkRxBuf {
  rb_contiguous : list Z;
  rb_consumed : Z;
  rb_pending : Gaps;
}.

Definition rx_new : RxBuf := mkRxBuf [] 0 [].

(** [drain(..n)]: a parsed handshake message leaves the buffer. *)
Definition rx_drain (n : Z) (b : RxBuf) : RxBuf :=
  mkRxBuf (zdrop n (rb_contiguous b)) (rb_consumed b) (rb_pending b).

(** A chunk ahead of order, within the byte and the entry budgets. *)
Definition rx_stash (offset : Z) (data : list Z) (pending : Gaps) : Gaps :=
  let fits_bytes := gap_bytes pending + zlen data <=? PENDING_BYTE_CAP in
  let fits_entries :=
    match btree_get offset pending with Some _ => true | None => zlen pending <? PENDING_ENTRY_CAP end in
  if fits_bytes && fits_entries then btree_insert offset data pending else pending.

Definition rx_ingest (offset : Z) (data : list Z) (b : RxBuf) : RxBuf :=
  if zlen data =? 0 then b
  else if sat_add64 offset (zlen data) <=? rb_consumed b then b
  else
    let '(offset, data) :=
      if offset <? rb_consumed b then (rb_consumed b, zdrop (rb_consumed b - offset) data)
      else (offset, data) in
    if offset =? rb_consumed b then
      let '(contiguous, consumed, pending, _) :=
        fold_gaps (rb_contiguous b ++ data) (w64 (rb_consumed b + zlen data)) true (rb_pending b) in
      mkRxBuf contiguous consumed pending
    else mkRxBuf (rb_contiguous b) (rb_consumed b) (rx_stash offset data (rb_pending b)).

(** [push_handshake]: the level's buffer takes the frame; 1-RTT frames are ignored. *)
Inductive CryptoLevel := LevelInitial | LevelHandshake | LevelOneRtt.

Definition push_handshake (level : CryptoLevel) (offset : Z) (bytes : list Z) (rx : RxBuf * RxBuf)
    : RxBuf * RxBuf :=
  match level with
  | LevelInitial => (rx_ingest offset bytes rx.1, rx.2)
  | LevelHandshake => (rx.1, rx_ingest offset bytes rx.2)
  | LevelOneRtt => rx
  end.

(* ------------------------------------------------------------------ *)
(** ** What the TLS parser sees

    [read]: the messages already taken out of the buffer. *)

Record CryptoInv (strm read : list Z) (b : RxBuf) : Prop := {
  ci_prefix : read ++ rb_contiguous b = ztake (rb_consumed b) strm;
  ci_consumed : 0 <= rb_consumed b <= zlen strm;
  ci_pending : gaps_ok strm (rb_consumed b) (rb_pending b);
}.

Lemma rx_stash_ok strm c o d g :
  gaps_ok strm c g -> c < o -> at_offset strm o d -> gaps_ok strm c (rx_stash o d g).
Proof.
  intros [H1 H2] Ho Hd. unfold rx_stash. case_match; [|done]. split.
  - by apply btree_insert_sorted.
  - by apply btree_insert_forall.
Qed.

(** Whatever the order of the frames, the parser sees a prefix of the peer's
    handshake bytes. *)
Lemma rx_ingest_prefix strm read b o d :
  zlen strm <= U64_MAX -> at_offset strm o d -> CryptoInv strm read b ->
  CryptoInv strm read (rx_ingest o d b).
Proof.
  intros HL Hd [H1 H2 [H3 H3']]. unfold rx_ingest. pose proof Hd as (A1 & A2 & A3).
  destruct (zlen d =? 0) eqn:E0; bool_to_prop; [done|].
  pose proof (zlen_nonneg d) as Hz. unfold sat_add64. rewrite Z.min_r by lia.
  destruct (o + zlen d <=? rb_consumed b) eqn:E1; bool_to_prop; [done|].
  set (od := if o <? rb_consumed b then _ else _).
  assert (Hod : rb_consumed b <= od.1 /\ at_offset strm od.1 od.2).
  { unfold od. destruct (o <? rb_consumed b) eqn:E2; bool_to_prop; cbn [fst snd]; [|by split].
    split; [lia|]. replace (rb_consumed b) with (o + (rb_consumed b - o)) at 1 by lia.
    apply at_offset_zdrop; [done|lia]. }
  destruct od as [o' d']. cbn [fst snd] in Hod. destruct Hod as [Ho Hd'].
  pose proof Hd' as (B1 & B2 & B3). pose proof (zlen_nonneg d') as Hz'.
  destruct (o' =? rb_consumed b) eqn:E3; bool_to_prop.
  - subst o'. rewrite w64_small by (unfold is_u64; lia).
    pose proof (fold_gaps_spec strm read (rb_pending b) (rb_contiguous b ++ d')
      (rb_consumed b + zlen d') true HL) as HS.
    destruct (fold_gaps _ _ _ _) as [[[c n] g] p].
    destruct HS as (S1 & S2 & S3 & _ & _); [|lia|done| |].
    + rewrite app_assoc, H1. by apply at_offset_snoc.
    + eapply Forall_impl; [exact H3'|]. by intros ? [_ ?].
    + split; [done|cbn [rb_consumed]; lia|done].
  - split; [done|done|]. apply (rx_stash_ok strm (rb_consumed b)); [done|lia|done].
Qed.

(** The bytes and the entries waiting are bounded. *)
Definition pending_bounded (b : RxBuf) : Prop :=
  keys_sorted (rb_pending b) /\ gap_bytes (rb_pending b) <= PENDING_BYTE_CAP /\
  zlen (rb_pending b) <= PENDING_ENTRY_CAP.

Lemma zlen_btree_insert {V} k (v : V) m :
  keys_sorted m ->
  zlen (btree_insert k v m) = zlen m + match btree_get k m with Some _ => 0 | None => 1 end.
Proof.
  induction m as [|[k' v'] m IH]; intros Hs; cbn [btree_insert btree_get]; [done|].
  apply keys_sorted_cons in Hs as [Hs1 Hs2].
  destruct (k <? k') eqn:E1; [|destruct (k =? k') eqn:E2]; bool_to_prop; rewrite !zlen_cons.
  - rewrite (proj2 (Z.eqb_neq _ _)) by lia. rewrite btree_get_below; [lia|].
    eapply Forall_impl; [exact Hs2|]. cbn beta. lia.
  - lia.
  - rewrite IH by done. lia.
Qed.

Lemma gap_bytes_nonneg g : 0 <= gap_bytes g.
Proof.
  unfold gap_bytes, sum_by. induction g as [|[o d] g IH]; cbn [foldr snd]; [done|].
  pose proof (zlen_nonneg d). lia.
Qed.

Lemma fold_gaps_suffix g : forall buf off p,
  let '(_, _, g', _) := fold_gaps buf off p g in
  (keys_sorted g -> keys_sorted g') /\ gap_bytes g' <= gap_bytes g /\ zlen g' <= zlen g.
Proof.
  induction g as [|[o d] g IH]; intros buf off p; cbn [fold_gaps]; [done|].
  assert (Hb : gap_bytes ((o, d) :: g) = zlen d + gap_bytes g) by done.
  pose proof (zlen_nonneg d). rewrite zlen_cons, Hb.
  destruct (off <? o); [rewrite Hb, zlen_cons; split_and!; [done|lia|lia]|].
  destruct (_ <? zlen d);
    [specialize (IH (buf ++ zdrop (sat_sub off o) d)
       (w64 (off + zlen (zdrop (sat_sub off o) d))) true)|specialize (IH buf off p)];
    destruct (fold_gaps _ _ _ g) as [[[b' o'] g'] p']; destruct IH as (I1 & I2 & I3);
    (split_and!; [intros [Hs _]%keys_sorted_cons; auto|lia|lia]).
Qed.

Lemma rx_ingest_bounded o d b : pending_bounded b -> pending_bounded (rx_ingest o d b).
Proof.
  intros (H1 & H2 & H3). unfold rx_ingest.
  destruct (zlen d =? 0); [done|]. destruct (_ <=? _); [done|].
  destruct (if o <? rb_consumed b then _ else _) as [o' d'].
  destruct (o' =? rb_consumed b).
  - pose proof (fold_gaps_suffix (rb_pending b) (rb_contiguous b ++ d')
      (w64 (rb_consumed b + zlen d')) true) as HS.
    destruct (fold_gaps _ _ _ _) as [[[c n] g] p]. destruct HS as (S1 & S2 & S3).
    split_and!; cbn [rb_pending]; [auto|lia|lia].
  - unfold pending_bounded, rx_stash. cbn [rb_pending].
    destruct (_ && _) eqn:E; [|done]. apply andb_true_iff in E as [E1 E2]. bool_to_prop.
    split_and!; [by apply btree_insert_sorted| |].
    + unfold gap_bytes in *. rewrite sum_by_insert by done.
      destruct (btree_get o' (rb_pending b)) as [w|]; [pose proof (zlen_nonneg w)|]; lia.
    + rewrite zlen_btree_insert by done.
      destruct (btree_get o' (rb_pending b)); bool_to_prop; lia.
Qed.

(* ------------------------------------------------------------------ *)
(** ** A shorter copy of a waiting chunk *)

(** The chunk [strm[o..o+n]], a shorter copy [strm[o..o+m]] of it, and the bytes
    before them. *)
Definition refragmented (strm : list Z) (o n m : Z) : list StreamFrame :=
  [(o, slice o n strm, false); (o, slice o m strm, false); (0, slice 0 o strm, false)].

Definition rx_ingest_all (fs : list StreamFrame) (b : RxBuf) : RxBuf :=
  foldl (fun b f => rx_ingest f.1.1 f.1.2 b) b fs.

Lemma rx_ingest_ahead o d b :
  rb_consumed b < o -> 0 < zlen d -> o + zlen d <= U64_MAX ->
  rx_ingest o d b = mkRxBuf (rb_contiguous b) (rb_consumed b) (rx_stash o d (rb_pending b)).
Proof.
  intros Ho Hd HL. unfold rx_ingest, sat_add64. rewrite Z.min_r by lia.
  rewrite (proj2 (Z.eqb_neq _ _)), (proj2 (Z.leb_gt _ _)), (proj2 (Z.ltb_ge o _)) by lia.
  by rewrite (proj2 (Z.eqb_neq _ _)) by lia.
Qed.

(** The stream reassembly keeps the longer chunk. *)
Lemma refragmented_stream strm o n m :
  zlen strm <= U64_MAX -> 0 < o -> 0 < m < n -> o + n = zlen strm ->
  rs_offset (ingest_all (refragmented strm o n m) recv_default) = zlen strm.
Proof.
  intros HL Ho Hm Hn.
  assert (Hpiece : forall a k, 0 <= a -> 0 <= k -> a + k <= zlen strm ->
    op_ok strm (OpFrame (a, slice a k strm, false))).
  { intros a k Ha Hk Hak. split; [|done]. cbn [fst snd].
    split_and!; [done| |]; rewrite zlen_piece by lia; [lia|done]. }
  set (ops := map OpFrame (refragmented strm o n m)).
  assert (HI : RecvInv strm (frames_in ops) (recv_run ops [] recv_default).1
                 (recv_run ops [] recv_default).2).
  { apply recv_run_default; [done|].
    repeat (apply Forall_cons_2; [apply Hpiece; lia|]). apply Forall_nil_2. }
  assert (E : (recv_run ops [] recv_default).2 = ingest_all (refragmented strm o n m) recv_default)
    by reflexivity.
  rewrite E in HI. eapply covered_offset; [exact HI|]. intros k Hk.
  change (frame_covers (refragmented strm o n m) k). unfold refragmented.
  rewrite !frame_covers_cons. unfold covers_at. rewrite !zlen_piece by lia. lia.
Qed.

(** The CRYPTO reassembly loses bytes it has received.  When a chunk waiting
    for a gap is followed by a shorter copy of its beginning (a probe cut to a
    different size), the copy replaces it; once the gap fills, the parser sees the
    stream only up to the end of the copy and nothing is left waiting, although
    every byte up to the end of the chunk has arrived, in packets that are
    acknowledged whatever became of their CRYPTO frames.  Given the same frames, a
    data stream's reassembly delivers them all. *)
Theorem crypto_shorter_copy_loses_tail (strm : list Z) (o n m : Z) :
  zlen strm <= U64_MAX -> 0 < o -> 0 < m < n -> o + n = zlen strm ->
  n + m <= PENDING_BYTE_CAP ->
  rx_ingest_all (refragmented strm o n m) rx_new = mkRxBuf (ztake (o + m) strm) (o + m) [] /\
  rs_offset (ingest_all (refragmented strm o n m) recv_default) = o + n.
Proof.
  intros HL Ho Hm Hn Hcap. split; [|rewrite Hn; by apply refragmented_stream].
  assert (Hzn : zlen (slice o n strm) = n) by (apply zlen_piece; lia).
  assert (Hzm : zlen (slice o m strm) = m) by (apply zlen_piece; lia).
  assert (Hzo : zlen (slice 0 o strm) = o) by (apply zlen_piece; lia).
  unfold rx_ingest_all, refragmented. cbn [foldl fst snd].
  rewrite (rx_ingest_ahead o (slice o n strm) rx_new) by (cbn [rx_new rb_consumed]; lia).
  rewrite (rx_ingest_ahead o (slice o m strm)) by (cbn [rx_new rb_consumed]; lia).
  cbn [rb_pending rb_contiguous rb_consumed rx_new].
  assert (E1 : rx_stash o (slice o n strm) [] = [(o, slice o n strm)]).
  { unfold rx_stash. cbn [gap_bytes sum_by foldr btree_get btree_insert].
    rewrite Hzn. unfold gap_bytes, sum_by. cbn [foldr].
    by rewrite (proj2 (Z.leb_le _ _)) by lia. }
  assert (E2 : rx_stash o (slice o m strm) [(o, slice o n strm)] = [(o, slice o m strm)]).
  { unfold rx_stash, gap_bytes, sum_by. cbn [foldr btree_get btree_insert snd].
    rewrite Hzn, Hzm, Z.eqb_refl, Z.ltb_irrefl.
    by rewrite (proj2 (Z.leb_le _ _)) by lia. }
  rewrite E1, E2. unfold rx_ingest. cbn [rb_pending rb_contiguous rb_consumed].
  rewrite Hzo. unfold sat_add64. rewrite Z.min_r by lia.
  rewrite (proj2 (Z.eqb_neq o 0)), (proj2 (Z.leb_gt (0 + o) 0)) by lia.
  change (0 <? 0) with false. change (0 =? 0) with true. cbn match. rewrite Hzo.
  rewrite w64_small by (unfold is_u64; lia). cbn [fold_gaps app].
  rewrite (proj2 (Z.ltb_ge (0 + o) o)) by lia. unfold sat_sub.
  replace (Z.max 0 (0 + o - o)) with 0 by lia. rewrite Hzm, (proj2 (Z.ltb_lt 0 m)) by lia.
  change (zdrop 0 (slice o m strm)) with (slice o m strm).
  rewrite Hzm, w64_small by (unfold is_u64; lia).
  unfold slice at 1. change (zdrop 0 strm) with strm. rewrite slice_snoc by lia.
  done.
Qed.

(** A six-byte handshake stream whose last four bytes come first, then two of them
    again, then the head. *)
Lemma crypto_shorter_copy_loses_tail_witness :
  rx_ingest_all (refragmented [1; 2; 3; 4; 5; 6] 2 4 2) rx_new = mkRxBuf [1; 2; 3; 4] 4 [].
Proof.
  destruct (crypto_shorter_copy_loses_tail [1; 2; 3; 4; 5; 6] 2 4 2) as [H _];
    try lia; [by vm_compute|done|]. exact H.
Defined.
