(* ===== verification/QuicSpace.v ===== *)
(** * Packet-number spaces of a QUIC connection

    One packet-number space (crates/proto/quic/src/conn/mod.rs): the ranges of
    packet numbers received, which the ACK frame is built from ([tx.rs]), and the
    ring of packets sent and not yet acknowledged or lost, which the peer's ACK
    frames empty. *)

From S2P Require Import Prelude.
From S2P Require Import NetTypes.
From S2P Require Import QuicWire.
From S2P Require Import QuicFrame.
From S2P Require Import QuicStreams.
From S2P Require Import QuicCrypto.

Abbreviation MAX_RECV_RANGES := 32%Z (only parsing).
Abbreviation MAX_ACK_ADDITIONAL := 8%nat (only parsing).

(* ------------------------------------------------------------------ *)
(** ** Sent packets *)

Record StreamRetx := mkStreamRetx {
  sr_sid : Z;
  sr_offset : Z;
  sr_fin : bool;
  sr_data : list Z
}.

Record CryptoRetx := mkCryptoRetx {
  cr_level : CryptoLevel;
  cr_offset : Z;
  cr_data : list Z
}.

Inductive CtrlRetx :=
  | CtrlReset (sid app_error_code final_size : Z)
  | CtrlStop (sid app_error_code : Z).

Record SentPacket := mkSentPacket {
  time_sent_us : Z;
  ack_eliciting : bool;
  in_flight : bool;
  byte_count : Z;
  stream_frames : list StreamRetx;
  crypto_frames : list CryptoRetx;
  ctrl_frames : list CtrlRetx
}.

Record SentPackets := mkSentPackets {
  base_pn : Z;
  slots : list (option SentPacket);
  live : Z
}.

Definition sent_default : SentPackets := mkSentPackets 0 [] 0.

Definition sent_insert (pn : Z) (pkt : SentPacket) (s : SentPackets) : SentPackets :=
  let base := match slots s with [] => pn | _ => base_pn s end in
  if pn <? base then mkSentPackets base (slots s) (live s)
  else
    let idx := Z.to_nat (pn - base) in
    let slots := slots s ++ repeat None (S idx - length (slots s)) in
    let live := match slots !! idx with Some (Some _) => live s | _ => live s + 1 end in
    mkSentPackets base (<[idx := Some pkt]> slots) live.

(** [while matches!(slots.front(), Some(None)) { pop_front; base_pn += 1 }]. *)
Fixpoint reclaim (base : Z) (slots : list (option SentPacket)) : Z * list (option SentPacket) :=
  match slots with
  | None :: slots => reclaim (base + 1) slots
  | _ => (base, slots)
  end.

Definition sent_remove (pn : Z) (s : SentPackets) : option SentPacket * SentPackets :=
  if pn <? base_pn s then (None, s)
  else
    let idx := Z.to_nat (pn - base_pn s) in
    let taken := mjoin (slots s !! idx) in
    let slots := <[idx := None]> (slots s) in
    let live := match taken with Some _ => live s - 1 | None => live s end in
    let (base, slots) := reclaim (base_pn s) slots in
    (taken, mkSentPackets base slots live).

Fixpoint iter_from (base : Z) (slots : list (option SentPacket)) : list (Z * SentPacket) :=
  match slots with
  | [] => []
  | Some p :: slots => (base, p) :: iter_from (base + 1) slots
  | None :: slots => iter_from (base + 1) slots
  end.
Definition sent_iter (s : SentPackets) : list (Z * SentPacket) := iter_from (base_pn s) (slots s).

Definition sent_values (s : SentPackets) : list SentPacket := omap id (slots s).

Definition sent_is_empty (s : SentPackets) : bool := live s =? 0.

Definition sent_clear (s : SentPackets) : SentPackets := mkSentPackets 0 [] 0.

(* ------------------------------------------------------------------ *)
(** ** The space *)

Record SpaceState := mkSpace {
  next_send_pn : Z;
  largest_recv_pn : option Z;
  ack_pending : bool;
  largest_acked : option Z;
  sent_packets : SentPackets;
  recv_ranges : list (Z * Z)
}.

Definition space_default : SpaceState := mkSpace 0 None false None sent_default [].

Definition set_sent_packets (v : SentPackets) (s : SpaceState) : SpaceState :=
  mkSpace (next_send_pn s) (largest_recv_pn s) (ack_pending s) (largest_acked s) v (recv_ranges s).
Definition set_largest_acked (v : option Z) (s : SpaceState) : SpaceState :=
  mkSpace (next_send_pn s) (largest_recv_pn s) (ack_pending s) v (sent_packets s) (recv_ranges s).

(** The search of [record_recv_pn]: [None] when a range covers [pn], otherwise the
    first index whose range lies below it. *)
Fixpoint recv_position (pn : Z) (i : nat) (ranges : list (Z * Z)) : option nat :=
  match ranges with
  | [] => Some i
  | (lo, hi) :: ranges =>
      if hi <? pn then Some i
      else if lo <=? pn then None
      else recv_position pn (S i) ranges
  end.

(** [ranges.insert(i, x)]. *)
Definition list_insert_at {A} (i : nat) (x : A) (l : list A) : list A := take i l ++ x :: drop i l.

Definition merge_pn (pn : Z) (i : nat) (ranges : list (Z * Z)) : list (Z * Z) :=
  let above := match i with O => None | S j => ranges !! j end in
  let below := ranges !! i in
  let touch_above := match above with Some (lo, _) => lo =? pn + 1 | None => false end in
  let touch_below := match below with Some (_, hi) => hi + 1 =? pn | None => false end in
  match touch_above, touch_below, above, below with
  | true, true, Some (_, hi), Some (lo, _) => delete i (<[(i - 1)%nat := (lo, hi)]> ranges)
  | true, false, Some (_, hi), _ => <[(i - 1)%nat := (pn, hi)]> ranges
  | false, true, _, Some (lo, _) => <[i := (lo, pn)]> ranges
  | _, _, _, _ =>
      if zlen ranges <? MAX_RECV_RANGES then list_insert_at i (pn, pn) ranges
      else if (i <? length ranges)%nat then
        let popped := take (length ranges - 1) ranges in
        list_insert_at (Nat.min i (length popped)) (pn, pn) popped
      else ranges
  end.

Definition record_recv_pn (pn : Z) (s : SpaceState) : SpaceState :=
  let largest := Some (match largest_recv_pn s with Some x => Z.max x pn | None => pn end) in
  let ranges :=
    match recv_position pn 0 (recv_ranges s) with
    | None => recv_ranges s
    | Some i => merge_pn pn i (recv_ranges s)
    end in
  mkSpace (next_send_pn s) largest (ack_pending s) (largest_acked s) (sent_packets s) ranges.

(** The pairs of the lower ranges, each against the one above it. *)
Fixpoint ack_additional (n : nat) (prev_lo : Z) (rest : list (Z * Z)) : list (Z * Z) :=
  match n, rest with
  | S n, (lo, hi) :: rest => (prev_lo - hi - 2, hi - lo) :: ack_additional n lo rest
  | _, _ => []
  end.

Definition ack_ranges_from (recv_ranges : list (Z * Z)) : option (Z * Z * list (Z * Z)) :=
  match recv_ranges with
  | [] => None
  | (top_lo, top_hi) :: rest =>
      Some (top_hi, top_hi - top_lo, ack_additional MAX_ACK_ADDITIONAL top_lo rest)
  end.

(** [append_ack_frame]: into a buffer of 192 bytes, delay zero; a frame that did
    not fit would be left out. *)
Definition append_ack_frame (frames : list Z) (s : SpaceState) : list Z :=
  match ack_ranges_from (recv_ranges s) with
  | None => frames
  | Some (largest, first_range, additional) =>
      match write_ack largest 0 first_range additional 192 with
      | inl _ => frames
      | inr w => frames ++ w
      end
  end.

(** The walk of an ACK over the ring [R] of the space, by calls of [remove]: the
    state is the ring, the packet of [target_pn] and the in-flight bytes
    released. *)
Section AckWalk.
Context {R : Type} (remove : Z -> R -> option SentPacket * R).

(** The loop of [ack_remove_range] from [pn] down, [n] times. *)
Fixpoint ack_remove_loop (n : nat) (pn target_pn : Z)
    (st : R * option SentPacket * Z) : R * option SentPacket * Z :=
  match n with
  | O => st
  | S n =>
      let '(sp, largest_out, acked) := st in
      let (taken, sp) := remove pn sp in
      let st :=
        match taken with
        | None => (sp, largest_out, acked)
        | Some pkt =>
            (sp, if pn =? target_pn then Some pkt else largest_out,
             if in_flight pkt then sat_add32 acked (byte_count pkt) else acked)
        end in
      ack_remove_loop n (pn - 1) target_pn st
  end.

Definition ack_remove_range (low high target_pn : Z) (st : R * option SentPacket * Z)
    : R * option SentPacket * Z :=
  if high <? low then st
  else ack_remove_loop (Z.to_nat (high - low + 1)) high target_pn st.

(** The walk of [process_ack] over the lower ranges. *)
Fixpoint ack_walk (target_pn largest_smallest : Z) (items : list (Z * Z))
    (st : R * option SentPacket * Z) : R * option SentPacket * Z :=
  match items with
  | [] => st
  | (gap, length) :: items =>
      if largest_smallest <? gap + 2 then st
      else
        let high := largest_smallest - (gap + 2) in
        let low := sat_sub high length in
        ack_walk target_pn low items (ack_remove_range low high target_pn st)
  end.

(** All the ranges of an ACK frame, the first one first. *)
Definition ack_remove_with (largest first_ack_range : Z) (ranges : AckRanges) (sp : R)
    : R * option SentPacket * Z :=
  let first_smallest := sat_sub largest first_ack_range in
  ack_walk largest first_smallest (ack_items ranges)
    (ack_remove_range first_smallest largest largest (sp, None, 0)).

End AckWalk.

Definition ack_remove_all : Z -> Z -> AckRanges -> SentPackets -> SentPackets * option SentPacket * Z :=
  ack_remove_with sent_remove.

(* ------------------------------------------------------------------ *)
(** ** The ring is an ordered map

    [sent_iter] is the abstraction: the entries of the [BTreeMap] the ring replaced,
    in ascending order. *)

(** The entries with a packet number for which [P] holds. *)
Definition pn_filter (P : Z -> bool) (m : list (Z * SentPacket)) : list (Z * SentPacket) :=
  List.filter (fun e => P e.1) m.

Record ring_ok (s : SentPackets) : Prop := {
  ro_base : 0 <= base_pn s;
  ro_live : live s = zlen (sent_iter s);
  ro_front : forall l, slots s <> None :: l
}.

Section PnFilter.
Implicit Types (m : list (Z * SentPacket)).

Lemma pn_filter_cons P e m :
  pn_filter P (e :: m) = if P e.1 then e :: pn_filter P m else pn_filter P m.
Proof. done. Qed.

Lemma pn_filter_id P m : Forall (fun e => P e.1 = true) m -> pn_filter P m = m.
Proof. induction 1 as [|e m He Hm IH]; [done|]. by rewrite pn_filter_cons, He, IH. Qed.

Lemma pn_filter_ext P Q m : (forall pn, P pn = Q pn) -> pn_filter P m = pn_filter Q m.
Proof. intros H. unfold pn_filter. apply List.filter_ext. intros e. apply H. Qed.

Lemma pn_filter_twice P Q m : pn_filter P (pn_filter Q m) = pn_filter (fun pn => P pn && Q pn) m.
Proof.
  induction m as [|e m IH]; [done|]. rewrite !pn_filter_cons.
  destruct (Q e.1); [rewrite andb_true_r, pn_filter_cons|rewrite andb_false_r]; by rewrite IH.
Qed.

Lemma pn_filter_app P m1 m2 : pn_filter P (m1 ++ m2) = pn_filter P m1 ++ pn_filter P m2.
Proof. apply List.filter_app. Qed.

Lemma pn_filter_forall P (Q : Z * SentPacket -> Prop) m : Forall Q m -> Forall Q (pn_filter P m).
Proof. induction 1 as [|e m He Hm IH]; [done|]. rewrite pn_filter_cons. case_match; auto. Qed.

Lemma pn_filter_sorted P m : keys_sorted m -> keys_sorted (pn_filter P m).
Proof.
  induction m as [|[k v] m IH]; [done|]. rewrite keys_sorted_cons, pn_filter_cons. intros [H1 H2].
  cbn [fst]. destruct (P k); [|auto]. apply keys_sorted_cons. split; [auto|by apply pn_filter_forall].
Qed.

Lemma btree_get_filter P k m : btree_get k (pn_filter P m) = if P k then btree_get k m else None.
Proof.
  induction m as [|[k' v] m IH]; [by destruct (P k)|]. rewrite pn_filter_cons. cbn [fst btree_get].
  destruct (P k') eqn:E; cbn [btree_get]; destruct (k =? k') eqn:E2; bool_to_prop; subst; rewrite ?E; try done.
  by rewrite IH, E.
Qed.

End PnFilter.

Lemma iter_from_app b l1 l2 : iter_from b (l1 ++ l2) = iter_from b l1 ++ iter_from (b + zlen l1) l2.
Proof.
  revert b. induction l1 as [|[p|] l1 IH]; intros b; cbn [app iter_from].
  - by rewrite zlen_nil, Z.add_0_r.
  - rewrite IH, zlen_cons. do 3 f_equal. lia.
  - rewrite IH, zlen_cons. do 2 f_equal. lia.
Qed.

Lemma iter_from_range b l : Forall (fun e => b <= e.1 < b + zlen l) (iter_from b l).
Proof.
  revert b. induction l as [|[p|] l IH]; intros b; cbn [iter_from]; [done| |];
    rewrite zlen_cons; pose proof (zlen_nonneg l).
  - apply Forall_cons_2; [cbn; lia|]. eapply Forall_impl; [apply IH|]. cbn. lia.
  - eapply Forall_impl; [apply IH|]. cbn. lia.
Qed.

Lemma iter_from_sorted b l : keys_sorted (iter_from b l).
Proof.
  revert b. induction l as [|[p|] l IH]; intros b; cbn [iter_from]; [constructor| |apply IH].
  apply keys_sorted_cons. split; [apply IH|]. eapply Forall_impl; [apply iter_from_range|]. cbn. lia.
Qed.

Lemma reclaim_iter b l : iter_from (reclaim b l).1 (reclaim b l).2 = iter_from b l.
Proof. revert b. induction l as [|[p|] l IH]; intros b; cbn [reclaim iter_from]; auto. Qed.

Lemma reclaim_ok b l : b <= (reclaim b l).1 /\ forall l', (reclaim b l).2 <> None :: l'.
Proof.
  revert b. induction l as [|[p|] l IH]; intros b; cbn [reclaim fst snd]; [split; [lia|done]..|].
  destruct (IH (b + 1)). split; [lia|done].
Qed.

Lemma iter_from_get b l i : 0 <= i -> btree_get (b + i) (iter_from b l) = mjoin (l !! Z.to_nat i).
Proof.
  revert b i. induction l as [|x l IH]; intros b i Hi; cbn [iter_from]; [by rewrite lookup_nil|].
  destruct (Z.eq_dec i 0) as [->|].
  - rewrite Z.add_0_r. cbn [Z.to_nat lookup list_lookup mjoin option_join].
    assert (btree_get b (iter_from (b + 1) l) = None) as Hn.
    { apply btree_get_below. eapply Forall_impl; [apply iter_from_range|]. cbn. lia. }
    destruct x; cbn [btree_get]; [by rewrite Z.eqb_refl|done].
  - replace (Z.to_nat i) with (S (Z.to_nat (i - 1))) by lia. cbn [lookup list_lookup].
    rewrite <-(IH (b + 1)) by lia. replace (b + 1 + (i - 1)) with (b + i) by lia.
    destruct x; cbn [btree_get]; [|done]. destruct (_ =? _) eqn:E; bool_to_prop; [lia|done].
Qed.

(** Emptying a slot removes its packet number. *)
Lemma iter_from_clear b l i :
  0 <= i -> iter_from b (<[Z.to_nat i := None]> l) = pn_filter (fun pn => negb (pn =? b + i)) (iter_from b l).
Proof.
  intros Hi. destruct (Z.lt_ge_cases i (zlen l)) as [Hlt|Hge].
  - destruct (lookup_lt_is_Some_2 l (Z.to_nat i)) as [x Hx]; [unfold zlen in Hlt; lia|].
    rewrite <-(take_drop_middle l _ _ Hx). set (l1 := take _ l). set (l2 := drop _ l).
    assert (length l1 = Z.to_nat i) as Hl by (apply length_take_le; unfold zlen in Hlt; lia).
    rewrite insert_app_r_alt by lia. rewrite Hl, Nat.sub_diag. cbn [insert list_insert].
    rewrite !iter_from_app, pn_filter_app. unfold zlen. rewrite Hl, Z2Nat.id by lia.
    rewrite pn_filter_id.
    2:{ eapply Forall_impl; [apply iter_from_range|]. unfold zlen. rewrite Hl. intros e He.
        cbn in He. apply negb_true_iff, Z.eqb_neq. lia. }
    f_equal. destruct x as [p|]; cbn [iter_from].
    + rewrite pn_filter_cons. cbn [fst]. rewrite Z.eqb_refl. cbn [negb]. symmetry. apply pn_filter_id.
      eapply Forall_impl; [apply iter_from_range|]. intros e He. cbn in He. apply negb_true_iff, Z.eqb_neq. lia.
    + symmetry. apply pn_filter_id.
      eapply Forall_impl; [apply iter_from_range|]. intros e He. cbn in He. apply negb_true_iff, Z.eqb_neq. lia.
  - rewrite list_insert_ge by (unfold zlen in Hge; lia). symmetry. apply pn_filter_id.
    eapply Forall_impl; [apply iter_from_range|]. intros e He. cbn in He. apply negb_true_iff, Z.eqb_neq. lia.
Qed.

Lemma sum_by_filter_one (f : SentPacket -> Z) k m :
  keys_sorted m ->
  sum_by f (pn_filter (fun pn => negb (pn =? k)) m) =
  sum_by f m - match btree_get k m with Some v => f v | None => 0 end.
Proof.
  induction m as [|[k' v] m IH]; [done|]. rewrite keys_sorted_cons, pn_filter_cons. intros [H1 H2].
  cbn [fst btree_get sum_by foldr snd]. rewrite Z.eqb_sym. destruct (k =? k') eqn:E; bool_to_prop; subst; cbn [negb].
  - rewrite pn_filter_id.
    + unfold sum_by. cbn. lia.
    + eapply Forall_impl; [exact H2|]. intros e He. cbn in He. apply negb_true_iff, Z.eqb_neq. lia.
  - unfold sum_by in *. cbn [foldr snd]. rewrite IH by done. lia.
Qed.

Lemma sum_by_one (m : list (Z * SentPacket)) : sum_by (fun _ => 1) m = zlen m.
Proof. induction m as [|e m IH]; [done|]. rewrite zlen_cons, <-IH. unfold sum_by. cbn. lia. Qed.

Lemma sent_iter_sorted s : keys_sorted (sent_iter s).
Proof. apply iter_from_sorted. Qed.

Lemma sent_remove_spec pn s :
  ring_ok s ->
  (sent_remove pn s).1 = btree_get pn (sent_iter s) /\
  sent_iter (sent_remove pn s).2 = pn_filter (fun k => negb (k =? pn)) (sent_iter s) /\
  ring_ok (sent_remove pn s).2.
Proof.
  intros [H1 H2 H3]. unfold sent_remove. destruct (pn <? base_pn s) eqn:E; bool_to_prop.
  - assert (Forall (fun e : Z * SentPacket => pn < e.1) (sent_iter s)) as Hf.
    { eapply Forall_impl; [apply iter_from_range|]. cbn. lia. }
    rewrite btree_get_below by done. split; [done|]. split; [|done]. symmetry. apply pn_filter_id.
    eapply Forall_impl; [exact Hf|]. intros e He. cbn in He. apply negb_true_iff, Z.eqb_neq. lia.
  - pose proof (iter_from_get (base_pn s) (slots s) (pn - base_pn s) ltac:(lia)) as Hg.
    pose proof (iter_from_clear (base_pn s) (slots s) (pn - base_pn s) ltac:(lia)) as Hc.
    replace (base_pn s + (pn - base_pn s)) with pn in * by lia. fold (sent_iter s) in Hg, Hc.
    set (l := <[_ := None]> _) in *.
    pose proof (reclaim_iter (base_pn s) l) as Hi. pose proof (reclaim_ok (base_pn s) l) as [Ho1 Ho2].
    destruct (reclaim (base_pn s) l) as [base l']. cbn [fst snd] in *.
    assert (iter_from base l' = pn_filter (fun k => negb (k =? pn)) (sent_iter s)) as Hnew by congruence.
    split; [done|]. split; [done|]. split; [cbn; lia| |done]. unfold sent_iter at 1. cbn [live base_pn slots].
    rewrite Hnew, <-Hg, H2, <-!sum_by_one, sum_by_filter_one by apply sent_iter_sorted.
    destruct (btree_get pn (sent_iter s)); lia.
Qed.

Lemma iter_from_none b n : iter_from b (repeat None n) = [].
Proof. revert b. induction n as [|n IH]; intros b; cbn; auto. Qed.

(** Filling an empty or occupied slot. *)
Lemma iter_from_set b l i p :
  0 <= i < zlen l -> iter_from b (<[Z.to_nat i := Some p]> l) = btree_insert (b + i) p (iter_from b l).
Proof.
  revert b i. induction l as [|x l IH]; intros b i Hi; [unfold zlen in Hi; cbn [length] in Hi; lia|]. rewrite zlen_cons in Hi.
  assert (Forall (fun e : Z * SentPacket => b < e.1) (iter_from (b + 1) l)) as Hab.
  { eapply Forall_impl; [apply iter_from_range|]. cbn. lia. }
  destruct (Z.eq_dec i 0) as [->|].
  - rewrite Z.add_0_r. change (<[Z.to_nat 0 := Some p]> (x :: l)) with (Some p :: l).
    destruct x as [q|]; cbn [iter_from btree_insert].
    + by rewrite Z.ltb_irrefl, Z.eqb_refl.
    + destruct (iter_from (b + 1) l) as [|[k v] m]; [done|]. apply Forall_cons in Hab as [Hk _]. cbn in Hk.
      cbn [btree_insert]. destruct (b <? k) eqn:E; bool_to_prop; [done|lia].
  - replace (Z.to_nat i) with (S (Z.to_nat (i - 1))) by lia.
    change (<[S ?k := ?y]> (x :: l)) with (x :: <[k := y]> l).
    specialize (IH (b + 1) (i - 1) ltac:(lia)). replace (b + 1 + (i - 1)) with (b + i) in IH by lia.
    destruct x as [q|]; cbn [iter_from btree_insert]; rewrite IH; [|done].
    destruct (b + i <? b) eqn:E; bool_to_prop; [lia|]. destruct (b + i =? b) eqn:E2; bool_to_prop; [lia|done].
Qed.

Lemma sent_insert_spec pn pkt s :
  ring_ok s -> 0 <= pn -> slots s = [] \/ base_pn s <= pn ->
  sent_iter (sent_insert pn pkt s) = btree_insert pn pkt (sent_iter s) /\ ring_ok (sent_insert pn pkt s).
Proof.
  intros [H1 H2 H3] Hpn Hb. unfold sent_insert.
  set (base := match slots s with [] => pn | _ => base_pn s end).
  assert (0 <= base <= pn) as Hbase by (unfold base; destruct (slots s); [lia|destruct Hb; [done|lia]]).
  assert (iter_from base (slots s) = sent_iter s) as Hit by (unfold base, sent_iter; by destruct (slots s)).
  destruct (pn <? base) eqn:E; bool_to_prop; [lia|].
  set (idx := Z.to_nat (pn - base)). set (l := slots s ++ repeat None (S idx - length (slots s))).
  assert (iter_from base l = sent_iter s) as Hl by (unfold l; by rewrite iter_from_app, iter_from_none, app_nil_r).
  assert (pn - base < zlen l) as Hlen by (unfold l, zlen; rewrite length_app, repeat_length; lia).
  pose proof (iter_from_set base l (pn - base) pkt ltac:(lia)) as Hs. fold idx in Hs.
  pose proof (iter_from_get base l (pn - base) ltac:(lia)) as Hg. fold idx in Hg.
  replace (base + (pn - base)) with pn in Hs, Hg by lia. rewrite Hl in Hs, Hg.
  unfold sent_iter at 1. cbn [base_pn slots]. split; [done|]. split; cbn [base_pn slots live]; [lia| |].
  - unfold sent_iter. cbn [base_pn slots]. rewrite Hs, <-!sum_by_one, sum_by_insert by apply sent_iter_sorted.
    rewrite Hg. rewrite H2, <-sum_by_one. destruct (l !! idx) as [[x|]|] eqn:E2; cbn [mjoin option_join]; lia.
  - intros l' Hcons. assert (exists y l'', l = y :: l'' /\ (y = None -> idx = 0%nat)) as (y & l'' & Ey & Hy).
    { unfold l, idx, base. destruct (slots s) as [|[x|] r] eqn:Es.
      - rewrite Z.sub_diag. eexists _, _. cbn. done.
      - by eexists _, _.
      - by destruct (H3 r). }
    rewrite Ey in Hcons. destruct idx; [done|]. cbn [insert list_insert] in Hcons. injection Hcons as -> _. by specialize (Hy eq_refl).
Qed.

Lemma ring_default_ok : ring_ok sent_default.
Proof. by split. Qed.

Lemma reclaim_end b l : (reclaim b l).1 + zlen (reclaim b l).2 = b + zlen l.
Proof.
  revert b. induction l as [|[p|] l IH]; intros b; cbn [reclaim fst snd]; [done..|].
  rewrite IH, zlen_cons. lia.
Qed.

(** The slots end where the last packet number was inserted. *)
Definition ring_next (next : Z) (s : SentPackets) : Prop :=
  ring_ok s /\ 0 <= next /\ (slots s = [] \/ base_pn s + zlen (slots s) <= next).

Lemma sent_remove_next n pn s : ring_next n s -> ring_next n (sent_remove pn s).2.
Proof.
  intros (Hr & Hn & He). split; [by apply sent_remove_spec|]. split; [done|].
  unfold sent_remove. destruct (pn <? base_pn s); [done|].
  destruct He as [He|He]; [left; rewrite He; by destruct (Z.to_nat _)|right].
  pose proof (reclaim_end (base_pn s) (<[Z.to_nat (pn - base_pn s) := None]> (slots s))) as Hre.
  destruct (reclaim _ _) as [b l]. cbn [fst snd base_pn slots] in *.
  unfold zlen in *. rewrite length_insert in Hre. lia.
Qed.

Lemma sent_insert_next n pn pkt s :
  ring_next n s -> n <= pn ->
  sent_iter (sent_insert pn pkt s) = btree_insert pn pkt (sent_iter s) /\
  btree_get pn (sent_iter s) = None /\ ring_next (pn + 1) (sent_insert pn pkt s).
Proof.
  intros (Hr & Hn & He) Hm. pose proof (zlen_nonneg (slots s)).
  destruct (sent_insert_spec pn pkt s Hr ltac:(lia)) as [H1 H2]; [destruct He; [by left|right; lia]|].
  split; [done|]. split.
  { apply btree_get_last. destruct He as [He|He]; [unfold sent_iter; by rewrite He|].
    eapply Forall_impl; [apply iter_from_range|]. cbn. lia. }
  split; [done|]. split; [lia|]. right.
  unfold sent_insert. set (base := match slots s with [] => pn | _ => _ end).
  assert (base <= pn) as Hb by (unfold base; destruct (slots s); [lia|destruct He; [done|lia]]).
  assert (slots s = [] \/ base + zlen (slots s) <= pn) as He'.
  { unfold base. destruct (slots s); [by left|destruct He; [done|right; lia]]. }
  destruct (pn <? base) eqn:E; bool_to_prop; [lia|]. cbn [base_pn slots]. unfold zlen in *.
  rewrite length_insert, length_app, repeat_length. destruct He' as [->|]; cbn [length]; lia.
Qed.

(* ------------------------------------------------------------------ *)
(** ** What an ACK frame removes *)

(** Bytes a packet holds in flight. *)
Definition pkt_flight (p : SentPacket) : Z := if in_flight p then byte_count p else 0.
Definition flight_of (m : list (Z * SentPacket)) : Z := sum_by pkt_flight m.
Definition pkts_ok (m : list (Z * SentPacket)) : Prop := Forall (fun e => 0 <= byte_count e.2) m.

Lemma pkt_flight_nonneg p : 0 <= byte_count p -> 0 <= pkt_flight p.
Proof. unfold pkt_flight. by case_match. Qed.

Lemma flight_of_nonneg m : pkts_ok m -> 0 <= flight_of m.
Proof.
  unfold flight_of, sum_by. induction 1 as [|e m He Hm IH]; [done|]. cbn [foldr].
  pose proof (pkt_flight_nonneg _ He). lia.
Qed.

Lemma flight_of_filter P m : pkts_ok m -> flight_of (pn_filter P m) <= flight_of m.
Proof.
  induction 1 as [|e m He Hm IH]; [done|]. rewrite pn_filter_cons.
  pose proof (pkt_flight_nonneg _ He). unfold flight_of, sum_by in *. case_match; cbn [foldr]; lia.
Qed.

Definition between (low high pn : Z) : bool := (low <=? pn) && (pn <=? high).

(** The effect of removing the packets [K] names: the rest stays, the packet
    [target] is kept aside if it is among them, and what is no longer in flight is
    added to the count, up to the width of [u32]. *)
Definition removes (K : Z -> bool) (target : Z) (st st' : SentPackets * option SentPacket * Z) : Prop :=
  (ring_ok st'.1.1 /\ forall n, ring_next n st.1.1 -> ring_next n st'.1.1) /\
  sent_iter st'.1.1 = pn_filter (fun pn => negb (K pn)) (sent_iter st.1.1) /\
  st'.1.2 = (if K target then
               match btree_get target (sent_iter st.1.1) with Some p => Some p | None => st.1.2 end
             else st.1.2) /\
  st'.2 = Z.min U32_MAX (st.2 + flight_of (sent_iter st.1.1) - flight_of (sent_iter st'.1.1)).

Lemma removes_trans K1 K2 target a b c :
  pkts_ok (sent_iter a.1.1) ->
  removes K1 target a b -> removes K2 target b c ->
  removes (fun pn => K1 pn || K2 pn) target a c.
Proof.
  intros Ha ([_ A1] & A2 & A3 & A4) ([B0 B1] & B2 & B3 & B4). split; [by auto|]. split; [|split].
  - rewrite B2, A2, pn_filter_twice. apply pn_filter_ext. intros pn. by destruct (K1 pn), (K2 pn).
  - rewrite B3, A3, A2, btree_get_filter.
    destruct (K1 target), (K2 target); cbn [negb orb]; try done; by destruct (btree_get target _).
  - rewrite B4, A4.
    assert (flight_of (sent_iter c.1.1) <= flight_of (sent_iter b.1.1)) as Hm; [|lia].
    rewrite B2. apply flight_of_filter. rewrite A2. by apply pn_filter_forall.
Qed.

Lemma removes_ok K target a b :
  pkts_ok (sent_iter a.1.1) -> 0 <= a.2 <= U32_MAX -> removes K target a b ->
  ring_ok b.1.1 /\ pkts_ok (sent_iter b.1.1) /\ 0 <= b.2 <= U32_MAX.
Proof.
  intros Hp Ha ([R1 _] & R2 & _ & R4). split; [done|].
  assert (pkts_ok (sent_iter b.1.1)) as Hb by (rewrite R2; by apply pn_filter_forall).
  split; [done|]. rewrite R4. pose proof (flight_of_filter (fun pn => negb (K pn)) _ Hp). rewrite R2. unfold U32_MAX in *. lia.
Qed.

Lemma removes_ext K K' target a b : (forall pn, K pn = K' pn) -> removes K target a b -> removes K' target a b.
Proof.
  intros H (R1 & R2 & R3 & R4). split; [done|]. rewrite <-H. split; [|done].
  rewrite R2. apply pn_filter_ext. intros pn. by rewrite H.
Qed.

Lemma removes_one pn target sp lo acked :
  ring_ok sp -> 0 <= acked <= U32_MAX ->
  removes (fun k => k =? pn) target (sp, lo, acked)
    (let (taken, sp) := sent_remove pn sp in
     match taken with
     | None => (sp, lo, acked)
     | Some pkt => (sp, if pn =? target then Some pkt else lo,
                    if in_flight pkt then sat_add32 acked (byte_count pkt) else acked)
     end).
Proof.
  intros Hr Ha. destruct (sent_remove_spec pn sp Hr) as (H1 & H2 & H3).
  pose proof (fun n => sent_remove_next n pn sp) as H4.
  destruct (sent_remove pn sp) as [taken sp']. cbn [fst snd] in *. subst taken.
  assert (flight_of (sent_iter sp) - flight_of (sent_iter sp') =
    match btree_get pn (sent_iter sp) with Some p => pkt_flight p | None => 0 end) as Hf.
  { rewrite H2. unfold flight_of. rewrite sum_by_filter_one by apply sent_iter_sorted. lia. }
  destruct (btree_get pn (sent_iter sp)) as [pkt|] eqn:E; (split; [done|]; split; [done|]);
    cbn [fst snd]; (split; [destruct (target =? pn) eqn:E2; bool_to_prop|]).
  - subst. by rewrite E, Z.eqb_refl.
  - rewrite Z.eqb_sym. destruct (target =? pn) eqn:E3; bool_to_prop; [lia|done].
  - unfold pkt_flight, sat_add32 in *. destruct (in_flight pkt); lia.
  - subst. by rewrite E.
  - done.
  - lia.
Qed.

Lemma removes_range n pn target st :
  ring_ok st.1.1 -> pkts_ok (sent_iter st.1.1) -> 0 <= st.2 <= U32_MAX ->
  removes (between (pn - Z.of_nat n + 1) pn) target st (ack_remove_loop sent_remove n pn target st).
Proof.
  revert pn st. induction n as [|n IH]; intros pn [[sp lo] acked] Hr Hp Ha; cbn [ack_remove_loop fst snd] in *.
  - assert (forall k, between (pn - Z.of_nat 0 + 1) pn k = false) as Hb.
    { intros k. unfold between. destruct (_ <=? k) eqn:E; [|done]. bool_to_prop. cbn [andb]. apply Z.leb_gt. lia. }
    split; [done|]. split; [|split]; cbn [fst snd].
    + symmetry. apply pn_filter_id. apply Forall_forall. intros e _. by rewrite Hb.
    + by rewrite Hb.
    + lia.
  - pose proof (removes_one pn target sp lo acked Hr Ha) as H1.
    destruct (sent_remove pn sp) as [taken sp'].
    set (st1 := match taken with Some _ => _ | None => _ end) in *.
    destruct (removes_ok _ _ (sp, lo, acked) _ Hp Ha H1) as (R1 & Hp1 & Ha1). specialize (IH (pn - 1) st1 R1 Hp1 Ha1).
    eapply removes_ext; [|apply (removes_trans _ _ _ (sp, lo, acked) _ _ Hp H1 IH)].
    intros k. unfold between. apply eq_true_iff_eq. rewrite orb_true_iff, !andb_true_iff, Z.eqb_eq, !Z.leb_le. lia.
Qed.

Lemma removes_nothing K target st :
  ring_ok st.1.1 -> 0 <= st.2 <= U32_MAX -> (forall pn, K pn = false) -> removes K target st st.
Proof.
  intros Hr Ha HK. split; [done|]. split; [|split].
  - symmetry. apply pn_filter_id. apply Forall_forall. intros e _. by rewrite HK.
  - by rewrite HK.
  - lia.
Qed.

Lemma ack_remove_range_spec low high target st :
  ring_ok st.1.1 -> pkts_ok (sent_iter st.1.1) -> 0 <= st.2 <= U32_MAX ->
  removes (between low high) target st (ack_remove_range sent_remove low high target st).
Proof.
  intros Hr Hp Ha. unfold ack_remove_range. destruct (high <? low) eqn:E; bool_to_prop.
  - apply removes_nothing; [done..|]. intros pn. unfold between.
    destruct (low <=? pn) eqn:E2; [|done]. bool_to_prop. apply Z.leb_gt. lia.
  - pose proof (removes_range (Z.to_nat (high - low + 1)) high target st Hr Hp Ha) as H.
    by replace (high - Z.of_nat (Z.to_nat (high - low + 1)) + 1) with low in H by lia.
Qed.

(** The ranges of packet numbers an ACK frame names, as RFC 9000, 19.3.1 reads
    them; a range that would start below zero ends the list. *)
Fixpoint ack_blocks (smallest : Z) (items : list (Z * Z)) : list (Z * Z) :=
  match items with
  | [] => []
  | (gap, len) :: items =>
      let high := smallest - gap - 2 in
      if high <? 0 then [] else (Z.max 0 (high - len), high) :: ack_blocks (Z.max 0 (high - len)) items
  end.
Definition frame_blocks (largest first : Z) (items : list (Z * Z)) : list (Z * Z) :=
  (Z.max 0 (largest - first), largest) :: ack_blocks (Z.max 0 (largest - first)) items.

Definition named (blocks : list (Z * Z)) (pn : Z) : bool :=
  existsb (fun b => between b.1 b.2 pn) blocks.

Lemma ack_walk_spec items target smallest st :
  ring_ok st.1.1 -> pkts_ok (sent_iter st.1.1) -> 0 <= st.2 <= U32_MAX ->
  removes (named (ack_blocks smallest items)) target st (ack_walk sent_remove target smallest items st).
Proof.
  revert smallest st. induction items as [|[gap len] items IH]; intros smallest st Hr Hp Ha; cbn [ack_walk ack_blocks].
  - by apply removes_nothing.
  - destruct (smallest <? gap + 2) eqn:E; destruct (smallest - gap - 2 <? 0) eqn:E2; bool_to_prop; try lia.
    + by apply removes_nothing.
    + unfold sat_sub. replace (smallest - (gap + 2)) with (smallest - gap - 2) by lia.
      set (high := smallest - gap - 2). set (low := Z.max 0 (high - len)).
      pose proof (ack_remove_range_spec low high target st Hr Hp Ha) as H1.
      destruct (removes_ok _ _ _ _ Hp Ha H1) as (R1 & R2 & R3).
      exact (removes_trans _ _ _ _ _ _ Hp H1 (IH low _ R1 R2 R3)).
Qed.

Lemma ack_remove_all_spec largest first ranges sp :
  ring_ok sp -> pkts_ok (sent_iter sp) ->
  removes (named (frame_blocks largest first (ack_items ranges))) largest (sp, None, 0)
    (ack_remove_all largest first ranges sp).
Proof.
  intros Hr Hp. unfold ack_remove_all, ack_remove_with, frame_blocks, sat_sub. set (small := Z.max 0 (largest - first)).
  pose proof (ack_remove_range_spec small largest largest (sp, None, 0) Hr Hp ltac:(unfold U32_MAX; cbn; lia)) as H1.
  destruct (removes_ok _ _ (sp, None, 0) _ Hp ltac:(unfold U32_MAX; cbn; lia) H1) as (R1 & R2 & R3).
  exact (removes_trans _ _ _ (sp, None, 0) _ _ Hp H1 (ack_walk_spec (ack_items ranges) largest small _ R1 R2 R3)).
Qed.

(* ------------------------------------------------------------------ *)
(** ** The ranges of received packet numbers *)

(** Descending, disjoint and not adjacent, all below [top]. *)
Fixpoint ranges_ok (top : Z) (l : list (Z * Z)) : Prop :=
  match l with
  | [] => True
  | (lo, hi) :: l => 0 <= lo <= hi /\ hi < top /\ ranges_ok (lo - 1) l
  end.

(** The bound the next range below [l] must respect. *)
Definition bottom (top : Z) (l : list (Z * Z)) : Z :=
  match last l with Some (lo, _) => lo - 1 | None => top end.

Lemma bottom_cons top e l : bottom top (e :: l) = bottom (e.1 - 1) l.
Proof. unfold bottom. destruct e as [lo hi]. rewrite last_cons. by destruct (last l) as [[]|]. Qed.

Lemma bottom_snoc top l lo hi : bottom top (l ++ [(lo, hi)]) = lo - 1.
Proof. unfold bottom. by rewrite last_snoc. Qed.

Lemma ranges_ok_app top l1 l2 : ranges_ok top (l1 ++ l2) <-> ranges_ok top l1 /\ ranges_ok (bottom top l1) l2.
Proof.
  revert top. induction l1 as [|[lo hi] l1 IH]; intros top; cbn [app ranges_ok]; [naive_solver|].
  rewrite IH, bottom_cons. cbn [fst]. naive_solver.
Qed.

Lemma ranges_ok_bottom top l : ranges_ok top l -> l <> [] -> bottom top l < top.
Proof.
  revert top. induction l as [|[lo hi] l IH]; intros top; [done|]. cbn [ranges_ok]. intros (H1 & H2 & H3) _.
  rewrite bottom_cons. cbn [fst]. destruct l as [|e l]; [cbn; lia|]. specialize (IH (lo - 1) H3 ltac:(done)). lia.
Qed.

Lemma ranges_ok_mono top top' l : top <= top' -> ranges_ok top l -> ranges_ok top' l.
Proof. destruct l as [|[lo hi] l]; cbn; [done|]. intuition lia. Qed.

Lemma recv_position_split pn l top i k :
  ranges_ok top l -> 0 <= pn -> recv_position pn k l = Some i ->
  exists l1 l2, l = l1 ++ l2 /\ i = (k + length l1)%nat /\
    (l1 = [] \/ pn <= bottom top l1) /\ match l2 with [] => True | (_, hi) :: _ => hi < pn end.
Proof.
  revert top k. induction l as [|[lo hi] l IH]; intros top k Hok Hpn; cbn [recv_position].
  - intros [= <-]. exists [], []. cbn. split; [done|]. split; [lia|]. by split; [left|].
  - cbn [ranges_ok] in Hok. destruct Hok as (H1 & H2 & H3).
    destruct (hi <? pn) eqn:E1; bool_to_prop.
    { intros [= <-]. exists [], ((lo, hi) :: l). cbn. split; [done|]. split; [lia|]. by split; [left|]. }
    destruct (lo <=? pn) eqn:E2; bool_to_prop; [done|]. intros E.
    destruct (IH (lo - 1) (S k) H3 Hpn E) as (l1 & l2 & -> & -> & H4 & H5).
    exists ((lo, hi) :: l1), l2. split; [done|]. split; [cbn; lia|]. split; [right|done].
    rewrite bottom_cons. cbn [fst]. destruct H4 as [->|]; [cbn; lia|lia].
Qed.

Lemma recv_position_none pn l top k :
  ranges_ok top l -> recv_position pn k l = None -> named l pn = true.
Proof.
  revert top k. induction l as [|[lo hi] l IH]; intros top k Hok; cbn [recv_position]; [done|].
  cbn [ranges_ok] in Hok. destruct Hok as (H1 & H2 & H3). cbn [named existsb fst snd].
  destruct (hi <? pn) eqn:E1; bool_to_prop; [done|]. destruct (lo <=? pn) eqn:E2; bool_to_prop.
  - intros _. unfold between. rewrite (proj2 (Z.leb_le lo pn)), (proj2 (Z.leb_le pn hi)) by lia. done.
  - intros E. unfold named in IH. rewrite (IH _ _ H3 E). apply orb_true_r.
Qed.

(** [merge_pn] with the list split at the insertion point, the upper part
    reversed. *)
Definition merge_split (pn : Z) (r l : list (Z * Z)) : list (Z * Z) :=
  let touch_above := match r with (lo, _) :: _ => lo =? pn + 1 | [] => false end in
  let touch_below := match l with (_, hi) :: _ => hi + 1 =? pn | [] => false end in
  match touch_above, touch_below, r, l with
  | true, true, (_, hi) :: r', (lo, _) :: l' => rev r' ++ (lo, hi) :: l'
  | true, false, (_, hi) :: r', _ => rev r' ++ (pn, hi) :: l
  | false, true, _, (lo, _) :: l' => rev r ++ (lo, pn) :: l'
  | _, _, _, _ =>
      if zlen (rev r ++ l) <? MAX_RECV_RANGES then rev r ++ (pn, pn) :: l
      else match l with [] => rev r | _ => rev r ++ (pn, pn) :: removelast l end
  end.

Lemma rev_cons_app {A} (x : A) r l : rev (x :: r) ++ l = rev r ++ x :: l.
Proof. cbn [rev]. by rewrite <-app_assoc. Qed.

Lemma removelast_take {A} (l : list A) : removelast l = take (length l - 1) l.
Proof. rewrite List.removelast_firstn_len. f_equal. lia. Qed.

Lemma merge_pn_insert (pn : Z) (r l : list (Z * Z)) :
  (if zlen (rev r ++ l) <? MAX_RECV_RANGES then list_insert_at (length r) (pn, pn) (rev r ++ l)
   else if (length r <? length (rev r ++ l))%nat then
     let popped := take (length (rev r ++ l) - 1) (rev r ++ l) in
     list_insert_at (Nat.min (length r) (length popped)) (pn, pn) popped
   else rev r ++ l) =
  (if zlen (rev r ++ l) <? MAX_RECV_RANGES then rev r ++ (pn, pn) :: l
   else match l with [] => rev r | _ => rev r ++ (pn, pn) :: removelast l end).
Proof.
  assert (forall l : list (Z * Z), list_insert_at (length r) (pn, pn) (rev r ++ l) = rev r ++ (pn, pn) :: l) as Hi.
  { intros l'. unfold list_insert_at. rewrite take_app_length', drop_app_length' by (by rewrite length_rev). done. }
  destruct (_ <? MAX_RECV_RANGES); [apply Hi|]. rewrite length_app, length_rev.
  destruct l as [|e l].
  - rewrite Nat.add_0_r, Nat.ltb_irrefl. apply app_nil_r.
  - rewrite (proj2 (Nat.ltb_lt _ _)) by (cbn [length]; lia). cbv zeta.
    assert (take (length r + length (e :: l) - 1) (rev r ++ e :: l) = rev r ++ removelast (e :: l)) as ->.
    { rewrite take_app_ge by (rewrite length_rev; cbn [length]; lia). rewrite length_rev, removelast_take. do 2 f_equal. cbn [length]. lia. }
    rewrite length_app, length_rev, Nat.min_l by lia. apply Hi.
Qed.

Lemma merge_pn_split pn r l : merge_pn pn (length r) (rev r ++ l) = merge_split pn r l.
Proof.
  pose proof (merge_pn_insert pn r l) as Hins.
  assert ((rev r ++ l) !! length r = head l) as Hb.
  { rewrite lookup_app_r by (by rewrite length_rev). rewrite length_rev, Nat.sub_diag. by destruct l. }
  unfold merge_pn, merge_split. rewrite Hb. destruct r as [|[la ha] r].
  - cbn [length]. destruct l as [|[lb hb] l]; [exact Hins|]. cbn [head]. destruct (hb + 1 =? pn); [done|exact Hins].
  - assert ((rev ((la, ha) :: r) ++ l) !! length r = Some (la, ha)) as Ha.
    { rewrite rev_cons_app, lookup_app_r by (by rewrite length_rev). by rewrite length_rev, Nat.sub_diag. }
    cbn [length] in *. rewrite Ha. replace (S (length r) - 1)%nat with (length r) by lia.
    assert (forall x, <[length r := x]> (rev ((la, ha) :: r) ++ l) = rev r ++ x :: l) as Hset.
    { intros x. rewrite rev_cons_app, insert_app_r_alt by (by rewrite length_rev). by rewrite length_rev, Nat.sub_diag. }
    destruct (la =? pn + 1).
    + destruct l as [|[lb hb] l]; cbn [head]; [apply Hset|]. destruct (hb + 1 =? pn); [|apply Hset].
      rewrite Hset. rewrite delete_take_drop. rewrite take_app_ge, drop_app_ge by (rewrite length_rev; lia).
      rewrite length_rev. replace (S (length r) - length r)%nat with 1%nat by lia.
      replace (S (S (length r)) - length r)%nat with 2%nat by lia. cbn [take drop]. by rewrite <-app_assoc.
    + destruct l as [|[lb hb] l]; cbn [head]; [exact Hins|]. destruct (hb + 1 =? pn); [|exact Hins].
      rewrite insert_app_r_alt by (rewrite length_rev; cbn; lia). rewrite length_rev.
      cbn [length]. by rewrite Nat.sub_diag.
Qed.

Lemma named_app a b k : named (a ++ b) k = named a k || named b k.
Proof. apply existsb_app. Qed.

Lemma named_cons e b k : named (e :: b) k = between e.1 e.2 k || named b k.
Proof. done. Qed.

Lemma between_iff lo hi k : between lo hi k = true <-> lo <= k <= hi.
Proof. unfold between. by rewrite andb_true_iff, !Z.leb_le. Qed.

Lemma ranges_ok_removelast top l : ranges_ok top l -> ranges_ok top (removelast l).
Proof.
  destruct l as [|e l] using rev_ind; [done|]. rewrite removelast_last, ranges_ok_app. by intros [].
Qed.

Lemma named_removelast l k : named (removelast l) k = true -> named l k = true.
Proof.
  destruct l as [|e l _] using rev_ind; [done|]. rewrite removelast_last, named_app. by intros ->.
Qed.

Ltac ranges_cases :=
  cbn [ranges_ok] in *;
  repeat match goal with H : _ /\ _ |- _ => destruct H end;
  repeat match goal with |- _ /\ _ => split end;
  first [assumption | lia | eapply ranges_ok_mono; [|eassumption]; lia].

(** [pn] falls between the ranges of [r] and those of [l]. *)
Definition splits (top pn : Z) (r l : list (Z * Z)) : Prop :=
  ranges_ok top (rev r ++ l) /\ 0 <= pn < top /\
  match r with [] => True | (la, _) :: _ => pn < la end /\
  match l with [] => True | (_, hb) :: _ => hb < pn end.

Lemma splits_insert top pn r l l' :
  splits top pn r l -> match r with (la, _) :: _ => la <> pn + 1 | [] => True end ->
  ranges_ok (pn - 1) l' -> ranges_ok top (rev r ++ (pn, pn) :: l').
Proof.
  intros (Hok & Hpn & Ha & _) Hr Hl'. apply ranges_ok_app in Hok as [Ho1 Ho2]. apply ranges_ok_app. split; [done|].
  cbn [ranges_ok]. split; [lia|]. split; [|done].
  destruct r as [|[la ha] r']; [cbn; lia|]. cbn [rev]. rewrite bottom_snoc. lia.
Qed.

Lemma splits_lower top pn r l :
  splits top pn r l -> match l with (_, hb) :: _ => hb + 1 <> pn | [] => True end -> ranges_ok (pn - 1) l.
Proof.
  intros (Hok & _ & _ & Hb) Hl. apply ranges_ok_app in Hok as [_ Ho2].
  destruct l as [|[lb hb] l']; [done|]. ranges_cases.
Qed.

Lemma merge_split_ok top pn r l : splits top pn r l -> ranges_ok top (merge_split pn r l).
Proof.
  intros Hs. pose proof Hs as (Hok & Hpn & Ha & Hb).
  pose proof (splits_insert top pn r l l Hs) as Hins. pose proof (splits_lower top pn r l Hs) as Hl.
  pose proof (splits_insert top pn r l (removelast l) Hs) as Hpop. unfold merge_split.
  destruct r as [|[la ha] r']; [|destruct (la =? pn + 1) eqn:Ea; bool_to_prop];
    (destruct l as [|[lb hb] l']; [|destruct (hb + 1 =? pn) eqn:Eb; bool_to_prop]);
    try (case_match; [by apply Hins, Hl|]; first [done | by apply Hpop, ranges_ok_removelast, Hl | by rewrite app_nil_r in Hok]).
  - cbn [rev app] in *. ranges_cases.
  - rewrite rev_cons_app in Hok. apply ranges_ok_app in Hok as [Ho1 Ho2]. apply ranges_ok_app. ranges_cases.
  - rewrite rev_cons_app in Hok. apply ranges_ok_app in Hok as [Ho1 Ho2]. apply ranges_ok_app. ranges_cases.
  - rewrite rev_cons_app in Hok. apply ranges_ok_app in Hok as [Ho1 Ho2]. apply ranges_ok_app. ranges_cases.
  - apply ranges_ok_app in Hok as [Ho1 Ho2]. apply ranges_ok_app. split; [done|].
    cbn [rev] in *. rewrite bottom_snoc in *. ranges_cases.
Qed.

Lemma merge_split_named top pn r l k :
  splits top pn r l ->
  (named (merge_split pn r l) k = true -> named (rev r ++ l) k = true \/ k = pn) /\
  (zlen (rev r ++ l) < MAX_RECV_RANGES ->
   named (rev r ++ l) k = true \/ k = pn -> named (merge_split pn r l) k = true).
Proof.
  intros (Hok & Hpn & Ha & Hb). unfold merge_split.
  assert (forall a b, named (a ++ (pn, pn) :: b) k = true <-> named (a ++ b) k = true \/ k = pn) as Hins.
  { intros a b. rewrite !named_app, named_cons, !orb_true_iff, between_iff. cbn [fst snd].
    split; [intros [?|[?|?]]|intros [[?|?]|?]]; auto with lia. }
  assert (forall a b, named (a ++ (pn, pn) :: removelast b) k = true -> named (a ++ b) k = true \/ k = pn) as Hpop.
  { intros a b [H|H]%Hins; [left|by right]. rewrite named_app, orb_true_iff in *.
    destruct H as [?|?%named_removelast]; auto. }
  destruct r as [|[la ha] r']; [|destruct (la =? pn + 1) eqn:Ea; bool_to_prop];
    (destruct l as [|[lb hb] l']; [|destruct (hb + 1 =? pn) eqn:Eb; bool_to_prop]);
    try (case_match eqn:Ez; bool_to_prop; [by split; [apply Hins|intros _; apply Hins]|];
      split; [first [by apply Hpop | rewrite ?app_nil_r; by left]|lia]).
  all: rewrite ?rev_cons_app, ?app_nil_r in *; try apply ranges_ok_app in Hok as [Hr Hok];
    cbn [rev app ranges_ok] in Hok; rewrite ?named_app, ?named_cons; cbn [fst snd]; unfold between;
    clear Hins Hpop; (split; [|intros _]);
    repeat match goal with |- context [named ?x ?y] => destruct (named x y) end;
    rewrite ?orb_true_r, ?orb_false_r, ?orb_false_l; rewrite ?orb_true_iff, ?andb_true_iff, ?Z.leb_le; lia.
Qed.

Lemma merge_split_len top pn r l :
  splits top pn r l -> zlen (rev r ++ l) <= MAX_RECV_RANGES -> zlen (merge_split pn r l) <= MAX_RECV_RANGES.
Proof.
  intros _ Hl. unfold merge_split.
  assert (forall (a b : list (Z * Z)) x, zlen (a ++ x :: b) = zlen (a ++ b) + 1) as Hc.
  { intros a b x. rewrite !zlen_app, zlen_cons. lia. }
  assert (forall (a : list (Z * Z)) x b, zlen (a ++ removelast (x :: b)) = zlen (a ++ x :: b) - 1) as Hr.
  { intros a x b. rewrite !zlen_app, removelast_take. unfold zlen. rewrite length_take. cbn [length]. lia. }
  destruct r as [|[la ha] r']; [|destruct (la =? pn + 1)];
    (destruct l as [|[lb hb] l']; [|destruct (hb + 1 =? pn)]);
    try (case_match eqn:Ez; bool_to_prop); rewrite ?rev_cons_app, ?Hc, ?Hr in *; rewrite ?Hc, ?app_nil_r in *; try lia.
  cbn [rev]. rewrite zlen_app. unfold zlen at 2. cbn [length]. lia.
Qed.

Section Record.
Context (top : Z).

Definition recv_ok (s : SpaceState) : Prop :=
  ranges_ok top (recv_ranges s) /\ zlen (recv_ranges s) <= MAX_RECV_RANGES.

Lemma record_recv_pn_ranges pn s :
  recv_ok s -> 0 <= pn < top ->
  recv_ok (record_recv_pn pn s) /\
  (forall k, named (recv_ranges (record_recv_pn pn s)) k = true -> named (recv_ranges s) k = true \/ k = pn) /\
  (zlen (recv_ranges s) < MAX_RECV_RANGES ->
   forall k, named (recv_ranges s) k = true \/ k = pn -> named (recv_ranges (record_recv_pn pn s)) k = true).
Proof.
  intros [Hok Hlen] Hpn. unfold record_recv_pn, recv_ok. cbn [recv_ranges].
  destruct (recv_position pn 0 (recv_ranges s)) as [i|] eqn:E.
  - destruct (recv_position_split pn _ top i 0 Hok ltac:(lia) E) as (l1 & l2 & El & Hi & Ha & Hb).
    assert (exists r, l1 = rev r) as [r ->] by (exists (rev l1); by rewrite rev_involutive).
    rewrite El in *. rewrite length_rev in Hi. cbn [Nat.add] in Hi. subst i.
    assert (splits top pn r l2) as Hs.
    { split; [done|]. split; [done|]. split; [|done]. destruct r as [|[la ha] r]; [done|].
      cbn [rev] in Ha. rewrite bottom_snoc in Ha. destruct Ha as [Ha|]; [|lia]. by destruct (rev r). }
    rewrite merge_pn_split. split; [split; [by apply merge_split_ok|by apply (merge_split_len top)]|].
    split; [|intros Hz]; intros k; by apply (merge_split_named top).
  - split; [done|]. split; [auto|]. intros _ k [?| ->]; [done|]. by eapply recv_position_none.
Qed.

End Record.

(** A receiver after the packets [pns], in the order of their arrival. *)
Definition recv_all (pns : list Z) : SpaceState := foldl (fun s pn => record_recv_pn pn s) space_default pns.

Lemma recv_all_snoc pns pn : recv_all (pns ++ [pn]) = record_recv_pn pn (recv_all pns).
Proof. unfold recv_all. by rewrite foldl_app. Qed.

Lemma recv_all_ranges pns :
  Forall is_varint pns ->
  recv_ok (MAX_VARINT + 1) (recv_all pns) /\
  (forall k, named (recv_ranges (recv_all pns)) k = true -> k ∈ pns) /\
  ((forall n, zlen (recv_ranges (recv_all (take n pns))) < MAX_RECV_RANGES) ->
   forall k, k ∈ pns -> named (recv_ranges (recv_all pns)) k = true).
Proof.
  induction pns as [|pn pns IH] using rev_ind; intros Hv.
  { split; [by split|]. split; [done|]. intros _ k Hk. by apply not_elem_of_nil in Hk. }
  apply Forall_app in Hv as [Hv Hpn]. apply (Forall_singleton is_varint) in Hpn. destruct (IH Hv) as (H1 & H2 & H3).
  rewrite recv_all_snoc. assert (0 <= pn < MAX_VARINT + 1) as Hb by (destruct Hpn; lia).
  destruct (record_recv_pn_ranges _ pn _ H1 Hb) as (R1 & R2 & R3).
  split; [done|]. split.
  - intros k Hk. apply elem_of_app. destruct (R2 k Hk) as [?| ->]; [left; auto|right; by apply list_elem_of_singleton].
  - intros Hfull k Hk. apply R3.
    + specialize (Hfull (length pns)). by rewrite take_app_length in Hfull.
    + apply elem_of_app in Hk as [Hk|Hk%list_elem_of_singleton]; [left|by right]. apply H3; [|done].
      intros n. destruct (Nat.le_ge_cases n (length pns)) as [Hn|Hn].
      * specialize (Hfull n). by rewrite take_app_le in Hfull.
      * specialize (Hfull (length pns)). rewrite take_app_length in Hfull. by rewrite take_ge.
Qed.

(** The frame built from the ranges names them again, nine at most. *)
Lemma ack_additional_blocks n lo rest :
  ranges_ok (lo - 1) rest -> ack_blocks lo (ack_additional n lo rest) = take n rest.
Proof.
  revert n lo. induction rest as [|[l h] rest IH]; intros n lo Hok; [by destruct n|].
  destruct n as [|n]; [done|]. cbn [ranges_ok] in Hok. destruct Hok as (H1 & H2 & H3).
  cbn [ack_additional ack_blocks take]. replace (lo - (lo - h - 2) - 2) with h by lia.
  destruct (h <? 0) eqn:E; bool_to_prop; [lia|]. replace (Z.max 0 (h - (h - l))) with l by lia.
  f_equal. by apply IH.
Qed.

Lemma ack_additional_ok n lo rest :
  ranges_ok (lo - 1) rest -> lo <= MAX_VARINT -> pairs_ok (ack_additional n lo rest) /\ (length (ack_additional n lo rest) <= n)%nat.
Proof.
  revert n lo. induction rest as [|[l h] rest IH]; intros n lo Hok Hlo; [destruct n; (split; [apply Forall_nil_2|cbn; lia])|].
  destruct n as [|n]; [split; [apply Forall_nil_2|cbn; lia]|].
  cbn [ranges_ok] in Hok. destruct Hok as (H1 & H2 & H3). cbn [ack_additional length].
  destruct (IH n l H3 ltac:(lia)) as [IH1 IH2]. split; [|lia]. apply Forall_cons_2; [cbn [fst snd]; lia|done].
Qed.

Lemma varint_wire_len v : 0 <= v <= MAX_VARINT -> zlen (varint_wire v) <= 8.
Proof.
  intros Hv. pose proof (push_varint_wire v [] Hv) as H. unfold push_varint in H. rewrite write_varint_cap in H by done.
  destruct (8 <? _) eqn:E; bool_to_prop; [done|lia].
Qed.

Lemma pairs_wire_zlen l : pairs_ok l -> zlen (pairs_wire l) <= 16 * zlen l.
Proof.
  induction 1 as [|[g n] l [Hg Hn] Hl IH]; [done|].
  change (pairs_wire _) with (pair_wire (g, n) ++ pairs_wire l). unfold pair_wire. cbn [fst snd] in *.
  rewrite !zlen_app, zlen_cons. pose proof (varint_wire_len g Hg). pose proof (varint_wire_len n Hn). lia.
Qed.

(** The frame always fits its buffer. *)
Lemma append_ack_frame_wire s :
  ranges_ok (MAX_VARINT + 1) (recv_ranges s) -> recv_ranges s <> [] ->
  exists largest first add,
    ack_ranges_from (recv_ranges s) = Some (largest, first, add) /\
    call_ok (CallAck largest 0 first add) /\
    append_ack_frame [] s = call_wire (CallAck largest 0 first add) /\
    frame_blocks largest first add = take 9 (recv_ranges s).
Proof.
  unfold append_ack_frame. destruct (recv_ranges s) as [|[lo hi] rest]; [done|]. intros (H1 & H2 & H3) _.
  exists hi, (hi - lo), (ack_additional MAX_ACK_ADDITIONAL lo rest). split; [done|]. cbn [ack_ranges_from].
  destruct (ack_additional_ok MAX_ACK_ADDITIONAL lo rest H3 ltac:(lia)) as [Ha Hn].
  set (add := ack_additional _ _ _) in *.
  assert (call_ok (CallAck hi 0 (hi - lo) add)) as Hc.
  { cbn [call_ok]. unfold is_varint. split; [lia|]. split; [done|]. split; [lia|]. split; [done|].
    assert (8 <= MAX_VARINT) by done. unfold zlen. lia. }
  split; [done|]. split.
  - pose proof (run_call_wire _ 192 Hc) as Hw. unfold call_answer in Hw. cbn [run_call into_vec orb] in Hw. rewrite Hw. clear Hw.
    destruct (zlen (call_wire _) <=? 192) eqn:E; [done|]. bool_to_prop. exfalso.
    unfold call_wire in E. cbn [call_layout fst snd concat] in E. rewrite zlen_cons, app_nil_r, !zlen_app in E.
    cbn [call_ok] in Hc. destruct Hc as (C1 & C2 & C3 & C4 & C5).
    pose proof (varint_wire_len _ C1). pose proof (varint_wire_len _ C2). pose proof (varint_wire_len _ C3).
    pose proof (varint_wire_len _ C5). pose proof (pairs_wire_zlen _ C4).
    assert (zlen add <= 8) by (unfold zlen; lia). lia.
  - unfold frame_blocks. replace (Z.max 0 (hi - (hi - lo))) with lo by lia.
    change (take 9 ((lo, hi) :: rest)) with ((lo, hi) :: take 8 rest). f_equal. by apply ack_additional_blocks.
Qed.

(** The largest number received is the top of the first range. *)
Definition top_of (l : list (Z * Z)) : option Z := snd <$> head l.

Lemma top_of_app (l1 l2 l2' : list (Z * Z)) : top_of l2 = top_of l2' -> top_of (l1 ++ l2) = top_of (l1 ++ l2').
Proof. by destruct l1. Qed.

Lemma merge_split_top top pn r l :
  splits top pn r l ->
  top_of (merge_split pn r l) = match r with [] => Some pn | _ => top_of (rev r ++ l) end.
Proof.
  intros (Hok & Hpn & Ha & Hb). unfold merge_split. destruct r as [|[la ha] r'].
  - destruct l as [|[lb hb] l']; [done|]. destruct (hb + 1 =? pn); [done|]. by case_match.
  - rewrite rev_cons_app. destruct (la =? pn + 1) eqn:Ea;
      (destruct l as [|[lb hb] l']; [|destruct (hb + 1 =? pn) eqn:Eb]); try case_match;
      rewrite ?rev_cons_app; try apply top_of_app; done.
Qed.

Lemma named_below top l k : ranges_ok top l -> named l k = true -> k < top.
Proof.
  revert top. induction l as [|[lo hi] l IH]; intros top; [done|]. cbn [ranges_ok]. intros (H1 & H2 & H3).
  rewrite named_cons, orb_true_iff, between_iff. cbn [fst snd]. intros [?|H]; [lia|]. specialize (IH _ H3 H). lia.
Qed.

Lemma record_recv_pn_top top pn s :
  recv_ok top s -> 0 <= pn < top -> top_of (recv_ranges s) = largest_recv_pn s ->
  top_of (recv_ranges (record_recv_pn pn s)) = largest_recv_pn (record_recv_pn pn s).
Proof.
  intros [Hok _] Hpn Ht. unfold record_recv_pn. cbn [recv_ranges largest_recv_pn]. rewrite <-Ht.
  destruct (recv_position pn 0 (recv_ranges s)) as [i|] eqn:E.
  - destruct (recv_position_split pn _ top i 0 Hok ltac:(lia) E) as (l1 & l2 & El & Hi & Ha & Hb).
    assert (exists r, l1 = rev r) as [r ->] by (exists (rev l1); by rewrite rev_involutive).
    rewrite El in *. rewrite length_rev in Hi. cbn [Nat.add] in Hi. subst i. rewrite merge_pn_split.
    rewrite (merge_split_top top).
    2:{ split; [done|]. split; [done|]. split; [|done]. destruct r as [|[la ha] r]; [done|].
        cbn [rev] in Ha. rewrite bottom_snoc in Ha. destruct Ha as [Ha|]; [|lia]. by destruct (rev r). }
    destruct r as [|[la ha] r].
    + destruct l2 as [|[lb hb] l2]; [done|]. cbn. f_equal. lia.
    + assert (pn < la) as Hla by (cbn [rev] in Ha; rewrite bottom_snoc in Ha; destruct Ha as [Ha|]; [by destruct (rev r)|lia]).
      rewrite rev_cons_app in *. apply ranges_ok_app in Hok as [Ho1 Ho2]. cbn [ranges_ok] in Ho2.
      destruct (rev r) as [|[lo hi] r'] eqn:Er; cbn; f_equal; [lia|].
      pose proof (ranges_ok_bottom top ((lo, hi) :: r') Ho1 ltac:(done)) as Hbt.
      cbn [ranges_ok] in Ho1. pose proof (ranges_ok_bottom (lo - 1) r').
      rewrite bottom_cons in Ho2. cbn [fst] in Ho2. destruct r' as [|e r']; [cbn in Ho2; lia|]. naive_solver lia.
  - pose proof (recv_position_none pn _ top 0 Hok E) as Hn.
    destruct (recv_ranges s) as [|[lo hi] l]; [done|]. cbn [ranges_ok] in Hok.
    rewrite named_cons, orb_true_iff, between_iff in Hn. cbn [fst snd] in Hn. cbn. f_equal.
    destruct Hn as [?|Hn]; [lia|]. destruct Hok as (? & ? & Hok). pose proof (named_below _ _ _ Hok Hn). lia.
Qed.

Lemma recv_all_top pns : Forall is_varint pns -> top_of (recv_ranges (recv_all pns)) = largest_recv_pn (recv_all pns).
Proof.
  induction pns as [|pn pns IH] using rev_ind; [done|]. intros Hv. destruct (Forall_app is_varint pns [pn]) as [Hf _].
  destruct (Hf Hv) as [Hv1 Hpn]. apply (Forall_singleton is_varint) in Hpn. rewrite recv_all_snoc.
  eapply record_recv_pn_top; [apply recv_all_ranges, Hv1| |by apply IH]. destruct Hpn. lia.
Qed.

(** C14: An ACK frame tells the truth from end to end.  Whatever packets arrived,
    in any order and with repetitions, the frame the receiver builds from its
    ranges fits its buffer, parses at the sender, and makes the sender drop from
    its in-flight ring exactly the packets the top nine ranges name; every
    packet named was received, the largest one is the largest received, and its
    record is the one handed out for the RTT sample.  While the table of ranges
    never filled and has nine ranges at most, every received packet is named. *)
Theorem ack_reports_received pns sp :
  Forall is_varint pns -> pns <> [] -> ring_ok sp -> pkts_ok (sent_iter sp) ->
  let s := recv_all pns in
  let frame := append_ack_frame [] s in
  exists largest first r,
    parse_frame frame = inr (Ack largest 0 first r None, zlen frame) /\
    let acked := named (take 9 (recv_ranges s)) in
    let '(sp', sample, bytes) := ack_remove_all largest first r sp in
    sent_iter sp' = pn_filter (fun pn => negb (acked pn)) (sent_iter sp) /\
    sample = btree_get largest (sent_iter sp) /\
    bytes = Z.min U32_MAX (flight_of (sent_iter sp) - flight_of (sent_iter sp')) /\
    (forall pn, acked pn = true -> pn ∈ pns /\ pn <= largest) /\ acked largest = true /\
    ((forall n, zlen (recv_ranges (recv_all (take n pns))) < MAX_RECV_RANGES) ->
     zlen (recv_ranges s) <= 9 -> forall pn, acked pn = true <-> pn ∈ pns).
Proof.
  intros Hv Hne Hr Hp s frame. destruct (recv_all_ranges pns Hv) as ([Hok _] & Hsound & Hfull).
  pose proof (recv_all_top pns Hv) as Htop. fold s in Hok, Hsound, Hfull, Htop.
  assert (recv_ranges s <> []) as Hs.
  { intros Es. rewrite Es in Htop. destruct pns as [|pn pns _] using rev_ind; [done|].
    unfold s in Htop. by rewrite recv_all_snoc in Htop. }
  destruct (append_ack_frame_wire s Hok Hs) as (largest & first & add & E1 & E2 & E3 & E4).
  exists largest, first, (mkAckRanges (pairs_wire add) (zlen add)). fold frame in E3. rewrite E3. split.
  { rewrite <-(app_nil_r (call_wire _)) at 1. by apply parse_call. }
  pose proof (ack_remove_all_spec largest first (mkAckRanges (pairs_wire add) (zlen add)) sp Hr Hp) as (R1 & R2 & R3 & R4).
  destruct (ack_remove_all _ _ _ _) as [[sp' sample] bytes]. cbn [fst snd] in *.
  rewrite ack_items_wire, E4 in * by apply E2.
  assert (largest <= MAX_VARINT /\ exists lo rest, recv_ranges s = (lo, largest) :: rest) as (Hlm & lo & rest & Er).
  { destruct (recv_ranges s) as [|[lo hi] rest]; [done|]. injection E1 as <- <- <-. cbn [ranges_ok] in Hok.
    split; [lia|by eexists _, _]. }
  rewrite Er in Hok. pose proof Hok as (K1 & K2 & K3).
  assert (named (take 9 (recv_ranges s)) largest = true) as Hl.
  { rewrite Er. change (take 9 ((lo, largest) :: rest)) with ((lo, largest) :: take 8 rest).
    rewrite named_cons, orb_true_iff, between_iff. cbn [fst snd]. lia. }
  rewrite Hl in R3. split; [done|]. split; [by destruct (btree_get _ _)|].
  split; [by rewrite R4, Z.add_0_l|].
  assert (forall k, named (take 9 (recv_ranges s)) k = true -> named (recv_ranges s) k = true) as Htake.
  { intros k Hk. rewrite <-(take_drop 9 (recv_ranges s)), named_app, orb_true_iff. by left. }
  split; [|split; [done|]].
  - intros k Hk%Htake. split; [auto|]. rewrite Er, named_cons, orb_true_iff, between_iff in Hk. cbn [fst snd] in Hk.
    destruct Hk as [?|Hk]; [lia|]. pose proof (named_below _ _ _ K3 Hk). lia.
  - intros Hnf H9 k. split; [by intros ?%Htake%Hsound|]. intros Hk. rewrite take_ge by (unfold zlen in H9; lia). auto.
Qed.

(* ------------------------------------------------------------------ *)
(** ** The ring against the map it replaced *)

Inductive RingOp :=
  | OpInsert (pn : Z) (pkt : SentPacket)
  | OpRemove (pn : Z)
  | OpClear.

Definition ring_step (op : RingOp) (s : SentPackets) : option SentPacket * SentPackets :=
  match op with
  | OpInsert pn pkt => (None, sent_insert pn pkt s)
  | OpRemove pn => sent_remove pn s
  | OpClear => (None, sent_clear s)
  end.

(** The same calls on a [BTreeMap]. *)
Definition map_step (op : RingOp) (m : list (Z * SentPacket)) : option SentPacket * list (Z * SentPacket) :=
  match op with
  | OpInsert pn pkt => (None, btree_insert pn pkt m)
  | OpRemove pn => (btree_get pn m, btree_remove pn m)
  | OpClear => (None, [])
  end.

Fixpoint run_ops {S} (step : RingOp -> S -> option SentPacket * S) (ops : list RingOp) (s : S)
    : list (option SentPacket) * S :=
  match ops with
  | [] => ([], s)
  | op :: ops => let (r, s) := step op s in let (rs, s) := run_ops step ops s in (r :: rs, s)
  end.

(** Packet numbers are inserted in ascending order, from [next] on. *)
Fixpoint monotone (next : Z) (ops : list RingOp) : Prop :=
  match ops with
  | [] => True
  | OpInsert pn _ :: ops => next <= pn /\ monotone (pn + 1) ops
  | _ :: ops => monotone next ops
  end.

Lemma btree_remove_filter k (m : list (Z * SentPacket)) :
  keys_sorted m -> btree_remove k m = pn_filter (fun pn => negb (pn =? k)) m.
Proof.
  induction m as [|[k' v] m IH]; [done|]. rewrite keys_sorted_cons, pn_filter_cons. intros [H1 H2].
  cbn [btree_remove fst]. rewrite Z.eqb_sym. destruct (k' =? k) eqn:E; bool_to_prop; cbn [negb].
  - subst. symmetry. apply pn_filter_id. eapply Forall_impl; [exact H2|]. intros e He. cbn in He. apply negb_true_iff, Z.eqb_neq. lia.
  - by rewrite IH.
Qed.

Lemma ring_step_ok op next ops s :
  ring_next next s -> monotone next (op :: ops) ->
  (ring_step op s).1 = (map_step op (sent_iter s)).1 /\
  sent_iter (ring_step op s).2 = (map_step op (sent_iter s)).2 /\
  exists next', ring_next next' (ring_step op s).2 /\ monotone next' ops.
Proof.
  intros Hs Hm. destruct op as [pn pkt|pn|]; cbn [ring_step map_step monotone fst snd] in *.
  - destruct Hm as [Hm1 Hm2]. destruct (sent_insert_next next pn pkt s Hs Hm1) as (H1 & _ & H3).
    split; [done|]. split; [done|]. by exists (pn + 1).
  - destruct (sent_remove_spec pn s) as (H1 & H2 & _); [by destruct Hs|]. split; [done|].
    rewrite btree_remove_filter by apply sent_iter_sorted. split; [done|]. exists next.
    split; [by apply sent_remove_next|done].
  - split; [done|]. split; [done|]. exists next. split; [|done]. split; [apply ring_default_ok|].
    split; [apply Hs|by left].
Qed.

Lemma run_ops_ok ops next s :
  ring_next next s -> monotone next ops ->
  (run_ops ring_step ops s).1 = (run_ops map_step ops (sent_iter s)).1 /\
  sent_iter (run_ops ring_step ops s).2 = (run_ops map_step ops (sent_iter s)).2 /\
  ring_ok (run_ops ring_step ops s).2.
Proof.
  revert next s. induction ops as [|op ops IH]; intros next s Hs Hm; [by destruct Hs|].
  destruct (ring_step_ok op next ops s Hs Hm) as (H1 & H2 & next' & H3 & H4). cbn [run_ops].
  destruct (ring_step op s) as [r s1]. destruct (map_step op (sent_iter s)) as [r' m1]. cbn [fst snd] in *. subst.
  destruct (IH next' s1 H3 H4) as (I1 & I2 & I3).
  destruct (run_ops ring_step ops s1) as [rs s2]. destruct (run_ops map_step ops (sent_iter s1)) as [rs' m2].
  cbn [fst snd] in *. by subst.
Qed.

(** C15: The ring of in-flight packets is the ordered map it replaced: through any
    calls that insert packet numbers in ascending order, remove any numbers and
    clear, every removal returns what the map returns, the iteration yields the
    same packets in the same ascending order, the live count is the map's size,
    and a ring that is not empty starts at its oldest unresolved packet. *)
Theorem sent_packets_refines_map ops :
  monotone 0 ops ->
  let '(rs, s) := run_ops ring_step ops sent_default in
  let '(rs', m) := run_ops map_step ops [] in
  rs = rs' /\ sent_iter s = m /\ live s = zlen m /\ sent_is_empty s = (zlen m =? 0) /\
  (slots s <> [] -> exists p, btree_get (base_pn s) m = Some p).
Proof.
  intros Hm. assert (ring_next 0 sent_default) as H0 by (split; [apply ring_default_ok|by split; [|left]]).
  destruct (run_ops_ok ops 0 sent_default H0 Hm) as (H1 & H2 & [H3 H4 H5]).
  change (sent_iter sent_default) with (@nil (Z * SentPacket)) in *.
  destruct (run_ops ring_step ops sent_default) as [rs s]. destruct (run_ops map_step ops []) as [rs' m].
  cbn [fst snd] in *. subst. split; [done|]. split; [done|]. split; [done|].
  split; [unfold sent_is_empty; by rewrite H4|]. unfold sent_iter.
  destruct (slots s) as [|[p|] l]; [done| |by destruct (H5 l)]. intros _. exists p. cbn. by rewrite Z.eqb_refl.
Qed.

(** The ring with a log of the numbers looked up in it. *)
Definition logged_remove (pn : Z) (r : SentPackets * list Z) : option SentPacket * (SentPackets * list Z) :=
  let (taken, sp) := sent_remove pn r.1 in (taken, (sp, r.2 ++ [pn])).

(** The log adds nothing to what the walk does, and has an entry per turn. *)
Lemma logged_loop n pn target sp log lo acked :
  let '(sp', lo', acked') := ack_remove_loop sent_remove n pn target (sp, lo, acked) in
  exists log', ack_remove_loop logged_remove n pn target (sp, log, lo, acked) = (sp', log', lo', acked') /\
    zlen log' = zlen log + Z.of_nat n.
Proof.
  revert pn sp log lo acked. induction n as [|n IH]; intros pn sp log lo acked; cbn [ack_remove_loop].
  { exists log. split; [done|lia]. }
  unfold logged_remove. cbn [fst snd]. destruct (sent_remove pn sp) as [[pkt|] sp1]; fold logged_remove;
    (match goal with |- context [ack_remove_loop sent_remove n ?p ?t (?x, ?y, ?z)] => specialize (IH p x (log ++ [pn]) y z) end);
    destruct (ack_remove_loop sent_remove n _ _ _) as [[sp' lo'] acked']; destruct IH as (log' & E & Hl);
    exists log'; (split; [exact E|]); rewrite Hl, zlen_app, zlen_cons, zlen_nil; lia.
Qed.

(** C32: The cost of an ACK frame is chosen by the peer, not by what was sent to
    it.  For any [n] below 2^62 there is a frame of at most 19 bytes that parses
    and makes the walk look up [n + 1] packet numbers in the ring, whatever is in
    flight: the walk over a ring that logs its lookups does to the ring what
    [process_ack] does and logs [n + 1] of them.  On an empty ring all of them are
    in vain. *)
Theorem ack_cost_unbounded n :
  is_varint n ->
  exists payload r,
    zlen payload <= 19 /\ parse_frame payload = inr (Ack n 0 n r None, zlen payload) /\
    forall sp, exists sp' sample bytes log,
      ack_remove_with logged_remove n n r (sp, []) = (sp', log, sample, bytes) /\
      ack_remove_all n n r sp = (sp', sample, bytes) /\ zlen log = n + 1 /\
      (sp = sent_default -> sent_iter sp' = [] /\ sample = None /\ bytes = 0).
Proof.
  intros Hn. assert (call_ok (CallAck n 0 n [])) as Hc by (split_and!; done || apply Forall_nil_2).
  exists (call_wire (CallAck n 0 n [])), (mkAckRanges [] 0). split; [|split].
  - unfold call_wire. cbn [call_layout fst snd concat pairs_wire map]. rewrite zlen_cons, !zlen_app.
    pose proof (varint_wire_len n Hn).
    change (zlen (varint_wire 0)) with 1. change (zlen (varint_wire (zlen (@nil (Z * Z))))) with 1.
    change (zlen (@nil Z)) with 0. lia.
  - rewrite <-(app_nil_r (call_wire _)) at 1. by apply parse_call.
  - intros sp. pose proof (ack_remove_all_spec n n (mkAckRanges [] 0) sp) as Hspec.
    unfold ack_remove_all, ack_remove_with, sat_sub, ack_remove_range in *.
    cbn [ack_items ack_items_from ar_bytes length ack_walk] in *. rewrite Z.sub_diag in *. destruct Hn as [Hn _].
    change (Z.max 0 0) with 0 in *. destruct (n <? 0) eqn:E; bool_to_prop; [lia|].
    pose proof (logged_loop (Z.to_nat (n - 0 + 1)) n n sp [] None 0) as HL.
    destruct (ack_remove_loop sent_remove _ n n (sp, None, 0)) as [[sp' sample] bytes].
    destruct HL as (log & E1 & E2). exists sp', sample, bytes, log. split; [exact E1|]. split; [done|].
    split; [rewrite E2, zlen_nil; lia|]. intros ->.
    destruct Hspec as (R1 & R2 & R3 & R4); [apply ring_default_ok|apply Forall_nil_2|].
    cbn [fst snd] in *. rewrite R2 in R4. split; [exact R2|]. split; [rewrite R3; by case_match|by rewrite R4].
Qed.

Definition sample_pkt (n : Z) : SentPacket := mkSentPacket 0 true true n [mkStreamRetx 0 0 false [1]] [] [].
Definition sample_ring : SentPackets := mkSentPackets 3 [Some (sample_pkt 10); None; Some (sample_pkt 20); Some (sample_pkt 30)] 3.

Lemma ack_reports_received_witness :
  let s := recv_all [0; 5; 3; 5; 4; 9] in
  recv_ranges s = [(9, 9); (3, 5); (0, 0)] /\
  exists largest first r, parse_frame (append_ack_frame [] s) = inr (Ack largest 0 first r None, zlen (append_ack_frame [] s)).
Proof.
  split; [done|].
  destruct (ack_reports_received [0; 5; 3; 5; 4; 9] sample_ring) as (l & f & r & H & _).
  - repeat (apply Forall_cons_2; [by split|]). apply Forall_nil_2.
  - done.
  - by split.
  - repeat (apply Forall_cons_2; [done|]). apply Forall_nil_2.
  - by exists l, f, r.
Defined.

Lemma sent_packets_refines_map_witness :
  let ops := [OpInsert 0 (sample_pkt 1); OpInsert 1 (sample_pkt 2); OpRemove 0; OpInsert 4 (sample_pkt 3); OpRemove 7] in
  sent_iter (run_ops ring_step ops sent_default).2 = [(1, sample_pkt 2); (4, sample_pkt 3)].
Proof.
  intros ops. pose proof (sent_packets_refines_map ops ltac:(by repeat split)) as H.
  change (run_ops map_step ops []) with ([None; None; Some (sample_pkt 1); None; None], [(1, sample_pkt 2); (4, sample_pkt 3)]) in H.
  destruct (run_ops ring_step ops sent_default) as [rs s]. apply H.
Defined.

Lemma ack_cost_unbounded_witness :
  exists payload r log, zlen payload <= 19 /\
    parse_frame payload = inr (Ack 4611686018427387903 0 4611686018427387903 r None, zlen payload) /\
    (ack_remove_with logged_remove 4611686018427387903 4611686018427387903 r (sample_ring, [])).1.1.2 = log /\
    zlen log = 4611686018427387904.
Proof.
  destruct (ack_cost_unbounded 4611686018427387903) as (p & r & H1 & H2 & H3); [by split|].
  destruct (H3 sample_ring) as (sp' & sample & bytes & log & E & _ & Hl & _). exists p, r, log. by rewrite E.
Defined.
