(* ===== verification/QuicLoss.v ===== *)
(** * QUIC loss recovery (crates/proto/quic/src/conn/loss.rs)

    The sending side of a connection's three packet-number spaces: what goes into
    flight, what an ACK frame releases, which packets are declared lost and what
    becomes of the frames they carried, the RTT estimate and the probe timer. *)

From S2P Require Import Prelude.
From S2P Require Import CongestionControl.
From S2P Require Import Loss.
From S2P Require Import NetTypes.
From S2P Require Import QuicWire.
From S2P Require Import QuicFrame.
From S2P Require Import QuicStreams.
From S2P Require Import QuicCrypto.
From S2P Require Import QuicSpace.

#[local] Open Scope st_scope.

#[export] Instance crypto_level_eq_dec : EqDecision CryptoLevel.
Proof. solve_decision. Defined.

(** One value per packet-number space, indexed by the encryption level. *)
Record PerLevel (A : Type) := mkPerLevel { at_initial : A; at_handshake : A; at_onertt : A }.
Arguments mkPerLevel {A} _ _ _.
Arguments at_initial {A} _.
Arguments at_handshake {A} _.
Arguments at_onertt {A} _.

Definition level_get {A} (l : CryptoLevel) (p : PerLevel A) : A :=
  match l with
  | LevelInitial => at_initial p
  | LevelHandshake => at_handshake p
  | LevelOneRtt => at_onertt p
  end.

Definition level_set {A} (l : CryptoLevel) (v : A) (p : PerLevel A) : PerLevel A :=
  match l with
  | LevelInitial => mkPerLevel v (at_handshake p) (at_onertt p)
  | LevelHandshake => mkPerLevel (at_initial p) v (at_onertt p)
  | LevelOneRtt => mkPerLevel (at_initial p) (at_handshake p) v
  end.

(** The fields of [Connection] the sending side works on, streams apart. *)
Record Sender := mkSender {
  s_spaces : PerLevel SpaceState;
  s_last_eliciting : PerLevel (option Z);
  s_smoothed_rtt : option Z;
  s_latest_rtt : option Z;
  s_min_rtt : option Z;
  s_rttvar : Z;
  s_pto_count : Z;
  s_peer_max_ack_delay_us : Z;
  s_peer_ack_delay_exponent : Z;
  s_cc : Controller.t;
  s_bytes_in_flight : Z;
  s_retx_queue : list StreamRetx;
  s_retx_bytes : Z;
  s_crypto_retx_queue : list CryptoRetx;
  s_pending_stream_frames : list StreamRetx;
  s_pending_crypto_frames : list CryptoRetx;
  s_pending_ctrl_frames : list CtrlRetx;
  s_pending_reset_streams : list (Z * Z * Z);
  s_pending_stop_sending : list (Z * Z);
  s_aborted_sids : list Z;
}.

Definition eta_sender (s : Sender) : Sender :=
  mkSender (s_spaces s) (s_last_eliciting s) (s_smoothed_rtt s) (s_latest_rtt s) (s_min_rtt s)
    (s_rttvar s) (s_pto_count s) (s_peer_max_ack_delay_us s) (s_peer_ack_delay_exponent s) (s_cc s)
    (s_bytes_in_flight s) (s_retx_queue s) (s_retx_bytes s) (s_crypto_retx_queue s)
    (s_pending_stream_frames s) (s_pending_crypto_frames s) (s_pending_ctrl_frames s)
    (s_pending_reset_streams s) (s_pending_stop_sending s) (s_aborted_sids s).

Definition set_spaces (v : PerLevel SpaceState) (s : Sender) : Sender :=
  ltac:(set_field eta_sender s_spaces s v).
Definition set_last_eliciting (v : PerLevel (option Z)) (s : Sender) : Sender :=
  ltac:(set_field eta_sender s_last_eliciting s v).
Definition set_smoothed_rtt (v : option Z) (s : Sender) : Sender :=
  ltac:(set_field eta_sender s_smoothed_rtt s v).
Definition set_latest_rtt (v : option Z) (s : Sender) : Sender :=
  ltac:(set_field eta_sender s_latest_rtt s v).
Definition set_min_rtt (v : option Z) (s : Sender) : Sender :=
  ltac:(set_field eta_sender s_min_rtt s v).
Definition set_rttvar (v : Z) (s : Sender) : Sender :=
  ltac:(set_field eta_sender s_rttvar s v).
Definition set_pto_count (v : Z) (s : Sender) : Sender :=
  ltac:(set_field eta_sender s_pto_count s v).
Definition set_cc (v : Controller.t) (s : Sender) : Sender :=
  ltac:(set_field eta_sender s_cc s v).
Definition set_bytes_in_flight (v : Z) (s : Sender) : Sender :=
  ltac:(set_field eta_sender s_bytes_in_flight s v).
Definition set_retx (q : list StreamRetx) (n : Z) (s : Sender) : Sender :=
  let s := ltac:(set_field eta_sender s_retx_queue s q) in
  ltac:(set_field eta_sender s_retx_bytes s n).
Definition set_crypto_retx (v : list CryptoRetx) (s : Sender) : Sender :=
  ltac:(set_field eta_sender s_crypto_retx_queue s v).
Definition set_pending_stream (v : list StreamRetx) (s : Sender) : Sender :=
  ltac:(set_field eta_sender s_pending_stream_frames s v).
Definition set_pending_crypto (v : list CryptoRetx) (s : Sender) : Sender :=
  ltac:(set_field eta_sender s_pending_crypto_frames s v).
Definition set_pending_ctrl (v : list CtrlRetx) (s : Sender) : Sender :=
  ltac:(set_field eta_sender s_pending_ctrl_frames s v).
Definition set_pending_resets (v : list (Z * Z * Z)) (s : Sender) : Sender :=
  ltac:(set_field eta_sender s_pending_reset_streams s v).
Definition set_pending_stops (v : list (Z * Z)) (s : Sender) : Sender :=
  ltac:(set_field eta_sender s_pending_stop_sending s v).
Definition set_aborted_sids (v : list Z) (s : Sender) : Sender :=
  ltac:(set_field eta_sender s_aborted_sids s v).

Definition space_at (l : CryptoLevel) (s : Sender) : SpaceState := level_get l (s_spaces s).
Definition set_space (l : CryptoLevel) (v : SpaceState) (s : Sender) : Sender :=
  set_spaces (level_set l v (s_spaces s)) s.

Abbreviation MAX_QUIC_DATAGRAM := 1400%Z (only parsing).

(** A new connection's sending side. *)
Definition sender_new : Sender :=
  mkSender (mkPerLevel space_default space_default space_default) (mkPerLevel None None None)
    None None None 0 0 25000 3 (Controller.new MAX_QUIC_DATAGRAM) 0 [] 0 [] [] [] [] [] [] [].

(* ------------------------------------------------------------------ *)
(** ** Timers and estimates *)

Definition pto_period_us (s : Sender) : Z :=
  let base :=
    match s_smoothed_rtt s with
    | None => 333000 + 1000
    | Some srtt => w64 (w64 (srtt + Z.max (w64 (4 * s_rttvar s)) 1000) + s_peer_max_ack_delay_us s)
    end in
  sat_mul64 base (Z.shiftl 1 (Z.min (s_pto_count s) 10)).

(** The earliest deadline over the spaces. *)
Definition min_opt (a b : option Z) : option Z :=
  match a, b with
  | Some x, Some y => Some (Z.min x y)
  | Some x, None | None, Some x => Some x
  | None, None => None
  end.

Definition pto_deadline_us (s : Sender) : option Z :=
  let pto := pto_period_us s in
  let at_ l := (fun x => w64 (x + pto)) <$> level_get l (s_last_eliciting s) in
  min_opt (at_ LevelInitial) (min_opt (at_ LevelHandshake) (at_ LevelOneRtt)).

Definition update_rtt (latest peer_ack_delay_us : Z) : St Sender unit :=
  modify (fun s =>
    let min := match s_min_rtt s with Some x => Z.min x latest | None => latest end in
    let adjusted :=
      if w64 (min + peer_ack_delay_us) <? latest then latest - peer_ack_delay_us else latest in
    let s := s |> set_latest_rtt (Some latest) |> set_min_rtt (Some min) in
    match s_smoothed_rtt s with
    | None => s |> set_smoothed_rtt (Some adjusted) |> set_rttvar (adjusted / 2)
    | Some srtt =>
        s |> set_rttvar (w64 (w64 (3 * s_rttvar s) + Z.abs (srtt - adjusted)) / 4)
          |> set_smoothed_rtt (Some (w64 (w64 (7 * srtt) + adjusted) / 8))
    end).

(* ------------------------------------------------------------------ *)
(** ** Sending *)

Definition record_sent_packet (now : Z) (level : CryptoLevel) (pn : Z) (eliciting : bool)
    (bytes : Z) : St Sender unit :=
  modify (fun s =>
    let pkt := mkSentPacket now eliciting eliciting bytes (s_pending_stream_frames s)
                 (s_pending_crypto_frames s) (s_pending_ctrl_frames s) in
    let s := s |> set_pending_stream [] |> set_pending_crypto [] |> set_pending_ctrl [] in
    let space := space_at level s in
    let s := set_space level (set_sent_packets (sent_insert pn pkt (sent_packets space)) space) s in
    if eliciting then
      s |> set_last_eliciting (level_set level (Some now) (s_last_eliciting s))
        |> set_bytes_in_flight (sat_add32 (s_bytes_in_flight s) bytes)
    else s).

(** [next_send_pn], then [next_send_pn += 1]. *)
Definition take_pn (level : CryptoLevel) : St Sender Z :=
  fun s =>
    let sp := space_at level s in
    (next_send_pn sp,
     set_space level (mkSpace (next_send_pn sp + 1) (largest_recv_pn sp) (ack_pending sp)
                        (largest_acked sp) (sent_packets sp) (recv_ranges sp)) s).

Definition discard_sent_packets (level : CryptoLevel) : St Sender unit :=
  modify (fun s =>
    let space := space_at level s in
    let freed := w32 (foldr (fun p n => byte_count p + n) 0
                        (List.filter in_flight (sent_values (sent_packets space)))) in
    s |> set_space level (set_sent_packets (sent_clear (sent_packets space)) space)
      |> set_bytes_in_flight (sat_sub (s_bytes_in_flight s) freed)).

(* ------------------------------------------------------------------ *)
(** ** Losses *)

Definition send_aborted (sid : Z) (s : Sender) : bool := existsb (Z.eqb sid) (s_aborted_sids s).

(** What the loop over the lost packet numbers gathers. *)
Record LostGather := mkGather {
  g_ring : SentPackets;
  g_bytes : Z;
  g_frames : list StreamRetx;
  g_crypto : list CryptoRetx;
  g_ctrl : list CtrlRetx
}.

Fixpoint gather_lost (lost : list Z) (g : LostGather) : LostGather :=
  match lost with
  | [] => g
  | pn :: lost =>
      let (taken, ring) := sent_remove pn (g_ring g) in
      gather_lost lost
        match taken with
        | None => mkGather ring (g_bytes g) (g_frames g) (g_crypto g) (g_ctrl g)
        | Some p =>
            mkGather ring (if in_flight p then sat_add32 (g_bytes g) (byte_count p) else g_bytes g)
              (g_frames g ++ stream_frames p) (g_crypto g ++ crypto_frames p) (g_ctrl g ++ ctrl_frames p)
        end
  end.

Fixpoint requeue_ctrl (l : list CtrlRetx) (s : Sender) : Sender :=
  match l with
  | [] => s
  | CtrlReset sid code final :: l =>
      requeue_ctrl l (set_pending_resets (s_pending_reset_streams s ++ [(sid, code, final)]) s)
  | CtrlStop sid code :: l =>
      requeue_ctrl l (set_pending_stops (s_pending_stop_sending s ++ [(sid, code)]) s)
  end.

(** The lost packet numbers of a space, by the shared loss core. *)
Definition lost_pns (now : Z) (level : CryptoLevel) (s : Sender) : list Z :=
  match largest_acked (space_at level s) with
  | None => []
  | Some la =>
      let ack_delay := match level with LevelOneRtt => s_peer_max_ack_delay_us s | _ => 0 end in
      let params := rfc9002 (default 0 (s_smoothed_rtt s)) (default 0 (s_latest_rtt s)) 1000 ack_delay in
      map fst (detect params la now
                 (map (fun e => (e.1, time_sent_us e.2)) (sent_iter (sent_packets (space_at level s))))).1
  end.

Definition detect_loss (now : Z) (level : CryptoLevel) : St Sender unit :=
  modify (fun s =>
    match largest_acked (space_at level s) with
    | None => s
    | Some _ =>
        let space := space_at level s in
        let g := gather_lost (lost_pns now level s) (mkGather (sent_packets space) 0 [] [] []) in
        let s := set_space level (set_sent_packets (g_ring g) space) s in
        let s := set_bytes_in_flight (sat_sub (s_bytes_in_flight s) (g_bytes g)) s in
        let s := if 0 <? g_bytes g then set_cc (Controller.on_loss (g_bytes g) false (s_cc s)) s else s in
        let kept := List.filter (fun f => negb (send_aborted (sr_sid f) s)) (g_frames g) in
        let s := set_retx (s_retx_queue s ++ kept)
                   (foldl (fun n f => sat_add32 n (w32 (zlen (sr_data f)))) (s_retx_bytes s) kept) s in
        let s := requeue_ctrl (g_ctrl g) s in
        set_crypto_retx (s_crypto_retx_queue s ++ g_crypto g) s
    end).

(* ------------------------------------------------------------------ *)
(** ** Acknowledgements *)

(** The ranges' removal, the largest acknowledged, and whether the space emptied. *)
Definition ack_space (level : CryptoLevel) (largest first : Z) (ranges : AckRanges)
    : St Sender (option SentPacket * Z * bool) :=
  fun s =>
    let space := space_at level s in
    let la := Some (match largest_acked space with Some x => Z.max x largest | None => largest end) in
    let '(sp, pkt, acked) := ack_remove_all largest first ranges (sent_packets space) in
    ((pkt, acked, sent_is_empty sp),
     set_space level (set_sent_packets sp (set_largest_acked la space)) s).

Definition process_ack (now : Z) (level : CryptoLevel) (largest ack_delay first : Z)
    (ranges : AckRanges) : St Sender unit :=
  r <- ack_space level largest first ranges;;
  let '(largest_pkt, acked_bytes, space_now_empty) := r in
  delay <- gets (fun s => Z.min (sat_mul64 ack_delay (Z.shiftl 1 (s_peer_ack_delay_exponent s)))
                            (s_peer_max_ack_delay_us s));;
  match largest_pkt with
  | Some pkt => swhen (ack_eliciting pkt) (update_rtt (sat_sub now (time_sent_us pkt)) delay)
  | None => sret tt
  end;;
  modify (fun s => set_bytes_in_flight (sat_sub (s_bytes_in_flight s) acked_bytes) s);;
  swhen (0 <? acked_bytes)
    (modify (fun s =>
       let rtt := mkRtt (w32 (default 0 (s_smoothed_rtt s))) (w32 (default 0 (s_min_rtt s))) in
       s |> set_pto_count 0
         |> set_cc (Controller.on_ack acked_bytes (s_bytes_in_flight s) rtt (now / 1000) (s_cc s))));;
  detect_loss now level;;
  swhen space_now_empty
    (modify (fun s => set_last_eliciting (level_set level None (s_last_eliciting s)) s)).

(* ------------------------------------------------------------------ *)
(** ** Probes *)

(** The level whose last ack-eliciting packet is the oldest; the first on a tie. *)
Definition oldest_level (s : Sender) : option CryptoLevel :=
  let pick (best : option (CryptoLevel * Z)) l :=
    match level_get l (s_last_eliciting s), best with
    | None, _ => best
    | Some x, Some (_, y) => if x <? y then Some (l, x) else best
    | Some x, None => Some (l, x)
    end in
  fst <$> pick (pick (pick None LevelInitial) LevelHandshake) LevelOneRtt.

(** [probe_len]: the wire length of a sealed PING at a level, [None] without keys
    to seal it. *)
Definition send_pto_probe (now : Z) (probe_len : CryptoLevel -> option Z) : St Sender bool :=
  o <- gets oldest_level;;
  match o with
  | None => sret false
  | Some level =>
      match probe_len level with
      | None => sret false
      | Some len =>
          pn <- take_pn level;;
          record_sent_packet now level pn true len;;
          modify (fun s => set_pto_count (sat_add32 (s_pto_count s) 1) s);;
          c <- gets s_pto_count;;
          swhen (c =? 2) (modify (fun s => set_cc (Controller.on_rto (s_cc s)) s));;
          sret true
      end
  end.

(* ------------------------------------------------------------------ *)
(** ** Accounting *)

(** Everything of one kind that a set of packets carries. *)
Definition collect {A} (f : SentPacket -> list A) (m : list (Z * SentPacket)) : list A :=
  concat (map (fun e => f e.2) m).

Lemma collect_cons {A} (f : SentPacket -> list A) e m : collect f (e :: m) = f e.2 ++ collect f m.
Proof. done. Qed.

(** Packets kept and packets taken. *)
Lemma collect_split {A} (f : SentPacket -> list A) K m :
  collect f m ≡ₚ collect f (pn_filter K m) ++ collect f (pn_filter (fun pn => negb (K pn)) m).
Proof.
  induction m as [|e m IH]; [done|]. rewrite !pn_filter_cons. destruct (K e.1); cbn [negb]; rewrite !collect_cons, IH.
  - by rewrite app_assoc.
  - rewrite !app_assoc. apply Permutation_app_tail, Permutation_app_comm.
Qed.

Lemma pn_filter_one k m :
  keys_sorted m -> pn_filter (fun pn => pn =? k) m = match btree_get k m with Some p => [(k, p)] | None => [] end.
Proof.
  induction m as [|[k' v] m IH]; [done|]. rewrite keys_sorted_cons, pn_filter_cons. intros [H1 H2].
  cbn [fst btree_get]. rewrite Z.eqb_sym. destruct (k =? k') eqn:E; bool_to_prop; [|auto].
  subst. f_equal. rewrite IH by done. rewrite btree_get_below; [done|]. eapply Forall_impl; [exact H2|]. cbn. lia.
Qed.

Lemma collect_remove {A} (f : SentPacket -> list A) k m :
  keys_sorted m ->
  collect f m ≡ₚ match btree_get k m with Some p => f p | None => [] end ++
                 collect f (pn_filter (fun pn => negb (pn =? k)) m).
Proof.
  intros Hs. rewrite (collect_split f (fun pn => pn =? k)), pn_filter_one by done.
  destruct (btree_get k m); [|done]. unfold collect at 1. cbn [map concat snd]. by rewrite app_nil_r.
Qed.

Lemma collect_insert {A} (f : SentPacket -> list A) k p m :
  btree_get k m = None -> collect f (btree_insert k p m) ≡ₚ f p ++ collect f m.
Proof.
  induction m as [|[k' v] m IH]; [done|]. cbn [btree_get btree_insert]. destruct (k =? k') eqn:E; [done|]. intros Hn.
  destruct (k <? k'); [done|]. rewrite !collect_cons. cbn [snd]. rewrite IH by done.
  rewrite !app_assoc. apply Permutation_app_tail, Permutation_app_comm.
Qed.

Definition inflight (l : CryptoLevel) (s : Sender) : list (Z * SentPacket) :=
  sent_iter (sent_packets (space_at l s)).

Definition all_inflight (s : Sender) : list (Z * SentPacket) :=
  inflight LevelInitial s ++ inflight LevelHandshake s ++ inflight LevelOneRtt s.

Definition retx_sum (q : list StreamRetx) : Z := foldr (fun f n => zlen (sr_data f) + n) 0 q.

(** The frames the connection still answers for, by kind: in flight, queued to be
    sent again, or staged for the packet being built. *)
Definition owed_stream (s : Sender) : list StreamRetx :=
  collect stream_frames (all_inflight s) ++ s_retx_queue s ++ s_pending_stream_frames s.
Definition owed_crypto (s : Sender) : list CryptoRetx :=
  collect crypto_frames (all_inflight s) ++ s_crypto_retx_queue s ++ s_pending_crypto_frames s.
Definition queued_ctrl (s : Sender) : list CtrlRetx :=
  map (fun e => CtrlReset e.1.1 e.1.2 e.2) (s_pending_reset_streams s) ++
  map (fun e => CtrlStop e.1 e.2) (s_pending_stop_sending s).
Definition owed_ctrl (s : Sender) : list CtrlRetx :=
  collect ctrl_frames (all_inflight s) ++ queued_ctrl s ++ s_pending_ctrl_frames s.

(** A packet is at least as long as the stream data in it. *)
Definition carries (e : Z * SentPacket) : Prop := retx_sum (stream_frames e.2) <= pkt_flight e.2.

Definition space_ok (sp : SpaceState) : Prop :=
  ring_next (next_send_pn sp) (sent_packets sp) /\ pkts_ok (sent_iter (sent_packets sp)) /\
  Forall carries (sent_iter (sent_packets sp)).

(** The sender's books: every ring is well formed and below its next number, the
    counters are the sums they stand for, and the sums fit their width. *)
Record books (s : Sender) : Prop := {
  bk_space : forall l, space_ok (space_at l s);
  bk_flight : s_bytes_in_flight s = flight_of (all_inflight s);
  bk_retx : s_retx_bytes s = retx_sum (s_retx_queue s);
  bk_width : flight_of (all_inflight s) + retx_sum (s_retx_queue s) <= U32_MAX
}.

Lemma retx_sum_app q1 q2 : retx_sum (q1 ++ q2) = retx_sum q1 + retx_sum q2.
Proof. unfold retx_sum. induction q1 as [|f q1 IH]; cbn [app foldr]; [done|]. rewrite IH. lia. Qed.

Lemma retx_sum_nonneg q : 0 <= retx_sum q.
Proof. unfold retx_sum. induction q as [|f q IH]; cbn [foldr]; [done|]. pose proof (zlen_nonneg (sr_data f)). lia. Qed.

Lemma retx_sum_filter P q : retx_sum (List.filter P q) <= retx_sum q.
Proof.
  unfold retx_sum. induction q as [|f q IH]; cbn [List.filter foldr]; [done|].
  pose proof (zlen_nonneg (sr_data f)). case_match; cbn [foldr]; lia.
Qed.

Lemma retx_count_exact q n :
  0 <= n -> n + retx_sum q <= U32_MAX ->
  foldl (fun n f => sat_add32 n (w32 (zlen (sr_data f)))) n q = n + retx_sum q.
Proof.
  revert n. induction q as [|f q IH]; intros n Hn Hw; cbn [foldl retx_sum foldr] in *; [lia|].
  pose proof (zlen_nonneg (sr_data f)). pose proof (retx_sum_nonneg q) as Hq. unfold retx_sum in Hq.
  rewrite (w32_small (zlen (sr_data f))) by (unfold is_u32; lia). unfold sat_add32 at 2. rewrite Z.min_r by lia.
  rewrite IH by (unfold retx_sum; lia). unfold retx_sum. lia.
Qed.

Lemma collect_app {A} (f : SentPacket -> list A) m1 m2 : collect f (m1 ++ m2) = collect f m1 ++ collect f m2.
Proof. unfold collect. by rewrite map_app, concat_app. Qed.

Lemma flight_of_app m1 m2 : flight_of (m1 ++ m2) = flight_of m1 + flight_of m2.
Proof.
  unfold flight_of, sum_by. induction m1 as [|e m1 IH]; cbn [app foldr]; [done|]. rewrite IH. lia.
Qed.

Lemma space_at_set l l' v s : space_at l' (set_space l v s) = if decide (l = l') then v else space_at l' s.
Proof. by destruct l, l'. Qed.

(** The packets of the other spaces. *)
Definition others (l : CryptoLevel) (s : Sender) : list (Z * SentPacket) :=
  match l with
  | LevelInitial => inflight LevelHandshake s ++ inflight LevelOneRtt s
  | LevelHandshake => inflight LevelInitial s ++ inflight LevelOneRtt s
  | LevelOneRtt => inflight LevelInitial s ++ inflight LevelHandshake s
  end.

Lemma all_inflight_level l s : all_inflight s ≡ₚ inflight l s ++ others l s.
Proof.
  unfold all_inflight. destruct l; cbn [others]; [done| |].
  - rewrite !app_assoc. apply Permutation_app_tail, Permutation_app_comm.
  - rewrite (app_assoc (inflight LevelInitial s)). apply Permutation_app_comm.
Qed.

#[export] Instance collect_proper {A} (f : SentPacket -> list A) : Proper ((≡ₚ) ==> (≡ₚ)) (collect f).
Proof. intros m1 m2 H. unfold collect. by rewrite H. Qed.

#[export] Instance flight_of_proper : Proper ((≡ₚ) ==> (=)) flight_of.
Proof. induction 1; unfold flight_of, sum_by in *; cbn [foldr] in *; lia. Qed.

Lemma others_set l v s : others l (set_space l v s) = others l s.
Proof. by destruct l. Qed.

Lemma inflight_set l v s : inflight l (set_space l v s) = sent_iter (sent_packets v).
Proof. by destruct l. Qed.

(** The gathering loop from a ring with the packets [m0]: what it has taken out and
    what is still in the ring make up [m0]. *)
Record gathered (n : Z) (m0 : list (Z * SentPacket)) (g : LostGather) : Prop := {
  ga_ring : ring_next n (g_ring g);
  ga_pkts : pkts_ok (sent_iter (g_ring g));
  ga_carry : Forall carries (sent_iter (g_ring g));
  ga_data : retx_sum (g_frames g) <= g_bytes g;
  ga_bytes : g_bytes g = flight_of m0 - flight_of (sent_iter (g_ring g));
  ga_stream : collect stream_frames m0 ≡ₚ g_frames g ++ collect stream_frames (sent_iter (g_ring g));
  ga_crypto : collect crypto_frames m0 ≡ₚ g_crypto g ++ collect crypto_frames (sent_iter (g_ring g));
  ga_ctrl : collect ctrl_frames m0 ≡ₚ g_ctrl g ++ collect ctrl_frames (sent_iter (g_ring g))
}.

Lemma gather_lost_ok n m0 lost g :
  flight_of m0 <= U32_MAX -> gathered n m0 g ->
  gathered n m0 (gather_lost lost g) /\
  sent_iter (g_ring (gather_lost lost g)) =
    pn_filter (fun pn => negb (existsb (Z.eqb pn) lost)) (sent_iter (g_ring g)).
Proof.
  intros Hw. revert g. induction lost as [|pn lost IH]; intros g [H1 H2 Hc Hd H3 H4 H5 H6]; cbn [gather_lost].
  { split; [by split|]. symmetry. apply pn_filter_id, Forall_forall. done. }
  destruct (sent_remove_spec pn (g_ring g)) as (R1 & R2 & _); [by destruct H1|].
  pose proof (sent_remove_next n pn _ H1) as R3. destruct (sent_remove pn (g_ring g)) as [taken ring].
  cbn [fst snd] in *. subst taken. set (m := sent_iter (g_ring g)) in *.
  pose proof (sent_iter_sorted (g_ring g)) as Hs. fold m in Hs.
  assert (pkts_ok (sent_iter ring)) as Hp by (rewrite R2; by apply pn_filter_forall).
  assert (Forall carries (sent_iter ring)) as Hc' by (rewrite R2; by apply pn_filter_forall).
  pose proof (sum_by_filter_one pkt_flight pn m Hs) as Hf. rewrite <-R2 in Hf.
  pose proof (flight_of_nonneg _ Hp) as Hnn.
  pose proof (collect_remove stream_frames pn m Hs) as C1. rewrite <-R2 in C1.
  pose proof (collect_remove crypto_frames pn m Hs) as C2. rewrite <-R2 in C2.
  pose proof (collect_remove ctrl_frames pn m Hs) as C3. rewrite <-R2 in C3.
  set (g' := match btree_get pn m with Some _ => _ | None => _ end).
  assert (gathered n m0 g' /\ g_ring g' = ring) as [Hg Er].
  { unfold flight_of in *. unfold g'. destruct (btree_get pn m) as [p|] eqn:Eg; (split; [|done]).
    - assert (retx_sum (stream_frames p) <= pkt_flight p) as Hcp.
      { apply btree_get_in in Eg. rewrite Forall_forall in Hc. exact (Hc _ Eg). }
      split; cbn [g_ring g_bytes g_frames g_crypto g_ctrl]; try done.
      + rewrite retx_sum_app. unfold flight_of, pkt_flight, sat_add32 in *. destruct (in_flight p); lia.
      + unfold flight_of, pkt_flight, sat_add32 in *. destruct (in_flight p); lia.
      + by rewrite H4, C1, app_assoc.
      + by rewrite H5, C2, app_assoc.
      + by rewrite H6, C3, app_assoc.
    - split; cbn [g_ring g_bytes g_frames g_crypto g_ctrl]; try done.
      + unfold flight_of in *. lia.
      + by rewrite H4, C1.
      + by rewrite H5, C2.
      + by rewrite H6, C3. }
  destruct (IH g' Hg) as [I1 I2]. split; [done|]. rewrite I2, Er, R2, pn_filter_twice.
  apply pn_filter_ext. intros k. cbn [existsb]. rewrite negb_orb, andb_comm. done.
Qed.

Lemma gathered_start n sp :
  ring_next n sp -> pkts_ok (sent_iter sp) -> Forall carries (sent_iter sp) -> gathered n (sent_iter sp) (mkGather sp 0 [] [] []).
Proof. intros Hr Hp Hc. split; cbn; [done..|lia|done|done|done]. Qed.

(* ------------------------------------------------------------------ *)
(** ** What a step does to the frames owed *)

(** From [s] to [s'] the packets [acked] were acknowledged: what they carried is
    settled, STREAM frames of aborted streams may be given up, and everything else
    is still owed. *)
Record settles (acked : list (Z * SentPacket)) (s s' : Sender) : Prop := {
  se_stream : exists dropped,
    owed_stream s ≡ₚ collect stream_frames acked ++ dropped ++ owed_stream s' /\
    Forall (fun f => send_aborted (sr_sid f) s = true) dropped;
  se_crypto : owed_crypto s ≡ₚ collect crypto_frames acked ++ owed_crypto s';
  se_ctrl : owed_ctrl s ≡ₚ collect ctrl_frames acked ++ owed_ctrl s'
}.

Lemma queued_ctrl_requeue l s :
  queued_ctrl (requeue_ctrl l s) ≡ₚ l ++ queued_ctrl s.
Proof.
  revert s. induction l as [|[sid code final|sid code] l IH]; intros s; [done| |]; cbn [requeue_ctrl]; rewrite IH;
    unfold queued_ctrl; cbn [set_pending_resets set_pending_stops s_pending_reset_streams s_pending_stop_sending app];
    rewrite map_app; cbn [map fst snd].
  - rewrite <-Permutation_middle. cbn [app]. rewrite <-app_assoc. cbn [app]. rewrite <-!Permutation_middle. done.
  - rewrite !app_assoc. rewrite <-Permutation_cons_append. done.
Qed.

(** Re-queueing control frames touches nothing else. *)
Lemma requeue_ctrl_frame l s :
  exists r t, requeue_ctrl l s = s |> set_pending_resets r |> set_pending_stops t.
Proof.
  revert s. induction l as [|[sid code final|sid code] l IH]; intros s; cbn [requeue_ctrl].
  - exists (s_pending_reset_streams s), (s_pending_stop_sending s). by destruct s.
  - destruct (IH (set_pending_resets (s_pending_reset_streams s ++ [(sid, code, final)]) s)) as (r & t & ->). by exists r, t.
  - destruct (IH (set_pending_stops (s_pending_stop_sending s ++ [(sid, code)]) s)) as (r & t & ->). by exists r, t.
Qed.

Lemma settles_refl s : settles [] s s.
Proof. split; [exists []; by split; [|apply Forall_nil_2]|done|done]. Qed.

(** The fields a loss pass leaves alone. *)
Definition loss_frame (level : CryptoLevel) (s s' : Sender) : Prop :=
  s_aborted_sids s' = s_aborted_sids s /\ s_pending_stream_frames s' = s_pending_stream_frames s /\
  s_pending_crypto_frames s' = s_pending_crypto_frames s /\ s_pending_ctrl_frames s' = s_pending_ctrl_frames s /\
  (forall l, l <> level -> space_at l s' = space_at l s) /\
  next_send_pn (space_at level s') = next_send_pn (space_at level s).

(** The state after a loss pass, as its effects. *)
Lemma detect_loss_run now level s :
  largest_acked (space_at level s) <> None ->
  let g := gather_lost (lost_pns now level s) (mkGather (sent_packets (space_at level s)) 0 [] [] []) in
  let kept := List.filter (fun f => negb (send_aborted (sr_sid f) s)) (g_frames g) in
  let s' := exec (detect_loss now level) s in
  exists c r t,
    s' = s |> set_space level (set_sent_packets (g_ring g) (space_at level s))
           |> set_bytes_in_flight (sat_sub (s_bytes_in_flight s) (g_bytes g))
           |> set_cc c
           |> set_retx (s_retx_queue s ++ kept)
                (foldl (fun n f => sat_add32 n (w32 (zlen (sr_data f)))) (s_retx_bytes s) kept)
           |> set_pending_resets r |> set_pending_stops t
           |> set_crypto_retx (s_crypto_retx_queue s ++ g_crypto g) /\
    queued_ctrl s' ≡ₚ g_ctrl g ++ queued_ctrl s.
Proof.
  intros Hla g kept s'. subst s'. unfold detect_loss. rewrite exec_modify.
  destruct (largest_acked (space_at level s)); [|done]. fold g.
  set (s1 := set_bytes_in_flight _ _).
  assert (exists c, (if 0 <? g_bytes g then set_cc (Controller.on_loss (g_bytes g) false (s_cc s1)) s1 else s1) = set_cc c s1) as [c ->].
  { destruct (0 <? g_bytes g); [by eexists|]. exists (s_cc s1). by destruct s1. }
  change (List.filter _ _) with kept. set (s2 := set_retx _ _ _).
  destruct (requeue_ctrl_frame (g_ctrl g) s2) as (r & t & Er). pose proof (queued_ctrl_requeue (g_ctrl g) s2) as Hq.
  exists c, r, t. rewrite Er in *. split; [done|]. exact Hq.
Qed.

Lemma filter_split_perm {A} (P : A -> bool) (l : list A) :
  l ≡ₚ List.filter P l ++ List.filter (fun x => negb (P x)) l.
Proof.
  induction l as [|x l IH]; [done|]. cbn [List.filter]. destruct (P x); cbn [negb app].
  - by rewrite <-IH.
  - by rewrite <-Permutation_middle, <-IH.
Qed.

Section LossPass.
Context (now : Z) (level : CryptoLevel) (s : Sender).
Hypothesis Hbooks : books s.
Hypothesis Hacked : largest_acked (space_at level s) <> None.

Let g : LostGather :=
  gather_lost (lost_pns now level s) (mkGather (sent_packets (space_at level s)) 0 [] [] []).
Let kept : list StreamRetx := List.filter (fun f => negb (send_aborted (sr_sid f) s)) (g_frames g).
Let s' : Sender := exec (detect_loss now level) s.

Lemma pass_flight :
  flight_of (inflight level s) + flight_of (others level s) = s_bytes_in_flight s /\
  0 <= flight_of (others level s).
Proof using All.
  destruct Hbooks as [Bs Bf _ _]. split; [by rewrite Bf, (all_inflight_level level s), flight_of_app|].
  apply flight_of_nonneg. destruct level; cbn [others]; apply Forall_app; split; apply Bs.
Qed.

Lemma pass_gathered :
  gathered (next_send_pn (space_at level s)) (inflight level s) g /\
  sent_iter (g_ring g) = pn_filter (fun pn => negb (existsb (Z.eqb pn) (lost_pns now level s))) (inflight level s).
Proof using All.
  destruct pass_flight as [H1 H2]. destruct Hbooks as [Bs Bf _ Bw]. destruct (Bs level) as (N1 & N2 & N3).
  pose proof (retx_sum_nonneg (s_retx_queue s)).
  exact (gather_lost_ok _ (inflight level s) (lost_pns now level s) _ ltac:(unfold inflight in *; lia)
           (gathered_start _ _ N1 N2 N3)).
Qed.

Lemma pass_inflight :
  all_inflight s' ≡ₚ sent_iter (g_ring g) ++ others level s /\
  s_retx_queue s' = s_retx_queue s ++ kept /\ loss_frame level s s' /\
  inflight level s' = sent_iter (g_ring g) /\ queued_ctrl s' ≡ₚ g_ctrl g ++ queued_ctrl s /\
  s_crypto_retx_queue s' = s_crypto_retx_queue s ++ g_crypto g.
Proof using All.
  destruct (detect_loss_run now level s Hacked) as (c & r & t & Es & Hq). fold g kept s' in Es, Hq. split.
  { rewrite Es. etransitivity; [apply (all_inflight_level level)|]. by destruct level. }
  split; [by rewrite Es|]. split.
  { rewrite Es. repeat split; [intros l Hl; by destruct l, level|by destruct level]. }
  split; [rewrite Es; by destruct level|]. split; [done|by rewrite Es].
Qed.

Lemma pass_books : books s'.
Proof using All.
  destruct (detect_loss_run now level s Hacked) as (c & r & t & Es & _). fold g kept s' in Es.
  destruct pass_inflight as (Hall & Hrq & _). destruct pass_flight as [Hfl Hon].
  destruct pass_gathered as [[G1 G2 G3 G4 G5 _ _ _] _]. pose proof (flight_of_nonneg _ G2) as Hgn.
  destruct Hbooks as [Bs Bf Br Bw]. pose proof (retx_sum_nonneg (s_retx_queue s)) as Hrn.
  assert (retx_sum kept <= g_bytes g) as Hk.
  { etransitivity; [apply retx_sum_filter|exact G4]. }
  split.
  - intros l. rewrite Es.
    change (space_ok (space_at l (set_space level (set_sent_packets (g_ring g) (space_at level s)) s))).
    rewrite space_at_set. case_decide; [done|apply Bs].
  - rewrite Hall, flight_of_app, Es. change (s_bytes_in_flight _) with (sat_sub (s_bytes_in_flight s) (g_bytes g)).
    unfold sat_sub. lia.
  - rewrite Hrq, retx_sum_app, Es.
    change (s_retx_bytes _) with (foldl (fun n f => sat_add32 n (w32 (zlen (sr_data f)))) (s_retx_bytes s) kept).
    rewrite retx_count_exact by lia. lia.
  - rewrite Hall, flight_of_app, Hrq, retx_sum_app. lia.
Qed.

Lemma pass_settles : settles [] s s'.
Proof using All.
  destruct pass_inflight as (Hall' & Hrq & (_ & Hp1 & Hp2 & Hp3 & _) & _ & Hq & Hcq).
  destruct pass_gathered as [[_ _ _ _ _ G6 G7 G8] _]. pose proof (all_inflight_level level s) as Hall. split.
  - exists (List.filter (fun f => negb (negb (send_aborted (sr_sid f) s))) (g_frames g)). split.
    + unfold owed_stream. rewrite Hall, Hall', !collect_app, Hrq, Hp1, G6.
      rewrite (filter_split_perm (fun f => negb (send_aborted (sr_sid f) s)) (g_frames g)) at 1. fold kept.
      change (collect stream_frames []) with (@nil StreamRetx). solve_Permutation.
    + apply Forall_forall. intros f Hf. apply list_elem_of_In, List.filter_In in Hf as [_ Hf].
      by rewrite negb_involutive in Hf.
  - unfold owed_crypto. rewrite Hall, Hall', !collect_app, G7, Hp2, Hcq.
    change (collect crypto_frames []) with (@nil CryptoRetx). solve_Permutation.
  - unfold owed_ctrl. rewrite Hall, Hall', !collect_app, G8, Hq, Hp3.
    change (collect ctrl_frames []) with (@nil CtrlRetx). solve_Permutation.
Qed.

End LossPass.

(** A loss pass keeps the books and gives up nothing but frames of aborted
    streams; what leaves the ring is what the loss core names. *)
Lemma detect_loss_ok now level s :
  books s ->
  let s' := exec (detect_loss now level) s in
  books s' /\ settles [] s s' /\ loss_frame level s s' /\
  inflight level s' = pn_filter (fun pn => negb (existsb (Z.eqb pn) (lost_pns now level s))) (inflight level s).
Proof.
  intros Hb s'. destruct (largest_acked (space_at level s)) as [la|] eqn:Ela.
  - assert (largest_acked (space_at level s) <> None) as Hla by (by rewrite Ela).
    destruct (pass_inflight now level s Hb Hla) as (_ & _ & H3 & H4 & _).
    split; [by apply pass_books|]. split; [by apply pass_settles|]. split; [done|].
    unfold s'. rewrite H4. by apply pass_gathered.
  - assert (s' = s) as -> by (unfold s', detect_loss; rewrite exec_modify; by rewrite Ela).
    split; [done|]. split; [apply settles_refl|]. split; [by repeat split|]. unfold lost_pns. rewrite Ela.
    symmetry. apply pn_filter_id, Forall_forall. done.
Qed.

(* ------------------------------------------------------------------ *)
(** ** Acknowledgements keep the books *)

(** The fields the books are about; the RTT, the timers and the controller are
    not among them. *)
Definition core (s : Sender) :=
  (s_spaces s, s_bytes_in_flight s, s_retx_queue s, s_retx_bytes s, s_crypto_retx_queue s,
   s_pending_stream_frames s, s_pending_crypto_frames s, s_pending_ctrl_frames s,
   s_pending_reset_streams s, s_pending_stop_sending s, s_aborted_sids s).

Lemma core_fields s s' :
  core s = core s' ->
  all_inflight s' = all_inflight s /\ (forall l, space_at l s' = space_at l s) /\
  s_bytes_in_flight s' = s_bytes_in_flight s /\ s_retx_queue s' = s_retx_queue s /\ s_retx_bytes s' = s_retx_bytes s /\
  owed_stream s' = owed_stream s /\ owed_crypto s' = owed_crypto s /\ owed_ctrl s' = owed_ctrl s /\
  s_aborted_sids s' = s_aborted_sids s.
Proof.
  unfold core. intros [= H1 H2 H3 H4 H5 H6 H7 H8 H9 H10 H11].
  unfold owed_stream, owed_crypto, owed_ctrl, queued_ctrl, all_inflight, inflight, space_at.
  rewrite H1, H2, H3, H4, H5, H6, H7, H8, H9, H10, H11. by repeat split.
Qed.

Lemma books_core s s' : core s = core s' -> books s -> books s'.
Proof.
  intros (E1 & E2 & E3 & E4 & E5 & _)%core_fields [B1 B2 B3 B4].
  split; [intros l; by rewrite E2|congruence|congruence|congruence].
Qed.

Lemma settles_trans a b s1 s2 s3 :
  s_aborted_sids s2 = s_aborted_sids s1 ->
  settles a s1 s2 -> settles b s2 s3 -> settles (a ++ b) s1 s3.
Proof.
  intros Ha [(d1 & H1 & F1) H2 H3] [(d2 & G1 & F2) G2 G3]. split.
  - exists (d1 ++ d2). split.
    + rewrite H1, G1, collect_app. solve_Permutation.
    + apply Forall_app. split; [done|]. eapply Forall_impl; [exact F2|]. intros f. unfold send_aborted. by rewrite Ha.
  - rewrite H2, G2, collect_app. by rewrite app_assoc.
  - rewrite H3, G3, collect_app. by rewrite app_assoc.
Qed.

Lemma settles_core s s' : core s = core s' -> settles [] s s'.
Proof.
  intros (_ & _ & _ & _ & _ & E1 & E2 & E3 & _)%core_fields.
  split; [exists []; split; [|apply Forall_nil_2]|..]; rewrite ?E1, ?E2, ?E3; done.
Qed.

Lemma update_rtt_core a b : preserves core (update_rtt a b).
Proof. apply preserves_modify. intros s. cbv zeta. by case_match. Qed.
#[local] Hint Resolve update_rtt_core : preserves.

(** The packets an ACK frame names. *)
Definition acked_pkts (level : CryptoLevel) (largest first : Z) (ranges : AckRanges) (s : Sender)
    : list (Z * SentPacket) :=
  pn_filter (named (frame_blocks largest first (ack_items ranges))) (inflight level s).

Lemma flight_of_split K m : flight_of m = flight_of (pn_filter K m) + flight_of (pn_filter (fun pn => negb (K pn)) m).
Proof.
  induction m as [|e m IH]; [done|]. rewrite !pn_filter_cons. unfold flight_of, sum_by in *.
  destruct (K e.1); cbn [negb foldr]; lia.
Qed.

(** Some packets [K] of a space leave its ring and the flight, for good. *)
Definition releases (level : CryptoLevel) (K : Z -> bool) (s s' : Sender) : Prop :=
  exists v, s' = s |> set_space level v
                   |> set_bytes_in_flight (s_bytes_in_flight s - flight_of (pn_filter K (inflight level s))) /\
    ring_next (next_send_pn v) (sent_packets v) /\ next_send_pn v = next_send_pn (space_at level s) /\
    sent_iter (sent_packets v) = pn_filter (fun pn => negb (K pn)) (inflight level s).

Lemma releases_inflight level K s s' :
  releases level K s s' -> all_inflight s' ≡ₚ pn_filter (fun pn => negb (K pn)) (inflight level s) ++ others level s.
Proof.
  intros (v & -> & _ & _ & Ev). etransitivity; [apply (all_inflight_level level)|]. rewrite <-Ev. by destruct level.
Qed.

Lemma releases_books level K s s' : books s -> releases level K s s' -> books s'.
Proof.
  intros [Bs Bf Br Bw] Hr. pose proof (releases_inflight _ _ _ _ Hr) as Hall. destruct Hr as (v & -> & H1 & H2 & H3).
  destruct (Bs level) as (N1 & N2 & N3). fold (inflight level s) in N2, N3.
  assert (pkts_ok (pn_filter K (inflight level s))) as Hp by (by apply pn_filter_forall).
  pose proof (flight_of_nonneg _ Hp) as Hpn. pose proof (flight_of_split K (inflight level s)) as Hsp.
  rewrite (all_inflight_level level s), flight_of_app in Bf, Bw.
  split.
  - intros l. change (space_ok (space_at l (set_space level v s))). rewrite space_at_set. case_decide; [|apply Bs].
    split; [done|]. rewrite H3. by split; apply pn_filter_forall.
  - rewrite Hall, flight_of_app. change (s_bytes_in_flight (_ |> _ |> _)) with (s_bytes_in_flight s - flight_of (pn_filter K (inflight level s))).
    cbn [s_bytes_in_flight set_bytes_in_flight]. lia.
  - done.
  - rewrite Hall, flight_of_app. change (s_retx_queue _) with (s_retx_queue s). lia.
Qed.

Lemma releases_settles level K s s' : releases level K s s' -> settles (pn_filter K (inflight level s)) s s'.
Proof.
  intros Hr. pose proof (releases_inflight _ _ _ _ Hr) as Hall. destruct Hr as (v & -> & _ & _ & _).
  pose proof (all_inflight_level level s) as Hs. split.
  - exists []. split; [|apply Forall_nil_2]. unfold owed_stream. rewrite Hs, Hall, !collect_app.
    rewrite (collect_split stream_frames K (inflight level s)). cbn [app]. rewrite <-!app_assoc. done.
  - unfold owed_crypto. rewrite Hs, Hall, !collect_app.
    rewrite (collect_split crypto_frames K (inflight level s)). rewrite <-!app_assoc. done.
  - unfold owed_ctrl. rewrite Hs, Hall, !collect_app.
    rewrite (collect_split ctrl_frames K (inflight level s)). rewrite <-!app_assoc. done.
Qed.

Lemma flight_at_most level s : books s -> 0 <= flight_of (inflight level s) <= s_bytes_in_flight s /\ s_bytes_in_flight s <= U32_MAX.
Proof.
  intros [Bs Bf _ Bw]. rewrite Bf. rewrite (all_inflight_level level s), flight_of_app in *.
  assert (pkts_ok (others level s)) as Ho by (destruct level; cbn [others]; apply Forall_app; split; apply Bs).
  pose proof (flight_of_nonneg _ Ho). pose proof (retx_sum_nonneg (s_retx_queue s)).
  assert (pkts_ok (inflight level s)) as Hi by apply Bs. pose proof (flight_of_nonneg _ Hi). lia.
Qed.

(** The removal of an ACK frame's ranges, with the release of their bytes. *)
Lemma ack_space_ok level largest first ranges s :
  books s ->
  let '(pkt, acked, empty, s1) := ack_space level largest first ranges s in
  acked = flight_of (acked_pkts level largest first ranges s) /\
  s_bytes_in_flight s1 = s_bytes_in_flight s /\
  releases level (named (frame_blocks largest first (ack_items ranges))) s
    (set_bytes_in_flight (sat_sub (s_bytes_in_flight s1) acked) s1).
Proof.
  intros Hb. pose proof (flight_at_most level s Hb) as Hfl. destruct Hb as [Bs _ _ _].
  destruct (Bs level) as (N1 & N2 & N3). unfold ack_space.
  pose proof (ack_remove_all_spec largest first ranges _ (proj1 N1) N2) as ([R1 R2] & R3 & _ & R5).
  destruct (ack_remove_all _ _ _ _) as [[sp pkt] acked]. cbn [fst snd] in *.
  unfold acked_pkts. fold (inflight level s) in *. set (K := named _) in *.
  pose proof (flight_of_split K (inflight level s)) as Hsp. rewrite <-R3 in Hsp.
  assert (0 <= flight_of (sent_iter sp)) by (apply flight_of_nonneg; rewrite R3; by apply pn_filter_forall).
  assert (0 <= flight_of (pn_filter K (inflight level s))) by (apply flight_of_nonneg; by apply pn_filter_forall).
  assert (acked = flight_of (pn_filter K (inflight level s))) as -> by lia.
  split; [done|]. split; [done|]. eexists. split; [|split; [|split]].
  - unfold sat_sub. rewrite Z.max_r by (cbn; lia). reflexivity.
  - by apply R2.
  - done.
  - done.
Qed.

Lemma core_set_bytes n s s' : core s = core s' -> core (set_bytes_in_flight n s) = core (set_bytes_in_flight n s').
Proof. unfold core. intros [= ? ? ? ? ? ? ? ? ? ? ?]. cbn. congruence. Qed.

(** Up to its loss pass an ACK is the release of the packets it names. *)
Lemma process_ack_run now level largest delay first ranges s :
  books s ->
  exists s1 s2,
    releases level (named (frame_blocks largest first (ack_items ranges))) s s1 /\ core s1 = core s2 /\
    core (exec (process_ack now level largest delay first ranges) s) = core (exec (detect_loss now level) s2).
Proof.
  intros Hb. pose proof (ack_space_ok level largest first ranges s Hb) as Ha. unfold process_ack.
  rewrite exec_bind. destruct (ack_space level largest first ranges s) as [[[pkt acked] empty] s1] eqn:E.
  assert (eval (ack_space level largest first ranges) s = (pkt, acked, empty)) as -> by (unfold eval; by rewrite E).
  assert (exec (ack_space level largest first ranges) s = s1) as -> by (unfold exec; by rewrite E).
  destruct Ha as (_ & _ & Hr).
  rewrite exec_bind, exec_gets, exec_bind. set (m1 := match pkt with Some _ => _ | None => _ end).
  assert (preserves core m1) as Hm1 by (unfold m1; destruct pkt; [apply preserves_when, update_rtt_core|apply preserves_ret]).
  rewrite !exec_bind, exec_modify. set (t2 := set_bytes_in_flight _ _). set (m2 := swhen (0 <? acked) _).
  assert (preserves core m2) as Hm2 by (apply preserves_when, preserves_modify; done).
  eexists _, _. split; [exact Hr|]. split.
  2:{ etransitivity; [apply preserves_when, preserves_modify; done|reflexivity]. }
  rewrite (Hm2 t2). unfold t2.
  pose proof (core_fields _ _ (Hm1 s1)) as (_ & _ & Hbf & _). rewrite <-Hbf. symmetry. apply core_set_bytes, Hm1.
Qed.

Lemma process_ack_ok now level largest delay first ranges s :
  books s ->
  let s' := exec (process_ack now level largest delay first ranges) s in
  books s' /\ settles (acked_pkts level largest first ranges s) s s' /\ s_aborted_sids s' = s_aborted_sids s.
Proof.
  intros Hb s'. destruct (process_ack_run now level largest delay first ranges s Hb) as (s1 & s2 & H1 & H2 & H3). fold s' in H3.
  pose proof (releases_books _ _ _ _ Hb H1) as B1. pose proof (books_core _ _ H2 B1) as B2.
  pose proof (releases_settles _ _ _ _ H1) as S1.
  destruct (detect_loss_ok now level s2 B2) as (B3 & S3 & (A3 & _) & _).
  pose proof (core_fields _ _ H2) as (_ & _ & _ & _ & _ & _ & _ & _ & A2).
  pose proof (core_fields _ _ H3) as (_ & _ & _ & _ & _ & _ & _ & _ & A4).
  assert (s_aborted_sids s1 = s_aborted_sids s) as A1 by (destruct H1 as (v & -> & _); done).
  split; [by eapply books_core|]. split; [|congruence].
  rewrite <-(app_nil_r (acked_pkts _ _ _ _ _)). eapply settles_trans; [exact A1|exact S1|].
  rewrite <-(app_nil_l []). eapply settles_trans; [exact A2|by apply settles_core|].
  rewrite <-(app_nil_l []). eapply settles_trans; [exact A3|exact S3|by apply settles_core].
Qed.

(* ------------------------------------------------------------------ *)
(** ** Sending keeps the books *)

Lemma btree_insert_perm (k : Z) (p : SentPacket) m :
  btree_get k m = None -> btree_insert k p m ≡ₚ (k, p) :: m.
Proof.
  induction m as [|[k' v] m IH]; [done|]. cbn [btree_get btree_insert]. destruct (k =? k'); [done|]. intros Hn.
  destruct (k <? k'); [done|]. rewrite IH by done. apply Permutation_swap.
Qed.

(** A packet leaves: the next number is taken, and the staged frames go into
    flight with it. *)
Definition send_packet (now : Z) (level : CryptoLevel) (eliciting : bool) (bytes : Z) : St Sender unit :=
  pn <- take_pn level;;
  record_sent_packet now level pn eliciting bytes.

Definition new_packet (now : Z) (eliciting : bool) (bytes : Z) (s : Sender) : SentPacket :=
  mkSentPacket now eliciting eliciting bytes (s_pending_stream_frames s) (s_pending_crypto_frames s) (s_pending_ctrl_frames s).

Lemma send_packet_inflight now level eliciting bytes s :
  books s ->
  let s' := exec (send_packet now level eliciting bytes) s in
  let pn := next_send_pn (space_at level s) in
  all_inflight s' ≡ₚ (pn, new_packet now eliciting bytes s) :: all_inflight s /\
  (forall l, l <> level -> space_at l s' = space_at l s) /\
  inflight level s' = btree_insert pn (new_packet now eliciting bytes s) (inflight level s) /\
  btree_get pn (inflight level s) = None /\
  ring_next (pn + 1) (sent_packets (space_at level s')) /\ next_send_pn (space_at level s') = pn + 1.
Proof.
  intros [Bs _ _ _] s' pn. destruct (Bs level) as (N1 & _ & _).
  destruct (sent_insert_next _ pn (new_packet now eliciting bytes s) _ N1 ltac:(lia)) as (I1 & I2 & I3).
  assert (inflight level s' = btree_insert pn (new_packet now eliciting bytes s) (inflight level s)) as Hi.
  { unfold s', send_packet, inflight, record_sent_packet, take_pn. rewrite <-I1.
    unfold exec, sbind, modify. destruct level, eliciting; reflexivity. }
  assert (forall l, l <> level -> space_at l s' = space_at l s) as Ho.
  { intros l Hl. unfold s', send_packet, record_sent_packet, take_pn, exec, sbind, modify. by destruct level, l, eliciting. }
  split; [|split; [done|split; [done|split; [done|]]]].
  - assert (others level s' = others level s) as Eo.
    { destruct level; cbn [others]; unfold inflight; by rewrite !Ho. }
    rewrite (all_inflight_level level s), (all_inflight_level level s'), Hi, Eo, btree_insert_perm by done. done.
  - unfold s', send_packet, record_sent_packet, take_pn, exec, sbind, modify. destruct level, eliciting; (split; [exact I3|done]).
Qed.

Lemma send_packet_fields now level eliciting bytes s :
  let s' := exec (send_packet now level eliciting bytes) s in
  s_retx_queue s' = s_retx_queue s /\ s_retx_bytes s' = s_retx_bytes s /\ s_crypto_retx_queue s' = s_crypto_retx_queue s /\
  s_pending_stream_frames s' = [] /\ s_pending_crypto_frames s' = [] /\ s_pending_ctrl_frames s' = [] /\
  queued_ctrl s' = queued_ctrl s /\ s_aborted_sids s' = s_aborted_sids s /\
  s_bytes_in_flight s' = (if eliciting then sat_add32 (s_bytes_in_flight s) bytes else s_bytes_in_flight s).
Proof.
  intros s'. unfold s', send_packet, record_sent_packet, take_pn, exec, sbind, modify.
  destruct level, eliciting; by repeat split.
Qed.

Lemma send_packet_ok now level (eliciting : bool) bytes s :
  books s -> 0 <= bytes -> retx_sum (s_pending_stream_frames s) <= (if eliciting then bytes else 0) ->
  flight_of (all_inflight s) + retx_sum (s_retx_queue s) + (if eliciting then bytes else 0) <= U32_MAX ->
  let s' := exec (send_packet now level eliciting bytes) s in
  books s' /\ settles [] s s' /\ s_aborted_sids s' = s_aborted_sids s.
Proof.
  intros Hb Hn Hd Hw s'. destruct (send_packet_inflight now level eliciting bytes s Hb) as (H1 & H2 & H3 & H4 & H5 & H6).
  destruct (send_packet_fields now level eliciting bytes s) as (F1 & F2 & F3 & F4 & F5 & F6 & F7 & F8 & F9).
  fold s' in H1, H2, H3, H5, H6, F1, F2, F3, F4, F5, F6, F7, F8, F9. destruct Hb as [Bs Bf Br Bw].
  set (p := new_packet now eliciting bytes s) in *. set (pn := next_send_pn (space_at level s)) in *.
  assert (pkt_flight p = if eliciting then bytes else 0) as Hp by (by destruct eliciting).
  assert (flight_of (all_inflight s') = (if eliciting then bytes else 0) + flight_of (all_inflight s)) as Hf
    by (by rewrite H1, <-Hp).
  pose proof (retx_sum_nonneg (s_retx_queue s)). split; [split|split; [split|done]].
  - intros l. destruct (decide (l = level)) as [->|Hl]; [|rewrite H2 by done; apply Bs].
    split; [rewrite H6; exact H5|]. fold (inflight level s'). rewrite H3. destruct (Bs level) as (_ & N2 & N3).
    split; (apply btree_insert_forall; [|done]); [done|]. unfold carries. cbn [snd]. rewrite Hp. exact Hd.
  - rewrite F9, Hf, Bf. destruct eliciting; [unfold sat_add32|]; lia.
  - by rewrite F2, F1.
  - rewrite Hf, F1. lia.
  - exists []. split; [|apply Forall_nil_2]. unfold owed_stream. rewrite H1, collect_cons, F1, F4. cbn [snd stream_frames p new_packet].
    change (collect stream_frames []) with (@nil StreamRetx). solve_Permutation.
  - unfold owed_crypto. rewrite H1, collect_cons, F3, F5. cbn [snd crypto_frames p new_packet].
    change (collect crypto_frames []) with (@nil CryptoRetx). solve_Permutation.
  - unfold owed_ctrl. rewrite H1, collect_cons, F6, F7. cbn [snd ctrl_frames p new_packet].
    change (collect ctrl_frames []) with (@nil CtrlRetx). solve_Permutation.
Qed.

Lemma values_flight b l :
  foldr (fun p n => byte_count p + n) 0 (List.filter in_flight (omap id l)) = flight_of (iter_from b l).
Proof.
  revert b. induction l as [|[p|] l IH]; intros b; [done| |apply IH].
  cbn [omap list_omap id iter_from]. unfold flight_of, sum_by in *. cbn [foldr snd List.filter]. unfold pkt_flight at 1.
  destruct (in_flight p); cbn [foldr]; rewrite (IH (b + 1)); lia.
Qed.

(** Discarding a space's keys releases all of it. *)
Lemma discard_ok level s :
  books s -> releases level (fun _ => true) s (exec (discard_sent_packets level) s).
Proof.
  intros Hb. pose proof (flight_at_most level s Hb) as Hfl. destruct Hb as [Bs _ _ _]. destruct (Bs level) as ((_ & N & _) & _ & _).
  assert (pn_filter (fun _ => true) (inflight level s) = inflight level s) as Ei by (apply pn_filter_id, Forall_forall; done).
  unfold discard_sent_packets. rewrite exec_modify. unfold sent_values.
  rewrite (values_flight (base_pn (sent_packets (space_at level s)))).
  change (iter_from _ _) with (inflight level s). rewrite w32_small by (unfold is_u32; lia).
  eexists. split; [|split; [|split]].
  - unfold sat_sub. rewrite Z.max_r, Ei by lia. reflexivity.
  - split; [apply ring_default_ok|]. split; [exact N|by left].
  - done.
  - cbn [negb]. clear. induction (inflight level s); [done|]. by rewrite pn_filter_cons.
Qed.

(** A probe is one more packet in flight. *)
Lemma probe_run now probe_len s :
  (exec (send_pto_probe now probe_len) s = s /\ eval (send_pto_probe now probe_len) s = false) \/
  exists level len, oldest_level s = Some level /\ probe_len level = Some len /\
    eval (send_pto_probe now probe_len) s = true /\
    core (exec (send_pto_probe now probe_len) s) = core (exec (send_packet now level true len) s).
Proof.
  unfold send_pto_probe. rewrite exec_bind, eval_bind, eval_gets, exec_gets.
  destruct (oldest_level s) as [level|]; [|by left]. destruct (probe_len level) as [len|] eqn:E; [|by left].
  right. exists level, len. split; [done|]. split; [done|]. split; [by autorewrite with st|].
  unfold send_packet. rewrite !exec_bind. set (s1 := exec (record_sent_packet _ _ _ _ _) _). rewrite exec_ret.
  etransitivity; [apply preserves_when, preserves_modify; done|]. done.
Qed.
