(* ===== verification/QuicFlow.v ===== *)
(** * Receive flow control of a QUIC connection

    The connection's side of its receive streams (crates/proto/quic/src/conn):
    the STREAM and RESET_STREAM frames of a peer ([rx.rs]), the reads of the
    application and the reaping of finished streams ([mod.rs]), and the credit
    granted in outbound packets ([tx.rs]), with the counter of buffered bytes that
    all connections of the process share. *)

From S2P Require Import Prelude.
From S2P Require Import NetTypes.
From S2P Require Import QuicWire.
From S2P Require Import QuicParams.
From S2P Require Import QuicStreams.
From S2P Require Import QuicCrypto.

#[local] Open Scope st_scope.

Abbreviation AGGREGATE_RECV_BUDGET := (256 * 1024 * 1024)%Z (only parsing).
Abbreviation REAPED_STREAMS_CAP := 256%Z (only parsing).
Abbreviation STREAM_POOL_CAP := 8%Z (only parsing).
Abbreviation STREAM_RESETS_CAP := 16%Z (only parsing).
Abbreviation MAX_CONCURRENT_RECV_STREAMS := 8192%Z (only parsing).
Abbreviation MAX_REAP_PER_CALL := 32%nat (only parsing).
Abbreviation PACKET_BODY_BUDGET := 1100%Z (only parsing).
Abbreviation STREAM_CREDIT_REFILL_AT := 256%Z (only parsing).
Abbreviation STREAM_CREDIT_WINDOW := 1024%Z (only parsing).

(** The fields of [Connection] the receive side works on.  [c_recv_buffered] is the
    static [RECV_BUFFERED]; the pools are stacks, last pushed first; the reason
    text of a pending close is left out. *)
Record Conn := mkConn {
  c_client : bool;
  c_recv_streams : list (Z * RecvStream);
  c_send_streams : list (Z * SendStream);
  c_recv_pool : list RecvStream;
  c_send_pool : list SendStream;
  c_opened_streams : list Z;
  c_reaped_streams : list Z;
  c_reaped_idx : Z;
  c_data_received : Z;
  c_data_consumed : Z;
  c_max_data_advertised : Z;
  c_max_streams_bidi_advertised : Z;
  c_max_streams_uni_advertised : Z;
  c_bidi_streams_opened : Z;
  c_uni_streams_opened : Z;
  c_force_max_data : bool;
  c_force_max_stream_data : bool;
  c_force_max_streams_bidi : bool;
  c_force_max_streams_uni : bool;
  c_stream_resets : list (Z * Z);
  c_close_pending : option Z;
  c_failed : bool;
  c_cur_rx_us : Z;
  c_ack_pending : bool;
  c_ack_eliciting_since_ack : Z;
  c_first_unacked_us : Z;
  c_last_recv_us : Z;
  c_recv_buffered : Z;
}.

Definition eta_conn (c : Conn) : Conn :=
  mkConn (c_client c) (c_recv_streams c) (c_send_streams c) (c_recv_pool c) (c_send_pool c)
    (c_opened_streams c) (c_reaped_streams c) (c_reaped_idx c) (c_data_received c)
    (c_data_consumed c) (c_max_data_advertised c) (c_max_streams_bidi_advertised c)
    (c_max_streams_uni_advertised c) (c_bidi_streams_opened c) (c_uni_streams_opened c)
    (c_force_max_data c) (c_force_max_stream_data c) (c_force_max_streams_bidi c)
    (c_force_max_streams_uni c) (c_stream_resets c) (c_close_pending c) (c_failed c)
    (c_cur_rx_us c) (c_ack_pending c) (c_ack_eliciting_since_ack c) (c_first_unacked_us c)
    (c_last_recv_us c) (c_recv_buffered c).

Definition set_recv_streams (v : list (Z * RecvStream)) (c : Conn) : Conn :=
  ltac:(set_field eta_conn c_recv_streams c v).
Definition set_send_streams (v : list (Z * SendStream)) (c : Conn) : Conn :=
  ltac:(set_field eta_conn c_send_streams c v).
Definition set_recv_pool (v : list RecvStream) (c : Conn) : Conn :=
  ltac:(set_field eta_conn c_recv_pool c v).
Definition set_send_pool (v : list SendStream) (c : Conn) : Conn :=
  ltac:(set_field eta_conn c_send_pool c v).
Definition set_opened_streams (v : list Z) (c : Conn) : Conn :=
  ltac:(set_field eta_conn c_opened_streams c v).
Definition set_reaped_streams (v : list Z) (c : Conn) : Conn :=
  ltac:(set_field eta_conn c_reaped_streams c v).
Definition set_reaped_idx (v : Z) (c : Conn) : Conn :=
  ltac:(set_field eta_conn c_reaped_idx c v).
Definition set_data_received (v : Z) (c : Conn) : Conn :=
  ltac:(set_field eta_conn c_data_received c v).
Definition set_data_consumed (v : Z) (c : Conn) : Conn :=
  ltac:(set_field eta_conn c_data_consumed c v).
Definition set_max_data_advertised (v : Z) (c : Conn) : Conn :=
  ltac:(set_field eta_conn c_max_data_advertised c v).
Definition set_max_streams_bidi (v : Z) (c : Conn) : Conn :=
  ltac:(set_field eta_conn c_max_streams_bidi_advertised c v).
Definition set_max_streams_uni (v : Z) (c : Conn) : Conn :=
  ltac:(set_field eta_conn c_max_streams_uni_advertised c v).
Definition set_bidi_opened (v : Z) (c : Conn) : Conn :=
  ltac:(set_field eta_conn c_bidi_streams_opened c v).
Definition set_uni_opened (v : Z) (c : Conn) : Conn :=
  ltac:(set_field eta_conn c_uni_streams_opened c v).
Definition set_force_max_data (v : bool) (c : Conn) : Conn :=
  ltac:(set_field eta_conn c_force_max_data c v).
Definition set_force_max_stream_data (v : bool) (c : Conn) : Conn :=
  ltac:(set_field eta_conn c_force_max_stream_data c v).
Definition set_force_max_streams_bidi (v : bool) (c : Conn) : Conn :=
  ltac:(set_field eta_conn c_force_max_streams_bidi c v).
Definition set_force_max_streams_uni (v : bool) (c : Conn) : Conn :=
  ltac:(set_field eta_conn c_force_max_streams_uni c v).
Definition set_stream_resets (v : list (Z * Z)) (c : Conn) : Conn :=
  ltac:(set_field eta_conn c_stream_resets c v).
Definition set_close_pending (v : option Z) (c : Conn) : Conn :=
  ltac:(set_field eta_conn c_close_pending c v).
Definition set_ack_pending (v : bool) (c : Conn) : Conn :=
  ltac:(set_field eta_conn c_ack_pending c v).
Definition set_ack_since (v : Z) (c : Conn) : Conn :=
  ltac:(set_field eta_conn c_ack_eliciting_since_ack c v).
Definition set_first_unacked_us (v : Z) (c : Conn) : Conn :=
  ltac:(set_field eta_conn c_first_unacked_us c v).
Definition set_recv_buffered (v : Z) (c : Conn) : Conn :=
  ltac:(set_field eta_conn c_recv_buffered c v).

(** A new connection of the given role; [buffered] is what the other connections
    of the process hold. *)
Definition conn_new (client : bool) (buffered : Z) : Conn :=
  mkConn client [] [] [] [] [] (repeat U64_MAX 256) 0 0 0 INITIAL_MAX_DATA 1024 1024 0 0
    false false false false [] None false 0 false 0 0 0 buffered.

(* ------------------------------------------------------------------ *)
(** ** The aggregate of buffered bytes *)

Definition recv_buffered_add (n : Z) : St Conn unit :=
  modify (fun c => set_recv_buffered (w64 (c_recv_buffered c + n)) c).

Definition recv_buffered_sub (n : Z) : St Conn unit :=
  swhen (negb (n =? 0))
    (modify (fun c => set_recv_buffered (sat_sub (c_recv_buffered c) n) c)).

Definition recv_buffer_over_budget (c : Conn) : bool :=
  AGGREGATE_RECV_BUDGET <? c_recv_buffered c.

(* ------------------------------------------------------------------ *)
(** ** Bookkeeping *)

(** The first error wins. *)
Definition close_with_error (error_code : Z) : St Conn unit :=
  modify (fun c =>
    match c_close_pending c with
    | None => if c_failed c then c else set_close_pending (Some error_code) c
    | Some _ => c
    end).

Definition note_app_ack_eliciting : St Conn unit :=
  modify (fun c =>
    let c := c |> set_ack_pending true
               |> set_ack_since (sat_add32 (c_ack_eliciting_since_ack c) 1) in
    if c_first_unacked_us c =? 0 then set_first_unacked_us (c_last_recv_us c) c else c).

Definition mark_reaped (sid : Z) : St Conn unit :=
  modify (fun c =>
    c |> set_reaped_streams (<[Z.to_nat (c_reaped_idx c) := sid]> (c_reaped_streams c))
      |> set_reaped_idx ((c_reaped_idx c + 1) mod REAPED_STREAMS_CAP)).

Definition is_reaped (sid : Z) (c : Conn) : bool := existsb (Z.eqb sid) (c_reaped_streams c).

Definition push_capped {T} (v : list T) (item : T) (cap : Z) : list T :=
  (if cap <=? zlen v then zdrop 1 v else v) ++ [item].

(** The first code of a stream is kept. *)
Definition record_peer_reset (sid code : Z) : St Conn unit :=
  modify (fun c =>
    if existsb (fun e => e.1 =? sid) (c_stream_resets c) then c
    else set_stream_resets (push_capped (c_stream_resets c) (sid, code) STREAM_RESETS_CAP) c).

Definition stream_reset_code (sid : Z) (c : Conn) : option Z :=
  snd <$> find (fun e => e.1 =? sid) (c_stream_resets c).

(* ------------------------------------------------------------------ *)
(** ** Stream limits *)

Definition exceeds_stream_limit (stream_id bidi_adv uni_adv live : Z) : bool :=
  let count := w64 (Z.shiftr stream_id 2 + 1) in
  let kind := Z.land stream_id 3 in
  let limit := if kind =? 0 then bidi_adv else if kind =? 2 then uni_adv else 0 in
  (limit <? count) || (MAX_CONCURRENT_RECV_STREAMS <=? live).

Definition client_exceeds_stream_limit (stream_id bidi_adv uni_adv live : Z) : bool :=
  let count := w64 (Z.shiftr stream_id 2 + 1) in
  let kind := Z.land stream_id 3 in
  if kind =? 0 then MAX_CONCURRENT_RECV_STREAMS <=? live
  else
    let limit := if kind =? 1 then bidi_adv else if kind =? 3 then uni_adv else 0 in
    (limit <? count) || (MAX_CONCURRENT_RECV_STREAMS <=? live).

Definition over_stream_limit (sid : Z) (c : Conn) : bool :=
  (if c_client c then client_exceeds_stream_limit else exceeds_stream_limit)
    sid (c_max_streams_bidi_advertised c) (c_max_streams_uni_advertised c)
    (zlen (c_recv_streams c)).

Definition put_recv_stream (sid : Z) (s : RecvStream) : St Conn unit :=
  modify (fun c => set_recv_streams (btree_insert sid s (c_recv_streams c)) c).

(** A stream for a new id, recycled from the pool when it can be. *)
Definition open_recv_stream (sid : Z) : St Conn unit :=
  modify (fun c =>
    match c_recv_pool c with
    | p :: pool => c |> set_recv_pool pool |> set_recv_streams (btree_insert sid p (c_recv_streams c))
    | [] => set_recv_streams (btree_insert sid recv_default (c_recv_streams c)) c
    end).

(** The high-water mark of the peer's streams, by kind. *)
Definition count_peer_stream (sid : Z) : St Conn unit :=
  modify (fun c =>
    let count := w64 (Z.shiftr sid 2 + 1) in
    let '(bidi_kind, uni_kind) := if c_client c then (1, 3) else (0, 2) in
    let kind := Z.land sid 3 in
    if kind =? bidi_kind then
      if c_bidi_streams_opened c <? count then set_bidi_opened count c else c
    else if (kind =? uni_kind) && (c_uni_streams_opened c <? count) then set_uni_opened count c
    else c).

(** Whether the STREAM arm announces the stream to the accept loop. *)
Definition announce (sid : Z) (was_new : bool) (c : Conn) : bool :=
  let kind := Z.land sid 3 in
  let queued := existsb (Z.eqb sid) (c_opened_streams c) in
  if c_client c then
    if kind =? 3 then negb queued else if kind =? 1 then was_new else false
  else if kind =? 2 then negb queued
  else was_new.

Definition push_opened (sid : Z) : St Conn unit :=
  modify (fun c => set_opened_streams (c_opened_streams c ++ [sid]) c).

(* ------------------------------------------------------------------ *)
(** ** Frames of the peer

    [recv_streams.get_mut(&sid).unwrap()], called where the stream exists. *)
Definition the_stream (sid : Z) (c : Conn) : RecvStream :=
  default recv_default (btree_get sid (c_recv_streams c)).

Definition has_stream (sid : Z) (c : Conn) : bool :=
  match btree_get sid (c_recv_streams c) with Some _ => true | None => false end.

(** Both limits, stream and connection, against what would have been received. *)
Definition past_limits (end_ delta : Z) (s : RecvStream) (c : Conn) : bool :=
  (rs_recv_max s <? end_) ||
  (c_max_data_advertised c <? sat_add64 (c_data_received c) delta).

(** The [Frame::Stream] arm of [dispatch_frames]; [false]: the frame closed the
    connection and the dispatch stops. *)
Definition on_stream (level : CryptoLevel) (sid offset : Z) (data : list Z) (fin : bool)
    : St Conn bool :=
  match level with
  | LevelInitial | LevelHandshake => sret true
  | LevelOneRtt =>
      reaped <- gets (is_reaped sid);;
      if reaped : bool then note_app_ack_eliciting;; sret true
      else
        was_new <- gets (fun c => negb (has_stream sid c));;
        over <- gets (over_stream_limit sid);;
        if was_new && over then close_with_error 4;; sret false
        else
          swhen was_new (open_recv_stream sid;;
            modify (fun c => set_recv_streams
              (btree_insert sid (set_rs_rx_us (c_cur_rx_us c) (the_stream sid c))
                 (c_recv_streams c)) c));;
          s <- gets (the_stream sid);;
          let frame_end := sat_add64 offset (zlen data) in
          let conn_delta := sat_sub frame_end (rs_recv_high s) in
          past <- gets (past_limits frame_end conn_delta s);;
          if past : bool then close_with_error 3;; sret false
          else
            modify (fun c => set_data_received (sat_add64 (c_data_received c) conn_delta) c);;
            recv_buffered_add conn_delta;;
            let s := if rs_recv_high s <? frame_end then set_rs_recv_high frame_end s else s in
            put_recv_stream sid (ingest offset data fin s).2;;
            swhen was_new (count_peer_stream sid);;
            push <- gets (announce sid was_new);;
            swhen push (push_opened sid);;
            note_app_ack_eliciting;;
            sret true
  end.

Definition process_reset_stream (sid app_error_code final_size : Z) : St Conn bool :=
  reaped <- gets (is_reaped sid);;
  if reaped : bool then note_app_ack_eliciting;; sret true
  else
    client <- gets c_client;;
    let our_uni := if client : bool then 2 else 3 in
    if Z.land sid 3 =? our_uni then close_with_error 5;; sret false
    else
      was_new <- gets (fun c => negb (has_stream sid c));;
      over <- gets (over_stream_limit sid);;
      if was_new && over then close_with_error 4;; sret false
      else
        swhen was_new (open_recv_stream sid);;
        s <- gets (the_stream sid);;
        if (final_size <? rs_recv_high s) ||
           (match rs_fin_offset s with Some f => negb (f =? final_size) | None => false end)
        then close_with_error 18;; sret false
        else
          let conn_delta := sat_sub final_size (rs_recv_high s) in
          past <- gets (past_limits final_size conn_delta s);;
          if past : bool then close_with_error 3;; sret false
          else
            modify (fun c => set_data_received (sat_add64 (c_data_received c) conn_delta) c);;
            recv_buffered_add conn_delta;;
            let already_consumed := rs_consumed s in
            put_recv_stream sid (apply_reset final_size s);;
            let newly_consumed := sat_sub final_size already_consumed in
            modify (fun c => set_data_consumed (sat_add64 (c_data_consumed c) newly_consumed) c);;
            recv_buffered_sub newly_consumed;;
            record_peer_reset sid app_error_code;;
            let kind := Z.land sid 3 in
            let accept := if client then (kind =? 1) || (kind =? 3) else (kind =? 0) || (kind =? 2) in
            swhen (was_new && accept) (push_opened sid);;
            note_app_ack_eliciting;;
            sret true.

(** DATA_BLOCKED and its siblings: the next packet repeats the limit. *)
Inductive Blocked := DataBlocked | StreamDataBlocked | StreamsBlockedBidi | StreamsBlockedUni.

Definition on_blocked (b : Blocked) : St Conn unit :=
  modify
    match b with
    | DataBlocked => set_force_max_data true
    | StreamDataBlocked => set_force_max_stream_data true
    | StreamsBlockedBidi => set_force_max_streams_bidi true
    | StreamsBlockedUni => set_force_max_streams_uni true
    end.

(* ------------------------------------------------------------------ *)
(** ** The application *)

Definition pop_accepted_stream : St Conn (option Z) :=
  l <- gets c_opened_streams;;
  match l with
  | [] => sret None
  | sid :: rest => modify (set_opened_streams rest);; sret (Some sid)
  end.

Definition stream_recv (sid cap : Z) : St Conn (list Z * bool) :=
  m <- gets (fun c => btree_get sid (c_recv_streams c));;
  match m with
  | None => sret ([], false)
  | Some s =>
      let '(r, s) := drain cap s in
      put_recv_stream sid s;;
      modify (fun c => set_data_consumed (w64 (c_data_consumed c + zlen r.1)) c);;
      recv_buffered_sub (zlen r.1);;
      sret r
  end.

(** Reads of 2 KiB into a scratch buffer until one comes back empty. *)
Fixpoint discard_loop (fuel : nat) (s : RecvStream) (total : Z) : RecvStream * Z :=
  match fuel with
  | O => (s, total)
  | S fuel =>
      let '((out, _), s) := drain 2048 s in
      if zlen out =? 0 then (s, total) else discard_loop fuel s (w64 (total + zlen out))
  end.

(** One read more than the buffer has bytes is enough. *)
Definition discard_recv (sid : Z) : St Conn unit :=
  m <- gets (fun c => btree_get sid (c_recv_streams c));;
  match m with
  | None => sret tt
  | Some s =>
      let '(s, total) := discard_loop (S (length (rs_buffer s))) s 0 in
      put_recv_stream sid s;;
      modify (fun c => set_data_consumed (w64 (c_data_consumed c + total)) c);;
      recv_buffered_sub total
  end.

(** Whether a read has reopened enough of a window for a grant to be due. *)
Definition recv_credit_due (c : Conn) : bool :=
  (c_force_max_stream_data c || c_force_max_data c) ||
  (sat_sub (c_max_data_advertised c) (c_data_consumed c) <=? INITIAL_MAX_DATA / 2) ||
  existsb (fun e => negb (rs_is_closed e.2) &&
             (sat_sub (rs_recv_max e.2) (rs_consumed e.2) <=? INITIAL_MAX_STREAM_DATA / 2))
    (c_recv_streams c).

(* ------------------------------------------------------------------ *)
(** ** Credit in outbound packets *)

Inductive CreditFrame :=
| MaxStreamsBidi (max : Z)
| MaxStreamsUni (max : Z)
| MaxDataFrame (max : Z)
| MaxStreamData (sid max : Z).

(** MAX_STREAMS, both kinds. *)
Definition grant_max_streams : St Conn (list CreditFrame) :=
  bidi_replenish <- gets (fun c =>
    c_max_streams_bidi_advertised c <=? w64 (c_bidi_streams_opened c + STREAM_CREDIT_REFILL_AT));;
  swhen bidi_replenish (modify (fun c =>
    set_max_streams_bidi (w64 (c_bidi_streams_opened c + STREAM_CREDIT_WINDOW)) c));;
  c <- gets (fun c => c);;
  let bidi :=
    if bidi_replenish || c_force_max_streams_bidi c
    then [MaxStreamsBidi (c_max_streams_bidi_advertised c)] else [] in
  swhen (bidi_replenish || c_force_max_streams_bidi c) (modify (set_force_max_streams_bidi false));;
  uni_replenish <- gets (fun c =>
    c_max_streams_uni_advertised c <=? w64 (c_uni_streams_opened c + STREAM_CREDIT_REFILL_AT));;
  swhen uni_replenish (modify (fun c =>
    set_max_streams_uni (w64 (c_uni_streams_opened c + STREAM_CREDIT_WINDOW)) c));;
  c <- gets (fun c => c);;
  let uni :=
    if uni_replenish || c_force_max_streams_uni c
    then [MaxStreamsUni (c_max_streams_uni_advertised c)] else [] in
  swhen (uni_replenish || c_force_max_streams_uni c) (modify (set_force_max_streams_uni false));;
  sret (bidi ++ uni).

(** MAX_DATA: the ceiling slides while the process is within its budget. *)
Definition grant_max_data : St Conn (list CreditFrame) :=
  slid <- gets (fun c =>
    (sat_sub (c_max_data_advertised c) (c_data_consumed c) <=? INITIAL_MAX_DATA / 2) &&
    negb (recv_buffer_over_budget c));;
  swhen slid (modify (fun c =>
    set_max_data_advertised (Z.min (w64 (c_data_consumed c + INITIAL_MAX_DATA)) MAX_VARINT) c));;
  c <- gets (fun c => c);;
  if slid || c_force_max_data c then
    modify (set_force_max_data false);; sret [MaxDataFrame (c_max_data_advertised c)]
  else sret [].

(** Bytes of a variable-length integer and of a MAX_STREAM_DATA frame. *)
Definition varint_len (v : Z) : Z := Z.of_nat (varint_form v).1.
Definition max_stream_data_len (sid max : Z) : Z := 1 + varint_len sid + varint_len max.

(** The sweep of the receive streams in id order, from a packet with [used] bytes;
    the flag tells whether it reached the end. *)
Fixpoint stream_sweep (force : bool) (used : Z) (m : list (Z * RecvStream))
    : list (Z * RecvStream) * list CreditFrame * bool :=
  match m with
  | [] => ([], [], true)
  | (sid, rs) :: m' =>
      if PACKET_BODY_BUDGET <? used then (m, [], false)
      else if rs_is_closed rs then
        let '(m', fs, done) := stream_sweep force used m' in ((sid, rs) :: m', fs, done)
      else
        let consumed := rs_consumed rs in
        let threshold := sat_sub (rs_recv_max rs) consumed <=? INITIAL_MAX_STREAM_DATA / 2 in
        if threshold || force then
          let rs :=
            if threshold
            then set_rs_recv_max (Z.min (w64 (consumed + INITIAL_MAX_STREAM_DATA)) MAX_VARINT) rs
            else rs in
          let '(m', fs, done) :=
            stream_sweep force (used + max_stream_data_len sid (rs_recv_max rs)) m' in
          ((sid, rs) :: m', MaxStreamData sid (rs_recv_max rs) :: fs, done)
        else
          let '(m', fs, done) := stream_sweep force used m' in ((sid, rs) :: m', fs, done)
  end.

Definition grant_max_stream_data (used : Z) : St Conn (list CreditFrame) :=
  c <- gets (fun c => c);;
  let '(m, fs, complete) := stream_sweep (c_force_max_stream_data c) used (c_recv_streams c) in
  modify (set_recv_streams m);;
  swhen complete (modify (set_force_max_stream_data false));;
  sret fs.

(* ------------------------------------------------------------------ *)
(** ** Finished streams *)

Definition finished (c : Conn) (e : Z * SendStream) : bool :=
  ss_fin_sent e.2 && outbound_is_empty e.2 &&
  match btree_get e.1 (c_recv_streams c) with
  | Some r => rs_is_closed r && (zlen (rs_buffer r) =? 0)
  | None => false
  end.

Definition reap_one (sid : Z) : St Conn unit :=
  modify (fun c =>
    match btree_get sid (c_send_streams c) with
    | Some s =>
        let full := STREAM_POOL_CAP <=? zlen (c_send_pool c) in
        c |> set_send_streams (btree_remove sid (c_send_streams c))
          |> set_send_pool (if full then c_send_pool c else send_reset_for_reuse s :: c_send_pool c)
    | None => c
    end);;
  modify (fun c =>
    match btree_get sid (c_recv_streams c) with
    | Some r =>
        let full := STREAM_POOL_CAP <=? zlen (c_recv_pool c) in
        c |> set_recv_streams (btree_remove sid (c_recv_streams c))
          |> set_recv_pool (if full then c_recv_pool c else recv_reset_for_reuse r :: c_recv_pool c)
    | None => c
    end);;
  mark_reaped sid.

Fixpoint reap_all (sids : list Z) : St Conn unit :=
  match sids with
  | [] => sret tt
  | sid :: sids => reap_one sid;; reap_all sids
  end.

Definition reap_finished_streams : St Conn unit :=
  candidates <- gets (fun c => take MAX_REAP_PER_CALL (map fst (filter (fun e => finished c e) (c_send_streams c))));;
  reap_all candidates.

(** [Drop]: the bytes still buffered leave the aggregate. *)
Definition conn_drop : St Conn unit :=
  n <- gets (fun c => sat_sub (c_data_received c) (c_data_consumed c));;
  recv_buffered_sub n.
