(* ===== verification/QuicFlowInv.v ===== *)
(** * The receive windows of a QUIC connection hold

    An invariant of the connection's flow-control accounting, kept by every frame
    of the peer and every call of the application, and what it bounds. *)

From S2P Require Import Prelude.
From S2P Require Import NetTypes.
From S2P Require Import QuicWire.
From S2P Require Import QuicParams.
From S2P Require Import QuicStreams.
From S2P Require Import QuicCrypto.
From S2P Require Import QuicFlow.

#[local] Open Scope st_scope.

(* ------------------------------------------------------------------ *)
(** ** One stream *)

(** Bytes the application has taken off the stream. *)
Definition taken (s : RecvStream) : Z := rs_offset s - zlen (rs_buffer s).

Record stream_ok (s : RecvStream) : Prop := {
  so_taken : 0 <= taken s;
  so_offset : rs_offset s <= rs_recv_high s;
  so_high : rs_recv_high s <= rs_recv_max s;
  so_max : rs_recv_max s <= MAX_VARINT;
  so_window : rs_recv_max s <= taken s + INITIAL_MAX_STREAM_DATA;
  so_gaps : Forall (fun e => 0 <= e.1 /\ e.1 + zlen e.2 <= rs_recv_high s) (rs_gap_buffer s);
}.

Lemma max_varint_u64 : MAX_VARINT + INITIAL_MAX_DATA <= U64_MAX /\ 0 <= MAX_VARINT /\
  INITIAL_MAX_STREAM_DATA = 2097152 /\ INITIAL_MAX_DATA = 8388608.
Proof. by vm_compute. Qed.

Ltac consts := pose proof max_varint_u64 as (HMAX & HMAX0 & HSD & HMD).

Lemma rs_consumed_taken s : stream_ok s -> rs_consumed s = taken s.
Proof.
  intros [H1 H2 H3 H4 _ _]. consts. unfold rs_consumed. apply w64_small.
  pose proof (zlen_nonneg (rs_buffer s)). unfold is_u64, taken in *. lia.
Qed.

Lemma fold_gaps_within H g : forall buf off p,
  0 <= off <= H -> H <= U64_MAX ->
  Forall (fun e => 0 <= e.1 /\ e.1 + zlen e.2 <= H) g ->
  let '(buf', off', g', _) := fold_gaps buf off p g in
  off' - zlen buf' = off - zlen buf /\ off <= off' <= H /\
  Forall (fun e => 0 <= e.1 /\ e.1 + zlen e.2 <= H) g'.
Proof.
  induction g as [|[o d] g IH]; intros buf off p Ho HH Hg; cbn [fold_gaps].
  { split_and!; [done|lia|lia|done]. }
  pose proof (Forall_inv Hg) as [Ha Hb]. apply Forall_inv_tail in Hg as Hg'. cbn [fst snd] in Ha, Hb.
  destruct (off <? o) eqn:E1; bool_to_prop; [split_and!; [done|lia|lia|done]|].
  unfold sat_sub. rewrite Z.max_r by lia. destruct (off - o <? zlen d) eqn:E2; bool_to_prop.
  - assert (Hz : zlen (zdrop (off - o) d) = o + zlen d - off) by (rewrite zlen_zdrop; lia).
    rewrite w64_small by (unfold is_u64; lia).
    specialize (IH (buf ++ zdrop (off - o) d) (off + zlen (zdrop (off - o) d)) true ltac:(lia) HH Hg').
    destruct (fold_gaps _ _ _ g) as [[[b' o'] g'] p']. rewrite zlen_app in IH.
    destruct IH as (I1 & I2 & I3). split_and!; [lia..|done].
  - specialize (IH buf off p Ho HH Hg'). destruct (fold_gaps _ _ _ g) as [[[b' o'] g'] p']. done.
Qed.

(** Within a window that the frame does not pass, reassembly takes nothing from
    the application and stays inside the window. *)
Lemma ingest_within s o d fin :
  stream_ok s -> 0 <= o -> o + zlen d <= rs_recv_high s ->
  stream_ok (ingest o d fin s).2 /\ taken (ingest o d fin s).2 = taken s /\
  rs_recv_high (ingest o d fin s).2 = rs_recv_high s.
Proof.
  intros Hs Ho Hd. pose proof Hs as [H1 H2 H3 H4 H5 H6]. consts.
  pose proof (zlen_nonneg d) as Hz. pose proof (zlen_nonneg (rs_buffer s)) as Hb.
  assert (Hoff : 0 <= rs_offset s) by (unfold taken in H1; lia).
  assert (Hfin : forall e x, stream_ok x -> stream_ok (record_fin e x) /\
            taken (record_fin e x) = taken x /\ rs_recv_high (record_fin e x) = rs_recv_high x)
    by (intros e x [? ? ? ? ? ?]; split_and!; [by split|done|done]).
  assert (Hcl : forall x, stream_ok x -> stream_ok (maybe_close x) /\
            taken (maybe_close x) = taken x /\ rs_recv_high (maybe_close x) = rs_recv_high x)
    by (intros x Hx; pose proof Hx as [? ? ? ? ? ?]; unfold maybe_close;
        repeat case_match; (split_and!; [by split|done|done])).
  assert (Hend : forall e x, stream_ok x -> taken x = taken s -> rs_recv_high x = rs_recv_high s ->
            let y := if fin then record_fin e x else maybe_close x in
            stream_ok y /\ taken y = taken s /\ rs_recv_high y = rs_recv_high s).
  { intros e x Hx E1 E2. destruct fin; cbn zeta;
      [destruct (Hfin e x Hx) as (? & -> & ->)|destruct (Hcl x Hx) as (? & -> & ->)]; done. }
  unfold ingest. rewrite (w64_small (o + zlen d)) by (unfold is_u64; lia).
  destruct (o + zlen d <=? rs_offset s) eqn:E1; bool_to_prop; cbn [snd].
  { destruct fin; [by apply Hfin|done]. }
  unfold sat_sub. set (skip := Z.max 0 (rs_offset s - o)).
  assert (Hzs : zlen (zdrop skip d) = zlen d - skip) by (rewrite zlen_zdrop; lia).
  rewrite (w64_small (o + skip)) by (unfold is_u64; lia).
  destruct (o + skip =? rs_offset s) eqn:E2; bool_to_prop.
  - rewrite (w64_small (rs_offset s + _)) by (unfold is_u64; lia).
    pose proof (fold_gaps_within (rs_recv_high s) (rs_gap_buffer s) (rs_buffer s ++ zdrop skip d)
      (rs_offset s + zlen (zdrop skip d)) (0 <? zlen (zdrop skip d)) ltac:(lia) ltac:(lia) H6) as HF.
    destruct (fold_gaps _ _ _ _) as [[[b' o'] g'] p']. rewrite zlen_app in HF.
    destruct HF as (F1 & F2 & F3). cbn [snd]. unfold taken in *.
    apply Hend; [split| |]; unfold taken;
      cbn [set_rs_data rs_offset rs_buffer rs_recv_high rs_recv_max rs_gap_buffer]; (lia || done).
  - assert (Hg : stream_ok (set_rs_data (rs_buffer s) (rs_offset s)
              (stash (o + skip) (zdrop skip d) (rs_gap_buffer s)) s)).
    { split; try done. cbn [set_rs_data rs_gap_buffer rs_recv_high]. unfold stash.
      repeat case_match; try done; (apply btree_insert_forall; [cbn; lia|done]). }
    destruct (0 <? zlen (zdrop skip d)); cbn [snd]; by apply Hend.
Qed.

(* ------------------------------------------------------------------ *)
(** ** The connection

    [others]: what the other connections of the process hold.  The sums run over
    the live streams; [rr] and [rc] are what the reaped ones contributed. *)
Record flow_ok (others : Z) (m : list (Z * RecvStream)) (pool : list RecvStream)
    (received consumed max_data buffered : Z) : Prop := {
  fo_sorted : keys_sorted m;
  fo_streams : Forall (fun e => stream_ok e.2) m;
  fo_sums : exists rr rc, 0 <= rc <= rr /\
    received = rr + sum_by rs_recv_high m /\ consumed = rc + sum_by taken m;
  fo_limit : received <= max_data;
  fo_max : max_data <= MAX_VARINT;
  fo_window : max_data <= consumed + INITIAL_MAX_DATA;
  fo_buffered : buffered = others + (received - consumed);
  fo_others : 0 <= others /\ others + INITIAL_MAX_DATA <= U64_MAX;
  fo_live : zlen m <= MAX_CONCURRENT_RECV_STREAMS;
  fo_pool : Forall (eq recv_default) pool;
}.

Definition FlowInv (others : Z) (c : Conn) : Prop :=
  flow_ok others (c_recv_streams c) (c_recv_pool c) (c_data_received c) (c_data_consumed c)
    (c_max_data_advertised c) (c_recv_buffered c).

Lemma sum_by_le {V} (f g : V -> Z) m :
  Forall (fun e => f e.2 <= g e.2) m -> sum_by f m <= sum_by g m.
Proof. unfold sum_by. induction 1; cbn [foldr]; lia. Qed.

Lemma sum_by_nonneg {V} (f : V -> Z) m : Forall (fun e => 0 <= f e.2) m -> 0 <= sum_by f m.
Proof. unfold sum_by. induction 1; cbn [foldr]; lia. Qed.

Lemma sum_by_sub {V} (f g : V -> Z) m :
  sum_by (fun v => f v - g v) m = sum_by f m - sum_by g m.
Proof. unfold sum_by. induction m as [|[k v] m IH]; cbn [foldr snd]; lia. Qed.

Lemma stream_ok_default : stream_ok recv_default.
Proof. split; try by vm_compute. Qed.

(** Bytes buffered in order, and the counters. *)
Lemma flow_bounds others m pool R C M B :
  flow_ok others m pool R C M B ->
  0 <= C <= R /\ R - C <= INITIAL_MAX_DATA /\
  0 <= sum_by (fun s => zlen (rs_buffer s)) m <= R - C.
Proof.
  intros [_ Hs (rr & rc & Hrc & -> & ->) H4 H5 H6 _ _ _ _].
  assert (Ht : 0 <= sum_by taken m).
  { apply sum_by_nonneg. eapply Forall_impl; [exact Hs|]. by intros ? []. }
  assert (Hb : sum_by (fun s => zlen (rs_buffer s)) m <= sum_by (fun s => rs_recv_high s - taken s) m).
  { apply sum_by_le. eapply Forall_impl; [exact Hs|]. intros [k s] []. cbn [snd] in *.
    unfold taken in *. lia. }
  assert (Hb0 : 0 <= sum_by (fun s => zlen (rs_buffer s)) m).
  { apply sum_by_nonneg, Forall_true. intros; apply zlen_nonneg. }
  rewrite sum_by_sub in Hb. split_and!; lia.
Qed.

Lemma btree_insert_live {V} k (v w : V) m :
  keys_sorted m -> btree_get k m = Some w -> zlen (btree_insert k v m) = zlen m.
Proof. intros Hs Hg. rewrite zlen_btree_insert, Hg by done. lia. Qed.

(** A live stream changes: its new received and taken bytes enter the totals. *)
Lemma flow_replace others m pool R C M B sid s s' :
  flow_ok others m pool R C M B -> btree_get sid m = Some s -> stream_ok s' ->
  let dr := rs_recv_high s' - rs_recv_high s in
  let dc := taken s' - taken s in
  0 <= dc -> R + dr <= M ->
  flow_ok others (btree_insert sid s' m) pool (R + dr) (C + dc) M (B + dr - dc).
Proof.
  intros [H1 H2 (rr & rc & Hrc & -> & ->) H4 H5 H6 H7 H8 H9 H10] Hg Hs' dr dc Hdc Hdr.
  split; try done; [by apply btree_insert_sorted|by apply btree_insert_forall| |lia|lia|].
  - exists rr, rc. rewrite !sum_by_insert, Hg by done. split_and!; lia.
  - erewrite btree_insert_live; done.
Qed.

(** A stream opens. *)
Lemma flow_open others m pool R C M B sid :
  flow_ok others m pool R C M B -> btree_get sid m = None ->
  zlen m < MAX_CONCURRENT_RECV_STREAMS ->
  flow_ok others (btree_insert sid recv_default m) pool R C M B.
Proof.
  intros [H1 H2 (rr & rc & Hrc & -> & ->) H4 H5 H6 H7 H8 H9 H10] Hg Hl.
  split; try done; [by apply btree_insert_sorted| | |].
  - apply btree_insert_forall; [apply stream_ok_default|done].
  - exists rr, rc. rewrite !sum_by_insert, Hg by done. cbn [recv_default rs_recv_high].
    change (taken recv_default) with 0. split_and!; lia.
  - rewrite zlen_btree_insert, Hg by done. lia.
Qed.

(** A stream is reaped: what it received and delivered stays counted. *)
Lemma flow_remove others m pool R C M B sid :
  flow_ok others m pool R C M B -> flow_ok others (btree_remove sid m) pool R C M B.
Proof.
  intros [H1 H2 (rr & rc & Hrc & -> & ->) H4 H5 H6 H7 H8 H9 H10].
  split; try done; [by apply btree_remove_sorted|by apply btree_remove_forall| |].
  - rewrite !sum_by_remove. destruct (btree_get sid m) as [s|] eqn:Eg; [|exists rr, rc; lia].
    pose proof (proj1 (Forall_forall _ _) H2 _ (btree_get_in _ _ _ Eg)) as [Q1 Q2 _ _ _ _].
    cbn [snd] in *. pose proof (zlen_nonneg (rs_buffer s)). unfold taken in *.
    exists (rr + rs_recv_high s), (rc + (rs_offset s - zlen (rs_buffer s))). split_and!; lia.
  - assert (Hlen : forall g : list (Z * RecvStream), zlen (btree_remove sid g) <= zlen g).
    { intros g. induction g as [|[k v] g IH]; cbn [btree_remove]; [done|].
      rewrite zlen_cons. case_match; rewrite ?zlen_cons; lia. }
    specialize (Hlen m). lia.
Qed.

(* ------------------------------------------------------------------ *)
(** ** Every operation keeps the accounts *)

Definition flow_view (c : Conn) :=
  (c_recv_streams c, c_recv_pool c, c_data_received c, c_data_consumed c,
   c_max_data_advertised c, c_recv_buffered c).

Lemma FlowInv_view others c c' : flow_view c' = flow_view c -> FlowInv others c -> FlowInv others c'.
Proof. unfold flow_view, FlowInv. by intros [= -> -> -> -> -> ->]. Qed.

Lemma FlowInv_preserved {A} others (m : St Conn A) c :
  preserves flow_view m -> FlowInv others c -> FlowInv others (exec m c).
Proof. intros Hm. apply FlowInv_view, Hm. Qed.

Lemma view_close e : preserves flow_view (close_with_error e).
Proof. intros c. unfold close_with_error. rewrite exec_modify. by repeat case_match. Qed.
Lemma view_ack : preserves flow_view note_app_ack_eliciting.
Proof. intros c. unfold note_app_ack_eliciting. rewrite exec_modify. by case_match. Qed.
Lemma view_count sid : preserves flow_view (count_peer_stream sid).
Proof. intros c. unfold count_peer_stream. rewrite exec_modify. by repeat case_match. Qed.
Lemma view_push sid : preserves flow_view (push_opened sid).
Proof. done. Qed.
Lemma view_reset sid code : preserves flow_view (record_peer_reset sid code).
Proof. intros c. unfold record_peer_reset. rewrite exec_modify. by case_match. Qed.
Lemma view_mark sid : preserves flow_view (mark_reaped sid).
Proof. done. Qed.
Lemma view_blocked b : preserves flow_view (on_blocked b).
Proof. by destruct b. Qed.
#[export] Hint Resolve view_close view_ack view_count view_push view_reset view_mark
  view_blocked : preserves.

Lemma btree_get_insert {V} k (v : V) m : btree_get k (btree_insert k v m) = Some v.
Proof.
  induction m as [|[k' v'] m IH]; cbn [btree_insert btree_get]; [by rewrite Z.eqb_refl|].
  destruct (k <? k'); [cbn [btree_get]; by rewrite Z.eqb_refl|].
  destruct (k =? k') eqn:E; cbn [btree_get]; [by rewrite Z.eqb_refl|]. by rewrite E.
Qed.

Lemma over_limit_live sid c :
  over_stream_limit sid c = false -> zlen (c_recv_streams c) < MAX_CONCURRENT_RECV_STREAMS.
Proof.
  unfold over_stream_limit. destruct (c_client c).
  - unfold client_exceeds_stream_limit. destruct (Z.land sid 3 =? 0); intros; bool_to_prop; lia.
  - unfold exceeds_stream_limit. intros; bool_to_prop; lia.
Qed.

(** A new stream starts from the defaults, recycled or not. *)
Lemma open_recv_stream_inv others sid c :
  FlowInv others c -> has_stream sid c = false -> over_stream_limit sid c = false ->
  FlowInv others (exec (open_recv_stream sid) c) /\
  btree_get sid (c_recv_streams (exec (open_recv_stream sid) c)) = Some recv_default.
Proof.
  intros HI Hn Hl%over_limit_live. unfold open_recv_stream. rewrite exec_modify.
  unfold has_stream in Hn. destruct (btree_get sid (c_recv_streams c)) eqn:Eg; [done|].
  pose proof (flow_open _ _ _ _ _ _ _ sid HI Eg Hl) as HO.
  destruct (c_recv_pool c) as [|p pool] eqn:Ep.
  - split; [|apply btree_get_insert]. unfold FlowInv.
    cbn [set_recv_streams c_recv_streams c_recv_pool]. by rewrite Ep.
  - pose proof (fo_pool _ _ _ _ _ _ _ HO) as Hp. pose proof (Forall_inv Hp) as <-.
    split; [|apply btree_get_insert].
    destruct HO as [? ? ? ? ? ? ? ? ? _]. split; try done. by apply Forall_inv_tail in Hp.
Qed.

(** Replacing a live stream by one that only differs in its time stamp. *)
Lemma restamp_inv others sid c s t :
  FlowInv others c -> btree_get sid (c_recv_streams c) = Some s ->
  FlowInv others (set_recv_streams (btree_insert sid (set_rs_rx_us t s) (c_recv_streams c)) c).
Proof.
  intros HI Hg.
  assert (Hs : stream_ok s)
    by apply (proj1 (Forall_forall _ _) (fo_streams _ _ _ _ _ _ _ HI) _ (btree_get_in _ _ _ Hg)).
  pose proof (flow_replace _ _ _ _ _ _ _ sid s (set_rs_rx_us t s) HI Hg) as HR.
  cbn zeta in HR. change (taken (set_rs_rx_us t s)) with (taken s) in HR.
  cbn [set_rs_rx_us rs_recv_high] in HR. rewrite !Z.sub_diag, !Z.add_0_r, Z.sub_0_r in HR.
  apply HR; [by destruct Hs|done|]. apply (fo_limit _ _ _ _ _ _ _ HI).
Qed.

Lemma live_ok others sid c s :
  FlowInv others c -> btree_get sid (c_recv_streams c) = Some s -> stream_ok s.
Proof.
  intros HI Hg.
  apply (proj1 (Forall_forall _ _) (fo_streams _ _ _ _ _ _ _ HI) _ (btree_get_in _ _ _ Hg)).
Qed.

(** The machine arithmetic of a change of the totals is exact. *)
Lemma totals_exact others m pool R C M B m' pool' dr dc :
  flow_ok others m pool R C M B ->
  flow_ok others m' pool' (R + dr) (C + dc) M (B + dr - dc) -> 0 <= dr -> 0 <= dc ->
  sat_add64 R dr = R + dr /\ w64 (B + dr) = B + dr /\ sat_sub (B + dr) dc = B + dr - dc /\
  w64 (C + dc) = C + dc /\ sat_add64 C dc = C + dc.
Proof.
  intros HI HI' Hr Hc. consts.
  pose proof (flow_bounds _ _ _ _ _ _ _ HI) as (Q1 & Q2 & _).
  pose proof (flow_bounds _ _ _ _ _ _ _ HI') as (P1 & P2 & _).
  destruct HI as [_ _ _ H4 H5 H6 H7 H8 _ _]. destruct HI' as [_ _ _ I4 I5 I6 I7 _ _ _].
  unfold sat_add64, sat_sub. rewrite !w64_small by (unfold is_u64; lia). split_and!; lia.
Qed.

(** The part of the STREAM arm past its guards. *)
Lemma accept_frame_inv others sid o d fin c s :
  FlowInv others c -> btree_get sid (c_recv_streams c) = Some s -> 0 <= o ->
  let frame_end := sat_add64 o (zlen d) in
  let delta := sat_sub frame_end (rs_recv_high s) in
  past_limits frame_end delta s c = false ->
  let s1 := if rs_recv_high s <? frame_end then set_rs_recv_high frame_end s else s in
  FlowInv others
    (c |> set_data_received (sat_add64 (c_data_received c) delta)
       |> set_recv_buffered (w64 (c_recv_buffered c + delta))
       |> set_recv_streams (btree_insert sid (ingest o d fin s1).2 (c_recv_streams c))).
Proof.
  intros HI Hg Ho fe delta Hp s1. pose proof (live_ok _ _ _ _ HI Hg) as Hs.
  pose proof Hs as [K1 K2 K3 K4 K5 K6]. consts. pose proof (zlen_nonneg d) as Hz.
  unfold past_limits in Hp. apply orb_false_elim in Hp as [Hp1 Hp2]. bool_to_prop.
  assert (Hfe : fe = o + zlen d) by (unfold fe, sat_add64 in *; lia).
  assert (Hs1 : stream_ok s1 /\ taken s1 = taken s /\ rs_recv_high s1 = rs_recv_high s + delta /\
                o + zlen d <= rs_recv_high s1).
  { unfold s1, delta, sat_sub. destruct (rs_recv_high s <? fe) eqn:E; bool_to_prop.
    - split_and!; [|done|cbn [set_rs_recv_high rs_recv_high]; lia..].
      split; try done; cbn [set_rs_recv_high rs_recv_high rs_recv_max rs_offset rs_gap_buffer]; [lia|].
      eapply Forall_impl; [exact K6|]. cbn beta. intros; lia.
    - split_and!; [done|done|lia|lia]. }
  destruct Hs1 as (Hs1 & Ht1 & Hh1 & Hle). clearbody s1.
  destruct (ingest_within s1 o d fin Hs1 Ho Hle) as (Hs2 & Ht2 & Hh2).
  set (s2 := (ingest o d fin s1).2) in *. clearbody s2.
  assert (Hd : 0 <= delta) by (unfold delta, sat_sub; lia).
  pose proof (flow_replace _ _ _ _ _ _ _ sid s s2 HI Hg Hs2) as HR. cbn zeta in HR.
  replace (rs_recv_high s2 - rs_recv_high s) with delta in HR by lia.
  replace (taken s2 - taken s) with 0 in HR by lia.
  assert (Hlim : c_data_received c + delta <= c_max_data_advertised c).
  { pose proof (fo_max _ _ _ _ _ _ _ HI). unfold sat_add64 in Hp2. lia. }
  specialize (HR ltac:(lia) Hlim).
  destruct (totals_exact _ _ _ _ _ _ _ _ _ delta 0 HI HR Hd ltac:(lia)) as (E1 & E2 & _).
  unfold FlowInv. cbn [set_recv_streams set_recv_buffered set_data_received c_recv_streams c_recv_pool
    c_data_received c_data_consumed c_max_data_advertised c_recv_buffered].
  rewrite E1, E2. by rewrite Z.add_0_r, Z.sub_0_r in HR.
Qed.

(** The stream a frame is for, opened if need be. *)
Lemma opened_inv others sid c (was_new := negb (has_stream sid c)) :
  FlowInv others c -> was_new && over_stream_limit sid c = false ->
  forall c1, c1 = exec (swhen was_new (open_recv_stream sid)) c ->
  FlowInv others c1 /\ btree_get sid (c_recv_streams c1) = Some (the_stream sid c1).
Proof.
  intros HI Hl c1 ->. unfold was_new in *. rewrite exec_when. unfold the_stream.
  destruct (has_stream sid c) eqn:Eh; cbn [negb andb] in *.
  - split; [done|]. unfold has_stream in Eh. by destruct (btree_get sid (c_recv_streams c)).
  - destruct (open_recv_stream_inv others sid c HI Eh Hl) as [H1 H2]. split; [done|]. by rewrite H2.
Qed.

Lemma on_stream_inv others level sid o d fin c :
  0 <= o -> FlowInv others c -> FlowInv others (exec (on_stream level sid o d fin) c).
Proof.
  intros Ho HI. unfold on_stream. destruct level; [done|done|].
  rewrite exec_bind, eval_gets, exec_gets. destruct (is_reaped sid c).
  { apply FlowInv_preserved; [preserve|done]. }
  rewrite !exec_bind, !eval_gets, !exec_gets.
  destruct (negb (has_stream sid c) && over_stream_limit sid c) eqn:El.
  { apply FlowInv_preserved; [preserve|done]. }
  rewrite exec_bind.
  set (c1 := exec (swhen _ _) c).
  assert (H1 : FlowInv others c1 /\ btree_get sid (c_recv_streams c1) = Some (the_stream sid c1)).
  { destruct (opened_inv others sid c HI El _ eq_refl) as [HO HG]. unfold c1.
    rewrite exec_when in *. destruct (negb (has_stream sid c)); [|done].
    rewrite exec_bind, exec_modify. split; [by apply restamp_inv|].
    unfold the_stream at 2. cbn [set_recv_streams c_recv_streams]. by rewrite btree_get_insert. }
  destruct H1 as [HI1 Hg1]. clearbody c1.
  rewrite !exec_bind, !eval_gets, !exec_gets. cbn zeta.
  set (s := the_stream sid c1) in *. clearbody s.
  destruct (past_limits _ _ s c1) eqn:Ep.
  { apply FlowInv_preserved; [preserve|done]. }
  rewrite !exec_bind, !exec_modify. unfold recv_buffered_add. rewrite exec_modify.
  unfold put_recv_stream. rewrite exec_modify. rewrite !eval_gets, !exec_gets.
  apply FlowInv_preserved; [preserve|]. apply FlowInv_preserved; [preserve|].
  apply FlowInv_preserved; [preserve|].
  apply FlowInv_preserved; [preserve|].
  eapply FlowInv_view; [|apply (accept_frame_inv others sid o d fin c1 s HI1 Hg1 Ho Ep)]. done.
Qed.

(** [recv_buffered_sub] with its test for zero. *)
Lemma exec_buffered_sub n c :
  0 <= c_recv_buffered c ->
  flow_view (exec (recv_buffered_sub n) c) =
  flow_view (set_recv_buffered (sat_sub (c_recv_buffered c) n) c).
Proof.
  intros H. unfold recv_buffered_sub. rewrite exec_when, exec_modify.
  destruct (n =? 0) eqn:E; [|done]. bool_to_prop. subst. cbn [negb].
  unfold flow_view, sat_sub. cbn [set_recv_buffered c_recv_streams c_recv_pool c_data_received
    c_data_consumed c_max_data_advertised c_recv_buffered].
  by rewrite Z.sub_0_r, Z.max_r.
Qed.

(** The part of RESET_STREAM past its guards: the stream is replaced by its
    terminal state and its bytes are all counted as consumed. *)
Lemma accept_reset_inv others sid final c s :
  FlowInv others c -> btree_get sid (c_recv_streams c) = Some s ->
  rs_recv_high s <= final ->
  let delta := sat_sub final (rs_recv_high s) in
  past_limits final delta s c = false ->
  let newly := sat_sub final (rs_consumed s) in
  let B := w64 (c_recv_buffered c + delta) in
  0 <= B /\
  FlowInv others
    (c |> set_data_received (sat_add64 (c_data_received c) delta)
       |> set_recv_buffered (sat_sub B newly)
       |> set_data_consumed (sat_add64 (c_data_consumed c) newly)
       |> set_recv_streams (btree_insert sid (apply_reset final s) (c_recv_streams c))).
Proof.
  intros HI Hg Hf delta Hp newly B. pose proof (live_ok _ _ _ _ HI Hg) as Hs.
  pose proof Hs as [K1 K2 K3 K4 K5 K6]. consts. pose proof (zlen_nonneg (rs_buffer s)) as Hz.
  unfold past_limits in Hp. apply orb_false_elim in Hp as [Hp1 Hp2]. bool_to_prop.
  assert (Ht : taken (apply_reset final s) = final) by apply Z.sub_0_r.
  assert (Hs2 : stream_ok (apply_reset final s)).
  { split; rewrite ?Ht; cbn [apply_reset set_rs_data set_rs_recv_high set_rs_state rs_offset rs_recv_high
      rs_recv_max rs_gap_buffer]; [unfold taken in *; lia..|apply Forall_nil_2]. }
  assert (Hn : newly = final - taken s /\ delta = final - rs_recv_high s).
  { unfold newly, delta, sat_sub. rewrite rs_consumed_taken by done. unfold taken in *. lia. }
  destruct Hn as [Hn Hd].
  pose proof (flow_replace _ _ _ _ _ _ _ sid s _ HI Hg Hs2) as HR. cbn zeta in HR.
  change (rs_recv_high (apply_reset final s)) with final in HR. rewrite Ht, <- Hn, <- Hd in HR.
  assert (Hlim : c_data_received c + delta <= c_max_data_advertised c).
  { pose proof (fo_max _ _ _ _ _ _ _ HI). unfold sat_add64 in Hp2. lia. }
  assert (Hn0 : 0 <= newly) by (unfold taken in *; lia). specialize (HR Hn0 Hlim).
  destruct (totals_exact _ _ _ _ _ _ _ _ _ delta newly HI HR ltac:(lia) Hn0)
    as (E1 & E2 & E3 & _ & E5).
  pose proof (flow_bounds _ _ _ _ _ _ _ HI) as (Q1 & _).
  pose proof (fo_buffered _ _ _ _ _ _ _ HI) as HB. pose proof (fo_others _ _ _ _ _ _ _ HI) as HO.
  unfold B. rewrite E2. split; [lia|].
  unfold FlowInv. cbn [set_recv_streams set_recv_buffered set_data_received set_data_consumed
    c_recv_streams c_recv_pool c_data_received c_data_consumed c_max_data_advertised c_recv_buffered].
  by rewrite E1, E3, E5.
Qed.

Lemma process_reset_stream_inv others sid code final c :
  FlowInv others c -> FlowInv others (exec (process_reset_stream sid code final) c).
Proof.
  intros HI. unfold process_reset_stream.
  rewrite exec_bind, eval_gets, exec_gets. destruct (is_reaped sid c).
  { apply FlowInv_preserved; [preserve|done]. }
  rewrite exec_bind, eval_gets, exec_gets. cbn zeta.
  destruct (Z.land sid 3 =? _). { apply FlowInv_preserved; [preserve|done]. }
  rewrite !exec_bind, !eval_gets, !exec_gets.
  destruct (negb (has_stream sid c) && over_stream_limit sid c) eqn:El.
  { apply FlowInv_preserved; [preserve|done]. }
  rewrite exec_bind. set (c1 := exec (swhen _ _) c).
  destruct (opened_inv others sid c HI El c1 eq_refl) as [HI1 Hg1]. clearbody c1.
  rewrite exec_bind, eval_gets, exec_gets. set (s := the_stream sid c1) in *. clearbody s.
  destruct ((final <? rs_recv_high s) || _) eqn:Ef. { apply FlowInv_preserved; [preserve|done]. }
  apply orb_false_elim in Ef as [Ef _]. bool_to_prop.
  rewrite exec_bind, eval_gets, exec_gets. destruct (past_limits _ _ s c1) eqn:Ep.
  { apply FlowInv_preserved; [preserve|done]. }
  destruct (accept_reset_inv others sid final c1 s HI1 Hg1 Ef Ep) as [HB HA].
  rewrite exec_bind, exec_modify. rewrite exec_bind. unfold recv_buffered_add. rewrite exec_modify.
  rewrite exec_bind. unfold put_recv_stream. rewrite exec_modify.
  rewrite exec_bind, exec_modify. rewrite exec_bind.
  apply FlowInv_preserved; [preserve|].
  eapply FlowInv_view; [apply exec_buffered_sub; exact HB|]. exact HA.
Qed.

(** Taking [n] bytes off a live stream. *)
Lemma take_bytes_inv others sid c s s' n :
  FlowInv others c -> btree_get sid (c_recv_streams c) = Some s -> stream_ok s' ->
  rs_recv_high s' = rs_recv_high s -> taken s' = taken s + n -> 0 <= n ->
  FlowInv others
    (exec (put_recv_stream sid s';;
           modify (fun c => set_data_consumed (w64 (c_data_consumed c + n)) c);;
           recv_buffered_sub n) c).
Proof.
  intros HI Hg Hs' Hh Ht Hn.
  pose proof (flow_replace _ _ _ _ _ _ _ sid s s' HI Hg Hs') as HR. cbn zeta in HR.
  replace (rs_recv_high s' - rs_recv_high s) with 0 in HR by lia.
  replace (taken s' - taken s) with n in HR by lia.
  specialize (HR Hn ltac:(rewrite Z.add_0_r; apply (fo_limit _ _ _ _ _ _ _ HI))).
  destruct (totals_exact _ _ _ _ _ _ _ _ _ 0 n HI HR ltac:(lia) Hn) as (_ & _ & E3 & E4 & _).
  pose proof (flow_bounds _ _ _ _ _ _ _ HI) as (Q1 & _).
  pose proof (fo_buffered _ _ _ _ _ _ _ HI) as HB. pose proof (fo_others _ _ _ _ _ _ _ HI) as HO.
  rewrite Z.add_0_r in E3, HR.
  rewrite !exec_bind, exec_modify. unfold put_recv_stream. rewrite exec_modify.
  eapply FlowInv_view; [apply exec_buffered_sub; cbn; lia|].
  unfold FlowInv. cbn [set_recv_streams set_recv_buffered set_data_consumed
    c_recv_streams c_recv_pool c_data_received c_data_consumed c_max_data_advertised c_recv_buffered].
  by rewrite E3, E4, <- (Z.add_0_r (c_recv_buffered c)).
Qed.

(** Reading moves bytes from the buffer to the application. *)
Lemma drain_ok cap s :
  0 <= cap -> stream_ok s ->
  let '((out, _), s') := drain cap s in
  stream_ok s' /\ rs_recv_high s' = rs_recv_high s /\ taken s' = taken s + zlen out /\
  zlen (rs_buffer s') = zlen (rs_buffer s) - zlen out /\
  zlen out = Z.min cap (zlen (rs_buffer s)).
Proof.
  intros Hc [H1 H2 H3 H4 H5 H6]. unfold drain. pose proof (zlen_nonneg (rs_buffer s)) as Hb.
  set (n := Z.min cap (zlen (rs_buffer s))).
  assert (Ho : zlen (ztake n (rs_buffer s)) = n) by (rewrite zlen_ztake; lia).
  assert (Hr : zlen (zdrop n (rs_buffer s)) = zlen (rs_buffer s) - n) by (rewrite zlen_zdrop; lia).
  assert (Ht : taken (set_rs_data (zdrop n (rs_buffer s)) (rs_offset s) (rs_gap_buffer s) s) =
               taken s + n).
  { unfold taken. cbn [set_rs_data rs_offset rs_buffer]. lia. }
  rewrite Ho. split_and!; [|done|done|exact Hr|done].
  split; rewrite ?Ht; cbn [set_rs_data rs_offset rs_recv_high rs_recv_max rs_gap_buffer];
    first [done | lia].
Qed.

Lemma stream_recv_inv others sid cap c :
  0 <= cap -> FlowInv others c -> FlowInv others (exec (stream_recv sid cap) c).
Proof.
  intros Hc HI. unfold stream_recv. rewrite exec_bind, eval_gets, exec_gets.
  destruct (btree_get sid (c_recv_streams c)) as [s|] eqn:Eg; [|done].
  pose proof (drain_ok cap s Hc (live_ok _ _ _ _ HI Eg)) as HD.
  destruct (drain cap s) as [[out eof] s']. destruct HD as (D1 & D2 & D3 & _ & _). cbn [fst].
  pose proof (take_bytes_inv others sid c s s' (zlen out) HI Eg D1 D2 D3 (zlen_nonneg out)) as HT.
  rewrite !exec_bind, exec_ret in *. exact HT.
Qed.

(** The discarding loop empties the buffer and counts every byte. *)
Lemma discard_loop_ok fuel : forall s total,
  stream_ok s -> (length (rs_buffer s) < fuel)%nat -> 0 <= total ->
  total + zlen (rs_buffer s) <= U64_MAX ->
  let '(s', total') := discard_loop fuel s total in
  stream_ok s' /\ rs_recv_high s' = rs_recv_high s /\ rs_buffer s' = [] /\
  taken s' = taken s + zlen (rs_buffer s) /\ total' = total + zlen (rs_buffer s).
Proof.
  induction fuel as [|fuel IH]; intros s total Hs Hf Ht HU; [lia|]. cbn [discard_loop].
  pose proof (drain_ok 2048 s ltac:(lia) Hs) as HD.
  destruct (drain 2048 s) as [[out eof] s']. destruct HD as (D1 & D2 & D3 & D4 & D5).
  pose proof (zlen_nonneg (rs_buffer s)) as Hb.
  destruct (zlen out =? 0) eqn:E; bool_to_prop.
  - assert (E0 : zlen (rs_buffer s) = 0) by lia. assert (E1 : zlen (rs_buffer s') = 0) by lia.
    apply zlen_nil_inv in E1. split_and!; [done|done|done|lia|lia].
  - rewrite w64_small by (unfold is_u64; lia).
    specialize (IH s' (total + zlen out) D1 ltac:(unfold zlen in *; lia) ltac:(lia) ltac:(lia)).
    destruct (discard_loop fuel s' _) as [s2 total2]. destruct IH as (I1 & I2 & I3 & I4 & I5).
    split_and!; [done|congruence|done|lia|lia].
Qed.

Lemma discard_recv_inv others sid c :
  FlowInv others c -> FlowInv others (exec (discard_recv sid) c).
Proof.
  intros HI. unfold discard_recv. rewrite exec_bind, eval_gets, exec_gets.
  destruct (btree_get sid (c_recv_streams c)) as [s|] eqn:Eg; [|done].
  pose proof (live_ok _ _ _ _ HI Eg) as Hs. pose proof Hs as [K1 K2 K3 K4 K5 _]. consts.
  pose proof (discard_loop_ok (S (length (rs_buffer s))) s 0 Hs ltac:(lia) ltac:(lia)
    ltac:(unfold taken in *; lia)) as HD.
  destruct (discard_loop _ s 0) as [s' total]. destruct HD as (D1 & D2 & _ & D4 & ->).
  apply (take_bytes_inv others sid c s s' (0 + zlen (rs_buffer s))); try done;
    pose proof (zlen_nonneg (rs_buffer s)); lia.
Qed.

(** Granting credit: the windows only move forward. *)
Lemma grant_max_data_inv others c :
  FlowInv others c ->
  FlowInv others (exec grant_max_data c) /\
  c_max_data_advertised c <= c_max_data_advertised (exec grant_max_data c).
Proof.
  intros HI. consts. pose proof (flow_bounds _ _ _ _ _ _ _ HI) as (Q1 & Q2 & _).
  pose proof HI as [H1 H2 H3 H4 H5 H6 H7 H8 H9 H10]. unfold grant_max_data.
  rewrite exec_bind, eval_gets, exec_gets. destruct (_ && _) eqn:Es.
  - apply andb_prop in Es as [Es _]. bool_to_prop. unfold sat_sub in Es.
    rewrite exec_bind, exec_when, exec_modify, exec_bind, eval_gets, exec_gets.
    cbn [orb]. rewrite exec_bind, exec_modify, exec_ret.
    set (M' := Z.min (w64 (c_data_consumed c + INITIAL_MAX_DATA)) MAX_VARINT).
    assert (HM : M' = Z.min (c_data_consumed c + INITIAL_MAX_DATA) MAX_VARINT).
    { unfold M'. rewrite w64_small; [done|]. unfold is_u64. lia. }
    clearbody M'.
    assert (INITIAL_MAX_DATA / 2 = 4194304) by by vm_compute.
    split; [|change (c_max_data_advertised c <= M'); lia].
    change (flow_ok others (c_recv_streams c) (c_recv_pool c) (c_data_received c)
      (c_data_consumed c) M' (c_recv_buffered c)).
    split; try done; lia.
  - rewrite exec_bind, exec_when, exec_bind, eval_gets, exec_gets. cbn [orb].
    destruct (c_force_max_data c); [|done]. rewrite exec_bind, exec_modify, exec_ret.
    split; [done|]. cbn. lia.
Qed.

(** One stream of the sweep. *)
Lemma slide_ok s (s' := set_rs_recv_max
    (Z.min (w64 (rs_consumed s + INITIAL_MAX_STREAM_DATA)) MAX_VARINT) s) :
  stream_ok s -> sat_sub (rs_recv_max s) (rs_consumed s) <= INITIAL_MAX_STREAM_DATA / 2 ->
  stream_ok s' /\ rs_recv_max s <= rs_recv_max s'.
Proof.
  intros Hs Ht. pose proof Hs as [H1 H2 H3 H4 H5 H6]. consts.
  unfold s' in *. rewrite rs_consumed_taken in * by done. unfold sat_sub in Ht.
  assert (INITIAL_MAX_STREAM_DATA / 2 = 1048576) by by vm_compute.
  pose proof (zlen_nonneg (rs_buffer s)).
  rewrite w64_small by (unfold is_u64, taken in *; lia).
  split; [|cbn [set_rs_recv_max rs_recv_max]; lia].
  split; change (taken (set_rs_recv_max _ s)) with (taken s);
    cbn [set_rs_recv_max rs_recv_max rs_recv_high rs_offset rs_gap_buffer]; first [done | lia].
Qed.

Lemma stream_sweep_ok force m : forall used,
  Forall (fun e => stream_ok e.2) m ->
  let '(m', _, _) := stream_sweep force used m in
  map fst m' = map fst m /\ Forall (fun e => stream_ok e.2) m' /\
  sum_by rs_recv_high m' = sum_by rs_recv_high m /\ sum_by taken m' = sum_by taken m /\
  (forall sid s, btree_get sid m = Some s ->
     exists s', btree_get sid m' = Some s' /\ rs_recv_max s <= rs_recv_max s').
Proof.
  induction m as [|[sid rs] m IH]; intros used Hm; cbn [stream_sweep].
  { split_and!; try done. }
  destruct (PACKET_BODY_BUDGET <? used). { split_and!; try done. intros ? s ?. by exists s. }
  pose proof (Forall_inv Hm) as Hrs. apply Forall_inv_tail in Hm. cbn [snd] in Hrs.
  set (keep := fun (rs' : RecvStream) => stream_ok rs' /\ rs_recv_high rs' = rs_recv_high rs /\
                  taken rs' = taken rs /\ rs_recv_max rs <= rs_recv_max rs').
  assert (Hcons : forall rs' u, keep rs' ->
    let '(m', _, _) := stream_sweep force u m in
    map fst ((sid, rs') :: m') = map fst ((sid, rs) :: m) /\
    Forall (fun e => stream_ok e.2) ((sid, rs') :: m') /\
    sum_by rs_recv_high ((sid, rs') :: m') = sum_by rs_recv_high ((sid, rs) :: m) /\
    sum_by taken ((sid, rs') :: m') = sum_by taken ((sid, rs) :: m) /\
    (forall k s, btree_get k ((sid, rs) :: m) = Some s ->
       exists s', btree_get k ((sid, rs') :: m') = Some s' /\ rs_recv_max s <= rs_recv_max s')).
  { intros rs' u (R1 & R2 & R3 & R4). specialize (IH u Hm).
    destruct (stream_sweep force u m) as [[m' fs] dn]. destruct IH as (I1 & I2 & I3 & I4 & I5).
    split_and!; [cbn [map fst]; by rewrite I1|by apply Forall_cons_2| | |].
    - unfold sum_by in *. cbn [foldr snd]. lia.
    - unfold sum_by in *. cbn [foldr snd]. lia.
    - intros k s. cbn [btree_get]. destruct (k =? sid); [intros [= <-]; by exists rs'|apply I5]. }
  assert (Hself : keep rs) by (split_and!; [done|done|done|lia]).
  destruct (rs_is_closed rs).
  { specialize (Hcons rs used Hself). by destruct (stream_sweep force used m) as [[m' fs] dn]. }
  set (th := sat_sub _ _ <=? _). destruct (th || force).
  - set (rs' := if th then _ else rs).
    assert (Hk : keep rs').
    { unfold rs'. destruct th eqn:Eth; [|done]. unfold th in Eth. bool_to_prop.
      destruct (slide_ok rs Hrs Eth) as [S1 S2]. split_and!; done. }
    specialize (Hcons rs' (used + max_stream_data_len sid (rs_recv_max rs')) Hk).
    by destruct (stream_sweep force _ m) as [[m' fs] dn].
  - specialize (Hcons rs used Hself). by destruct (stream_sweep force used m) as [[m' fs] dn].
Qed.

Lemma grant_max_stream_data_inv others used c :
  FlowInv others c -> FlowInv others (exec (grant_max_stream_data used) c).
Proof.
  intros HI. pose proof HI as [H1 H2 (rr & rc & Hrc & E1 & E2) H4 H5 H6 H7 H8 H9 H10].
  unfold grant_max_stream_data. rewrite exec_bind, eval_gets, exec_gets.
  pose proof (stream_sweep_ok (c_force_max_stream_data c) (c_recv_streams c) used H2) as HS.
  destruct (stream_sweep _ used _) as [[m' fs] dn]. destruct HS as (S1 & S2 & S3 & S4 & _).
  rewrite exec_bind, exec_modify.
  apply FlowInv_preserved; [preserve|].
  change (flow_ok others m' (c_recv_pool c) (c_data_received c) (c_data_consumed c)
    (c_max_data_advertised c) (c_recv_buffered c)).
  split; try done.
  - unfold keys_sorted in *. by rewrite S1.
  - exists rr, rc. by rewrite S3, S4.
  - apply (f_equal length) in S1. rewrite !length_map in S1. unfold zlen in *. lia.
Qed.

Lemma view_grant_streams : preserves flow_view grant_max_streams.
Proof. unfold grant_max_streams. preserve. Qed.
#[export] Hint Resolve view_grant_streams : preserves.

Lemma reap_one_inv others sid c : FlowInv others c -> FlowInv others (exec (reap_one sid) c).
Proof.
  intros HI. unfold reap_one. rewrite !exec_bind, !exec_modify.
  apply FlowInv_preserved; [preserve|].
  set (c1 := match btree_get sid (c_send_streams c) with Some _ => _ | None => c end).
  assert (HI1 : FlowInv others c1)
    by (eapply FlowInv_view; [|exact HI]; unfold c1; by case_match).
  clearbody c1. destruct (btree_get sid (c_recv_streams c1)) as [r|] eqn:Eg; [|done].
  pose proof (flow_remove _ _ _ _ _ _ _ sid HI1) as [F1 F2 F3 F4 F5 F6 F7 F8 F9 F10].
  split; try done. cbn [set_recv_pool set_recv_streams c_recv_pool].
  case_match; [done|]. by apply Forall_cons_2.
Qed.

Lemma reap_all_inv others sids : forall c,
  FlowInv others c -> FlowInv others (exec (reap_all sids) c).
Proof.
  induction sids as [|sid sids IH]; intros c HI; cbn [reap_all]; [done|].
  rewrite exec_bind. by apply IH, reap_one_inv.
Qed.
