(* ===== verification/QuicFlowProps.v ===== *)
(** * What the receive windows bound, and what they do not *)

From S2P Require Import Prelude.
From S2P Require Import NetTypes.
From S2P Require Import QuicWire.
From S2P Require Import QuicParams.
From S2P Require Import QuicStreams.
From S2P Require Import QuicCrypto.
From S2P Require Import QuicFlow.
From S2P Require Import QuicFlowInv.

#[local] Open Scope st_scope.

(* ------------------------------------------------------------------ *)
(** ** Runs of a connection

    Frames of the peer, calls of the application, packets built with [used] bytes
    before the stream credit, whatever happens to the send half, and the other
    connections of the process moving the shared counter. *)
Inductive ConnOp :=
| OpStream (sid offset : Z) (data : list Z) (fin : bool)
| OpReset (sid code final_size : Z)
| OpBlocked (b : Blocked)
| OpAccept
| OpRead (sid cap : Z)
| OpDiscard (sid : Z)
| OpCredit (used : Z)
| OpReap
| OpSendSide (m : list (Z * SendStream))
| OpOthers (n : Z).

(** The credit section of a 1-RTT packet. *)
Definition grant_credit (used : Z) : St Conn (list CreditFrame) :=
  a <- grant_max_streams;;
  b <- grant_max_data;;
  d <- grant_max_stream_data used;;
  sret (a ++ b ++ d).

Definition conn_step (op : ConnOp) (c : Conn) : Conn :=
  match op with
  | OpStream sid o d fin => exec (on_stream LevelOneRtt sid o d fin) c
  | OpReset sid code final => exec (process_reset_stream sid code final) c
  | OpBlocked b => exec (on_blocked b) c
  | OpAccept => exec pop_accepted_stream c
  | OpRead sid cap => exec (stream_recv sid cap) c
  | OpDiscard sid => exec (discard_recv sid) c
  | OpCredit used => exec (grant_credit used) c
  | OpReap => exec reap_finished_streams c
  | OpSendSide m => set_send_streams m c
  | OpOthers n => set_recv_buffered (c_recv_buffered c + n) c
  end.

Definition conn_run (ops : list ConnOp) (c : Conn) : Conn := foldl (fun c op => conn_step op c) c ops.

(** Arguments are unsigned; the others hold no less than nothing, and no more than
    the counter can count. *)
Definition others_ok (others : Z) : Prop := 0 <= others /\ others + INITIAL_MAX_DATA <= U64_MAX.

Definition others_step (op : ConnOp) (others : Z) : Z :=
  match op with OpOthers n => others + n | _ => others end.

Definition cop_ok (others : Z) (op : ConnOp) : Prop :=
  match op with
  | OpStream _ o _ _ => 0 <= o
  | OpRead _ cap => 0 <= cap
  | OpOthers n => others_ok (others + n)
  | _ => True
  end.

Fixpoint ops_ok (others : Z) (ops : list ConnOp) : Prop :=
  match ops with
  | [] => True
  | op :: ops => cop_ok others op /\ ops_ok (others_step op others) ops
  end.

Definition others_after (ops : list ConnOp) (others : Z) : Z :=
  foldl (fun o op => others_step op o) others ops.

Lemma grant_credit_inv others used c :
  FlowInv others c ->
  FlowInv others (exec (grant_credit used) c) /\
  c_max_data_advertised c <= c_max_data_advertised (exec (grant_credit used) c).
Proof.
  intros HI. unfold grant_credit. rewrite !exec_bind, exec_ret.
  set (c1 := exec grant_max_streams c).
  assert (Ev : flow_view c1 = flow_view c) by apply view_grant_streams.
  assert (HI1 : FlowInv others c1) by by apply (FlowInv_view others c c1 Ev).
  assert (EM : c_max_data_advertised c1 = c_max_data_advertised c) by by injection Ev.
  destruct (grant_max_data_inv others c1 HI1) as [HI2 HM].
  split; [by apply grant_max_stream_data_inv|].
  unfold grant_max_stream_data. rewrite exec_bind, eval_gets, exec_gets.
  destruct (stream_sweep _ _ _) as [[m fs] dn]. rewrite exec_bind, exec_modify, exec_bind, exec_when, exec_ret.
  destruct dn; rewrite ?exec_modify; cbn [set_force_max_stream_data set_recv_streams c_max_data_advertised]; lia.
Qed.

Lemma conn_step_inv others op c :
  cop_ok others op -> FlowInv others c -> FlowInv (others_step op others) (conn_step op c).
Proof.
  intros Hop HI. destruct op; cbn [conn_step others_step cop_ok] in *.
  - by apply on_stream_inv.
  - by apply process_reset_stream_inv.
  - apply FlowInv_preserved; [preserve|done].
  - apply FlowInv_preserved; [unfold pop_accepted_stream; preserve|done].
  - by apply stream_recv_inv.
  - by apply discard_recv_inv.
  - by apply grant_credit_inv.
  - unfold reap_finished_streams. rewrite exec_bind, eval_gets, exec_gets. by apply reap_all_inv.
  - done.
  - destruct HI as [H1 H2 H3 H4 H5 H6 H7 H8 H9 H10]. split; try done.
    cbn [set_recv_buffered c_recv_buffered c_data_received c_data_consumed]. lia.
Qed.

Lemma conn_run_inv ops : forall others c,
  ops_ok others ops -> FlowInv others c -> FlowInv (others_after ops others) (conn_run ops c).
Proof.
  induction ops as [|op ops IH]; intros others c Hops HI; [done|]. destruct Hops as [H1 H2].
  apply (IH (others_step op others) (conn_step op c) H2). by apply conn_step_inv.
Qed.

Lemma conn_new_inv client others : others_ok others -> FlowInv others (conn_new client others).
Proof.
  intros Ho. consts. split; cbn [conn_new c_recv_streams c_recv_pool c_data_received c_data_consumed
    c_max_data_advertised c_recv_buffered]; try done; try lia.
  - constructor.
  - exists 0, 0. done.
Qed.

(* ------------------------------------------------------------------ *)
(** ** The limit granted to the peer is never taken back *)

Lemma max_of_view {A} (m : St Conn A) :
  preserves flow_view m -> preserves c_max_data_advertised m.
Proof. intros H c. specialize (H c). by injection H. Qed.

Lemma max_open sid : preserves c_max_data_advertised (open_recv_stream sid).
Proof. intros c. unfold open_recv_stream. rewrite exec_modify. by case_match. Qed.

Lemma max_sub n : preserves c_max_data_advertised (recv_buffered_sub n).
Proof. unfold recv_buffered_sub. preserve. Qed.

Lemma max_reap sids : preserves c_max_data_advertised (reap_all sids).
Proof.
  induction sids as [|sid sids IH]; [done|]. cbn [reap_all]. apply preserves_bind; [|done].
  intros c. unfold reap_one. rewrite !exec_bind, !exec_modify. by repeat case_match.
Qed.

Ltac max_kept :=
  repeat match goal with
  | |- preserves _ (open_recv_stream _) => apply max_open
  | |- preserves _ (recv_buffered_sub _) => apply max_sub
  | |- preserves _ (put_recv_stream _ _) => done
  | |- preserves _ (recv_buffered_add _) => done
  | |- preserves _ (let '(_, _) := ?x in _) => destruct x
  | |- preserves c_max_data_advertised (_ ?x) =>
      solve [apply max_of_view; auto with preserves nocore]
  | |- preserves c_max_data_advertised note_app_ack_eliciting =>
      apply max_of_view, view_ack
  | |- preserves c_max_data_advertised (record_peer_reset _ _) =>
      apply max_of_view, view_reset
  | |- _ => progress preserve
  end.

Lemma max_data_monotone others op c :
  FlowInv others c -> c_max_data_advertised c <= c_max_data_advertised (conn_step op c).
Proof.
  intros HI. destruct op; cbn [conn_step];
    try (apply grant_credit_inv with others; done);
    apply Z.eq_le_incl; symmetry; try done;
    match goal with |- c_max_data_advertised (exec ?m c) = _ =>
      cut (preserves c_max_data_advertised m); [by intros ->|] end.
  - unfold on_stream. max_kept.
  - unfold process_reset_stream. max_kept.
  - max_kept.
  - unfold pop_accepted_stream. max_kept.
  - unfold stream_recv. max_kept.
  - unfold discard_recv. max_kept.
  - unfold reap_finished_streams. apply preserves_bind; [done|]. intros. apply max_reap.
Qed.

(* ------------------------------------------------------------------ *)
(** ** A frame that passes the guards, on a stream that is open *)

Definition conn_view (c : Conn) := (flow_view c, c_reaped_streams c, c_close_pending c).

Lemma conn_view_ack : preserves conn_view note_app_ack_eliciting.
Proof. intros c. unfold note_app_ack_eliciting. rewrite exec_modify. by case_match. Qed.

Lemma on_stream_accepts sid o d fin c s :
  is_reaped sid c = false -> btree_get sid (c_recv_streams c) = Some s ->
  let fe := sat_add64 o (zlen d) in
  let delta := sat_sub fe (rs_recv_high s) in
  past_limits fe delta s c = false ->
  let s1 := if rs_recv_high s <? fe then set_rs_recv_high fe s else s in
  conn_view (exec (on_stream LevelOneRtt sid o d fin) c) =
  conn_view (c |> set_data_received (sat_add64 (c_data_received c) delta)
               |> set_recv_buffered (w64 (c_recv_buffered c + delta))
               |> set_recv_streams (btree_insert sid (ingest o d fin s1).2 (c_recv_streams c))).
Proof.
  intros Hr Hg fe delta Hp s1. unfold on_stream.
  rewrite exec_bind, eval_gets, exec_gets, Hr. rewrite !exec_bind, !eval_gets, !exec_gets.
  unfold has_stream. rewrite Hg. cbn [negb andb]. rewrite exec_bind, exec_when.
  rewrite !exec_bind, !eval_gets, !exec_gets. cbn zeta. unfold the_stream. rewrite Hg.
  cbn [default id from_option]. fold fe delta. rewrite Hp. rewrite !exec_bind, exec_ret.
  rewrite (conn_view_ack _). rewrite exec_when, eval_gets, exec_gets.
  unfold put_recv_stream, recv_buffered_add. rewrite !exec_modify.
  by case_match.
Qed.

(* ------------------------------------------------------------------ *)
(** ** Overlapping pieces *)

(** Stream 0 of a new server connection, opened by an empty frame, then the
    overlapping pieces. *)
Definition flood (strm : list Z) (len : Z) (n : nat) : list ConnOp :=
  OpStream 0 0 [] false :: map (fun f => OpStream 0 f.1.1 f.1.2 f.2) (overlapping strm len n).

(** The connection and the stream after [n] pieces. *)
Definition flooded (len : Z) (n : nat) (c : Conn) : Prop :=
  c_close_pending c = None /\ is_reaped 0 c = false /\
  c_max_data_advertised c = INITIAL_MAX_DATA /\
  c_data_received c = (if decide (n = O) then 0 else Z.of_nat n + len) /\
  c_recv_buffered c = c_data_received c /\
  exists s, c_recv_streams c = [(0, s)] /\ rs_offset s = 0 /\ rs_buffer s = [] /\
    rs_state s = RecvOpen /\ rs_recv_max s = INITIAL_MAX_STREAM_DATA /\
    rs_recv_high s = c_data_received c /\
    Forall (fun e => e.1 < Z.of_nat n + 1) (rs_gap_buffer s) /\
    gap_bytes (rs_gap_buffer s) = Z.of_nat n * len.

Lemma flood_step strm len n c :
  1 <= len -> Z.of_nat (S n) + len <= zlen strm -> zlen strm <= INITIAL_MAX_STREAM_DATA ->
  flooded len n c ->
  let k := Z.of_nat (S n) in
  flooded len (S n) (conn_step (OpStream 0 k (slice k len strm) false) c).
Proof.
  intros Hl Hn HW (F1 & F2 & F3 & F4 & F5 & s & F6 & F7 & F8 & F9 & F10 & F11 & F12 & F13) k.
  consts. assert (Hz : zlen (slice k len strm) = len) by (apply zlen_piece; lia).
  assert (Hfe : sat_add64 k (zlen (slice k len strm)) = k + len) by (unfold sat_add64; lia).
  assert (HR : 0 <= c_data_received c < k + len) by (rewrite F4; case_decide; lia).
  assert (Hde : sat_sub (k + len) (rs_recv_high s) = k + len - c_data_received c)
    by (unfold sat_sub; lia).
  assert (Hg : btree_get 0 (c_recv_streams c) = Some s) by by rewrite F6.
  pose proof (on_stream_accepts 0 k (slice k len strm) false c s F2 Hg) as HA.
  cbn zeta in HA. rewrite Hfe, Hde, F11 in HA.
  rewrite (proj2 (Z.ltb_lt (c_data_received c) (k + len))) in HA by lia.
  assert (Hsum : sat_add64 (c_data_received c) (k + len - c_data_received c) = k + len)
    by (unfold sat_add64; lia).
  rewrite ingest_last in HA; cbn [set_rs_recv_high rs_offset rs_buffer rs_state rs_gap_buffer];
    [|done|done|done| |lia|lia|lia].
  2: { eapply Forall_impl; [exact F12|]. cbn beta. intros; lia. }
  rewrite Hsum, F5, F6, w64_small in HA by (unfold is_u64; lia).
  specialize (HA ltac:(unfold past_limits; rewrite F10, F3, Hsum;
    apply orb_false_intro; apply Z.ltb_ge; lia)).
  cbn [conn_step]. set (c' := exec _ c) in *. clearbody c'.
  injection HA as A1 A2 A3 A4 A5 A6 A7 A8. cbn in A7, A8.
  unfold flooded. rewrite A3, A5, A8. split_and!; try done.
  - unfold is_reaped in *. by rewrite A7.
  - by rewrite A6; cbn; lia.
  - eexists. split; [exact A1|]. cbn [set_rs_data set_rs_recv_high rs_offset rs_buffer rs_state
      rs_recv_max rs_recv_high rs_gap_buffer].
    split_and!; try done.
    + apply Forall_app_2; [|apply Forall_singleton; cbn; lia].
      eapply Forall_impl; [exact F12|]. cbn beta. intros; lia.
    + unfold gap_bytes in *. rewrite sum_by_snoc, F13, Hz. lia.
Qed.

Lemma flood_run strm len n :
  1 <= len -> Z.of_nat n + len <= zlen strm -> zlen strm <= INITIAL_MAX_STREAM_DATA ->
  flooded len n (conn_run (flood strm len n) (conn_new false 0)).
Proof.
  intros Hl Hn HW. induction n as [|n IH].
  - split_and!; try by vm_compute. eexists. split; [reflexivity|]. by vm_compute.
  - specialize (IH ltac:(lia)). unfold flood, overlapping in *.
    rewrite seq_S, map_app, map_app. unfold conn_run in *. cbn [foldl] in *. rewrite foldl_app.
    cbn [map foldl fst snd]. by apply (flood_step strm len n).
Qed.

(** A packet's credit section slides the limit when half a window or less is open
    and the process is within its budget. *)
Lemma credit_exact others used c :
  FlowInv others c ->
  let c' := exec (grant_credit used) c in
  c_data_consumed c' = c_data_consumed c /\
  c_max_data_advertised c' =
    if (c_max_data_advertised c - c_data_consumed c <=? INITIAL_MAX_DATA / 2) &&
       negb (recv_buffer_over_budget c)
    then Z.min (c_data_consumed c + INITIAL_MAX_DATA) MAX_VARINT
    else c_max_data_advertised c.
Proof.
  intros HI. consts.
  pose proof (flow_bounds _ _ _ _ _ _ _ HI) as (Q1 & Q2 & Q3).
  pose proof (fo_limit _ _ _ _ _ _ _ HI) as Hlim. pose proof (fo_max _ _ _ _ _ _ _ HI) as Hmax.
  unfold grant_credit. rewrite !exec_bind, exec_ret.
  set (c1 := exec grant_max_streams c).
  assert (Ev : flow_view c1 = flow_view c) by apply view_grant_streams. clearbody c1.
  injection Ev as E1 E2 E3 E4 E5 E6.
  assert (H2 : let c2 := exec grant_max_data c1 in
    c_data_consumed c2 = c_data_consumed c /\
    c_max_data_advertised c2 =
      if (c_max_data_advertised c - c_data_consumed c <=? INITIAL_MAX_DATA / 2) &&
         negb (recv_buffer_over_budget c)
      then Z.min (c_data_consumed c + INITIAL_MAX_DATA) MAX_VARINT
      else c_max_data_advertised c).
  { unfold grant_max_data. rewrite exec_bind, eval_gets, exec_gets.
    unfold recv_buffer_over_budget. rewrite E4, E5, E6. unfold sat_sub. rewrite Z.max_r by lia.
    destruct (_ && _)%bool eqn:Es; rewrite exec_bind, exec_when, exec_bind, eval_gets, exec_gets.
    - rewrite exec_modify. cbn [orb]. rewrite exec_bind, exec_modify, exec_ret.
      cbn [set_force_max_data set_max_data_advertised c_max_data_advertised c_data_consumed].
      rewrite E4, w64_small by (unfold is_u64; lia). done.
    - cbn [orb]. destruct (c_force_max_data c1); rewrite ?exec_bind, ?exec_modify, ?exec_ret;
        cbn [set_force_max_data c_max_data_advertised c_data_consumed]; done. }
  cbn zeta in H2 |- *. set (c2 := exec grant_max_data c1) in *. clearbody c2.
  unfold grant_max_stream_data. rewrite exec_bind, eval_gets, exec_gets.
  destruct (stream_sweep _ _ _) as [[m fs] dn].
  rewrite exec_bind, exec_modify, exec_bind, exec_when, exec_ret.
  destruct dn; rewrite ?exec_modify;
    cbn [set_force_max_stream_data set_recv_streams c_max_data_advertised c_data_consumed]; done.
Qed.


(** C31: The receive window does not bound what waits out of order.  A peer sends
    the pieces [strm[k..k+len]] of a stream for [k = 1..n] and withholds its first
    byte.  Every frame is inside the window, the connection is not closed, and the
    counters charge only the highest offset; but the pieces start at different
    offsets, so each is kept whole, and [n * len] bytes are held.  With 1200-byte
    pieces of one 2 MiB window that is over a thousand windows. *)
Theorem window_does_not_bound_gaps (strm : list Z) (len : Z) (n : nat) :
  1 <= len -> Z.of_nat n + len = zlen strm -> zlen strm <= INITIAL_MAX_STREAM_DATA ->
  let c := conn_run (flood strm len n) (conn_new false 0) in
  c_close_pending c = None /\ c_data_received c <= zlen strm /\ c_recv_buffered c <= zlen strm /\
  exists s, btree_get 0 (c_recv_streams c) = Some s /\
            gap_bytes (rs_gap_buffer s) = Z.of_nat n * len.
Proof.
  intros Hl Hn HW c.
  pose proof (flood_run strm len n Hl ltac:(lia) HW)
    as (F1 & _ & _ & F4 & F5 & s & F6 & _ & _ & _ & _ & _ & _ & F13).
  fold c in F1, F4, F5, F6. assert (HR : c_data_received c <= zlen strm).
  { rewrite F4. case_decide; pose proof (zlen_nonneg strm); lia. }
  split_and!; [done|done|lia|]. exists s. rewrite F6. done.
Qed.

(* ------------------------------------------------------------------ *)
(** ** Examples *)

(** A request in two frames out of order, read, answered with credit and reaped. *)
Definition example_run : list ConnOp :=
  [OpStream 0 3 [4; 5] true; OpOthers 100; OpStream 0 0 [1; 2; 3] false; OpRead 0 4;
   OpStream 4 0 [7] false; OpReset 4 9 3; OpCredit 30; OpRead 0 4; OpDiscard 4;
   OpSendSide [(0, set_ss_state FinSent send_default)]; OpReap].


(** Four pieces of four bytes in a stream of eight: sixteen bytes held. *)
Lemma window_does_not_bound_gaps_witness :
  let c := conn_run (flood [1; 2; 3; 4; 5; 6; 7; 8] 4 4) (conn_new false 0) in
  c_recv_buffered c <= 8 /\
  exists s, btree_get 0 (c_recv_streams c) = Some s /\ gap_bytes (rs_gap_buffer s) = 16.
Proof.
  destruct (window_does_not_bound_gaps [1; 2; 3; 4; 5; 6; 7; 8] 4 4) as (_ & _ & H1 & H2);
    [lia|reflexivity|vm_compute; congruence|]. split; [exact H1|exact H2].
Defined.
