(* ===== verification/QuicConn.v ===== *)
(** * The two directions of a QUIC connection joined

    [Quic] is a connection: the receiving half of [QuicFlow], the sending half of
    [QuicLoss], the CRYPTO reassembly and the send-side flow control.  Modelled
    here are the application's writes and aborts (conn/mod.rs) and the dispatch of
    a decrypted payload to the handlers (conn/rx.rs). *)

From S2P Require Import Prelude.
From S2P Require Import CongestionControl.
From S2P Require Import NetTypes.
From S2P Require Import QuicWire.
From S2P Require Import QuicFrame.
From S2P Require Import QuicParams.
From S2P Require Import QuicStreams.
From S2P Require Import QuicCrypto.
From S2P Require Import QuicSpace.
From S2P Require Import QuicLoss.
From S2P Require Import QuicFlow.

#[local] Open Scope st_scope.

(** The application space's [ack_pending] is [c_ack_pending].  [q_tls_params] and
    [q_tls_tx] are what TLS holds: the peer's transport parameters once known, and
    the handshake bytes to send, by level.  Of the keys there is only which levels
    can seal; [q_established] tells the [Established] state from those before it. *)
Record Quic := mkQuic {
  q_conn : Conn;
  q_send : Sender;
  q_rx : RxBuf * RxBuf;
  q_peer_max_data : Z;
  q_data_sent : Z;
  q_init_bidi : Z;
  q_init_uni : Z;
  q_fc_applied : bool;
  q_path_response : option (list Z);
  q_done_sent : bool;
  q_discarded : PerLevel bool;
  q_keys : PerLevel bool;
  q_tls_params : option (list Z);
  q_tls_tx : PerLevel (list Z);
  q_crypto_offset : PerLevel Z;
  q_established : bool;
  q_peer_cid : list Z;
  q_path_validated : bool;
  q_received_pre : Z;
  q_sent_pre : Z;
  q_pace_budget : Z;
  q_pace_last : Z;
}.

Definition eta_quic (q : Quic) : Quic :=
  mkQuic (q_conn q) (q_send q) (q_rx q) (q_peer_max_data q) (q_data_sent q) (q_init_bidi q) (q_init_uni q)
    (q_fc_applied q) (q_path_response q) (q_done_sent q) (q_discarded q) (q_keys q) (q_tls_params q)
    (q_tls_tx q) (q_crypto_offset q) (q_established q) (q_peer_cid q) (q_path_validated q)
    (q_received_pre q) (q_sent_pre q) (q_pace_budget q) (q_pace_last q).

Definition set_conn (v : Conn) (q : Quic) : Quic := ltac:(set_field eta_quic q_conn q v).
Definition set_send (v : Sender) (q : Quic) : Quic := ltac:(set_field eta_quic q_send q v).
Definition set_rx (v : RxBuf * RxBuf) (q : Quic) : Quic := ltac:(set_field eta_quic q_rx q v).
Definition set_peer_max_data (v : Z) (q : Quic) : Quic := ltac:(set_field eta_quic q_peer_max_data q v).
Definition set_data_sent (v : Z) (q : Quic) : Quic := ltac:(set_field eta_quic q_data_sent q v).
Definition set_init_bidi (v : Z) (q : Quic) : Quic := ltac:(set_field eta_quic q_init_bidi q v).
Definition set_init_uni (v : Z) (q : Quic) : Quic := ltac:(set_field eta_quic q_init_uni q v).
Definition set_fc_applied (v : bool) (q : Quic) : Quic := ltac:(set_field eta_quic q_fc_applied q v).
Definition set_path_response (v : option (list Z)) (q : Quic) : Quic := ltac:(set_field eta_quic q_path_response q v).
Definition set_done_sent (v : bool) (q : Quic) : Quic := ltac:(set_field eta_quic q_done_sent q v).
Definition set_discarded (v : PerLevel bool) (q : Quic) : Quic := ltac:(set_field eta_quic q_discarded q v).
Definition set_keys (v : PerLevel bool) (q : Quic) : Quic := ltac:(set_field eta_quic q_keys q v).
Definition set_tls_params (v : option (list Z)) (q : Quic) : Quic := ltac:(set_field eta_quic q_tls_params q v).
Definition set_established (v : bool) (q : Quic) : Quic := ltac:(set_field eta_quic q_established q v).
Definition set_peer_cid (v : list Z) (q : Quic) : Quic := ltac:(set_field eta_quic q_peer_cid q v).
Definition set_tls_tx (v : PerLevel (list Z)) (q : Quic) : Quic := ltac:(set_field eta_quic q_tls_tx q v).
Definition set_crypto_offset (v : PerLevel Z) (q : Quic) : Quic := ltac:(set_field eta_quic q_crypto_offset q v).
Definition set_path_validated (v : bool) (q : Quic) : Quic := ltac:(set_field eta_quic q_path_validated q v).
Definition set_sent_pre (v : Z) (q : Quic) : Quic := ltac:(set_field eta_quic q_sent_pre q v).
Definition set_received_pre (v : Z) (q : Quic) : Quic := ltac:(set_field eta_quic q_received_pre q v).
Definition set_pace_budget (v : Z) (q : Quic) : Quic := ltac:(set_field eta_quic q_pace_budget q v).
Definition set_pace_last (v : Z) (q : Quic) : Quic := ltac:(set_field eta_quic q_pace_last q v).

(** A new connection: of a server that has chosen nothing yet, or of a client that
    sends to the connection id it made up. *)
Definition quic_new (client : bool) (buffered : Z) (cid : list Z) : Quic :=
  mkQuic (conn_new client buffered) sender_new (rx_new, rx_new) 0 0 0 0 false None client
    (mkPerLevel false false false) (mkPerLevel client false false) None (mkPerLevel [] [] []) (mkPerLevel 0 0 0)
    false (if client then cid else []) client 0 0 0 0.

Definition set_failed (v : bool) (c : Conn) : Conn := ltac:(set_field eta_conn c_failed c v).

Definition on_conn {A} (m : St Conn A) : St Quic A :=
  fun q => let (a, c) := m (q_conn q) in (a, set_conn c q).
Definition on_send {A} (m : St Sender A) : St Quic A :=
  fun q => let (a, s) := m (q_send q) in (a, set_send s q).

(* ------------------------------------------------------------------ *)
(** ** The application's side *)

Definition set_ack_params (exponent delay : Z) (s : Sender) : Sender :=
  let s := ltac:(set_field eta_sender s_peer_ack_delay_exponent s exponent) in
  ltac:(set_field eta_sender s_peer_max_ack_delay_us s delay).

Definition apply_peer_flow_control : St Quic unit :=
  modify (fun q =>
    if q_fc_applied q then q
    else
      match q_tls_params q with
      | None => q
      | Some b =>
          match parse_client_params b with
          | inl _ => q
          | inr p =>
              let bidi := if c_client (q_conn q) then initial_max_stream_data_bidi_remote p
                          else initial_max_stream_data_bidi_local p in
              q |> set_peer_max_data (initial_max_data p)
                |> set_init_bidi bidi
                |> set_init_uni (initial_max_stream_data_uni p)
                |> set_send (set_ack_params (ack_delay_exponent p) (sat_mul64 (max_ack_delay_ms p) 1000) (q_send q))
                |> set_fc_applied true
          end
      end).

Definition the_send_stream (sid : Z) (q : Quic) : SendStream :=
  default send_default (btree_get sid (c_send_streams (q_conn q))).

Definition put_send_stream (sid : Z) (s : SendStream) : St Quic unit :=
  modify (fun q => set_conn (set_send_streams (btree_insert sid s (c_send_streams (q_conn q))) (q_conn q)) q).

Definition ensure_send_stream (sid : Z) : St Quic unit :=
  present <- gets (fun q => match btree_get sid (c_send_streams (q_conn q)) with Some _ => true | None => false end);;
  if present : bool then sret tt
  else
    apply_peer_flow_control;;
    q <- gets (fun q => q);;
    let c := q_conn q in
    let '(new, pool) := match c_send_pool c with s :: pool => (s, pool) | [] => (send_default, []) end in
    let rx_us := match btree_get sid (c_recv_streams c) with Some r => rs_rx_us r | None => 0 end in
    let limit := if Z.land sid 2 =? 0 then q_init_bidi q else q_init_uni q in
    modify (fun q => set_conn (set_send_pool pool (q_conn q)) q);;
    put_send_stream sid (new |> set_ss_rx_us rx_us |> set_ss_peer_max limit).

(** [stream_send_owned] and [stream_send_iobuf]. *)
Definition stream_send (sid : Z) (data : list Z) : St Quic unit :=
  ensure_send_stream sid;;
  s <- gets (the_send_stream sid);;
  put_send_stream sid (write_iobuf data s).

Definition stream_close (sid : Z) : St Quic unit :=
  ensure_send_stream sid;;
  s <- gets (the_send_stream sid);;
  put_send_stream sid (send_close s).

Definition reset_stream (sid app_error_code : Z) : St Quic unit :=
  ensure_send_stream sid;;
  s <- gets (the_send_stream sid);;
  match ss_state s with
  | ResetSent => sret tt
  | _ =>
      let '(final_size, s') := abort s in
      put_send_stream sid s';;
      on_send (modify (fun x =>
        let keep := List.filter (fun f => negb (sr_sid f =? sid)) (s_retx_queue x) in
        let purged := foldl (fun n f => if sr_sid f =? sid then sat_add32 n (w32 (zlen (sr_data f))) else n)
                        0 (s_retx_queue x) in
        x |> set_retx keep (sat_sub (s_retx_bytes x) purged)
          |> set_aborted_sids (push_capped (s_aborted_sids x) sid STREAM_RESETS_CAP)
          |> set_pending_resets (s_pending_reset_streams x ++ [(sid, app_error_code, final_size)])))
  end.

Definition stop_sending (sid app_error_code : Z) : St Quic unit :=
  on_send (modify (fun x => set_pending_stops (s_pending_stop_sending x ++ [(sid, app_error_code)]) x));;
  on_conn (discard_recv sid).

(* ------------------------------------------------------------------ *)
(** ** Frames of the peer *)

Definition process_stop_sending (sid app_error_code : Z) : St Quic bool :=
  q <- gets (fun q => q);;
  let c := q_conn q in
  if is_reaped sid c then on_conn note_app_ack_eliciting;; sret true
  else
    let peer_uni := if c_client c then 3 else 2 in
    if Z.land sid 3 =? peer_uni then on_conn (close_with_error 5);; sret false
    else
      let local_init_bit := if c_client c then 0 else 1 in
      let known := match btree_get sid (c_send_streams c) with Some _ => true | None => false end in
      if (Z.land sid 1 =? local_init_bit) && negb known then on_conn (close_with_error 5);; sret false
      else
        let terminal := match btree_get sid (c_send_streams c) with Some s => ss_fin_sent s | None => false end in
        (if terminal then sret tt else reset_stream sid app_error_code);;
        on_conn note_app_ack_eliciting;;
        sret true.

(** The keys of a level are discarded, and with them the sent packets of its space,
    the largest acknowledged and the probe anchor. *)
Definition discard_level (level : CryptoLevel) : St Quic unit :=
  modify (fun q => q |> set_discarded (level_set level true (q_discarded q))
                     |> set_keys (level_set level false (q_keys q)));;
  on_send (discard_sent_packets level;;
    modify (fun s => s |> set_space level (set_largest_acked None (space_at level s))
                       |> set_last_eliciting (level_set level None (s_last_eliciting s)))).

(** The arms of [dispatch_frames]; [false] stops the dispatch. *)
Definition handle_frame (now : Z) (level : CryptoLevel) (f : Frame) : St Quic bool :=
  match f with
  | Padding | Ping => sret true
  | Crypto offset data => modify (fun q => set_rx (push_handshake level offset data (q_rx q)) q);; sret true
  | Ack largest delay first ranges _ => on_send (process_ack now level largest delay first ranges);; sret true
  | ConnectionCloseTransport _ _ _ | ConnectionCloseApplication _ _ =>
      on_conn (modify (set_failed true));; sret false
  | HandshakeDone =>
      q <- gets (fun q => q);;
      swhen (c_client (q_conn q) && negb (level_get LevelHandshake (q_discarded q))) (discard_level LevelHandshake);;
      sret true
  | Stream sid offset data fin => on_conn (on_stream level sid offset data fin)
  | MaxData maximum => modify (fun q => set_peer_max_data (Z.max (q_peer_max_data q) maximum) q);; sret true
  | QuicFrame.MaxStreamData sid maximum =>
      q <- gets (fun q => q);;
      match btree_get sid (c_send_streams (q_conn q)) with
      | Some s => put_send_stream sid (set_ss_peer_max (Z.max (ss_peer_max_stream_data s) maximum) s)
      | None => sret tt
      end;;
      sret true
  | PathChallenge data => modify (set_path_response (Some data));; sret true
  | ResetStream sid code final_size =>
      match level with
      | LevelOneRtt => on_conn (process_reset_stream sid code final_size)
      | _ => sret true
      end
  | StopSending sid code =>
      match level with
      | LevelOneRtt => process_stop_sending sid code
      | _ => sret true
      end
  | Skipped kind =>
      (if kind =? ftype.DATA_BLOCKED then on_conn (on_blocked DataBlocked)
       else if kind =? ftype.STREAM_DATA_BLOCKED then on_conn (on_blocked StreamDataBlocked)
       else if kind =? ftype.STREAMS_BLOCKED_BIDI then on_conn (on_blocked StreamsBlockedBidi)
       else if kind =? ftype.STREAMS_BLOCKED_UNI then on_conn (on_blocked StreamsBlockedUni)
       else sret tt);;
      sret true
  end.

(** [dispatch_frames]; the payload's length bounds the loop.  The result is
    [Err(ConnError::Wire)] or [Ok(())]. *)
Fixpoint dispatch_from (now : Z) (level : CryptoLevel) (fuel : nat) (payload : list Z)
    : St Quic (FrameError + unit) :=
  match payload with
  | [] => sret (inr tt)
  | _ =>
      match fuel with
      | O => sret (inl FrameTruncated)
      | S fuel =>
          match parse_frame payload with
          | inl e => sret (inl e)
          | inr (frame, consumed) =>
              go <- handle_frame now level frame;;
              if go : bool then
                match slice_from consumed payload with
                | None => sret (inl FramePanic)
                | Some payload => dispatch_from now level fuel payload
                end
              else sret (inr tt)
          end
      end
  end.
Definition dispatch_frames (now : Z) (level : CryptoLevel) (payload : list Z) : St Quic (FrameError + unit) :=
  dispatch_from now level (length payload) payload.

(** A decrypted packet: the tails of [process_initial], [process_handshake_pkt] and
    [process_short_header_packet] after the AEAD.  An error leaves the packet
    unrecorded. *)
Definition process_payload (now : Z) (level : CryptoLevel) (pn : Z) (payload : list Z)
    : St Quic (FrameError + unit) :=
  r <- dispatch_frames now level payload;;
  match r with
  | inl e => sret (inl e)
  | inr _ =>
      q <- gets (fun q => q);;
      match level with
      | LevelInitial => sret tt
      | LevelHandshake => swhen (negb (level_get LevelInitial (q_discarded q))) (discard_level LevelInitial)
      | LevelOneRtt => swhen (negb (level_get LevelHandshake (q_discarded q))) (discard_level LevelHandshake)
      end;;
      on_send (modify (fun s => set_space level (record_recv_pn pn (space_at level s)) s));;
      match level with
      | LevelOneRtt => on_conn note_app_ack_eliciting
      | _ => on_send (modify (fun s =>
               let sp := space_at level s in
               set_space level (mkSpace (next_send_pn sp) (largest_recv_pn sp) true (largest_acked sp)
                                  (sent_packets sp) (recv_ranges sp)) s))
      end;;
      swhen (match level with LevelHandshake => true | _ => false end) (modify (set_path_validated true));;
      sret (inr tt)
  end.
