(* ===== verification/QuicConnInv.v ===== *)
(** * The invariant of a QUIC connection

    What every step of a connection keeps: the receive accounts of [QuicFlowInv],
    the sender's books of [QuicLoss], the send-side flow control, and the identity
    of the bytes: every STREAM frame the sender still answers for is a piece of
    what the application wrote on that stream. *)

From S2P Require Import Prelude.
From S2P Require Import CongestionControl.
From S2P Require Import NetTypes.
From S2P Require Import QuicWire.
From S2P Require Import QuicParams.
From S2P Require Import QuicFrame.
From S2P Require Import QuicStreams.
From S2P Require Import QuicCrypto.
From S2P Require Import QuicSpace.
From S2P Require Import QuicLoss.
From S2P Require Import QuicFlow.
From S2P Require Import QuicFlowInv.
From S2P Require Import QuicConn.

#[local] Open Scope st_scope.

(* ------------------------------------------------------------------ *)
(** ** Invariants of state-passing code *)

Definition keeps {S A} (P : S -> Prop) (m : St S A) : Prop := forall s, P s -> P (exec m s).

Section Keeps.
Context {S : Type} (P : S -> Prop).

Lemma kept_ret {A} (a : A) : keeps P (sret a).
Proof. by intros s. Qed.
Lemma kept_gets {A} (f : S -> A) : keeps P (gets f).
Proof. by intros s. Qed.
Lemma kept_bind {A B} (m : St S A) (k : A -> St S B) :
  keeps P m -> (forall a, keeps P (k a)) -> keeps P (sbind m k).
Proof. intros Hm Hk s Hs. rewrite exec_bind. by apply Hk, Hm. Qed.
Lemma kept_when b (m : St S unit) : keeps P m -> keeps P (swhen b m).
Proof. intros H. destruct b; [done|apply kept_ret]. Qed.
Lemma kept_modify (f : S -> S) : (forall s, P s -> P (f s)) -> keeps P (modify f).
Proof. done. Qed.

End Keeps.

Create HintDb keeps.

(** Walks a program; the leaves are for [auto]. *)
Ltac keep :=
  repeat match goal with
  | |- keeps _ (sbind _ _) => apply kept_bind; [|intros ?]
  | |- keeps _ (swhen _ _) => apply kept_when
  | |- keeps _ (sret _) => apply kept_ret
  | |- keeps _ (gets _) => apply kept_gets
  | |- keeps _ (if ?b then _ else _) => destruct b
  | |- keeps _ (match ?x with _ => _ end) => destruct x
  | |- keeps _ (let _ := _ in _) => cbv zeta
  | |- keeps _ _ => solve [auto with keeps nocore]
  end.

(* ------------------------------------------------------------------ *)
(** ** Stream ids and counts *)

(** What keeps the credit frames encodable. *)
Record ids_ok (c : Conn) : Prop := {
  id_recv : Forall (fun e => is_varint e.1) (c_recv_streams c);
  id_bidi : 0 <= c_bidi_streams_opened c <= 2 ^ 60;
  id_uni : 0 <= c_uni_streams_opened c <= 2 ^ 60;
  id_max_bidi : is_varint (c_max_streams_bidi_advertised c);
  id_max_uni : is_varint (c_max_streams_uni_advertised c);
}.

Definition ids_view (c : Conn) :=
  (c_recv_streams c, c_bidi_streams_opened c, c_uni_streams_opened c,
   c_max_streams_bidi_advertised c, c_max_streams_uni_advertised c).

Lemma ids_ok_view c c' : ids_view c' = ids_view c -> ids_ok c -> ids_ok c'.
Proof. unfold ids_view. intros [= E1 E2 E3 E4 E5] [H1 H2 H3 H4 H5]. by split; rewrite ?E1, ?E2, ?E3, ?E4, ?E5. Qed.

Lemma ids_keeps {A} (m : St Conn A) : preserves ids_view m -> keeps ids_ok m.
Proof. intros Hm c. apply ids_ok_view, Hm. Qed.

Lemma ids_put sid s c :
  is_varint sid -> ids_ok c -> ids_ok (set_recv_streams (btree_insert sid s (c_recv_streams c)) c).
Proof. intros Hs [H1 H2 H3 H4 H5]. split; [by apply btree_insert_forall|done..]. Qed.

Lemma ids_close e : keeps ids_ok (close_with_error e).
Proof. apply ids_keeps. intros c. unfold close_with_error. rewrite exec_modify. by repeat case_match. Qed.
Lemma ids_ack : keeps ids_ok note_app_ack_eliciting.
Proof. apply ids_keeps. intros c. unfold note_app_ack_eliciting. rewrite exec_modify. by case_match. Qed.
Lemma ids_buffered_add n : keeps ids_ok (recv_buffered_add n).
Proof. by apply ids_keeps. Qed.
Lemma ids_buffered_sub n : keeps ids_ok (recv_buffered_sub n).
Proof. unfold recv_buffered_sub. apply kept_when. by apply ids_keeps. Qed.
Lemma ids_peer_reset sid code : keeps ids_ok (record_peer_reset sid code).
Proof. apply ids_keeps. intros c. unfold record_peer_reset. rewrite exec_modify. by case_match. Qed.
Lemma ids_push sid : keeps ids_ok (push_opened sid).
Proof. by apply ids_keeps. Qed.
Lemma ids_mark sid : keeps ids_ok (mark_reaped sid).
Proof. by apply ids_keeps. Qed.
Lemma ids_blocked b : keeps ids_ok (on_blocked b).
Proof. apply ids_keeps. by destruct b. Qed.
Lemma ids_received f : keeps ids_ok (modify (fun c => set_data_received (f c) c)).
Proof. by apply ids_keeps. Qed.
Lemma ids_consumed f : keeps ids_ok (modify (fun c => set_data_consumed (f c) c)).
Proof. by apply ids_keeps. Qed.
Lemma ids_put_recv sid s : is_varint sid -> keeps ids_ok (put_recv_stream sid s).
Proof. intros Hs c. by apply ids_put. Qed.

Lemma ids_open sid : is_varint sid -> keeps ids_ok (open_recv_stream sid).
Proof.
  intros Hs c Hc. unfold open_recv_stream. rewrite exec_modify. case_match; [by apply ids_put|].
  eapply ids_ok_view; [|by apply (ids_put sid r c)]. done.
Qed.

Lemma stream_count sid : is_varint sid -> 0 <= w64 (Z.shiftr sid 2 + 1) <= 2 ^ 60.
Proof.
  intros [H1 H2]. change MAX_VARINT with (2 ^ 62 - 1) in H2. rewrite Z.shiftr_div_pow2 by lia. change (2 ^ 2) with 4.
  assert (0 <= sid / 4 <= 2 ^ 60 - 1) as H.
  { split; [apply Z.div_pos; lia|]. apply Z.lt_le_pred. apply Z.div_lt_upper_bound; lia. }
  rewrite w64_small; [lia|]. unfold is_u64. change U64_MAX with (2 ^ 64 - 1). lia.
Qed.

Lemma ids_count sid : is_varint sid -> keeps ids_ok (count_peer_stream sid).
Proof.
  intros Hs c [H1 H2 H3 H4 H5]. pose proof (stream_count _ Hs). unfold count_peer_stream. rewrite exec_modify.
  repeat case_match; by split.
Qed.
#[export] Hint Resolve ids_close ids_ack ids_buffered_add ids_buffered_sub ids_peer_reset ids_push ids_mark
  ids_blocked ids_received ids_consumed ids_put_recv ids_open ids_count : keeps.

Lemma ids_on_stream level sid o d fin : is_varint sid -> keeps ids_ok (on_stream level sid o d fin).
Proof.
  intros Hs. unfold on_stream. keep. intros c Hc. rewrite exec_modify. by apply ids_put.
Qed.

Lemma ids_reset_stream sid code final : is_varint sid -> keeps ids_ok (process_reset_stream sid code final).
Proof. intros Hs. unfold process_reset_stream. keep. Qed.

Lemma ids_get sid s c : ids_ok c -> btree_get sid (c_recv_streams c) = Some s -> is_varint sid.
Proof. intros [H _ _ _ _] E%btree_get_in. rewrite Forall_forall in H. by apply (H _ E). Qed.

Lemma ids_stream_recv sid cap : keeps ids_ok (stream_recv sid cap).
Proof.
  intros c Hc. unfold stream_recv. rewrite exec_bind, eval_gets, exec_gets.
  destruct (btree_get sid (c_recv_streams c)) as [s|] eqn:E; [|done]. pose proof (ids_get _ _ _ Hc E).
  destruct (drain cap s) as [r s']. revert c Hc E. intros c Hc _. revert c Hc.
  change (keeps ids_ok (put_recv_stream sid s';;
    modify (fun c => set_data_consumed (w64 (c_data_consumed c + zlen r.1)) c);; recv_buffered_sub (zlen r.1);; sret r)).
  keep.
Qed.

Lemma ids_discard sid : keeps ids_ok (discard_recv sid).
Proof.
  intros c Hc. unfold discard_recv. rewrite exec_bind, eval_gets, exec_gets.
  destruct (btree_get sid (c_recv_streams c)) as [s|] eqn:E; [|done]. pose proof (ids_get _ _ _ Hc E).
  destruct (discard_loop _ s 0) as [s' total]. clear E. revert c Hc.
  change (keeps ids_ok (put_recv_stream sid s';;
    modify (fun c => set_data_consumed (w64 (c_data_consumed c + total)) c);; recv_buffered_sub total)).
  keep.
Qed.

(* ------------------------------------------------------------------ *)
(** ** The receive side leaves the send streams alone *)

Definition tx_view (c : Conn) := (c_send_streams c, c_send_pool c, c_client c).

Lemma tx_close e : preserves tx_view (close_with_error e).
Proof. intros c. unfold close_with_error. rewrite exec_modify. by repeat case_match. Qed.
Lemma tx_ack : preserves tx_view note_app_ack_eliciting.
Proof. intros c. unfold note_app_ack_eliciting. rewrite exec_modify. by case_match. Qed.
Lemma tx_open sid : preserves tx_view (open_recv_stream sid).
Proof. intros c. unfold open_recv_stream. rewrite exec_modify. by case_match. Qed.
Lemma tx_count sid : preserves tx_view (count_peer_stream sid).
Proof. intros c. unfold count_peer_stream. rewrite exec_modify. by repeat case_match. Qed.
Lemma tx_peer_reset sid code : preserves tx_view (record_peer_reset sid code).
Proof. intros c. unfold record_peer_reset. rewrite exec_modify. by case_match. Qed.
Lemma tx_buffered_sub n : preserves tx_view (recv_buffered_sub n).
Proof. unfold recv_buffered_sub. preserve. Qed.
Lemma tx_buffered_add n : preserves tx_view (recv_buffered_add n).
Proof. done. Qed.
Lemma tx_put sid s : preserves tx_view (put_recv_stream sid s).
Proof. done. Qed.
Lemma tx_push sid : preserves tx_view (push_opened sid).
Proof. done. Qed.
#[local] Hint Resolve tx_close tx_ack tx_open tx_count tx_peer_reset tx_buffered_sub tx_buffered_add tx_put tx_push
  : preserves.

Lemma tx_on_stream level sid o d fin : preserves tx_view (on_stream level sid o d fin).
Proof. unfold on_stream. preserve. Qed.
Lemma tx_reset_stream sid code final : preserves tx_view (process_reset_stream sid code final).
Proof. unfold process_reset_stream. preserve. Qed.
Lemma tx_blocked b : preserves tx_view (on_blocked b).
Proof. by destruct b. Qed.
Lemma tx_stream_recv sid cap : preserves tx_view (stream_recv sid cap).
Proof. unfold stream_recv. preserve. Qed.
Lemma tx_discard sid : preserves tx_view (discard_recv sid).
Proof. unfold discard_recv. preserve. Qed.
#[export] Hint Resolve tx_close tx_ack tx_on_stream tx_reset_stream tx_blocked tx_stream_recv tx_discard : preserves.

(* ------------------------------------------------------------------ *)
(** ** The bytes of a stream *)

(** [A]: the bytes the stream accepted.  [w]: those an abort has not dropped;
    [fs]: the frames cut so far. *)
Record life (A w : list Z) (fs : list StreamFrame) : Prop := {
  li_prefix : w `prefix_of` A;
  li_frames : Forall (frame_of w) fs;
  li_fin : fin_in fs -> w = A;
}.

Record live (A w : list Z) (fs : list StreamFrame) (s : SendStream) : Prop := {
  lv_inv : SendInv w fs s;
  lv_all : ss_state s <> ResetSent -> w = A;
}.

(** A frame of [w] carries the accepted bytes at its place, the FIN at their end. *)
Lemma life_frame A w fs f : life A w fs -> f ∈ fs -> frame_of A f.
Proof.
  intros [[x ->] H2 H3] Hin. rewrite Forall_forall in H2. destruct (H2 _ Hin) as [G1 G2].
  split; [by apply at_offset_app|]. intros E. rewrite <-H3; [by apply G2|]. destruct f as [[o d] b]. cbn in E. subst b.
  by exists o, d.
Qed.

Lemma live_new rx_us limit : live [] [] [] (send_default |> set_ss_rx_us rx_us |> set_ss_peer_max limit).
Proof.
  split; [|done]. split; try done; try apply Forall_nil_2.
  - cbn. lia.
  - intros (o & d & H). by apply elem_of_nil in H.
Qed.

Lemma life_nil : life [] [] [].
Proof. split; [done|apply Forall_nil_2|done]. Qed.

Lemma live_ext A w fs s s' :
  ss_outbound s' = ss_outbound s -> ss_head_consumed s' = ss_head_consumed s -> ss_send_offset s' = ss_send_offset s ->
  ss_state s' = ss_state s -> live A w fs s -> live A w fs s'.
Proof.
  intros E1 E2 E3 E4 [[H1 H2 HC H3 H4 H5 H6 H7 H8 H9] H]. split; [|by rewrite E4].
  assert (ss_pending s' = ss_pending s) as Ep by (unfold ss_pending; by rewrite E1, E2).
  split; unfold head_ok, ss_fin_sent in *; by rewrite ?E1, ?E2, ?E3, ?E4, ?Ep.
Qed.

Lemma live_write A w fs s d :
  live A w fs s -> life A w fs ->
  let A' := if ss_fin_sent s then A else A ++ d in
  exists w', live A' w' fs (write_iobuf d s) /\ life A' w' fs.
Proof.
  intros [HI Hall] [L1 L2 L3] A'. pose proof (write_inv w fs s d HI) as HW. unfold A'.
  destruct (ss_fin_sent s) eqn:Ef.
  { exists w. unfold write_iobuf in *. rewrite Ef in *. split; by split. }
  assert (ss_state s <> ResetSent) as Hn by (intros E; unfold ss_fin_sent in Ef; by rewrite E in Ef).
  specialize (Hall Hn). subst w. exists (A ++ d). split.
  - split; [done|done].
  - split; [done|by apply (si_frames _ _ _ HW)|done].
Qed.

Lemma live_close A w fs s : live A w fs s -> live A w fs (send_close s).
Proof.
  intros [HI Hall]. split; [by apply send_close_inv|]. unfold send_close. destruct (ss_state s) eqn:E; intros; apply Hall; congruence.
Qed.

Lemma live_abort A w fs s :
  live A w fs s -> life A w fs -> exists w', live A w' fs (abort s).2 /\ life A w' fs.
Proof.
  intros [HI Hall] [L1 L2 L3]. pose proof (abort_inv w fs s HI) as HA. exists (ztake (ss_send_offset s) w). split.
  { split; [done|]. cbn [abort snd set_ss_queue set_ss_state set_ss_rx_us ss_state]. done. }
  split; [|by apply (si_frames _ _ _ HA)|].
  - etransitivity; [|exact L1]. unfold ztake. apply prefix_take.
  - intros Hf. rewrite <-L3 by done. pose proof (si_sent _ _ _ HI) as Hs. destruct (si_fin _ _ _ HI Hf) as [_ Hp].
    rewrite Hp in Hs. rewrite zlen_nil in Hs. apply ztake_ge. lia.
Qed.

Lemma live_pop A w fs s now n :
  live A w fs s -> life A w fs -> zlen A <= U64_MAX -> 0 <= n ->
  let '(fr, _, s') := pop_chunk now n s in
  let fs' := match fr with Some f => f :: fs | None => fs end in
  live A w fs' s' /\ life A w fs'.
Proof.
  intros [HI Hall] [L1 L2 L3] HA Hn.
  assert (zlen w <= U64_MAX) as Hw.
  { destruct L1 as [x ->]. rewrite zlen_app in HA. pose proof (zlen_nonneg x). lia. }
  pose proof (pop_inv w fs s now n Hw Hn HI) as HP. unfold pop_chunk in *.
  destruct (ss_fin_sent s) eqn:Ef; cbn [orb] in *; [split; by split|].
  assert (ss_state s <> ResetSent) as Hnr by (intros E; unfold ss_fin_sent in Ef; by rewrite E in Ef).
  specialize (Hall Hnr). subst w.
  destruct (match ss_state s with SendOpen => outbound_is_empty s | _ => false end); [split; by split|].
  destruct (ss_outbound s) as [|h rest].
  - destruct (enter_fin_sent now s) as [lat s']. split; [by split|]. by split; [done|apply (si_frames _ _ _ HP)|].
  - destruct (iobuf_narrow _ _ h); [|split; by split]. cbv zeta in *.
    match goal with |- context [if ?b then enter_fin_sent now ?x else ?y] =>
      destruct (if b then enter_fin_sent now x else y) as [lat s'] end. split; [by split|].
    by split; [done|apply (si_frames _ _ _ HP)|].
Qed.

(* ------------------------------------------------------------------ *)
(** ** The sending side *)

Definition retx_ok (f : StreamRetx) : Prop :=
  is_varint (sr_sid f) /\ is_varint (sr_offset f) /\ zlen (sr_data f) <= PACKET_BODY_BUDGET - 16.
Definition ctrl_ok (c : CtrlRetx) : Prop :=
  match c with
  | CtrlReset sid code final => is_varint sid /\ is_varint code /\ is_varint final
  | CtrlStop sid code => is_varint sid /\ is_varint code
  end.

Definition staged (s : Sender) := (s_pending_stream_frames s, s_pending_crypto_frames s, s_pending_ctrl_frames s).

Record sender_ok (s : Sender) : Prop := {
  sk_books : books s;
  sk_staged : staged s = ([], [], []);
  sk_stream : Forall retx_ok (owed_stream s);
  sk_ctrl : Forall ctrl_ok (owed_ctrl s);
  sk_recv : forall l, recv_ok (MAX_VARINT + 1) (space_at l s);
}.

Definition all_ranges (s : Sender) :=
  (recv_ranges (space_at LevelInitial s), recv_ranges (space_at LevelHandshake s), recv_ranges (space_at LevelOneRtt s)).

Lemma recv_ok_ranges s s' :
  all_ranges s' = all_ranges s -> (forall l, recv_ok (MAX_VARINT + 1) (space_at l s)) ->
  forall l, recv_ok (MAX_VARINT + 1) (space_at l s').
Proof. unfold all_ranges, recv_ok. intros [= E1 E2 E3] H l. specialize (H l).
  unfold space_at in *. by destruct l; cbn [level_get] in *; rewrite ?E1, ?E2, ?E3. Qed.

Lemma settles_ok acked s s' :
  settles acked s s' -> Forall retx_ok (owed_stream s) -> Forall ctrl_ok (owed_ctrl s) ->
  Forall retx_ok (owed_stream s') /\ Forall ctrl_ok (owed_ctrl s').
Proof.
  intros [(d & H1 & _) _ H3] F1 F2. rewrite H1 in F1. rewrite H3 in F2.
  apply Forall_app in F1 as [_ F1]. apply Forall_app in F1 as [_ F1]. by apply Forall_app in F2 as [_ F2].
Qed.

Lemma staged_requeue l s : staged (requeue_ctrl l s) = staged s /\ all_ranges (requeue_ctrl l s) = all_ranges s.
Proof. destruct (requeue_ctrl_frame l s) as (r & t & ->). done. Qed.

Definition side (s : Sender) := (staged s, all_ranges s).

Lemma side_detect now level : preserves side (detect_loss now level).
Proof.
  intros s. unfold detect_loss. rewrite exec_modify. destruct (largest_acked _); [|done]. cbv zeta. unfold side.
  set (s1 := set_retx _ _ _). assert (side s1 = side s) as E.
  { unfold s1. case_match; by destruct level. }
  destruct (staged_requeue (g_ctrl (gather_lost (lost_pns now level s) (mkGather (sent_packets (space_at level s)) 0 [] [] []))) s1)
    as [E1 E2]. unfold side in E. rewrite <-E, <-E1, <-E2. done.
Qed.

Lemma side_ack_space level l f r : preserves side (ack_space level l f r).
Proof.
  intros s. unfold ack_space, exec. destruct (ack_remove_all _ _ _ _) as [[sp pkt] acked]. by destruct level.
Qed.

Lemma side_update_rtt a b : preserves side (update_rtt a b).
Proof. intros s. unfold update_rtt. rewrite exec_modify. cbv zeta. by case_match. Qed.
#[local] Hint Resolve side_detect side_ack_space side_update_rtt : preserves.

Lemma side_process_ack now level l d f r : preserves side (process_ack now level l d f r).
Proof. unfold process_ack. preserve. Qed.

(** A step of the sender that keeps it in order and takes on no STREAM frame. *)
Definition sheds {A} (m : St Sender A) : Prop :=
  forall s, sender_ok s -> sender_ok (exec m s) /\ owed_stream (exec m s) ⊆ owed_stream s.

Lemma settles_subset acked s s' : settles acked s s' -> owed_stream s' ⊆ owed_stream s.
Proof. intros [(d & H1 & _) _ _] f Hf. rewrite H1. set_solver. Qed.

Lemma sheds_intro {A} (m : St Sender A) :
  preserves side m -> (forall s, sender_ok s -> books (exec m s) /\ exists acked, settles acked s (exec m s)) -> sheds m.
Proof.
  intros Hside Hm s Hs. destruct (Hm s Hs) as [B' [acked He]]. destruct Hs as [B S1 S2 S3 S4].
  split; [|by eapply settles_subset]. destruct (settles_ok _ _ _ He S2 S3) as [G1 G2]. pose proof (Hside s) as E.
  pose proof (f_equal fst E) as E1. pose proof (f_equal snd E) as E2. cbn [side fst snd] in E1, E2.
  split; [done|congruence|done|done|]. by eapply recv_ok_ranges.
Qed.

Lemma sheds_bind {A B} (m : St Sender A) (k : A -> St Sender B) :
  sheds m -> (forall a, sheds (k a)) -> sheds (sbind m k).
Proof.
  intros Hm Hk s Hs. rewrite exec_bind. destruct (Hm s Hs) as [H1 H2].
  destruct (Hk (eval m s) _ H1) as [H3 H4]. split; [done|]. by etransitivity.
Qed.

Lemma sheds_ack now level l d f r : sheds (process_ack now level l d f r).
Proof.
  apply sheds_intro; [apply side_process_ack|]. intros s [B _ _ _ _].
  destruct (process_ack_ok now level l d f r s B) as (B' & Hs & _). eauto.
Qed.

Lemma sheds_discard level : sheds (discard_sent_packets level).
Proof.
  apply sheds_intro.
  - intros s. unfold discard_sent_packets. rewrite exec_modify. by destruct level.
  - intros s [B _ _ _ _]. pose proof (discard_ok level s B) as Hr. split; [by eapply releases_books|].
    eexists. by apply releases_settles.
Qed.

(** A space may change in what it received and in its acknowledgement state. *)
Lemma sheds_space level (f : SpaceState -> SpaceState) :
  (forall sp, next_send_pn (f sp) = next_send_pn sp /\ sent_packets (f sp) = sent_packets sp /\
              (recv_ok (MAX_VARINT + 1) sp -> recv_ok (MAX_VARINT + 1) (f sp))) ->
  sheds (modify (fun s => set_space level (f (space_at level s)) s)).
Proof.
  intros Hf s [[B1 B2 B3 B4] S1 S2 S3 S4]. rewrite exec_modify. set (s' := set_space _ _ s).
  destruct (Hf (space_at level s)) as (F1 & F2 & F3).
  assert (forall l, next_send_pn (space_at l s') = next_send_pn (space_at l s) /\
                    sent_packets (space_at l s') = sent_packets (space_at l s)) as Hsp.
  { intros l. unfold s'. rewrite space_at_set. case_decide; [by subst|done]. }
  assert (all_inflight s' = all_inflight s) as Ei.
  { unfold all_inflight, inflight. by rewrite !(fun l => proj2 (Hsp l)). }
  assert (owed_stream s' = owed_stream s) as Eo by (unfold owed_stream; by rewrite Ei).
  split; [|by rewrite Eo]. split.
  - split; [|by rewrite Ei|done|by rewrite Ei]. intros l. destruct (Hsp l) as [E1 E2]. unfold space_ok. rewrite E1, E2. apply B1.
  - done.
  - by rewrite Eo.
  - unfold owed_ctrl. by rewrite Ei.
  - intros l. unfold s'. rewrite space_at_set. case_decide; [subst; auto|done].
Qed.

Lemma sheds_core {A} (m : St Sender A) : preserves core m -> sheds m.
Proof.
  intros Hm. apply sheds_intro.
  - intros s. pose proof (Hm s) as E. unfold core in E. unfold side, staged, all_ranges, space_at. congruence.
  - intros s [B _ _ _ _]. split; [eapply books_core; [symmetry; apply Hm|done]|]. exists []. apply settles_core. symmetry. apply Hm.
Qed.

(* ------------------------------------------------------------------ *)
(** ** The connection *)

(** A send stream stays within its limit, which is a variable-length integer. *)
Definition limit_ok (s : SendStream) : Prop :=
  0 <= ss_send_offset s <= ss_peer_max_stream_data s /\ ss_peer_max_stream_data s <= MAX_VARINT.

Record conn_ok (others : Z) (c : Conn) : Prop := {
  ck_flow : FlowInv others c;
  ck_ids : ids_ok c;
  ck_sorted : keys_sorted (c_send_streams c);
  ck_table : Forall (fun e => is_varint e.1 /\ limit_ok e.2) (c_send_streams c);
  ck_pool : Forall (eq send_default) (c_send_pool c);
}.

Definition parsed_params (q : Quic) : option ClientParams :=
  match q_tls_params q with
  | None => None
  | Some b => match parse_client_params b with inl _ => None | inr p => Some p end
  end.

Record tx_ok (q : Quic) : Prop := {
  tk_data : 0 <= q_data_sent q <= q_peer_max_data q;
  tk_max : q_peer_max_data q <= MAX_VARINT;
  tk_bidi : is_varint (q_init_bidi q);
  tk_uni : is_varint (q_init_uni q);
  tk_params : match q_tls_params q with Some b => bytes_ok b | None => True end;
  tk_unsent : q_fc_applied q = false -> parsed_params q <> None -> q_data_sent q = 0;
  tk_path : match q_path_response q with Some d => zlen d = 8 | None => True end;
  tk_tls : 0 <= level_get LevelOneRtt (q_crypto_offset q) /\
    level_get LevelOneRtt (q_crypto_offset q) + zlen (level_get LevelOneRtt (q_tls_tx q)) <= MAX_VARINT;
}.

Record quic_ok (others : Z) (q : Quic) : Prop := {
  qk_conn : conn_ok others (q_conn q);
  qk_send : sender_ok (q_send q);
  qk_tx : tx_ok q;
}.

(** The past of the streams: what the stream that has an id now accepted, what
    streams that had an id before and are gone accepted, and the STREAM frames that
    went into packets. *)
Record Log := mkLog { l_written : Z -> list Z; l_past : list (Z * list Z); l_sent : list StreamRetx }.

(** A frame is one of those cut from the stream of its id, or fits one that is gone. *)
Definition told (L : Log) (F : Z -> list StreamFrame) (f : StreamRetx) : Prop :=
  (sr_offset f, sr_data f, sr_fin f) ∈ F (sr_sid f) \/
  exists A, (sr_sid f, A) ∈ l_past L /\ frame_of A (sr_offset f, sr_data f, sr_fin f).

Record story (L : Log) (m : list (Z * SendStream)) (owed : list StreamRetx)
    (w : Z -> list Z) (F : Z -> list StreamFrame) : Prop := {
  sy_life : forall sid, life (l_written L sid) (w sid) (F sid);
  sy_live : Forall (fun e => live (l_written L e.1) (w e.1) (F e.1) e.2) m;
  sy_fresh : forall sid, sid ∉ map fst m -> l_written L sid = [] /\ w sid = [] /\ F sid = [];
  sy_owed : Forall (told L F) owed;
  sy_sent : Forall (told L F) (l_sent L);
}.
Definition hist (L : Log) (m : list (Z * SendStream)) (owed : list StreamRetx) : Prop := exists w F, story L m owed w F.

Definition history (L : Log) (q : Quic) : Prop := hist L (c_send_streams (q_conn q)) (owed_stream (q_send q)).

Lemma hist_shed L m owed owed' : owed' ⊆ owed -> hist L m owed -> hist L m owed'.
Proof.
  intros Hs (w & F & [H1 H2 H3 H4 H5]). exists w, F. split; [done|done|done| |done]. rewrite Forall_forall in *. auto.
Qed.

(** The whole invariant. *)
Definition inv (others : Z) (L : Log) (q : Quic) : Prop := quic_ok others q /\ history L q.

Lemma on_send_inv {A} others L (m : St Sender A) : sheds m -> keeps (inv others L) (on_send m).
Proof.
  intros Hm q [[H1 H2 H3] Hh]. destruct (Hm _ H2) as [G1 G2]. unfold exec in G1, G2. unfold on_send, exec.
  destruct (m (q_send q)) as [a s']. cbn [snd] in *. split; [split; [done|done|by destruct H3]|]. by eapply hist_shed.
Qed.

(** A step of the receive side. *)
Definition receives {A} (others : Z) (m : St Conn A) : Prop :=
  keeps (fun c => FlowInv others c /\ ids_ok c) m /\ preserves tx_view m.

Lemma on_conn_inv {A} others L (m : St Conn A) : receives others m -> keeps (inv others L) (on_conn m).
Proof.
  intros [Hk Hv] q [[[C1 C2 C3 C4 C5] H2 H3] Hh]. destruct (Hk _ (conj C1 C2)) as [G1 G2]. pose proof (Hv (q_conn q)) as E.
  unfold exec in G1, G2, E. unfold tx_view in E. unfold on_conn, exec. destruct (m (q_conn q)) as [a c']. cbn [snd] in *.
  injection E as E1 E2 E3.
  split; [|unfold history in *; cbn [set_conn q_conn q_send]; by rewrite E1].
  split; [|done|by destruct H3]. split; cbn [set_conn q_conn]; by rewrite ?E1, ?E2.
Qed.

(** A field of the connection that the invariant reads only through [tx_ok]. *)
Lemma tx_inv others L (f : Quic -> Quic) :
  (forall q, q_conn (f q) = q_conn q /\ q_send (f q) = q_send q) -> (forall q, tx_ok q -> tx_ok (f q)) ->
  keeps (inv others L) (modify f).
Proof.
  intros He Ht q [[H1 H2 H3] Hh]. rewrite exec_modify. destruct (He q) as [E1 E2].
  split; [split; [by rewrite E1|by rewrite E2|auto]|]. unfold history. by rewrite E1, E2.
Qed.

(* ------------------------------------------------------------------ *)
(** ** The send streams *)

Lemma btree_insert_keys {V} k (v : V) m x : x ∈ map fst (btree_insert k v m) <-> x = k \/ x ∈ map fst m.
Proof.
  induction m as [|[k' v'] m IH]; cbn [btree_insert map fst]; [set_solver|].
  destruct (k <? k'); [set_solver|]. destruct (k =? k') eqn:E; bool_to_prop; cbn [map fst]; set_solver.
Qed.

Lemma btree_insert_forall_ne {V} (P : Z * V -> Prop) k v m :
  keys_sorted m -> P (k, v) -> Forall (fun e => e.1 <> k -> P e) m -> Forall P (btree_insert k v m).
Proof.
  intros Hs Hk. induction m as [|[k' v'] m IH]; cbn [btree_insert]; intros Hm; [by apply Forall_singleton|].
  apply keys_sorted_cons in Hs as [Hs1 Hs2]. pose proof (Forall_inv Hm) as H0. apply Forall_inv_tail in Hm. cbn [fst] in H0.
  assert (k <= k' -> Forall P m) as Htail.
  { intros Hle. rewrite Forall_forall in *. intros e He. specialize (Hs2 _ He). apply Hm; [done|lia]. }
  destruct (k <? k') eqn:E1; [|destruct (k =? k') eqn:E2]; bool_to_prop.
  - apply Forall_cons_2; [done|]. apply Forall_cons_2; [apply H0; lia|apply Htail; lia].
  - apply Forall_cons_2; [done|apply Htail; lia].
  - apply Forall_cons_2; [apply H0; lia|auto].
Qed.

Lemma btree_get_forall {V} (P : Z * V -> Prop) k v m : btree_get k m = Some v -> Forall P m -> P (k, v).
Proof. intros H%btree_get_in Hm. rewrite Forall_forall in Hm. auto. Qed.

Lemma btree_get_keys {V} k (m : list (Z * V)) : k ∈ map fst m <-> btree_get k m <> None.
Proof.
  induction m as [|[k' v'] m IH]; cbn [map fst btree_get]; [set_solver|].
  destruct (k =? k') eqn:E; bool_to_prop; set_solver.
Qed.

(** One stream's entry and past change, and the frames it adds are its own. *)
Lemma story_put L L' m owed w F owed' sid a' w' fs' s' :
  keys_sorted m -> story L m owed w F ->
  (forall k, l_written L' k = if k =? sid then a' else l_written L k) -> l_past L' = l_past L -> l_sent L' = l_sent L ->
  life a' w' fs' -> live a' w' fs' s' -> F sid ⊆ fs' ->
  Forall (fun f => f ∈ owed \/ (sr_sid f = sid /\ (sr_offset f, sr_data f, sr_fin f) ∈ fs')) owed' ->
  story L' (btree_insert sid s' m) owed' (fun k => if k =? sid then w' else w k) (fun k => if k =? sid then fs' else F k).
Proof.
  intros Hs [H1 H2 H3 H4 H5] HL Hd Hsent Hl Hv HF Ho.
  assert (forall f, told L F f -> told L' (fun k => if k =? sid then fs' else F k) f) as Hgrow.
  { intros f [Hf|Hf]; [left|right; by rewrite Hd]. destruct (sr_sid f =? sid) eqn:E; bool_to_prop; [subst; set_solver|done]. }
  split.
  - intros k. rewrite HL. by destruct (k =? sid).
  - apply btree_insert_forall_ne; [done| |].
    + cbn [fst snd]. by rewrite HL, Z.eqb_refl.
    + eapply Forall_impl; [exact H2|]. intros [k s] H Hk. cbn [fst snd] in *. rewrite HL.
      by rewrite (proj2 (Z.eqb_neq _ _) Hk).
  - intros k. rewrite btree_insert_keys, HL. intros G2. destruct (k =? sid) eqn:E; bool_to_prop; [set_solver|].
    apply H3. set_solver.
  - rewrite Forall_forall in *. intros f Hf. destruct (Ho _ Hf) as [Hin|[E Hin]]; [auto|left]. by rewrite E, Z.eqb_refl.
  - rewrite Hsent. eapply Forall_impl; [exact H5|]. exact Hgrow.
Qed.

Lemma hist_put L L' m owed owed' sid a' s' :
  keys_sorted m -> hist L m owed ->
  (forall k, l_written L' k = if k =? sid then a' else l_written L k) -> l_past L' = l_past L -> l_sent L' = l_sent L ->
  owed' ⊆ owed ->
  (forall w fs, life (l_written L sid) w fs ->
     match btree_get sid m with
     | Some s => live (l_written L sid) w fs s
     | None => l_written L sid = [] /\ w = [] /\ fs = []
     end ->
     exists w', life a' w' fs /\ live a' w' fs s') ->
  hist L' (btree_insert sid s' m) owed'.
Proof.
  intros Hs (w & F & Hst) HL Hd Hsent Ho Hstep. pose proof Hst as [H1 H2 H3 H4 _].
  destruct (Hstep (w sid) (F sid) (H1 sid)) as (w' & G1 & G2).
  { destruct (btree_get sid m) as [s|] eqn:E.
    - by apply (btree_get_forall (fun e => live (l_written L e.1) (w e.1) (F e.1) e.2) sid s m E).
    - apply H3. rewrite btree_get_keys. by intros []. }
  eexists _, _. eapply (story_put L L' m owed w F owed' sid a' w' (F sid) s'); try done.
  rewrite Forall_forall. intros f Hf. left. auto.
Qed.

Lemma hist_same L m owed owed' sid s s' :
  keys_sorted m -> hist L m owed -> btree_get sid m = Some s -> owed' ⊆ owed ->
  (forall w fs, life (l_written L sid) w fs -> live (l_written L sid) w fs s ->
     exists w', life (l_written L sid) w' fs /\ live (l_written L sid) w' fs s') ->
  hist L (btree_insert sid s' m) owed'.
Proof.
  intros Hs Hh Hg Ho Hstep. apply (hist_put L L m owed owed' sid (l_written L sid) s'); [done|done| |done|done|done|].
  - intros k. destruct (k =? sid) eqn:E; bool_to_prop; [by subst|done].
  - intros w fs. rewrite Hg. apply Hstep.
Qed.

Lemma inv_sender others L f :
  (forall s, core s = core (f s)) -> keeps (inv others L) (modify (fun q => set_send (f (q_send q)) q)).
Proof.
  intros Hf. apply (on_send_inv others L (modify f)). apply sheds_core. intros s. rewrite exec_modify. symmetry. apply Hf.
Qed.

Lemma apply_peer_flow_control_inv others L : keeps (inv others L) apply_peer_flow_control.
Proof.
  intros q HI. pose proof HI as [[H1 H2 [T1 T2 T3 T4 T5 T6 T7 T8]] Hh]. unfold apply_peer_flow_control. rewrite exec_modify.
  destruct (q_fc_applied q) eqn:Ea; [done|]. unfold parsed_params in T6.
  destruct (q_tls_params q) as [b|] eqn:Ep; [|done]. destruct (parse_client_params b) as [e|p] eqn:Eb; [done|].
  destruct (parse_client_params_typed b p T5 Eb) as (P1 & P2 & P3 & _). rewrite !Forall_cons in P3.
  destruct P3 as (M1 & M2 & M3 & M4 & _). specialize (T6 eq_refl ltac:(done)).
  set (q' := set_fc_applied _ _).
  destruct (sheds_core (modify (set_ack_params (ack_delay_exponent p) (sat_mul64 (max_ack_delay_ms p) 1000)))
              ltac:(done) (q_send q) H2) as [G1 G2].
  split; [split; [done|exact G1|]|].
  - destruct M1 as [M1 M1']. split; cbn; try done; [lia| |by rewrite Ep]. by destruct (c_client (q_conn q)).
  - unfold history. eapply hist_shed; [exact G2|exact Hh].
Qed.

Definition is_closed (sid : Z) (q : Quic) : bool :=
  match btree_get sid (c_send_streams (q_conn q)) with Some s => ss_fin_sent s | None => false end.

(** The stream [sid] is in the table. *)
Definition opened (sid : Z) (q : Quic) : Prop := btree_get sid (c_send_streams (q_conn q)) <> None.

Lemma put_send_stream_inv others L L' q sid s' a' :
  inv others L q -> is_varint sid -> limit_ok s' ->
  (forall k, l_written L' k = if k =? sid then a' else l_written L k) -> l_past L' = l_past L -> l_sent L' = l_sent L ->
  (forall w fs, life (l_written L sid) w fs ->
     match btree_get sid (c_send_streams (q_conn q)) with
     | Some s => live (l_written L sid) w fs s
     | None => l_written L sid = [] /\ w = [] /\ fs = []
     end ->
     exists w', life a' w' fs /\ live a' w' fs s') ->
  inv others L' (exec (put_send_stream sid s') q).
Proof.
  intros [[[C1 C2 C3 C4 C5] H2 H3] Hh] Hs Hl HL Hd Hsent Hstep. unfold put_send_stream. rewrite exec_modify.
  split; [split; [|done|by destruct H3]|].
  - split; [done|by destruct C2|by apply btree_insert_sorted|by apply btree_insert_forall|done].
  - by eapply (hist_put L L').
Qed.

Lemma ensure_send_stream_inv others L sid q :
  inv others L q -> is_varint sid ->
  let q' := exec (ensure_send_stream sid) q in
  inv others L q' /\ exists s, btree_get sid (c_send_streams (q_conn q')) = Some s /\ is_closed sid q = ss_fin_sent s.
Proof.
  intros HI Hs q'. unfold q', ensure_send_stream, is_closed. rewrite exec_bind, eval_gets, exec_gets.
  destruct (btree_get sid (c_send_streams (q_conn q))) as [s|] eqn:Eg; [split; [done|by exists s]|].
  rewrite exec_bind. pose proof (apply_peer_flow_control_inv others L q HI) as HI1.
  assert (q_conn (exec apply_peer_flow_control q) = q_conn q) as Ec.
  { unfold apply_peer_flow_control. rewrite exec_modify. by repeat case_match. }
  set (q1 := exec apply_peer_flow_control q) in *. clearbody q1. rewrite <-Ec in Eg. clear Ec HI q q'.
  rewrite exec_bind, eval_gets, exec_gets. cbv zeta. set (limit := if _ =? 0 then _ else _).
  pose proof HI1 as [[[_ _ _ _ C5] _ [_ _ T3 T4 _ _ _ _]] _].
  assert (exists pool, match c_send_pool (q_conn q1) with s :: pool => (s, pool) | [] => (send_default, []) end = (send_default, pool) /\
            Forall (eq send_default) pool) as (pool & -> & Hp).
  { destruct (c_send_pool (q_conn q1)) as [|s pool]; [by eexists|]. apply Forall_cons in C5 as [<- C5]. by eexists. }
  assert (0 <= limit <= MAX_VARINT) as Hlim by (unfold limit; by case_match).
  rewrite exec_bind, exec_modify. set (q2 := set_conn _ q1).
  assert (inv others L q2) as HI2.
  { destruct HI1 as [[[D1 D2 D3 D4 D5] H2 H3] Hh]. split; [split; [|done|by destruct H3]|done]. split; [done|by destruct D2|done..]. }
  split.
  - eapply (put_send_stream_inv others L L q2); try done; [unfold limit_ok; cbn [set_ss_rx_us set_ss_peer_max ss_send_offset ss_peer_max_stream_data send_default]; lia| |].
    + intros k. destruct (k =? sid) eqn:E; bool_to_prop; [by subst|done].
    + change (c_send_streams (q_conn q2)) with (c_send_streams (q_conn q1)). rewrite Eg. intros w fs _ H.
      destruct H as (-> & -> & ->). exists []. split; [apply life_nil|apply live_new].
  - unfold put_send_stream. rewrite exec_modify. cbn [set_conn q_conn set_send_streams c_send_streams].
    rewrite btree_get_insert. by eexists.
Qed.

(** What the application's bytes add to the past of stream [sid]. *)
Definition log_write (sid : Z) (d : list Z) (q : Quic) (L : Log) : Log :=
  mkLog (fun k => if (k =? sid) && negb (is_closed sid q) then l_written L k ++ d else l_written L k)
    (l_past L) (l_sent L).

Lemma the_send_stream_get sid q s :
  btree_get sid (c_send_streams (q_conn q)) = Some s -> the_send_stream sid q = s.
Proof. unfold the_send_stream. by intros ->. Qed.

Lemma limit_of others L q sid s :
  inv others L q -> btree_get sid (c_send_streams (q_conn q)) = Some s -> limit_ok s.
Proof.
  intros [[[_ _ _ C4 _] _ _] _] Hg. by apply (btree_get_forall (fun e => is_varint e.1 /\ limit_ok e.2) sid s _ Hg).
Qed.

Lemma stream_send_inv others L q sid d :
  inv others L q -> is_varint sid ->
  inv others (log_write sid d q L) (exec (stream_send sid d) q).
Proof.
  intros HI Hs. unfold stream_send. rewrite exec_bind.
  destruct (ensure_send_stream_inv others L sid q HI Hs) as [HI1 (s & Hg & Hc)].
  unfold log_write. rewrite Hc. set (q1 := exec _ q) in *. clearbody q1. rewrite exec_bind, eval_gets, exec_gets.
  rewrite (the_send_stream_get _ _ _ Hg). pose proof (limit_of _ _ _ _ _ HI1 Hg) as Hl.
  eapply (put_send_stream_inv others L); try done.
  - unfold write_iobuf. by case_match.
  - intros k. cbn [l_written]. destruct (k =? sid) eqn:E; bool_to_prop; [subst k; cbn [andb]; reflexivity|done].
  - rewrite Hg. intros w fs Hlife Hlive. destruct (live_write _ _ _ _ d Hlive Hlife) as (w' & G1 & G2).
    exists w'. by destruct (ss_fin_sent s).
Qed.

Lemma stream_close_inv others L q sid :
  inv others L q -> is_varint sid -> inv others L (exec (stream_close sid) q).
Proof.
  intros HI Hs. unfold stream_close. rewrite exec_bind.
  destruct (ensure_send_stream_inv others L sid q HI Hs) as [HI1 (s & Hg & _)].
  set (q1 := exec _ q) in *. clearbody q1. rewrite exec_bind, eval_gets, exec_gets.
  rewrite (the_send_stream_get _ _ _ Hg). pose proof (limit_of _ _ _ _ _ HI1 Hg) as Hl.
  eapply (put_send_stream_inv others L L _ _ _ (l_written L sid)); try done.
  - unfold send_close. by case_match.
  - intros k. destruct (k =? sid) eqn:E; bool_to_prop; [by subst|done].
  - rewrite Hg. intros w fs Hlife Hlive. exists w. split; [done|by apply live_close].
Qed.

(* ------------------------------------------------------------------ *)
(** ** Aborts *)

Lemma retx_sum_split (P : StreamRetx -> bool) q :
  retx_sum q = retx_sum (List.filter P q) + retx_sum (List.filter (fun f => negb (P f)) q).
Proof.
  unfold retx_sum. induction q as [|f q IH]; cbn [List.filter foldr]; [done|]. destruct (P f); cbn [negb foldr]; lia.
Qed.

Lemma purged_fold (P : StreamRetx -> bool) q n :
  foldl (fun n f => if P f then sat_add32 n (w32 (zlen (sr_data f))) else n) n q =
  foldl (fun n f => sat_add32 n (w32 (zlen (sr_data f)))) n (List.filter P q).
Proof. revert n. induction q as [|f q IH]; intros n; cbn [foldl List.filter]; [done|]. destruct (P f); apply IH. Qed.

Lemma owed_ctrl_forall (P : CtrlRetx -> Prop) s :
  Forall P (owed_ctrl s) <->
  Forall P (collect ctrl_frames (all_inflight s)) /\
  Forall (fun e => P (CtrlReset e.1.1 e.1.2 e.2)) (s_pending_reset_streams s) /\
  Forall (fun e => P (CtrlStop e.1 e.2)) (s_pending_stop_sending s) /\ Forall P (s_pending_ctrl_frames s).
Proof. unfold owed_ctrl, queued_ctrl. rewrite !Forall_app, !Forall_map. tauto. Qed.

Definition abort_sender (sid code final : Z) (x : Sender) : Sender :=
  let keep := List.filter (fun f => negb (sr_sid f =? sid)) (s_retx_queue x) in
  let purged := foldl (fun n f => if sr_sid f =? sid then sat_add32 n (w32 (zlen (sr_data f))) else n)
                  0 (s_retx_queue x) in
  x |> set_retx keep (sat_sub (s_retx_bytes x) purged)
    |> set_aborted_sids (push_capped (s_aborted_sids x) sid STREAM_RESETS_CAP)
    |> set_pending_resets (s_pending_reset_streams x ++ [(sid, code, final)]).

Lemma sheds_abort sid code final :
  is_varint sid -> is_varint code -> is_varint final -> sheds (modify (abort_sender sid code final)).
Proof.
  intros V1 V2 V3 s [[B1 B2 B3 B4] S1 S2 S3 S4]. rewrite exec_modify. unfold abort_sender. cbv zeta.
  rewrite (purged_fold (fun f => sr_sid f =? sid)).
  pose proof (retx_sum_split (fun f => sr_sid f =? sid) (s_retx_queue s)) as Hq.
  set (keep := List.filter (fun f => negb (sr_sid f =? sid)) (s_retx_queue s)) in *.
  set (gone := List.filter (fun f => sr_sid f =? sid) (s_retx_queue s)) in *.
  pose proof (retx_sum_nonneg gone) as Hg. pose proof (retx_sum_nonneg keep) as Hk.
  assert (pkts_ok (all_inflight s)) as Hp by (apply Forall_app; split; [|apply Forall_app; split]; apply B1).
  pose proof (flight_of_nonneg _ Hp) as Hf.
  rewrite retx_count_exact by lia.
  assert (keep ⊆ s_retx_queue s) as Hsub.
  { intros f Hf'. unfold keep in Hf'. rewrite list_elem_of_In, filter_In in Hf'. apply list_elem_of_In. tauto. }
  split; [split|].
  - split; [done|done| |].
    + cbn [set_pending_resets set_aborted_sids set_retx s_retx_bytes s_retx_queue]. rewrite B3. unfold sat_sub. lia.
    + cbn [set_pending_resets set_aborted_sids set_retx s_retx_queue].
      change (flight_of (all_inflight s) + retx_sum keep <= U32_MAX). lia.
  - done.
  - unfold owed_stream in *. rewrite !Forall_app in *. split_and!; try apply S2.
    destruct S2 as (_ & S2 & _). rewrite Forall_forall in *. intros f Hin. by apply S2, Hsub.
  - apply owed_ctrl_forall in S3 as (O1 & O2 & O3 & O4). apply owed_ctrl_forall. split_and!; try done.
    apply Forall_app. split; [done|]. by apply Forall_singleton.
  - done.
  - unfold owed_stream. intros f. cbn [set_pending_resets set_aborted_sids set_retx s_retx_queue s_pending_stream_frames].
    change (all_inflight (set_pending_resets _ _)) with (all_inflight s). rewrite !elem_of_app. set_solver.
Qed.

Lemma reset_stream_inv others L q sid code :
  inv others L q -> is_varint sid -> is_varint code ->
  inv others L (exec (reset_stream sid code) q).
Proof.
  intros HI Hs Hc. unfold reset_stream. rewrite exec_bind.
  destruct (ensure_send_stream_inv others L sid q HI Hs) as [HI1 (s & Hg & _)].
  set (q1 := exec _ q) in *. clearbody q1. rewrite exec_bind, eval_gets, exec_gets.
  rewrite (the_send_stream_get _ _ _ Hg). pose proof (limit_of _ _ _ _ _ HI1 Hg) as Hl.
  assert (inv others L (exec (put_send_stream sid (abort s).2) q1)) as HI2.
  { eapply (put_send_stream_inv others L L _ _ _ (l_written L sid)); try done.
    - intros k. destruct (k =? sid) eqn:E; bool_to_prop; [by subst|done].
    - rewrite Hg. intros w fs Hlife Hlive. destruct (live_abort _ _ _ _ Hlive Hlife) as (w' & ? & ?). by exists w'. }
  destruct (ss_state s); try done; cbn [abort]; rewrite exec_bind;
    (apply (on_send_inv others L (modify (abort_sender sid code (ss_send_offset s)))); [|exact HI2]);
    (apply sheds_abort; [done|done|destruct Hl; split; lia]).
Qed.

Lemma stop_queue_inv others L sid code :
  is_varint sid -> is_varint code ->
  keeps (inv others L) (on_send (modify (fun x => set_pending_stops (s_pending_stop_sending x ++ [(sid, code)]) x))).
Proof.
  intros V1 V2. apply on_send_inv. intros s [[B1 B2 B3 B4] S1 S2 S3 S4]. rewrite exec_modify. split; [|done]. split; try done.
  apply owed_ctrl_forall in S3 as (O1 & O2 & O3 & O4). apply owed_ctrl_forall. split_and!; try done.
  apply Forall_app. split; [done|]. by apply Forall_singleton.
Qed.

Lemma receives_discard others sid : receives others (discard_recv sid).
Proof. split; [intros c [H1 H2]; split; [by apply discard_recv_inv|by apply ids_discard]|apply tx_discard]. Qed.

Lemma stop_sending_inv others L sid code :
  is_varint sid -> is_varint code -> keeps (inv others L) (stop_sending sid code).
Proof.
  intros V1 V2. apply kept_bind; [by apply stop_queue_inv|]. intros _. apply on_conn_inv, receives_discard.
Qed.

(* ------------------------------------------------------------------ *)
(** ** Whatever the peer sends *)

Lemma receives_view {A} others (m : St Conn A) :
  preserves flow_view m -> keeps ids_ok m -> preserves tx_view m -> receives others m.
Proof.
  intros H1 H2 H3. split; [|done]. intros c [G1 G2]. split; [by apply FlowInv_preserved|auto].
Qed.

Lemma receives_close others e : receives others (close_with_error e).
Proof. apply receives_view; [apply view_close|apply ids_close|apply tx_close]. Qed.
Lemma receives_note others : receives others note_app_ack_eliciting.
Proof. apply receives_view; [apply view_ack|apply ids_ack|apply tx_ack]. Qed.
Lemma receives_blocked others b : receives others (on_blocked b).
Proof. apply receives_view; [apply view_blocked|apply ids_blocked|apply tx_blocked]. Qed.
Lemma receives_failed others : receives others (modify (set_failed true)).
Proof. apply receives_view; [done| |done]. by apply ids_keeps. Qed.
Lemma receives_stream others level sid o d fin :
  is_varint sid -> is_varint o -> receives others (on_stream level sid o d fin).
Proof.
  intros V1 [V2 _]. split; [|apply tx_on_stream]. intros c [H1 H2]. split; [by apply on_stream_inv|by apply ids_on_stream].
Qed.
Lemma receives_reset others sid code final : is_varint sid -> receives others (process_reset_stream sid code final).
Proof.
  intros V1. split; [|apply tx_reset_stream]. intros c [H1 H2].
  split; [by apply process_reset_stream_inv|by apply ids_reset_stream].
Qed.
#[export] Hint Resolve on_conn_inv on_send_inv receives_close receives_note receives_blocked receives_failed receives_stream
  receives_reset receives_discard sheds_ack : keeps.

Lemma process_stop_sending_inv others L sid code :
  is_varint sid -> is_varint code -> keeps (inv others L) (process_stop_sending sid code).
Proof.
  intros V1 V2. assert (keeps (inv others L) (reset_stream sid code)) as Hr by (intros q HI; by apply reset_stream_inv).
  unfold process_stop_sending. keep.
Qed.

Lemma discard_level_inv others L level : keeps (inv others L) (discard_level level).
Proof.
  unfold discard_level. apply kept_bind; [|intros _].
  - apply tx_inv; [done|]. intros q [T1 T2 T3 T4 T5 T6 T7 T8]. by split.
  - apply on_send_inv. apply sheds_bind; [apply sheds_discard|intros _].
    set (m := fun s => _). intros s Hs.
    destruct (sheds_space level (set_largest_acked None) ltac:(by intros []) s Hs) as [H1 H2].
    rewrite exec_modify in H1, H2.
    destruct (sheds_core (modify (fun x => set_last_eliciting (level_set level None (s_last_eliciting x)) x)) ltac:(done) _ H1) as [H3 H4].
    rewrite exec_modify in *. unfold m. split; [exact H3|]. etransitivity; [exact H4|exact H2].
Qed.
#[export] Hint Resolve discard_level_inv : keeps.

Lemma max_stream_data_inv others L sid maximum :
  is_varint maximum -> keeps (inv others L) (handle_frame 0 LevelOneRtt (QuicFrame.MaxStreamData sid maximum)).
Proof.
  intros [V1 V2] q HI. cbn [handle_frame]. rewrite exec_bind, eval_gets, exec_gets.
  destruct (btree_get sid (c_send_streams (q_conn q))) as [s|] eqn:Eg; [|done]. rewrite exec_bind, exec_ret.
  pose proof (limit_of _ _ _ _ _ HI Eg) as [Hl1 Hl2].
  assert (is_varint sid) as V.
  { destruct HI as [[[_ _ _ C4 _] _ _] _]. by apply (btree_get_forall (fun e => is_varint e.1 /\ limit_ok e.2) sid s _ Eg). }
  eapply (put_send_stream_inv others L L _ _ _ (l_written L sid)); try done.
  - unfold limit_ok. cbn [set_ss_peer_max ss_send_offset ss_peer_max_stream_data]. lia.
  - intros k. destruct (k =? sid) eqn:E; bool_to_prop; [by subst|done].
  - rewrite Eg. intros w fs Hlife Hlive. exists w. split; [done|]. by apply (live_ext _ _ _ s).
Qed.

Lemma handle_frame_inv others L now level f body q :
  inv others L q -> frame_typed body f ->
  inv others L (exec (handle_frame now level f) q).
Proof.
  intros HI Ht. destruct f; cbn [frame_typed] in Ht;
    try (revert q HI;
         match goal with |- forall q, _ -> inv others L (exec ?m q) => change (keeps (inv others L) m) end;
         cbn [handle_frame]; keep; fail).
  - (* CRYPTO *)
    revert q HI. change (keeps (inv others L) (handle_frame now level (Crypto offset data))).
    cbn [handle_frame]. keep. apply tx_inv; [done|]. intros q [T1 T2 T3 T4 T5 T6 T7 T8]. by split.
  - (* STREAM *)
    destruct Ht as (V1 & V2 & _). revert q HI.
    change (keeps (inv others L) (handle_frame now level (Stream stream_id offset data fin))). cbn [handle_frame]. keep.
  - (* PATH_CHALLENGE *)
    destruct Ht as [_ Ht]. revert q HI. change (keeps (inv others L) (handle_frame now level (PathChallenge data))).
    cbn [handle_frame]. keep. apply tx_inv; [done|]. intros q [T1 T2 T3 T4 T5 T6 T7 T8]. by split.
  - (* MAX_DATA *)
    revert q HI. change (keeps (inv others L) (handle_frame now level (MaxData maximum))).
    cbn [handle_frame]. keep. apply tx_inv; [done|]. intros q [T1 T2 T3 T4 T5 T6 T7 T8]. destruct Ht. split; try done; cbn; lia.
  - (* MAX_STREAM_DATA *)
    destruct Ht as [V1 V2]. by apply (max_stream_data_inv others L stream_id maximum V2).
  - (* RESET_STREAM *)
    destruct Ht as (V1 & V2 & V3). revert q HI.
    change (keeps (inv others L) (handle_frame now level (ResetStream stream_id app_error_code final_size))).
    cbn [handle_frame]. keep.
  - (* STOP_SENDING *)
    destruct Ht as [V1 V2]. cbn [handle_frame] in *. destruct level; [done|done|]. by apply process_stop_sending_inv.
Qed.

Lemma dispatch_from_inv others L now level fuel : forall payload q,
  bytes_ok payload -> inv others L q ->
  inv others L (exec (dispatch_from now level fuel payload) q).
Proof.
  induction fuel as [|fuel IH]; intros payload q Hb HI; cbn [dispatch_from]; [by destruct payload|].
  destruct payload as [|t rest]; [done|]. destruct (parse_frame (t :: rest)) as [e|[f n]] eqn:Ep; [done|].
  destruct (parse_frame_post _ _ _ Hb Ep) as [_ Ht]. rewrite (parse_frame_rest _ _ _ Hb Ep), exec_bind.
  pose proof (handle_frame_inv others L now level f (t :: rest) q HI Ht) as HI1.
  destruct (eval (handle_frame now level f) q); [|done]. apply IH; [by apply Forall_drop|done].
Qed.

Lemma record_recv_inv others L level pn :
  is_varint pn ->
  keeps (inv others L) (on_send (modify (fun s => set_space level (record_recv_pn pn (space_at level s)) s))).
Proof.
  intros [V1 V2]. apply on_send_inv. apply sheds_space. intros sp. split; [done|]. split; [done|]. intros Hok.
  apply record_recv_pn_ranges; [done|lia].
Qed.

Lemma process_payload_inv others L now level pn payload q :
  bytes_ok payload -> is_varint pn -> inv others L q ->
  inv others L (exec (process_payload now level pn payload) q).
Proof.
  intros Hb V HI. unfold process_payload, dispatch_frames. rewrite exec_bind.
  set (r := eval _ q). set (q1 := exec (dispatch_from _ _ _ _) q).
  match goal with |- inv _ _ (exec ?m _) => set (k := m) in * end.
  assert (keeps (inv others L) k) as Hk.
  { unfold k. pose proof (record_recv_inv others L level pn V) as Hrec. destruct r; [by intros ?|].
    apply kept_bind; [by intros ?|]. intros q0. apply kept_bind; [destruct level; keep|]. intros _.
    apply kept_bind; [done|]. intros _. apply kept_bind.
    - destruct level; [|..|keep]; (apply on_send_inv, (sheds_space _ (fun sp => mkSpace (next_send_pn sp) (largest_recv_pn sp) true
        (largest_acked sp) (sent_packets sp) (recv_ranges sp))); by intros []).
    - intros _. keep. apply tx_inv; [done|]. intros q' [T1 T2 T3 T4 T5 T6 T7 T8]. by split. }
  apply Hk. by apply dispatch_from_inv.
Qed.
