(* ===== verification/QuicEncode.v ===== *)
(** * The 1-RTT packet encoder of QUIC (conn/tx.rs)

    What one 1-RTT packet carries: the ACK if due, the pending control frames, the
    receive credit, TLS bytes, lost STREAM frames again and then fresh ones, under
    the packet's size, the congestion window and the peer's flow control; then the
    packet number, the padding and the record for loss recovery.  The packet is
    modelled before its AEAD seal, which neither fails nor changes its length.
    Around it: the check that a flush has nothing to do, the pacer, the
    anti-amplification limit, and the two ways packets leave, one by one and as
    the segments of a super-packet. *)

From S2P Require Import Prelude.
From S2P Require Import CongestionControl.
From S2P Require Import NetTypes.
From S2P Require Import QuicWire.
From S2P Require Import QuicFrame.
From S2P Require Import QuicParams.
From S2P Require Import QuicStreams.
From S2P Require Import QuicCrypto.
From S2P Require Import QuicSpace.
From S2P Require Import QuicLoss.
From S2P Require Import QuicFlow.
From S2P Require Import QuicConn.

#[local] Open Scope st_scope.

Abbreviation APP_ACK_ELICIT_THRESHOLD := 8%Z (only parsing).
Abbreviation ACK_MAX_DELAY_US := 25000%Z (only parsing).
Abbreviation HP_SAMPLE_LEN := 16%Z (only parsing).
Abbreviation TAG_LEN := 16%Z (only parsing).
Abbreviation LOW_RTT_CAP_THRESHOLD_US := 1000%Z (only parsing).
Abbreviation LOW_RTT_PACE_RATE_BPS := 500000000%Z (only parsing).
Abbreviation MIN_PACE_INTERVAL_US := 10%Z (only parsing).
Abbreviation MAX_PACE_BURST := 22400%Z (only parsing).
Abbreviation MAX_FLUSH_PACKETS := 32%nat (only parsing).
Abbreviation MAX_L2_HEADROOM := 62%Z (only parsing).
Abbreviation MAX_GSO_SEGMENTS := 16%nat (only parsing).

(* ------------------------------------------------------------------ *)
(** ** What is due *)

Definition has_pending_one_rtt_data (q : Quic) : bool :=
  negb (match s_retx_queue (q_send q) with [] => true | _ => false end) ||
  existsb (fun e => match ss_state e.2 with
                    | FinSent | ResetSent => false
                    | Closing => true
                    | SendOpen => negb (outbound_is_empty e.2)
                    end) (c_send_streams (q_conn q)).

Definition app_ack_due (now : Z) (c : Conn) : bool :=
  (APP_ACK_ELICIT_THRESHOLD <=? c_ack_eliciting_since_ack c) ||
  (negb (c_first_unacked_us c =? 0) && (ACK_MAX_DELAY_US <=? sat_sub now (c_first_unacked_us c))).

Definition app_ack_deadline_us (c : Conn) : option Z :=
  if c_ack_pending c && negb (c_first_unacked_us c =? 0)
  then Some (w64 (c_first_unacked_us c + ACK_MAX_DELAY_US)) else None.

Definition has_pending_one_rtt_crypto (q : Quic) : bool :=
  match level_get LevelOneRtt (q_tls_tx q) with [] => false | _ => true end.

Definition has_one_rtt_to_send (now : Z) (q : Quic) : bool :=
  let c := q_conn q in
  let s := q_send q in
  (c_ack_pending c && (has_pending_one_rtt_data q || app_ack_due now c)) ||
  (negb (q_done_sent q) ||
   (c_max_streams_bidi_advertised c <=? w64 (c_bidi_streams_opened c + STREAM_CREDIT_REFILL_AT)) ||
   (c_max_streams_uni_advertised c <=? w64 (c_uni_streams_opened c + STREAM_CREDIT_REFILL_AT)) ||
   c_force_max_streams_bidi c || c_force_max_streams_uni c ||
   match q_path_response q with Some _ => true | None => false end ||
   negb (match s_pending_reset_streams s with [] => true | _ => false end) ||
   negb (match s_pending_stop_sending s with [] => true | _ => false end) ||
   c_force_max_data c ||
   ((sat_sub (c_max_data_advertised c) (c_data_consumed c) <=? INITIAL_MAX_DATA / 2) &&
    negb (recv_buffer_over_budget c))) ||
  (c_force_max_stream_data c ||
   existsb (fun e => negb (rs_is_closed e.2) &&
              (sat_sub (rs_recv_max e.2) (rs_consumed e.2) <=? INITIAL_MAX_STREAM_DATA / 2))
     (c_recv_streams c)) ||
  (has_pending_one_rtt_crypto q || has_pending_one_rtt_data q).

(* ------------------------------------------------------------------ *)
(** ** The packet under construction *)

(** [e_body]: the datagram from [payload_offset] on.  [false] is an error, which
    ends the flush and drops the datagram. *)
Record Enc := mkEnc { e_quic : Quic; e_body : list Z; e_eliciting : bool }.

Definition enc_seq (m k : St Enc bool) : St Enc bool :=
  ok <- m;; if ok : bool then k else sret false.
#[local] Notation "m '?;' k" := (enc_seq m k) (at level 100, k at level 200, right associativity).

Definition at_quic {A} (m : St Quic A) : St Enc A :=
  fun e => let (a, q) := m (e_quic e) in (a, mkEnc q (e_body e) (e_eliciting e)).
Definition at_sender (f : Sender -> Sender) : St Enc bool := at_quic (on_send (modify f));; sret true.
Definition elicits : St Enc bool := modify (fun e => mkEnc (e_quic e) (e_body e) true);; sret true.
Definition emit (bs : list Z) : St Enc bool :=
  modify (fun e => mkEnc (e_quic e) (e_body e ++ bs) (e_eliciting e));; sret true.

(** A frame written to a scratch buffer of [cap] bytes and appended. *)
Definition put (cap : Z) (c : Call) : St Enc bool :=
  match run_call c cap with inl _ => sret false | inr bs => emit bs end.

Definition enc_ack (now : Z) : St Enc bool :=
  q <- gets e_quic;;
  if c_ack_pending (q_conn q) && (has_pending_one_rtt_data q || app_ack_due now (q_conn q)) then
    modify (fun e => mkEnc (e_quic e) (append_ack_frame (e_body e) (space_at LevelOneRtt (q_send q))) (e_eliciting e));;
    at_quic (on_conn (modify (fun c => c |> set_ack_pending false |> set_ack_since 0 |> set_first_unacked_us 0)));;
    sret true
  else sret true.

Definition enc_done : St Enc bool :=
  q <- gets e_quic;;
  if q_done_sent q then sret true
  else emit [ftype.HANDSHAKE_DONE] ?; (at_quic (modify (set_done_sent true));; elicits).

Definition enc_path_response : St Enc bool :=
  q <- gets e_quic;;
  match q_path_response q with
  | None => sret true
  | Some data =>
      at_quic (modify (set_path_response None));;
      modify (fun e => mkEnc (e_quic e) (append_path_response_into (e_body e) data) (e_eliciting e));;
      elicits
  end.

(** The two control queues, drained while the packet has room; [hdr] is the length
    of the short header. *)
Fixpoint enc_stops (hdr : Z) (l : list (Z * Z)) : St Enc bool :=
  match l with
  | [] => sret true
  | (sid, code) :: l =>
      body <- gets e_body;;
      if hdr + zlen body <? PACKET_BODY_BUDGET then
        at_sender (set_pending_stops l) ?;
        put 24 (CallStopSending sid code) ?;
        at_sender (fun s => set_pending_ctrl (s_pending_ctrl_frames s ++ [CtrlStop sid code]) s) ?;
        elicits ?; enc_stops hdr l
      else sret true
  end.

Fixpoint enc_resets (hdr : Z) (l : list (Z * Z * Z)) : St Enc bool :=
  match l with
  | [] => sret true
  | (sid, code, final_size) :: l =>
      body <- gets e_body;;
      if hdr + zlen body <? PACKET_BODY_BUDGET then
        at_sender (set_pending_resets l) ?;
        put 32 (CallResetStream sid code final_size) ?;
        at_sender (fun s => set_pending_ctrl (s_pending_ctrl_frames s ++ [CtrlReset sid code final_size]) s) ?;
        elicits ?; enc_resets hdr l
      else sret true
  end.

(** Receive credit, by the grants of [QuicFlow] into [append_max_*_into].  The
    values fit the variable-length form, so no grant fails here. *)
Definition credit_call (f : CreditFrame) : Z * Call :=
  match f with
  | MaxStreamsBidi m => (16, CallMaxStreamsBidi m)
  | MaxStreamsUni m => (16, CallMaxStreamsUni m)
  | MaxDataFrame m => (16, CallMaxData m)
  | QuicFlow.MaxStreamData sid m => (24, CallMaxStreamData sid m)
  end.
Fixpoint put_credit (fs : list CreditFrame) : St Enc bool :=
  match fs with
  | [] => sret true
  | f :: fs => put (credit_call f).1 (credit_call f).2 ?; elicits ?; put_credit fs
  end.
Definition enc_grant (m : St Conn (list CreditFrame)) : St Enc bool :=
  fs <- at_quic (on_conn m);; put_credit fs.
Definition enc_credit (hdr : Z) : St Enc bool :=
  enc_grant grant_max_streams ?; enc_grant grant_max_data ?;
  (body <- gets e_body;; enc_grant (grant_max_stream_data (hdr + zlen body))).

Definition pop_handshake (level : CryptoLevel) (cap : Z) : St Quic (list Z) :=
  fun q =>
    let buf := level_get level (q_tls_tx q) in
    (ztake cap buf, set_tls_tx (level_set level (zdrop cap buf) (q_tls_tx q)) q).

Definition enc_crypto : St Enc bool :=
  q <- gets e_quic;;
  if has_pending_one_rtt_crypto q then
    data <- at_quic (pop_handshake LevelOneRtt 1024);;
    let offset := level_get LevelOneRtt (q_crypto_offset q) in
    put (zlen data + 16) (CallCrypto offset data) ?;
    (at_quic (modify (fun q => set_crypto_offset (level_set LevelOneRtt (offset + zlen data) (q_crypto_offset q)) q));;
     elicits)
  else sret true.

(* ------------------------------------------------------------------ *)
(** ** STREAM frames *)

(** Lost frames go again from the front of the queue, while they fit the packet
    and the congestion window; one may always go onto an empty wire.  The result
    is the window left and the frames taken. *)
Fixpoint enc_retx (in_flight : Z) (queue : list StreamRetx) (wire_budget : Z) (frames : list StreamRetx)
    : St Enc (option (Z * list StreamRetx)) :=
  match queue with
  | [] => sret (Some (wire_budget, frames))
  | front :: queue =>
      body <- gets e_body;;
      let n := zlen (sr_data front) in
      let room := sat_sub PACKET_BODY_BUDGET (zlen body + 16) in
      if (room =? 0) || (room <? n) then sret (Some (wire_budget, frames))
      else if (wire_budget <? n) && negb ((in_flight =? 0) && match frames with [] => true | _ => false end)
      then sret (Some (wire_budget, frames))
      else
        at_sender (fun s => set_retx queue (sat_sub (s_retx_bytes s) (w32 n)) s);;
        ok <- put 0 (CallStreamParts (sr_sid front) (sr_offset front) (sr_fin front) (sr_data front));;
        if ok : bool
        then elicits;; enc_retx in_flight queue (sat_sub wire_budget n) (frames ++ [front])
        else sret None
  end.

(** What the fill of a packet with fresh data works on. *)
Record Fill := mkFill {
  f_body : list Z;
  f_eliciting : bool;
  f_cc : Z;
  f_fc : Z;
  f_delta : Z;
  f_frames : list StreamRetx
}.

(** The most a stream may put into the packet now; [None] leaves it for later. *)
Definition max_chunk (s : SendStream) (f : Fill) : option Z :=
  if (match ss_state s with Closing => true | _ => false end) && outbound_is_empty s then Some 0
  else if (f_cc f =? 0) || (f_fc f =? 0) then None
  else
    let mc := Z.min (Z.min (Z.min (sat_sub PACKET_BODY_BUDGET (zlen (f_body f) + 16)) (f_cc f)) (f_fc f))
                (sat_sub (ss_peer_max_stream_data s) (ss_send_offset s)) in
    if mc =? 0 then None else Some mc.

(** The inner loop; every round adds to the body, so the budget bounds it. *)
Fixpoint fill_stream (fuel : nat) (now sid : Z) (s : SendStream) (f : Fill) : bool * SendStream * Fill :=
  match fuel with
  | O => (true, s, f)
  | S fuel =>
      if PACKET_BODY_BUDGET <=? zlen (f_body f) then (true, s, f)
      else
        match max_chunk s f with
        | None => (true, s, f)
        | Some mc =>
            match pop_chunk now mc s with
            | (None, _, s) => (true, s, f)
            | (Some (offset, data, fin), _, s) =>
                match run_call (CallStreamParts sid offset fin data) 0 with
                | inl _ => (false, s, f)
                | inr bs =>
                    let n := zlen data in
                    fill_stream fuel now sid s
                      (mkFill (f_body f ++ bs) true (sat_sub (f_cc f) n) (sat_sub (f_fc f) n) (f_delta f + n)
                         (f_frames f ++ [mkStreamRetx sid offset fin data]))
                end
            end
        end
  end.

Definition fill_fuel : nat := 1101.

Fixpoint fill_streams (now : Z) (m : list (Z * SendStream)) (f : Fill) : bool * list (Z * SendStream) * Fill :=
  match m with
  | [] => (true, [], f)
  | (sid, s) :: m =>
      let '(ok, s, f) := fill_stream fill_fuel now sid s f in
      if ok then let '(ok, m, f) := fill_streams now m f in (ok, (sid, s) :: m, f)
      else (false, (sid, s) :: m, f)
  end.

Definition enc_stream (now : Z) : St Enc bool :=
  q <- gets e_quic;;
  let window := Controller.window (s_cc (q_send q)) in
  let in_flight := s_bytes_in_flight (q_send q) in
  r <- enc_retx in_flight (s_retx_queue (q_send q)) (sat_sub window in_flight) [];;
  match r with
  | None => sret false
  | Some (wire_budget, frames) =>
      e <- gets (fun e => e);;
      let q := e_quic e in
      let cc_budget := Z.min wire_budget (sat_sub window (in_flight + s_retx_bytes (q_send q))) in
      let '(ok, m, f) :=
        fill_streams now (c_send_streams (q_conn q))
          (mkFill (e_body e) (e_eliciting e) cc_budget (sat_sub (q_peer_max_data q) (q_data_sent q)) 0 frames) in
      modify (fun e => mkEnc (set_conn (set_send_streams m (q_conn q)) q) (f_body f) (f_eliciting f));;
      if ok : bool then
        at_quic (modify (fun q => set_data_sent (sat_add64 (q_data_sent q) (f_delta f)) q));;
        match f_frames f with
        | [] => sret true
        | fs => at_sender (set_pending_stream fs)
        end
      else sret false
  end.

(* ------------------------------------------------------------------ *)
(** ** The packet *)

Definition short_header_len (q : Quic) : Z := 1 + zlen (q_peer_cid q) + 4.

Definition enc_frames (now : Z) (hdr : Z) : St Enc bool :=
  enc_ack now ?; enc_done ?; enc_path_response ?;
  (q <- gets e_quic;; enc_stops hdr (s_pending_stop_sending (q_send q))) ?;
  (q <- gets e_quic;; enc_resets hdr (s_pending_reset_streams (q_send q))) ?;
  enc_credit hdr ?; enc_crypto ?; enc_stream now.

(** PADDING up to [n] bytes. *)
Definition pad_to (n : Z) (body : list Z) : list Z := body ++ repeat 0 (Z.to_nat (n - zlen body)).

Definition pad_packet (hdr : Z) (pad_to_wire : option Z) (body : list Z) : list Z :=
  let body := pad_to HP_SAMPLE_LEN body in
  match pad_to_wire with
  | None => body
  | Some g => pad_to (g - TAG_LEN - hdr) body
  end.

(** The packet built: its number, its payload, its length on the wire. *)
Record Packet := mkPacket { pk_pn : Z; pk_payload : list Z; pk_wire : Z }.

(** [encode_one_rtt_packet_padded]: an error, or the packet if there was anything
    to send. *)
Definition encode_one_rtt_packet (now : Z) (pad_to_wire : option Z) : St Quic (unit + option Packet) :=
  q <- gets (fun q => q);;
  if negb (level_get LevelOneRtt (q_keys q)) then sret (inr None)
  else
    let hdr := short_header_len q in
    let '(ok, e) := enc_frames now hdr (mkEnc q [] false) in
    modify (fun _ => e_quic e);;
    if negb ok then sret (inl tt)
    else if zlen (e_body e) =? 0 then sret (inr None)
    else
      pn <- on_send (take_pn LevelOneRtt);;
      let payload := pad_packet hdr pad_to_wire (e_body e) in
      let wire := hdr + zlen payload + TAG_LEN in
      on_send (record_sent_packet now LevelOneRtt pn (e_eliciting e) (w32 wire));;
      sret (inr (Some (mkPacket pn payload wire))).

(* ------------------------------------------------------------------ *)
(** ** The pacer and the anti-amplification limit *)

Definition pace_rate (s : Sender) : Z :=
  match s_smoothed_rtt s with
  | Some srtt =>
      if LOW_RTT_CAP_THRESHOLD_US <=? srtt then Z.max (Controller.pacing_rate (s_cc s)) 1
      else LOW_RTT_PACE_RATE_BPS
  | None => LOW_RTT_PACE_RATE_BPS
  end.

Definition sat_i64 (v : Z) : Z := Z.max (- 2 ^ 63) (Z.min (2 ^ 63 - 1) v).

Definition pace_gate (now : Z) : St Quic bool :=
  modify (fun q =>
    let elapsed := sat_sub now (q_pace_last q) in
    let add := sat_mul64 (pace_rate (q_send q)) elapsed / 1000000 in
    q |> set_pace_budget (Z.min (sat_i64 (q_pace_budget q + add)) MAX_PACE_BURST) |> set_pace_last now);;
  gets (fun q => 0 <? q_pace_budget q).

Definition pace_consume (n : Z) : St Quic unit :=
  modify (fun q => set_pace_budget (sat_i64 (q_pace_budget q - n)) q).

Definition pace_deadline_us (q : Quic) : option Z :=
  if negb (has_pending_one_rtt_data q) || (0 <? q_pace_budget q) then None
  else
    let deficit := w64 (MAX_PACE_BURST - q_pace_budget q) in
    let wait := Z.max (sat_mul64 deficit 1000000 / pace_rate (q_send q)) MIN_PACE_INTERVAL_US in
    Some (sat_add64 (q_pace_last q) wait).

Definition anti_amp_remaining (q : Quic) : Z :=
  if q_path_validated q then U64_MAX else sat_sub (sat_mul64 (q_received_pre q) 3) (q_sent_pre q).

Definition record_bytes_sent (n : Z) : St Quic unit :=
  modify (fun q => if q_path_validated q then q else set_sent_pre (sat_add64 (q_sent_pre q) n) q).

(** The accounting at the head of [process_datagram_inner]. *)
Definition record_bytes_received (n : Z) : St Quic unit :=
  modify (fun q => if q_path_validated q then q else set_received_pre (sat_add64 (q_received_pre q) n) q).

(* ------------------------------------------------------------------ *)
(** ** How packets leave *)

Definition is_established (q : Quic) : bool := q_established q && negb (c_failed (q_conn q)).

(** The packet stays recorded as sent when the limit holds it back. *)
Definition emit_one_rtt_datagram (now : Z) : St Quic (unit + option Packet) :=
  r <- encode_one_rtt_packet now None;;
  match r with
  | inl e => sret (inl e)
  | inr None => sret (inr None)
  | inr (Some p) =>
      room <- gets anti_amp_remaining;;
      if room <? pk_wire p then sret (inr None)
      else pace_consume (pk_wire p);; record_bytes_sent (pk_wire p);; sret (inr (Some p))
  end.

Definition one_rtt_tail_ready (now : Z) : St Quic bool :=
  q <- gets (fun q => q);;
  if has_pending_one_rtt_data q && (0 <? anti_amp_remaining q) then pace_gate now else sret false.

(** The tail loop of [flush_outbound_inner], with the packets it queues. *)
Fixpoint flush_tail (n : nat) (now : Z) : St Quic (unit + list Packet) :=
  match n with
  | O => sret (inr [])
  | S n =>
      ready <- one_rtt_tail_ready now;;
      if negb ready then sret (inr [])
      else
        r <- emit_one_rtt_datagram now;;
        match r with
        | inl e => sret (inl e)
        | inr None => sret (inr [])
        | inr (Some p) =>
            rest <- flush_tail n now;;
            sret (match rest with inl e => inl e | inr ps => inr (p :: ps) end)
        end
  end.

Definition build_next_one_rtt_datagram (now : Z) : St Quic (unit + option Packet) :=
  q <- gets (fun q => q);;
  if negb (is_established q) || negb (level_get LevelHandshake (q_discarded q)) then sret (inr None)
  else if negb (has_one_rtt_to_send now q) || (anti_amp_remaining q =? 0) then sret (inr None)
  else
    paced <- (if has_pending_one_rtt_data q then pace_gate now else sret true);;
    if negb paced then sret (inr None) else emit_one_rtt_datagram now.

Definition flush_outbound_is_noop (now : Z) (q : Quic) : bool :=
  match c_close_pending (q_conn q) with Some _ => false | None => true end &&
  is_established q && level_get LevelInitial (q_discarded q) && level_get LevelHandshake (q_discarded q) &&
  negb (has_one_rtt_to_send now q).

(** ** Segmentation offload *)

Fixpoint sendable_from (conn_fc n : Z) (m : list (Z * SendStream)) : Z :=
  match m with
  | [] => n
  | (_, s) :: m =>
      if conn_fc =? 0 then n
      else
        let stream_fc := sat_sub (ss_peer_max_stream_data s) (ss_send_offset s) in
        let sendable := Z.min (Z.min (buffered_len s) stream_fc) conn_fc in
        sendable_from (conn_fc - sendable) (sat_add64 n sendable) m
  end.
Definition sendable_one_rtt_stream_bytes (q : Quic) : Z :=
  sendable_from (sat_sub (q_peer_max_data q) (q_data_sent q)) (s_retx_bytes (q_send q)) (c_send_streams (q_conn q)).

Definition gso_segment_size (q : Quic) : Z := 1 + zlen (q_peer_cid q) + 4 + PACKET_BODY_BUDGET + TAG_LEN.

(** The loop of [try_flush_gso]; [len] is what the super-buffer holds, headroom
    included, and the packets are those left in it. *)
Fixpoint gso_segments (fuel : nat) (now gso window cap len : Z) : St Quic (unit + list Packet) :=
  match fuel with
  | O => sret (inr [])
  | S fuel =>
      q <- gets (fun q => q);;
      if negb (has_pending_one_rtt_data q) then sret (inr [])
      else if cap <? len + gso then sret (inr [])
      else if window <? s_bytes_in_flight (q_send q) + gso then sret (inr [])
      else
        r <- encode_one_rtt_packet now (Some gso);;
        match r with
        | inl e => sret (inl e)
        | inr None => sret (inr [])
        | inr (Some p) =>
            if gso <? pk_wire p then sret (inr [])
            else
              record_bytes_sent (pk_wire p);;
              rest <- gso_segments fuel now gso window cap (len + pk_wire p);;
              sret (match rest with inl e => inl e | inr ps => inr (p :: ps) end)
        end
  end.

(** [slot]: the capacity of the big-pool slot [take_gso_datagram_buf] asks the
    driver for, [None] without one.  No packet means the per-packet path runs. *)
Definition try_flush_gso (now : Z) (slot : option Z) : St Quic (unit + list Packet) :=
  q <- gets (fun q => q);;
  if negb (is_established q) || has_pending_one_rtt_crypto q then sret (inr [])
  else
    let gso := gso_segment_size q in
    let window := Controller.window (s_cc (q_send q)) in
    if (sat_sub window (s_bytes_in_flight (q_send q)) <? 2 * gso) ||
       (sendable_one_rtt_stream_bytes q <? 2 * PACKET_BODY_BUDGET)
    then sret (inr [])
    else
      match slot with
      | None => sret (inr [])
      | Some cap =>
          if cap <? MAX_L2_HEADROOM + 2 * gso then sret (inr [])
          else gso_segments MAX_GSO_SEGMENTS now gso window cap MAX_L2_HEADROOM
      end.
