(* ===== verification/QuicEncodeInv.v ===== *)
(** * The stages of the 1-RTT encoder

    Every stage appends whole frames, keeps the connection in order and the
    packet within bounds, and stages for loss recovery what it appended. *)

From S2P Require Import Prelude.
From S2P Require Import CongestionControl.
From S2P Require Import NetTypes.
From S2P Require Import QuicWire.
From S2P Require Import QuicParams.
From S2P Require Import QuicFrame.
From S2P Require Import QuicStreams.
From S2P Require Import QuicCrypto.
From S2P Require Import QuicSpace.
From S2P Require Import QuicLoss.
From S2P Require Import QuicFlow.
From S2P Require Import QuicFlowInv.
From S2P Require Import QuicConn.
From S2P Require Import QuicConnInv.
From S2P Require Import QuicEncode.

#[local] Open Scope st_scope.

(* ------------------------------------------------------------------ *)
(** ** Frames and their lengths *)

Definition wires (cs : list Call) : list Z := concat (map call_wire cs).

Lemma wires_app a b : wires (a ++ b) = wires a ++ wires b.
Proof. unfold wires. by rewrite map_app, concat_app. Qed.

Lemma wires_one c : wires [c] = call_wire c.
Proof. unfold wires. cbn [map concat]. apply app_nil_r. Qed.

Lemma varint_wire_zlen v : is_varint v -> zlen (varint_wire v) = varint_len v.
Proof.
  intros Hv. unfold varint_wire, varint_len. destruct (varint_form_spec v Hv) as (c & -> & Hc & _).
  destruct (pow2_len c Hc) as (k & Ek & _). rewrite Ek. unfold zlen. cbn [be_write or_first length fst].
  by rewrite (proj2 (be_write_ok k v)).
Qed.

Lemma varint_wire_short v : 0 <= v <= 16383 -> zlen (varint_wire v) <= 2.
Proof.
  intros Hv. rewrite varint_wire_zlen by (split; [lia|]; change MAX_VARINT with 4611686018427387903; lia).
  unfold varint_len, varint_form. change (Z.shiftl 1 14) with 16384. repeat case_match; bool_to_prop; cbn; lia.
Qed.

Lemma call_wire_pos c : 1 <= zlen (call_wire c).
Proof. unfold call_wire. rewrite zlen_cons. pose proof (zlen_nonneg (concat (call_layout c).2)). lia. Qed.

(** The frames the peer has to acknowledge. *)
Definition eliciting_call (c : Call) : bool :=
  match c with CallAck _ _ _ _ | CallPadding | CallClose _ _ _ => false | _ => true end.

Definition stream_calls (cs : list Call) : list StreamRetx :=
  omap (fun c => match c with CallStream s o f d | CallStreamParts s o f d => Some (mkStreamRetx s o f d) | _ => None end) cs.
Definition ctrl_calls (cs : list Call) : list CtrlRetx :=
  omap (fun c => match c with
                 | CallResetStream s c f => Some (CtrlReset s c f)
                 | CallStopSending s c => Some (CtrlStop s c)
                 | _ => None
                 end) cs.

(** What a call adds to the packet at most. *)
Definition call_max (c : Call) : Z :=
  match c with
  | CallHandshakeDone => 1
  | CallPathResponse _ => 9
  | CallStopSending _ _ => 17
  | CallResetStream _ _ _ => 25
  | CallMaxStreamsBidi _ | CallMaxStreamsUni _ | CallMaxData _ => 9
  | CallMaxStreamData _ _ => 17
  | CallCrypto _ d => 11 + zlen d
  | CallStreamParts _ _ _ d => 19 + zlen d
  | _ => zlen (call_wire c)
  end.

Lemma call_wire_max c :
  call_ok c -> match c with CallCrypto _ d | CallStreamParts _ _ _ d => zlen d <= 16383 | _ => True end -> zlen (call_wire c) <= call_max c.
Proof.
  unfold call_wire. destruct c; cbn [call_ok call_layout call_max fst snd concat]; intros Hc Hs; try done;
    rewrite zlen_cons, ?app_nil_r, ?zlen_app; try (pose proof (varint_wire_short _ (conj (zlen_nonneg data) Hs)));
    repeat match goal with H : _ /\ _ |- _ => destruct H end;
    repeat match goal with H : is_varint ?v |- _ => pose proof (varint_wire_len v H); clear H end;
    rewrite ?zlen_nil; try lia.
Qed.

Lemma run_call_fits c cap : call_ok c -> zlen (call_wire c) <= cap -> run_call c cap = inr (call_wire c).
Proof.
  intros Hc Hl. rewrite run_call_wire by done. unfold call_answer. destruct (zlen _ <=? cap) eqn:E; [by rewrite orb_true_r|].
  bool_to_prop. lia.
Qed.

Lemma run_call_parts s o f d :
  call_ok (CallStreamParts s o f d) -> run_call (CallStreamParts s o f d) 0 = inr (call_wire (CallStreamParts s o f d)).
Proof. intros Hc. by rewrite run_call_wire. Qed.

(* ------------------------------------------------------------------ *)
(** ** Receive credit *)

Definition credit_calls (fs : list CreditFrame) : list Call := map (fun f => (credit_call f).2) fs.

(** The receive accounts, and the send streams as they were. *)
Definition rx_ok (others : Z) (c0 c : Conn) : Prop := FlowInv others c /\ ids_ok c /\ tx_view c = tx_view c0.

(** What a grant hands to the encoder: frames it can write, [n] bytes at most. *)
Definition grants (others n : Z) (m : St Conn (list CreditFrame)) (c : Conn) : Prop :=
  rx_ok others c (exec m c) /\ Forall call_ok (credit_calls (eval m c)) /\ zlen (wires (credit_calls (eval m c))) <= n.

Lemma credit_limit k n : 0 <= n <= 2 ^ 60 -> k = w64 (n + STREAM_CREDIT_WINDOW) -> is_varint k.
Proof.
  intros Hn ->. rewrite w64_small; [|unfold is_u64; change U64_MAX with (2 ^ 64 - 1); lia].
  unfold is_varint. change MAX_VARINT with (2 ^ 62 - 1). lia.
Qed.

Lemma grant_max_streams_ok others c : FlowInv others c -> ids_ok c -> grants others 18 grant_max_streams c.
Proof.
  intros HF HI. pose proof HI as [I1 I2 I3 I4 I5].
  pose proof (credit_limit _ _ I2 eq_refl) as K2. pose proof (credit_limit _ _ I3 eq_refl) as K3.
  assert (forall a, is_varint a -> zlen (call_wire (CallMaxStreamsBidi a)) <= 9) as M1
    by (intros a Ha; by apply (call_wire_max (CallMaxStreamsBidi a))).
  assert (forall a, is_varint a -> zlen (call_wire (CallMaxStreamsUni a)) <= 9) as M2
    by (intros a Ha; by apply (call_wire_max (CallMaxStreamsUni a))).
  pose proof (FlowInv_preserved others grant_max_streams c view_grant_streams HF) as HF'.
  unfold grants, rx_ok. split; [split; [done|]|]; unfold grant_max_streams, sbind, gets, swhen, sret, modify, exec, eval, credit_calls;
    repeat (case_match; cbn [fst snd] in * ); simplify_eq; cbn [fst snd app map credit_call c_max_streams_bidi_advertised
      c_max_streams_uni_advertised set_max_streams_bidi set_max_streams_uni set_force_max_streams_bidi set_force_max_streams_uni].
  all: try (split; [split; done|done]).
  all: split; [repeat (apply Forall_cons_2; [done|]); apply Forall_nil_2|].
  all: unfold wires; cbn [map concat]; rewrite ?zlen_app, ?zlen_nil.
  all: repeat match goal with |- context [call_wire (CallMaxStreamsBidi ?a)] =>
         pose proof (M1 a ltac:(assumption)); generalize dependent (zlen (call_wire (CallMaxStreamsBidi a))); intros end.
  all: repeat match goal with |- context [call_wire (CallMaxStreamsUni ?a)] =>
         pose proof (M2 a ltac:(assumption)); generalize dependent (zlen (call_wire (CallMaxStreamsUni a))); intros end.
  all: lia.
Qed.

Lemma max_data_varint others c : FlowInv others c -> is_varint (c_max_data_advertised c).
Proof.
  intros HF. pose proof (flow_bounds _ _ _ _ _ _ _ HF) as (Q1 & _ & _). destruct HF as [_ _ _ H4 H5 _ _ _ _ _].
  split; lia.
Qed.

Lemma grant_max_data_ok others c : FlowInv others c -> ids_ok c -> grants others 9 grant_max_data c.
Proof.
  intros HF HI. destruct (grant_max_data_inv others c HF) as [HF' _]. pose proof (max_data_varint _ _ HF') as V.
  assert (ids_ok (exec grant_max_data c) /\ tx_view (exec grant_max_data c) = tx_view c) as [HI' Ht].
  { split; [eapply ids_ok_view; [|exact HI]|]; unfold grant_max_data, sbind, gets, swhen, sret, modify, exec;
      repeat (case_match; cbn [fst snd] in * ); by simplify_eq. }
  split; [done|].
  assert (eval grant_max_data c = [] \/ eval grant_max_data c = [MaxDataFrame (c_max_data_advertised (exec grant_max_data c))])
    as [E|E].
  { unfold grant_max_data, sbind, gets, swhen, sret, modify, exec, eval.
    repeat (case_match; cbn [fst snd] in * ); simplify_eq; auto. }
  - rewrite E. by split; [apply Forall_nil_2|].
  - rewrite E. split; [by apply Forall_singleton|]. cbn [credit_calls map credit_call snd]. rewrite wires_one.
    by apply (call_wire_max (CallMaxData (c_max_data_advertised (exec grant_max_data c)))).
Qed.

Lemma max_stream_data_zlen sid m :
  is_varint sid -> is_varint m -> zlen (call_wire (CallMaxStreamData sid m)) = max_stream_data_len sid m.
Proof.
  intros V1 V2. unfold call_wire. cbn [call_layout fst snd concat].
  rewrite zlen_cons, app_nil_r, zlen_app, !varint_wire_zlen by done. unfold max_stream_data_len. lia.
Qed.

Lemma stream_sweep_frames force m : forall used,
  Forall (fun e => is_varint e.1 /\ stream_ok e.2) m ->
  let '(_, fs, _) := stream_sweep force used m in
  Forall call_ok (credit_calls fs) /\ used + zlen (wires (credit_calls fs)) <= Z.max used (PACKET_BODY_BUDGET + 17).
Proof.
  assert (forall n, n + zlen (wires (credit_calls [])) <= Z.max n (PACKET_BODY_BUDGET + 17)) as H0
    by (intros n; change (zlen (wires (credit_calls []))) with 0; lia).
  induction m as [|[sid rs] m IH]; intros used Hm; cbn [stream_sweep]; [by split; [apply Forall_nil_2|]|].
  apply Forall_cons in Hm as [[V Hrs] Hm]. cbn [fst snd] in V, Hrs.
  destruct (PACKET_BODY_BUDGET <? used) eqn:Eu; bool_to_prop; [by split; [apply Forall_nil_2|]|].
  pose proof (IH used Hm) as IH0. destruct (stream_sweep force used m) as [[m0 fs0] d0].
  destruct (rs_is_closed rs); [done|]. set (th := sat_sub _ _ <=? _). destruct (th || force); [|done].
  set (rs' := if th then _ else rs). assert (stream_ok rs') as Hrs'.
  { unfold rs'. destruct th eqn:Eth; [|done]. unfold th in Eth. bool_to_prop. by apply slide_ok. }
  assert (is_varint (rs_recv_max rs')) as V'.
  { destruct Hrs' as [S1 S2 S3 S4 _ _]. unfold taken in S1. pose proof (zlen_nonneg (rs_buffer rs')). split; lia. }
  pose proof (max_stream_data_zlen _ _ V V') as El.
  pose proof (call_wire_max (CallMaxStreamData sid (rs_recv_max rs')) (conj V V') I) as Em. cbn [call_max] in Em.
  pose proof (call_wire_pos (CallMaxStreamData sid (rs_recv_max rs'))) as Ep.
  specialize (IH (used + max_stream_data_len sid (rs_recv_max rs')) Hm).
  destruct (stream_sweep force (used + _) m) as [[m1 fs1] d1]. destruct IH as [I1 I2]. split; [by apply Forall_cons_2|].
  change (wires (credit_calls (MaxStreamData sid (rs_recv_max rs') :: fs1)))
    with (call_wire (CallMaxStreamData sid (rs_recv_max rs')) ++ wires (credit_calls fs1)).
  rewrite zlen_app. lia.
Qed.

Lemma grant_max_stream_data_ok others used c :
  FlowInv others c -> ids_ok c ->
  grants others (Z.max used (PACKET_BODY_BUDGET + 17) - used) (grant_max_stream_data used) c.
Proof.
  intros HF HI. pose proof (grant_max_stream_data_inv others used c HF) as HF'. pose proof HF as [_ Fs _ _ _ _ _ _ _ _].
  pose proof HI as [I1 I2 I3 I4 I5].
  assert (Forall (fun e => is_varint e.1 /\ stream_ok e.2) (c_recv_streams c)) as Hall by (by apply Forall_and).
  pose proof (stream_sweep_frames (c_force_max_stream_data c) _ used Hall) as Hsf.
  pose proof (stream_sweep_ok (c_force_max_stream_data c) (c_recv_streams c) used Fs) as Hso.
  unfold grants, rx_ok. split; [split; [done|]|];
    unfold grant_max_stream_data, sbind, gets, swhen, sret, modify, exec, eval;
    destruct (stream_sweep _ used _) as [[m' fs] dn]; destruct Hso as (K & _ & _ & _).
  - assert (Forall (fun e => is_varint e.1) m') as Hm'.
    { assert (Forall is_varint (map fst m')) as H by (by rewrite K, Forall_map). by rewrite Forall_map in H. }
    destruct dn; (split; [by split|done]).
  - destruct Hsf as [S1 S2]. destruct dn; cbn [fst snd]; (split; [done|lia]).
Qed.

(* ------------------------------------------------------------------ *)
(** ** The stages before the STREAM frames *)

(** The fields only the STREAM stage may change. *)
Definition tx_same (q : Quic) :=
  (q_data_sent q, q_peer_max_data q, q_peer_cid q, q_keys q, q_fc_applied q, q_tls_params q, (q_init_bidi q, q_init_uni q)).

Definition tls_left (q : Quic) : Z := zlen (level_get LevelOneRtt (q_tls_tx q)).

(** A packet under construction from [q0] with the frames [cs], header included in
    the bound [b]. *)
Record pre (others hdr : Z) (q0 : Quic) (b : Z) (cs : list Call) (e : Enc) : Prop := {
  pr_body : e_body e = wires cs;
  pr_calls : Forall call_ok cs;
  pr_elicit : e_eliciting e = existsb eliciting_call cs;
  pr_stream : stream_calls cs = [];
  pr_size : hdr + zlen (e_body e) <= b;
  pr_rx : rx_ok others (q_conn q0) (q_conn (e_quic e));
  pr_tx : tx_ok (e_quic e);
  pr_same : tx_same (e_quic e) = tx_same q0;
  pr_send : exists r t, q_send (e_quic e) =
    q_send q0 |> set_pending_resets r |> set_pending_stops t |> set_pending_ctrl (ctrl_calls cs);
  pr_ctrl : owed_ctrl (q_send (e_quic e)) ≡ₚ owed_ctrl (q_send q0);
  pr_tls : tls_left (e_quic e) <= tls_left q0;
}.

Section Stages.
Context (others hdr : Z) (q0 : Quic).

Definition stage (b b' : Z) (m : St Enc bool) : Prop :=
  forall cs e, pre others hdr q0 b cs e -> eval m e = true /\ exists cs', pre others hdr q0 b' cs' (exec m e).

Lemma stage_seq b1 b2 b3 m k : stage b1 b2 m -> stage b2 b3 k -> stage b1 b3 (enc_seq m k).
Proof.
  intros Hm Hk cs e He. destruct (Hm cs e He) as [E (cs1 & H1)]. unfold enc_seq. rewrite eval_bind, exec_bind, E.
  by apply (Hk cs1).
Qed.

Lemma stage_ret b : stage b b (sret true).
Proof. intros cs e He. split; [done|by exists cs]. Qed.

Lemma pre_weaken b b' cs e : b <= b' -> pre others hdr q0 b cs e -> pre others hdr q0 b' cs e.
Proof. intros Hb [H1 H2 H3 H4 H5 H6 H7 H8 H9 H10 H11]. split; try done. lia. Qed.

(** A frame that is neither STREAM nor re-queued control, with what it changes. *)
Lemma pre_emit b b' cs e c q' :
  pre others hdr q0 b cs e -> call_ok c -> stream_calls [c] = [] -> ctrl_calls [c] = [] ->
  hdr + zlen (e_body e) + zlen (call_wire c) <= b' ->
  q_send q' = q_send (e_quic e) -> rx_ok others (q_conn q0) (q_conn q') -> tx_ok q' -> tx_same q' = tx_same (e_quic e) ->
  tls_left q' <= tls_left (e_quic e) ->
  pre others hdr q0 b' (cs ++ [c]) (mkEnc q' (e_body e ++ call_wire c) (e_eliciting e || eliciting_call c)).
Proof.
  intros [H1 H2 H3 H4 H5 H6 H7 H8 H9 H10 H11] Hc Es Ec Hb Eq Hr Ht Em El. split; cbn [e_body e_quic e_eliciting]; try done.
  - by rewrite wires_app, H1, wires_one.
  - apply Forall_app. split; [done|]. by apply Forall_singleton.
  - rewrite existsb_app, H3. cbn [existsb]. by rewrite orb_false_r.
  - unfold stream_calls in *. by rewrite omap_app, H4, Es.
  - rewrite zlen_app. lia.
  - by rewrite Em.
  - destruct H9 as (r & t & E9). exists r, t. rewrite Eq, E9. f_equal. unfold ctrl_calls in *. by rewrite omap_app, Ec, app_nil_r.
  - by rewrite Eq.
  - lia.
Qed.

(** A stage that only changes the connection's bookkeeping. *)
Lemma pre_quiet b cs e q' :
  pre others hdr q0 b cs e ->
  q_send q' = q_send (e_quic e) -> rx_ok others (q_conn q0) (q_conn q') -> tx_ok q' -> tx_same q' = tx_same (e_quic e) ->
  tls_left q' <= tls_left (e_quic e) ->
  pre others hdr q0 b cs (mkEnc q' (e_body e) (e_eliciting e)).
Proof.
  intros [H1 H2 H3 H4 H5 H6 H7 H8 H9 H10 H11] Eq Hr Ht Em El.
  split; cbn [e_body e_quic e_eliciting]; rewrite ?Eq, ?Em; try done. lia.
Qed.

Lemma rx_ok_view c : rx_ok others (q_conn q0) c -> forall c', flow_view c' = flow_view c -> ids_view c' = ids_view c ->
  tx_view c' = tx_view c -> rx_ok others (q_conn q0) c'.
Proof.
  intros (H1 & H2 & H3) c' E1 E2 E3. split; [by eapply FlowInv_view|]. split; [by eapply ids_ok_view|congruence].
Qed.

End Stages.

Lemma append_ack_frame_app fr sp : append_ack_frame fr sp = fr ++ append_ack_frame [] sp.
Proof.
  unfold append_ack_frame. destruct (ack_ranges_from _) as [[[l f] a]|]; [|by rewrite app_nil_r].
  destruct (write_ack _ _ _ _ _); [by rewrite app_nil_r|done].
Qed.

Lemma ack_frame_emitted sp :
  recv_ok (MAX_VARINT + 1) sp ->
  append_ack_frame [] sp = [] \/
  exists c, append_ack_frame [] sp = call_wire c /\ call_ok c /\ zlen (call_wire c) <= 161 /\ exists l d f a, c = CallAck l d f a.
Proof.
  intros [Hr _]. destruct (recv_ranges sp) as [|e rest] eqn:E.
  { left. unfold append_ack_frame. by rewrite E. }
  right. rewrite <-E in Hr. destruct (append_ack_frame_wire sp Hr) as (l & f & a & H1 & H2 & H3 & _); [by rewrite E|].
  exists (CallAck l 0 f a). split; [done|]. split; [done|]. split; [|by eexists _, _, _, _].
  assert (zlen a <= 8) as Ha.
  { rewrite E in H1, Hr. destruct e as [lo hi]. assert (a = ack_additional MAX_ACK_ADDITIONAL lo rest) as -> by (by injection H1).
    destruct Hr as (G1 & G2 & G3). pose proof (ack_additional_ok MAX_ACK_ADDITIONAL lo rest G3 ltac:(lia)) as [_ Hn].
    unfold zlen. lia. }
  unfold call_wire. cbn [call_layout fst snd concat call_ok] in *. destruct H2 as (C1 & C2 & C3 & C4 & C5).
  rewrite zlen_cons, app_nil_r, !zlen_app.
  pose proof (varint_wire_len _ C1). pose proof (varint_wire_len _ C2). pose proof (varint_wire_len _ C3).
  pose proof (varint_wire_len _ C5). pose proof (pairs_wire_zlen _ C4). lia.
Qed.

Lemma set_pending_resets_id s : set_pending_resets (s_pending_reset_streams s) s = s.
Proof. by destruct s. Qed.
Lemma set_pending_stops_id s r :
  set_pending_stops (s_pending_stop_sending s) (set_pending_resets r s) = set_pending_resets r s.
Proof. by destruct s. Qed.

Section Frames.
Context (others hdr : Z) (q0 : Quic).
Abbreviation pre := (pre others hdr q0).
Abbreviation stage := (stage others hdr q0).

Lemma stage_ack b now :
  recv_ok (MAX_VARINT + 1) (space_at LevelOneRtt (q_send q0)) -> stage b (b + 161) (enc_ack now).
Proof.
  intros Hr cs e He. pose proof He as [_ _ _ _ P5 P6 P7 P8 (r & t & P9) P10 P11].
  unfold enc_ack, eval, exec, sbind, gets, modify, sret, at_quic, on_conn. cbv beta iota zeta.
  destruct (_ && _); cbn [fst snd]; (split; [done|]); [|exists cs; eapply pre_weaken; [|exact He]; lia].
  rewrite append_ack_frame_app. cbn [e_quic e_body e_eliciting].
  set (q' := set_conn _ (e_quic e)).
  assert (rx_ok others (q_conn q0) (q_conn q')) as Rx by (by eapply rx_ok_view).
  assert (tx_ok q') as Tx by (by destruct P7; split).
  assert (recv_ok (MAX_VARINT + 1) (space_at LevelOneRtt (q_send (e_quic e)))) as Hr' by (by rewrite P9).
  destruct (ack_frame_emitted _ Hr') as [->|(c & -> & C1 & C2 & l & d & f & a & ->)].
  - rewrite app_nil_r. exists cs. eapply pre_weaken; [|by apply pre_quiet]. lia.
  - exists (cs ++ [CallAck l d f a]). rewrite <-(orb_false_r (e_eliciting e)). eapply (pre_emit others hdr q0 b); try done. lia.
Qed.

Lemma stage_done b : stage b (b + 1) enc_done.
Proof.
  intros cs e He. pose proof He as [_ _ _ _ P5 P6 P7 P8 P9 P10 P11].
  unfold enc_done, enc_seq, emit, elicits, eval, exec, sbind, gets, modify, sret, at_quic. cbv beta iota zeta.
  destruct (q_done_sent (e_quic e)); cbn [fst snd]; (split; [done|]); [exists cs; eapply pre_weaken; [|exact He]; lia|].
  exists (cs ++ [CallHandshakeDone]). cbn [e_quic e_body]. rewrite <-(orb_true_r (e_eliciting e)).
  eapply (pre_emit others hdr q0 b _ cs e CallHandshakeDone); try done; [|by destruct P7; split].
  change (zlen (call_wire CallHandshakeDone)) with 1. lia.
Qed.

Lemma stage_path b : stage b (b + 9) enc_path_response.
Proof.
  intros cs e He. pose proof He as [_ _ _ _ P5 P6 P7 P8 P9 P10 P11]. pose proof P7 as [T1 T2 T3 T4 T5 T6 T7 T8].
  unfold enc_path_response, elicits, eval, exec, sbind, gets, modify, sret, at_quic. cbv beta iota zeta.
  destruct (q_path_response (e_quic e)) as [data|] eqn:Ep; cbn [fst snd]; (split; [done|]);
    [|exists cs; eapply pre_weaken; [|exact He]; lia].
  assert (call_wire (CallPathResponse data) = [ftype.PATH_RESPONSE] ++ data) as Ew
    by (unfold call_wire; cbn [call_layout fst snd concat app]; by rewrite app_nil_r).
  exists (cs ++ [CallPathResponse data]). cbn [e_quic e_body]. unfold append_path_response_into.
  rewrite <-Ew, <-(orb_true_r (e_eliciting e)).
  eapply (pre_emit others hdr q0 b _ cs e (CallPathResponse data)); try done.
  rewrite Ew, zlen_app, T7. change (zlen [ftype.PATH_RESPONSE]) with 1. lia.
Qed.

(** A control frame leaves its queue for the packet. *)
Lemma pre_ctrl b b' cs e c k r' t' :
  pre b cs e -> call_ok c -> stream_calls [c] = [] -> ctrl_calls [c] = [k] -> eliciting_call c = true ->
  hdr + zlen (e_body e) + zlen (call_wire c) <= b' ->
  let s' := q_send (e_quic e) |> set_pending_resets r' |> set_pending_stops t'
              |> set_pending_ctrl (s_pending_ctrl_frames (q_send (e_quic e)) ++ [k]) in
  queued_ctrl (q_send (e_quic e)) ≡ₚ k :: queued_ctrl s' ->
  pre b' (cs ++ [c]) (mkEnc (set_send s' (e_quic e)) (e_body e ++ call_wire c) true).
Proof.
  intros [H1 H2 H3 H4 H5 H6 H7 H8 (r & t & H9) H10 H11] Hc Es Ec El Hb s' Hq. split; cbn [e_body e_quic e_eliciting]; try done.
  - by rewrite wires_app, H1, wires_one.
  - apply Forall_app. split; [done|]. by apply Forall_singleton.
  - rewrite existsb_app. cbn [existsb]. by rewrite El, orb_true_r.
  - unfold stream_calls in *. by rewrite omap_app, H4, Es.
  - rewrite zlen_app. lia.
  - by destruct H7; split.
  - exists r', t'. cbn [set_send q_send]. unfold s'. rewrite H9. unfold ctrl_calls in *. by rewrite omap_app, Ec.
  - rewrite <-H10. cbn [set_send q_send]. unfold owed_ctrl. rewrite Hq.
    change (s_pending_ctrl_frames s') with (s_pending_ctrl_frames (q_send (e_quic e)) ++ [k]).
    change (all_inflight s') with (all_inflight (q_send (e_quic e))). solve_Permutation.
Qed.

Lemma queued_ok b cs e :
  Forall ctrl_ok (owed_ctrl (q_send q0)) -> pre b cs e ->
  Forall (fun x => is_varint x.1.1 /\ is_varint x.1.2 /\ is_varint x.2) (s_pending_reset_streams (q_send (e_quic e))) /\
  Forall (fun x => is_varint x.1 /\ is_varint x.2) (s_pending_stop_sending (q_send (e_quic e))).
Proof. intros Hc [_ _ _ _ _ _ _ _ _ H10 _]. rewrite <-H10 in Hc. by apply owed_ctrl_forall in Hc as (_ & H1 & H2 & _). Qed.

Lemma stage_stops l : Forall ctrl_ok (owed_ctrl (q_send q0)) -> forall b cs e,
  pre b cs e -> s_pending_stop_sending (q_send (e_quic e)) = l ->
  eval (enc_stops hdr l) e = true /\ exists cs', pre (Z.max b (PACKET_BODY_BUDGET + 17)) cs' (exec (enc_stops hdr l) e).
Proof.
  intros Hc. induction l as [|[sid code] l IH]; intros b cs e He El; cbn [enc_stops].
  { split; [done|]. exists cs. eapply pre_weaken; [|exact He]. lia. }
  destruct (queued_ok b cs e Hc He) as [_ Hs]. rewrite El in Hs. apply Forall_cons in Hs as [[V1 V2] _]. cbn [fst snd] in V1, V2.
  rewrite eval_bind, exec_bind, !eval_gets, !exec_gets. destruct (_ <? _) eqn:Eb; bool_to_prop.
  2:{ split; [done|]. exists cs. eapply pre_weaken; [|exact He]. lia. }
  pose proof (call_wire_max (CallStopSending sid code) (conj V1 V2) I) as Hm. cbn [call_max] in Hm.
  unfold enc_seq, put, at_sender. rewrite (run_call_fits (CallStopSending sid code) 24) by (first [done | lia]).
  unfold emit, elicits, at_quic, on_send, eval, exec, sbind, modify, sret. cbv beta iota zeta. cbn [fst snd].
  pose proof (pre_ctrl b (Z.max b (PACKET_BODY_BUDGET + 17)) cs e (CallStopSending sid code) (CtrlStop sid code)
                (s_pending_reset_streams (q_send (e_quic e))) l He (conj V1 V2) eq_refl eq_refl eq_refl ltac:(lia)) as Hn.
  cbv zeta in Hn. rewrite set_pending_resets_id in Hn.
  destruct (IH (Z.max b (PACKET_BODY_BUDGET + 17)) (cs ++ [CallStopSending sid code])
    (mkEnc (set_send (q_send (e_quic e) |> set_pending_stops l
              |> set_pending_ctrl (s_pending_ctrl_frames (q_send (e_quic e)) ++ [CtrlStop sid code])) (e_quic e))
       (e_body e ++ call_wire (CallStopSending sid code)) true)) as [I1 (cs' & I2)]; [|done|].
  { apply Hn. unfold queued_ctrl. rewrite El. cbn [set_pending_stops set_pending_ctrl s_pending_reset_streams
      s_pending_stop_sending map fst snd]. by rewrite <-Permutation_middle. }
  replace (Z.max (Z.max b _) _) with (Z.max b (PACKET_BODY_BUDGET + 17)) in I2 by lia.
  split; [exact I1|by exists cs'].
Qed.

Lemma stage_resets l : Forall ctrl_ok (owed_ctrl (q_send q0)) -> forall b cs e,
  pre b cs e -> s_pending_reset_streams (q_send (e_quic e)) = l ->
  eval (enc_resets hdr l) e = true /\ exists cs', pre (Z.max b (PACKET_BODY_BUDGET + 25)) cs' (exec (enc_resets hdr l) e).
Proof.
  intros Hc. induction l as [|[[sid code] final] l IH]; intros b cs e He El; cbn [enc_resets].
  { split; [done|]. exists cs. eapply pre_weaken; [|exact He]. lia. }
  destruct (queued_ok b cs e Hc He) as [Hs _]. rewrite El in Hs. apply Forall_cons in Hs as [V _]. cbn [fst snd] in V.
  rewrite eval_bind, exec_bind, !eval_gets, !exec_gets. destruct (_ <? _) eqn:Eb; bool_to_prop.
  2:{ split; [done|]. exists cs. eapply pre_weaken; [|exact He]. lia. }
  pose proof (call_wire_max (CallResetStream sid code final) V I) as Hm. cbn [call_max] in Hm.
  unfold enc_seq, put, at_sender. rewrite (run_call_fits (CallResetStream sid code final) 32) by (first [done | lia]).
  unfold emit, elicits, at_quic, on_send, eval, exec, sbind, modify, sret. cbv beta iota zeta. cbn [fst snd].
  pose proof (pre_ctrl b (Z.max b (PACKET_BODY_BUDGET + 25)) cs e (CallResetStream sid code final) (CtrlReset sid code final)
                l (s_pending_stop_sending (q_send (e_quic e))) He V eq_refl eq_refl eq_refl ltac:(lia)) as Hn.
  cbv zeta in Hn. rewrite set_pending_stops_id in Hn.
  destruct (IH (Z.max b (PACKET_BODY_BUDGET + 25)) (cs ++ [CallResetStream sid code final])
    (mkEnc (set_send (q_send (e_quic e) |> set_pending_resets l
              |> set_pending_ctrl (s_pending_ctrl_frames (q_send (e_quic e)) ++ [CtrlReset sid code final])) (e_quic e))
       (e_body e ++ call_wire (CallResetStream sid code final)) true)) as [I1 (cs' & I2)]; [|done|].
  { apply Hn. unfold queued_ctrl. rewrite El. done. }
  replace (Z.max (Z.max b _) _) with (Z.max b (PACKET_BODY_BUDGET + 25)) in I2 by lia.
  split; [exact I1|by exists cs'].
Qed.

Lemma credit_caps f : call_ok (credit_call f).2 -> zlen (call_wire (credit_call f).2) <= (credit_call f).1 /\
  stream_calls [(credit_call f).2] = [] /\ ctrl_calls [(credit_call f).2] = [] /\ eliciting_call (credit_call f).2 = true.
Proof.
  destruct f as [m|m|m|sid m]; intros Hc; (split; [|done]); pose proof (call_wire_max _ Hc I) as Hm;
    cbn [credit_call fst snd call_max] in *; lia.
Qed.

Lemma stage_put_credit fs : forall b cs e,
  pre b cs e -> Forall call_ok (credit_calls fs) ->
  eval (put_credit fs) e = true /\
  exists cs', pre (hdr + zlen (e_body e) + zlen (wires (credit_calls fs))) cs' (exec (put_credit fs) e) /\
    e_quic (exec (put_credit fs) e) = e_quic e.
Proof.
  induction fs as [|f fs IH]; intros b cs e He Hf; cbn [put_credit].
  { split; [done|]. exists cs. split; [|done]. change (zlen (wires (credit_calls []))) with 0.
    destruct He as [H1 H2 H3 H4 H5 H6 H7 H8 H9 H10 H11]. split; try done. cbn. lia. }
  cbn [credit_calls map] in Hf. apply Forall_cons in Hf as [Hc Hf]. destruct (credit_caps f Hc) as (K1 & K2 & K3 & K4).
  pose proof He as [_ _ _ _ P5 P6 P7 P8 P9 P10 P11].
  pose proof (pre_emit others hdr q0 b (hdr + zlen (e_body e) + zlen (call_wire (credit_call f).2)) cs e (credit_call f).2 (e_quic e)
    He Hc K2 K3 ltac:(lia) eq_refl P6 P7 eq_refl ltac:(lia)) as Hn. rewrite K4, orb_true_r in Hn.
  destruct (IH _ _ _ Hn Hf) as [I1 (cs' & I2 & I3)]. cbn [e_body e_quic] in I2, I3.
  unfold enc_seq, put. rewrite (run_call_fits _ _ Hc K1).
  unfold emit, elicits, sbind, modify, sret, eval, exec in *. cbv beta iota zeta. cbn [fst snd e_quic e_body] in *.
  split; [exact I1|]. exists cs'. split; [|exact I3]. eapply pre_weaken; [|exact I2].
  change (wires (credit_calls (f :: fs))) with (call_wire (credit_call f).2 ++ wires (credit_calls fs)).
  rewrite !zlen_app. lia.
Qed.

(** A grant of the receive side, written out. *)
Lemma stage_grant m n b cs e :
  pre b cs e -> grants others n m (q_conn (e_quic e)) ->
  eval (enc_grant m) e = true /\ exists cs', pre (hdr + zlen (e_body e) + n) cs' (exec (enc_grant m) e).
Proof.
  intros He ((G1 & G2 & G3) & G4 & G5). pose proof He as [_ _ _ _ _ (R1 & R2 & R3) P7 P8 P9 P10 P11].
  assert (pre b cs (mkEnc (set_conn (exec m (q_conn (e_quic e))) (e_quic e)) (e_body e) (e_eliciting e))) as Hq.
  { apply pre_quiet; try done; [|by destruct P7; split]. split; [done|]. split; [done|]. cbn [set_conn q_conn]. congruence. }
  destruct (stage_put_credit (eval m (q_conn (e_quic e))) b cs _ Hq G4) as [I1 (cs' & I2 & _)].
  assert (enc_grant m e = put_credit (eval m (q_conn (e_quic e)))
    (mkEnc (set_conn (exec m (q_conn (e_quic e))) (e_quic e)) (e_body e) (e_eliciting e))) as E.
  { unfold enc_grant, sbind, at_quic, on_conn. by rewrite (run_eta m (q_conn (e_quic e))). }
  unfold eval at 1, exec at 1. rewrite E. split; [exact I1|]. exists cs'. eapply pre_weaken; [|exact I2]. cbn [e_body]. lia.
Qed.

Lemma stage_credit b : PACKET_BODY_BUDGET <= b -> stage b (b + 27) (enc_credit hdr).
Proof.
  intros Hb. apply (stage_seq _ _ _ b (b + 18)); [|apply (stage_seq _ _ _ (b + 18) (b + 27))]; intros cs e He;
    pose proof He as [_ _ _ _ P5 (R1 & R2 & R3) _ _ _ _ _].
  - destruct (stage_grant _ _ b cs e He (grant_max_streams_ok _ _ R1 R2)) as [H1 (cs' & H2)]. split; [done|]. exists cs'.
    eapply pre_weaken; [|exact H2]. lia.
  - destruct (stage_grant _ _ _ cs e He (grant_max_data_ok _ _ R1 R2)) as [H1 (cs' & H2)]. split; [done|]. exists cs'.
    eapply pre_weaken; [|exact H2]. lia.
  - rewrite eval_bind, exec_bind, !eval_gets, !exec_gets.
    destruct (stage_grant _ _ _ cs e He (grant_max_stream_data_ok _ (hdr + zlen (e_body e)) _ R1 R2)) as [H1 (cs' & H2)].
    split; [done|]. exists cs'. eapply pre_weaken; [|exact H2]. lia.
Qed.

Lemma stage_crypto b n :
  tls_left q0 <= n -> 0 <= n -> stage b (b + 11 + Z.min 1024 n) enc_crypto.
Proof.
  intros Hn Hn0 cs e He. pose proof He as [_ _ _ _ P5 P6 P7 P8 P9 P10 P11].
  pose proof P7 as [T1 T2 T3 T4 T5 T6 T7 [T8 T9]].
  unfold tls_left in P11 at 1. unfold enc_crypto. rewrite eval_bind, exec_bind, !eval_gets, !exec_gets. unfold has_pending_one_rtt_crypto.
  destruct (level_get LevelOneRtt (q_tls_tx (e_quic e))) as [|x buf] eqn:Et.
  { split; [done|]. exists cs. eapply pre_weaken; [|exact He]. lia. }
  set (tx := x :: buf) in *. set (data := ztake 1024 tx). set (off := level_get LevelOneRtt (q_crypto_offset (e_quic e))) in *.
  assert (zlen data = Z.min 1024 (zlen tx)) as Hd by (unfold data; by rewrite zlen_ztake).
  pose proof (zlen_nonneg tx) as Htx.
  assert (call_ok (CallCrypto off data)) as Hc by (split; split; lia).
  pose proof (call_wire_max (CallCrypto off data) Hc ltac:(cbv beta iota; lia)) as Hm. cbn [call_max] in Hm.
  unfold pop_handshake. unfold enc_seq, put, at_quic, sbind, eval, exec, modify, sret, elicits. cbv beta iota zeta.
  rewrite Et. fold tx. fold data. rewrite (run_call_fits _ _ Hc) by lia.
  unfold emit, modify, sbind, sret. cbv beta iota zeta. cbn [fst snd e_quic e_body e_eliciting]. split; [done|].
  exists (cs ++ [CallCrypto off data]). rewrite <-(orb_true_r (e_eliciting e)).
  eapply (pre_emit others hdr q0 b _ cs e (CallCrypto off data)); try done; [lia| |].
  - split; try done. cbn. change (at_onertt (q_crypto_offset (e_quic e))) with off. rewrite zlen_zdrop by lia. lia.
  - unfold tls_left. rewrite Et. cbn [set_crypto_offset set_tls_tx q_tls_tx]. change (zlen (zdrop 1024 tx) <= zlen tx).
    rewrite zlen_zdrop by lia. lia.
Qed.

(** Running the stages one after the other. *)
Lemma seq_then (Q : bool * Enc -> Prop) b b' m k :
  stage b b' m -> (forall cs e, pre b' cs e -> Q (k e)) -> forall cs e, pre b cs e -> Q (enc_seq m k e).
Proof.
  intros Hm Hk cs e He. destruct (Hm cs e He) as [E (cs1 & H1)]. unfold enc_seq, sbind.
  rewrite (run_eta m e), E. by apply (Hk cs1).
Qed.

Lemma stage_stops_all b :
  Forall ctrl_ok (owed_ctrl (q_send q0)) ->
  stage b (Z.max b (PACKET_BODY_BUDGET + 17)) (q <- gets e_quic;; enc_stops hdr (s_pending_stop_sending (q_send q))).
Proof. intros Hc cs e He. rewrite eval_bind, exec_bind, !eval_gets, !exec_gets. by apply (stage_stops _ Hc b cs). Qed.

Lemma stage_resets_all b :
  Forall ctrl_ok (owed_ctrl (q_send q0)) ->
  stage b (Z.max b (PACKET_BODY_BUDGET + 25)) (q <- gets e_quic;; enc_resets hdr (s_pending_reset_streams (q_send q))).
Proof. intros Hc cs e He. rewrite eval_bind, exec_bind, !eval_gets, !exec_gets. by apply (stage_resets _ Hc b cs). Qed.

Lemma frames_then (Q : bool * Enc -> Prop) now n :
  sender_ok (q_send q0) -> tls_left q0 <= n -> 0 <= n -> 0 <= hdr <= 900 ->
  (forall cs e, pre (1163 + Z.min 1024 n) cs e -> Q (enc_stream now e)) ->
  forall e, pre hdr [] e -> Q (enc_frames now hdr e).
Proof.
  intros [_ _ _ Hc Hr] Hn Hn0 Hh Hk e He. unfold enc_frames.
  eapply (seq_then Q hdr (hdr + 161)); [by apply stage_ack| |exact He]. clear e He. intros cs e He.
  eapply (seq_then Q (hdr + 161) (hdr + 161 + 1)); [by apply stage_done| |exact He]. clear cs e He. intros cs e He.
  eapply (seq_then Q _ (hdr + 161 + 1 + 9)); [by apply stage_path| |exact He]. clear cs e He. intros cs e He.
  eapply (seq_then Q); [by apply stage_stops_all| |exact He]. clear cs e He. intros cs e He.
  eapply (seq_then Q); [by apply stage_resets_all| |exact He]. clear cs e He. intros cs e He.
  apply (pre_weaken others hdr q0 _ 1125) in He; [|lia].
  eapply (seq_then Q 1125); [apply stage_credit; lia| |exact He]. clear cs e He. intros cs e He.
  eapply (seq_then Q); [by apply (stage_crypto _ n)| |exact He]. clear cs e He. intros cs e He.
  apply (Hk cs). eapply pre_weaken; [|exact He]. lia.
Qed.

End Frames.

(** The empty packet. *)
Lemma pre_start others hdr q : quic_ok others q -> pre others hdr q hdr [] (mkEnc q [] false).
Proof.
  intros [[C1 C2 _ _ _] [_ S2 _ _ _] T]. split; try done.
  - cbn [e_body]. rewrite zlen_nil. lia.
  - exists (s_pending_reset_streams (q_send q)), (s_pending_stop_sending (q_send q)). unfold staged in S2.
    injection S2 as _ _ E. destruct q as [? []]. cbn in *. by rewrite E.
Qed.

(* ------------------------------------------------------------------ *)
(** ** Retransmission *)

Definition part (f : StreamRetx) : Call := CallStreamParts (sr_sid f) (sr_offset f) (sr_fin f) (sr_data f).
Definition parts (l : list StreamRetx) : list Call := map part l.

Lemma part_ok f : retx_ok f -> call_ok (part f) /\ zlen (call_wire (part f)) <= 19 + zlen (sr_data f).
Proof.
  intros (V1 & V2 & Hl). pose proof (zlen_nonneg (sr_data f)).
  assert (call_ok (part f)) as Hc.
  { split; [done|]. split; [done|]. split; [done|]. change MAX_VARINT with 4611686018427387903. lia. }
  split; [done|]. apply (call_wire_max (part f) Hc). cbn. lia.
Qed.

Lemma parts_calls l :
  stream_calls (parts l) = l /\ ctrl_calls (parts l) = [] /\
  existsb eliciting_call (parts l) = match l with [] => false | _ => true end.
Proof.
  induction l as [|[sid o fin d] l (I1 & I2 & I3)]; [done|]. unfold stream_calls, ctrl_calls, parts in *. cbn. by rewrite I1, I2.
Qed.

Definition nonempty {A} (l : list A) : bool := match l with [] => false | _ => true end.

Lemma parts_elicit l : existsb eliciting_call (parts l) = nonempty l.
Proof. apply parts_calls. Qed.
Lemma parts_ok l : Forall retx_ok l -> Forall call_ok (parts l).
Proof. intros H. apply Forall_map. eapply Forall_impl; [exact H|]. intros x Hx. by apply part_ok. Qed.

Lemma nonempty_app {A} (a b : list A) : nonempty (a ++ b) = nonempty a || nonempty b.
Proof. by destruct a. Qed.

Lemma set_retx_id s : set_retx (s_retx_queue s) (s_retx_bytes s) s = s.
Proof. by destruct s. Qed.
Lemma set_send_id q : set_send (q_send q) q = q.
Proof. by destruct q. Qed.

(** From the front of the queue, as much as the packet and the window allow. *)
Definition retx_done (in_flight : Z) (queue : list StreamRetx) (wb : Z) (frames : list StreamRetx) (e : Enc)
    (r : option (Z * list StreamRetx) * Enc) : Prop :=
  exists taken rest wb',
    queue = taken ++ rest /\
    r = (Some (wb', frames ++ taken),
         mkEnc (set_send (set_retx rest (retx_sum rest) (q_send (e_quic e))) (e_quic e))
           (e_body e ++ wires (parts taken)) (e_eliciting e || nonempty taken)) /\
    0 <= wb' <= wb /\ wb' <= Z.max 0 (wb - retx_sum taken) /\
    (retx_sum taken <= wb \/ (in_flight = 0 /\ frames = [] /\ exists f more, taken = f :: more /\ retx_sum more = 0)) /\
    zlen (e_body e ++ wires (parts taken)) <= Z.max (zlen (e_body e)) 1103.

Lemma retx_stop in_flight queue wb frames e :
  s_retx_queue (q_send (e_quic e)) = queue -> s_retx_bytes (q_send (e_quic e)) = retx_sum queue -> 0 <= wb ->
  retx_done in_flight queue wb frames e (Some (wb, frames), e).
Proof.
  intros Eq Eb Hw. exists [], queue, wb. change (wires (parts [])) with (@nil Z). change (retx_sum []) with 0.
  rewrite <-Eb, <-Eq, set_retx_id, set_send_id, !app_nil_r, orb_false_r.
  split; [done|]. split; [by destruct e|]. split_and!; [lia..|left; lia|lia].
Qed.

Lemma enc_retx_spec in_flight queue : forall wb frames e,
  Forall retx_ok queue -> s_retx_queue (q_send (e_quic e)) = queue -> s_retx_bytes (q_send (e_quic e)) = retx_sum queue ->
  retx_sum queue <= U32_MAX -> 0 <= wb -> retx_done in_flight queue wb frames e (enc_retx in_flight queue wb frames e).
Proof.
  induction queue as [|front queue IH]; intros wb frames e Hq Eq Eb Hw Hwb; cbn [enc_retx]; [by apply retx_stop|].
  pose proof (retx_sum_nonneg queue) as Hqs. pose proof (zlen_nonneg (sr_data front)) as Hfl.
  assert (retx_sum (front :: queue) = zlen (sr_data front) + retx_sum queue) as Es by done.
  unfold sbind at 1, gets. cbv beta iota zeta. destruct (_ || _) eqn:Eroom; [by apply retx_stop|].
  destruct (_ && negb _) eqn:Ewin; [by apply retx_stop|].
  assert (zlen (sr_data front) <= wb \/ (in_flight = 0 /\ frames = [])) as Hwin.
  { apply andb_false_iff in Ewin as [Ewin|Ewin]; [left; by apply Z.ltb_ge in Ewin|right].
    apply negb_false_iff, andb_true_iff in Ewin as [E1%Z.eqb_eq E2]. by destruct frames. }
  clear Ewin. apply orb_false_elim in Eroom as [Er1 Er2]. bool_to_prop. unfold sat_sub in Er1, Er2.
  apply Forall_cons in Hq as [Hf Hq]. destruct (part_ok front Hf) as [Hc Hl].
  set (e1 := mkEnc (set_send (set_retx queue (retx_sum queue) (q_send (e_quic e))) (e_quic e))
               (e_body e ++ call_wire (part front)) true).
  destruct (IH (sat_sub wb (zlen (sr_data front))) (frames ++ [front]) e1 Hq eq_refl eq_refl ltac:(lia) ltac:(unfold sat_sub; lia))
    as (taken & rest & wb' & I1 & I2 & I3 & I4 & I5 & I6).
  exists (front :: taken), rest, wb'. unfold at_sender, at_quic, on_send, put. rewrite run_call_parts by done.
  unfold emit, elicits, sbind, modify, sret. cbv beta iota zeta. cbn [e_quic e_body e_eliciting].
  assert (sat_sub (s_retx_bytes (q_send (e_quic e))) (w32 (zlen (sr_data front))) = retx_sum queue) as ->.
  { rewrite Eb, w32_small by (unfold is_u32; lia). unfold sat_sub. lia. }
  change (call_wire (CallStreamParts _ _ _ _)) with (call_wire (part front)). fold e1. rewrite I2.
  assert (wires (parts (front :: taken)) = call_wire (part front) ++ wires (parts taken)) as Ew by done.
  assert (retx_sum (front :: taken) = zlen (sr_data front) + retx_sum taken) as Et by done.
  pose proof (retx_sum_nonneg taken) as Htn. cbn [e1 e_body e_quic e_eliciting] in I6. unfold sat_sub in *.
  split; [by rewrite I1|]. split; [|split; [lia|split; [lia|split]]].
  - cbn [e1 e_body e_quic e_eliciting nonempty orb]. rewrite Ew, <-!app_assoc, orb_true_r. done.
  - destruct I5 as [I5|(_ & I5 & _)]; [|by destruct frames].
    destruct Hwin as [|[H1 H2]]; [left; lia|]. destruct (Z_le_gt_dec (zlen (sr_data front)) wb); [left; lia|right].
    split; [done|]. split; [done|]. exists front, taken. split; [done|lia].
  - rewrite Ew, app_assoc. pose proof (zlen_app (e_body e) (call_wire (part front))). lia.
Qed.

(* ------------------------------------------------------------------ *)
(** ** Fresh data *)

(** A frame cut from a stream starts where the stream stood and moves it on. *)
Lemma pop_chunk_frame A w fs s now n :
  live A w fs s -> zlen A <= U64_MAX -> life A w fs -> 0 <= n ->
  match pop_chunk now n s with
  | (None, _, s') => s' = s
  | (Some (o, d, fin), _, s') =>
      o = ss_send_offset s /\ zlen d <= n /\ ss_send_offset s' = ss_send_offset s + zlen d /\
      ss_peer_max_stream_data s' = ss_peer_max_stream_data s
  end.
Proof.
  intros [HI _] HA [[x Hp] _ _] Hn. unfold pop_chunk. pose proof (si_head _ _ _ HI) as Hh.
  assert (zlen w <= U64_MAX) as Hw by (rewrite Hp, zlen_app in HA; pose proof (zlen_nonneg x); lia).
  destruct (_ || _); [done|]. destruct (ss_outbound s) as [|h rest] eqn:Eo.
  - pose proof (enter_fin_sent_fields now s) as (_ & _ & E3 & _).
    assert (ss_peer_max_stream_data (enter_fin_sent now s).2 = ss_peer_max_stream_data s) as E5
      by (unfold enter_fin_sent; by case_match).
    destruct (enter_fin_sent now s) as [lat s']. cbn [snd] in *. rewrite zlen_nil. split_and!; [done|lia|lia|done].
  - pose proof Hh as [_ Hc]. rewrite Eo in Hc. pose proof (si_sent _ _ _ HI) as Hs. pose proof (si_offset _ _ _ HI) as Hof.
    destruct (cut_spec w fs s h rest 0) as (Hpl & _); [done..|lia|].
    unfold head_remaining_len. rewrite Eo, w64_small by (unfold is_u64; lia).
    set (k := Z.min (zlen h - ss_head_consumed s) n).
    destruct (cut_spec w fs s h rest k) as (_ & Hv & _ & _ & Hs1 & _ & _); [done..|lia|].
    rewrite iobuf_narrow_slice, Hv by lia. cbn zeta. change (set_ss_send_offset _ _) with (cut k s).
    assert (zlen (ztake k (ss_pending s)) = k) as Ek by (rewrite zlen_ztake; lia).
    assert (ss_peer_max_stream_data (cut k s) = ss_peer_max_stream_data s) as Em
      by (unfold cut, advance_head; cbn [set_ss_queue ss_outbound ss_head_consumed]; by repeat case_match).
    set (s1 := cut k s) in *. clearbody s1. destruct (_ && outbound_is_empty s1).
    + pose proof (enter_fin_sent_fields now s1) as (_ & _ & E3 & _).
      assert (ss_peer_max_stream_data (enter_fin_sent now s1).2 = ss_peer_max_stream_data s1) as E5
        by (unfold enter_fin_sent; by case_match).
      destruct (enter_fin_sent now s1) as [lat s']. cbn [snd] in *. split_and!; [done|lia|lia|congruence].
    + split_and!; [done|lia|lia|done].
Qed.

(** From [f] to [f'] the frames [fresh] went in. *)
Record filled (fresh : list StreamRetx) (f f' : Fill) : Prop := {
  fl_frames : f_frames f' = f_frames f ++ fresh;
  fl_body : f_body f' = f_body f ++ wires (parts fresh);
  fl_elicit : f_eliciting f' = f_eliciting f || nonempty fresh;
  fl_delta : f_delta f' = f_delta f + retx_sum fresh;
  fl_cc : f_cc f' = f_cc f - retx_sum fresh;
  fl_fc : f_fc f' = f_fc f - retx_sum fresh;
  fl_pos : 0 <= f_cc f' /\ 0 <= f_fc f';
  fl_size : zlen (f_body f') <= Z.max (zlen (f_body f)) (PACKET_BODY_BUDGET + 18);
}.

Lemma filled_nil f : 0 <= f_cc f -> 0 <= f_fc f -> filled [] f f.
Proof.
  intros H1 H2. change (retx_sum []) with 0. split; rewrite ?app_nil_r, ?orb_false_r; change (retx_sum []) with 0; try done; lia.
Qed.

Lemma filled_trans a b f1 f2 f3 : filled a f1 f2 -> filled b f2 f3 -> filled (a ++ b) f1 f3.
Proof.
  intros [A1 A2 A3 A4 A5 A6 A7 A8] [B1 B2 B3 B4 B5 B6 B7 B8].
  split; rewrite ?B1, ?B2, ?B3, ?B4, ?B5, ?B6, ?A1, ?A2, ?A3, ?A4, ?A5, ?A6, ?retx_sum_app, ?nonempty_app; try lia.
  - by rewrite app_assoc.
  - unfold parts. by rewrite map_app, wires_app, app_assoc.
  - by rewrite orb_assoc.
  - rewrite B2, A2 in *. lia.
Qed.

(** What may go into the packet at once. *)
Lemma max_chunk_ok s f mc :
  0 <= f_cc f -> 0 <= f_fc f -> limit_ok s -> max_chunk s f = Some mc ->
  (mc = 0 /\ outbound_is_empty s = true) \/
  (1 <= mc /\ zlen (f_body f) + 16 + mc <= PACKET_BODY_BUDGET /\ mc <= f_cc f /\ mc <= f_fc f /\
   ss_send_offset s + mc <= ss_peer_max_stream_data s).
Proof.
  intros H1 H2 [H3 H4]. unfold max_chunk. destruct (_ && _) eqn:E.
  { intros [= <-]. left. by apply andb_true_iff in E as [_ E]. }
  destruct (_ || _); [done|]. destruct (_ =? 0) eqn:Em; [done|]. intros [= <-]. right. bool_to_prop. unfold sat_sub in *. lia.
Qed.

(** One frame cut from a stream into the packet. *)
Lemma fill_one A w fs now sid s f mc o d fin lat s' :
  is_varint sid -> zlen A <= U64_MAX -> live A w fs s -> life A w fs -> limit_ok s -> 0 <= f_cc f -> 0 <= f_fc f ->
  zlen (f_body f) < PACKET_BODY_BUDGET -> max_chunk s f = Some mc -> pop_chunk now mc s = (Some (o, d, fin), lat, s') ->
  let x := mkStreamRetx sid o fin d in
  retx_ok x /\ limit_ok s' /\ live A w ((o, d, fin) :: fs) s' /\ life A w ((o, d, fin) :: fs) /\
  filled [x] f (mkFill (f_body f ++ call_wire (part x)) true (sat_sub (f_cc f) (zlen d)) (sat_sub (f_fc f) (zlen d))
                  (f_delta f + zlen d) (f_frames f ++ [x])).
Proof.
  intros V HA Hv Hl Hs Hc Hf Hb Em Ep x. pose proof (max_chunk_ok s f mc Hc Hf Hs Em) as Hm.
  assert (0 <= mc) as Hmc by lia.
  pose proof (pop_chunk_frame A w fs s now mc Hv HA Hl Hmc) as Hp. pose proof (live_pop A w fs s now mc Hv Hl HA Hmc) as Hlp.
  rewrite Ep in Hp, Hlp. destruct Hp as (Eo & Hd & Es & Epm). destruct Hlp as [L1 L2]. pose proof (zlen_nonneg d) as Hd0.
  destruct Hs as [[Hs1 Hs2] Hs3].
  pose proof (zlen_nonneg (f_body f)) as Hb0.
  assert (retx_ok x) as Hx.
  { split; [done|]. cbn [x sr_offset sr_data]. split; [subst o; split; lia|lia]. }
  destruct (part_ok x Hx) as [_ Hw]. cbn [x sr_data] in Hw.
  assert (zlen d = 0 -> zlen (call_wire (part x)) <= 18) as Hw'.
  { intros E%zlen_nil_inv. unfold part, call_wire. cbn [x sr_sid sr_offset sr_fin sr_data call_layout fst snd concat]. subst d.
    rewrite zlen_cons, app_nil_r, !zlen_app. change (zlen (varint_wire (zlen []))) with 1. rewrite ?zlen_nil.
    assert (is_varint o) as Vo by (subst o; split; lia). pose proof (varint_wire_len _ V). pose proof (varint_wire_len _ Vo). lia. }
  split; [done|]. split; [unfold limit_ok; rewrite Es, Epm; lia|]. split; [done|]. split; [done|].
  assert (retx_sum [x] = zlen d) as Ex by (cbn; lia).
  split; cbn [f_frames f_body f_eliciting f_delta f_cc f_fc]; rewrite ?Ex, ?orb_true_r; unfold sat_sub; try done; try lia.
  - unfold parts. cbn [map]. by rewrite wires_one.
  - rewrite zlen_app. destruct (Z.eq_dec (zlen d) 0); lia.
Qed.

Lemma fill_stream_spec A w now sid : is_varint sid -> zlen A <= U64_MAX -> forall fuel fs s f,
  live A w fs s -> life A w fs -> limit_ok s -> 0 <= f_cc f -> 0 <= f_fc f ->
  let '(ok, s', f') := fill_stream fuel now sid s f in
  ok = true /\ limit_ok s' /\ exists fs' fresh, fs ⊆ fs' /\ live A w fs' s' /\ life A w fs' /\ filled fresh f f' /\
    Forall (fun x => sr_sid x = sid /\ retx_ok x /\ (sr_offset x, sr_data x, sr_fin x) ∈ fs') fresh.
Proof.
  intros V HA. induction fuel as [|fuel IH]; intros fs s f Hv Hl Hs Hc Hf; cbn [fill_stream].
  { split; [done|]. split; [done|]. exists fs, []. by split_and!; [|..|apply filled_nil|apply Forall_nil_2]. }
  assert (limit_ok s /\ exists fs' fresh, fs ⊆ fs' /\ live A w fs' s /\ life A w fs' /\ filled fresh f f /\
    Forall (fun x => sr_sid x = sid /\ retx_ok x /\ (sr_offset x, sr_data x, sr_fin x) ∈ fs') fresh) as Hstop.
  { split; [done|]. exists fs, []. by split_and!; [|..|apply filled_nil|apply Forall_nil_2]. }
  destruct (_ <=? _) eqn:Eb; [done|]. bool_to_prop. destruct (max_chunk s f) as [mc|] eqn:Em; [|done].
  assert (0 <= mc) as Hmc by (pose proof (max_chunk_ok s f mc Hc Hf Hs Em); lia).
  pose proof (pop_chunk_frame A w fs s now mc Hv HA Hl Hmc) as Hp.
  destruct (pop_chunk now mc s) as [[[[[o d] fin]|] lat] s'] eqn:Ep; [|by subst s'].
  destruct (fill_one A w fs now sid s f mc o d fin lat s' V HA Hv Hl Hs Hc Hf Eb Em Ep) as (X1 & X2 & X3 & X4 & X5).
  rewrite (run_call_parts sid o fin d) by (by apply part_ok in X1 as [? _]).
  pose proof X5 as [_ _ _ _ _ _ [X6 X7] _].
  specialize (IH _ s' _ X3 X4 X2 X6 X7). cbv zeta. change (call_wire (CallStreamParts _ _ _ _)) with (call_wire (part (mkStreamRetx sid o fin d))).
  destruct (fill_stream fuel now sid s' _) as [[ok s2] f2]. destruct IH as (I1 & I2 & fs' & fresh & I3 & I4 & I5 & I6 & I7).
  split; [done|]. split; [done|]. exists fs', (mkStreamRetx sid o fin d :: fresh). split; [set_solver|]. split; [done|]. split; [done|].
  split; [by apply (filled_trans [_] fresh _ _ _ X5 I6)|]. apply Forall_cons_2; [|done]. split; [done|]. split; [done|]. cbn. set_solver.
Qed.

Lemma fill_streams_spec (A w : Z -> list Z) now : (forall sid, zlen (A sid) <= U64_MAX) -> forall m f F,
  keys_sorted m -> Forall (fun e => is_varint e.1 /\ limit_ok e.2) m ->
  (forall sid, life (A sid) (w sid) (F sid)) -> Forall (fun e => live (A e.1) (w e.1) (F e.1) e.2) m ->
  0 <= f_cc f -> 0 <= f_fc f ->
  let '(ok, m', f') := fill_streams now m f in
  ok = true /\ map fst m' = map fst m /\ Forall (fun e => is_varint e.1 /\ limit_ok e.2) m' /\
  exists F' fresh, (forall sid, F sid ⊆ F' sid) /\ (forall sid, sid ∉ map fst m -> F' sid = F sid) /\
    (forall sid, life (A sid) (w sid) (F' sid)) /\ Forall (fun e => live (A e.1) (w e.1) (F' e.1) e.2) m' /\
    filled fresh f f' /\ Forall (fun x => retx_ok x /\ (sr_offset x, sr_data x, sr_fin x) ∈ F' (sr_sid x)) fresh.
Proof.
  intros HA. induction m as [|[sid s] m IH]; intros f F Hs Hm Hlife Hlive Hc Hf; cbn [fill_streams].
  { split; [done|]. split; [done|]. split; [done|]. exists F, []. by split_and!; [..|apply filled_nil|apply Forall_nil_2]. }
  apply Forall_cons in Hm as [[V Hl] Hm]. apply Forall_cons in Hlive as [Hv Hlive]. cbn [fst snd] in *.
  apply keys_sorted_cons in Hs as [Hs Hlt].
  pose proof (fill_stream_spec (A sid) (w sid) now sid V (HA sid) fill_fuel (F sid) s f Hv (Hlife sid) Hl Hc Hf) as H1.
  destruct (fill_stream fill_fuel now sid s f) as [[ok s'] f1]. destruct H1 as (-> & X2 & fs' & fr & X3 & X4 & X5 & X6 & X7).
  pose proof X6 as [_ _ _ _ _ _ [Y1 Y2] _].
  set (F1 := fun k => if k =? sid then fs' else F k).
  assert (forall k, k <> sid -> F1 k = F k) as HF1 by (intros k Hk; unfold F1; by rewrite (proj2 (Z.eqb_neq _ _) Hk)).
  assert (F1 sid = fs') as HF2 by (unfold F1; by rewrite Z.eqb_refl).
  assert (Forall (fun e => e.1 <> sid) m) as Hne by (eapply Forall_impl; [exact Hlt|]; cbn; lia).
  specialize (IH f1 F1 Hs Hm).
  destruct (fill_streams now m f1) as [[ok m'] f2].
  destruct IH as (-> & I2 & I3 & F' & fr2 & I4 & I5 & I6 & I7 & I8 & I9); [| |done|done|].
  - intros k. destruct (decide (k = sid)) as [->|Hk]; [by rewrite HF2|rewrite HF1; auto].
  - rewrite Forall_forall in *. intros e He. rewrite HF1; auto.
  - assert (F' sid = fs') as HF3.
    { rewrite I5; [done|]. intros Hin. apply list_elem_of_fmap in Hin as (e & -> & He). rewrite Forall_forall in Hne. by apply (Hne e). }
    split; [done|]. split; [cbn [map fst]; by rewrite I2|]. split; [by apply Forall_cons_2|].
    exists F', (fr ++ fr2). split; [|split; [|split; [done|split; [|split]]]].
    + intros k. destruct (decide (k = sid)) as [->|Hk]; [by rewrite HF3|]. rewrite <-(HF1 k Hk). apply I4.
    + intros k. cbn [map fst]. rewrite not_elem_of_cons. intros [Hk Hn]. rewrite I5 by done. by apply HF1.
    + apply Forall_cons_2; [cbn [fst snd]; by rewrite HF3|done].
    + by eapply filled_trans.
    + apply Forall_app. split; [|done]. eapply Forall_impl; [exact X7|]. intros x (-> & G1 & G2). by rewrite HF3.
Qed.

Lemma push_varint_grows v w w' : push_varint v w = inr w' -> zlen w <= zlen w'.
Proof.
  unfold push_varint. destruct (write_varint v 8) as [|b]; [done|]. intros [= <-]. rewrite zlen_app. pose proof (zlen_nonneg b). lia.
Qed.

Lemma run_parts_grows sid o fin d bs : run_call (CallStreamParts sid o fin d) 0 = inr bs -> 1 <= zlen bs.
Proof.
  cbn [run_call]. unfold append_stream_header, wr_seq. destruct (push_varint sid _) as [|a] eqn:E1; [done|].
  destruct (push_varint o a) as [|b] eqn:E2; [done|]. destruct (push_varint (zlen d) b) as [|c] eqn:E3; [done|]. intros [= <-].
  apply push_varint_grows in E1, E2, E3. rewrite zlen_app in *. change (zlen [stream_type fin]) with 1 in E1.
  pose proof (zlen_nonneg d). rewrite zlen_nil in E1. lia.
Qed.

(** The fuel of the inner loop is enough: every round adds to the body. *)
Lemma fill_stream_fuel now sid : forall fuel fuel' s f,
  PACKET_BODY_BUDGET - zlen (f_body f) < Z.of_nat fuel -> PACKET_BODY_BUDGET - zlen (f_body f) < Z.of_nat fuel' ->
  fill_stream fuel now sid s f = fill_stream fuel' now sid s f.
Proof.
  induction fuel as [|fuel IH]; intros fuel' s f H1 H2.
  { destruct fuel'; [done|]. cbn [fill_stream]. by rewrite (proj2 (Z.leb_le _ _)) by lia. }
  destruct fuel' as [|fuel']. { cbn [fill_stream]. by rewrite (proj2 (Z.leb_le _ _)) by lia. }
  cbn [fill_stream]. destruct (_ <=? _); [done|]. destruct (max_chunk s f); [|done].
  destruct (pop_chunk now z s) as [[[[[o d] fin]|] lat] s']; [|done].
  destruct (run_call _ 0) as [e|bs] eqn:Er; [done|]. apply run_parts_grows in Er.
  apply IH; cbn [f_body]; rewrite zlen_app; lia.
Qed.

(* ------------------------------------------------------------------ *)
(** ** The STREAM stage *)

Lemma retx_sum_wires l : retx_sum l <= zlen (wires (parts l)).
Proof.
  induction l as [|f l IH]; [done|]. change (wires (parts (f :: l))) with (call_wire (part f) ++ wires (parts l)).
  rewrite zlen_app. unfold retx_sum in *. cbn [foldr]. unfold part, call_wire. cbn [call_layout fst snd concat].
  rewrite zlen_cons, app_nil_r, !zlen_app.
  pose proof (zlen_nonneg (varint_wire (sr_sid f))). pose proof (zlen_nonneg (varint_wire (sr_offset f))).
  pose proof (zlen_nonneg (varint_wire (zlen (sr_data f)))). lia.
Qed.

(** What the peer has told, and the keys: no packet changes them. *)
Definition peer_view (q : Quic) := (q_peer_max_data q, q_peer_cid q, q_fc_applied q, q_tls_params q, q_keys q).

(** The connection after the STREAM stage: the lost frames [taken] are back on the
    wire, the frames [fresh] are new. *)
Record streamed (others : Z) (L : Log) (q0 : Quic) (cs : list Call) (taken fresh rest : list StreamRetx) (e : Enc) : Prop := {
  st_body : e_body e = wires (cs ++ parts (taken ++ fresh));
  st_calls : Forall call_ok (cs ++ parts (taken ++ fresh));
  st_elicit : e_eliciting e = existsb eliciting_call (cs ++ parts (taken ++ fresh));
  st_queue : s_retx_queue (q_send q0) = taken ++ rest;
  st_fresh : Forall retx_ok fresh;
  st_conn : conn_ok others (q_conn (e_quic e));
  st_tx : tx_ok (e_quic e);
  st_sent : q_data_sent (e_quic e) = q_data_sent q0 + retx_sum fresh;
  st_same : peer_view (e_quic e) = peer_view q0;
  st_send : exists r t, q_send (e_quic e) =
    q_send q0 |> set_pending_resets r |> set_pending_stops t |> set_pending_ctrl (ctrl_calls cs)
      |> set_retx rest (retx_sum rest) |> set_pending_stream (taken ++ fresh);
  st_ctrl : owed_ctrl (q_send (e_quic e)) ≡ₚ owed_ctrl (q_send q0);
  st_hist : hist L (c_send_streams (q_conn (e_quic e))) (owed_stream (q_send q0) ++ fresh);
  st_window : let window := Controller.window (s_cc (q_send q0)) in
    let flight := s_bytes_in_flight (q_send q0) in
    (retx_sum taken <= sat_sub window flight \/ (flight = 0 /\ exists f more, taken = f :: more /\ retx_sum more = 0)) /\
    retx_sum fresh <= sat_sub window (flight + retx_sum taken) /\
    retx_sum fresh <= sat_sub window (flight + retx_sum rest);
}.

(** The peer's limits have been taken over, if it has announced any. *)
Definition limits_applied (q : Quic) : Prop := q_fc_applied q = false -> parsed_params q = None.

Lemma set_pending_stream_nil s : s_pending_stream_frames s = [] -> set_pending_stream [] s = s.
Proof. destruct s. cbn. by intros ->. Qed.

(** The last steps: the counter moves, and the frames are staged for the record of the packet. *)
Definition stream_done (frames : list StreamRetx) (delta : Z) (q : Quic) : Quic :=
  set_send (set_pending_stream frames (q_send q)) (set_data_sent (q_data_sent q + delta) q).

Lemma enc_stream_done frames delta e :
  0 <= q_data_sent (e_quic e) -> 0 <= delta -> q_data_sent (e_quic e) + delta <= U64_MAX ->
  s_pending_stream_frames (q_send (e_quic e)) = [] ->
  (at_quic (modify (fun q => set_data_sent (sat_add64 (q_data_sent q) delta) q));;
   match frames with [] => sret true | x :: xs => at_sender (set_pending_stream (x :: xs)) end) e =
  (true, mkEnc (stream_done frames delta (e_quic e)) (e_body e) (e_eliciting e)).
Proof.
  intros H0 Hd Hm Hp. unfold sbind, at_quic, modify. cbn [e_quic]. unfold sat_add64. rewrite Z.min_r by lia.
  destruct frames as [|x xs]; [|done]. unfold sret, stream_done. by rewrite set_pending_stream_nil.
Qed.

Lemma tx_done q frames delta :
  tx_ok q -> limits_applied q -> 0 <= delta <= q_peer_max_data q - q_data_sent q -> tx_ok (stream_done frames delta q).
Proof.
  intros [T1 T2 T3 T4 T5 T6 T7 T8] Hl Hd. split; try done; cbn; [lia|].
  intros E Hp. change (parsed_params q <> None) in Hp. by rewrite (Hl E) in Hp.
Qed.

Lemma story_grows L m m' owed fresh w F F' :
  story L m owed w F -> map fst m' = map fst m -> (forall sid, F sid ⊆ F' sid) ->
  (forall sid, sid ∉ map fst m -> F' sid = F sid) -> (forall sid, life (l_written L sid) (w sid) (F' sid)) ->
  Forall (fun e => live (l_written L e.1) (w e.1) (F' e.1) e.2) m' ->
  Forall (fun x => retx_ok x /\ (sr_offset x, sr_data x, sr_fin x) ∈ F' (sr_sid x)) fresh ->
  story L m' (owed ++ fresh) w F'.
Proof.
  intros [Y1 Y2 Y3 Y4 Y5] Ek HF HF0 Hl Hv Hf. split; [done|done| | |].
  - rewrite Ek. intros sid G. rewrite HF0 by done. by apply Y3.
  - rewrite Forall_app. split; eapply Forall_impl; [exact Y4| |exact Hf|]; [|intros x [_ G]; by left].
    intros x [G|G]; [left; by apply HF|by right].
  - eapply Forall_impl; [exact Y5|]. intros x [G|G]; [left; by apply HF|by right].
Qed.

Lemma conn_table others c m' :
  conn_ok others c -> map fst m' = map fst (c_send_streams c) -> Forall (fun e => is_varint e.1 /\ limit_ok e.2) m' ->
  conn_ok others (set_send_streams m' c).
Proof.
  intros [C1 C2 C3 C4 C5] Ek Hm. split; [done|by destruct C2| |done|done]. unfold keys_sorted in *. cbn [set_send_streams c_send_streams]. by rewrite Ek.
Qed.

Lemma pre_conn others L hdr q0 b cs e : inv others L q0 -> pre others hdr q0 b cs e -> conn_ok others (q_conn (e_quic e)).
Proof.
  intros [[[C1 C2 C3 C4 C5] _ _] _] [_ _ _ _ _ (R1 & R2 & R3) _ _ _ _ _]. unfold tx_view in R3. injection R3 as E1 E2 E3.
  split; [done|done|..]; by rewrite ?E1, ?E2.
Qed.

(** The stages before leave what the STREAM stage starts from. *)
Lemma pre_sender others L hdr q0 b cs e :
  inv others L q0 -> pre others hdr q0 b cs e ->
  s_retx_queue (q_send (e_quic e)) = s_retx_queue (q_send q0) /\
  s_retx_bytes (q_send (e_quic e)) = retx_sum (s_retx_queue (q_send q0)) /\
  s_bytes_in_flight (q_send (e_quic e)) = s_bytes_in_flight (q_send q0) /\
  s_cc (q_send (e_quic e)) = s_cc (q_send q0) /\
  Forall retx_ok (s_retx_queue (q_send q0)) /\ retx_sum (s_retx_queue (q_send q0)) <= U32_MAX.
Proof.
  intros HI [_ _ _ _ _ _ _ _ (r & t & ->) _ _]. pose proof HI as [[_ [[_ Bf Br Bw] _ So _ _] _] _].
  destruct (flight_at_most LevelInitial (q_send q0)) as [? _]; [apply HI|]. rewrite Bf in *.
  unfold owed_stream in So. rewrite !Forall_app in So.
  split; [done|]. split; [done|]. split; [done|]. split; [done|]. split; [apply So|lia].
Qed.

Lemma enc_stream_spec others L hdr q0 b cs e now :
  inv others L q0 -> (forall sid, zlen (l_written L sid) <= U64_MAX) -> limits_applied q0 -> pre others hdr q0 b cs e ->
  exists taken fresh rest e', enc_stream now e = (true, e') /\ streamed others L q0 cs taken fresh rest e' /\
    hdr + zlen (e_body e') <= Z.max b (hdr + PACKET_BODY_BUDGET + 18).
Proof.
  intros HI HA Hap He. pose proof (pre_conn _ _ _ _ _ _ _ HI He) as Hco.
  pose proof HI as [[Hc0 [_ Sg _ _ _] _] (w & F & Hst)]. pose proof Hst as [Y1 Y2 _ _ _].
  pose proof He as [P1 P2 P3 P4 P5 (R1 & R2 & R3) P7 P8 (r & t & P9) P10 P11]. unfold tx_view in R3. injection R3 as Et _ _.
  destruct (pre_sender _ _ _ _ _ _ _ HI He) as (Eq & Eb & Ef & Ec & Hro & Hru).
  set (window := Controller.window (s_cc (q_send q0))). set (flight := s_bytes_in_flight (q_send q0)) in *.
  destruct (enc_retx_spec flight _ (sat_sub window flight) [] e Hro Eq Eb Hru ltac:(unfold sat_sub; lia))
    as (taken & rest & wb' & X1 & X2 & X3 & X4 & X5 & X6). cbn [app] in X2.
  unfold enc_stream, sbind, gets. cbv beta iota zeta. rewrite Ec, Ef, Eq. fold window. fold flight. rewrite X2. cbv beta iota zeta.
  cbn [e_quic e_body e_eliciting]. set (q1 := set_send _ (e_quic e)).
  change (c_send_streams (q_conn q1)) with (c_send_streams (q_conn (e_quic e))). rewrite Et.
  change (s_retx_bytes (q_send q1)) with (retx_sum rest).
  change (q_peer_max_data q1) with (q_peer_max_data (e_quic e)). change (q_data_sent q1) with (q_data_sent (e_quic e)).
  pose proof P8 as P8'. unfold tx_same in P8'. injection P8' as Z1 Z2 Z3 Z4 Z5 Z6 Z7 Z8. rewrite Z1, Z2.
  set (f0 := mkFill _ _ _ _ _ _).
  pose proof Hc0 as [_ _ D3 D4 _].
  pose proof (fill_streams_spec (l_written L) w now HA _ f0 F D3 D4 Y1 Y2) as Hfill.
  destruct (fill_streams now (c_send_streams (q_conn q0)) f0) as [[ok m'] f'].
  destruct Hfill as (-> & G2 & G3 & F' & fresh & G4 & G5 & G6 & G7 & G8 & G9);
    [cbn; unfold sat_sub; lia|cbn; unfold sat_sub; lia|].
  destruct G8 as [L1 L2 L3 L4 L5 L6 L7 L8]. cbn [f0 f_frames f_body f_eliciting f_delta f_cc f_fc] in L1, L2, L3, L4, L5, L6, L8.
  pose proof P7 as [T1 T2 _ _ _ _ _ _]. rewrite Z1 in T1. rewrite Z2 in T1, T2.
  assert (0 <= retx_sum fresh <= q_peer_max_data q0 - q_data_sent q0) as Hfr.
  { pose proof (retx_sum_nonneg fresh). unfold sat_sub in L6. lia. }
  set (q2 := set_conn (set_send_streams m' (q_conn q1)) q1).
  assert (s_pending_stream_frames (q_send q2) = []) as Hp.
  { change (s_pending_stream_frames (q_send (e_quic e)) = []). rewrite P9. by injection Sg. }
  pose proof (enc_stream_done (taken ++ fresh) (retx_sum fresh) (mkEnc q2 (f_body f') (f_eliciting f'))) as Hd.
  cbn [e_quic e_body e_eliciting] in Hd. change (q_data_sent q2) with (q_data_sent (e_quic e)) in Hd. rewrite Z1 in Hd.
  exists taken, fresh, rest. eexists. split.
  { rewrite L1, L4, Z.add_0_l. apply Hd; [lia|lia| |done]. consts. lia. }
  split; [|cbn [e_body]; rewrite L2 in *; lia].
  assert (Forall retx_ok fresh) as Hfo by (eapply Forall_impl; [exact G9|]; cbn; tauto).
  assert (parts (taken ++ fresh) = parts taken ++ parts fresh) as Ep by apply map_app.
  split; cbn [e_quic e_body e_eliciting]; rewrite ?Ep.
  - rewrite L2, !wires_app, P1. by rewrite app_assoc.
  - rewrite !Forall_app. rewrite X1, Forall_app in Hro. destruct Hro. auto using parts_ok.
  - rewrite L3, !existsb_app, !parts_elicit, P3. by rewrite orb_assoc.
  - done.
  - done.
  - apply (conn_table others (q_conn (e_quic e))); [done|by rewrite Et|done].
  - apply tx_done; [by destruct P7; split| |change (0 <= retx_sum fresh <= q_peer_max_data (e_quic e) - q_data_sent (e_quic e)); lia].
    intros H. change (parsed_params (e_quic e) = None). unfold parsed_params. rewrite Z6. apply Hap. by rewrite <- Z5.
  - change (q_data_sent (e_quic e) + retx_sum fresh = q_data_sent q0 + retx_sum fresh). lia.
  - change (peer_view (e_quic e) = peer_view q0). unfold peer_view. congruence.
  - exists r, t. unfold stream_done. cbn [set_send q_send q2 set_conn q1 set_data_sent]. by rewrite P9.
  - done.
  - exists w, F'. by eapply story_grows.
  - fold window flight. unfold sat_sub in *. pose proof (retx_sum_nonneg taken). split; [|lia].
    destruct X5 as [X5|(X5 & _ & X7)]; [by left|by right].
Qed.
