(* ===== verification/QuicPacket.v ===== *)
(** * One 1-RTT packet

    What [encode_one_rtt_packet_padded] builds, what it keeps on record, and the
    state it leaves. *)

From S2P Require Import Prelude.
From S2P Require Import CongestionControl.
From S2P Require Import NetTypes.
From S2P Require Import QuicWire.
From S2P Require Import QuicParams.
From S2P Require Import QuicFrame.
From S2P Require Import QuicStreams.
From S2P Require Import QuicCrypto.
From S2P Require Import QuicSpace.
From S2P Require Import QuicLoss.
From S2P Require Import QuicFlow.
From S2P Require Import QuicFlowInv.
From S2P Require Import QuicConn.
From S2P Require Import QuicConnInv.
From S2P Require Import QuicEncode.
From S2P Require Import QuicEncodeInv.

#[local] Open Scope st_scope.

(* ------------------------------------------------------------------ *)
(** ** Padding *)

Definition paddings (n : Z) : list Call := repeat CallPadding (Z.to_nat n).

Lemma wires_paddings n : wires (paddings n) = repeat 0 (Z.to_nat n).
Proof. unfold paddings. induction (Z.to_nat n) as [|k IH]; [done|]. cbn [repeat]. change (wires (?c :: ?cs)) with (call_wire c ++ wires cs). by rewrite IH. Qed.

Lemma paddings_calls n :
  Forall call_ok (paddings n) /\ stream_calls (paddings n) = [] /\ ctrl_calls (paddings n) = [] /\
  existsb eliciting_call (paddings n) = false.
Proof. unfold paddings. induction (Z.to_nat n) as [|k (I1 & I2 & I3 & I4)]; [done|]. repeat split; [by constructor|done..]. Qed.

Lemma pad_to_wires n cs : exists k, pad_to n (wires cs) = wires (cs ++ paddings k) /\
  zlen (pad_to n (wires cs)) = Z.max n (zlen (wires cs)).
Proof.
  exists (n - zlen (wires cs)). unfold pad_to. rewrite wires_app, wires_paddings. split; [done|].
  pose proof (zlen_nonneg (wires cs)). rewrite zlen_app. unfold zlen at 2. rewrite repeat_length. lia.
Qed.

Lemma paddings_app a b : paddings a ++ paddings b = paddings (Z.max 0 a + Z.max 0 b).
Proof. unfold paddings. rewrite <-repeat_app. f_equal. lia. Qed.

Lemma pad_packet_wires hdr pad cs : exists k, pad_packet hdr pad (wires cs) = wires (cs ++ paddings k) /\
  zlen (pad_packet hdr pad (wires cs)) =
    Z.max (match pad with Some g => g - TAG_LEN - hdr | None => 0 end) (Z.max HP_SAMPLE_LEN (zlen (wires cs))).
Proof.
  destruct (pad_to_wires HP_SAMPLE_LEN cs) as (k & E & El). unfold pad_packet. destruct pad as [g|].
  - rewrite E. destruct (pad_to_wires (g - TAG_LEN - hdr) (cs ++ paddings k)) as (j & E2 & E2l).
    exists (Z.max 0 k + Z.max 0 j). split; [by rewrite E2, <-app_assoc, paddings_app|]. rewrite E2l, <-E, El. lia.
  - exists k. split; [done|]. rewrite El. pose proof (zlen_nonneg (wires cs)). lia.
Qed.

(* ------------------------------------------------------------------ *)
(** ** The sender while the packet is being built *)

Definition building (s0 : Sender) (rest taken fresh : list StreamRetx) (ctrl : list CtrlRetx)
    (r : list (Z * Z * Z)) (t : list (Z * Z)) : Sender :=
  s0 |> set_pending_resets r |> set_pending_stops t |> set_pending_ctrl ctrl
     |> set_retx rest (retx_sum rest) |> set_pending_stream (taken ++ fresh).

Lemma building_ok s0 rest taken fresh ctrl r t (s := building s0 rest taken fresh ctrl r t) :
  sender_ok s0 -> s_retx_queue s0 = taken ++ rest ->
  books s /\ owed_stream s ≡ₚ owed_stream s0 ++ fresh /\ all_inflight s = all_inflight s0 /\
  (forall l, space_at l s = space_at l s0).
Proof.
  intros [[B1 B2 B3 B4] Sg _ _ _] Eq. injection Sg as G1 _ _.
  assert (all_inflight s = all_inflight s0) as Ei by done.
  split; [|split; [|done]].
  - split; [exact B1|exact B2|done|]. change (s_retx_queue s) with rest. rewrite Ei. rewrite Eq, retx_sum_app in B4.
    pose proof (retx_sum_nonneg taken). lia.
  - unfold owed_stream. rewrite Ei, Eq, G1, app_nil_r. change (s_retx_queue s) with rest.
    change (s_pending_stream_frames s) with (taken ++ fresh). solve_Permutation.
Qed.

Lemma side_send now level el n s : all_ranges (exec (send_packet now level el n) s) = all_ranges s.
Proof. unfold send_packet, record_sent_packet, take_pn, exec, sbind, modify. by destruct level, el. Qed.

(* ------------------------------------------------------------------ *)
(** ** The packet *)

(** How long a packet gets without padding. *)
Definition wire_bound (q : Quic) : Z := Z.max (1179 + Z.min 1024 (tls_left q)) (short_header_len q + 1134).
Definition wire_max (pad : option Z) (q : Quic) : Z := Z.max (wire_bound q) (default 0 pad).

(** The packet [pk] carries the frames [cs], and the connection has it on record. *)
Record packet_of (now : Z) (q q' : Quic) (pk : Packet) (cs : list Call) : Prop := {
  po_payload : pk_payload pk = wires cs;
  po_calls : Forall call_ok cs;
  po_pn : pk_pn pk = next_send_pn (space_at LevelOneRtt (q_send q));
  po_next : next_send_pn (space_at LevelOneRtt (q_send q')) = pk_pn pk + 1;
  po_new : btree_get (pk_pn pk) (inflight LevelOneRtt (q_send q)) = None;
  po_wire : pk_wire pk = short_header_len q + zlen (pk_payload pk) + TAG_LEN;
  po_record : let el := existsb eliciting_call cs in
    inflight LevelOneRtt (q_send q') =
    btree_insert (pk_pn pk) (mkSentPacket now el el (pk_wire pk) (stream_calls cs) [] (ctrl_calls cs))
      (inflight LevelOneRtt (q_send q));
}.

(** STREAM data goes out within the congestion window: what is sent again ([taken])
    fits the room left, but for one frame onto an empty wire; new data ([fresh])
    fits the room left after it, and behind what still waits to be sent again
    ([rest]). *)
Definition in_window (q : Quic) (taken rest fresh : list StreamRetx) : Prop :=
  let flight := s_bytes_in_flight (q_send q) in
  let window := Controller.window (s_cc (q_send q)) in
  (retx_sum taken = 0 \/ flight + retx_sum taken <= window \/
   (flight = 0 /\ exists f more, taken = f :: more /\ retx_sum more = 0)) /\
  (retx_sum fresh = 0 \/
   (flight + retx_sum taken + retx_sum fresh <= window /\ flight + retx_sum rest + retx_sum fresh <= window)).

Lemma streamed_window others L q cs taken fresh rest e :
  streamed others L q cs taken fresh rest e -> in_window q taken rest fresh.
Proof.
  intros [_ _ _ _ _ _ _ _ _ _ _ _ H]. cbv zeta in H. unfold in_window. cbv zeta.
  pose proof (retx_sum_nonneg taken). pose proof (retx_sum_nonneg fresh). unfold sat_sub in H.
  destruct H as ([H|H] & G1 & G2); (split; [|lia]); [|by do 2 right]. lia.
Qed.

Lemma stream_calls_app a b : stream_calls (a ++ b) = stream_calls a ++ stream_calls b.
Proof. apply omap_app. Qed.
Lemma ctrl_calls_app a b : ctrl_calls (a ++ b) = ctrl_calls a ++ ctrl_calls b.
Proof. apply omap_app. Qed.

Lemma wires_empty cs : zlen (wires cs) = 0 -> cs = [].
Proof.
  destruct cs as [|c cs]; [done|]. change (wires (c :: cs)) with (call_wire c ++ wires cs). rewrite zlen_app.
  pose proof (call_wire_pos c). pose proof (zlen_nonneg (wires cs)). lia.
Qed.

Lemma record_packet now el n payload wire q :
  (pn <- on_send (take_pn LevelOneRtt);;
   on_send (record_sent_packet now LevelOneRtt pn el n);;
   sret (inr (Some (mkPacket pn payload wire)) : unit + option Packet)) q =
  (inr (Some (mkPacket (next_send_pn (space_at LevelOneRtt (q_send q))) payload wire)),
   set_send (exec (send_packet now LevelOneRtt el n) (q_send q)) q).
Proof. reflexivity. Qed.

(** The STREAM frames of a payload, as the peer reads them. *)
Definition heard (payload : list Z) : list StreamRetx :=
  omap (fun f => match f with Stream sid o d fin => Some (mkStreamRetx sid o fin d) | _ => None end) (payload_frames payload).1.

Lemma heard_wires cs : Forall call_ok cs -> heard (wires cs) = stream_calls cs.
Proof.
  intros H. unfold heard, wires. rewrite payload_frames_calls by done. cbn [fst]. clear H.
  induction cs as [|c cs IH]; [done|]. unfold stream_calls in *. cbn [map omap list_omap]. rewrite IH. by destruct c.
Qed.

Definition log_sent (fs : list StreamRetx) (L : Log) : Log := mkLog (l_written L) (l_past L) (fs ++ l_sent L).

Lemma log_sent_nil L : log_sent [] L = L.
Proof. by destruct L. Qed.

Lemma hist_sent L m owed fs : fs ⊆ owed -> hist L m owed -> hist (log_sent fs L) m owed.
Proof.
  intros Hs (w & F & [H1 H2 H3 H4 H5]). exists w, F. split; [done|done|done|exact H4|]. cbn [log_sent l_sent]. change (told (log_sent fs L) F) with (told L F). apply Forall_app. split; [|done].
  rewrite Forall_forall in *. auto.
Qed.

Section Encode.
Context (others : Z) (L : Log) (q : Quic).
Context (HI : inv others L q).
Context (HA : forall sid, zlen (l_written L sid) <= U64_MAX).
Context (Hap : limits_applied q).
Context (Hcid : zlen (q_peer_cid q) <= 20).

Lemma frames_spec now : exists cs taken fresh rest e',
  enc_frames now (short_header_len q) (mkEnc q [] false) = (true, e') /\ stream_calls cs = [] /\
  streamed others L q cs taken fresh rest e' /\
  short_header_len q + zlen (e_body e') + TAG_LEN <= wire_bound q.
Proof using HI HA Hap Hcid.
  pose proof (zlen_nonneg (q_peer_cid q)). pose proof (zlen_nonneg (level_get LevelOneRtt (q_tls_tx q))) as Ht.
  set (hdr := short_header_len q). assert (0 <= hdr <= 900) as Hh by (unfold hdr, short_header_len; lia).
  assert (exists cs taken fresh rest, (enc_frames now hdr (mkEnc q [] false)).1 = true /\ stream_calls cs = [] /\
    streamed others L q cs taken fresh rest (enc_frames now hdr (mkEnc q [] false)).2 /\
    hdr + zlen (e_body (enc_frames now hdr (mkEnc q [] false)).2) + TAG_LEN <= wire_bound q) as H1.
  { apply (frames_then others hdr q (fun r => exists cs taken fresh rest, r.1 = true /\ stream_calls cs = [] /\
      streamed others L q cs taken fresh rest r.2 /\ hdr + zlen (e_body r.2) + TAG_LEN <= wire_bound q) now (tls_left q));
      [apply HI|done|done|done| |apply pre_start, HI].
    intros cs e He. destruct (enc_stream_spec _ _ _ _ _ _ _ now HI HA Hap He) as (taken & fresh & rest & e' & -> & Hs & Hb).
    exists cs, taken, fresh, rest. split; [done|]. split; [apply He|]. split; [done|]. unfold wire_bound. fold hdr. cbn [snd]. lia. }
  destruct H1 as (cs & taken & fresh & rest & E & H2). exists cs, taken, fresh, rest, (enc_frames now hdr (mkEnc q [] false)).2.
  split; [|done]. by rewrite <-E, <-surjective_pairing.
Qed.

(** The frames are on record, whether a packet was built from them or there was none. *)
Lemma inv_built q1 s2 cs taken fresh rest e :
  streamed others L q cs taken fresh rest e -> q1 = set_send s2 (e_quic e) ->
  books s2 -> staged s2 = ([], [], []) -> settles [] (q_send (e_quic e)) s2 ->
  all_ranges s2 = all_ranges (q_send (e_quic e)) -> inv others (log_sent (taken ++ fresh) L) q1.
Proof using HI.
  intros Hs -> Hb Hg He Hr. pose proof HI as [[_ Hs0 _] _]. pose proof Hs0 as [_ _ S3 S4 S5].
  destruct Hs as [_ _ _ Q1 Q2 Q3 Q4 _ _ (r & t & Q5) Q6 Q7 _]. destruct (building_ok _ _ _ fresh (ctrl_calls cs) r t Hs0 Q1) as (_ & Ho & _ & Hsp).
  unfold building in Ho, Hsp. rewrite <-Q5 in Ho, Hsp.
  assert (Forall retx_ok (owed_stream (q_send (e_quic e)))) as F1 by (rewrite Ho, Forall_app; done).
  assert (Forall ctrl_ok (owed_ctrl (q_send (e_quic e)))) as F2 by (by rewrite Q6).
  destruct (settles_ok _ _ _ He F1 F2) as [G1 G2]. split; [split; [done| |by destruct Q4; split]|].
  - split; [done|done|done|done|]. apply (recv_ok_ranges (q_send (e_quic e))); [done|]. intros l. rewrite Hsp. apply S5.
  - eapply hist_shed; [|apply hist_sent; [|exact Q7]].
    + intros x Hx. rewrite <-Ho. by eapply settles_subset.
    + unfold owed_stream. rewrite Q1. clear. set_solver.
Qed.

(** The outcome of the encoder: the packet [r], with the new frames [fresh] in it. *)
Definition encoded (now : Z) (pad : option Z) (r : option Packet) (fresh : list StreamRetx) (q' : Quic) : Prop :=
  inv others (log_sent (match r with Some pk => heard (pk_payload pk) | None => [] end) L) q' /\
  q_data_sent q' = q_data_sent q + retx_sum fresh /\ peer_view q' = peer_view q /\
  s_bytes_in_flight (q_send q') + s_retx_bytes (q_send q') <=
    s_bytes_in_flight (q_send q) + s_retx_bytes (q_send q) + wire_max pad q /\
  match r with
  | None => fresh = [] /\ all_inflight (q_send q') = all_inflight (q_send q) /\
      (forall l, space_at l (q_send q') = space_at l (q_send q))
  | Some pk => exists cs taken rest, packet_of now q q' pk cs /\ pk_wire pk <= wire_max pad q /\
      stream_calls cs = taken ++ fresh /\ s_retx_queue (q_send q) = taken ++ rest /\ in_window q taken rest fresh
  end.

Lemma wire_max_pos pad : 0 <= wire_max pad q.
Proof using.
  pose proof (zlen_nonneg (q_peer_cid q)). unfold wire_max, wire_bound, short_header_len. lia.
Qed.

Lemma flight_nonneg : 0 <= s_bytes_in_flight (q_send q).
Proof using HI. destruct (flight_at_most LevelInitial (q_send q)) as [? _]; [apply HI|]. lia. Qed.

Lemma built_none now pad cs taken fresh rest e :
  streamed others L q cs taken fresh rest e -> zlen (e_body e) = 0 -> encoded now pad None [] (e_quic e).
Proof using HI.
  intros Hs Ez. pose proof Hs as [Q1 _ _ Q4 _ _ _ Q8 Q9 (r & t & Q11) _ _ _]. pose proof HI as [[_ Hs0 _] _].
  destruct (building_ok _ _ _ fresh (ctrl_calls cs) r t Hs0 Q4) as (B1 & _ & B3 & B4).
  unfold building in B1, B3, B4. rewrite <-Q11 in B1, B3, B4. pose proof Hs0 as [[_ _ Br _] Sg _ _ _].
  rewrite Q1 in Ez. apply wires_empty in Ez. apply app_eq_nil in Ez as [-> Ep].
  assert (taken ++ fresh = []) as [-> ->]%app_eq_nil by (by destruct (taken ++ fresh)).
  split; [|split; [done|split; [done|split; [|done]]]].
  - apply (inv_built (e_quic e) (q_send (e_quic e)) [] [] [] rest e Hs); [by rewrite set_send_id|done| |apply settles_refl|done].
    unfold staged. rewrite Q11. injection Sg as _ G2 _. cbn. by rewrite G2.
  - rewrite Q11. cbn [set_pending_stream set_retx set_pending_ctrl set_pending_stops set_pending_resets s_bytes_in_flight s_retx_bytes].
    rewrite Br, Q4. pose proof (wire_max_pos pad). cbn [app]. lia.
Qed.

(** The frames of the finished packet. *)
Lemma padded_calls cs fs k (all := (cs ++ parts fs) ++ paddings k) :
  stream_calls cs = [] -> Forall call_ok (cs ++ parts fs) ->
  stream_calls all = fs /\ ctrl_calls all = ctrl_calls cs /\
  existsb eliciting_call all = existsb eliciting_call (cs ++ parts fs) /\ Forall call_ok all.
Proof using.
  intros Hcs Ho. destruct (paddings_calls k) as (K1 & K2 & K3 & K4). destruct (parts_calls fs) as (J1 & J2 & _). unfold all.
  rewrite !stream_calls_app, !ctrl_calls_app, existsb_app, K2, K3, K4, Forall_app, J1, J2, Hcs.
  by rewrite !app_nil_r, orb_false_r.
Qed.

Lemma built_packet now pad cs taken fresh rest e
    (all := cs ++ parts (taken ++ fresh)) (hdr := short_header_len q) (payload := pad_packet hdr pad (wires all))
    (wire := hdr + zlen payload + TAG_LEN) (el := existsb eliciting_call all)
    (pk := mkPacket (next_send_pn (space_at LevelOneRtt (q_send (e_quic e)))) payload wire) :
  streamed others L q cs taken fresh rest e -> stream_calls cs = [] -> hdr + zlen (wires all) + TAG_LEN <= wire_bound q ->
  s_bytes_in_flight (q_send q) + s_retx_bytes (q_send q) + wire_max pad q <= U32_MAX ->
  w32 wire = wire /\
  encoded now pad (Some pk) fresh (set_send (exec (send_packet now LevelOneRtt el wire) (q_send (e_quic e))) (e_quic e)).
Proof using HI Hcid.
  intros Hs Hcs Hw Hroom. pose proof (streamed_window _ _ _ _ _ _ _ _ Hs) as Hwin.
  pose proof Hs as [_ Q2 _ Q4 _ _ _ Q8 Q9 (r & t & Q11) _ _ _]. pose proof HI as [[_ Hs0 _] _].
  destruct (building_ok _ _ _ fresh (ctrl_calls cs) r t Hs0 Q4) as (B1 & _ & B3 & B4).
  unfold building in B1, B3, B4. rewrite <-Q11 in B1, B3, B4.
  destruct (pad_packet_wires hdr pad all) as (k & Epk & Elen).
  pose proof (zlen_nonneg (q_peer_cid q)). pose proof (zlen_nonneg (wires all)).
  assert (0 <= wire <= wire_max pad q /\ zlen (wires all) <= wire) as [Hwr Hwl].
  { unfold wire, payload. rewrite Elen. unfold wire_max, wire_bound, hdr, short_header_len, default, from_option, id in *. destruct pad; lia. }
  pose proof Hs0 as [[_ Bf Br _] Sg _ _ _]. pose proof flight_nonneg as Hf0. pose proof (retx_sum_nonneg rest).
  assert (retx_sum rest <= s_retx_bytes (q_send q)) as Hr0.
  { rewrite Br, Q4, retx_sum_app. pose proof (retx_sum_nonneg taken). lia. }
  split; [apply w32_small; unfold is_u32; change U32_MAX with 4294967295 in *; lia|].
  destruct (send_packet_ok now LevelOneRtt el wire (q_send (e_quic e)) B1) as (P1 & P2 & _); [lia| | |].
  { replace (s_pending_stream_frames (q_send (e_quic e))) with (taken ++ fresh) by (by rewrite Q11).
    pose proof (retx_sum_wires (taken ++ fresh)). unfold all in Hwl. rewrite wires_app, zlen_app in Hwl.
    pose proof (zlen_nonneg (wires cs)). unfold el, all. rewrite existsb_app, parts_elicit.
    destruct (taken ++ fresh); [by destruct (existsb _ cs); cbn; lia|]. rewrite orb_true_r. lia. }
  { rewrite B3. replace (s_retx_queue (q_send (e_quic e))) with rest by (by rewrite Q11). destruct el; lia. }
  destruct (send_packet_inflight now LevelOneRtt el wire (q_send (e_quic e)) B1) as (_ & _ & I3 & I4 & _ & I6).
  destruct (send_packet_fields now LevelOneRtt el wire (q_send (e_quic e))) as (_ & F2 & _ & F4 & F5 & F6 & _ & _ & F9).
  unfold inflight in I3, I4. rewrite B4 in I3, I4, I6. fold (inflight LevelOneRtt (q_send q)) in I3, I4.
  destruct (padded_calls cs (taken ++ fresh) k Hcs Q2) as (E1 & E2 & E3 & E4). fold all in E1, E2, E3, E4.
  split; [|split; [done|split; [done|split]]].
  - cbn [pk pk_payload]. unfold payload. rewrite Epk, heard_wires, E1 by done.
    eapply inv_built; [exact Hs|reflexivity|exact P1| |exact P2|apply side_send]. unfold staged. by rewrite F4, F5, F6.
  - cbn [set_send q_send]. rewrite F2, F9. replace (s_retx_bytes (q_send (e_quic e))) with (retx_sum rest) by (by rewrite Q11).
    replace (s_bytes_in_flight (q_send (e_quic e))) with (s_bytes_in_flight (q_send q)) by (by rewrite Q11).
    unfold sat_add32. destruct el; lia.
  - exists (all ++ paddings k), taken, rest. rewrite E1. split; [|split; [cbn; lia|done]].
    split; cbn [pk pk_pn pk_payload pk_wire]; try done; [by rewrite B4|by rewrite B4..|].
    rewrite E1, E2, E3. cbv zeta. cbn [set_send q_send]. unfold inflight at 1. rewrite I3, B4. f_equal.
    unfold new_packet. rewrite Q11. injection Sg as _ G2 _. cbn. by rewrite G2.
Qed.

Lemma encode_spec now pad :
  s_bytes_in_flight (q_send q) + s_retx_bytes (q_send q) + wire_max pad q <= U32_MAX ->
  exists r fresh q', encode_one_rtt_packet now pad q = (inr r, q') /\ encoded now pad r fresh q'.
Proof using HI HA Hap Hcid.
  intros Hroom. unfold encode_one_rtt_packet. unfold sbind at 1, gets at 1. cbv beta iota.
  destruct (level_get LevelOneRtt (q_keys q)) eqn:Ek; cbn [negb].
  2: { exists None, [], q. split; [done|]. split; [by rewrite log_sent_nil|]. change (retx_sum []) with 0.
       pose proof (wire_max_pos pad). split; [lia|]. split; [done|]. split; [lia|done]. }
  destruct (frames_spec now) as (cs & taken & fresh & rest & e & -> & Hcs & Hs & Hw). cbv beta iota zeta. cbn [negb].
  pose proof Hs as [Q1 _ Q3 _ _ _ _ _ _ _ _ _ _].
  destruct (zlen (e_body e) =? 0) eqn:Ez; bool_to_prop.
  - exists None, [], (e_quic e). split; [done|]. by eapply built_none.
  - unfold sbind at 1, modify at 1. cbv beta iota. rewrite record_packet, Q3. rewrite Q1. rewrite Q1 in Hw.
    destruct (built_packet now pad cs taken fresh rest e Hs Hcs Hw Hroom) as [-> H]. by do 3 eexists.
Qed.
End Encode.
