(* ===== verification/QuicTrace.v ===== *)
(** * A QUIC connection over its life

    The operations of the frame layer and of the 1-RTT encoder in any order, from
    a new connection on: what the application calls, what packets of any content
    bring, what TLS hands over, losses, probes and the packets sent. *)

From S2P Require Import Prelude.
From S2P Require Import CongestionControl.
From S2P Require Import NetTypes.
From S2P Require Import QuicWire.
From S2P Require Import QuicParams.
From S2P Require Import QuicFrame.
From S2P Require Import QuicStreams.
From S2P Require Import QuicCrypto.
From S2P Require Import QuicSpace.
From S2P Require Import QuicLoss.
From S2P Require Import QuicFlow.
From S2P Require Import QuicFlowInv.
From S2P Require Import QuicFlowProps.
From S2P Require Import QuicConn.
From S2P Require Import QuicConnInv.
From S2P Require Import QuicEncode.
From S2P Require Import QuicEncodeInv.
From S2P Require Import QuicPacket.

#[local] Open Scope st_scope.

(* ------------------------------------------------------------------ *)
(** ** Finished streams leave *)

Definition reap_candidates (c : Conn) : list Z :=
  take 32 (map fst (filter (fun e => finished c e) (c_send_streams c))).

(** What the streams [sids] accepted goes to the past. *)
Definition bury (sids : list Z) (L : Log) : Log :=
  mkLog (fun k => if existsb (Z.eqb k) sids then [] else l_written L k)
    (map (fun sid => (sid, l_written L sid)) sids ++ l_past L) (l_sent L).

Lemma btree_remove_keys {V} k (m : list (Z * V)) x : x ∈ map fst m -> x <> k -> x ∈ map fst (btree_remove k m).
Proof.
  induction m as [|[k' v] m IH]; cbn [btree_remove map fst]; [set_solver|].
  destruct (k =? k') eqn:E; bool_to_prop; cbn [map fst]; set_solver.
Qed.

Lemma ids_reap_one sid : keeps ids_ok (reap_one sid).
Proof.
  unfold reap_one. apply kept_bind; [|intros _; apply kept_bind; [|intros _; apply ids_mark]].
  - apply ids_keeps. intros c. rewrite exec_modify. by case_match.
  - apply kept_modify. intros c [H1 H2 H3 H4 H5]. case_match; [|done]. split; try done. by apply btree_remove_forall.
Qed.

Lemma reap_one_table sid c (c' := exec (reap_one sid) c) :
  c_send_streams c' = btree_remove sid (c_send_streams c) /\
  (c_send_pool c' = c_send_pool c \/ c_send_pool c' = send_default :: c_send_pool c).
Proof.
  unfold c', reap_one. rewrite !exec_bind, !exec_modify. 
  set (c1 := match btree_get sid (c_send_streams c) with Some s => _ | None => c end).
  assert (c_send_streams c1 = btree_remove sid (c_send_streams c) /\
    (c_send_pool c1 = c_send_pool c \/ c_send_pool c1 = send_default :: c_send_pool c)) as [E1 E2].
  { unfold c1. destruct (btree_get sid (c_send_streams c)) eqn:E.
    - split; [done|]. cbn. case_match; auto.
    - split; [|by left]. clear -E. induction (c_send_streams c) as [|[k v] m IH]; [done|]. cbn in *. case_match; [done|]. f_equal. auto. }
  unfold mark_reaped. rewrite exec_modify. cbv zeta. case_match; cbn; auto.
Qed.

Lemma reap_one_conn others sid c : conn_ok others c -> conn_ok others (exec (reap_one sid) c).
Proof.
  intros [C1 C2 C3 C4 C5]. destruct (reap_one_table sid c) as [E1 E2]. split.
  - by apply reap_one_inv.
  - by apply ids_reap_one.
  - rewrite E1. by apply btree_remove_sorted.
  - rewrite E1. by apply btree_remove_forall.
  - destruct E2 as [->| ->]; [done|by constructor].
Qed.

Lemma existsb_eqb k l : existsb (Z.eqb k) l = true <-> k ∈ l.
Proof.
  rewrite existsb_exists. setoid_rewrite list_elem_of_In. split.
  - by intros (x & Hx & ->%Z.eqb_eq).
  - intros H. exists k. split; [done|]. apply Z.eqb_refl.
Qed.

(** The streams [sids] leave the table; their frames fit what they accepted. *)
Lemma hist_bury sids L m m' owed :
  hist L m owed -> m' ⊆ m -> (forall e, e ∈ m' -> e.1 ∉ sids) -> (forall k, k ∈ map fst m -> k ∉ sids -> k ∈ map fst m') ->
  hist (bury sids L) m' owed.
Proof.
  intros (w & F & [H1 H2 H3 H4 H5]) Hsub Hout Hin.
  set (G := fun (k : Z) (A : Type) (x y : list A) => if existsb (Z.eqb k) sids then x else y).
  assert (forall k, k ∉ sids -> existsb (Z.eqb k) sids = false) as Hno.
  { intros k Hk. destruct (existsb _ sids) eqn:E; [|done]. by apply existsb_eqb in E. }
  assert (forall f, told L F f -> told (bury sids L) (fun k => G k _ [] (F k)) f) as Htold.
  { intros f Hf. destruct (existsb (Z.eqb (sr_sid f)) sids) eqn:E.
    - right. destruct Hf as [Hf|(A & Hp & Ha)]; [|exists A; split; [|done]; cbn; set_solver].
      exists (l_written L (sr_sid f)). split; [|by eapply life_frame; [apply H1|]].
      apply existsb_eqb in E. cbn [bury l_past]. apply elem_of_app. left.
      by apply (list_elem_of_fmap_2 (fun sid => (sid, l_written L sid))).
    - destruct Hf as [Hf|(A & Hp & Ha)]; [left; unfold G; by rewrite E|right]. exists A. split; [|done]. cbn. set_solver. }
  exists (fun k => G k _ [] (w k)), (fun k => G k _ [] (F k)). split.
  - intros k. cbn [bury l_written]. unfold G. destruct (existsb _ sids); [apply life_nil|apply H1].
  - rewrite Forall_forall in *. intros e He. cbn [bury l_written]. unfold G. rewrite Hno by auto. auto.
  - intros k Hk. cbn [bury l_written]. unfold G. destruct (existsb _ sids) eqn:E; [done|].
    apply H3. intros Hm. apply Hk. apply Hin; [done|]. intros Hs. apply existsb_eqb in Hs. congruence.
  - eapply Forall_impl; [exact H4|exact Htold].
  - cbn [bury l_sent]. eapply Forall_impl; [exact H5|exact Htold].
Qed.

Lemma btree_remove_sub {V} k (m : list (Z * V)) : btree_remove k m ⊆ m.
Proof. induction m as [|[k' v] m IH]; cbn [btree_remove]; [done|]. destruct (k =? k'); set_solver. Qed.

Lemma btree_remove_gone {V} k (m : list (Z * V)) e : keys_sorted m -> e ∈ btree_remove k m -> e.1 <> k.
Proof.
  induction m as [|[k' v] m IH]; cbn [btree_remove]; [set_solver|]. rewrite keys_sorted_cons. intros [Hs Hlt].
  rewrite Forall_forall in Hlt. destruct (k =? k') eqn:E; bool_to_prop.
  - intros He. specialize (Hlt _ He). lia.
  - rewrite elem_of_cons. intros [->|He]; [cbn; lia|auto].
Qed.

Lemma reap_all_conn others todo : forall c, conn_ok others c ->
  let c' := exec (reap_all todo) c in
  conn_ok others c' /\ c_send_streams c' ⊆ c_send_streams c /\
  (forall e, e ∈ c_send_streams c' -> e.1 ∉ todo) /\
  (forall k, k ∈ map fst (c_send_streams c) -> k ∉ todo -> k ∈ map fst (c_send_streams c')).
Proof.
  induction todo as [|sid todo IH]; intros c Hc c'; [by split_and!; [|..|set_solver|]|]. unfold c'. cbn [reap_all]. rewrite exec_bind.
  destruct (IH _ (reap_one_conn others sid c Hc)) as (I1 & I2 & I3 & I4).
  destruct (reap_one_table sid c) as [E _]. rewrite E in I2, I4. split; [done|]. split; [|split].
  - etransitivity; [exact I2|apply btree_remove_sub].
  - intros e He. rewrite not_elem_of_cons. split; [|by apply I3]. eapply btree_remove_gone; [apply Hc|by apply I2].
  - intros k Hk. rewrite not_elem_of_cons. intros [Hn Hk2]. apply I4; [|done]. by apply btree_remove_keys.
Qed.

Lemma reap_inv others L q :
  inv others L q -> inv others (bury (reap_candidates (q_conn q)) L) (exec (on_conn reap_finished_streams) q).
Proof.
  intros [[H1 H2 H3] Hh]. unfold on_conn, exec, reap_finished_streams, sbind, gets.
  set (sids := take _ _). change (reap_candidates (q_conn q)) with sids.
  destruct (reap_all_conn others sids (q_conn q) H1) as (G1 & G2 & G3 & G4). unfold exec in G1, G2, G3, G4.
  destruct (reap_all sids (q_conn q)) as [u c']. cbn [snd] in *. split; [split; [done|done|by destruct H3; split]|].
  by apply (hist_bury sids L (c_send_streams (q_conn q))).
Qed.

(* ------------------------------------------------------------------ *)
(** ** Probes *)

Lemma sender_ok_core s s' : core s = core s' -> sender_ok s -> sender_ok s' /\ owed_stream s' ⊆ owed_stream s.
Proof.
  intros E [B S1 S2 S3 S4]. pose proof (settles_core s s' E) as Hs. split; [|by eapply settles_subset].
  destruct (settles_ok _ _ _ Hs S2 S3) as [G1 G2]. split; [by eapply books_core|..]; try done.
  - unfold core in E. unfold staged in *. congruence.
  - apply (recv_ok_ranges s); [|done]. unfold core in E. unfold all_ranges, space_at. congruence.
Qed.

(** A packet without stream data. *)
Lemma bare_packet_ok now level n s :
  sender_ok s -> 0 <= n -> s_bytes_in_flight s + s_retx_bytes s + n <= U32_MAX ->
  sender_ok (exec (send_packet now level true n) s) /\ owed_stream (exec (send_packet now level true n) s) ⊆ owed_stream s.
Proof.
  intros [B S1 S2 S3 S4] Hn Hw. pose proof B as [_ B2 B3 _]. injection S1 as E1 _ _.
  destruct (send_packet_ok now level true n s B Hn) as (P1 & P2 & _); [rewrite E1; cbn; lia|lia|].
  destruct (send_packet_fields now level true n s) as (_ & _ & _ & F4 & F5 & F6 & _).
  destruct (settles_ok _ _ _ P2 S2 S3) as [G1 G2]. split; [|by eapply settles_subset].
  split; [exact P1| |exact G1|exact G2|].
  - unfold staged. by rewrite F4, F5, F6.
  - apply (recv_ok_ranges s); [apply side_send|done].
Qed.

Lemma exec_on_send {A} (m : St Sender A) q : exec (on_send m) q = set_send (exec m (q_send q)) q.
Proof. unfold on_send, exec. by destruct (m (q_send q)). Qed.

Lemma probe_inv others L now probe_len q :
  inv others L q ->
  (forall l n, probe_len l = Some n -> 0 <= n /\ s_bytes_in_flight (q_send q) + s_retx_bytes (q_send q) + n <= U32_MAX) ->
  inv others L (exec (on_send (send_pto_probe now probe_len)) q).
Proof.
  intros [[H1 H2 H3] Hh] Hl. rewrite exec_on_send. pose proof (probe_run now probe_len (q_send q)) as Hr.
  set (s' := exec _ (q_send q)) in *.
  assert (sender_ok s' /\ owed_stream s' ⊆ owed_stream (q_send q)) as [G1 G2].
  { destruct Hr as [[-> _]|(level & n & _ & Hn & _ & Ec)]; [done|]. destruct (Hl _ _ Hn) as [N1 N2].
    destruct (bare_packet_ok now level n (q_send q) H2 N1 N2) as [G1 G2].
    destruct (sender_ok_core _ _ (eq_sym Ec) G1) as [G3 G4]. split; [done|]. by etransitivity. }
  split; [split; [done|done|by destruct H3; split]|]. by eapply hist_shed.
Qed.

(* ------------------------------------------------------------------ *)
(** ** The operations *)

Inductive QOp :=
| QPayload (now : Z) (level : CryptoLevel) (pn : Z) (payload : list Z)
| QWrite (sid : Z) (data : list Z)
| QClose (sid : Z)
| QReset (sid code : Z)
| QStop (sid code : Z)
| QAccept
| QRead (sid cap : Z)
| QReap
| QLimits
| QPacket (now : Z) (pad : option Z)
| QProbe (now : Z) (lens : PerLevel (option Z))
| QPace (now : Z)
| QPaid (n : Z)
| QReceived (n : Z)
| QDrop (level : CryptoLevel)
| QTls (level : CryptoLevel) (data : list Z)
| QParams (b : list Z)
| QKeys (keys : PerLevel bool)
| QPeer (cid : list Z)
| QEstablished.

Definition q_step (o : QOp) (q : Quic) : Quic :=
  match o with
  | QPayload now level pn payload => exec (process_payload now level pn payload) q
  | QWrite sid d => exec (stream_send sid d) q
  | QClose sid => exec (stream_close sid) q
  | QReset sid code => exec (reset_stream sid code) q
  | QStop sid code => exec (stop_sending sid code) q
  | QAccept => exec (on_conn pop_accepted_stream) q
  | QRead sid cap => exec (on_conn (stream_recv sid cap)) q
  | QReap => exec (on_conn reap_finished_streams) q
  | QLimits => exec apply_peer_flow_control q
  | QPacket now pad => exec (encode_one_rtt_packet now pad) q
  | QProbe now lens => exec (on_send (send_pto_probe now (fun l => level_get l lens))) q
  | QPace now => exec (pace_gate now) q
  | QPaid n => exec (pace_consume n;; record_bytes_sent n) q
  | QReceived n => exec (record_bytes_received n) q
  | QDrop level => exec (discard_level level) q
  | QTls level d => set_tls_tx (level_set level (level_get level (q_tls_tx q) ++ d) (q_tls_tx q)) q
  | QParams b => set_tls_params (Some b) q
  | QKeys keys => set_keys keys q
  | QPeer cid => set_peer_cid cid q
  | QEstablished => set_established true q
  end.

Definition log_step (o : QOp) (q : Quic) (L : Log) : Log :=
  match o with
  | QWrite sid d => log_write sid d q L
  | QReap => bury (reap_candidates (q_conn q)) L
  | QPacket now pad =>
      match eval (encode_one_rtt_packet now pad) q with
      | inr (Some pk) => log_sent (heard (pk_payload pk)) L
      | _ => L
      end
  | _ => L
  end.

Definition bytesb (l : list Z) : bool := forallb (fun b => (0 <=? b) && (b <=? 255)) l.
Definition varintb (v : Z) : bool := (0 <=? v) && (v <=? MAX_VARINT).
Definition openedb (sid : Z) (q : Quic) : bool :=
  match btree_get sid (c_send_streams (q_conn q)) with Some _ => true | None => false end.
Definition roomb (n : Z) (q : Quic) : bool := s_bytes_in_flight (q_send q) + s_retx_bytes (q_send q) + n <=? U32_MAX.

(** What the callers see to: ids and codes are variable-length integers; the peer's
    parameters are known before any stream data is sent, and taken over before a
    packet is built; a connection id has at most 20 bytes; the bytes in flight fit
    in 32 bits and the handshake's in 62. *)
Definition legal (L : Log) (o : QOp) (q : Quic) : bool :=
  match o with
  | QPayload _ _ pn payload =>
      bytesb payload && varintb pn
  | QWrite sid _ | QClose sid => varintb sid
  | QReset sid code => varintb sid && varintb code
  | QStop sid code => varintb sid && varintb code
  | QRead _ cap => 0 <=? cap
  | QPacket _ pad =>
      (q_fc_applied q || match parsed_params q with None => true | Some _ => false end) &&
      (zlen (q_peer_cid q) <=? 20) && roomb (wire_max pad q) q
  | QProbe _ lens =>
      forallb (fun l => match level_get l lens with None => true | Some n => (0 <=? n) && roomb n q end)
        [LevelInitial; LevelHandshake; LevelOneRtt]
  | QTls LevelOneRtt d =>
      level_get LevelOneRtt (q_crypto_offset q) + zlen (level_get LevelOneRtt (q_tls_tx q)) + zlen d <=? MAX_VARINT
  | QParams b => bytesb b && (q_data_sent q =? 0)
  | _ => true
  end.

Fixpoint legal_run (ops : list QOp) (L : Log) (q : Quic) : bool :=
  match ops with
  | [] => true
  | o :: ops => legal L o q && legal_run ops (log_step o q L) (q_step o q)
  end.
Fixpoint run (ops : list QOp) (L : Log) (q : Quic) : Log * Quic :=
  match ops with
  | [] => (L, q)
  | o :: ops => run ops (log_step o q L) (q_step o q)
  end.
Definition log_new : Log := mkLog (fun _ => []) [] [].

Definition written_by (o : QOp) : Z := match o with QWrite _ d => zlen d | _ => 0 end.
Definition written (ops : list QOp) : Z := foldr (fun o n => written_by o + n) 0 ops.

Lemma bytesb_ok l : bytesb l = true -> bytes_ok l.
Proof.
  unfold bytesb, bytes_ok. rewrite forallb_forall, Forall_forall. intros H x Hx. apply list_elem_of_In in Hx.
  specialize (H _ Hx). unfold is_u8. bool_to_prop. change U8_MAX with 255. lia.
Qed.
Lemma varintb_ok v : varintb v = true -> is_varint v.
Proof. unfold varintb. intros H. bool_to_prop. by split. Qed.
Lemma inv_tx others L q q' : inv others L q -> q_conn q' = q_conn q -> q_send q' = q_send q -> tx_ok q' -> inv others L q'.
Proof. intros [[H1 H2 H3] Hh] E1 E2 Ht. split; [split; by rewrite ?E1, ?E2|]. unfold history. by rewrite E1, E2. Qed.

Lemma receives_recv others sid cap : 0 <= cap -> receives others (stream_recv sid cap).
Proof.
  intros Hc. split; [|apply tx_stream_recv]. intros c [H1 H2]. split; [by apply stream_recv_inv|by apply ids_stream_recv].
Qed.
Lemma receives_accept others : receives others pop_accepted_stream.
Proof.
  apply receives_view; [unfold pop_accepted_stream; preserve| |].
  - apply ids_keeps. intros c. unfold pop_accepted_stream, exec, sbind, gets. by destruct (c_opened_streams c).
  - intros c. unfold pop_accepted_stream, exec, sbind, gets. by destruct (c_opened_streams c).
Qed.

Lemma step_packet others L now pad q :
  inv others L q -> (forall sid, zlen (l_written L sid) <= U64_MAX) -> legal L (QPacket now pad) q = true ->
  limits_applied q /\ zlen (q_peer_cid q) <= 20 /\
  s_bytes_in_flight (q_send q) + s_retx_bytes (q_send q) + wire_max pad q <= U32_MAX.
Proof.
  intros HI HA. cbn [legal]. unfold roomb, limits_applied. intros [[H1 H2]%andb_true_iff H3]%andb_true_iff. bool_to_prop.
  split; [|lia]. intros E. rewrite E in H1. by destruct (parsed_params q).
Qed.

Lemma qstep_inv others L o q :
  inv others L q -> (forall sid, zlen (l_written L sid) <= U64_MAX) -> legal L o q = true ->
  inv others (log_step o q L) (q_step o q).
Proof.
  intros HI HA Hl. pose proof HI as [[_ _ [T1 T2 T3 T4 T5 T6 T7 T8]] _].
  destruct o as [now level pn payload|sid d|sid|sid code|sid code| |sid cap| | |now pad|now lens|now|n|n|level|level d|b|keys|cid|];
    cbn [q_step log_step].
  - cbn [legal] in Hl. apply andb_true_iff in Hl as [H1 H2].
    apply process_payload_inv; [by apply bytesb_ok|by apply varintb_ok|done].
  - apply varintb_ok in Hl. by apply stream_send_inv.
  - apply varintb_ok in Hl. by apply stream_close_inv.
  - cbn [legal] in Hl. apply andb_true_iff in Hl as [H1%varintb_ok H2%varintb_ok]. by apply reset_stream_inv.
  - cbn [legal] in Hl. apply andb_true_iff in Hl as [H1%varintb_ok H2%varintb_ok]. by apply stop_sending_inv.
  - apply on_conn_inv; [apply receives_accept|done].
  - cbn [legal] in Hl. bool_to_prop. apply on_conn_inv; [by apply receives_recv|done].
  - by apply reap_inv.
  - by apply apply_peer_flow_control_inv.
  - destruct (step_packet others L now pad q HI HA Hl) as (H1 & H2 & H3).
    destruct (encode_spec others L q HI HA H1 H2 now pad H3) as (r & fresh & q' & E & H4 & _).
    unfold exec, eval. rewrite E. cbn [fst snd]. destruct r; [done|]. by rewrite log_sent_nil in H4.
  - apply probe_inv; [done|]. cbn [legal forallb] in Hl. unfold roomb in Hl.
    intros l n Hn. bool_to_prop. destruct l; rewrite Hn in *; bool_to_prop; lia.
  - eapply inv_tx; [done|done|done|by split].
  - unfold record_bytes_sent, pace_consume. rewrite exec_bind, !exec_modify. destruct (q_path_validated _); (eapply inv_tx; [done|done|done|by split]).
  - unfold record_bytes_received. rewrite exec_modify. destruct (q_path_validated q); [done|]. eapply inv_tx; [done|done|done|by split].
  - by apply discard_level_inv.
  - eapply inv_tx; [done|done|done|]. split; try done. cbn [set_tls_tx q_tls_tx q_crypto_offset].
    destruct level; cbn [level_get level_set] in *; [done|done|]. cbn [legal level_get] in Hl. bool_to_prop. cbn. rewrite zlen_app. lia.
  - cbn [legal] in Hl. bool_to_prop. eapply inv_tx; [done|done|done|]. split; try done. by apply bytesb_ok.
  - eapply inv_tx; [done|done|done|by split].
  - eapply inv_tx; [done|done|done|by split].
  - eapply inv_tx; [done|done|done|by split].
Qed.

Lemma log_step_written o q L sid : zlen (l_written (log_step o q L) sid) <= zlen (l_written L sid) + written_by o.
Proof.
  destruct o; cbn [log_step written_by bury l_written]; try lia.
  - unfold log_write. cbn [l_written]. pose proof (zlen_nonneg data). case_match; rewrite ?zlen_app; lia.
  - pose proof (zlen_nonneg (l_written L sid)). case_match; rewrite ?zlen_nil; lia.
  - destruct (eval _ q) as [|[|]]; cbn [log_sent l_written]; lia.
Qed.

(** What an id's streams accepted stays within 64 bits. *)
Definition past_small (L : Log) : Prop := Forall (fun e => zlen e.2 <= U64_MAX) (l_past L).

Lemma log_step_past o q L :
  (forall sid, zlen (l_written L sid) <= U64_MAX) -> past_small L -> past_small (log_step o q L).
Proof.
  intros HA HP. destruct o; cbn [log_step]; try done.
  - unfold past_small. cbn [bury l_past]. apply Forall_app. split; [|done]. apply Forall_map. by apply Forall_true.
  - by destruct (eval _ q) as [|[|]].
Qed.

Lemma written_mono o ops : 0 <= written ops <= written (o :: ops).
Proof.
  assert (forall o, 0 <= written_by o) as Ho by (intros []; cbn; try apply zlen_nonneg; lia).
  pose proof (Ho o). change (written (o :: ops)) with (written_by o + written ops). split; [|lia].
  induction ops as [|o' ops IH]; [done|]. change (written (o' :: ops)) with (written_by o' + written ops).
  specialize (Ho o'). lia.
Qed.

Lemma run_inv others ops : forall L q,
  inv others L q -> (forall sid, zlen (l_written L sid) + written ops <= U64_MAX) -> past_small L -> legal_run ops L q = true ->
  let (L', q') := run ops L q in inv others L' q' /\ (forall sid, zlen (l_written L' sid) <= U64_MAX) /\ past_small L'.
Proof.
  induction ops as [|o ops IH]; intros L q HI HA HP Hl; cbn [run legal_run] in *.
  - split; [done|]. split; [|done]. intros sid. specialize (HA sid). cbn in HA. lia.
  - apply andb_true_iff in Hl as [H1 H2].
    assert (forall sid, zlen (l_written L sid) <= U64_MAX) as HA'.
    { intros sid. specialize (HA sid). pose proof (written_mono o ops). lia. }
    apply IH; [by apply qstep_inv|intros sid|by apply log_step_past|done].
    specialize (HA sid). pose proof (log_step_written o q L sid). cbn in HA. unfold written in *. lia.
Qed.

Lemma sender_new_ok : sender_ok sender_new.
Proof.
  split; [|done|constructor|constructor|].
  - split; [|done..]. intros l. assert (space_at l sender_new = space_default) as -> by (by destruct l).
    split; [|by split; constructor]. split; [by split|]. split; [done|by left].
  - intros l. assert (space_at l sender_new = space_default) as -> by (by destruct l). by split.
Qed.

Lemma quic_new_inv client others cid : others_ok others -> inv others log_new (quic_new client others cid).
Proof.
  intros Ho. split; [split|].
  - split; [by apply conn_new_inv| |constructor|constructor|constructor].
    split; cbn; [constructor|lia|lia|by vm_compute|by vm_compute].
  - apply sender_new_ok.
  - split; cbn; try done; by vm_compute.
  - exists (fun _ => []), (fun _ => []). split; [|constructor|done|constructor|constructor]. intros sid. apply life_nil.
Qed.

(* ------------------------------------------------------------------ *)
(** ** What the peer can make of it *)

(** The frames of one stream among those that went into packets. *)
Definition frames_on (sid : Z) (fs : list StreamRetx) : list StreamFrame :=
  map (fun f => (sr_offset f, sr_data f, sr_fin f)) (filter (fun f => sr_sid f = sid) fs).

(** What the streams that have had an id accepted: those that are gone, and the one
    in the table. *)
Definition incarnations (sid : Z) (L : Log) (q : Quic) : list (list Z) :=
  map snd (filter (fun e => e.1 = sid) (l_past L)) ++ (if openedb sid q then [l_written L sid] else []).

Lemma told_incarnation L q w F owed f :
  story L (c_send_streams (q_conn q)) owed w F -> told L F f ->
  exists A, A ∈ incarnations (sr_sid f) L q /\ frame_of A (sr_offset f, sr_data f, sr_fin f).
Proof.
  intros [H1 _ H3 _ _] [Hf|(A & Hp & Ha)]; unfold incarnations.
  - exists (l_written L (sr_sid f)). split; [|by eapply life_frame; [apply H1|]]. apply elem_of_app. right.
    unfold openedb. destruct (btree_get _ _) eqn:E; [set_solver|]. destruct (H3 (sr_sid f)) as (_ & _ & E2).
    + rewrite btree_get_keys. by intros [].
    + rewrite E2 in Hf. set_solver.
  - exists A. split; [|done]. apply elem_of_app. left. apply list_elem_of_fmap. exists (sr_sid f, A). split; [done|].
    by apply list_elem_of_filter.
Qed.

Lemma frames_on_ok others L q sid f :
  inv others L q -> f ∈ frames_on sid (l_sent L) -> exists A, A ∈ incarnations sid L q /\ frame_of A f.
Proof.
  intros [_ (w & F & Hs)] (x & -> & [<- Hx]%list_elem_of_filter)%list_elem_of_fmap.
  eapply told_incarnation; [exact Hs|]. pose proof (sy_sent _ _ _ _ _ Hs) as H5. rewrite Forall_forall in H5. auto.
Qed.

Lemma owed_frames others L q f :
  inv others L q -> f ∈ owed_stream (q_send q) ->
  exists A, A ∈ incarnations (sr_sid f) L q /\ frame_of A (sr_offset f, sr_data f, sr_fin f).
Proof.
  intros [_ (w & F & Hs)] Hf. eapply told_incarnation; [exact Hs|].
  pose proof (sy_owed _ _ _ _ _ Hs) as H4. rewrite Forall_forall in H4. auto.
Qed.

Lemma incarnation_small L q sid A :
  (forall sid, zlen (l_written L sid) <= U64_MAX) -> past_small L -> A ∈ incarnations sid L q -> zlen A <= U64_MAX.
Proof.
  intros HA HP. unfold incarnations. rewrite elem_of_app. intros [(e & -> & [_ He]%list_elem_of_filter)%list_elem_of_fmap|H].
  - unfold past_small in HP. rewrite Forall_forall in HP. auto.
  - destruct (openedb sid q); [|set_solver]. apply list_elem_of_singleton in H as ->. apply HA.
Qed.
