(* ===== verification/QuicSendProps.v ===== *)
(** * What the sending side of a QUIC connection guarantees *)

From S2P Require Import Prelude.
From S2P Require Import CongestionControl.
From S2P Require Import NetTypes.
From S2P Require Import QuicWire.
From S2P Require Import QuicFrame.
From S2P Require Import QuicParams.
From S2P Require Import QuicStreams.
From S2P Require Import QuicCrypto.
From S2P Require Import QuicSpace.
From S2P Require Import QuicLoss.
From S2P Require Import QuicFlow.
From S2P Require Import QuicFlowInv.
From S2P Require Import QuicFlowProps.
From S2P Require Import QuicConn.
From S2P Require Import QuicConnInv.
From S2P Require Import QuicEncode.
From S2P Require Import QuicEncodeInv.
From S2P Require Import QuicPacket.
From S2P Require Import QuicTrace.

#[local] Open Scope st_scope.

(* ------------------------------------------------------------------ *)
(** ** A flush with nothing to do *)

Lemma put_back_quic q : set_conn (q_conn q) q = q.
Proof. by destruct q. Qed.

Lemma grant_max_streams_idle c :
  (c_max_streams_bidi_advertised c <=? w64 (c_bidi_streams_opened c + STREAM_CREDIT_REFILL_AT)) = false ->
  (c_max_streams_uni_advertised c <=? w64 (c_uni_streams_opened c + STREAM_CREDIT_REFILL_AT)) = false ->
  c_force_max_streams_bidi c = false -> c_force_max_streams_uni c = false ->
  grant_max_streams c = ([], c).
Proof.
  intros H1 H2 H3 H4. unfold grant_max_streams, sbind, gets, swhen, sret. cbv beta iota.
  rewrite H1. cbv beta iota. rewrite H3. cbn [orb]. rewrite H2. cbv beta iota. by rewrite H4.
Qed.

Lemma grant_max_data_idle c :
  c_force_max_data c = false ->
  (sat_sub (c_max_data_advertised c) (c_data_consumed c) <=? INITIAL_MAX_DATA / 2) &&
    negb (recv_buffer_over_budget c) = false ->
  grant_max_data c = ([], c).
Proof.
  intros H1 H2. unfold grant_max_data, sbind, gets, swhen, sret. cbv beta iota. rewrite H2. cbv beta iota. by rewrite H1.
Qed.

Lemma stream_sweep_idle m used :
  existsb (fun e => negb (rs_is_closed e.2) &&
             (sat_sub (rs_recv_max e.2) (rs_consumed e.2) <=? INITIAL_MAX_STREAM_DATA / 2)) m = false ->
  exists b, stream_sweep false used m = (m, [], b).
Proof.
  induction m as [|[sid rs] m IH]; [by eexists|]. cbn [existsb stream_sweep snd]. intros [H1 H2]%orb_false_elim.
  destruct (IH H2) as [b E]. case_match; [by eexists|]. rewrite E. destruct (rs_is_closed rs); [by eexists|].
  cbn [negb andb] in H1. rewrite H1. by eexists.
Qed.

Lemma grant_max_stream_data_idle c used :
  c_force_max_stream_data c = false ->
  existsb (fun e => negb (rs_is_closed e.2) &&
             (sat_sub (rs_recv_max e.2) (rs_consumed e.2) <=? INITIAL_MAX_STREAM_DATA / 2)) (c_recv_streams c) = false ->
  grant_max_stream_data used c = ([], c).
Proof.
  intros H1 H2. destruct (stream_sweep_idle _ used H2) as [b E].
  unfold grant_max_stream_data, sbind, gets, swhen, sret, modify. cbv beta iota. rewrite H1, E.
  destruct b; f_equal; destruct c; cbn in *; by subst.
Qed.

Lemma fill_stream_idle fuel now sid s f :
  match ss_state s with FinSent | ResetSent => false | Closing => true | SendOpen => negb (outbound_is_empty s) end = false ->
  fill_stream fuel now sid s f = (true, s, f).
Proof.
  intros H. destruct fuel; [done|]. cbn [fill_stream]. destruct (_ <=? _); [done|].
  destruct (max_chunk s f) as [mc|]; [|done]. assert (pop_chunk now mc s = (None, None, s)) as ->; [|done]. unfold pop_chunk, ss_fin_sent.
  destruct (ss_state s); cbn [orb] in *; try done. by destruct (outbound_is_empty s).
Qed.

Lemma fill_streams_idle now m f :
  existsb (fun e => match ss_state e.2 with
                    | FinSent | ResetSent => false
                    | Closing => true
                    | SendOpen => negb (outbound_is_empty e.2)
                    end) m = false ->
  fill_streams now m f = (true, m, f).
Proof.
  induction m as [|[sid s] m IH]; [done|]. cbn [existsb fill_streams snd]. intros [H1 H2]%orb_false_elim.
  rewrite (fill_stream_idle _ now sid s f H1), (IH H2). done.
Qed.

Lemma enc_seq_idle m k e : m e = (true, e) -> k e = (true, e) -> enc_seq m k e = (true, e).
Proof. intros H1 H2. unfold enc_seq, sbind. by rewrite H1. Qed.

Lemma at_conn_idle {A} (m : St Conn A) a e :
  m (q_conn (e_quic e)) = (a, q_conn (e_quic e)) -> at_quic (on_conn m) e = (a, e).
Proof. intros H. unfold at_quic, on_conn. rewrite H, put_back_quic. by destruct e. Qed.

Lemma enc_credit_idle hdr e :
  grant_max_streams (q_conn (e_quic e)) = ([], q_conn (e_quic e)) ->
  grant_max_data (q_conn (e_quic e)) = ([], q_conn (e_quic e)) ->
  (forall used, grant_max_stream_data used (q_conn (e_quic e)) = ([], q_conn (e_quic e))) ->
  enc_credit hdr e = (true, e).
Proof.
  intros H1 H2 H3. unfold enc_credit, enc_grant. apply enc_seq_idle; [|apply enc_seq_idle]; unfold sbind, gets; cbv beta iota.
  - by rewrite (at_conn_idle _ _ _ H1).
  - by rewrite (at_conn_idle _ _ _ H2).
  - by rewrite (at_conn_idle _ _ _ (H3 _)).
Qed.

Lemma enc_stream_idle now e :
  has_pending_one_rtt_data (e_quic e) = false -> q_data_sent (e_quic e) <= U64_MAX -> enc_stream now e = (true, e).
Proof.
  intros [H1 H2]%orb_false_elim Hd. unfold enc_stream, sbind, gets. cbv beta iota zeta.
  destruct (s_retx_queue _); [|done]. cbn [enc_retx]. unfold sret, modify. cbv beta iota zeta.
  rewrite (fill_streams_idle now _ _ H2). cbv beta iota zeta. cbn [f_frames f_delta f_body f_eliciting].
  unfold at_quic. cbn [e_quic e_body e_eliciting]. f_equal. unfold sat_add64. rewrite Z.add_0_r.
  destruct e as [[[] ? ? ? ? ? ? ? ? ? ? ? ? ? ? ? ? ? ? ? ? ?] ? ?]; cbn in *. by rewrite Z.min_r by done.
Qed.

(** C26: The shortcut of a flush is exact on the side that matters: when the check
    says that no 1-RTT frame is due, the encoder builds no packet and leaves the
    whole connection as it was, so nothing is dropped by skipping it. *)
Theorem nothing_due_nothing_sent now pad q :
  has_one_rtt_to_send now q = false -> q_data_sent q <= U64_MAX ->
  encode_one_rtt_packet now pad q = (inr None, q).
Proof.
  intros H Hd. unfold has_one_rtt_to_send in H. cbv zeta in H.
  repeat match type of H with (_ || _) = false => apply orb_false_elim in H as [H ?] end.
  repeat match goal with E : (_ || _) = false |- _ => apply orb_false_elim in E as [? ?] end.
  assert (enc_frames now (short_header_len q) (mkEnc q [] false) = (true, mkEnc q [] false)) as Ef.
  { unfold enc_frames. repeat match goal with |- enc_seq _ _ _ = _ => apply enc_seq_idle end.
    - unfold enc_ack, sbind, gets. cbn [e_quic]. by rewrite H.
    - unfold enc_done, sbind, gets. cbn [e_quic]. by destruct (q_done_sent q).
    - unfold enc_path_response, sbind, gets. cbn [e_quic]. by destruct (q_path_response q).
    - unfold sbind, gets. cbn [e_quic]. by destruct (s_pending_stop_sending (q_send q)).
    - unfold sbind, gets. cbn [e_quic]. by destruct (s_pending_reset_streams (q_send q)).
    - apply enc_credit_idle; [by apply grant_max_streams_idle|by apply grant_max_data_idle|].
      intros used. by apply grant_max_stream_data_idle.
    - unfold enc_crypto, sbind, gets. cbn [e_quic].
      by match goal with E : has_pending_one_rtt_crypto q = false |- _ => rewrite E end.
    - by apply enc_stream_idle. }
  unfold encode_one_rtt_packet, sbind, gets. cbv beta iota zeta.
  destruct (level_get LevelOneRtt (q_keys q)); [|done]. cbn [negb]. by rewrite Ef.
Qed.

(* ------------------------------------------------------------------ *)
(** ** Over the whole life of a connection *)

Section Life.
Context (client : bool) (others : Z) (cid : list Z) (ops : list QOp).
Context (Hothers : others_ok others) (Hwritten : written ops <= U64_MAX).
Context (Hlegal : legal_run ops log_new (quic_new client others cid) = true).

Lemma life_inv : let (L, q) := run ops log_new (quic_new client others cid) in
  inv others L q /\ (forall sid, zlen (l_written L sid) <= U64_MAX) /\ past_small L.
Proof using Hothers Hwritten Hlegal.
  apply run_inv; [by apply quic_new_inv| |constructor|done]. intros sid.
  change (zlen (@nil Z) + written ops <= U64_MAX). rewrite zlen_nil. lia.
Qed.
End Life.

(** C4: A connection delivers what was written.  Take any life of a connection
    ([legal]): writes, closes, resets and reads by the application, packets of any
    content from the peer with acknowledgements, losses and limits, probes, finished
    streams reaped, and packets built in between.  Take a stream id that was used for
    one stream, whether that is still in the table or has been reaped, and let the
    peer take the STREAM frames of that id out of the payloads that were built, in any
    order, some repeated, some never arriving.  What the peer reads is a prefix of
    what the application wrote to the stream, and the end is reported only when it is
    all of it. *)
Theorem connection_delivers client others cid ops sid rops A :
  others_ok others -> written ops <= U64_MAX -> legal_run ops log_new (quic_new client others cid) = true ->
  let (L, q) := run ops log_new (quic_new client others cid) in
  incarnations sid L q = [A] -> Forall (delivers (frames_on sid (l_sent L))) rops ->
  let '(read, r) := recv_run rops [] recv_default in
  (exists rest, A = read ++ rest) /\
  (forall cap, 0 <= cap -> let '((out, eof), _) := drain cap r in eof = true -> read ++ out = A).
Proof.
  intros Ho Hw Hl. pose proof (life_inv client others cid ops Ho Hw Hl) as HI. destruct (run ops log_new _) as [L q].
  destruct HI as (HI & HA & HP). intros HiA Hd.
  assert (zlen A <= U64_MAX) as HAs by (eapply (incarnation_small L q sid); [done|done|rewrite HiA; set_solver]).
  assert (Forall (op_ok A) rops) as Hops.
  { eapply Forall_impl; [exact Hd|]. intros [f|cap]; cbn; [|done]. intros Hf.
    destruct (frames_on_ok others L q sid f HI Hf) as (B & HB & Hfb). rewrite HiA in HB.
    by apply list_elem_of_singleton in HB as ->. }
  pose proof (recv_run_default A rops HAs Hops) as HR.
  destruct (recv_run rops [] recv_default) as [read r]. cbn [fst snd] in HR. split.
  - exists (rs_buffer r ++ zdrop (rs_offset r) A). by rewrite app_assoc, (ri_prefix _ _ _ _ HR), ztake_zdrop.
  - intros cap Hc. pose proof (drain_inv _ _ read r cap Hc HR) as HD.
    destruct (drain cap r) as [[out eof] r']. intros He. by apply HD.
Qed.

(** C5: A connection keeps to the peer's limits and keeps its books straight.
    After any life of a connection ([legal]), reuse of stream ids included, the
    stream bytes sent are within the peer's connection limit and every stream is
    within its own; the bytes in flight are the sum over the packets on record and
    the bytes to be sent again are those queued; every STREAM frame in flight or
    queued carries the bytes the application wrote at its offset to a stream of its
    id, the one in the table or one reaped before; and nothing is left staged
    between packets. *)
Theorem connection_within_limits client others cid ops :
  others_ok others -> written ops <= U64_MAX -> legal_run ops log_new (quic_new client others cid) = true ->
  let (L, q) := run ops log_new (quic_new client others cid) in
  0 <= q_data_sent q <= q_peer_max_data q /\
  Forall (fun e => 0 <= ss_send_offset e.2 <= ss_peer_max_stream_data e.2) (c_send_streams (q_conn q)) /\
  s_bytes_in_flight (q_send q) = flight_of (all_inflight (q_send q)) /\
  s_retx_bytes (q_send q) = retx_sum (s_retx_queue (q_send q)) /\
  (forall f, f ∈ owed_stream (q_send q) ->
     exists A, A ∈ incarnations (sr_sid f) L q /\ frame_of A (sr_offset f, sr_data f, sr_fin f)) /\
  staged (q_send q) = ([], [], []).
Proof.
  intros Ho Hw Hl. pose proof (life_inv client others cid ops Ho Hw Hl) as HI. destruct (run ops log_new _) as [L q].
  destruct HI as [HI _]. pose proof HI as [[[_ _ _ C4 _] [[_ B2 B3 _] S1 _ _ _] [T1 _ _ _ _ _ _ _]] _].
  split; [done|]. split; [eapply Forall_impl; [exact C4|]; intros e [_ [H _]]; exact H|].
  split; [done|]. split; [done|]. split; [|done]. intros f. by apply (owed_frames others L q).
Qed.

(** C6: A packet is exactly what loss recovery has on record.  At any point of a
    connection's life ([legal], and with the peer's limits taken over, a connection
    id of at most 20 bytes and room in the 32-bit counters), building a 1-RTT packet
    never fails.  A packet built has the next packet number, never used before; its
    payload parses at the peer, to the end, into the frames written; the record under
    its number holds exactly its STREAM, RESET_STREAM and STOP_SENDING frames, its
    length on the wire and whether it elicits an acknowledgement; no other record
    changes.  Its STREAM frames are the front of the queue of lost ones, within the
    congestion window but for one frame onto an empty wire, and then new data within
    what the window leaves and behind what is still queued; the connection limit is
    charged exactly the new bytes. *)
Theorem one_rtt_packet_exact client others cid ops now pad :
  others_ok others -> written ops <= U64_MAX ->
  legal_run ops log_new (quic_new client others cid) = true ->
  let (L, q) := run ops log_new (quic_new client others cid) in
  legal L (QPacket now pad) q = true ->
  exists r fresh q', encode_one_rtt_packet now pad q = (inr r, q') /\
    q_data_sent q' = q_data_sent q + retx_sum fresh /\
    match r with
    | None => fresh = [] /\ all_inflight (q_send q') = all_inflight (q_send q)
    | Some pk => exists cs taken rest,
        payload_frames (pk_payload pk) = (map call_frame cs, None) /\
        packet_of now q q' pk cs /\ stream_calls cs = taken ++ fresh /\
        s_retx_queue (q_send q) = taken ++ rest /\ in_window q taken rest fresh
    end.
Proof.
  intros Ho Hw Hl. pose proof (life_inv client others cid ops Ho Hw Hl) as HI. destruct (run ops log_new _) as [L q].
  destruct HI as (HI & HA & _). intros Hp. destruct (step_packet others L now pad q HI HA Hp) as (H1 & H2 & H3).
  destruct (encode_spec others L q HI HA H1 H2 now pad H3) as (r & fresh & q' & E & _ & Hd & _ & _ & Hr).
  exists r, fresh, q'. split; [done|]. split; [done|]. destruct r as [pk|]; [|by destruct Hr as (? & ? & _)].
  destruct Hr as (cs & taken & rest & Hc & _ & Hwin). exists cs, taken, rest. split; [|done].
  destruct Hc as [P1 P2 _ _ _ _ _]. rewrite P1. by apply payload_frames_calls.
Qed.

(** C24: A 1-RTT packet fits the transmit slot it is written into.  While TLS has
    no more than a session ticket (159 bytes) waiting, a packet built without
    padding leaves room in [MAX_QUIC_DATAGRAM] for the 62 bytes of headers before
    it, whatever is due: acknowledgements, resets, credit and stream data. *)
Theorem one_rtt_packet_fits client others cid ops now pk q' :
  others_ok others -> written ops <= U64_MAX ->
  legal_run ops log_new (quic_new client others cid) = true ->
  let (L, q) := run ops log_new (quic_new client others cid) in
  legal L (QPacket now None) q = true -> tls_left q <= 159 ->
  encode_one_rtt_packet now None q = (inr (Some pk), q') -> MAX_L2_HEADROOM + pk_wire pk <= MAX_QUIC_DATAGRAM.
Proof.
  intros Ho Hw Hl. pose proof (life_inv client others cid ops Ho Hw Hl) as HI. destruct (run ops log_new _) as [L q].
  destruct HI as (HI & HA & _). intros Hp Ht E. destruct (step_packet others L now None q HI HA Hp) as (H1 & H2 & H3).
  destruct (encode_spec others L q HI HA H1 H2 now None H3) as (r & fresh & q2 & E2 & _ & _ & _ & _ & Hr).
  rewrite E in E2. injection E2 as <- <-. destruct Hr as (cs & taken & rest & _ & Hb & _).
  unfold wire_max, wire_bound, short_header_len in *. cbn in Hb. lia.
Qed.

(* ------------------------------------------------------------------ *)
(** ** Segmentation offload *)

(** No packet is longer than this while a connection id has at most 20 bytes. *)
Definition PACKET_MAX : Z := 2203.

Lemma wire_max_le pad q : zlen (q_peer_cid q) <= 20 -> default 0 pad <= PACKET_MAX -> wire_max pad q <= PACKET_MAX.
Proof. intros H1 H2. unfold wire_max, wire_bound, short_header_len, PACKET_MAX in *. lia. Qed.

Lemma padded_min hdr g body : g <= hdr + zlen (pad_packet hdr (Some g) body) + TAG_LEN.
Proof.
  assert (forall n b, n <= zlen (pad_to n b)) as H.
  { intros n b. unfold pad_to. rewrite zlen_app. unfold zlen. rewrite repeat_length. lia. }
  cbn [pad_packet]. specialize (H (g - TAG_LEN - hdr) (pad_to HP_SAMPLE_LEN body)). lia.
Qed.

Lemma encode_padded now g q pk q' : encode_one_rtt_packet now (Some g) q = (inr (Some pk), q') -> g <= pk_wire pk.
Proof.
  unfold encode_one_rtt_packet. unfold sbind at 1, gets at 1. cbv beta iota.
  destruct (negb _); [done|]. destruct (enc_frames now _ _) as [[] e]; [|done]. cbn [negb].
  destruct (zlen (e_body e) =? 0); [done|]. unfold sbind at 1, modify at 1. rewrite record_packet. intros [= <- _].
  apply padded_min.
Qed.

Lemma limits_applied_view q q' : peer_view q' = peer_view q -> limits_applied q -> limits_applied q'.
Proof. unfold peer_view, limits_applied, parsed_params. intros [= _ _ E1 E2 _]. by rewrite E1, E2. Qed.

Lemma record_bytes_sent_run n q : exists q', record_bytes_sent n q = (tt, q') /\
  q_conn q' = q_conn q /\ q_send q' = q_send q /\ peer_view q' = peer_view q /\ (tx_ok q -> tx_ok q').
Proof.
  unfold record_bytes_sent, modify. destruct (q_path_validated q); eexists; (split; [reflexivity|]); [done|].
  split; [done|]. split; [done|]. split; [done|]. by intros []; split.
Qed.

(** The packet is on record as sent. *)
Definition on_record (q : Quic) (p : Packet) : Prop :=
  exists rec, btree_get (pk_pn p) (inflight LevelOneRtt (q_send q)) = Some rec /\
    byte_count rec = pk_wire p /\ stream_frames rec = heard (pk_payload p) /\
    (stream_frames rec <> [] -> in_flight rec = true).

Definition next_pn (q : Quic) : Z := next_send_pn (space_at LevelOneRtt (q_send q)).

(** From [q] to [q'] the packets [ps] were sealed, numbered in order, and every one is
    on record. *)
Record ledger (q q' : Quic) (ps : list Packet) : Prop := {
  lg_pn : forall i p, ps !! i = Some p -> pk_pn p = next_pn q + Z.of_nat i;
  lg_next : next_pn q' = next_pn q + zlen ps;
  lg_record : Forall (on_record q') ps;
  lg_old : forall pn, pn < next_pn q ->
    btree_get pn (inflight LevelOneRtt (q_send q')) = btree_get pn (inflight LevelOneRtt (q_send q));
}.

Lemma ledger_nil q q' : space_at LevelOneRtt (q_send q') = space_at LevelOneRtt (q_send q) -> ledger q q' [].
Proof.
  intros E. split; [done|unfold next_pn; rewrite E, zlen_nil; lia|constructor|]. intros pn _. unfold inflight. by rewrite E.
Qed.

Lemma stream_calls_elicit cs : stream_calls cs <> [] -> existsb eliciting_call cs = true.
Proof. induction cs as [|c cs IH]; [done|]. destruct c; cbn; auto. Qed.

Lemma btree_get_insert_ne {V} k k' (v : V) m : k <> k' -> btree_get k (btree_insert k' v m) = btree_get k m.
Proof.
  intros Hk. induction m as [|[j x] m IH]; cbn [btree_insert btree_get]; [by rewrite (proj2 (Z.eqb_neq _ _) Hk)|].
  destruct (k' <? j) eqn:E1; cbn [btree_get]; [by rewrite (proj2 (Z.eqb_neq _ _) Hk)|].
  destruct (k' =? j) eqn:E2; bool_to_prop; cbn [btree_get]; [subst; by rewrite (proj2 (Z.eqb_neq _ _) Hk)|].
  by rewrite IH.
Qed.

Lemma ledger_one now q q' pk cs : packet_of now q q' pk cs -> ledger q q' [pk].
Proof.
  intros [P1 P2 P3 P4 _ _ P7]. cbv zeta in P7. change (pk_pn pk = next_pn q) in P3. change (next_pn q' = pk_pn pk + 1) in P4.
  split.
  - intros [|i] p; [|done]. intros [= <-]. lia.
  - rewrite zlen_cons, zlen_nil. lia.
  - apply Forall_singleton. eexists. rewrite P7, btree_get_insert. split; [reflexivity|]. cbn [byte_count stream_frames in_flight].
    rewrite P1, heard_wires by done. split; [done|]. split; [done|]. apply stream_calls_elicit.
  - intros pn Hpn. rewrite P7. apply btree_get_insert_ne. lia.
Qed.

Lemma ledger_app q q1 q2 a b : ledger q q1 a -> ledger q1 q2 b -> ledger q q2 (a ++ b).
Proof.
  intros [A1 A2 A3 A4] [B1 B2 B3 B4]. pose proof (zlen_nonneg a) as Ha. split.
  - intros i p [Hi|[Hi Hp]]%lookup_app_Some; [auto|]. rewrite (B1 _ _ Hp), A2. unfold zlen. lia.
  - rewrite zlen_app. lia.
  - apply Forall_app. split; [|done]. rewrite Forall_lookup in *. intros i p Hp. destruct (A3 i p Hp) as (rec & E & H).
    exists rec. split; [|done]. rewrite B4; [done|]. rewrite A2, (A1 _ _ Hp). apply lookup_lt_Some in Hp. unfold zlen. lia.
  - intros pn Hpn. rewrite B4 by lia. auto.
Qed.

Section Gso.
Context (others now gso window cap : Z) (Hg : gso <= PACKET_MAX).

(** What the loop ships, and the packet it sealed too long, if any. *)
Definition gso_outcome (fuel : nat) (L : Log) (q : Quic) (len : Z) (r : (unit + list Packet) * Quic) : Prop :=
  exists ps dropped q', r = (inr ps, q') /\
    Forall (fun p => pk_wire p = gso) ps /\ len + gso * zlen ps <= cap /\ (length ps <= fuel)%nat /\
    (length dropped <= 1)%nat /\ Forall (fun p => gso < pk_wire p) dropped /\ ledger q q' (ps ++ dropped) /\
    exists L', inv others L' q' /\ l_written L' = l_written L.

Lemma gso_stop fuel L q len q' L' dropped :
  len <= cap -> inv others L' q' -> l_written L' = l_written L -> ledger q q' dropped ->
  (length dropped <= 1)%nat -> Forall (fun p => gso < pk_wire p) dropped -> gso_outcome fuel L q len (inr [], q').
Proof using.
  intros Hl H1 H2 H3 H4 H5. exists [], dropped, q'. change (zlen (@nil Packet)) with 0. split; [done|]. split; [constructor|].
  split; [lia|]. split; [cbn; lia|]. split; [done|]. split; [done|]. split; [done|]. by exists L'.
Qed.

Lemma gso_run fuel : forall L q len,
  inv others L q -> (forall sid, zlen (l_written L sid) <= U64_MAX) -> limits_applied q -> zlen (q_peer_cid q) <= 20 ->
  len <= cap ->
  s_bytes_in_flight (q_send q) + s_retx_bytes (q_send q) + Z.of_nat fuel * PACKET_MAX <= U32_MAX ->
  gso_outcome fuel L q len (gso_segments fuel now gso window cap len q).
Proof using Hg.
  induction fuel as [|fuel IH]; intros L q len HI HA Hap Hc Hl Hroom.
  { by eapply (gso_stop 0 L q len q L []); [|..|apply ledger_nil|cbn; lia|constructor]. }
  assert (gso_outcome (S fuel) L q len (inr [], q)) as Hstop.
  { by eapply (gso_stop _ L q len q L []); [|..|apply ledger_nil|cbn; lia|constructor]. }
  cbn [gso_segments]. unfold sbind at 1, gets at 1. cbv beta iota.
  destruct (negb _); [done|]. destruct (cap <? len + gso) eqn:Ecap; [done|]. destruct (window <? _); [done|]. bool_to_prop.
  pose proof (wire_max_le (Some gso) q Hc Hg) as Hm. unfold PACKET_MAX in *.
  destruct (encode_spec others L q HI HA Hap Hc now (Some gso) ltac:(lia)) as (r & fresh & q1 & E & H1 & _ & H2 & H3 & H4).
  unfold sbind at 1. rewrite E. destruct r as [pk|].
  2: { destruct H4 as (_ & _ & Hsp). by eapply (gso_stop _ L q len q1 _ []); [|exact H1|..|apply ledger_nil|cbn; lia|constructor]. }
  destruct H4 as (cs & taken & rest & Hpk & _). apply ledger_one in Hpk.
  destruct (gso <? pk_wire pk) eqn:Eg; bool_to_prop.
  { by eapply (gso_stop _ L q len q1 _ [pk]); [|exact H1|..|cbn; lia|apply Forall_singleton]. }
  pose proof (encode_padded _ _ _ _ _ E) as Hmin. assert (pk_wire pk = gso) as Ew by lia.
  destruct (record_bytes_sent_run (pk_wire pk) q1) as (q2 & E2 & F1 & F2 & F3 & F4). unfold sbind at 1. rewrite E2.
  assert (peer_view q2 = peer_view q) as Hv by congruence.
  destruct (IH (log_sent (heard (pk_payload pk)) L) q2 (len + pk_wire pk))
    as (ps & dropped & q3 & E3 & G1 & G2 & G3 & G4 & G5 & G6 & L' & G7 & G8).
  { eapply inv_tx; [exact H1|done|done|]. apply F4, H1. }
  { exact HA. }
  { by apply (limits_applied_view q). }
  { unfold peer_view in Hv. injection Hv as _ -> _ _ _. done. }
  { lia. }
  { rewrite F2. lia. }
  unfold sbind. rewrite E3. exists (pk :: ps), dropped, q3. split; [done|]. split; [by constructor|]. rewrite zlen_cons. split; [lia|].
  split; [cbn; lia|]. split; [done|]. split; [done|]. split; [|by exists L'].
  apply (ledger_app q q1 q3 [pk] (ps ++ dropped)); [done|].
  apply (ledger_app q1 q2 q3 []); [apply ledger_nil; by rewrite F2|done].
Qed.

End Gso.

(** The whole offload path at any slot. *)
Lemma try_flush_gso_spec others L q now slot :
  inv others L q -> (forall sid, zlen (l_written L sid) <= U64_MAX) -> limits_applied q -> zlen (q_peer_cid q) <= 20 ->
  s_bytes_in_flight (q_send q) + s_retx_bytes (q_send q) + 16 * PACKET_MAX <= U32_MAX ->
  exists ps dropped q', try_flush_gso now slot q = (inr ps, q') /\
    Forall (fun p => pk_wire p = gso_segment_size q) ps /\ (length ps <= 16)%nat /\
    (ps = [] \/ exists cap, slot = Some cap /\ MAX_L2_HEADROOM + gso_segment_size q * zlen ps <= cap) /\
    (length dropped <= 1)%nat /\ Forall (fun p => gso_segment_size q < pk_wire p) dropped /\ ledger q q' (ps ++ dropped).
Proof.
  intros HI HA Hap Hc Hroom.
  assert (forall r, r = (inr [] : unit + list Packet, q) -> exists ps dropped q', r = (inr ps, q') /\
    Forall (fun p => pk_wire p = gso_segment_size q) ps /\ (length ps <= 16)%nat /\
    (ps = [] \/ exists cap, slot = Some cap /\ MAX_L2_HEADROOM + gso_segment_size q * zlen ps <= cap) /\
    (length dropped <= 1)%nat /\ Forall (fun p => gso_segment_size q < pk_wire p) dropped /\ ledger q q' (ps ++ dropped)) as Hno.
  { intros r ->. exists [], [], q. split; [done|]. split; [constructor|]. split; [cbn; lia|]. split; [by left|].
    split; [cbn; lia|]. split; [constructor|]. by apply ledger_nil. }
  destruct slot as [cap|].
  2: { apply Hno. unfold try_flush_gso, sbind, gets. cbv beta iota zeta. destruct (negb _ || _); [done|]. by destruct (_ || _). }
  assert (gso_segment_size q <= PACKET_MAX) as Hg by (unfold gso_segment_size, PACKET_MAX; lia).
  unfold try_flush_gso. unfold sbind at 1, gets at 1. cbv beta iota zeta.
  destruct (negb _ || _); [by apply Hno|]. destruct (_ || _); [by apply Hno|].
  destruct (cap <? _) eqn:Ecap; [by apply Hno|]. bool_to_prop. pose proof (zlen_nonneg (q_peer_cid q)).
  destruct (gso_run others now (gso_segment_size q) (Controller.window (s_cc (q_send q))) cap Hg 16 L q MAX_L2_HEADROOM HI HA Hap Hc
    ltac:(unfold gso_segment_size in Ecap; lia) Hroom) as (ps & dropped & q' & E & G1 & G2 & G3 & G4 & G5 & G6 & _).
  exists ps, dropped, q'. split; [done|]. split; [done|]. split; [done|]. split; [|done]. right. by exists cap.
Qed.

(** C25: A super-buffer is cut where its segments end.  At any point of a
    connection's life with room in the counters, the offload path never fails, and
    whatever it ships is at most sixteen packets of exactly the segment size it
    announced to the device, which with the headroom fit the slot it was given. *)
Theorem gso_super_buffer client others cid ops now slot :
  others_ok others -> written ops <= U64_MAX -> legal_run ops log_new (quic_new client others cid) = true ->
  let (L, q) := run ops log_new (quic_new client others cid) in
  limits_applied q -> zlen (q_peer_cid q) <= 20 ->
  s_bytes_in_flight (q_send q) + s_retx_bytes (q_send q) + 16 * PACKET_MAX <= U32_MAX ->
  exists ps q', try_flush_gso now slot q = (inr ps, q') /\
    Forall (fun p => pk_wire p = gso_segment_size q) ps /\ (length ps <= 16)%nat /\
    (ps = [] \/ exists cap, slot = Some cap /\ MAX_L2_HEADROOM + gso_segment_size q * zlen ps <= cap).
Proof.
  intros Ho Hw Hl. pose proof (life_inv client others cid ops Ho Hw Hl) as HI. destruct (run ops log_new _) as [L q].
  destruct HI as (HI & HA & _). intros Hap Hc Hroom.
  destruct (try_flush_gso_spec others L q now slot HI HA Hap Hc Hroom) as (ps & dropped & q' & E & G1 & G2 & G3 & _).
  by exists ps, q'.
Qed.

(** C33: What the offload path seals is on record, shipped or not.  At any point of a
    connection's life with room in the counters, the packets it seals get the next
    numbers in order, every one of them is on record with its length and its STREAM
    frames, in flight if it has any, and older records stay as they were.  All but at
    most one are shipped; the one left out came out longer than the segment size,
    and is on record as sent although it never leaves. *)
Theorem gso_drops_sealed_packet client others cid ops now slot :
  others_ok others -> written ops <= U64_MAX -> legal_run ops log_new (quic_new client others cid) = true ->
  let (L, q) := run ops log_new (quic_new client others cid) in
  limits_applied q -> zlen (q_peer_cid q) <= 20 ->
  s_bytes_in_flight (q_send q) + s_retx_bytes (q_send q) + 16 * PACKET_MAX <= U32_MAX ->
  exists shipped dropped q', try_flush_gso now slot q = (inr shipped, q') /\
    (length dropped <= 1)%nat /\ Forall (fun p => gso_segment_size q < pk_wire p) dropped /\
    ledger q q' (shipped ++ dropped).
Proof.
  intros Ho Hw Hl. pose proof (life_inv client others cid ops Ho Hw Hl) as HI. destruct (run ops log_new _) as [L q].
  destruct HI as (HI & HA & _). intros Hap Hc Hroom.
  destruct (try_flush_gso_spec others L q now slot HI HA Hap Hc Hroom) as (ps & dropped & q' & E & _ & _ & _ & G).
  by exists ps, dropped, q'.
Qed.

(* ------------------------------------------------------------------ *)
(** ** Examples *)

(** A server that knows its peer and has its keys. *)
Definition example_params : list Z := default [] (encode_client_params [] [1; 2; 3; 4; 5; 6; 7; 8]).
Definition example_setup : list QOp :=
  [QParams example_params; QKeys (mkPerLevel true true true); QPeer [1; 2; 3; 4; 5; 6; 7; 8]; QEstablished; QLimits].
Definition example_start : Quic := quic_new false 0 [].

(** Two pages for stream 0, and the ends of three empty streams. *)
Definition example_gso : list QOp := example_setup ++ [QWrite 0 (repeat 7 2300); QClose 4; QClose 8; QClose 12].

(** C7: An acknowledgement settles exactly what it names.  At any point of a
    connection's life, take any ACK, well formed or not, at any level.  Every STREAM,
    CRYPTO, RESET_STREAM and STOP_SENDING frame the connection answers for either
    was in a packet on record that the ACK names, or belongs to a stream that was
    aborted, or is still answered for afterwards, in flight or queued again as
    lost: none is forgotten and none is doubled.  The bytes in flight stay the sum
    over the packets left on record. *)
Theorem ack_settles_exactly client others cid ops now level largest delay first ranges :
  others_ok others -> written ops <= U64_MAX -> legal_run ops log_new (quic_new client others cid) = true ->
  let (L, q) := run ops log_new (quic_new client others cid) in
  let s := q_send q in
  let s' := exec (process_ack now level largest delay first ranges) s in
  let acked := acked_pkts level largest first ranges s in
  (exists dropped, owed_stream s ≡ₚ collect stream_frames acked ++ dropped ++ owed_stream s' /\
     Forall (fun f => send_aborted (sr_sid f) s = true) dropped) /\
  owed_crypto s ≡ₚ collect crypto_frames acked ++ owed_crypto s' /\
  owed_ctrl s ≡ₚ collect ctrl_frames acked ++ owed_ctrl s' /\
  s_bytes_in_flight s' = flight_of (all_inflight s').
Proof.
  intros Ho Hw Hl. pose proof (life_inv client others cid ops Ho Hw Hl) as HI. destruct (run ops log_new _) as [L q].
  destruct HI as [[[_ [B _ _ _ _] _] _] _].
  destruct (process_ack_ok now level largest delay first ranges (q_send q) B) as ([_ B2 _ _] & [S1 S2 S3] & _).
  by split.
Qed.

(** A response in two packets, the second with the end of the stream. *)
Definition example_life : list QOp :=
  example_setup ++ [QWrite 0 [1; 2; 3]; QPacket 1000 None; QWrite 0 [4; 5]; QClose 0; QPacket 2000 None].
Definition example_after : Log * Quic := run example_life log_new (quic_new false 0 []).
Definition example_arrivals : list RecvOp :=
  [OpFrame (3, [4; 5], true); OpFrame (0, [1; 2; 3], false); OpFrame (3, [4; 5], true); OpDrain 4].

Lemma example_legal :
  others_ok 0 /\ written example_life <= U64_MAX /\ legal_run example_life log_new (quic_new false 0 []) = true.
Proof. by vm_compute. Qed.

Ltac at_example H :=
  destruct example_legal as (?H1 & ?H2 & ?H3);
  first [specialize (H H1 H2 H3) | idtac];
  fold example_after in H; rewrite (surjective_pairing example_after) in H; cbv beta iota in H.

Lemma example_heard :
  frames_on 0 (l_sent example_after.1) = [(3, [4; 5], true); (0, [1; 2; 3], false)] /\
  Forall (delivers [(3, [4; 5], true); (0, [1; 2; 3], false)]) example_arrivals.
Proof.
  split; [by vm_compute|]. repeat (apply Forall_cons_2; [cbn; set_solver || done|]). apply Forall_nil_2.
Qed.

Lemma connection_delivers_witness :
  (recv_run example_arrivals [] recv_default).1 = [1; 2; 3; 4] /\
  exists rest, [1; 2; 3; 4; 5] = (recv_run example_arrivals [] recv_default).1 ++ rest.
Proof.
  pose proof (connection_delivers false 0 [] example_life 0 example_arrivals [1; 2; 3; 4; 5]) as H. at_example H.
  destruct example_heard as [E HF]. rewrite E in H. specialize (H ltac:(vm_compute; reflexivity) HF).
  rewrite (surjective_pairing (recv_run _ _ _)) in H. cbv beta iota in H.
  split; [by vm_compute|]. exact (proj1 H).
Defined.

Lemma connection_within_limits_witness :
  q_data_sent example_after.2 = 5 /\ 0 <= q_data_sent example_after.2 <= q_peer_max_data example_after.2.
Proof.
  split; [by vm_compute|]. pose proof (connection_within_limits false 0 [] example_life) as H. at_example H. exact (proj1 H).
Defined.

(** A request on stream 0, half an answer, STOP_SENDING, the stream reaped, and a
    handler that goes on writing. *)
Definition example_reuse : list QOp :=
  example_setup ++ [QPayload 900 LevelOneRtt 0 [11; 0; 1; 65]; QRead 0 10; QWrite 0 [1; 2; 3]; QPacket 1000 None;
                    QPayload 1100 LevelOneRtt 1 [5; 0; 0]; QReap; QWrite 0 [9; 9]; QPacket 2000 None].

(** A write after the reap opens the stream again at offset 0, so that the peer gets
    two versions of its first bytes. *)
Lemma reused_id_repeats_offsets :
  legal_run example_reuse log_new (quic_new false 0 []) = true /\
  let (L, q) := run example_reuse log_new (quic_new false 0 []) in
  incarnations 0 L q = [[1; 2; 3]; [9; 9]] /\
  frames_on 0 (l_sent L) = [(0, [9; 9], false); (0, [1; 2; 3], false)].
Proof. vm_compute. by split. Qed.

(** The second packet of the example, about to be built. *)
Definition example_before : list QOp :=
  example_setup ++ [QWrite 0 [1; 2; 3]; QPacket 1000 None; QWrite 0 [4; 5]; QClose 0].
Definition example_pending : Log * Quic := run example_before log_new (quic_new false 0 []).

Definition heard_in (r : unit + option Packet) : option (list StreamRetx) :=
  match r with inr (Some pk) => Some (heard (pk_payload pk)) | _ => None end.
Definition shipped_in (r : unit + list Packet) : option nat := match r with inr ps => Some (length ps) | inl _ => None end.

Lemma one_rtt_packet_exact_witness :
  exists pk q' cs taken rest fresh,
    encode_one_rtt_packet 2000 None example_pending.2 = (inr (Some pk), q') /\
    packet_of 2000 example_pending.2 q' pk cs /\ stream_calls cs = taken ++ fresh /\
    in_window example_pending.2 taken rest fresh /\ heard (pk_payload pk) = [mkStreamRetx 0 3 true [4; 5]].
Proof.
  pose proof (one_rtt_packet_exact false 0 [] example_before 2000 None ltac:(by vm_compute) ltac:(by vm_compute)
    ltac:(vm_compute; reflexivity)) as H.
  fold example_pending in H. rewrite (surjective_pairing example_pending) in H. cbv beta iota in H.
  destruct (H ltac:(vm_compute; reflexivity)) as (r & fresh & q' & E & _ & Hr). clear H.
  assert (heard_in (encode_one_rtt_packet 2000 None example_pending.2).1 = Some [mkStreamRetx 0 3 true [4; 5]]) as Hh
    by (vm_compute; reflexivity).
  rewrite E in Hh. cbn [fst heard_in] in Hh. destruct r as [pk|]; [|discriminate Hh]. injection Hh as Hh.
  destruct Hr as (cs & taken & rest & _ & Hp & Hs & _ & Hw). exists pk, q', cs, taken, rest, fresh.
  exact (conj E (conj Hp (conj Hs (conj Hw Hh)))).
Defined.

(** A large response, and one behind which the ends of three empty streams wait. *)
Definition example_bulk : list QOp := example_setup ++ [QWrite 0 (repeat 7 12000)].
Definition example_full : Log * Quic := run example_bulk log_new (quic_new false 0 []).

Lemma gso_super_buffer_witness :
  exists ps q', try_flush_gso 1000 (Some 20480) example_full.2 = (inr ps, q') /\
    Forall (fun p => pk_wire p = 1129) ps /\ length ps = 12%nat.
Proof.
  pose proof (gso_super_buffer false 0 [] example_bulk 1000 (Some 20480) ltac:(by vm_compute) ltac:(by vm_compute)
    ltac:(vm_compute; reflexivity)) as H.
  fold example_full in H. rewrite (surjective_pairing example_full) in H. cbv beta iota in H.
  destruct H as (ps & q' & E & Hw & _); [by vm_compute|by vm_compute|by vm_compute|].
  assert (shipped_in (try_flush_gso 1000 (Some 20480) example_full.2).1 = Some 12%nat) as Hn by (vm_compute; reflexivity).
  rewrite E in Hn. cbn [fst shipped_in] in Hn. injection Hn as Hn. exists ps, q'. exact (conj E (conj Hw Hn)).
Defined.

(** Nothing is shipped, although packet 0 with 1083 stream bytes is on record. *)
Lemma gso_drops_sealed_packet_witness :
  exists pk q', try_flush_gso 1000 (Some 20480) (run example_gso log_new (quic_new false 0 [])).2 = (inr [], q') /\
    pk_pn pk = 0 /\ 1129 < pk_wire pk /\ on_record q' pk /\ q_data_sent q' = 1083.
Proof.
  pose proof (gso_drops_sealed_packet false 0 [] example_gso 1000 (Some 20480) ltac:(by vm_compute) ltac:(by vm_compute)
    ltac:(vm_compute; reflexivity)) as H.
  set (x := run example_gso log_new (quic_new false 0 [])) in *. rewrite (surjective_pairing x) in H. cbv beta iota in H.
  destruct H as (ps & dropped & q' & E & Hd & Hl & Hg); [by vm_compute|by vm_compute|by vm_compute|].
  assert ((try_flush_gso 1000 (Some 20480) x.2).1 = inr []) as He by (vm_compute; reflexivity).
  assert (next_pn x.2 = 0 /\ next_pn (try_flush_gso 1000 (Some 20480) x.2).2 = 1 /\
    q_data_sent (try_flush_gso 1000 (Some 20480) x.2).2 = 1083) as (N0 & N1 & Hs) by (vm_compute; repeat split).
  rewrite E in He, N1, Hs. cbn [fst snd] in He, N1, Hs. injection He as ->. cbn [app] in Hg.
  destruct Hg as [G1 G2 G3 _]. destruct dropped as [|pk [|]]; [rewrite N0, N1 in G2; discriminate G2| |cbn in Hd; lia].
  apply Forall_inv in Hl, G3. pose proof (G1 0%nat pk eq_refl) as Hp. rewrite N0 in Hp. exists pk, q'.
  exact (conj E (conj Hp (conj Hl (conj G3 Hs)))).
Defined.

Lemma ack_settles_exactly_witness :
  let s := q_send example_after.2 in
  let s' := exec (process_ack 9000 LevelOneRtt 0 0 0 (mkAckRanges [] 0)) s in
  s_bytes_in_flight s = 90 /\ s_bytes_in_flight s' = flight_of (all_inflight s').
Proof.
  pose proof (ack_settles_exactly false 0 [] example_life 9000 LevelOneRtt 0 0 0 (mkAckRanges [] 0)) as H. at_example H.
  split; [by vm_compute|exact (proj2 (proj2 (proj2 H)))].
Defined.

(** Everything sent, nothing is due. *)
Lemma nothing_due_nothing_sent_witness :
  has_one_rtt_to_send 3000 example_after.2 = false /\
  encode_one_rtt_packet 3000 None example_after.2 = (inr None, example_after.2).
Proof.
  assert (has_one_rtt_to_send 3000 example_after.2 = false) as H by (vm_compute; reflexivity).
  split; [exact H|]. exact (nothing_due_nothing_sent 3000 None example_after.2 H ltac:(by vm_compute)).
Defined.

(** The first page of the example of the offload path. *)
Definition example_page : Log * Quic := run example_gso log_new (quic_new false 0 []).
Definition example_packet : Packet :=
  match eval (encode_one_rtt_packet 1000 None) example_page.2 with inr (Some pk) => pk | _ => mkPacket 0 [] 0 end.

Lemma one_rtt_packet_fits_witness :
  pk_wire example_packet = 1130 /\ MAX_L2_HEADROOM + pk_wire example_packet <= MAX_QUIC_DATAGRAM.
Proof.
  split; [vm_compute; reflexivity|].
  pose proof (one_rtt_packet_fits false 0 [] example_gso 1000 example_packet (exec (encode_one_rtt_packet 1000 None) example_page.2)
    ltac:(by vm_compute) ltac:(by vm_compute) ltac:(vm_compute; reflexivity)) as H.
  fold example_page in H. rewrite (surjective_pairing example_page) in H. cbv beta iota in H.
  apply H; [vm_compute; reflexivity|by vm_compute|].
  assert (eval (encode_one_rtt_packet 1000 None) example_page.2 = inr (Some example_packet)) as E by (vm_compute; reflexivity).
  rewrite <-E. apply surjective_pairing.
Defined.
